(* ===== verification/_CoqProject ===== *)
-Q . S2P
Prelude.v
CMem.v
Errors.v
Frontend.v
FrontendSpec.v
Logging.v
FrontendTheorems.v
Backend.v
BackendTheorems.v
LogicalPlan.v
LogicalPlanTheorems.v
Dnf.v
DnfTheorems.v
DnfClauses.v
SocketIO.v
SocketTheorems.v
Quoting.v
SqlStatement.v
HashTheorems.v
Compress.v
CompressTheorems.v
DecompressTheorems.v
Types.v
TypesTheorems.v
Optimize.v
OptimizeStore.v
FixTheorems.v
OptimizeTheorems.v
OptimizeRows.v
OptimizeErrors.v
GenerateWhere.v
GenerateTheorems.v
GeneratePlan.v
PlanTheorems.v
PlanVerified.v
SetPlans.v
PhysicalPlan.v
PlanRun.v
PhysicalTheorems.v
PhysicalEnds.v
PhysicalSelect.v
PhysicalSets.v
PhysicalOwners.v
RoutineName.v
MemoryChunk.v
Deserialize.v
Session.v
SessionTheorems.v
EmitPlan.v
MExpression.v
EmitTheorems.v
Qualify.v
QualifyTheorems.v
QualifyQuery.v
QueryInput.v
Auth.v
AuthTheorems.v
MainLoop.v
MainLoopTheorems.v
Connection.v
ConnectionTheorems.v
CreateTable.v
NaturalJoin.v
NaturalTheorems.v
TableDefaults.v
DefaultsTheorems.v
RunQuery.v
Handlers.v
FindTable.v
HandlerTheorems.v
SelectTheorems.v
AnswerTheorems.v
QueryTermination.v
HandlerErrors.v
EmitColumns.v
MTheorems.v
MMeaning.v
EmitStatement.v
FindTheorems.v
