(* ===== verification/Prelude.v ===== *)
(** * YottaDB Octo: a verification of the server and of its query planner

    Octo is an SQL front end to the YottaDB database.  A client speaks the PostgreSQL
    wire protocol with [rocto] (src/src/rocto.c and src/src/rocto/): one forked
    process per connection authenticates the client, then reads messages and answers
    them.  A query is parsed into a syntax tree (src/src/octo_types.h), its names are
    resolved and its types checked, the tree is hashed to find an earlier compilation,
    turned into a logical plan (src/src/optimization_transforms/), optimised, turned
    into a physical plan and written out as M code, which is run and whose rows are sent
    back.  The development follows the bytes of a connection from the socket to the
    database and back, and a query from the syntax tree to the files of its plan.

    ** How C is modelled

    Integers are [Z] with their wrap-around written out ([u32], [s32], [u64], ...).
    Memory is a list of bytes per block, a pointer into a block an offset; every load
    and store is checked ([CMem]).  A function returns an [outcome]: a value, an
    undefined behaviour ([Undef], with its kind), the end of the process ([Halt]) or
    exhausted fuel ([NoFuel]).  What uninitialised memory holds is a parameter [mem].
    What the kernel answers to [recv], [send] and [select] is an explicit list of
    events, over which the theorems quantify.  The syntax tree and the plans are
    inductive types; where several places share a struct that is written to (values,
    keys, aliases), they hold its address and the struct is in a finite map of the state.
    libyottadb, OpenSSL's MD5, the generated parser and the M runtime
    are classes ([YottaDB], [YottaDBNodes], [MD5Hash], [SqlParser], [QueryRuntime]); what
    is assumed of them are the laws of other classes ([YottaDBLaws], [YottaDBNodesLaws],
    [SubtreeLaws], [IncrLaws]) or named hypotheses, which the witnesses discharge with finite maps and small
    parsers.  The session loop is proved against the class [QueryHandlers], of which the
    handlers of [Handlers] are the instance.

    ** Files, sources and theorems

    Shared:
    - [Prelude]: outcomes and their monad, machine integers, byte strings, tactics and
      hint databases.  [CMem]: blocks, loads, stores, scans and copies.
    - [Errors] (errors.hd, error_codes.hd, errors.h, format_error_string.c,
      rocto/error_severity.hd, make_error_response.c, read_error_response.c): the error
      tables, printf into the bounded buffer, and the wire form of an error, which a
      client reads back.
    - [Logging] (errors.c): the entries of the log, which during a session the client gets as
      notices and errors.
    - [MemoryChunk] (memory_chunk.c, double_list.h): the arena allocator.

    The wire:
    - [Frontend] (rocto/read_bind.c, read_parse.c, read_execute.c, read_describe.c,
      read_close.c, read_query.c, read_password_message.c, read_flush.c, read_sync.c,
      read_terminate.c, read_ssl_request.c): the readers of client messages.
      [FrontendSpec] has parsers on lists as their specification, [FrontendTheorems]
      that the readers refine them, accept exactly the encodings of well-formed
      messages, and always answer (but for a negative parameter length of a Bind and an
      empty Close).
    - [Backend], [BackendTheorems] (rocto/make_...c and the client's read_...c): the
      messages the server sends and that a client reads them back.
    - [SocketIO], [SocketTheorems] (rocto/read_bytes.c, send_bytes.c, read_message.c,
      send_message.c, read_startup_message.c): nothing is lost or reordered for any
      segmentation and interruption.
    - [Deserialize] (rocto/deserialize.c, copy_bind_parameter.c): binary parameters.

    The session:
    - [Session], [SessionTheorems] (rocto/handle_parse.c, handle_bind.c,
      helpers/make_buffers.c): prepared statements in the database and the
      substitution of bound parameters.
    - [Auth], [AuthTheorems] (rocto/handle_password_message.c,
      get_user_column_value.c, make_password_message.c): who is let in.
    - [MainLoop], [MainLoopTheorems] (rocto/rocto_main_loop.c): the session loop refines
      the abstract session [serve].
    - [Connection], [ConnectionTheorems] (rocto.c, helpers/set.c): a connection from its
      first byte to its last: login, session variables, reports, session loop.

    Running statements:
    - [QueryInput] (parse_line.c, and get_input and no_more of readline_get_more.c):
      what the parser reads.
    - [CreateTable] (emit_column_specification.c, emit_create_table.c,
      store_table_in_pg_class.c): the text of a table and its entries in the catalogue.
    - [TableDefaults], [DefaultsTheorems] (create_table_defaults.c, generate_key_name.c): where
      the rows of a new table are kept, if the statement does not say so.
    - [Compress] (compress_statement.c, decompress_statement.c): the stored form of a
      table.  [CompressTheorems] and [DecompressTheorems]: the round trip.
    - [FindTable] (find_table.c, assign_table_to_columns.c): loading a stored table.
      [FindTheorems]: the table CREATE TABLE stored is the table found.
    - [RunQuery] (run_query.c, helpers/get.c, helpers/set.c): one statement of the input, with
      what it logs at WARNING and above.
    - [Handlers] (rocto/handle_query.c, handle_execute.c, handle_describe.c,
      handle_query_response.c, get_plan_row_description.c).  [HandlerTheorems]: the shape
      of every answer, the log of the statement first; [SelectTheorems], [AnswerTheorems]: the
      answers to a query, from the network to the network, on a server that records nothing
      below WARNING; [QueryTermination]: the loops over the statements of a
      text end; [HandlerErrors]: the paths that overrun a buffer or end the process.

    The query compiler:
    - [SqlStatement], [HashTheorems] (octo_types.h, hash_canonical_query.c): the syntax
      tree and what its hash distinguishes.
    - [Qualify] (qualify_query.c, qualify_statement.c, qualify_column_name.c,
      match_column_in_table.c, qualify_column_list.c, qualify_function_name.c): names.
      [QualifyTheorems]: a single name; [QualifyQuery]: lexical scope, and a whole query.
    - [NaturalJoin], [NaturalTheorems] (natural_join_condition.c): what a NATURAL JOIN
      compares, with the names resolved as [Qualify] does: what is asked for if the shared
      columns are first columns.
    - [Types], [TypesTheorems] (populate_data_type.c): the type check is exact on the
      expressions it covers; where it is not.
    - [Quoting] (quoting.c, m_escape_string2.c, regex_to_like.c): M string literals and
      LIKE patterns.
    - [LogicalPlan], [LogicalPlanTheorems] (logical_plan.h, lp_action_type.hd,
      lp_verify_structure.c, the lp_get_...c accessors, lp_insert_key.c,
      lp_join_where.c, lp_join_plans.c and others): plans, their structure check, and
      what the accessors return in a plan that passed it.
    - [GenerateWhere], [GenerateTheorems] (lp_generate_where.c): the plan of a condition
      has the condition's value.
    - [GeneratePlan] (generate_logical_plan.c, lp_generate_set_logical_plan.c,
      lp_column_list_to_lp.c, lp_columns_to_column_list.c, lp_table_join_to_column_list.c,
      lp_replace_derived_table_references.c, get_column_piece_number.c): the plan of a
      query.  [PlanTheorems]: what it is, and that after the optimiser the plans select
      exactly the rows asked for; [PlanVerified]: it passes lp_verify_structure;
      [SetPlans]: set operations and subqueries in FROM.
    - [Dnf], [DnfTheorems], [DnfClauses] (lp_make_normal_disjunctive_form.c): the normal
      form has the same value and, for right-nested conditions, is normal.
    - [Optimize] (optimize_logical_plan.c, lp_opt_fix_key_to_const.c,
      lp_optimize_where_multi_equals_ands.c, lp_generate_xref_plan.c, lp_copy_plan.c and others): the
      optimiser.  [OptimizeStore], [FixTheorems], [OptimizeTheorems]: its steps;
      [OptimizeRows]: it keeps the rows of a query that needs no cross reference, and every
      fixed key is fixed by an equality of the condition; [OptimizeErrors]: where it overruns an array.
    - [PhysicalPlan] (physical/physical_plan.h, generate_physical_plan.c): the physical
      plans, a doubly linked list in a store of its own.  [PhysicalTheorems]: the list has
      every plan, each before the one it is made for, if no subquery is shared;
      [PhysicalEnds]: making it ends; [PhysicalOwners]: which plans wait for the row of an outer
      query.
    - [PlanRun] (m_templates/tmpl_physical_plan.ctemplate, tmpl_duplication_check.ctemplate):
      what a plan does to the cursor when it runs, row by row: the output, its counter, the
      index that set operations look rows up in.  [PhysicalSelect], [PhysicalSets]: the plan of
      a SELECT, what the plans of a set operation leave in the cursor, and where that is
      not what was asked.
    - [EmitPlan] (physical/emit_physical_plan.c, emit_select_statement.c): the files of the
      plans and the notes on their columns.  [EmitTheorems]: what a file holds, and which
      cross references share one; [EmitColumns]: the columns noted are those the client is
      told of; [EmitStatement]: a statement from its logical plans to its file and to the
      RowDescription.  The interface [QueryRuntime] of [RunQuery] has the compiler as a
      member, with the planner's state as part of its database.
    - [MExpression] (m_templates/tmpl_print_expression.ctemplate, tmpl_key.ctemplate): the M
      text of an expression, and the grammar of M expressions as a parser.  [MTheorems]: the
      text, read without precedence from left to right, is the M expression meant; [MMeaning]: worked off by the
      rules of M it has the value that SQL gives the expression of the plan.
    - [RoutineName] (generate_routine_name.c, ydb_hash_to_string.c): names of generated
      routines.

    ** Bounds and fuel

    Loops over a block carry the block's length as fuel, which each turn decreases;
    [readers_answer] and the refinement theorems show that it never runs out.  The
    reading loop is given the weight of the events ahead of it, the sending loop and
    the session loop recurse on the events themselves: [NoFuel] is there a run whose
    events are not all told.  The loops of the handlers over the statements of a text
    end within one turn more than the text has characters, those over rows and columns
    within one more than there are.  [lp_make_normal_disjunctive_form] is given the size
    of the plan and is proved to return; the optimiser needs twice the number of clauses
    of the normal form; loading a stored table its size and one; qualification twice the
    depth of the query; plan generation one more than subqueries and set operations are
    nested; physical plans the size of the logical plan, the search for the owner of a
    column two turns more than there are plans, a walk along the plans one; the loop over
    default variables one turn more than there are defaults; [find_table] a turn for each
    character of the name and one more, and for the parts of a table more than its size;
    the parser of M texts four times the length of the text.  Each
    is a lemma or part of a theorem.  Buffers are [MAX_STR_CONST] bytes, as in octo.h.

    ** Not modelled

    The grammar and the lexer (bison and flex sources, whose tables are generated) and
    find_column_alias_name.c and column_list_alias_to_columns.c, which only it calls; the rewriting of outer
    joins into set operations (a parameter of [GeneratePlan]) with the copies of
    statements it makes; the M code templates (ctemplate files that a build step turns into
    C) except those of expressions and keys and what a plan does to the cursor: the text for a
    plan is a parameter of [EmitPlan], the text of a column one of [MExpression], the rows that
    the loops of a plan let through one of [PlanRun]; the plan printer lp_emit_plan.c; log
    entries below WARNING, and the warnings of read_bytes.c when a connection breaks off; a
    memory allocation, a write to an open file or a renaming that fails; TLS; listening,
    forking, signals and configuration files; the interactive input of the octo program.  *)
From Stdlib Require Export ZArith Lia Strings.Byte.
From stdpp Require Export base decidable option list numbers.
From stdpp Require Import countable strings.

#[global] Open Scope Z_scope.

(** ** Outcomes of C code

    A C function either returns, has undefined behaviour (an access outside the
    object, a read of an indeterminate value, a free of a pointer that no
    allocation returned, a NULL dereference, a read of a union member that was
    not the one written), ends the process ([assert], [FATAL]), or - in the model
    only - runs out of the fuel given to a loop. *)
Inductive ub_kind := OutOfBounds | Uninitialised | BadFree | NullPointer | WrongMember.
Inductive halt_kind := AssertFailed | FatalExit.

Inductive outcome (A : Type) : Type :=
  | Ret (a : A)
  | Undef (u : ub_kind)
  | Halt (h : halt_kind)
  | NoFuel.
Arguments Ret {A} _.
Arguments Undef {A} _.
Arguments Halt {A} _.
Arguments NoFuel {A}.

#[export] Instance outcome_ret : MRet outcome := @Ret.
#[export] Instance outcome_bind : MBind outcome := λ A B f m,
  match m with
  | Ret a => f a
  | Undef u => Undef u
  | Halt h => Halt h
  | NoFuel => NoFuel
  end.

(** [assert(e)] of the C sources (the code is built with assertions on). *)
Definition c_assert (b : bool) : outcome unit :=
  if b then Ret () else Halt AssertFailed.

(** A computation that returns: no undefined behaviour, no abort, enough fuel. *)
Definition returns {A} (m : outcome A) : Prop := ∃ a, m = Ret a.
Definition no_undef {A} (m : outcome A) : Prop := ∀ u, m ≠ Undef u.

Lemma bind_ret_l {A B} (a : A) (f : A → outcome B) : (Ret a ≫= f) = f a.
Proof. done. Qed.
Lemma bind_ret_inv {A B} (m : outcome A) (f : A → outcome B) b :
  (m ≫= f) = Ret b → ∃ a, m = Ret a ∧ f a = Ret b.
Proof. destruct m; naive_solver. Qed.
Lemma bind_assoc {A B C} (m : outcome A) (f : A → outcome B) (g : B → outcome C) :
  ((m ≫= f) ≫= g) = (m ≫= λ a, f a ≫= g).
Proof. by destruct m. Qed.
Lemma returns_ret {A} (a : A) : returns (Ret a).
Proof. by eexists. Qed.
Lemma returns_no_undef {A} (m : outcome A) : returns m → no_undef m.
Proof. intros [a ->] u; congruence. Qed.
Lemma returns_bind {A B} (m : outcome A) (f : A → outcome B) :
  returns m → (∀ a, m = Ret a → returns (f a)) → returns (m ≫= f).
Proof. intros [a ->] H; simpl; by apply H. Qed.

Create HintDb octo discriminated.
#[export] Hint Resolve returns_ret returns_no_undef : octo.

(** ** Bytes

    A C [char] is a byte; where its signedness matters the code that reads it
    uses [schar]. *)
#[export] Instance byte_eq_dec : EqDecision byte := Byte.byte_eq_dec.
#[export] Instance byte_inhabited : Inhabited byte := populate x00.

Definition b2z (b : byte) : Z := Z.of_N (Byte.to_N b).
Definition z2b (z : Z) : byte := default x00 (Byte.of_N (Z.to_N (z mod 256))).
Definition nul : byte := x00.

(** A string literal of the sources, as bytes (no terminator). *)
Definition lit (s : string) : list byte := String.list_byte_of_string s.
(** A character constant of the sources. *)
Definition chr (s : string) : byte := default x00 (head (lit s)).

Lemma b2z_range b : 0 ≤ b2z b < 256.
Proof. unfold b2z. pose proof (Byte.to_N_bounded b). lia. Qed.

Lemma z2b_b2z b : z2b (b2z b) = b.
Proof.
  unfold z2b. rewrite Z.mod_small by apply b2z_range. unfold b2z.
  by rewrite N2Z.id, Byte.of_to_N.
Qed.
#[export] Instance byte_countable : Countable byte := inj_countable' b2z z2b z2b_b2z.

Lemma b2z_z2b z : b2z (z2b z) = z mod 256.
Proof.
  unfold z2b, b2z. pose proof (Z.mod_pos_bound z 256 ltac:(lia)).
  destruct (Byte.of_N (Z.to_N (z mod 256))) as [b|] eqn:E; simpl.
  - apply Byte.to_of_N in E. rewrite E. lia.
  - apply Byte.of_N_None_iff in E. lia.
Qed.

Lemma b2z_z2b_small z : 0 ≤ z < 256 → b2z (z2b z) = z.
Proof. intros. rewrite b2z_z2b. by apply Z.mod_small. Qed.

#[export] Instance b2z_inj : Inj (=) (=) b2z.
Proof. intros x y H. by rewrite <- (z2b_b2z x), <- (z2b_b2z y), H. Qed.

(** A property of every byte, by evaluating it on the 256 of them. *)
Definition all_bytes : list byte := z2b <$> seqZ 0 256.
Lemma elem_of_all_bytes b : b ∈ all_bytes.
Proof.
  unfold all_bytes. apply list_elem_of_fmap. exists (b2z b).
  rewrite z2b_b2z, elem_of_seqZ. pose proof (b2z_range b). by split; [|lia].
Qed.
Lemma forall_bytes (P : byte → Prop) `{∀ b, Decision (P b)} :
  forallb (λ b, bool_decide (P b)) all_bytes = true → ∀ b, P b.
Proof.
  intros Hall b. rewrite forallb_forall in Hall.
  apply (bool_decide_eq_true_1 (P b)), Hall, list_elem_of_In, elem_of_all_bytes.
Qed.

(** ** Machine integers

    Widths of the LP64 target: [short] 16, [int] 32, [long] and [size_t] 64. *)
Definition u8 (z : Z) : Z := z mod 2 ^ 8.
Definition u16 (z : Z) : Z := z mod 2 ^ 16.
Definition u32 (z : Z) : Z := z mod 2 ^ 32.
Definition u64 (z : Z) : Z := z mod 2 ^ 64.
Definition signed (w z : Z) : Z :=
  let m := z mod 2 ^ w in if m <? 2 ^ (w - 1) then m else m - 2 ^ w.
Definition s8 : Z → Z := signed 8.
Definition s16 : Z → Z := signed 16.
Definition s32 : Z → Z := signed 32.
Definition s64 : Z → Z := signed 64.

Lemma signed_range w z : 0 < w → - 2 ^ (w - 1) ≤ signed w z < 2 ^ (w - 1).
Proof.
  intros Hw. unfold signed.
  assert (Hp : 2 ^ w = 2 * 2 ^ (w - 1)).
  { rewrite <- Z.pow_succ_r by lia. f_equal; lia. }
  pose proof (Z.mod_pos_bound z (2 ^ w) ltac:(apply Z.pow_pos_nonneg; lia)).
  case_match eqn:E; lia.
Qed.

Lemma signed_small w z : 0 < w → 0 ≤ z < 2 ^ (w - 1) → signed w z = z.
Proof.
  intros Hw Hz. unfold signed.
  assert (Hp : 2 ^ w = 2 * 2 ^ (w - 1)).
  { rewrite <- Z.pow_succ_r by lia. f_equal; lia. }
  rewrite Z.mod_small by lia. case_match eqn:E; lia.
Qed.

Lemma signed_nonneg w z : 0 ≤ z < 2 ^ w → 0 ≤ signed w z → signed w z = z.
Proof. intros Hz. unfold signed. rewrite Z.mod_small by lia. case_match; lia. Qed.

Lemma signed_mod w z : 0 < w → - 2 ^ (w - 1) ≤ z < 2 ^ (w - 1) → signed w (z mod 2 ^ w) = z.
Proof.
  intros Hw Hz. unfold signed. rewrite Z.mod_mod by lia.
  assert (Hp : 2 ^ w = 2 * 2 ^ (w - 1)).
  { rewrite <- Z.pow_succ_r by lia. f_equal; lia. }
  destruct (Z.ltb_spec z 0).
  - rewrite <- (Z.mod_unique z (2 ^ w) (-1) (z + 2 ^ w)) by lia. case_match; lia.
  - rewrite Z.mod_small by lia. case_match; lia.
Qed.
Lemma s16_u16 z : - 2 ^ 15 ≤ z < 2 ^ 15 → s16 (u16 z) = z.
Proof. intros. apply (signed_mod 16); lia. Qed.
Lemma s32_u32 z : - 2 ^ 31 ≤ z < 2 ^ 31 → s32 (u32 z) = z.
Proof. intros. apply (signed_mod 32); lia. Qed.

Lemma s16_small z : 0 ≤ z < 2 ^ 15 → s16 z = z.
Proof. intros. apply signed_small; lia. Qed.
Lemma s32_small z : 0 ≤ z < 2 ^ 31 → s32 z = z.
Proof. intros. apply signed_small; lia. Qed.
Lemma u32_small z : 0 ≤ z < 2 ^ 32 → u32 z = z.
Proof. apply Z.mod_small. Qed.
Lemma u32_range z : 0 ≤ u32 z < 2 ^ 32.
Proof. apply Z.mod_pos_bound. lia. Qed.
Lemma u16_range z : 0 ≤ u16 z < 2 ^ 16.
Proof. apply Z.mod_pos_bound. lia. Qed.
Lemma s16_range z : - 2 ^ 15 ≤ s16 z < 2 ^ 15.
Proof. apply (signed_range 16). lia. Qed.
Lemma s32_range z : - 2 ^ 31 ≤ s32 z < 2 ^ 31.
Proof. apply (signed_range 32). lia. Qed.

(** ** Lists with [Z] lengths *)
Definition zlen {A} (l : list A) : Z := Z.of_nat (length l).

Lemma zlen_nil {A} : zlen (@nil A) = 0.
Proof. done. Qed.
Lemma zlen_cons {A} (x : A) l : zlen (x :: l) = 1 + zlen l.
Proof. unfold zlen; simpl; lia. Qed.
Lemma zlen_app {A} (l k : list A) : zlen (l ++ k) = zlen l + zlen k.
Proof. unfold zlen. rewrite length_app. lia. Qed.
Lemma zlen_nonneg {A} (l : list A) : 0 ≤ zlen l.
Proof. unfold zlen; lia. Qed.
Lemma zlen_replicate {A} n (x : A) : zlen (replicate n x) = Z.of_nat n.
Proof. unfold zlen. by rewrite length_replicate. Qed.
Lemma zlen_fmap {A B} (f : A → B) l : zlen (f <$> l) = zlen l.
Proof. unfold zlen. by rewrite length_fmap. Qed.
Lemma zlen_to_nat {A} (l : list A) : Z.to_nat (zlen l) = length l.
Proof. unfold zlen. lia. Qed.

Create Rewrite HintDb zlen.
#[export] Hint Rewrite @zlen_nil @zlen_cons @zlen_app @zlen_replicate @zlen_fmap
  @zlen_to_nat : zlen.

(** Facts [lia] needs about every length in sight. *)
Ltac zlen_pos :=
  repeat match goal with
  | |- context [zlen ?l] =>
      lazymatch goal with
      | _ : 0 ≤ zlen l |- _ => fail
      | _ => pose proof (zlen_nonneg l)
      end
  | _ : context [zlen ?l] |- _ =>
      lazymatch goal with
      | _ : 0 ≤ zlen l |- _ => fail
      | _ => pose proof (zlen_nonneg l)
      end
  end.
Ltac zlia := autorewrite with zlen in *; zlen_pos; lia.

Lemma forallb_Forall {A} (f : A → bool) (P : A → Prop) l :
  (∀ x, f x = true → P x) → forallb f l = true → Forall P l.
Proof.
  intros Hf. induction l as [|x l IH]; cbn; [constructor|].
  intros [??]%andb_true_iff. constructor; auto.
Qed.
Lemma Forall_forallb {A} (f : A → bool) (P : A → Prop) l :
  (∀ x, P x → f x = true) → Forall P l → forallb f l = true.
Proof. intros Hf. induction 1 as [|x l Hx _ IH]; cbn; [done|]. by rewrite Hf, IH. Qed.

(** ** C strings *)
(** The bytes before the first NUL and the bytes after it. *)
Fixpoint split_nul (l : list byte) : option (list byte * list byte) :=
  match l with
  | [] => None
  | c :: l' =>
      if decide (c = nul) then Some ([], l')
      else '(s, r) ← split_nul l'; Some (c :: s, r)
  end.

(** The C string at the front of a buffer: up to its NUL, or all of it. *)
Fixpoint cstr (l : list byte) : list byte :=
  match l with
  | [] => []
  | c :: l' => if decide (c = nul) then [] else c :: cstr l'
  end.

Definition no_nul (l : list byte) : Prop := nul ∉ l.
#[export] Instance no_nul_dec l : Decision (no_nul l).
Proof. unfold no_nul. apply _. Defined.

Lemma split_nul_app s r : no_nul s → split_nul (s ++ nul :: r) = Some (s, r).
Proof.
  unfold no_nul. induction s as [|c s IH]; simpl; intros Hs.
  - done.
  - apply not_elem_of_cons in Hs as [? ?]. rewrite decide_False by done.
    by rewrite IH.
Qed.

Lemma split_nul_Some l s r : split_nul l = Some (s, r) → l = s ++ nul :: r ∧ no_nul s.
Proof.
  unfold no_nul. revert s r. induction l as [|c l IH]; simpl; intros s r; [done|].
  case_decide as Hc.
  - intros [= <- <-]. subst. split; [done|]. apply not_elem_of_nil.
  - destruct (split_nul l) as [[s' r']|] eqn:E; simpl; [|done].
    intros [= <- <-]. destruct (IH s' r' eq_refl) as [-> ?]. split; [done|].
    apply not_elem_of_cons. done.
Qed.

Lemma split_nul_None l : split_nul l = None ↔ no_nul l.
Proof.
  unfold no_nul. induction l as [|c l IH]; simpl.
  - split; [intros _; apply not_elem_of_nil|done].
  - rewrite not_elem_of_cons. case_decide; [naive_solver|].
    destruct (split_nul l) as [[??]|]; simpl; naive_solver.
Qed.

Lemma cstr_app_nul s r : no_nul s → cstr (s ++ nul :: r) = s.
Proof.
  unfold no_nul. induction s as [|c s IH]; simpl; intros Hs; [done|].
  apply not_elem_of_cons in Hs as [? ?]. rewrite decide_False by done. by f_equal; auto.
Qed.
Lemma cstr_no_nul l : no_nul (cstr l).
Proof.
  unfold no_nul. induction l as [|c l IH]; simpl; [apply not_elem_of_nil|].
  case_decide; [apply not_elem_of_nil|]. apply not_elem_of_cons; done.
Qed.
Lemma cstr_id l : no_nul l → cstr l = l.
Proof.
  unfold no_nul. induction l as [|c l IH]; simpl; intros Hl; [done|].
  apply not_elem_of_cons in Hl as [? ?]. rewrite decide_False by done. by f_equal; auto.
Qed.
Lemma no_nul_app s t : no_nul (s ++ t) ↔ no_nul s ∧ no_nul t.
Proof. unfold no_nul. rewrite elem_of_app. naive_solver. Qed.
#[export] Hint Resolve cstr_no_nul : octo.

(** Decide the comparisons of the goal that the context settles. *)
Ltac zdec1 :=
  match goal with
  | |- context [?a <? ?b] =>
      first [ replace (a <? b) with true by (symmetry; apply Z.ltb_lt; zlia)
            | replace (a <? b) with false by (symmetry; apply Z.ltb_ge; zlia) ]
  | |- context [?a <=? ?b] =>
      first [ replace (a <=? b) with true by (symmetry; apply Z.leb_le; zlia)
            | replace (a <=? b) with false by (symmetry; apply Z.leb_gt; zlia) ]
  | |- context [?a =? ?b] =>
      first [ replace (a =? b) with true by (symmetry; apply Z.eqb_eq; zlia)
            | replace (a =? b) with false by (symmetry; apply Z.eqb_neq; zlia) ]
  end.
Ltac zdec := repeat zdec1; cbn [negb andb orb].

(** Concatenations associated to the right. *)
Ltac app_norm := repeat (progress (rewrite <- ?app_assoc; cbn [app])).

(** Prove a decidable proposition by running its decision procedure. *)
Ltac eval_decide := apply (bool_decide_unpack _); vm_compute; exact I.
