(* ===== verification/CMem.v ===== *)
(** * C memory blocks and byte order

    The rocto readers copy a network message into a heap block and walk it with
    [char] pointers.  A block is the list of its bytes, a pointer into it a [Z]
    offset; loads and stores outside the block are undefined behaviour.  The
    host is little-endian (the only layout Octo is built for), so [ntohs],
    [ntohl] and [be64toh] swap bytes. *)
From S2P Require Import Prelude.

(** ** Loads and stores *)
Definition load8 (b : list byte) (i : Z) : outcome byte :=
  if i <? 0 then Undef OutOfBounds
  else match b !! Z.to_nat i with Some x => Ret x | None => Undef OutOfBounds end.

(** [*(short * )p], [*(int * )p] and [*(long * )p]: host order, as unsigned. *)
Definition load16 (b : list byte) (i : Z) : outcome Z :=
  x ← load8 b i; y ← load8 b (i + 1); Ret (b2z x + 2 ^ 8 * b2z y).
Definition load32 (b : list byte) (i : Z) : outcome Z :=
  lo ← load16 b i; hi ← load16 b (i + 2); Ret (lo + 2 ^ 16 * hi).
Definition load64 (b : list byte) (i : Z) : outcome Z :=
  lo ← load32 b i; hi ← load32 b (i + 4); Ret (lo + 2 ^ 32 * hi).

Definition store8 (b : list byte) (i : Z) (x : byte) : outcome (list byte) :=
  if (i <? 0) || (zlen b <=? i) then Undef OutOfBounds
  else Ret (<[Z.to_nat i := x]> b).
Definition store16 (b : list byte) (i : Z) (z : Z) : outcome (list byte) :=
  b ← store8 b i (z2b z); store8 b (i + 1) (z2b (z / 2 ^ 8)).
Definition store32 (b : list byte) (i : Z) (z : Z) : outcome (list byte) :=
  b ← store16 b i z; store16 b (i + 2) (z / 2 ^ 16).

(** [memcpy] out of a block: [n] bytes from offset [i]. *)
Definition load_bytes (b : list byte) (i n : Z) : outcome (list byte) :=
  if (i <? 0) || (n <? 0) || (zlen b <? i + n) then Undef OutOfBounds
  else Ret (take (Z.to_nat n) (drop (Z.to_nat i) b)).

(** ** Byte order *)
Definition swap16 (z : Z) : Z := z / 2 ^ 8 + 2 ^ 8 * (z mod 2 ^ 8).
Definition swap32 (z : Z) : Z := swap16 (z / 2 ^ 16) + 2 ^ 16 * swap16 (z mod 2 ^ 16).
Definition swap64 (z : Z) : Z := swap32 (z / 2 ^ 32) + 2 ^ 32 * swap32 (z mod 2 ^ 32).
Definition ntohs (z : Z) : Z := swap16 (u16 z).
Definition htons (z : Z) : Z := swap16 (u16 z).
Definition ntohl (z : Z) : Z := swap32 (u32 z).
Definition htonl (z : Z) : Z := swap32 (u32 z).
Definition be64toh (z : Z) : Z := swap64 (u64 z).

(** Network order as the value of a byte list, most significant byte first. *)
Fixpoint be_value (acc : Z) (l : list byte) : Z :=
  match l with [] => acc | x :: l' => be_value (2 ^ 8 * acc + b2z x) l' end.
Definition be (l : list byte) : Z := be_value 0 l.
(** The bytes a host-order store leaves in memory. *)
Definition le16 (z : Z) : list byte := [z2b z; z2b (z / 2 ^ 8)].
Definition le32 (z : Z) : list byte := le16 z ++ le16 (z / 2 ^ 16).
(** The network-order bytes of an integer. *)
Definition be16 (z : Z) : list byte := [z2b (z / 2 ^ 8); z2b z].
Definition be32 (z : Z) : list byte := be16 (z / 2 ^ 16) ++ be16 z.

(** ** Laws *)
Lemma load8_app pre x post : load8 (pre ++ x :: post) (zlen pre) = Ret x.
Proof.
  unfold load8. pose proof (zlen_nonneg pre). case_match eqn:E; [lia|].
  rewrite zlen_to_nat, list_lookup_middle; done.
Qed.

Lemma load8_app_eq b i pre x post :
  b = pre ++ x :: post → i = zlen pre → load8 b i = Ret x.
Proof. intros -> ->. apply load8_app. Qed.

Lemma load8_Undef b i : (i < 0 ∨ zlen b ≤ i) → load8 b i = Undef OutOfBounds.
Proof.
  intros Hi. unfold load8. case_match eqn:E; [done|].
  rewrite lookup_ge_None_2; [done|]. unfold zlen in Hi. lia.
Qed.

Lemma load16_app_eq b i pre x y post :
  b = pre ++ x :: y :: post → i = zlen pre →
  load16 b i = Ret (b2z x + 2 ^ 8 * b2z y).
Proof.
  intros -> ->. unfold load16. rewrite load8_app. cbn [mbind outcome_bind].
  rewrite (load8_app_eq _ _ (pre ++ [x]) y post); [done| |zlia].
  by rewrite <- app_assoc.
Qed.

Lemma load32_app_eq b i pre x y z w post :
  b = pre ++ x :: y :: z :: w :: post → i = zlen pre →
  load32 b i = Ret (b2z x + 2 ^ 8 * b2z y + 2 ^ 16 * (b2z z + 2 ^ 8 * b2z w)).
Proof.
  intros -> ->. unfold load32. rewrite (load16_app_eq _ (zlen pre) pre x y (z :: w :: post)) by done.
  cbn [mbind outcome_bind].
  rewrite (load16_app_eq _ _ (pre ++ [x; y]) z w post); [done| |zlia].
  by rewrite <- app_assoc.
Qed.

Lemma swap16_pair x y : 0 ≤ x < 2 ^ 8 → 0 ≤ y < 2 ^ 8 → swap16 (x + 2 ^ 8 * y) = y + 2 ^ 8 * x.
Proof.
  intros. unfold swap16.
  rewrite (Z.mul_comm (2 ^ 8) y), Z.div_add, Z.mod_add by lia.
  rewrite Z.div_small, Z.mod_small by lia. lia.
Qed.

Lemma swap16_range z : 0 ≤ z < 2 ^ 16 → 0 ≤ swap16 z < 2 ^ 16.
Proof.
  intros. unfold swap16.
  pose proof (Z.mod_pos_bound z (2 ^ 8) ltac:(lia)).
  pose proof (Z.div_lt_upper_bound z (2 ^ 8) (2 ^ 8) ltac:(lia) ltac:(lia)).
  pose proof (Z.div_pos z (2 ^ 8) ltac:(lia) ltac:(lia)). lia.
Qed.

Lemma swap32_pair x y : 0 ≤ x < 2 ^ 16 → 0 ≤ y < 2 ^ 16 →
  swap32 (x + 2 ^ 16 * y) = swap16 y + 2 ^ 16 * swap16 x.
Proof.
  intros. unfold swap32.
  rewrite (Z.mul_comm (2 ^ 16) y), Z.div_add, Z.mod_add by lia.
  rewrite Z.div_small, Z.mod_small by lia. f_equal.
Qed.

Lemma swap32_range z : 0 ≤ z < 2 ^ 32 → 0 ≤ swap32 z < 2 ^ 32.
Proof.
  intros. unfold swap32.
  pose proof (Z.mod_pos_bound z (2 ^ 16) ltac:(lia)).
  pose proof (Z.div_lt_upper_bound z (2 ^ 16) (2 ^ 16) ltac:(lia) ltac:(lia)).
  pose proof (Z.div_pos z (2 ^ 16) ltac:(lia) ltac:(lia)).
  pose proof (swap16_range (z / 2 ^ 16) ltac:(lia)).
  pose proof (swap16_range (z mod 2 ^ 16) ltac:(lia)). lia.
Qed.

Ltac byte_ranges :=
  repeat match goal with
  | |- context [b2z ?x] =>
      lazymatch goal with _ : 0 ≤ b2z x < 256 |- _ => fail | _ => pose proof (b2z_range x) end
  end.

Lemma ntohs_pair x y : ntohs (b2z x + 2 ^ 8 * b2z y) = 2 ^ 8 * b2z x + b2z y.
Proof.
  unfold ntohs, u16. byte_ranges.
  rewrite Z.mod_small, swap16_pair by lia. lia.
Qed.

Lemma ntohl_quad x y z w :
  ntohl (b2z x + 2 ^ 8 * b2z y + 2 ^ 16 * (b2z z + 2 ^ 8 * b2z w)) = be [x; y; z; w].
Proof.
  unfold ntohl, be; cbn [be_value]. byte_ranges.
  rewrite u32_small, swap32_pair, !swap16_pair by lia. lia.
Qed.

Lemma be_pair x y : be [x; y] = 2 ^ 8 * b2z x + b2z y.
Proof. unfold be; simpl; lia. Qed.

Lemma be_be16 z : be (be16 z) = u16 z.
Proof.
  unfold be, be16, u16; cbn [be_value]. rewrite !b2z_z2b.
  change 256 with (2 ^ 8). change (2 ^ 16) with (2 ^ 8 * 2 ^ 8).
  rewrite (Z.rem_mul_r z (2 ^ 8) (2 ^ 8)) by lia. lia.
Qed.

Lemma be_be32 z : be (be32 z) = u32 z.
Proof.
  pose proof (be_be16 z) as H1. pose proof (be_be16 (z / 2 ^ 16)) as H2.
  unfold be, be32, be16, u32, u16 in *; cbn [be_value app] in *.
  change (2 ^ 32) with (2 ^ 16 * 2 ^ 16).
  rewrite (Z.rem_mul_r z (2 ^ 16) (2 ^ 16)) by lia. lia.
Qed.

Lemma be16_be x y : be16 (be [x; y]) = [x; y].
Proof.
  unfold be16. rewrite be_pair. byte_ranges.
  rewrite (Z.mul_comm (2 ^ 8)).
  rewrite Z.div_add_l, (Z.div_small (b2z y)), Z.add_0_r by lia.
  rewrite z2b_b2z. f_equal. f_equal. apply (inj b2z). rewrite b2z_z2b.
  change 256 with (2 ^ 8). rewrite Z.add_comm, Z.mod_add, Z.mod_small by lia. done.
Qed.

Lemma be32_be x y z w : be32 (be [x; y; z; w]) = [x; y; z; w].
Proof.
  assert (E : be [x; y; z; w] = be [x; y] * 2 ^ 16 + be [z; w]) by (unfold be; simpl; lia).
  assert (R : 0 ≤ be [z; w] < 2 ^ 16) by (rewrite be_pair; byte_ranges; lia).
  unfold be32. rewrite E, Z.div_add_l, (Z.div_small (be [z; w])), Z.add_0_r by lia.
  rewrite be16_be. transitivity ([x; y] ++ be16 (be [z; w])); [f_equal|by rewrite be16_be].
  unfold be16. f_equal; [|f_equal]; apply (inj b2z); rewrite !b2z_z2b;
    change 256 with (2 ^ 8).
  - rewrite (Z.add_comm _ (be [z; w])). change (2 ^ 16) with (2 ^ 8 * 2 ^ 8).
    rewrite Z.mul_assoc, Z.div_add by lia. by rewrite Z.mod_add by lia.
  - change (2 ^ 16) with (2 ^ 8 * 2 ^ 8).
    by rewrite Z.mul_assoc, Z.add_comm, Z.mod_add by lia.
Qed.

Lemma be_range4 x y z w : 0 ≤ be [x; y; z; w] < 2 ^ 32.
Proof. unfold be; simpl; byte_ranges; lia. Qed.
Lemma be_range2 x y : 0 ≤ be [x; y] < 2 ^ 16.
Proof. rewrite be_pair; byte_ranges; lia. Qed.

Lemma load16_be b i pre x y post :
  b = pre ++ x :: y :: post → i = zlen pre → (load16 b i ≫= λ z, Ret (ntohs z)) = Ret (be [x; y]).
Proof.
  intros Hb Hi. rewrite (load16_app_eq _ _ _ _ _ _ Hb Hi). simpl.
  by rewrite ntohs_pair, be_pair.
Qed.

Lemma load32_be b i pre x y z w post :
  b = pre ++ x :: y :: z :: w :: post → i = zlen pre →
  (load32 b i ≫= λ v, Ret (ntohl v)) = Ret (be [x; y; z; w]).
Proof.
  intros Hb Hi. rewrite (load32_app_eq _ _ _ _ _ _ _ _ Hb Hi). simpl.
  by rewrite ntohl_quad.
Qed.

Lemma store8_app_eq b i pre x x' post :
  b = pre ++ x :: post → i = zlen pre → store8 b i x' = Ret (pre ++ x' :: post).
Proof.
  intros -> ->. unfold store8.
  destruct ((zlen pre <? 0) || (zlen (pre ++ x :: post) <=? zlen pre)) eqn:E.
  { exfalso. apply orb_true_iff in E as [E|E]; zlia. }
  rewrite zlen_to_nat. f_equal. by rewrite insert_app_r_alt, Nat.sub_diag by lia.
Qed.

Lemma store16_app_eq b i pre x y z post :
  b = pre ++ x :: y :: post → i = zlen pre → store16 b i z = Ret (pre ++ le16 z ++ post).
Proof.
  intros Hb Hi. unfold store16. rewrite (store8_app_eq _ _ _ _ _ _ Hb Hi). simpl.
  rewrite (store8_app_eq _ _ (pre ++ [z2b z]) y _ post); [|by rewrite <- app_assoc|zlia].
  by rewrite <- app_assoc.
Qed.

Lemma load_bytes_app_eq b i n pre mid post :
  b = pre ++ mid ++ post → i = zlen pre → n = zlen mid → load_bytes b i n = Ret mid.
Proof.
  intros -> -> ->. unfold load_bytes.
  destruct ((zlen pre <? 0) || (zlen mid <? 0) ||
    (zlen (pre ++ mid ++ post) <? zlen pre + zlen mid)) eqn:E.
  { exfalso. rewrite !orb_true_iff in E. destruct E as [[E|E]|E]; zlia. }
  by rewrite !zlen_to_nat, drop_app_length, take_app_length.
Qed.

(** [memcpy] into a block at offset [i]. *)
Definition store_bytes (b : list byte) (i : Z) (bs : list byte) : outcome (list byte) :=
  if (i <? 0) || (zlen b <? i + zlen bs) then Undef OutOfBounds
  else Ret (take (Z.to_nat i) b ++ bs ++ drop (Z.to_nat (i + zlen bs)) b).

Lemma store_bytes_app_eq b i pre mid post bs :
  b = pre ++ mid ++ post → i = zlen pre → zlen bs = zlen mid →
  store_bytes b i bs = Ret (pre ++ bs ++ post).
Proof.
  intros -> -> Hl. unfold store_bytes. rewrite Hl.
  destruct ((zlen pre <? 0) || (zlen (pre ++ mid ++ post) <? zlen pre + zlen mid)) eqn:E.
  { exfalso. rewrite !orb_true_iff in E. destruct E as [E|E]; zlia. }
  rewrite zlen_to_nat, take_app_length. do 3 f_equal.
  replace (Z.to_nat (zlen pre + zlen mid)) with (length (pre ++ mid)).
  - by rewrite app_assoc, drop_app_length.
  - rewrite length_app. unfold zlen. lia.
Qed.

(** Writing front to back through a moving pointer: the bytes already written,
    and the zeroed rest of the buffer. *)
Definition put (st : list byte * Z) (bs : list byte) : outcome (list byte * Z) :=
  buf ← store_bytes st.1 st.2 bs; Ret (buf, st.2 + zlen bs).

Lemma put_zeros w n bs :
  zlen bs ≤ n →
  put (w ++ replicate (Z.to_nat n) nul, zlen w) bs =
  Ret ((w ++ bs) ++ replicate (Z.to_nat (n - zlen bs)) nul, zlen (w ++ bs)).
Proof.
  intros Hn. unfold put; cbn [fst snd].
  replace (Z.to_nat n) with (length bs + Z.to_nat (n - zlen bs))%nat
    by (unfold zlen in *; lia).
  rewrite (store_bytes_app_eq _ _ w (replicate (length bs) nul)
             (replicate (Z.to_nat (n - zlen bs)) nul) bs);
    [|by rewrite replicate_add|done|by rewrite zlen_replicate].
  cbn [mbind outcome_bind]. by rewrite app_assoc, zlen_app.
Qed.

(** A network-order field of a struct: the host stores the swapped integer. *)
Lemma le16_val a b : le16 (b2z a + 2 ^ 8 * b2z b) = [a; b].
Proof.
  unfold le16. byte_ranges.
  f_equal; [|f_equal]; apply (inj b2z); rewrite b2z_z2b; change 256 with (2 ^ 8);
    rewrite (Z.mul_comm (2 ^ 8)).
  - rewrite Z.mod_add, Z.mod_small by lia. done.
  - rewrite Z.div_add, Z.div_small, Z.mod_small by lia. done.
Qed.

Lemma le32_val a b c d :
  le32 (b2z a + 2 ^ 8 * b2z b + 2 ^ 16 * (b2z c + 2 ^ 8 * b2z d)) = [a; b; c; d].
Proof.
  unfold le32. byte_ranges.
  rewrite (Z.mul_comm (2 ^ 16)), Z.div_add, Z.div_small, Z.add_0_l, le16_val by lia.
  transitivity (le16 (b2z a + 2 ^ 8 * b2z b) ++ [c; d]); [f_equal|by rewrite le16_val].
  unfold le16. f_equal; [|f_equal]; apply (inj b2z); rewrite !b2z_z2b; change 256 with (2 ^ 8);
    change (2 ^ 16) with (2 ^ 8 * 2 ^ 8); rewrite Z.mul_assoc.
  - by rewrite Z.mod_add by lia.
  - rewrite Z.div_add by lia. by rewrite Z.mod_add by lia.
Qed.

Lemma le16_htons z : le16 (htons z) = be16 z.
Proof.
  unfold htons. rewrite <- be_be16. unfold be16.
  rewrite be_pair, Z.add_comm, swap16_pair by (byte_ranges; lia).
  by rewrite le16_val.
Qed.

Lemma le32_htonl z : le32 (htonl z) = be32 z.
Proof.
  unfold htonl. rewrite <- be_be32. unfold be32, be16; cbn [app].
  set (a := z2b (z / 2 ^ 16 / 2 ^ 8)). set (b := z2b (z / 2 ^ 16)).
  set (c := z2b (z / 2 ^ 8)). set (d := z2b z).
  replace (be [a; b; c; d]) with
    (b2z d + 2 ^ 8 * b2z c + 2 ^ 16 * (b2z b + 2 ^ 8 * b2z a)) by (unfold be; simpl; lia).
  rewrite swap32_pair, !swap16_pair by (byte_ranges; lia).
  transitivity (le32 (b2z a + 2 ^ 8 * b2z b + 2 ^ 16 * (b2z c + 2 ^ 8 * b2z d)));
    [f_equal; lia|apply le32_val].
Qed.

Lemma ntohl_htonl z : ntohl (htonl z) = u32 z.
Proof.
  rewrite <- (be_be32 z). pose proof (be_be32 z) as E.
  unfold htonl. rewrite <- E. destruct (be32 z) as [|a [|b [|c [|d [|??]]]]] eqn:Eb; try done.
  replace (be [a; b; c; d]) with
    (b2z d + 2 ^ 8 * b2z c + 2 ^ 16 * (b2z b + 2 ^ 8 * b2z a)) at 1 by (unfold be; simpl; lia).
  rewrite swap32_pair, !swap16_pair by (byte_ranges; lia).
  transitivity (ntohl (b2z a + 2 ^ 8 * b2z b + 2 ^ 16 * (b2z c + 2 ^ 8 * b2z d)));
    [f_equal; lia|by rewrite ntohl_quad].
Qed.

Lemma be_inj2 a b c d : be [a; b] = be [c; d] → [a; b] = [c; d].
Proof. intros H. by rewrite <- (be16_be a b), H, be16_be. Qed.

(** ** Pointer loops

    Each loop moves a pointer up a block by one byte per turn and reads the byte
    it stands on, so [S (length b)] turns are enough: by then it has stopped or
    left the block. *)
(** [while(cur < last && *cur != 0) cur++;] *)
Fixpoint scan_nul (fuel : nat) (b : list byte) (cur last : Z) : outcome Z :=
  match fuel with
  | O => NoFuel
  | S fuel' =>
      if cur <? last then
        c ← load8 b cur;
        if decide (c = nul) then Ret cur else scan_nul fuel' b (cur + 1) last
      else Ret cur
  end.
(** [while(cur != last && *cur != 0) cur++;] *)
Fixpoint scan_ne (fuel : nat) (b : list byte) (cur last : Z) : outcome Z :=
  match fuel with
  | O => NoFuel
  | S fuel' =>
      if cur =? last then Ret cur
      else
        c ← load8 b cur;
        if decide (c = nul) then Ret cur else scan_ne fuel' b (cur + 1) last
  end.
(** [while( *cur != 0) cur++;] *)
Fixpoint scan_str (fuel : nat) (b : list byte) (cur : Z) : outcome Z :=
  match fuel with
  | O => NoFuel
  | S fuel' =>
      c ← load8 b cur;
      if decide (c = nul) then Ret cur else scan_str fuel' b (cur + 1)
  end.
Definition scan_fuel (b : list byte) : nat := S (length b).

(** The idiom of the readers: find the terminator before [last], then test
    [cur == last || *cur != 0]; [Some] is the offset of the terminator. *)
Definition expect_nul (b : list byte) (cur last : Z) : outcome (option Z) :=
  cur ← scan_nul (scan_fuel b) b cur last;
  if cur =? last then Ret None
  else c ← load8 b cur; Ret (if decide (c = nul) then Some cur else None).

Definition nul_distance (r : list byte) : Z :=
  match split_nul r with Some (s, _) => zlen s | None => zlen r end.

Lemma scan_nul_spec fuel b pre r post cur last :
  b = pre ++ r ++ post → cur = zlen pre → last = zlen pre + zlen r →
  (length r < fuel)%nat →
  scan_nul fuel b cur last = Ret (cur + nul_distance r).
Proof.
  unfold nul_distance. revert fuel pre cur.
  induction r as [|c r IH]; intros [|fuel] pre cur Hb Hc Hl Hf; simpl in *; try lia.
  - destruct (Z.ltb_spec cur last); [zlia|]. f_equal. zlia.
  - destruct (Z.ltb_spec cur last); [|zlia].
    rewrite (load8_app_eq b cur pre c (r ++ post)) by done. cbn [mbind outcome_bind].
    case_decide as Hn; [f_equal; zlia|].
    rewrite (IH fuel (pre ++ [c]) (cur + 1)); [|subst b; by rewrite <- app_assoc|zlia|zlia|lia].
    f_equal. destruct (split_nul r) as [[??]|]; simpl; zlia.
Qed.

Lemma scan_str_spec fuel b pre s post cur :
  b = pre ++ s ++ nul :: post → cur = zlen pre → no_nul s → (length s < fuel)%nat →
  scan_str fuel b cur = Ret (cur + zlen s).
Proof.
  revert fuel pre cur. induction s as [|c s IH]; intros [|fuel] pre cur Hb Hc Hs Hf;
    simpl in *; try lia.
  - rewrite (load8_app_eq b cur pre nul post) by done. simpl. f_equal. zlia.
  - apply not_elem_of_cons in Hs as [??].
    rewrite (load8_app_eq b cur pre c (s ++ nul :: post)) by done. cbn [mbind outcome_bind].
    rewrite decide_False by done.
    rewrite (IH fuel (pre ++ [c]) (cur + 1)); [f_equal; zlia| |zlia|done|lia].
    subst b. by rewrite <- app_assoc.
Qed.

Lemma scan_ne_spec fuel b cur last :
  cur ≤ last → scan_ne fuel b cur last = scan_nul fuel b cur last.
Proof.
  revert cur. induction fuel as [|fuel IH]; intros cur Hle; simpl; [done|].
  destruct (cur =? last) eqn:E1, (cur <? last) eqn:E2; try lia; [done|].
  destruct (load8 b cur); simpl; try done. case_decide; [done|]. apply IH. lia.
Qed.

Lemma expect_nul_spec b pre r post cur last :
  b = pre ++ r ++ post → cur = zlen pre → last = zlen pre + zlen r →
  expect_nul b cur last =
  Ret (match split_nul r with Some (s, _) => Some (cur + zlen s) | None => None end).
Proof.
  intros Hb Hc Hl. unfold expect_nul.
  rewrite (scan_nul_spec _ b pre r post) by
    (done || (unfold scan_fuel; subst b; rewrite !length_app; lia)).
  cbn [mbind outcome_bind]. unfold nul_distance.
  destruct (split_nul r) as [[s r']|] eqn:Es.
  - apply split_nul_Some in Es as [-> _].
    destruct (Z.eqb_spec (cur + zlen s) last); [zlia|].
    rewrite (load8_app_eq b _ (pre ++ s) nul (r' ++ post)); [done| |zlia].
    subst b. by rewrite <- !app_assoc.
  - destruct (Z.eqb_spec (cur + zlen r) last); [done|zlia].
Qed.

(** [ntohs( *(short * )p)] and [ntohl( *(int * )p)]. *)
Definition load_be16 (b : list byte) (i : Z) : outcome Z := v ← load16 b i; Ret (ntohs v).
Definition load_be32 (b : list byte) (i : Z) : outcome Z := v ← load32 b i; Ret (ntohl v).
(** [ntohl( *(long * )p)]: eight bytes are read, the low four are kept. *)
Definition load_be32_of_long (b : list byte) (i : Z) : outcome Z :=
  v ← load64 b i; Ret (ntohl v).

(** The big-endian short at the front of [r], reading zeros past its end. *)
Definition short_at (r : list byte) : Z := be (take 2 (r ++ [nul; nul])).

Lemma load_be16_pad b i pre r post :
  b = pre ++ r ++ nul :: nul :: post → i = zlen pre → load_be16 b i = Ret (short_at r).
Proof.
  intros Hb Hi. unfold load_be16, short_at. destruct r as [|x [|y r]]; cbn [app take] in *.
  - by apply (load16_be _ _ pre nul nul post).
  - by apply (load16_be _ _ pre x nul (nul :: post)).
  - by apply (load16_be _ _ pre x y (r ++ nul :: nul :: post)).
Qed.

Lemma load_be32_app b i pre x y z w post :
  b = pre ++ x :: y :: z :: w :: post → i = zlen pre →
  load_be32 b i = Ret (be [x; y; z; w]).
Proof. intros Hb Hi. unfold load_be32. by apply (load32_be _ _ pre x y z w post). Qed.

Lemma load_be32_of_long_app b i pre x y z w a1 a2 a3 a4 post :
  b = pre ++ x :: y :: z :: w :: a1 :: a2 :: a3 :: a4 :: post → i = zlen pre →
  load_be32_of_long b i = Ret (be [x; y; z; w]).
Proof.
  intros Hb Hi. unfold load_be32_of_long, load64.
  rewrite (load32_app_eq b i pre x y z w (a1 :: a2 :: a3 :: a4 :: post)) by done.
  cbn [mbind outcome_bind].
  rewrite (load32_app_eq b (i + 4) (pre ++ [x; y; z; w]) a1 a2 a3 a4 post);
    [|subst b; by rewrite <- app_assoc|zlia]. cbn [mbind outcome_bind].
  f_equal. rewrite <- ntohl_quad. unfold ntohl. f_equal. unfold u32.
  rewrite (Z.mul_comm (2 ^ 32)), Z.mod_add by lia. done.
Qed.

(** An array of network-order shorts. *)
Fixpoint shorts (l : list byte) : list Z :=
  match l with x :: y :: l' => s16 (be [x; y]) :: shorts l' | _ => [] end.
(** The same array after each element was converted in place. *)
Fixpoint host_shorts (l : list Z) : list byte :=
  match l with [] => [] | z :: l' => le16 z ++ host_shorts l' end.

Lemma shorts_app_pair x y l : shorts (x :: y :: l) = s16 (be [x; y]) :: shorts l.
Proof. done. Qed.
Lemma zlen_host_shorts l : zlen (host_shorts l) = 2 * zlen l.
Proof. induction l as [|z l IH]; [done|]. cbn [host_shorts]. rewrite zlen_app, IH, zlen_cons. change (zlen (le16 z)) with 2. lia. Qed.
#[export] Hint Rewrite zlen_host_shorts : zlen.

(** [while( *cur != 0 && cur < last) cur++;] - the byte is read before the test. *)
Fixpoint scan_eager (fuel : nat) (b : list byte) (cur last : Z) : outcome Z :=
  match fuel with
  | O => NoFuel
  | S fuel' =>
      c ← load8 b cur;
      if decide (c ≠ nul) then
        if cur <? last then scan_eager fuel' b (cur + 1) last else Ret cur
      else Ret cur
  end.

Lemma scan_eager_spec fuel b pre r post cur last :
  b = pre ++ r ++ nul :: post → cur = zlen pre → last = zlen pre + zlen r →
  (length r < fuel)%nat →
  scan_eager fuel b cur last = Ret (cur + nul_distance r).
Proof.
  unfold nul_distance. revert fuel pre cur.
  induction r as [|c r IH]; intros [|fuel] pre cur Hb Hc Hl Hf; simpl in *; try lia.
  - rewrite (load8_app_eq b cur pre nul post) by done. simpl. f_equal. zlia.
  - rewrite (load8_app_eq b cur pre c (r ++ nul :: post)) by done. cbn [mbind outcome_bind].
    destruct (decide (c = nul)) as [->|Hn]; [simpl; f_equal; zlia|].
    rewrite decide_True by done. destruct (Z.ltb_spec cur last); [|zlia].
    rewrite (IH fuel (pre ++ [c]) (cur + 1)); [|subst b; by rewrite <- app_assoc|zlia|zlia|lia].
    f_equal. destruct (split_nul r) as [[??]|]; simpl; zlia.
Qed.

(** Arrays of 32-bit words: network order, and host order after conversion. *)
Fixpoint words (l : list byte) : list Z :=
  match l with x :: y :: z :: w :: l' => be [x; y; z; w] :: words l' | _ => [] end.
Fixpoint be_words (l : list Z) : list byte :=
  match l with [] => [] | z :: l' => be32 z ++ be_words l' end.
Fixpoint host_words (l : list Z) : list byte :=
  match l with [] => [] | z :: l' => le32 z ++ host_words l' end.
(** What the host reads back: [n] words, [n] shorts. *)
Fixpoint get_words (n : nat) (l : list byte) : list Z :=
  match n, l with
  | S n', x :: y :: z :: w :: l' =>
      b2z x + 2 ^ 8 * b2z y + 2 ^ 16 * (b2z z + 2 ^ 8 * b2z w) :: get_words n' l'
  | _, _ => []
  end.
Fixpoint get_shorts (n : nat) (l : list byte) : list Z :=
  match n, l with
  | S n', x :: y :: l' => s16 (b2z x + 2 ^ 8 * b2z y) :: get_shorts n' l'
  | _, _ => []
  end.

Lemma le32_be x y z w : le32 (be [x; y; z; w]) = [w; z; y; x].
Proof.
  transitivity (le32 (b2z w + 2 ^ 8 * b2z z + 2 ^ 16 * (b2z y + 2 ^ 8 * b2z x)));
    [f_equal; unfold be; simpl; lia|apply le32_val].
Qed.

Lemma get_words_host l rest : Forall (λ z, 0 ≤ z < 2 ^ 32) l →
  get_words (length l) (host_words l ++ rest) = l.
Proof.
  induction 1 as [|z l Hz Hl IH]; [done|]. cbn [host_words length].
  pose proof (be_be32 z) as E. rewrite u32_small in E by done.
  destruct (be32 z) as [|a [|b [|c [|d [|??]]]]] eqn:Eb; try done.
  rewrite <- E, le32_be. cbn [app get_words]. f_equal; [|done].
  unfold be; simpl; lia.
Qed.

Lemma get_shorts_host l rest : Forall (λ z, z = 0 ∨ z = 1) l →
  get_shorts (length l) (host_shorts l ++ rest) = l.
Proof.
  induction 1 as [|z l Hz Hl IH]; [done|]. cbn [host_shorts length].
  destruct Hz as [-> | ->]; cbn [app get_shorts le16]; by rewrite IH.
Qed.

Lemma words_range l : Forall (λ z, 0 ≤ z < 2 ^ 32) (words l).
Proof.
  revert l. fix IH 1. intros [|x [|y [|z [|w l]]]]; try constructor.
  - apply be_range4.
  - apply IH.
Qed.

Lemma words_be_words l : Forall (λ z, 0 ≤ z < 2 ^ 32) l → words (be_words l) = l.
Proof.
  induction 1 as [|z l Hz Hl IH]; [done|]. cbn [be_words].
  pose proof (be_be32 z) as E. rewrite u32_small in E by done.
  destruct (be32 z) as [|a [|b [|c [|d [|??]]]]] eqn:Eb; try done.
  cbn [app words]. by rewrite E, IH.
Qed.

Lemma be_words_words l k : length l = (4 * k)%nat → be_words (words l) = l.
Proof.
  revert l. induction k as [|k IH]; intros l Hl.
  - destruct l; [done|]. cbn in Hl. lia.
  - destruct l as [|x [|y [|z [|w l]]]]; cbn in Hl; try lia.
    cbn [words be_words]. rewrite be32_be, IH by lia. done.
Qed.

Lemma length_words l k : length l = (4 * k)%nat → length (words l) = k.
Proof.
  revert l. induction k as [|k IH]; intros l Hl.
  - destruct l; [done|]. cbn in Hl. lia.
  - destruct l as [|x [|y [|z [|w l]]]]; cbn in Hl; try lia.
    cbn [words length]. rewrite IH by lia. done.
Qed.

Lemma zlen_be_words l : zlen (be_words l) = 4 * zlen l.
Proof.
  induction l as [|z l IH]; [done|]. cbn [be_words]. rewrite zlen_app, IH, zlen_cons.
  change (zlen (be32 z)) with 4. lia.
Qed.
#[export] Hint Rewrite zlen_be_words : zlen.

Lemma store32_app_eq b i pre x y z w v post :
  b = pre ++ x :: y :: z :: w :: post → i = zlen pre →
  store32 b i v = Ret (pre ++ le32 v ++ post).
Proof.
  intros Hb Hi. unfold store32.
  rewrite (store16_app_eq b i pre x y v (z :: w :: post)) by done. cbn [mbind outcome_bind].
  rewrite (store16_app_eq _ (i + 2) (pre ++ le16 v) z w _ post);
    [|by rewrite <- app_assoc|unfold le16; zlia].
  unfold le32. by rewrite <- !app_assoc.
Qed.

(** A block fresh from [malloc]: its bytes are whatever was there. *)
Definition malloc (mem : nat → byte) (n : Z) : list byte := mem <$> seq 0 (Z.to_nat n).
Lemma zlen_malloc mem n : 0 ≤ n → zlen (malloc mem n) = n.
Proof. intros. unfold malloc, zlen. rewrite length_fmap, length_seq. lia. Qed.

(** Writing front to back through a moving pointer over any contents: [w] is
    written, [r] is what is left of the block. *)
Lemma put_over w r bs :
  zlen bs ≤ zlen r →
  put (w ++ r, zlen w) bs = Ret ((w ++ bs) ++ drop (length bs) r, zlen (w ++ bs)).
Proof.
  intros Hn. unfold put; cbn [fst snd].
  rewrite (store_bytes_app_eq _ _ w (take (length bs) r) (drop (length bs) r) bs);
    [|by rewrite take_drop|done|unfold zlen in *; rewrite length_take; lia].
  cbn [mbind outcome_bind]. by rewrite app_assoc, zlen_app.
Qed.
Lemma zlen_drop {A} (l : list A) n : zlen (drop n l) = Z.max 0 (zlen l - Z.of_nat n).
Proof. unfold zlen. rewrite length_drop. lia. Qed.
#[export] Hint Rewrite @zlen_drop : zlen.

(** The C string a pointer into a block stands on ([strlen] and the copies made of
    it): undefined when no NUL follows. *)
Definition string_at (b : list byte) (p : Z) : outcome (list byte) :=
  if p <? 0 then Undef OutOfBounds
  else match split_nul (drop (Z.to_nat p) b) with
  | Some (s, _) => Ret s
  | None => Undef OutOfBounds
  end.

Lemma string_at_app b pre s rest i :
  b = pre ++ s ++ nul :: rest → i = zlen pre → no_nul s → string_at b i = Ret s.
Proof.
  intros -> -> Hs. unfold string_at. pose proof (zlen_nonneg pre). zdec.
  by rewrite zlen_to_nat, drop_app_length, split_nul_app.
Qed.
Lemma string_at_cstr b i s : string_at b i = Ret s → cstr (drop (Z.to_nat i) b) = s.
Proof.
  unfold string_at. destruct (i <? 0); [done|].
  destruct (split_nul _) as [[x r]|] eqn:E; [|done]. intros [= <-].
  apply split_nul_Some in E as [-> Hx]. by apply cstr_app_nul.
Qed.
Lemma string_at_no_nul b i s : string_at b i = Ret s → no_nul s.
Proof.
  unfold string_at. destruct (i <? 0); [done|].
  destruct (split_nul _) as [[x r]|] eqn:E; [|done]. intros [= <-]. by apply split_nul_Some in E as [_ ?].
Qed.

(** Overwriting the middle of a block. *)
Lemma store_over w r bs i :
  i = zlen w → zlen bs ≤ zlen r → store_bytes (w ++ r) i bs = Ret (w ++ bs ++ drop (length bs) r).
Proof.
  intros -> Hz. pose proof (put_over w r bs Hz) as Hp. unfold put in Hp. cbn [fst snd] in Hp.
  destruct (store_bytes (w ++ r) (zlen w) bs) as [q| | |]; cbn [mbind outcome_bind] in Hp; try discriminate Hp.
  injection Hp as ->. by rewrite <- app_assoc.
Qed.
Lemma store_front r bs : zlen bs ≤ zlen r → store_bytes r 0 bs = Ret (bs ++ drop (length bs) r).
Proof. apply (store_over [] r bs 0 eq_refl). Qed.
