(* ===== verification/Errors.v ===== *)
(** * Error texts and ErrorResponse messages

    [errors.hd], [error_codes.hd], [rocto/error_severity.hd],
    [format_error_string.c], [rocto/make_error_response.c] and the client-side
    [rocto/read_error_response.c]: the text of an error, the wire form of the
    ErrorResponse (or NoticeResponse) that carries it, and reading it back. *)
From stdpp Require Import strings.
From S2P Require Import Prelude CMem.

(** [MAX_STR_CONST], the build's [STRING_BUFFER_LENGTH]. *)
Definition MAX_STR_CONST : Z := 32768.

(** ** Tables *)
Inductive PSQL_ErrorSeverity :=
  | PSQL_Error_ERROR
  | PSQL_Error_FATAL
  | PSQL_Error_PANIC
  | PSQL_Error_WARNING
  | PSQL_Error_NOTICE
  | PSQL_Error_DEBUG
  | PSQL_Error_INFO
  | PSQL_Error_LOG
  | PSQL_Error_UnknownSeverity.

Definition psql_error_severity_str (s : PSQL_ErrorSeverity) : list byte :=
  match s with
  | PSQL_Error_ERROR => lit "ERROR"
  | PSQL_Error_FATAL => lit "FATAL"
  | PSQL_Error_PANIC => lit "PANIC"
  | PSQL_Error_WARNING => lit "WARNING"
  | PSQL_Error_NOTICE => lit "NOTICE"
  | PSQL_Error_DEBUG => lit "DEBUG"
  | PSQL_Error_INFO => lit "INFO"
  | PSQL_Error_LOG => lit "LOG"
  | PSQL_Error_UnknownSeverity => lit "UNKNOWN"
  end.

(** SQLSTATE codes, [error_codes.hd]. *)
Inductive PSQL_SQLSTATECode :=
  | PSQL_Code_Success
  | PSQL_Code_Connection_Exception
  | PSQL_Code_Protocol_Violation
  | PSQL_Code_Feature_Not_Supported
  | PSQL_Code_Data_Exception
  | PSQL_Code_String_Data_Length_Mismatch
  | PSQL_Code_Numeric_Value_Out_Of_Range
  | PSQL_Code_Unterminated_C_String
  | PSQL_Code_Invalid_Sql_Statement_Name
  | PSQL_Code_Invalid_Authorization_Specification
  | PSQL_Code_Invalid_Password
  | PSQL_Code_Syntax_Error
  | PSQL_Code_Datatype_Mismatch
  | PSQL_Code_Undefined_Column
  | PSQL_Code_Undefined_Table
  | PSQL_Code_Undefined_Object
  | PSQL_Code_Ambiguous_Column
  | PSQL_Code_Ambiguous_Parameter
  | PSQL_Code_Invalid_Table_Definition
  | PSQL_Code_System_Error
  | PSQL_Code_Io_Error
  | PSQL_Code_Config_File_Error
  | PSQL_Code_Internal_Error
  | PSQL_Code_Unknown.

Definition psql_sqlstate_codes_str (c : PSQL_SQLSTATECode) : list byte :=
  match c with
  | PSQL_Code_Success => lit "00000"
  | PSQL_Code_Connection_Exception => lit "08000"
  | PSQL_Code_Protocol_Violation => lit "08P01"
  | PSQL_Code_Feature_Not_Supported => lit "0A000"
  | PSQL_Code_Data_Exception => lit "22000"
  | PSQL_Code_String_Data_Length_Mismatch => lit "22026"
  | PSQL_Code_Numeric_Value_Out_Of_Range => lit "22003"
  | PSQL_Code_Unterminated_C_String => lit "22024"
  | PSQL_Code_Invalid_Sql_Statement_Name => lit "26000"
  | PSQL_Code_Invalid_Authorization_Specification => lit "28000"
  | PSQL_Code_Invalid_Password => lit "28P01"
  | PSQL_Code_Syntax_Error => lit "42601"
  | PSQL_Code_Datatype_Mismatch => lit "42804"
  | PSQL_Code_Undefined_Column => lit "42883"
  | PSQL_Code_Undefined_Table => lit "42P01"
  | PSQL_Code_Undefined_Object => lit "42704"
  | PSQL_Code_Ambiguous_Column => lit "42702"
  | PSQL_Code_Ambiguous_Parameter => lit "42P08"
  | PSQL_Code_Invalid_Table_Definition => lit "42P16"
  | PSQL_Code_System_Error => lit "58000"
  | PSQL_Code_Io_Error => lit "58030"
  | PSQL_Code_Config_File_Error => lit "F0000"
  | PSQL_Code_Internal_Error => lit "XX000"
  | PSQL_Code_Unknown => lit "00000"
  end.

(** Octo's messages, [errors.hd]: the [printf] format and the SQLSTATE of each. *)
Inductive ERROR :=
  | ERR_DATABASE_FILES_OOS
  | ERR_FAILED_TO_PARSE_SCHEMA
  | ERR_GENERATING_TEMPORARY_TABLE
  | ERR_INIT_SCANNER
  | ERR_LIBSSL_ERROR
  | ERR_PARSING_COMMAND
  | ERR_PLAN_HASH_FAILED
  | ERR_PLAN_NOT_WELL_FORMED
  | ERR_UNKNOWN_KEYWORD_STATE
  | ERR_YOTTADB
  | ERR_ROCTO_TLS_ACCEPT
  | ERR_ROCTO_TLS_CONNECTION
  | ERR_ROCTO_TLS_INIT
  | ERR_ROCTO_TLS_READ_FAILED
  | ERR_ROCTO_TLS_SOCKET
  | ERR_ROCTO_TLS_UNKNOWN
  | ERR_ROCTO_TLS_WANT_READ
  | ERR_ROCTO_TLS_WANT_WRITE
  | ERR_ROCTO_TLS_WRITE_FAILED
  | ERR_ROCTO_SESSION_LOOKUP
  | ERR_ROCTO_DB_LOOKUP
  | ERR_ROCTO_COLUMN_VALUE
  | ERR_ROCTO_HASH_CONVERSION
  | ERR_FILE_NOT_FOUND
  | ERR_FEATURE_NOT_IMPLEMENTED
  | ERR_PRIMARY_KEY_NOT_FOUND
  | ERR_MULTIPLE_VALUES_PROVIDED
  | ERR_UNKNOWN_TABLE
  | ERR_UNKNOWN_COLUMN_NAME
  | ERR_AMBIGUOUS_COLUMN_NAME
  | ERR_MULTIPLE_ZERO_KEYS
  | ERR_MISSING_KEY
  | ERR_TABLE_DEFINITION_TOO_LONG
  | ERR_TYPE_MISMATCH
  | ERR_ENTERING_FUNCTION
  | ERR_LEAVING_FUNCTION
  | ERR_ADDING_EXE
  | ERR_CURPLAN
  | ERR_CLIENT_CONNECTED
  | ERR_READ_MESSAGE
  | ERR_SEND_MESSAGE
  | ERR_PROCESSING_MESSAGE_TYPE
  | ERR_LOADING_CONFIG
  | ERR_ROCTO_CHILD_STATE_UPDATED
  | ERR_ROCTO_CLEAN_DISCONNECT
  | INFO_AUTH_SUCCESS
  | ERR_SYSCALL
  | ERR_BAD_CONFIG
  | ERR_PARSING_CONFIG
  | ERR_BAD_ADDRESS
  | ERR_UNKNOWN_MESSAGE_TYPE
  | ERR_ROCTO_INVALID_TYPE
  | ERR_ROCTO_INVALID_VERSION
  | ERR_ROCTO_READ_FAILED
  | ERR_ROCTO_SEND_FAILED
  | ERR_ROCTO_TRAILING_CHARS
  | ERR_ROCTO_PASSWORD_TYPE
  | ERR_ROCTO_BAD_PASSWORD
  | ERR_LINE_TOO_LONG
  | ERR_READ_TOO_LARGE
  | ERR_BUFFER_TOO_SMALL
  | ERR_INVALID_READ_SIZE
  | ERR_INVALID_WRITE_SIZE
  | ERR_ROCTO_INVALID_CHAR_VALUE
  | ERR_ROCTO_INVALID_INT_VALUE
  | ERR_ROCTO_INVALID_NUMBER
  | ERR_ROCTO_MISSING_DATA
  | ERR_ROCTO_MISSING_NULL
  | ERR_ROCTO_TOO_FEW_VALUES
  | ERR_ROCTO_TOO_MANY_VALUES
  | CUSTOM_ERROR.

Definition err_format_str (e : ERROR) : list byte :=
  match e with
  | ERR_DATABASE_FILES_OOS => lit "Generated routines and database seem to be out of sync"
  | ERR_FAILED_TO_PARSE_SCHEMA => lit "Failed to parse schema from table %s"
  | ERR_GENERATING_TEMPORARY_TABLE => lit "Generating temporary table: %s"
  | ERR_INIT_SCANNER => lit "Error initializing the scanner"
  | ERR_LIBSSL_ERROR => lit "Error in libssl/libcrypt"
  | ERR_PARSING_COMMAND => lit "Error parsing statement: %s"
  | ERR_PLAN_HASH_FAILED => lit "Failed to generate plan filename hash"
  | ERR_PLAN_NOT_WELL_FORMED => lit "Plan produced by optimizer appears incorrect"
  | ERR_UNKNOWN_KEYWORD_STATE => lit "Unknown state reached; please contact your Octo support channel"
  | ERR_YOTTADB => lit "YottaDB error: %s"
  | ERR_ROCTO_TLS_ACCEPT => lit "ydb_tls_accept: %s"
  | ERR_ROCTO_TLS_CONNECTION => lit "ydb_tls_get_conn_info: %s"
  | ERR_ROCTO_TLS_INIT => lit "ydb_tls_init: %s"
  | ERR_ROCTO_TLS_READ_FAILED => lit "ydbcrypt: read failed: %s"
  | ERR_ROCTO_TLS_SOCKET => lit "ydb_tls_socket: %s"
  | ERR_ROCTO_TLS_UNKNOWN => lit "ydbcrypt: unknown error: %s"
  | ERR_ROCTO_TLS_WANT_READ => lit "ydbcrypt: unprocessed read data"
  | ERR_ROCTO_TLS_WANT_WRITE => lit "ydbcrypt: unprocessed write data"
  | ERR_ROCTO_TLS_WRITE_FAILED => lit "ydbcrypt: write failed: %s"
  | ERR_ROCTO_SESSION_LOOKUP => lit "%s: failed to retrieve %s from session info"
  | ERR_ROCTO_DB_LOOKUP => lit "%s: failed to retrieve %s from database"
  | ERR_ROCTO_COLUMN_VALUE => lit "%s: failed to extract column value %s from row"
  | ERR_ROCTO_HASH_CONVERSION => lit "%s: failed convert %s hash to %s"
  | ERR_FILE_NOT_FOUND => lit "Error opening input file: %s"
  | ERR_FEATURE_NOT_IMPLEMENTED => lit "Feature not implemented: %s"
  | ERR_PRIMARY_KEY_NOT_FOUND => lit "No primary key specified when creating table " ++ [x22] ++ lit "%s" ++ [x22] ++ lit ". Please consult the documentation for more information."
  | ERR_MULTIPLE_VALUES_PROVIDED => lit "Multiple values provided for %s; undefined behavior"
  | ERR_UNKNOWN_TABLE => lit "Unknown table: %s"
  | ERR_UNKNOWN_COLUMN_NAME => lit "Unknown column: %s"
  | ERR_AMBIGUOUS_COLUMN_NAME => lit "Ambiguous column name " ++ [x22] ++ lit "%s" ++ [x22] ++ lit ": qualify name for safe execution"
  | ERR_MULTIPLE_ZERO_KEYS => lit "Multiple %d keys found for table %s"
  | ERR_MISSING_KEY => lit "Missing key %d in table %s; max key was %d"
  | ERR_TABLE_DEFINITION_TOO_LONG => lit "Table definition for %s too long; max size is %d, table length is %d"
  | ERR_TYPE_MISMATCH => lit "Type mismatch: left %s, right %s"
  | ERR_ENTERING_FUNCTION => lit "Entering %s"
  | ERR_LEAVING_FUNCTION => lit "LEAVING %s"
  | ERR_ADDING_EXE => lit "Adding EXE(%s) to cursor: %s"
  | ERR_CURPLAN => lit "Current plan: %s"
  | ERR_CLIENT_CONNECTED => lit "Client connected"
  | ERR_READ_MESSAGE => lit "Read message of type %c and length %d"
  | ERR_SEND_MESSAGE => lit "Sending message of type %c and length %d"
  | ERR_PROCESSING_MESSAGE_TYPE => lit "Processing message type %c"
  | ERR_LOADING_CONFIG => lit "Loading config from %s"
  | ERR_ROCTO_CHILD_STATE_UPDATED => lit "Process %d switched to state %d"
  | ERR_ROCTO_CLEAN_DISCONNECT => lit "connection closed cleanly"
  | INFO_AUTH_SUCCESS => lit "%s: user successfully authenticated"
  | ERR_SYSCALL => lit "System call failed: %s, return %d (%s)"
  | ERR_BAD_CONFIG => lit "Bad config setting: %s"
  | ERR_PARSING_CONFIG => lit "Error parsing config: %s:%d %s"
  | ERR_BAD_ADDRESS => lit "Bad listen address: %s"
  | ERR_UNKNOWN_MESSAGE_TYPE => lit "Unknown message type from frontend: %c"
  | ERR_ROCTO_INVALID_TYPE => lit "%s: invalid type '%c': must be '%c'"
  | ERR_ROCTO_INVALID_VERSION => lit "%s: invalid version %x: must be %x"
  | ERR_ROCTO_READ_FAILED => lit "read failure: %s"
  | ERR_ROCTO_SEND_FAILED => lit "send failure: %s"
  | ERR_ROCTO_TRAILING_CHARS => lit "%s: message has trailing characters"
  | ERR_ROCTO_PASSWORD_TYPE => lit "%s: expected %s encrypted password"
  | ERR_ROCTO_BAD_PASSWORD => lit "%s: password doesn't match stored value"
  | ERR_LINE_TOO_LONG => lit "Input line too long"
  | ERR_READ_TOO_LARGE => lit "Read size %d greater than buffer size %d"
  | ERR_BUFFER_TOO_SMALL => lit "Buffer used to store output plans is too small for the query"
  | ERR_INVALID_READ_SIZE => lit "Read size %d out of range"
  | ERR_INVALID_WRITE_SIZE => lit "Read size %d out of range"
  | ERR_ROCTO_INVALID_CHAR_VALUE => lit "%s: invalid %s value %c: must be %s"
  | ERR_ROCTO_INVALID_INT_VALUE => lit "%s: invalid %s value %d: must be %s"
  | ERR_ROCTO_INVALID_NUMBER => lit "%s: invalid number of %s"
  | ERR_ROCTO_MISSING_DATA => lit "%s: missing %s"
  | ERR_ROCTO_MISSING_NULL => lit "%s: %s missing null terminator"
  | ERR_ROCTO_TOO_FEW_VALUES => lit "%s: too few %s"
  | ERR_ROCTO_TOO_MANY_VALUES => lit "%s: too many %s"
  | CUSTOM_ERROR => lit "Error not found"
  end.

Definition err_code_map (e : ERROR) : PSQL_SQLSTATECode :=
  match e with
  | ERR_DATABASE_FILES_OOS => PSQL_Code_Internal_Error
  | ERR_FAILED_TO_PARSE_SCHEMA => PSQL_Code_Internal_Error
  | ERR_GENERATING_TEMPORARY_TABLE => PSQL_Code_Internal_Error
  | ERR_INIT_SCANNER => PSQL_Code_Internal_Error
  | ERR_LIBSSL_ERROR => PSQL_Code_Internal_Error
  | ERR_PARSING_COMMAND => PSQL_Code_Internal_Error
  | ERR_PLAN_HASH_FAILED => PSQL_Code_Internal_Error
  | ERR_PLAN_NOT_WELL_FORMED => PSQL_Code_Internal_Error
  | ERR_UNKNOWN_KEYWORD_STATE => PSQL_Code_Internal_Error
  | ERR_YOTTADB => PSQL_Code_Internal_Error
  | ERR_ROCTO_TLS_ACCEPT => PSQL_Code_Internal_Error
  | ERR_ROCTO_TLS_CONNECTION => PSQL_Code_Internal_Error
  | ERR_ROCTO_TLS_INIT => PSQL_Code_Internal_Error
  | ERR_ROCTO_TLS_READ_FAILED => PSQL_Code_Internal_Error
  | ERR_ROCTO_TLS_SOCKET => PSQL_Code_Internal_Error
  | ERR_ROCTO_TLS_UNKNOWN => PSQL_Code_Internal_Error
  | ERR_ROCTO_TLS_WANT_READ => PSQL_Code_Internal_Error
  | ERR_ROCTO_TLS_WANT_WRITE => PSQL_Code_Internal_Error
  | ERR_ROCTO_TLS_WRITE_FAILED => PSQL_Code_Internal_Error
  | ERR_ROCTO_SESSION_LOOKUP => PSQL_Code_Internal_Error
  | ERR_ROCTO_DB_LOOKUP => PSQL_Code_Internal_Error
  | ERR_ROCTO_COLUMN_VALUE => PSQL_Code_Internal_Error
  | ERR_ROCTO_HASH_CONVERSION => PSQL_Code_Internal_Error
  | ERR_FILE_NOT_FOUND => PSQL_Code_Io_Error
  | ERR_FEATURE_NOT_IMPLEMENTED => PSQL_Code_Feature_Not_Supported
  | ERR_PRIMARY_KEY_NOT_FOUND => PSQL_Code_Syntax_Error
  | ERR_MULTIPLE_VALUES_PROVIDED => PSQL_Code_Ambiguous_Parameter
  | ERR_UNKNOWN_TABLE => PSQL_Code_Undefined_Table
  | ERR_UNKNOWN_COLUMN_NAME => PSQL_Code_Undefined_Column
  | ERR_AMBIGUOUS_COLUMN_NAME => PSQL_Code_Ambiguous_Column
  | ERR_MULTIPLE_ZERO_KEYS => PSQL_Code_Ambiguous_Parameter
  | ERR_MISSING_KEY => PSQL_Code_Undefined_Object
  | ERR_TABLE_DEFINITION_TOO_LONG => PSQL_Code_Invalid_Table_Definition
  | ERR_TYPE_MISMATCH => PSQL_Code_Datatype_Mismatch
  | ERR_ENTERING_FUNCTION => PSQL_Code_Success
  | ERR_LEAVING_FUNCTION => PSQL_Code_Success
  | ERR_ADDING_EXE => PSQL_Code_Success
  | ERR_CURPLAN => PSQL_Code_Success
  | ERR_CLIENT_CONNECTED => PSQL_Code_Success
  | ERR_READ_MESSAGE => PSQL_Code_Success
  | ERR_SEND_MESSAGE => PSQL_Code_Success
  | ERR_PROCESSING_MESSAGE_TYPE => PSQL_Code_Success
  | ERR_LOADING_CONFIG => PSQL_Code_Success
  | ERR_ROCTO_CHILD_STATE_UPDATED => PSQL_Code_Success
  | ERR_ROCTO_CLEAN_DISCONNECT => PSQL_Code_Success
  | INFO_AUTH_SUCCESS => PSQL_Code_Success
  | ERR_SYSCALL => PSQL_Code_System_Error
  | ERR_BAD_CONFIG => PSQL_Code_Config_File_Error
  | ERR_PARSING_CONFIG => PSQL_Code_Config_File_Error
  | ERR_BAD_ADDRESS => PSQL_Code_Connection_Exception
  | ERR_UNKNOWN_MESSAGE_TYPE => PSQL_Code_Protocol_Violation
  | ERR_ROCTO_INVALID_TYPE => PSQL_Code_Protocol_Violation
  | ERR_ROCTO_INVALID_VERSION => PSQL_Code_Protocol_Violation
  | ERR_ROCTO_READ_FAILED => PSQL_Code_Connection_Exception
  | ERR_ROCTO_SEND_FAILED => PSQL_Code_Connection_Exception
  | ERR_ROCTO_TRAILING_CHARS => PSQL_Code_Protocol_Violation
  | ERR_ROCTO_PASSWORD_TYPE => PSQL_Code_Invalid_Authorization_Specification
  | ERR_ROCTO_BAD_PASSWORD => PSQL_Code_Invalid_Password
  | ERR_LINE_TOO_LONG => PSQL_Code_String_Data_Length_Mismatch
  | ERR_READ_TOO_LARGE => PSQL_Code_Data_Exception
  | ERR_BUFFER_TOO_SMALL => PSQL_Code_Data_Exception
  | ERR_INVALID_READ_SIZE => PSQL_Code_Numeric_Value_Out_Of_Range
  | ERR_INVALID_WRITE_SIZE => PSQL_Code_Numeric_Value_Out_Of_Range
  | ERR_ROCTO_INVALID_CHAR_VALUE => PSQL_Code_Data_Exception
  | ERR_ROCTO_INVALID_INT_VALUE => PSQL_Code_Numeric_Value_Out_Of_Range
  | ERR_ROCTO_INVALID_NUMBER => PSQL_Code_Numeric_Value_Out_Of_Range
  | ERR_ROCTO_MISSING_DATA => PSQL_Code_Data_Exception
  | ERR_ROCTO_MISSING_NULL => PSQL_Code_Unterminated_C_String
  | ERR_ROCTO_TOO_FEW_VALUES => PSQL_Code_Numeric_Value_Out_Of_Range
  | ERR_ROCTO_TOO_MANY_VALUES => PSQL_Code_Numeric_Value_Out_Of_Range
  | CUSTOM_ERROR => PSQL_Code_Internal_Error
  end.


(** ** [printf] *)
Inductive printf_arg := AStr (s : list byte) | AInt (z : Z) | AChr (c : byte).

Definition digit (d : Z) : byte := z2b (if d <? 10 then 48 + d else 87 + d).
(** Digits of [n] in [base]; twenty are enough for a 64-bit value. *)
Fixpoint digits (fuel : nat) (base n : Z) (acc : list byte) : list byte :=
  match fuel with
  | O => acc
  | S fuel' =>
      let acc' := digit (n mod base) :: acc in
      if n / base =? 0 then acc' else digits fuel' base (n / base) acc'
  end.
Definition dec (z : Z) : list byte :=
  if z <? 0 then chr "-" :: digits 20 10 (- z) [] else digits 20 10 z [].
Definition hex (z : Z) : list byte := digits 20 16 z [].

(** The conversions the sources use: [%s], [%d], [%c], [%x]. *)
Fixpoint vprintf (fmt : list byte) (args : list printf_arg) : list byte :=
  match fmt with
  | [] => []
  | c :: fmt' =>
      if decide (c = chr "%") then
        match fmt' with
        | d :: fmt'' =>
            match args with
            | AStr s :: args' => cstr s ++ vprintf fmt'' args'
            | AInt z :: args' =>
                (if decide (d = chr "x") then hex (u32 z) else dec (s32 z)) ++ vprintf fmt'' args'
            | AChr b :: args' => b :: vprintf fmt'' args'
            | [] => vprintf fmt'' []
            end
        | [] => []
        end
      else c :: vprintf fmt' args
  end.

(** ** [format_error_string]

    Every caller starts with [err_buff.offset = 0]; the text lands at [offset]
    of the buffer, cut to leave room for the terminator.  What the caller gets
    is a C string: it ends at its first NUL. *)
Record ErrorBuffer := { eb_offset : Z }.

Definition format_error_string (eb : ErrorBuffer) (e : ERROR) (args : list printf_arg)
    : list byte * ErrorBuffer :=
  let max_length := u32 (MAX_STR_CONST - eb_offset eb) in
  let full := vprintf (err_format_str e) args in
  let ret := cstr (take (Z.to_nat (max_length - 1)) full) in
  let length := zlen full in
  if MAX_STR_CONST <=? length + eb_offset eb then (ret, eb)
  else (ret, {| eb_offset := eb_offset eb + length |}).

(** ** [make_error_response] *)
Record ErrorResponse := {
  er_args : list (byte * Z);   (* type, offset of the value in [er_data] *)
  er_type : byte;
  er_length : Z;               (* as stored: network order *)
  er_data : list byte;
}.

Definition PSQL_NoticeResponse : byte := chr "N".
Definition PSQL_ErrorResponse : byte := chr "E".
Definition PSQL_Error_SEVERITY : byte := chr "S".
Definition PSQL_Error_Code : byte := chr "C".
Definition PSQL_Error_Message : byte := chr "M".

Definition error_response_type (severity : PSQL_ErrorSeverity) : byte :=
  match severity with
  | PSQL_Error_LOG | PSQL_Error_INFO | PSQL_Error_DEBUG
  | PSQL_Error_NOTICE | PSQL_Error_WARNING => PSQL_NoticeResponse
  | _ => PSQL_ErrorResponse
  end.

Fixpoint args_length (args : list (byte * list byte)) (acc : Z) : Z :=
  match args with
  | [] => acc
  | (_, v) :: args' => args_length args' (u32 (u32 (acc + 1) + (zlen (cstr v) + 1)))
  end.

(** One of the three mandatory fields: the recorded value pointer is taken
    before the type byte is written. *)
Definition put_field (st : list byte * Z) (t : byte) (v : list byte)
    : outcome (list byte * Z * (byte * Z)) :=
  st1 ← put st [t]; st2 ← put st1 v; st3 ← put st2 [nul]; Ret (st3, (t, st.2)).

(** The optional arguments: the value pointer is taken after the type byte. *)
Fixpoint put_args (st : list byte * Z) (args : list (byte * list byte))
    : outcome (list byte * Z * list (byte * Z)) :=
  match args with
  | [] => Ret (st, [])
  | (t, v) :: args' =>
      st1 ← put st [t]; st2 ← put st1 (cstr v); st3 ← put st2 [nul];
      '(st4, offs) ← put_args st3 args'; Ret (st4, (t, st1.2) :: offs)
  end.

Definition make_error_response (severity : PSQL_ErrorSeverity) (code : PSQL_SQLSTATECode)
    (message : list byte) (args : list (byte * list byte)) : outcome ErrorResponse :=
  let message := cstr message in
  let n := args_length args 0 in
  let n := u32 (n + zlen (psql_error_severity_str severity) + 2) in
  let n := u32 (n + zlen (psql_sqlstate_codes_str code) + 2) in
  let n := u32 (n + zlen message + 2) in
  let new_length := u32 (n + 1) in
  let data := replicate (Z.to_nat new_length) nul in
  '(st, a1) ← put_field (data, 0) PSQL_Error_SEVERITY (psql_error_severity_str severity);
  '(st, a2) ← put_field st PSQL_Error_Code (psql_sqlstate_codes_str code);
  '(st, a3) ← put_field st PSQL_Error_Message message;
  '(st, opt) ← put_args st args;
  st ← put st [nul];
  Ret {| er_args := a1 :: a2 :: a3 :: opt;
         er_type := error_response_type severity;
         er_length := htonl (u32 (new_length + 4));
         er_data := st.1 |}.

(** The bytes [send_message] transmits: from [type] on. *)
Definition error_wire (e : ErrorResponse) : list byte :=
  er_type e :: le32 (er_length e) ++ er_data e.

(** ** What an ErrorResponse carries *)
Definition field (f : byte * list byte) : list byte := f.1 :: f.2 ++ [nul].
Fixpoint fields_wire (fs : list (byte * list byte)) : list byte :=
  match fs with [] => [] | f :: fs' => field f ++ fields_wire fs' end.
Definition carg (a : byte * list byte) : byte * list byte := (a.1, cstr a.2).
Definition error_fields (severity : PSQL_ErrorSeverity) (code : PSQL_SQLSTATECode)
    (message : list byte) (args : list (byte * list byte)) : list (byte * list byte) :=
  (PSQL_Error_SEVERITY, psql_error_severity_str severity)
  :: (PSQL_Error_Code, psql_sqlstate_codes_str code)
  :: (PSQL_Error_Message, cstr message)
  :: (carg <$> args).
Definition error_payload (fs : list (byte * list byte)) : list byte :=
  fields_wire fs ++ [nul].

(** ** The reader used by clients, [read_error_response]

    [message] is the memory from the message's type byte on. *)
Definition message_length (message : list byte) : outcome Z :=
  v ← load32 message 1; Ret (ntohl v).

Fixpoint count_args (fuel : nat) (data : list byte) (cur last num_args : Z) : outcome Z :=
  match fuel with
  | O => NoFuel
  | S fuel' =>
      if cur <? last then
        cur ← scan_ne (scan_fuel data) data (cur + 1) last;
        count_args fuel' data (cur + 1) last (u32 (num_args + 1))
      else Ret num_args
  end.

Fixpoint fill_args (n : nat) (data : list byte) (cur last : Z) : outcome (list (byte * Z)) :=
  match n with
  | O => Ret []
  | S n' =>
      t ← load8 data cur;
      end_ ← scan_ne (scan_fuel data) data (cur + 1) last;
      rest ← fill_args n' data (end_ + 1) last;
      Ret ((t, cur + 1) :: rest)
  end.

Definition read_error_response (message : list byte) : outcome ErrorResponse :=
  len ← message_length message;
  t ← load8 message 0;
  let remaining_length := u32 (len - 4) in
  data ← load_bytes message 5 remaining_length;
  num_args ← count_args (scan_fuel data) data 0 remaining_length 0;
  args ← fill_args (Z.to_nat num_args) data 0 remaining_length;
  Ret {| er_args := args; er_type := t; er_length := len; er_data := data |}.

(** The text of argument [i]: the C string its pointer leads to. *)
Definition er_arg_text (e : ErrorResponse) (a : byte * Z) : byte * list byte :=
  (a.1, cstr (drop (Z.to_nat a.2) (er_data e))).

(** ** Laws *)
Lemma zlen_field f : zlen (field f) = zlen f.2 + 2.
Proof. unfold field. zlia. Qed.

Lemma zlen_fields_cons f fs : zlen (fields_wire (f :: fs)) = zlen f.2 + 2 + zlen (fields_wire fs).
Proof. cbn [fields_wire]. rewrite zlen_app, zlen_field. lia. Qed.

Lemma args_length_spec args acc :
  0 ≤ acc → acc + zlen (fields_wire (carg <$> args)) < 2 ^ 32 →
  args_length args acc = acc + zlen (fields_wire (carg <$> args)).
Proof.
  revert acc. induction args as [|[t v] args IH]; intros acc Ha Hb.
  - unfold zlen; simpl; lia.
  - rewrite fmap_cons, zlen_fields_cons in *. cbn [fst snd args_length carg] in *.
    zlen_pos. rewrite (u32_small (acc + 1)), u32_small by lia. rewrite IH by lia. lia.
Qed.

Lemma put_field_zeros w n t v :
  zlen v + 2 ≤ n →
  put_field (w ++ replicate (Z.to_nat n) nul, zlen w) t v =
  Ret ((w ++ field (t, v)) ++ replicate (Z.to_nat (n - (zlen v + 2))) nul,
       zlen (w ++ field (t, v)), (t, zlen w)).
Proof.
  intros Hn. unfold put_field. zlen_pos.
  rewrite put_zeros by zlia. cbn [mbind outcome_bind].
  rewrite put_zeros by zlia. cbn [mbind outcome_bind].
  rewrite put_zeros by zlia. cbn [mbind outcome_bind snd].
  unfold field; cbn [fst snd].
  assert (E : ((w ++ [t]) ++ v) ++ [nul] = w ++ t :: v ++ [nul]) by (by rewrite <- !app_assoc).
  replace (n - zlen [t] - zlen v - zlen [nul]) with (n - (zlen v + 2)) by zlia.
  by rewrite E.
Qed.

Lemma put_args_zeros w n args :
  zlen (fields_wire (carg <$> args)) ≤ n →
  ∃ offs, put_args (w ++ replicate (Z.to_nat n) nul, zlen w) args =
  Ret ((w ++ (fields_wire (carg <$> args))) ++
         replicate (Z.to_nat (n - zlen (fields_wire (carg <$> args)))) nul,
       zlen (w ++ (fields_wire (carg <$> args))), offs).
Proof.
  revert w n. induction args as [|[t v] args IH]; intros w n Hn.
  { exists []. cbn. by rewrite app_nil_r, Z.sub_0_r. }
  rewrite fmap_cons in *. pose proof Hn as Hn'. rewrite zlen_fields_cons in Hn'.
  cbn [carg fst snd] in Hn'. zlen_pos.
  destruct (IH (w ++ field (carg (t, v))) (n - (zlen (cstr v) + 2))) as [offs IHo]; [lia|].
  eexists (_ :: offs). cbn [put_args].
  rewrite put_zeros by zlia. cbn [mbind outcome_bind].
  rewrite put_zeros by zlia. cbn [mbind outcome_bind].
  rewrite put_zeros by zlia. cbn [mbind outcome_bind snd].
  assert (E : ((w ++ [t]) ++ cstr v) ++ [nul] = w ++ field (carg (t, v))).
  { unfold field. by rewrite <- !app_assoc. }
  replace (n - zlen [t] - zlen (cstr v) - zlen [nul]) with (n - (zlen (cstr v) + 2)) by zlia.
  rewrite E, IHo. cbn [mbind outcome_bind fst snd fields_wire].
  set (R := fields_wire _). set (F := field (carg (t, v))).
  replace (n - zlen (F ++ R)) with (n - (zlen (cstr v) + 2) - zlen R)
    by (rewrite zlen_app; unfold F; rewrite zlen_field; cbn [carg snd]; lia).
  rewrite <- (app_assoc w F R). reflexivity.
Qed.

Lemma scan_ne_field data pre t v rest :
  no_nul v → data = pre ++ field (t, v) ++ rest →
  scan_ne (scan_fuel data) data (zlen pre + 1) (zlen data) = Ret (zlen pre + 1 + zlen v).
Proof.
  intros Hv ->. rewrite scan_ne_spec by (unfold field; zlia).
  rewrite (scan_nul_spec _ _ (pre ++ [t]) (v ++ nul :: rest) []).
  - unfold nul_distance. rewrite split_nul_app by done. done.
  - unfold field; cbn [fst snd]. rewrite app_nil_r, <- !app_assoc. cbn.
    by rewrite <- app_assoc.
  - zlia.
  - unfold field; cbn [fst snd]. zlia.
  - unfold scan_fuel, field; cbn [fst snd]. repeat (rewrite ?length_app; cbn [length]). lia.
Qed.

Lemma scan_ne_last data pre t :
  data = pre ++ [t] →
  scan_ne (scan_fuel data) data (zlen pre + 1) (zlen data) = Ret (zlen data).
Proof.
  intros ->. unfold scan_fuel. cbn [scan_ne].
  destruct (Z.eqb_spec (zlen pre + 1) (zlen (pre ++ [t]))); [by f_equal|zlia].
Qed.

Definition fields_clean (fs : list (byte * list byte)) : Prop := Forall (λ f, no_nul f.2) fs.

Lemma count_args_spec fuel data pre fs acc :
  fields_clean fs → data = pre ++ fields_wire fs ++ [nul] →
  (S (length fs) < fuel)%nat → 0 ≤ acc → acc + zlen fs + 1 < 2 ^ 32 →
  count_args fuel data (zlen pre) (zlen data) acc = Ret (acc + zlen fs + 1).
Proof.
  intros Hc. revert fuel pre acc.
  induction Hc as [|[t v] fs Hv Hc IH]; intros [|fuel] pre acc Hd Hf Ha Hb;
    cbn [length] in Hf; try lia; cbn [count_args].
  - destruct (Z.ltb_spec (zlen pre) (zlen data)); [|subst; zlia].
    rewrite (scan_ne_last data pre nul) by done. cbn [mbind outcome_bind].
    destruct fuel as [|fuel]; [lia|]. cbn [count_args].
    destruct (Z.ltb_spec (zlen data + 1) (zlen data)); [lia|].
    rewrite zlen_nil in *. rewrite u32_small by lia. f_equal; lia.
  - destruct (Z.ltb_spec (zlen pre) (zlen data)); [|subst; unfold field; zlia].
    rewrite (scan_ne_field data pre t v (fields_wire fs ++ [nul])) by
      (done || (subst; cbn [fields_wire]; by rewrite <- app_assoc)).
    cbn [mbind outcome_bind]. rewrite zlen_cons in *. zlen_pos.
    replace (zlen pre + 1 + zlen v + 1) with (zlen (pre ++ field (t, v)))
      by (unfold field; cbn [fst snd]; zlia).
    rewrite u32_small by lia.
    rewrite IH; [f_equal; lia| |lia|lia|lia].
    subst data. cbn [fields_wire]. by rewrite <- !app_assoc.
Qed.

Lemma fill_args_spec data pre fs :
  fields_clean fs → data = pre ++ fields_wire fs ++ [nul] →
  ∃ args, fill_args (S (length fs)) data (zlen pre) (zlen data) = Ret args ∧
    (λ a, (a.1, cstr (drop (Z.to_nat a.2) data))) <$> args = fs ++ [(nul, [])].
Proof.
  intros Hc. revert pre.
  induction Hc as [|[t v] fs Hv Hc IH]; intros pre Hd.
  - exists [(nul, zlen pre + 1)]. split.
    + cbn [length]. change (fill_args 1 data (zlen pre) (zlen data)) with
        (t ← load8 data (zlen pre);
         end_ ← scan_ne (scan_fuel data) data (zlen pre + 1) (zlen data);
         Ret [(t, zlen pre + 1)]).
      rewrite (load8_app_eq data _ pre nul []) by done. cbn [mbind outcome_bind].
      by rewrite (scan_ne_last data pre nul).
    + cbn. rewrite drop_ge; [done|]. subst. unfold zlen. rewrite length_app. cbn. lia.
  - cbn [length]. destruct (IH (pre ++ field (t, v))) as [args [E V]].
    { subst. cbn [fields_wire]. by rewrite <- !app_assoc. }
    exists ((t, zlen pre + 1) :: args).
    assert (Hd' : data = pre ++ field (t, v) ++ fields_wire fs ++ [nul]).
    { subst. cbn [fields_wire]. by rewrite <- app_assoc. }
    split.
    + remember (S (length fs)) as n. cbn [fill_args].
      rewrite (load8_app_eq data _ pre t (v ++ nul :: fields_wire fs ++ [nul])); [|subst|done].
      2:{ rewrite Hd'. unfold field; cbn. by rewrite <- app_assoc. }
      cbn [mbind outcome_bind].
      rewrite (scan_ne_field data pre t v _ Hv Hd'). cbn [mbind outcome_bind].
      replace (zlen pre + 1 + zlen v + 1) with (zlen (pre ++ field (t, v)))
        by (unfold field; cbn [fst snd]; zlia).
      by rewrite E.
    + cbn [fmap list_fmap app fst snd]. f_equal; [|done]. f_equal.
      replace (Z.to_nat (zlen pre + 1)) with (length (pre ++ [t]))
        by (unfold zlen; rewrite length_app; cbn; lia).
      rewrite Hd'. unfold field; cbn [fst snd app].
      replace (pre ++ t :: (v ++ [nul]) ++ fields_wire fs ++ [nul])
        with ((pre ++ [t]) ++ v ++ nul :: fields_wire fs ++ [nul])
        by (by rewrite <- !app_assoc).
      rewrite drop_app_length. by apply cstr_app_nul.
Qed.

Lemma message_length_wire t n rest : message_length (t :: be32 n ++ rest) = Ret (u32 n).
Proof.
  unfold message_length. rewrite <- be_be32. unfold be32, be16. cbn [app].
  erewrite (load32_be _ 1 [t]); [done|done|done].
Qed.

Lemma fields_clean_error severity code message args :
  fields_clean (error_fields severity code message args).
Proof.
  unfold fields_clean, error_fields.
  apply Forall_cons; [|apply Forall_cons; [|apply Forall_cons]]; cbn [snd].
  - by destruct severity; apply (bool_decide_eq_true_1 (no_nul _)).
  - by destruct code; apply (bool_decide_eq_true_1 (no_nul _)).
  - apply cstr_no_nul.
  - apply Forall_fmap, Forall_true. intros [t v]. apply cstr_no_nul.
Qed.

Lemma make_error_response_spec severity code message args :
  zlen (error_payload (error_fields severity code message args)) + 4 < 2 ^ 32 →
  ∃ e, make_error_response severity code message args = Ret e ∧
    er_type e = error_response_type severity ∧
    er_data e = error_payload (error_fields severity code message args) ∧
    er_length e = htonl (zlen (er_data e) + 4).
Proof.
  unfold error_payload, error_fields. set (A := fields_wire (carg <$> args)).
  set (fs := psql_error_severity_str severity). set (fc := psql_sqlstate_codes_str code).
  set (m := cstr message). cbn [fields_wire].
  set (F1 := field (PSQL_Error_SEVERITY, fs)). set (F2 := field (PSQL_Error_Code, fc)).
  set (F3 := field (PSQL_Error_Message, m)). fold A.
  assert (L1 : zlen F1 = zlen fs + 2) by apply zlen_field.
  assert (L2 : zlen F2 = zlen fc + 2) by apply zlen_field.
  assert (L3 : zlen F3 = zlen m + 2) by apply zlen_field.
  rewrite !zlen_app, L1, L2, L3. intros Hb. zlen_pos. change (zlen [nul]) with 1 in Hb.
  unfold make_error_response. fold fs fc m.
  rewrite args_length_spec by (fold A; lia). fold A.
  rewrite (u32_small (_ + zlen fs + 2)), (u32_small (_ + zlen fc + 2)),
    (u32_small (_ + zlen m + 2)), (u32_small (_ + 1)) by lia.
  set (n := 0 + zlen A + zlen fs + 2 + zlen fc + 2 + zlen m + 2 + 1).
  rewrite (u32_small (n + 4)) by lia.
  change (replicate (Z.to_nat n) nul, 0) with ([] ++ replicate (Z.to_nat n) nul, zlen (@nil byte)).
  rewrite put_field_zeros by lia. cbn [mbind outcome_bind]. fold F1.
  rewrite put_field_zeros by lia. cbn [mbind outcome_bind]. fold F2.
  rewrite put_field_zeros by lia. cbn [mbind outcome_bind]. fold F3.
  destruct (put_args_zeros ((([] ++ F1) ++ F2) ++ F3)
    (n - (zlen fs + 2) - (zlen fc + 2) - (zlen m + 2)) args) as [offs ->]; [fold A; lia|].
  fold A. cbn [mbind outcome_bind].
  rewrite put_zeros by (change (zlen [nul]) with 1; lia). cbn [mbind outcome_bind fst].
  replace (n - _ - _ - _ - zlen A - zlen [nul]) with 0 by (change (zlen [nul]) with 1; lia).
  eexists. split_and!; [done|done|cbn [er_data]..|cbn [er_data er_length]].
  - change (replicate (Z.to_nat 0) nul) with (@nil byte).
    by rewrite app_nil_r, app_nil_l, <- !app_assoc.
  - f_equal. change (replicate (Z.to_nat 0) nul) with (@nil byte). subst n. zlia.
Qed.

(** whatever the severity, the code, the text and the extra arguments, the
    bytes [send_message] puts on the wire for an error are the type byte (a
    NoticeResponse for the five lesser severities), the length of what follows
    it in network order, and the fields, each NUL-terminated, closed by a NUL:
    the buffer [make_error_response] sizes in its first pass is filled exactly
    by its second, with no write outside it. *)
Theorem make_error_response_wire severity code message args :
  zlen (error_payload (error_fields severity code message args)) + 4 < 2 ^ 32 →
  ∃ e, make_error_response severity code message args = Ret e ∧
    error_wire e =
      error_response_type severity
      :: be32 (zlen (error_payload (error_fields severity code message args)) + 4)
      ++ error_payload (error_fields severity code message args).
Proof.
  intros H. destruct (make_error_response_spec _ _ _ _ H) as (e & E & Ht & Hd & Hl).
  exists e. split; [done|]. unfold error_wire. by rewrite Hl, le32_htonl, Ht, Hd.
Qed.

Lemma make_error_response_wire_witness :
  ∃ e, make_error_response PSQL_Error_WARNING PSQL_Code_Protocol_Violation (lit "bad")
         [(chr "D", lit "x")] = Ret e ∧
    error_wire e = chr "N" :: be32 29 ++ error_payload
      (error_fields PSQL_Error_WARNING PSQL_Code_Protocol_Violation (lit "bad")
         [(chr "D", lit "x")]).
Proof.
  destruct (make_error_response_wire PSQL_Error_WARNING PSQL_Code_Protocol_Violation (lit "bad")
    [(chr "D", lit "x")] ltac:(vm_compute; reflexivity)) as (e & E & W).
  exists e. split; [exact E|]. rewrite W. vm_compute. reflexivity.
Defined.

(** a client that reads an error back ([read_error_response]) finds the
    severity, the SQLSTATE, the text and the extra arguments, in order, followed
    by an empty argument of type NUL, which is the closing byte of the message. *)
Theorem error_response_roundtrip severity code message args rest :
  zlen (error_payload (error_fields severity code message args)) + 4 < 2 ^ 31 →
  ∃ e e', make_error_response severity code message args = Ret e ∧
    read_error_response (error_wire e ++ rest) = Ret e' ∧
    er_type e' = er_type e ∧ er_length e' = zlen (er_data e) + 4 ∧
    er_arg_text e' <$> er_args e' = error_fields severity code message args ++ [(nul, [])].
Proof.
  intros Hb. destruct (make_error_response_spec severity code message args) as (e & E & Ht & Hd & Hl);
    [lia|].
  set (fs := error_fields severity code message args) in *.
  assert (Hfs : zlen fs ≤ zlen (fields_wire fs)).
  { clear. induction fs as [|f fs IH]; [done|]. rewrite zlen_cons, zlen_fields_cons. zlia. }
  pose proof (fields_clean_error severity code message args : fields_clean fs) as Hc.
  destruct (fill_args_spec (error_payload fs) [] fs Hc eq_refl) as (as' & Hfill & Hview).
  exists e. eexists. split; [done|].
  unfold error_wire. rewrite Hl, le32_htonl, Hd. cbn [app]. rewrite <- app_assoc.
  unfold read_error_response. rewrite message_length_wire. cbn [mbind outcome_bind].
  assert (Hn : 0 ≤ zlen (error_payload fs)) by apply zlen_nonneg.
  rewrite (u32_small (zlen _ + 4)) by lia.
  rewrite (load8_app_eq _ 0 [] (er_type e) (be32 (zlen (error_payload fs) + 4) ++ error_payload fs ++ rest))
    by done. cbn [mbind outcome_bind].
  replace (u32 (zlen (error_payload fs) + 4 - 4)) with (zlen (error_payload fs))
    by (rewrite u32_small; lia).
  rewrite (load_bytes_app_eq _ 5 _ (er_type e :: be32 (zlen (error_payload fs) + 4))
    (error_payload fs) rest) by done. cbn [mbind outcome_bind].
  assert (Hp : zlen (error_payload fs) = zlen (fields_wire fs) + 1)
    by (unfold error_payload; zlia).
  rewrite (count_args_spec _ (error_payload fs) [] fs 0 Hc eq_refl);
    [|unfold scan_fuel, zlen in *; lia|lia|lia]. cbn [mbind outcome_bind].
  replace (Z.to_nat (0 + zlen fs + 1)) with (S (length fs)) by (unfold zlen; lia).
  change (zlen []) with 0 in Hfill. rewrite Hfill. cbn [mbind outcome_bind].
  split_and!; [done|done|done|exact Hview].
Qed.

Lemma error_response_roundtrip_witness :
  ∃ e e', make_error_response PSQL_Error_ERROR PSQL_Code_Syntax_Error (lit "oops")
      [(chr "H", lit "try")] = Ret e ∧
    read_error_response (error_wire e ++ [x07]) = Ret e' ∧
    er_arg_text e' <$> er_args e' =
      [(chr "S", lit "ERROR"); (chr "C", lit "42601"); (chr "M", lit "oops");
       (chr "H", lit "try"); (nul, [])].
Proof.
  destruct (error_response_roundtrip PSQL_Error_ERROR PSQL_Code_Syntax_Error (lit "oops")
    [(chr "H", lit "try")] [x07] ltac:(vm_compute; reflexivity)) as (e & e' & E & R & _ & _ & V).
  exists e, e'. split_and!; [exact E|exact R|]. rewrite V. vm_compute. reflexivity.
Defined.

(** *** The text of an error always fits *)
Lemma zlen_cstr_le l : zlen (cstr l) ≤ zlen l.
Proof.
  induction l as [|c l IH]; simpl; [done|]. case_decide; zlia.
Qed.
Lemma format_error_string_bound eb e args :
  zlen (format_error_string eb e args).1 < 2 ^ 32.
Proof.
  unfold format_error_string. set (full := vprintf _ _).
  assert (H : zlen (cstr (take (Z.to_nat (u32 (MAX_STR_CONST - eb_offset eb) - 1)) full)) < 2 ^ 32).
  { eapply Z.le_lt_trans; [apply zlen_cstr_le|]. unfold zlen. rewrite length_take.
    pose proof (u32_range (MAX_STR_CONST - eb_offset eb)). lia. }
  by case_match.
Qed.
