(* ===== verification/Frontend.v ===== *)
(** * Reading the messages a client sends

    [rocto/read_bind.c], [read_parse.c], [read_execute.c], [read_describe.c],
    [read_close.c], [read_query.c], [read_password_message.c], [read_flush.c],
    [read_sync.c], [read_terminate.c], [read_ssl_request.c] and
    [read_startup_message.c].

    A reader gets the memory at the message pointer, copies the message into a
    heap block and walks it.  Block offset 0 is the struct's [type] field, 1 its
    [length] and 5 its [data]; struct fields in front of [type] are not bytes a
    [char] pointer may read, so a negative offset is out of bounds.  The bytes
    the allocation has beyond the message ([slack]) are zeroed by [memset].

    A reader returns the struct (or NULL) and what it left in [*err]. *)
From stdpp Require Import strings.
From S2P Require Import Prelude CMem Errors.

Definition reader_result (A : Type) : Type := (option A * option ErrorResponse)%type.

(** [*err = make_error_response(severity, code, format_error_string(...), 0)] *)
Definition error_of (severity : PSQL_ErrorSeverity) (code : PSQL_SQLSTATECode)
    (e : ERROR) (args : list printf_arg) : outcome ErrorResponse :=
  make_error_response severity code (format_error_string {| eb_offset := 0 |} e args).1 [].
(** ... [free(ret); return NULL;] *)
Definition reject {A} (severity : PSQL_ErrorSeverity) (code : PSQL_SQLSTATECode)
    (e : ERROR) (args : list printf_arg) : outcome (reader_result A) :=
  err ← error_of severity code e args; Ret (None, Some err).

Definition protocol_error {A} : ERROR → list printf_arg → outcome (reader_result A) :=
  reject PSQL_Error_ERROR PSQL_Code_Protocol_Violation.
Definition protocol_warning {A} : ERROR → list printf_arg → outcome (reader_result A) :=
  reject PSQL_Error_WARNING PSQL_Code_Protocol_Violation.
Definition syntax_error {A} : ERROR → list printf_arg → outcome (reader_result A) :=
  reject PSQL_Error_ERROR PSQL_Code_Syntax_Error.
Definition fatal_error {A} : ERROR → list printf_arg → outcome (reader_result A) :=
  reject PSQL_Error_FATAL PSQL_Code_Protocol_Violation.

Definition str (s : string) : printf_arg := AStr (lit s).

Definition PSQL_Bind : byte := chr "B".
Definition PSQL_Close : byte := chr "C".
Definition PSQL_Describe : byte := chr "D".
Definition PSQL_Execute : byte := chr "E".
Definition PSQL_Flush : byte := chr "H".
Definition PSQL_Parse : byte := chr "P".
Definition PSQL_PasswordMessage : byte := chr "p".
Definition PSQL_Query : byte := chr "Q".
Definition PSQL_Sync : byte := chr "S".
Definition PSQL_Terminate : byte := chr "X".

(** [ret = malloc(len + sizeof(T)); memset(ret, 0, ...); memcpy(&ret->type, message, n);]
    [slack] is [sizeof(T)] less the offset of [type] less one. *)
Definition copy_message (message : list byte) (len n slack : Z) : outcome (list byte) :=
  body ← load_bytes message 0 n;
  Ret (body ++ replicate (Z.to_nat (len + 1 + slack - n)) nul).

(** ** Bind *)
Record BindParm := { bp_length : Z; bp_value : Z }.
Record Bind := {
  b_dest : Z;
  b_source : Z;
  b_num_parm_format_codes : Z;
  b_parm_format_codes : option Z;
  b_num_parms : Z;
  b_parms : list BindParm;
  b_num_result_col_format_codes : Z;
  b_result_col_format_codes : option Z;
  b_block : list byte;
}.

(** The loop that converts the format codes in place and stops at the first
    that is neither 0 nor 1. *)
Fixpoint check_format_codes (n : nat) (b : list byte) (p : Z)
    : outcome (list byte * option Z) :=
  match n with
  | O => Ret (b, None)
  | S n' =>
      v ← load_be16 b p;
      let code := s16 v in
      b ← store16 b p code;
      if (code =? 0) || (code =? 1) then check_format_codes n' b (p + 2)
      else Ret (b, Some code)
  end.

(** The parameter loop; [None] when a length or a value runs past the message. *)
Fixpoint read_bind_parms (n : nat) (b : list byte) (cur last : Z)
    : outcome (option (list BindParm * Z)) :=
  match n with
  | O => Ret (Some ([], cur))
  | S n' =>
      let length_ptr := cur in
      let cur := cur + 4 in
      if last <? cur then Ret None
      else
        v ← load_be32_of_long b length_ptr;
        let length := s32 v in
        let value := cur in
        let cur := cur + length in
        if last <? cur then Ret None
        else
          rest ← read_bind_parms n' b cur last;
          match rest with
          | Some (ps, cur) => Ret (Some ({| bp_length := length; bp_value := value |} :: ps, cur))
          | None => Ret None
          end
  end.

(** The tail of [read_bind]: the result-column codes and the check that the
    whole message was read, which only warns. *)
Definition read_bind_results (b : list byte) (cur last : Z)
    (ret : Z → option Z → list byte → Bind) : outcome (reader_result Bind) :=
  v ← load_be16 b cur;
  let num := s16 v in
  if num <? 0 then
    protocol_error ERR_ROCTO_INVALID_NUMBER [str "Bind"; str "result column format codes"]
  else
    let cur := cur + 2 in
    let finish b codes cur :=
      if cur =? last then Ret (Some (ret num codes b), None)
      else
        err ← error_of PSQL_Error_WARNING PSQL_Code_Protocol_Violation
                ERR_ROCTO_TRAILING_CHARS [str "Bind"];
        Ret (Some (ret num codes b), Some err) in
    if 0 <? num then
      let codes := cur in
      let cur := cur + num * 2 in
      if last <? cur then
        protocol_error ERR_ROCTO_MISSING_DATA [str "Bind"; str "result column format codes"]
      else
        '(b, bad) ← check_format_codes (Z.to_nat num) b codes;
        match bad with
        | Some code => protocol_error ERR_ROCTO_INVALID_INT_VALUE
            [str "Bind"; str "result column format code"; AInt code; str "0 (text) or 1 (binary)"]
        | None => finish b (Some codes) cur
        end
    else finish b None cur.

(** From the number of parameters on; [codes] is [parm_format_codes]. *)
Definition read_bind_values (b : list byte) (cur last dest source num_codes : Z)
    (codes : option Z) : outcome (reader_result Bind) :=
  v ← load_be16 b cur;
  let num_parms := s16 v in
  if num_parms <? 0 then
    protocol_error ERR_ROCTO_INVALID_NUMBER [str "Bind"; str "parameters"]
  else
  let cur := cur + 2 in
  if num_parms <? num_codes then
    protocol_error ERR_ROCTO_TOO_MANY_VALUES [str "Bind"; str "parameter format codes"]
  else if (1 <? num_codes) && negb (num_codes =? num_parms) then
    protocol_error ERR_ROCTO_TOO_FEW_VALUES [str "Bind"; str "parameter format codes"]
  else if last <? cur then
    protocol_error ERR_ROCTO_MISSING_DATA [str "Bind"; str "parameters"]
  else
  ps ← (if 0 <? num_parms then read_bind_parms (Z.to_nat num_parms) b cur last
        else Ret (Some ([], cur)));
  match ps with
  | None => protocol_error ERR_ROCTO_MISSING_DATA [str "Bind"; str "parameters"]
  | Some (ps, cur) =>
      read_bind_results b cur last (λ num_results results b,
        {| b_dest := dest; b_source := source;
           b_num_parm_format_codes := num_codes; b_parm_format_codes := codes;
           b_num_parms := num_parms; b_parms := ps;
           b_num_result_col_format_codes := num_results;
           b_result_col_format_codes := results; b_block := b |})
  end.

Definition read_bind (message : list byte) : outcome (reader_result Bind) :=
  len ← message_length message;
  b ← copy_message message len (u32 (len + 1)) 4;
  let remaining_length := u32 (len - 4) in
  t ← load8 b 0;
  if decide (t ≠ PSQL_Bind) then
    protocol_error ERR_ROCTO_INVALID_TYPE [str "Bind"; AChr t; AChr PSQL_Bind]
  else
  let cur := 5 in
  let last := cur + remaining_length in
  let dest := cur in
  e ← expect_nul b cur last;
  match e with
  | None => protocol_error ERR_ROCTO_MISSING_NULL [str "Bind"; str "destination"]
  | Some cur =>
  let source := cur + 1 in
  e ← expect_nul b source last;
  match e with
  | None => protocol_error ERR_ROCTO_MISSING_NULL [str "Bind"; str "source"]
  | Some cur =>
  let cur := cur + 1 in
  v ← load_be16 b cur;
  let num_codes := s16 v in
  if num_codes <? 0 then
    protocol_error ERR_ROCTO_INVALID_NUMBER [str "Bind"; str "parameter format codes"]
  else
  let cur := cur + 2 in
  if last <? cur then
    protocol_error ERR_ROCTO_MISSING_DATA [str "Bind"; str "number of parameter format codes"]
  else
  let codes := if 0 <? num_codes then Some cur else None in
  let codes_start := cur in
  let cur := cur + num_codes * 2 in
  if last <? cur then
    protocol_error ERR_ROCTO_MISSING_DATA [str "Bind"; str "parameter format codes"]
  else
  '(b, bad) ← check_format_codes (Z.to_nat num_codes) b codes_start;
  match bad with
  | Some code => protocol_error ERR_ROCTO_INVALID_INT_VALUE
      [str "Bind"; str "parameter format code"; AInt code; str "0 (text) or 1 (binary)"]
  | None =>
  read_bind_values b cur last dest source num_codes codes
  end end end.

(** ** Parse *)
Record Parse := {
  p_dest : Z;
  p_query : Z;
  p_num_parm_data_types : Z;
  p_parm_data_types : Z;
  p_block : list byte;
}.

(** [ret->parm_data_types[i] = ntohl(...)] for each [i], in place. *)
Fixpoint convert_types (n : nat) (b : list byte) (p : Z) : outcome (list byte) :=
  match n with
  | O => Ret b
  | S n' => v ← load_be32 b p; b ← store32 b p v; convert_types n' b (p + 4)
  end.

Definition read_parse (message : list byte) : outcome (reader_result Parse) :=
  len ← message_length message;
  b ← copy_message message len (u32 (len + 1)) 4;
  t ← load8 b 0;
  if decide (t ≠ PSQL_Parse) then
    protocol_error ERR_ROCTO_INVALID_TYPE [str "Parse"; AChr t; AChr PSQL_Parse]
  else
  let remaining_length := u32 (len - 4) in
  let dest := 5 in
  let last := 5 + remaining_length in
  e ← expect_nul b 5 last;
  match e with
  | None => protocol_error ERR_ROCTO_MISSING_NULL [str "Parse"; str "destination"]
  | Some cur =>
  if cur + 1 =? last then
    protocol_error ERR_ROCTO_MISSING_DATA [str "Parse"; str "destination or query"]
  else
  let query := cur + 1 in
  cur ← scan_eager (scan_fuel b) b query last;
  c ← load8 b cur;
  if bool_decide (c ≠ nul) || (cur =? last) then
    protocol_error ERR_ROCTO_MISSING_NULL [str "Parse"; str "query"]
  else
  let cur := cur + 1 in
  if cur =? last then
    protocol_error ERR_ROCTO_MISSING_DATA [str "Parse"; str "number of parameter data types"]
  else
  v ← load_be16 b cur;
  let num := s16 v in
  if num <? 0 then
    protocol_error ERR_ROCTO_INVALID_NUMBER [str "Parse"; str "parameter data types"]
  else
  let cur := cur + 2 in
  if cur + 4 * num <? last then
    protocol_error ERR_ROCTO_TOO_MANY_VALUES [str "Parse"; str "parameter data types"]
  else if last <? cur + 4 * num then
    protocol_error ERR_ROCTO_MISSING_DATA [str "Parse"; str "parameter data types"]
  else
  b ← convert_types (Z.to_nat num) b cur;
  Ret (Some {| p_dest := dest; p_query := query; p_num_parm_data_types := num;
               p_parm_data_types := cur; p_block := b |}, None)
  end.

(** ** Execute *)
Record Execute := { x_source : Z; x_rows_to_return : Z; x_block : list byte }.

Definition read_execute (message : list byte) : outcome (reader_result Execute) :=
  len ← message_length message;
  b ← copy_message message len (u32 (len + 1)) 4;
  let remaining_length := u32 (len - 4) in
  let source := 5 in
  let last := 5 + remaining_length in
  t ← load8 b 0;
  if decide (t ≠ PSQL_Execute) then
    protocol_error ERR_ROCTO_INVALID_TYPE [str "Execute"; AChr t; AChr PSQL_Execute]
  else
  e ← expect_nul b 5 last;
  match e with
  | None => protocol_error ERR_ROCTO_MISSING_NULL [str "Execute"; str "source"]
  | Some cur =>
  let cur := cur + 1 in
  if last <? cur + 4 then
    protocol_error ERR_ROCTO_MISSING_DATA [str "Execute"; str "number of rows to return"]
  else if negb (cur =? last - 4) then
    protocol_error ERR_ROCTO_TRAILING_CHARS [str "Execute"]
  else
  rows ← load_be32 b cur;
  Ret (Some {| x_source := source; x_rows_to_return := rows; x_block := b |}, None)
  end.

(** ** Describe and Close *)
Record Describe := { d_item : byte; d_name : Z; d_block : list byte }.
Record Close := { c_item : byte; c_data : Z; c_block : list byte }.

Definition item_ok (item : byte) : bool :=
  bool_decide (item = chr "S") || bool_decide (item = chr "P").

Definition read_describe (message : list byte) : outcome (reader_result Describe) :=
  len ← message_length message;
  b ← copy_message message len (u32 (len + 1)) 5;
  let remaining_length := u32 (u32 (len - 4) - 1) in
  t ← load8 b 0;
  if decide (t ≠ PSQL_Describe) then
    protocol_warning ERR_ROCTO_INVALID_TYPE [str "Describe"; AChr t; AChr PSQL_Describe]
  else
  item ← load8 b 5;
  if negb (item_ok item) then
    protocol_warning ERR_ROCTO_INVALID_CHAR_VALUE
      [str "Describe"; str "item"; AChr item; str "'S' or 'P'"]
  else
  let last := 6 + remaining_length in
  cur ← scan_str (scan_fuel b) b 6;
  let cur := cur + 1 in
  if last <? cur then
    protocol_warning ERR_ROCTO_MISSING_NULL [str "Describe"; str "name"]
  else if cur <? last then
    protocol_warning ERR_ROCTO_TRAILING_CHARS [str "Describe"]
  else Ret (Some {| d_item := item; d_name := 6; d_block := b |}, None).

Definition read_close (message : list byte) : outcome (reader_result Close) :=
  len ← message_length message;
  b ← copy_message message len (len + 1) 0;
  let remaining_length := u32 (u32 (len - 4) - 1) in
  t ← load8 b 0;
  if decide (t ≠ PSQL_Close) then
    protocol_warning ERR_ROCTO_INVALID_TYPE [str "Close"; AChr t; AChr PSQL_Close]
  else
  item ← load8 b 5;
  if negb (item_ok item) then
    protocol_warning ERR_ROCTO_INVALID_CHAR_VALUE
      [str "Close"; str "item"; AChr item; str "'S' or 'P'"]
  else
  let last := 6 + remaining_length in
  cur ← scan_nul (scan_fuel b) b 6 last;
  let cur := cur + 1 in
  if last <? cur then
    protocol_warning ERR_ROCTO_MISSING_NULL [str "Close"; str "data"]
  else if cur <? last then
    protocol_warning ERR_ROCTO_TRAILING_CHARS [str "Close"]
  else Ret (Some {| c_item := item; c_data := 6; c_block := b |}, None).

(** ** Query and PasswordMessage

    These two copy only the data; the block is the [data] array. *)
Record Query := { q_query : Z; q_type : byte; q_length : Z; q_data : list byte }.
Record PasswordMessage :=
  { pw_password : Z; pw_type : byte; pw_length : Z; pw_data : list byte }.

Definition read_query (message : list byte) : outcome (reader_result Query) :=
  length ← message_length message;
  t ← load8 message 0;
  data ← load_bytes message 5 (length - 4);
  let message_end := length - 4 in
  if decide (t ≠ PSQL_Query) then
    syntax_error ERR_ROCTO_INVALID_TYPE [str "Query"; AChr t; AChr PSQL_Query]
  else
  c ← scan_nul (scan_fuel data) data 0 message_end;
  if c =? message_end then
    if length =? 4 then syntax_error ERR_ROCTO_MISSING_DATA [str "Query"; str "query"]
    else syntax_error ERR_ROCTO_MISSING_NULL [str "Query"; str "query"]
  else if c <? message_end - 1 then
    syntax_error ERR_ROCTO_TRAILING_CHARS [str "Query"]
  else Ret (Some {| q_query := 0; q_type := t; q_length := length; q_data := data |}, None).

Definition read_password_message (message : list byte)
    : outcome (reader_result PasswordMessage) :=
  length ← message_length message;
  t ← load8 message 0;
  data ← load_bytes message 5 (length - 4);
  let message_end := length - 4 in
  if decide (t ≠ PSQL_PasswordMessage) then
    syntax_error ERR_ROCTO_INVALID_TYPE
      [str "PasswordMessage"; AChr t; AChr PSQL_PasswordMessage]
  else
  c ← scan_nul (scan_fuel data) data 0 message_end;
  if c =? message_end then
    if length =? 4 then
      syntax_error ERR_ROCTO_MISSING_DATA [str "PasswordMessage"; str "password"]
    else syntax_error ERR_ROCTO_MISSING_NULL [str "PasswordMessage"; str "password"]
  else if c <? message_end - 1 then
    syntax_error ERR_ROCTO_TRAILING_CHARS [str "PasswordMessage"]
  else Ret (Some {| pw_password := 0; pw_type := t; pw_length := length; pw_data := data |},
            None).

(** ** Flush, Sync, Terminate: only the type is looked at. *)
Record BareMessage := { m_type : byte; m_length : Z }.

Definition read_bare (name : string) (expected : byte) (message : list byte)
    : outcome (reader_result BareMessage) :=
  t ← load8 message 0;
  if decide (t ≠ expected) then
    protocol_warning ERR_ROCTO_INVALID_TYPE [str name; AChr t; AChr expected]
  else Ret (Some {| m_type := expected; m_length := 4 |}, None).
Definition read_flush : list byte → outcome (reader_result BareMessage) :=
  read_bare "Flush" PSQL_Flush.
Definition read_sync : list byte → outcome (reader_result BareMessage) :=
  read_bare "Sync" PSQL_Sync.
Definition read_terminate : list byte → outcome (reader_result BareMessage) :=
  read_bare "Terminate" PSQL_Terminate.

(** ** SSLRequest *)
Record SSLRequest := { ssl_length : Z; ssl_request_code : Z }.

Definition read_ssl_request (data : list byte) : outcome (reader_result SSLRequest) :=
  bytes ← load_bytes data 0 8;
  length ← load_be32 bytes 0;
  code ← load_be32 bytes 4;
  let request_code := s32 code in
  if negb (length =? 8) then
    fatal_error ERR_ROCTO_INVALID_INT_VALUE
      [str "SSLRequest"; str "length"; AInt length; str "8"]
  else if negb (80877103 =? request_code) then
    fatal_error ERR_ROCTO_INVALID_INT_VALUE
      [str "SSLRequest"; str "request code"; AInt request_code; str "80877103"]
  else Ret (Some {| ssl_length := length; ssl_request_code := request_code |}, None).
