(* ===== verification/FrontendSpec.v ===== *)
(** * What the client messages mean, and that the readers agree

    For each message a parser over the list of payload bytes, with no pointers,
    and the theorem that the pointer code of [Frontend] computes it: no read or
    write outside the copied block, the same rejection with the same text, the
    same fields.  From the parsers follow the round trips. *)
From stdpp Require Import strings.
From S2P Require Import Prelude CMem Errors Frontend.

(** ** Framing *)
Definition header (t : byte) (n : Z) : list byte := t :: be32 n.
(** The memory at the message pointer: the message and whatever follows it. *)
Definition frame (t : byte) (payload rest : list byte) : list byte :=
  header t (zlen payload + 4) ++ payload ++ rest.
(** Small enough for its length to be a positive [int]; [read_message] accepts
    no other. *)
Definition small (payload : list byte) : Prop := zlen payload + 4 < 2 ^ 31.

Lemma zlen_header t n : zlen (header t n) = 5.
Proof. done. Qed.
#[export] Hint Rewrite zlen_header : zlen.

Lemma message_length_frame t payload rest :
  small payload → message_length (frame t payload rest) = Ret (zlen payload + 4).
Proof.
  unfold small. intros Hs. unfold frame, header. cbn [app].
  rewrite message_length_wire. f_equal. apply u32_small. zlia.
Qed.

Definition block (t : byte) (payload : list byte) (slack : nat) : list byte :=
  header t (zlen payload + 4) ++ payload ++ replicate slack nul.

Lemma copy_message_frame t payload rest slack :
  small payload → 0 ≤ slack →
  copy_message (frame t payload rest) (zlen payload + 4) (zlen payload + 4 + 1) slack =
  Ret (block t payload (Z.to_nat slack)).
Proof.
  unfold small. intros Hs Hk. unfold copy_message, frame, block.
  rewrite (load_bytes_app_eq _ 0 _ [] (header t (zlen payload + 4) ++ payload) rest);
    [|cbn [app]; by rewrite <- app_assoc|done|zlia].
  cbn [mbind outcome_bind]. rewrite <- app_assoc. repeat f_equal. lia.
Qed.

Lemma block_type t payload slack : load8 (block t payload slack) 0 = Ret t.
Proof. by apply (load8_app_eq _ 0 [] t (be32 (zlen payload + 4) ++ payload ++ replicate slack nul)). Qed.

(** The prologue every block reader shares. *)
Ltac prologue :=
  rewrite message_length_frame by done; cbn [mbind outcome_bind];
  rewrite ?(u32_small (zlen _ + 4 + 1)) by (unfold small in *; zlia);
  rewrite copy_message_frame by (done || lia); cbn [mbind outcome_bind];
  rewrite ?block_type; cbn [mbind outcome_bind];
  rewrite ?Z.add_simpl_r; rewrite ?(u32_small (zlen _)) by (unfold small in *; zlia).

(** ** A parser's verdict *)
Inductive verdict (A : Type) : Type :=
  | Accept (a : A)
  | Refuse (e : ERROR) (args : list printf_arg).
Arguments Accept {A} _.
Arguments Refuse {A} _ _.

(** ** Execute *)
Definition parse_execute (p : list byte) : verdict (list byte * Z) :=
  match split_nul p with
  | None => Refuse ERR_ROCTO_MISSING_NULL [str "Execute"; str "source"]
  | Some (s, r) =>
      match r with
      | [a; b; c; d] => Accept (s, be [a; b; c; d])
      | _ :: _ :: _ :: _ :: _ => Refuse ERR_ROCTO_TRAILING_CHARS [str "Execute"]
      | _ => Refuse ERR_ROCTO_MISSING_DATA [str "Execute"; str "number of rows to return"]
      end
  end.
Definition encode_execute (m : list byte * Z) : list byte := m.1 ++ nul :: be32 m.2.
Definition view_execute (x : Execute) : list byte * Z :=
  (cstr (drop (Z.to_nat (x_source x)) (x_block x)), x_rows_to_return x).

Lemma cstr_drop_block b pre s rest i :
  b = pre ++ s ++ nul :: rest → i = zlen pre → no_nul s → cstr (drop (Z.to_nat i) b) = s.
Proof.
  intros -> -> Hs. rewrite zlen_to_nat, drop_app_length. by apply cstr_app_nul.
Qed.

(** With the name a terminated string of the message's own block. *)
Lemma read_execute_spec payload rest :
  small payload →
  match parse_execute payload with
  | Accept m => ∃ x, read_execute (frame PSQL_Execute payload rest) = Ret (Some x, None) ∧
                     string_at (x_block x) (x_source x) = Ret m.1 ∧ x_rows_to_return x = m.2
  | Refuse e args => read_execute (frame PSQL_Execute payload rest) = protocol_error e args
  end.
Proof.
  intros Hs. unfold parse_execute, read_execute. prologue.
  destruct (decide _) as [?|_]; [done|].
  rewrite (expect_nul_spec _ (header PSQL_Execute (zlen payload + 4)) payload (replicate 4 nul))
    by done. cbn [mbind outcome_bind].
  destruct (split_nul payload) as [[s r]|] eqn:E; [|done].
  apply split_nul_Some in E as [-> Hn].
  destruct r as [|a [|b [|c [|d [|? r]]]]]; zdec; try done.
  set (blk := block _ _ _).
  rewrite (load_be32_app blk _ (header PSQL_Execute (zlen (s ++ [nul; a; b; c; d]) + 4) ++ s ++ [nul])
    a b c d (replicate 4 nul)); [|unfold blk, block; by rewrite <- !app_assoc|zlia].
  cbn [mbind outcome_bind]. eexists; split; [done|].
  cbn [x_source x_block x_rows_to_return fst snd]. split; [|done].
  apply (string_at_app _ (header PSQL_Execute (zlen (s ++ [nul; a; b; c; d]) + 4)) s
    ([a; b; c; d] ++ replicate 4 nul)); [|done|done].
  unfold blk, block. by rewrite <- !app_assoc.
Qed.
Lemma read_execute_refines payload rest :
  small payload →
  match parse_execute payload with
  | Accept m => ∃ x, read_execute (frame PSQL_Execute payload rest) = Ret (Some x, None) ∧
                     view_execute x = m
  | Refuse e args => read_execute (frame PSQL_Execute payload rest) = protocol_error e args
  end.
Proof.
  intros Hs. pose proof (read_execute_spec payload rest Hs) as H. destruct (parse_execute payload) as [[s n]|e args]; [|done].
  destruct H as (x & E & Hx & Hn). exists x. split; [done|]. unfold view_execute. by rewrite (string_at_cstr _ _ _ Hx), Hn.
Qed.

Lemma parse_execute_encode m :
  no_nul m.1 → 0 ≤ m.2 < 2 ^ 32 → parse_execute (encode_execute m) = Accept m.
Proof.
  destruct m as [s n]. cbn [fst snd]. intros Hs Hn.
  unfold parse_execute, encode_execute; cbn [fst snd].
  rewrite split_nul_app by done. unfold be32, be16; cbn [app].
  pose proof (be_be32 n) as E. unfold be32, be16 in E; cbn [app] in E.
  by rewrite E, u32_small.
Qed.

Lemma parse_execute_Accept p m : parse_execute p = Accept m → p = encode_execute m.
Proof.
  unfold parse_execute. destruct (split_nul p) as [[s r]|] eqn:E; [|done].
  apply split_nul_Some in E as [-> _].
  destruct r as [|a [|b [|c [|d [|? r]]]]]; try done. intros [= <-].
  unfold encode_execute; cbn [fst snd]. by rewrite be32_be.
Qed.

(** ** Query and PasswordMessage *)
Definition parse_text (name field : string) (p : list byte) : verdict (list byte) :=
  match split_nul p with
  | Some (s, []) => Accept s
  | Some (_, _) => Refuse ERR_ROCTO_TRAILING_CHARS [str name]
  | None =>
      match p with
      | [] => Refuse ERR_ROCTO_MISSING_DATA [str name; str field]
      | _ => Refuse ERR_ROCTO_MISSING_NULL [str name; str field]
      end
  end.
Definition view_query (q : Query) : list byte := cstr (drop (Z.to_nat (q_query q)) (q_data q)).
Definition view_password (q : PasswordMessage) : list byte :=
  cstr (drop (Z.to_nat (pw_password q)) (pw_data q)).

Lemma load8_frame t payload rest : load8 (frame t payload rest) 0 = Ret t.
Proof. by apply (load8_app_eq _ 0 [] t (be32 (zlen payload + 4) ++ payload ++ rest)). Qed.
Lemma load_data_frame t payload rest :
  load_bytes (frame t payload rest) 5 (zlen payload) = Ret payload.
Proof. by apply (load_bytes_app_eq _ _ _ (header t (zlen payload + 4)) payload rest). Qed.
Lemma scan_data payload :
  scan_nul (scan_fuel payload) payload 0 (zlen payload) = Ret (nul_distance payload).
Proof.
  rewrite (scan_nul_spec _ payload [] payload []); [done|by rewrite app_nil_r|done|done|].
  unfold scan_fuel; lia.
Qed.

(** The body [read_query] and [read_password_message] share. *)
Ltac text_reader payload :=
  rewrite message_length_frame by done; cbn [mbind outcome_bind];
  rewrite load8_frame; cbn [mbind outcome_bind];
  rewrite Z.add_simpl_r, load_data_frame; cbn [mbind outcome_bind];
  destruct (decide _) as [?|_]; [done|];
  rewrite scan_data; cbn [mbind outcome_bind]; unfold nul_distance;
  let E := fresh "E" in
  destruct (split_nul payload) as [[s r]|] eqn:E;
  [ let Hn := fresh "Hn" in
    apply split_nul_Some in E as [-> Hn]; destruct r as [|? r]; zdec; [|done]
  | destruct payload as [|x p]; zdec; done ].

Lemma read_query_spec payload rest :
  small payload →
  match parse_text "Query" "query" payload with
  | Accept m => ∃ q, read_query (frame PSQL_Query payload rest) = Ret (Some q, None) ∧
                     string_at (q_data q) (q_query q) = Ret m
  | Refuse e args => read_query (frame PSQL_Query payload rest) = syntax_error e args
  end.
Proof.
  intros Hs. unfold parse_text, read_query. text_reader payload.
  eexists; split; [done|]. by apply (string_at_app _ [] s []).
Qed.
Lemma read_query_refines payload rest :
  small payload →
  match parse_text "Query" "query" payload with
  | Accept m => ∃ q, read_query (frame PSQL_Query payload rest) = Ret (Some q, None) ∧
                     view_query q = m
  | Refuse e args => read_query (frame PSQL_Query payload rest) = syntax_error e args
  end.
Proof.
  intros Hs. pose proof (read_query_spec payload rest Hs) as H. destruct (parse_text _ _ payload); [|done].
  destruct H as (q & E & Hq). exists q. split; [done|]. by apply string_at_cstr.
Qed.

(** With the password a terminated string of the message's own block. *)
Lemma read_password_message_spec payload rest :
  small payload →
  match parse_text "PasswordMessage" "password" payload with
  | Accept m => ∃ q, read_password_message (frame PSQL_PasswordMessage payload rest) =
                       Ret (Some q, None) ∧ string_at (pw_data q) (pw_password q) = Ret m
  | Refuse e args =>
      read_password_message (frame PSQL_PasswordMessage payload rest) = syntax_error e args
  end.
Proof.
  intros Hs. unfold parse_text, read_password_message. text_reader payload.
  eexists; split; [done|]. by apply (string_at_app _ [] s []).
Qed.
Lemma read_password_message_refines payload rest :
  small payload →
  match parse_text "PasswordMessage" "password" payload with
  | Accept m => ∃ q, read_password_message (frame PSQL_PasswordMessage payload rest) =
                       Ret (Some q, None) ∧ view_password q = m
  | Refuse e args =>
      read_password_message (frame PSQL_PasswordMessage payload rest) = syntax_error e args
  end.
Proof.
  intros Hs. pose proof (read_password_message_spec payload rest Hs) as H.
  destruct (parse_text _ _ _); [|done]. destruct H as (q & E & Hq). exists q. split; [done|].
  by apply string_at_cstr.
Qed.

(** ** Describe and Close *)
Definition parse_target (name field : string) (p : list byte) : verdict (byte * list byte) :=
  let bad_item c := Refuse ERR_ROCTO_INVALID_CHAR_VALUE
    [str name; str "item"; AChr c; str "'S' or 'P'"] in
  match p with
  | [] => bad_item nul
  | item :: r =>
      if item_ok item then
        match split_nul r with
        | Some (s, []) => Accept (item, s)
        | Some (_, _) => Refuse ERR_ROCTO_TRAILING_CHARS [str name]
        | None => Refuse ERR_ROCTO_MISSING_NULL [str name; str field]
        end
      else bad_item item
  end.
Definition view_describe (d : Describe) : byte * list byte :=
  (d_item d, cstr (drop (Z.to_nat (d_name d)) (d_block d))).
Definition view_close (c : Close) : byte * list byte :=
  (c_item c, cstr (drop (Z.to_nat (c_data c)) (c_block c))).

Lemma block_item t item r slack : load8 (block t (item :: r) slack) 5 = Ret item.
Proof.
  by apply (load8_app_eq _ 5 (header t (zlen (item :: r) + 4)) item (r ++ replicate slack nul)).
Qed.

Lemma block_split t item r slack :
  block t (item :: r) slack = (header t (zlen (item :: r) + 4) ++ [item]) ++ r ++ replicate slack nul.
Proof. unfold block. by rewrite <- app_assoc. Qed.

Lemma remaining_after_item item r :
  small (item :: r) → u32 (zlen (item :: r) - 1) = zlen r.
Proof. unfold small. rewrite zlen_cons. intros. rewrite u32_small; zlia. Qed.

Lemma read_describe_refines payload rest :
  small payload →
  match parse_target "Describe" "name" payload with
  | Accept m => ∃ d, read_describe (frame PSQL_Describe payload rest) = Ret (Some d, None) ∧
                     view_describe d = m
  | Refuse e args => read_describe (frame PSQL_Describe payload rest) = protocol_warning e args
  end.
Proof.
  intros Hs. unfold parse_target, read_describe. prologue.
  destruct (decide _) as [?|_]; [done|]. destruct payload as [|item r]; [done|].
  rewrite block_item. cbn [mbind outcome_bind].
  destruct (item_ok item); cbn [negb]; [|done].
  rewrite remaining_after_item, block_split by done. set (h := header _ _ ++ [item]).
  assert (Hh : zlen h = 6) by done.
  destruct (split_nul r) as [[s r']|] eqn:E.
  - apply split_nul_Some in E as [-> Hn].
    rewrite (scan_str_spec _ _ h s (r' ++ replicate (Z.to_nat 5) nul));
      [|by rewrite <- app_assoc|done|done|unfold scan_fuel; rewrite !length_app; lia].
    cbn [mbind outcome_bind]. destruct r' as [|? r']; zdec; [|done].
    eexists; split; [done|]. unfold view_describe; cbn [d_item d_name d_block]. f_equal.
    apply (cstr_drop_block _ h s (replicate (Z.to_nat 5) nul)); [by rewrite <- app_assoc|done|done].
  - apply split_nul_None in E.
    rewrite (scan_str_spec _ _ h r (replicate 4 nul));
      [|done|done|done|unfold scan_fuel; rewrite !length_app; cbn; lia].
    cbn [mbind outcome_bind]. zdec. done.
Qed.

Lemma read_close_refines payload rest :
  small payload → payload ≠ [] →
  match parse_target "Close" "data" payload with
  | Accept m => ∃ c, read_close (frame PSQL_Close payload rest) = Ret (Some c, None) ∧
                     view_close c = m
  | Refuse e args => read_close (frame PSQL_Close payload rest) = protocol_warning e args
  end.
Proof.
  intros Hs Hne. unfold parse_target, read_close. prologue.
  destruct (decide _) as [?|_]; [done|]. destruct payload as [|item r]; [done|].
  rewrite block_item. cbn [mbind outcome_bind].
  destruct (item_ok item); cbn [negb]; [|done].
  rewrite remaining_after_item, block_split by done. set (h := header _ _ ++ [item]).
  assert (Hh : zlen h = 6) by done.
  rewrite (scan_nul_spec _ _ h r (replicate (Z.to_nat 0) nul));
    [|done|done|lia|unfold scan_fuel; rewrite !length_app; lia].
  cbn [mbind outcome_bind]. unfold nul_distance.
  destruct (split_nul r) as [[s r']|] eqn:E; [|zdec; done].
  apply split_nul_Some in E as [-> Hn]. destruct r' as [|? r']; zdec; [|done].
  eexists; split; [done|]. unfold view_close; cbn [c_item c_data c_block]. f_equal.
  apply (cstr_drop_block _ h s (replicate (Z.to_nat 0) nul)); [by rewrite <- app_assoc|done|done].
Qed.

(** ** Parse *)
Record ParseMsg := { pm_dest : list byte; pm_query : list byte; pm_types : list Z }.
Definition parse_parse (p : list byte) : verdict ParseMsg :=
  match split_nul p with
  | None => Refuse ERR_ROCTO_MISSING_NULL [str "Parse"; str "destination"]
  | Some (_, []) => Refuse ERR_ROCTO_MISSING_DATA [str "Parse"; str "destination or query"]
  | Some (dest, r) =>
      match split_nul r with
      | None => Refuse ERR_ROCTO_MISSING_NULL [str "Parse"; str "query"]
      | Some (_, []) =>
          Refuse ERR_ROCTO_MISSING_DATA [str "Parse"; str "number of parameter data types"]
      | Some (query, r) =>
          let num := s16 (short_at r) in
          if num <? 0 then
            Refuse ERR_ROCTO_INVALID_NUMBER [str "Parse"; str "parameter data types"]
          else if 2 + 4 * num <? zlen r then
            Refuse ERR_ROCTO_TOO_MANY_VALUES [str "Parse"; str "parameter data types"]
          else if zlen r <? 2 + 4 * num then
            Refuse ERR_ROCTO_MISSING_DATA [str "Parse"; str "parameter data types"]
          else Accept {| pm_dest := dest; pm_query := query; pm_types := words (drop 2 r) |}
      end
  end.
Definition encode_parse (m : ParseMsg) : list byte :=
  pm_dest m ++ nul :: pm_query m ++ nul :: be16 (zlen (pm_types m)) ++ be_words (pm_types m).
Definition view_parse (p : Parse) : ParseMsg :=
  {| pm_dest := cstr (drop (Z.to_nat (p_dest p)) (p_block p));
     pm_query := cstr (drop (Z.to_nat (p_query p)) (p_block p));
     pm_types := get_words (Z.to_nat (p_num_parm_data_types p))
                   (drop (Z.to_nat (p_parm_data_types p)) (p_block p)) |}.

Lemma convert_types_spec n b p pre cs post :
  b = pre ++ cs ++ post → p = zlen pre → length cs = (4 * n)%nat →
  convert_types n b p = Ret (pre ++ host_words (words cs) ++ post).
Proof.
  revert b p pre cs. induction n as [|n IH]; intros b p pre cs Hb Hp Hc.
  - destruct cs; [|cbn in Hc; lia]. by subst.
  - destruct cs as [|x [|y [|z [|w cs]]]]; cbn in Hc; try lia. cbn [convert_types].
    rewrite (load_be32_app b p pre x y z w (cs ++ post)) by done. cbn [mbind outcome_bind].
    rewrite (store32_app_eq b p pre x y z w _ (cs ++ post)) by done. cbn [mbind outcome_bind].
    rewrite (IH _ _ (pre ++ le32 (be [x; y; z; w])) cs); [|by rewrite <- app_assoc| |lia].
    + cbn [words host_words]. by rewrite <- !app_assoc.
    + rewrite zlen_app. change (zlen (le32 _)) with 4. lia.
Qed.

(** The names of a Parse are C strings of its block. *)
Definition parse_ok (p : Parse) : Prop :=
  string_at (p_block p) (p_dest p) = Ret (pm_dest (view_parse p)) ∧
  string_at (p_block p) (p_query p) = Ret (pm_query (view_parse p)).

Lemma read_parse_spec payload rest :
  small payload →
  match parse_parse payload with
  | Accept m => ∃ p, read_parse (frame PSQL_Parse payload rest) = Ret (Some p, None) ∧
                     view_parse p = m ∧ parse_ok p
  | Refuse e args => read_parse (frame PSQL_Parse payload rest) = protocol_error e args
  end.
Proof.
  intros Hs. unfold parse_parse, read_parse. prologue.
  destruct (decide _) as [?|_]; [done|].
  rewrite (expect_nul_spec _ (header PSQL_Parse (zlen payload + 4)) payload (replicate 4 nul))
    by done. cbn [mbind outcome_bind].
  destruct (split_nul payload) as [[dest r]|] eqn:E; [|done].
  apply split_nul_Some in E as [-> Hd].
  destruct r as [|r0 r]; [zdec; done|]. zdec.
  set (h := header PSQL_Parse (zlen (dest ++ nul :: r0 :: r) + 4)).
  assert (Hh : zlen h = 5) by done. set (blk := block _ _ _). remember (r0 :: r) as R eqn:HR.
  assert (Hblk : blk = (h ++ dest ++ [nul]) ++ R ++ replicate 4 nul)
    by (unfold blk, block; by rewrite <- !app_assoc).
  rewrite (scan_eager_spec _ blk (h ++ dest ++ [nul]) R (replicate 3 nul));
    [|done|zlia|zlia|unfold scan_fuel; rewrite Hblk, !length_app; lia].
  cbn [mbind outcome_bind]. unfold nul_distance.
  destruct (split_nul R) as [[query r']|] eqn:E.
  2:{ rewrite (load8_app_eq blk _ (h ++ dest ++ [nul] ++ R) nul (replicate 3 nul));
        [|rewrite Hblk; by rewrite <- !app_assoc|zlia].
      cbn [mbind outcome_bind]. rewrite bool_decide_false by auto. zdec. by destruct R. }
  apply split_nul_Some in E as [-> Hq]. clear HR r0 r.
  assert (Hblk2 : blk = (h ++ dest ++ [nul] ++ query ++ [nul]) ++ r' ++ replicate 4 nul)
    by (rewrite Hblk; by rewrite <- !app_assoc).
  rewrite (load8_app_eq blk _ (h ++ dest ++ [nul] ++ query) nul (r' ++ replicate 4 nul));
    [|rewrite Hblk2; by rewrite <- !app_assoc|zlia].
  cbn [mbind outcome_bind]. rewrite bool_decide_false by auto. zdec.
  destruct r' as [|x r']; [zdec; done|]. zdec. remember (x :: r') as R eqn:HR.
  rewrite (load_be16_pad blk _ (h ++ dest ++ [nul] ++ query ++ [nul]) R (replicate 2 nul));
    [|done|zlia]. cbn [mbind outcome_bind].
  destruct (Z.ltb_spec (s16 (short_at R)) 0); [done|].
  destruct (Z.ltb_spec (2 + 4 * s16 (short_at R)) (zlen R)); [zdec; done|].
  destruct (Z.ltb_spec (zlen R) (2 + 4 * s16 (short_at R))); [zdec; done|].
  set (num := s16 (short_at R)) in *. zdec.
  destruct R as [|a [|b R]]; [done|zlia|].
  rewrite (convert_types_spec _ blk _ (h ++ dest ++ [nul] ++ query ++ [nul; a; b]) R
    (replicate 4 nul)); [|rewrite Hblk2; by rewrite <- !app_assoc|zlia|unfold zlen in *; cbn in *; lia].
  cbn [mbind outcome_bind]. eexists; split; [done|].
  match goal with |- _ ∧ parse_ok ?x => set (p := x) end.
  assert (Hdest : string_at (p_block p) (p_dest p) = Ret dest).
  { apply (string_at_app _ h dest (query ++ [nul; a; b] ++ host_words (words R) ++ replicate 4 nul));
      [cbn [p p_block]; by rewrite <- !app_assoc|done|done]. }
  assert (Hquery : string_at (p_block p) (p_query p) = Ret query).
  { apply (string_at_app _ (h ++ dest ++ [nul]) query ([a; b] ++ host_words (words R) ++ replicate 4 nul));
      [cbn [p p_block]; by rewrite <- !app_assoc|cbn [p p_query]; zlia|done]. }
  pose proof (string_at_cstr _ _ _ Hdest) as Ed. pose proof (string_at_cstr _ _ _ Hquery) as Eq.
  split; [|unfold parse_ok, view_parse; cbn [pm_dest pm_query]; by rewrite Ed, Eq].
  unfold view_parse. rewrite Ed, Eq. f_equal. cbn [p p_num_parm_data_types p_parm_data_types p_block].
  change (drop 2 (a :: b :: R)) with R.
  replace (Z.to_nat (_ + 2)) with (length (h ++ dest ++ [nul] ++ query ++ [nul; a; b]))
    by (unfold zlen in *; rewrite !length_app; cbn; lia).
  rewrite drop_app_length.
  replace (Z.to_nat num) with (length (words R))
    by (apply length_words; unfold zlen in *; cbn in *; lia).
  apply get_words_host, words_range.
Qed.

Lemma read_parse_refines payload rest :
  small payload →
  match parse_parse payload with
  | Accept m => ∃ p, read_parse (frame PSQL_Parse payload rest) = Ret (Some p, None) ∧
                     view_parse p = m
  | Refuse e args => read_parse (frame PSQL_Parse payload rest) = protocol_error e args
  end.
Proof.
  intros Hs. pose proof (read_parse_spec payload rest Hs) as H. destruct (parse_parse payload); [|done].
  destruct H as (p & ? & ? & _). by exists p.
Qed.

(** ** Rejections are answers: building one never goes wrong. *)
Lemma error_of_returns severity code e args : returns (error_of severity code e args).
Proof.
  unfold error_of. set (msg := (format_error_string _ e args).1).
  assert (Hm : zlen (cstr msg) < 2 ^ 20).
  { eapply Z.le_lt_trans; [apply zlen_cstr_le|]. subst msg. unfold format_error_string.
    set (full := vprintf _ _).
    assert (H : zlen (cstr (take (Z.to_nat (u32 (MAX_STR_CONST - 0) - 1)) full)) < 2 ^ 20).
    { eapply Z.le_lt_trans; [apply zlen_cstr_le|]. unfold zlen. rewrite length_take.
      change (u32 (MAX_STR_CONST - 0)) with 32768. lia. }
    cbn [eb_offset]. case_match; exact H. }
  destruct (make_error_response_spec severity code msg []) as (er & -> & _); [|by eexists].
  assert (Hs : zlen (psql_error_severity_str severity) ≤ 7) by (by destruct severity).
  assert (Hc : zlen (psql_sqlstate_codes_str code) ≤ 5) by (by destruct code).
  unfold error_payload, error_fields. cbn [fmap list_fmap].
  rewrite zlen_app, !zlen_fields_cons. cbn [fields_wire snd]. zlia.
Qed.

Lemma reject_returns {A} severity code e args :
  ∃ er, @reject A severity code e args = Ret (None, Some er).
Proof. unfold reject. destruct (error_of_returns severity code e args) as [er ->]. by eexists. Qed.

(** ** Bind *)
Record BindMsg := {
  bm_dest : list byte;
  bm_source : list byte;
  bm_codes : list Z;
  bm_parms : list (list byte);
  bm_result_codes : list Z;
}.

Definition is_code (z : Z) : bool := (z =? 0) || (z =? 1).
Fixpoint first_bad (l : list Z) : option Z :=
  match l with [] => None | z :: l' => if is_code z then first_bad l' else Some z end.

Inductive parms_verdict := PMissing | PNegative | PParms (ps : list (list byte)) (rest : list byte).
Fixpoint parse_parms (n : nat) (r : list byte) : parms_verdict :=
  match n with
  | O => PParms [] r
  | S n' =>
      match r with
      | a :: b :: c :: d :: r' =>
          let len := s32 (be [a; b; c; d]) in
          if len <? 0 then PNegative
          else if zlen r' <? len then PMissing
          else match parse_parms n' (drop (Z.to_nat len) r') with
               | PParms ps rest => PParms (take (Z.to_nat len) r' :: ps) rest
               | v => v
               end
      | _ => PMissing
      end
  end.

(** The result-column codes; [true] when they end the message exactly. *)
Definition parse_results (r : list byte) : verdict (list Z * bool) :=
  let num := s16 (short_at r) in
  if num <? 0 then
    Refuse ERR_ROCTO_INVALID_NUMBER [str "Bind"; str "result column format codes"]
  else if (0 <? num) && (zlen r <? 2 + 2 * num) then
    Refuse ERR_ROCTO_MISSING_DATA [str "Bind"; str "result column format codes"]
  else
    let codes := shorts (take (Z.to_nat (2 * num)) (drop 2 r)) in
    match first_bad codes with
    | Some code => Refuse ERR_ROCTO_INVALID_INT_VALUE
        [str "Bind"; str "result column format code"; AInt code; str "0 (text) or 1 (binary)"]
    | None => Accept (codes, zlen r =? 2 + 2 * num)
    end.

Inductive bind_verdict :=
  | BAccept (m : BindMsg) (exact : bool)
  | BRefuse (e : ERROR) (args : list printf_arg)
  | BNegative.  (* a parameter announces a negative length *)

(** From the parameter count on. *)
Definition parse_bind_parms (dest source : list byte) (codes : list Z) (r : list byte)
    : bind_verdict :=
  let num := s16 (short_at r) in
  if num <? 0 then BRefuse ERR_ROCTO_INVALID_NUMBER [str "Bind"; str "parameters"]
  else if num <? zlen codes then
    BRefuse ERR_ROCTO_TOO_MANY_VALUES [str "Bind"; str "parameter format codes"]
  else if (1 <? zlen codes) && negb (zlen codes =? num) then
    BRefuse ERR_ROCTO_TOO_FEW_VALUES [str "Bind"; str "parameter format codes"]
  else if zlen r <? 2 then BRefuse ERR_ROCTO_MISSING_DATA [str "Bind"; str "parameters"]
  else match parse_parms (Z.to_nat num) (drop 2 r) with
  | PMissing => BRefuse ERR_ROCTO_MISSING_DATA [str "Bind"; str "parameters"]
  | PNegative => BNegative
  | PParms ps r =>
      match parse_results r with
      | Refuse e args => BRefuse e args
      | Accept (results, exact) =>
          BAccept {| bm_dest := dest; bm_source := source; bm_codes := codes;
                     bm_parms := ps; bm_result_codes := results |} exact
      end
  end.

Definition parse_bind (p : list byte) : bind_verdict :=
  match split_nul p with
  | None => BRefuse ERR_ROCTO_MISSING_NULL [str "Bind"; str "destination"]
  | Some (dest, r) =>
  match split_nul r with
  | None => BRefuse ERR_ROCTO_MISSING_NULL [str "Bind"; str "source"]
  | Some (source, r) =>
  let num := s16 (short_at r) in
  if num <? 0 then BRefuse ERR_ROCTO_INVALID_NUMBER [str "Bind"; str "parameter format codes"]
  else if zlen r <? 2 then
    BRefuse ERR_ROCTO_MISSING_DATA [str "Bind"; str "number of parameter format codes"]
  else if zlen r <? 2 + 2 * num then
    BRefuse ERR_ROCTO_MISSING_DATA [str "Bind"; str "parameter format codes"]
  else
    let codes := shorts (take (Z.to_nat (2 * num)) (drop 2 r)) in
    match first_bad codes with
    | Some code => BRefuse ERR_ROCTO_INVALID_INT_VALUE
        [str "Bind"; str "parameter format code"; AInt code; str "0 (text) or 1 (binary)"]
    | None => parse_bind_parms dest source codes (drop (Z.to_nat (2 + 2 * num)) r)
    end
  end end.

Definition view_parm (b : list byte) (p : BindParm) : list byte :=
  take (Z.to_nat (bp_length p)) (drop (Z.to_nat (bp_value p)) b).
Definition view_codes (b : list byte) (num : Z) (p : option Z) : list Z :=
  match p with None => [] | Some p => get_shorts (Z.to_nat num) (drop (Z.to_nat p) b) end.
Definition view_bind (b : Bind) : BindMsg :=
  {| bm_dest := cstr (drop (Z.to_nat (b_dest b)) (b_block b));
     bm_source := cstr (drop (Z.to_nat (b_source b)) (b_block b));
     bm_codes := view_codes (b_block b) (b_num_parm_format_codes b) (b_parm_format_codes b);
     bm_parms := view_parm (b_block b) <$> b_parms b;
     bm_result_codes :=
       view_codes (b_block b) (b_num_result_col_format_codes b) (b_result_col_format_codes b) |}.

(** The pointers of a Bind stay inside its block: what the handler relies on. *)
Definition parm_in (b : list byte) (p : BindParm) : Prop :=
  0 ≤ bp_value p ∧ 0 ≤ bp_length p ∧ bp_value p + bp_length p ≤ zlen b.
Definition codes_in (b : list byte) (num : Z) (p : option Z) : Prop :=
  match p with None => num = 0 | Some p => 0 ≤ p ∧ 0 < num ∧ p + 2 * num ≤ zlen b end.
Record bind_ok (b : Bind) : Prop := {
  ok_dest : string_at (b_block b) (b_dest b) = Ret (bm_dest (view_bind b));
  ok_source : string_at (b_block b) (b_source b) = Ret (bm_source (view_bind b));
  ok_codes : codes_in (b_block b) (b_num_parm_format_codes b) (b_parm_format_codes b);
  ok_count : b_num_parm_format_codes b ≤ 1 ∨ b_num_parm_format_codes b = b_num_parms b;
  ok_num : b_num_parms b = zlen (b_parms b) ∧ b_num_parms b < 2 ^ 15;
  ok_parms : Forall (parm_in (b_block b)) (b_parms b);
}.

Definition codes_ok (l : list Z) : Prop := Forall (λ z, z = 0 ∨ z = 1) l.
Lemma first_bad_None l : first_bad l = None ↔ codes_ok l.
Proof.
  unfold codes_ok. induction l as [|z l IH]; cbn [first_bad]; [done|].
  rewrite Forall_cons_iff, <- IH. unfold is_code.
  destruct (Z.eqb_spec z 0), (Z.eqb_spec z 1); cbn [orb]; intuition (done || lia).
Qed.

Lemma check_format_codes_spec n b p pre cs post :
  b = pre ++ cs ++ post → p = zlen pre → length cs = (2 * n)%nat →
  ∃ b', check_format_codes n b p = Ret (b', first_bad (shorts cs)) ∧
    (first_bad (shorts cs) = None → b' = pre ++ host_shorts (shorts cs) ++ post).
Proof.
  revert b p pre cs. induction n as [|n IH]; intros b p pre cs Hb Hp Hc.
  - destruct cs; [|cbn in Hc; lia]. exists b. by subst.
  - destruct cs as [|x [|y cs]]; cbn in Hc; try lia. cbn [check_format_codes].
    unfold load_be16. rewrite (load16_be b p pre x y (cs ++ post)) by done.
    cbn [mbind outcome_bind].
    rewrite (store16_app_eq b p pre x y _ (cs ++ post)) by done. cbn [mbind outcome_bind].
    rewrite shorts_app_pair. cbn [first_bad host_shorts]. unfold is_code.
    destruct (_ || _); [|by eexists].
    edestruct (IH (pre ++ le16 (s16 (be [x; y])) ++ cs ++ post) (p + 2)
      (pre ++ le16 (s16 (be [x; y]))) cs) as (b' & -> & Hb'); [by rewrite <- app_assoc| |lia|].
    + rewrite zlen_app. change (zlen (le16 _)) with 2. lia.
    + eexists; split; [done|]. intros E. rewrite (Hb' E). by rewrite <- !app_assoc.
Qed.

Lemma read_bind_parms_spec n b pre r cur last :
  b = pre ++ r ++ replicate 4 nul → cur = zlen pre → last = zlen pre + zlen r →
  match parse_parms n r with
  | PMissing => read_bind_parms n b cur last = Ret None
  | PNegative => True
  | PParms ps r' => ∃ bps k, r = k ++ r' ∧
      read_bind_parms n b cur last = Ret (Some (bps, cur + zlen k)) ∧
      length bps = n ∧
      ∀ post, view_parm (pre ++ k ++ post) <$> bps = ps ∧ Forall (parm_in (pre ++ k ++ post)) bps
  end.
Proof.
  revert pre r cur. induction n as [|n IH]; intros pre r cur Hb Hc Hl; cbn [parse_parms read_bind_parms].
  { exists [], []. split; [done|]. split; [do 3 f_equal; zlia|]. split; [done|]. intros post. by split. }
  destruct r as [|x [|y [|z [|w r]]]]; try (zdec; done).
  destruct (Z.ltb_spec (s32 (be [x; y; z; w])) 0) as [|Hpos]; [done|].
  assert (E8 : load_be32_of_long b cur = Ret (be [x; y; z; w])).
  { destruct (r ++ replicate 4 nul) as [|a1 [|a2 [|a3 [|a4 tl]]]] eqn:Et;
      try (apply (f_equal length) in Et; rewrite length_app, length_replicate in Et; cbn in Et; lia).
    apply (load_be32_of_long_app b cur pre x y z w a1 a2 a3 a4 tl); [|done].
    subst b. cbn [app]. by rewrite Et. }
  rewrite E8. cbn [mbind outcome_bind]. set (len := s32 (be [x; y; z; w])) in *.
  destruct (Z.ltb_spec (zlen r) len) as [|Hfit]; [zdec; done|]. zdec.
  assert (Hlen : zlen (take (Z.to_nat len) r) = len).
  { unfold zlen in *. rewrite length_take. lia. }
  assert (Hsplit : take (Z.to_nat len) r ++ drop (Z.to_nat len) r = r) by apply take_drop.
  pose proof (f_equal zlen Hsplit) as Hz. rewrite zlen_app in Hz.
  assert (Hb' : b = (pre ++ [x; y; z; w] ++ take (Z.to_nat len) r) ++
                    drop (Z.to_nat len) r ++ replicate 4 nul).
  { subst b. rewrite <- !app_assoc. by rewrite (app_assoc (take _ _)), Hsplit. }
  assert (Hc' : cur + 4 + len = zlen (pre ++ [x; y; z; w] ++ take (Z.to_nat len) r))
    by (rewrite !zlen_app, Hlen; zlia).
  specialize (IH _ _ _ Hb' Hc' ltac:(rewrite <- Hc'; zlia)).
  destruct (parse_parms n (drop (Z.to_nat len) r)) as [| |ps r']; [by rewrite IH|done|].
  destruct IH as (bps & k & Hk & -> & Hn & Hview). cbn [mbind outcome_bind].
  exists ({| bp_length := len; bp_value := cur + 4 |} :: bps), ([x; y; z; w] ++ take (Z.to_nat len) r ++ k).
  split; [cbn [app]; do 4 f_equal; by rewrite <- app_assoc, <- Hk|].
  split; [do 3 f_equal; rewrite !zlen_app, Hlen; change (zlen [x; y; z; w]) with 4; lia|].
  split; [cbn [length]; by rewrite Hn|].
  intros post. destruct (Hview post) as [Hv Hi].
  replace ((pre ++ [x; y; z; w] ++ take (Z.to_nat len) r) ++ k ++ post)
    with (pre ++ ([x; y; z; w] ++ take (Z.to_nat len) r ++ k) ++ post) in Hv, Hi by (by rewrite <- !app_assoc).
  split; [|constructor; [|exact Hi]; unfold parm_in; cbn [bp_length bp_value]; rewrite !zlen_app, Hlen; zlia].
  cbn [fmap list_fmap]. f_equal; [|exact Hv].
  - unfold view_parm; cbn [bp_length bp_value].
    replace (pre ++ ([x; y; z; w] ++ take (Z.to_nat len) r ++ k) ++ post)
      with ((pre ++ [x; y; z; w]) ++ take (Z.to_nat len) r ++ k ++ post) by (by rewrite <- !app_assoc).
    replace (Z.to_nat (cur + 4)) with (length (pre ++ [x; y; z; w]))
      by (rewrite length_app; unfold zlen in *; cbn; lia).
    rewrite drop_app_length. replace (Z.to_nat len) with (length (take (Z.to_nat len) r)) at 1
      by (unfold zlen in *; lia). apply take_app_length.
Qed.

(** What [read_bind] leaves in [*err] when it returns the struct. *)
Definition trailing_warning (exact : bool) (err : option ErrorResponse) : Prop :=
  if exact then err = None
  else ∃ w, err = Some w ∧ error_of PSQL_Error_WARNING PSQL_Code_Protocol_Violation
              ERR_ROCTO_TRAILING_CHARS [str "Bind"] = Ret w.

Lemma view_codes_host pre cs post num p :
  codes_ok cs → num = zlen cs → p = zlen pre →
  view_codes (pre ++ host_shorts cs ++ post) num (Some p) = cs.
Proof.
  intros Hok -> ->. unfold view_codes. rewrite !zlen_to_nat, drop_app_length.
  by apply get_shorts_host.
Qed.

Lemma length_shorts l n : length l = (2 * n)%nat → length (shorts l) = n.
Proof.
  revert l. induction n as [|n IH]; intros l Hl.
  - destruct l; [done|]. cbn in Hl. lia.
  - destruct l as [|x [|y l]]; cbn in Hl; try lia.
    cbn [shorts length]. rewrite IH by lia. done.
Qed.

Lemma take_codes r num :
  0 ≤ num → 2 + 2 * num ≤ zlen r →
  length (take (Z.to_nat (2 * num)) (drop 2 r)) = (2 * Z.to_nat num)%nat ∧
  zlen (take 2 r) = 2 ∧
  zlen (shorts (take (Z.to_nat (2 * num)) (drop 2 r))) = num ∧
  r = take 2 r ++ take (Z.to_nat (2 * num)) (drop 2 r) ++ drop (Z.to_nat (2 + 2 * num)) r.
Proof.
  intros H0 Hr. assert (Hl : length (take (Z.to_nat (2 * num)) (drop 2 r)) = (2 * Z.to_nat num)%nat).
  { unfold zlen in *. rewrite length_take, length_drop. lia. }
  split; [done|]. split; [unfold zlen in *; rewrite length_take; lia|].
  split; [unfold zlen; rewrite (length_shorts _ _ Hl); lia|].
  replace (Z.to_nat (2 + 2 * num)) with (2 + Z.to_nat (2 * num))%nat by lia.
  by rewrite <- drop_drop, !take_drop.
Qed.

Lemma read_bind_results_spec b pre r cur last ret :
  b = pre ++ r ++ replicate 4 nul → cur = zlen pre → last = zlen pre + zlen r →
  match parse_results r with
  | Refuse e args => read_bind_results b cur last ret = protocol_error e args
  | Accept (codes, exact) => ∃ num cp post err,
      read_bind_results b cur last ret = Ret (Some (ret num cp (pre ++ post)), err) ∧
      view_codes (pre ++ post) num cp = codes ∧ trailing_warning exact err
  end.
Proof.
  intros Hb Hc Hl. unfold parse_results, read_bind_results.
  rewrite (load_be16_pad b cur pre r (replicate 2 nul)) by done. cbn [mbind outcome_bind].
  set (num := s16 (short_at r)). destruct (Z.ltb_spec num 0); [done|].
  destruct (error_of_returns PSQL_Error_WARNING PSQL_Code_Protocol_Violation
    ERR_ROCTO_TRAILING_CHARS [str "Bind"]) as [w Hw]. rewrite Hw.
  pose proof (ex_intro _ w (conj eq_refl Hw) : trailing_warning false (Some w)) as Htw. clear Hw.
  destruct (Z.ltb_spec 0 num); cbn [andb].
  - destruct (Z.ltb_spec (zlen r) (2 + 2 * num)); [zdec; done|]. zdec.
    destruct (take_codes r num) as (Hn & H2 & Hz & Hr); [lia..|].
    set (cs := take (Z.to_nat (2 * num)) (drop 2 r)) in *.
    destruct (check_format_codes_spec (Z.to_nat num) b (cur + 2) (pre ++ take 2 r) cs
      (drop (Z.to_nat (2 + 2 * num)) r ++ replicate 4 nul)) as (b' & -> & Hb');
      [subst b; rewrite Hr at 1; by rewrite <- !app_assoc|rewrite zlen_app; lia|done|].
    cbn [mbind outcome_bind]. destruct (first_bad (shorts cs)) as [bad|] eqn:Eb; [done|].
    rewrite (Hb' eq_refl), <- app_assoc. apply first_bad_None in Eb.
    assert (Hv : ∀ post, view_codes (pre ++ take 2 r ++ host_shorts (shorts cs) ++ post) num
                          (Some (cur + 2)) = shorts cs).
    { intros. rewrite app_assoc. apply view_codes_host; [done|lia|rewrite zlen_app; lia]. }
    replace (cur + 2 + num * 2 =? last) with (zlen r =? 2 + 2 * num)
      by (apply Bool.eq_iff_eq_true; rewrite !Z.eqb_eq; lia).
    destruct (zlen r =? 2 + 2 * num); do 4 eexists;
      (split; [reflexivity|]); (split; [apply Hv|]); [exact eq_refl|exact Htw].
  - assert (num = 0) as -> by lia. cbn [Z.to_nat Z.mul take shorts first_bad].
    replace (cur + 2 =? last) with (zlen r =? 2 + 2 * 0)
      by (apply Bool.eq_iff_eq_true; rewrite !Z.eqb_eq; lia).
    rewrite Hb. destruct (zlen r =? 2 + 2 * 0); exists 0, None; do 2 eexists;
      (split; [reflexivity|]); (split; [reflexivity|]); [exact eq_refl|exact Htw].
Qed.

(** The struct of an accepted message: what its pointers show, and the warning. *)
Definition bind_answer (o : outcome (reader_result Bind)) (v : bind_verdict) : Prop :=
  match v with
  | BAccept m exact => ∃ bd err, o = Ret (Some bd, err) ∧ view_bind bd = m ∧ bind_ok bd ∧
                                 trailing_warning exact err
  | BRefuse e args => o = protocol_error e args
  | BNegative => True
  end.

Lemma read_bind_values_spec b pre dest source cs r cur last d s num cp :
  b = pre ++ r ++ replicate 4 nul → cur = zlen pre → last = zlen pre + zlen r →
  num = zlen cs →
  (∀ post, string_at (pre ++ post) d = Ret dest ∧ string_at (pre ++ post) s = Ret source ∧
           view_codes (pre ++ post) num cp = cs ∧ codes_in (pre ++ post) num cp) →
  bind_answer (read_bind_values b cur last d s num cp) (parse_bind_parms dest source cs r).
Proof.
  intros Hb Hc Hl Hn Hview. unfold parse_bind_parms, read_bind_values.
  rewrite (load_be16_pad b cur pre r (replicate 2 nul)) by done. cbn [mbind outcome_bind].
  rewrite <- Hn. set (np := s16 (short_at r)). destruct (Z.ltb_spec np 0); [done|].
  destruct (Z.ltb_spec np num); [done|].
  destruct ((1 <? num) && negb (num =? np)) eqn:Ecount; [done|].
  destruct (Z.ltb_spec (zlen r) 2); [zdec; done|]. zdec.
  assert (Hr : b = (pre ++ take 2 r) ++ drop 2 r ++ replicate 4 nul).
  { subst b. by rewrite <- app_assoc, (app_assoc (take 2 r)), take_drop. }
  assert (H2 : zlen (take 2 r) = 2) by (unfold zlen in *; rewrite length_take; lia).
  assert (Hd : zlen (drop 2 r) = zlen r - 2) by (unfold zlen in *; rewrite length_drop; lia).
  pose proof (read_bind_parms_spec (Z.to_nat np) b (pre ++ take 2 r) (drop 2 r) (cur + 2) last Hr
    ltac:(rewrite zlen_app; lia) ltac:(rewrite zlen_app; lia)) as Hps.
  replace (if 0 <? np then _ else _) with (read_bind_parms (Z.to_nat np) b (cur + 2) last)
    by (destruct (Z.ltb_spec 0 np); [done|]; by replace np with 0 by lia).
  destruct (parse_parms (Z.to_nat np) (drop 2 r)) as [| |ps r']; [by rewrite Hps|done|].
  destruct Hps as (bps & k & Hk & -> & Hlen & Hbps). cbn [mbind outcome_bind].
  pose proof (f_equal zlen Hk) as Hkz. rewrite zlen_app in Hkz.
  pose proof (read_bind_results_spec b ((pre ++ take 2 r) ++ k) r' (cur + 2 + zlen k) last
    (λ num_results results b,
        {| b_dest := d; b_source := s; b_num_parm_format_codes := num; b_parm_format_codes := cp;
           b_num_parms := np; b_parms := bps; b_num_result_col_format_codes := num_results;
           b_result_col_format_codes := results; b_block := b |})
    ltac:(rewrite Hr, Hk; by rewrite <- !app_assoc) ltac:(rewrite !zlen_app; lia)
    ltac:(rewrite !zlen_app; lia)) as Hres.
  destruct (parse_results r') as [[results exact]|]; [|done].
  destruct Hres as (nr & rp & post & err & -> & Hcodes & Hw).
  destruct (Hbps post) as [Hp Hin]. destruct (Hview (take 2 r ++ k ++ post)) as (Hd' & Hs & Hv & Hci).
  rewrite !app_assoc in Hd', Hs, Hv, Hci. rewrite app_assoc in Hp, Hin.
  pose proof (string_at_cstr _ _ _ Hd') as Hdc. pose proof (string_at_cstr _ _ _ Hs) as Hsc.
  eexists _, err. split; [done|]. split; [|split; [|done]].
  - unfold view_bind; cbn -[view_codes view_parm]. by rewrite Hcodes, Hp, Hv, Hdc, Hsc.
  - split; cbn -[view_codes view_parm codes_in]; rewrite ?Hdc, ?Hsc; try done.
    + apply andb_false_iff in Ecount as [E|E]; [left; lia|right].
      apply negb_false_iff, Z.eqb_eq in E. done.
    + unfold zlen. pose proof (s16_range (short_at r)) as Hnp. fold np in Hnp. rewrite Hlen. lia.
Qed.

Lemma read_bind_spec payload rest :
  small payload →
  bind_answer (read_bind (frame PSQL_Bind payload rest)) (parse_bind payload).
Proof.
  intros Hs. unfold parse_bind, read_bind. prologue. destruct (decide _) as [?|_]; [done|].
  set (h := header PSQL_Bind (zlen payload + 4)). assert (Hh : zlen h = 5) by done.
  assert (Hblk : block PSQL_Bind payload (Z.to_nat 4) = h ++ payload ++ replicate 4 nul) by done.
  rewrite Hblk. clearbody h. clear Hblk Hs rest.
  rewrite (expect_nul_spec _ h payload (replicate 4 nul)) by (done || lia). cbn [mbind outcome_bind].
  destruct (split_nul payload) as [[dest r1]|] eqn:E; [|done].
  apply split_nul_Some in E as [-> Hd].
  rewrite (expect_nul_spec _ (h ++ dest ++ [nul]) r1 (replicate 4 nul));
    [|by rewrite <- !app_assoc|zlia|zlia]. cbn [mbind outcome_bind].
  destruct (split_nul r1) as [[source r]|] eqn:E; [|done].
  apply split_nul_Some in E as [-> Hsrc].
  set (pre := h ++ dest ++ [nul] ++ source ++ [nul]).
  assert (Hpre : zlen pre = 5 + zlen dest + 1 + zlen source + 1) by (unfold pre; zlia).
  replace (h ++ (dest ++ nul :: source ++ nul :: r) ++ replicate 4 nul)
    with (pre ++ r ++ replicate 4 nul) by (unfold pre; by repeat (rewrite <- !app_assoc; cbn [app])).
  set (last := 5 + zlen (dest ++ nul :: source ++ nul :: r)).
  assert (Hlast : last = zlen pre + zlen r) by (unfold last; zlia).
  assert (Hfields : ∀ post, string_at (pre ++ post) 5 = Ret dest ∧
    string_at (pre ++ post) (5 + zlen dest + 1) = Ret source).
  { intros post. split.
    - apply (string_at_app _ h dest (source ++ nul :: post)); [|done|done].
      unfold pre. by rewrite <- !app_assoc.
    - apply (string_at_app _ (h ++ dest ++ [nul]) source post); [|zlia|done].
      unfold pre. by rewrite <- !app_assoc. }
  replace (5 + zlen dest + 1 + zlen source + 1) with (zlen pre). clearbody pre last.
  rewrite (load_be16_pad _ _ pre r (replicate 2 nul)) by done. cbn [mbind outcome_bind].
  set (num := s16 (short_at r)). destruct (Z.ltb_spec num 0); [done|].
  destruct (Z.ltb_spec (zlen r) 2); [zdec; done|]. zdec.
  destruct (Z.ltb_spec (zlen r) (2 + 2 * num)); [zdec; done|]. zdec.
  destruct (take_codes r num) as (Hn & H2 & Hz & Hr); [lia..|].
  set (cs := take (Z.to_nat (2 * num)) (drop 2 r)) in *.
  set (r' := drop (Z.to_nat (2 + 2 * num)) r) in *.
  destruct (check_format_codes_spec (Z.to_nat num) (pre ++ r ++ replicate 4 nul) (zlen pre + 2)
    (pre ++ take 2 r) cs (r' ++ replicate 4 nul)) as (b' & -> & Hb');
    [rewrite Hr at 1; by rewrite <- !app_assoc|rewrite zlen_app; lia|done|].
  cbn [mbind outcome_bind]. destruct (first_bad (shorts cs)) as [bad|] eqn:Eb; [done|].
  rewrite (Hb' eq_refl). apply first_bad_None in Eb.
  pose proof (f_equal zlen Hr) as Hrz. rewrite !zlen_app in Hrz.
  assert (Hcs : zlen cs = 2 * num) by (unfold zlen; lia).
  apply (read_bind_values_spec _ (pre ++ take 2 r ++ host_shorts (shorts cs)) _ _ _ r').
  - by rewrite <- !app_assoc.
  - rewrite !zlen_app, zlen_host_shorts. lia.
  - rewrite !zlen_app, zlen_host_shorts. lia.
  - done.
  - intros post. rewrite <- !app_assoc.
    destruct (Hfields (take 2 r ++ host_shorts (shorts cs) ++ post)) as [-> ->].
    split; [done|]. split; [done|]. destruct (Z.ltb_spec 0 num).
    + split; [rewrite app_assoc; apply view_codes_host; [done|done|rewrite zlen_app; lia]|].
      cbn [codes_in]. rewrite !zlen_app, zlen_host_shorts. zlia.
    + split; [destruct (shorts cs); [done|zlia]|cbn [codes_in]; lia].
Qed.

(** ** What a client sends for a Bind *)
Fixpoint be_shorts (l : list Z) : list byte :=
  match l with [] => [] | z :: l' => be16 z ++ be_shorts l' end.
Fixpoint encode_parms (ps : list (list byte)) : list byte :=
  match ps with [] => [] | p :: ps' => be32 (zlen p) ++ p ++ encode_parms ps' end.
Definition encode_codes (cs : list Z) : list byte := be16 (zlen cs) ++ be_shorts cs.
Definition encode_bind (m : BindMsg) : list byte :=
  bm_dest m ++ nul :: bm_source m ++ nul :: encode_codes (bm_codes m) ++
  be16 (zlen (bm_parms m)) ++ encode_parms (bm_parms m) ++ encode_codes (bm_result_codes m).

(** The messages the protocol allows, with no NULL parameter: one format code for
    all parameters, or none, or one each. *)
Definition wf_codes (cs : list Z) : Prop := codes_ok cs ∧ zlen cs < 2 ^ 15.
Record wf_bind (m : BindMsg) : Prop := {
  wf_dest : no_nul (bm_dest m);
  wf_source : no_nul (bm_source m);
  wf_bm_codes : wf_codes (bm_codes m);
  wf_results : wf_codes (bm_result_codes m);
  wf_parms : zlen (bm_parms m) < 2 ^ 15;
  wf_parm_lengths : Forall (λ p, zlen p < 2 ^ 31) (bm_parms m);
  wf_few : zlen (bm_codes m) ≤ zlen (bm_parms m);
  wf_match : zlen (bm_codes m) ≤ 1 ∨ zlen (bm_codes m) = zlen (bm_parms m);
}.

Lemma short_at_be16 z r : 0 ≤ z < 2 ^ 15 → s16 (short_at (be16 z ++ r)) = z.
Proof.
  intros Hz. change (short_at (be16 z ++ r)) with (be (be16 z)).
  rewrite be_be16. unfold u16. rewrite Z.mod_small by lia. by apply s16_small.
Qed.
Lemma zlen_be_shorts l : zlen (be_shorts l) = 2 * zlen l.
Proof. induction l as [|z l IH]; [done|]. cbn [be_shorts]. rewrite zlen_app, IH, zlen_cons. change (zlen (be16 z)) with 2. lia. Qed.
Lemma shorts_be_shorts l : codes_ok l → shorts (be_shorts l) = l.
Proof.
  induction 1 as [|z l Hz Hl IH]; [done|]. cbn [be_shorts].
  destruct Hz as [-> | ->]; cbn [app shorts be16]; by rewrite IH.
Qed.
#[export] Hint Rewrite zlen_be_shorts : zlen.

(** Reading back an encoded list of codes. *)
Lemma encode_codes_read cs r :
  wf_codes cs →
  let b := encode_codes cs ++ r in
  s16 (short_at b) = zlen cs ∧ 2 + 2 * zlen cs + zlen r = zlen b ∧
  shorts (take (Z.to_nat (2 * zlen cs)) (drop 2 b)) = cs ∧
  drop (Z.to_nat (2 + 2 * zlen cs)) b = r.
Proof.
  intros [Hok Hl] b. subst b. unfold encode_codes. rewrite <- app_assoc.
  rewrite short_at_be16 by zlia. split; [done|].
  split; [rewrite !zlen_app, zlen_be_shorts; change (zlen (be16 (zlen cs))) with 2; lia|].
  change (drop 2 (be16 (zlen cs) ++ ?x)) with x.
  replace (Z.to_nat (2 * zlen cs)) with (length (be_shorts cs))
    by (pose proof (zlen_be_shorts cs); unfold zlen in *; lia).
  rewrite take_app_length. split; [by apply shorts_be_shorts|].
  replace (Z.to_nat (2 + 2 * zlen cs)) with (length (be16 (zlen cs) ++ be_shorts cs)).
  - by rewrite app_assoc, drop_app_length.
  - rewrite length_app. pose proof (zlen_be_shorts cs). unfold zlen in *. cbn [length be16]. lia.
Qed.

Lemma parse_parms_encode ps r :
  Forall (λ p, zlen p < 2 ^ 31) ps →
  parse_parms (length ps) (encode_parms ps ++ r) = PParms ps r.
Proof.
  induction 1 as [|p ps Hp Hps IH]; [done|]. cbn [length encode_parms parse_parms].
  pose proof (be_be32 (zlen p)) as E. rewrite u32_small in E by zlia.
  destruct (be32 (zlen p)) as [|x [|y [|z [|w [|??]]]]] eqn:Eb; try done.
  cbn [app]. rewrite E, s32_small by zlia. rewrite <- app_assoc. zdec.
  by rewrite zlen_to_nat, drop_app_length, take_app_length, IH.
Qed.

Lemma parse_bind_encode m : wf_bind m → parse_bind (encode_bind m) = BAccept m true.
Proof.
  intros [Hd Hsrc Hc Hr Hp Hpl Hf Hm]. unfold parse_bind, encode_bind.
  rewrite !split_nul_app by done.
  destruct (encode_codes_read (bm_codes m) (be16 (zlen (bm_parms m)) ++ encode_parms (bm_parms m)
    ++ encode_codes (bm_result_codes m)) Hc) as (-> & Hz & -> & ->).
  destruct Hc as [Hok Hcl]. rewrite (proj2 (first_bad_None _) Hok). zlen_pos. zdec.
  unfold parse_bind_parms. rewrite short_at_be16 by zlia.
  destruct (Z.ltb_spec (zlen (bm_parms m)) 0); [lia|].
  destruct (Z.ltb_spec (zlen (bm_parms m)) (zlen (bm_codes m))); [lia|].
  replace ((1 <? zlen (bm_codes m)) && negb (zlen (bm_codes m) =? zlen (bm_parms m))) with false
    by (symmetry; apply andb_false_iff; rewrite Z.ltb_ge, negb_false_iff, Z.eqb_eq; lia).
  change (drop 2 (be16 ?x ++ ?y)) with y.
  replace (zlen (be16 (zlen (bm_parms m)) ++ _) <? 2) with false
    by (rewrite zlen_app; change (zlen (be16 (zlen (bm_parms m)))) with 2; symmetry; apply Z.ltb_ge; zlia).
  rewrite zlen_to_nat, parse_parms_encode by done. unfold parse_results.
  destruct (encode_codes_read (bm_result_codes m) [] Hr) as (E1 & E2 & E3 & E4).
  rewrite app_nil_r in *. rewrite E1, E3. destruct Hr as [Hrok Hrl].
  rewrite (proj2 (first_bad_None _) Hrok). rewrite zlen_nil in E2. zlen_pos.
  replace ((0 <? zlen (bm_result_codes m)) && _) with false
    by (symmetry; apply andb_false_iff; right; apply Z.ltb_ge; lia). zdec. by destruct m.
Qed.

(** *** Nothing else is accepted without a warning *)
Lemma be_shorts_shorts l n : length l = (2 * n)%nat → codes_ok (shorts l) → be_shorts (shorts l) = l.
Proof.
  revert l. induction n as [|n IH]; intros l Hl Hok.
  - destruct l; [done|]. cbn in Hl. lia.
  - destruct l as [|x [|y l]]; cbn in Hl; try lia. cbn [shorts be_shorts].
    apply Forall_cons_iff in Hok as [Hz Hok]. rewrite IH by (done || lia).
    assert (E : s16 (be [x; y]) = be [x; y])
      by (apply signed_nonneg; [apply be_range2|unfold s16 in Hz; lia]).
    by rewrite E, be16_be.
Qed.

Lemma short_at_inv r : 2 ≤ zlen r → 0 ≤ s16 (short_at r) → r = be16 (s16 (short_at r)) ++ drop 2 r.
Proof.
  intros Hr Hs. destruct r as [|x [|y r]]; [done|done|].
  change (short_at (x :: y :: r)) with (be [x; y]) in *.
  assert (E : s16 (be [x; y]) = be [x; y]) by (apply signed_nonneg; [apply be_range2|done]).
  by rewrite E, be16_be.
Qed.

Lemma codes_inv r cs :
  let num := s16 (short_at r) in
  0 ≤ num → 2 + 2 * num ≤ zlen r →
  cs = shorts (take (Z.to_nat (2 * num)) (drop 2 r)) → first_bad cs = None →
  wf_codes cs ∧ zlen cs = num ∧ r = encode_codes cs ++ drop (Z.to_nat (2 + 2 * num)) r.
Proof.
  intros num H0 Hr -> Hb. apply first_bad_None in Hb.
  destruct (take_codes r num) as (Hl & _ & Hz & Hsplit); [lia..|].
  pose proof (s16_range (short_at r)). split; [split; [done|rewrite Hz; lia]|].
  split; [done|]. unfold encode_codes. rewrite Hz, (be_shorts_shorts _ _ Hl Hb), <- app_assoc.
  rewrite (short_at_inv r) at 1 by lia. f_equal.
  replace (Z.to_nat (2 + 2 * num)) with (2 + Z.to_nat (2 * num))%nat by lia.
  by rewrite <- drop_drop, take_drop.
Qed.

Lemma parse_parms_inv n r ps r' :
  parse_parms n r = PParms ps r' →
  length ps = n ∧ Forall (λ p, zlen p < 2 ^ 31) ps ∧ r = encode_parms ps ++ r'.
Proof.
  revert r ps. induction n as [|n IH]; intros r ps; cbn [parse_parms].
  { intros [= <- <-]. by repeat split. }
  destruct r as [|x [|y [|z [|w r]]]]; try done.
  set (len := s32 (be [x; y; z; w])). destruct (Z.ltb_spec len 0); [done|].
  destruct (Z.ltb_spec (zlen r) len); [done|].
  destruct (parse_parms n _) as [| |ps' r''] eqn:E; try done. intros [= <- <-].
  apply IH in E as (<- & Hps & E).
  assert (Hlen : zlen (take (Z.to_nat len) r) = len) by (unfold zlen in *; rewrite length_take; lia).
  split; [done|]. split; [constructor; [|done]; rewrite Hlen; apply s32_range|].
  cbn [encode_parms]. rewrite Hlen.
  assert (Elen : len = be [x; y; z; w]) by (apply signed_nonneg; [apply be_range4|done]).
  rewrite Elen at 1. rewrite be32_be, <- !app_assoc, <- E, take_drop. done.
Qed.

Lemma parse_results_inv r cs :
  parse_results r = Accept (cs, true) → wf_codes cs ∧ r = encode_codes cs.
Proof.
  unfold parse_results. set (num := s16 (short_at r)). destruct (Z.ltb_spec num 0); [done|].
  destruct ((0 <? num) && _); [done|].
  destruct (first_bad _) as [?|] eqn:Eb; [done|]. intros [= <- Hz%Z.eqb_eq].
  destruct (codes_inv r _ ltac:(done) ltac:(lia) eq_refl Eb) as (Hwf & _ & E).
  split; [done|]. etransitivity; [exact E|].
  rewrite (drop_ge r (Z.to_nat (2 + 2 * _))) by (unfold zlen in Hz; lia). apply app_nil_r.
Qed.

Lemma parse_bind_inv p m : parse_bind p = BAccept m true → p = encode_bind m ∧ wf_bind m.
Proof.
  unfold parse_bind. destruct (split_nul p) as [[dest r1]|] eqn:E1; [|done].
  apply split_nul_Some in E1 as [-> Hd].
  destruct (split_nul r1) as [[source r]|] eqn:E2; [|done].
  apply split_nul_Some in E2 as [-> Hs].
  destruct (Z.ltb_spec (s16 (short_at r)) 0); [done|].
  destruct (Z.ltb_spec (zlen r) 2); [done|].
  destruct (Z.ltb_spec (zlen r) (2 + 2 * s16 (short_at r))); [done|].
  destruct (first_bad _) as [?|] eqn:Eb; [done|].
  set (cs := shorts _) in *.
  destruct (codes_inv r cs ltac:(done) ltac:(lia) eq_refl Eb) as (Hwf & Hz & E).
  set (r' := drop (Z.to_nat (2 + _)) r) in *. clearbody cs r'. subst r. unfold parse_bind_parms.
  set (np := s16 (short_at r')). destruct (Z.ltb_spec np 0); [done|].
  destruct (Z.ltb_spec np (zlen cs)); [done|].
  destruct ((1 <? zlen cs) && negb (zlen cs =? np)) eqn:Em; [done|].
  destruct (Z.ltb_spec (zlen r') 2); [done|].
  destruct (parse_parms _ _) as [| |ps r''] eqn:Ep; try done.
  apply parse_parms_inv in Ep as (Hlp & Hps & Ep).
  destruct (parse_results r'') as [[res ex]|] eqn:Er; [|done]. intros [= <- ->].
  apply parse_results_inv in Er as [Hres ->].
  assert (Hnp : zlen ps = np) by (unfold zlen; lia).
  pose proof (s16_range (short_at r')) as Hrange. fold np in Hrange.
  split.
  - unfold encode_bind; cbn [bm_dest bm_source bm_codes bm_parms bm_result_codes].
    rewrite Hnp, <- Ep. unfold np. by rewrite <- short_at_inv by done.
  - split; cbn [bm_dest bm_source bm_codes bm_parms bm_result_codes]; try done; try lia.
Qed.

(** ** What a client sends for a Parse *)
Record wf_parse (m : ParseMsg) : Prop := {
  wf_pm_dest : no_nul (pm_dest m);
  wf_pm_query : no_nul (pm_query m);
  wf_pm_num : zlen (pm_types m) < 2 ^ 15;
  wf_pm_types : Forall (λ z, 0 ≤ z < 2 ^ 32) (pm_types m);
}.

Lemma parse_parse_encode m : wf_parse m → parse_parse (encode_parse m) = Accept m.
Proof.
  intros [Hd Hq Hn Ht]. unfold parse_parse, encode_parse.
  rewrite split_nul_app by done. set (r := pm_query m ++ _).
  destruct r as [|r0 r1] eqn:Er; [by destruct (pm_query m)|]. rewrite <- Er. subst r.
  rewrite split_nul_app by done.
  destruct (be16 (zlen (pm_types m)) ++ be_words (pm_types m)) as [|x r] eqn:E; [done|].
  rewrite <- E. rewrite short_at_be16 by zlia.
  change (drop 2 (be16 ?z ++ ?l)) with l. rewrite words_be_words by done.
  rewrite zlen_app, zlen_be_words. change (zlen (be16 (zlen (pm_types m)))) with 2.
  zdec. by destruct m.
Qed.

Lemma parse_parse_inv p m : parse_parse p = Accept m → p = encode_parse m ∧ wf_parse m.
Proof.
  unfold parse_parse. destruct (split_nul p) as [[dest r1]|] eqn:E1; [|done].
  apply split_nul_Some in E1 as [-> Hd]. destruct r1 as [|x1 r1]; [done|].
  destruct (split_nul (x1 :: r1)) as [[query r]|] eqn:E2; [|done].
  apply split_nul_Some in E2 as [-> Hq]. destruct r as [|x r']; [done|].
  remember (x :: r') as r eqn:Hr. clear Hr x r'.
  set (num := s16 (short_at r)). destruct (Z.ltb_spec num 0); [done|].
  destruct (Z.ltb_spec (2 + 4 * num) (zlen r)); [done|].
  destruct (Z.ltb_spec (zlen r) (2 + 4 * num)); [done|]. intros [= <-].
  assert (Hl : length (drop 2 r) = (4 * Z.to_nat num)%nat)
    by (unfold zlen in *; rewrite length_drop; lia).
  assert (Hz : zlen (words (drop 2 r)) = num) by (unfold zlen; rewrite (length_words _ _ Hl); lia).
  pose proof (s16_range (short_at r)) as Hrange. fold num in Hrange. split.
  - unfold encode_parse; cbn [pm_dest pm_query pm_types].
    rewrite Hz, (be_words_words _ _ Hl). unfold num. by rewrite <- short_at_inv by (done || lia).
  - split; cbn [pm_dest pm_query pm_types]; try done; [lia|apply words_range].
Qed.
