(* ===== verification/Logging.v ===== *)
(** * The log, and what the client sees of it

    [errors.c]: [octo_log] writes an entry to the standard error stream and, while a client is
    served ([rocto_session.sending_message] is FALSE and the connection is open), sends it the
    entry as a NoticeResponse or an ErrorResponse.  Entries below [config->record_error_level]
    are dropped; after a FATAL one the process ends. *)
From stdpp Require Import strings.
From S2P Require Import Prelude CMem Errors FrontendSpec.

Inductive ERROR_LEVEL := TRACE | INFO | DEBUG | WARNING | ERROR_ | FATAL.
(** The value of the enumeration constant. *)
Definition level_value (l : ERROR_LEVEL) : Z :=
  match l with TRACE => 0 | INFO => 1 | DEBUG => 2 | WARNING => 3 | ERROR_ => 4 | FATAL => 5 end.
#[export] Instance ERROR_LEVEL_eq_dec : EqDecision ERROR_LEVEL.
Proof. solve_decision. Defined.
(** [err_level] *)
Definition psql_level (l : ERROR_LEVEL) : PSQL_ErrorSeverity :=
  match l with
  | TRACE => PSQL_Error_INFO
  | INFO => PSQL_Error_INFO
  | DEBUG => PSQL_Error_DEBUG
  | WARNING => PSQL_Error_WARNING
  | ERROR_ => PSQL_Error_ERROR
  | FATAL => PSQL_Error_FATAL
  end.

(** The arguments of a call. *)
Record log_entry := { log_level : ERROR_LEVEL; log_error : ERROR; log_args : list printf_arg }.
(** [vsnprintf(buffer, MAX_STR_CONST, ...)]: the first argument of a CUSTOM_ERROR is its format. *)
Definition log_text (l : log_entry) : list byte :=
  take (Z.to_nat (MAX_STR_CONST - 1))
    (match log_error l, log_args l with
     | CUSTOM_ERROR, AStr format :: args => vprintf (cstr format) args
     | e, args => vprintf (err_format_str e) args
     end).

(** The messages an entry makes the server send. *)
Definition octo_log (record_error_level : ERROR_LEVEL) (l : log_entry) : outcome (list (list byte)) :=
  if level_value (log_level l) <? level_value record_error_level then Ret []
  else
    err ← make_error_response (psql_level (log_level l)) (err_code_map (log_error l)) (log_text l) [];
    if decide (log_level l = FATAL) then Halt FatalExit else Ret [error_wire err].
(** Several entries, one after the other. *)
Fixpoint octo_logs (record_error_level : ERROR_LEVEL) (ls : list log_entry) : outcome (list (list byte)) :=
  match ls with
  | [] => Ret []
  | l :: ls' => m ← octo_log record_error_level l; ms ← octo_logs record_error_level ls'; Ret (m ++ ms)
  end.

(** ** What is sent *)
(** The message of an entry: its severity, the SQLSTATE of the error and the text. *)
Definition log_frame (l : log_entry) : list byte :=
  frame (error_response_type (psql_level (log_level l)))
    (error_payload (error_fields (psql_level (log_level l)) (err_code_map (log_error l)) (log_text l) [])) [].
Definition recorded (record_error_level : ERROR_LEVEL) (l : log_entry) : Prop :=
  level_value record_error_level ≤ level_value (log_level l).
#[export] Instance recorded_dec r l : Decision (recorded r l).
Proof. unfold recorded. apply _. Defined.
Definition log_frames (record_error_level : ERROR_LEVEL) (ls : list log_entry) : list (list byte) :=
  log_frame <$> filter (recorded record_error_level) ls.
Definition not_fatal (l : log_entry) : Prop := log_level l ≠ FATAL.

Lemma log_text_small l : zlen (log_text l) < MAX_STR_CONST.
Proof. unfold log_text, zlen. rewrite length_take. change MAX_STR_CONST with 32768. lia. Qed.
Lemma log_payload_small l : zlen (error_payload (error_fields (psql_level (log_level l)) (err_code_map (log_error l)) (log_text l) [])) + 4 < 2 ^ 32.
Proof.
  pose proof (log_text_small l). pose proof (zlen_cstr_le (log_text l)). unfold error_payload, error_fields. rewrite zlen_app, !zlen_fields_cons. cbn [snd fmap list_fmap].
  change MAX_STR_CONST with 32768 in *. change (zlen (fields_wire [])) with 0. change (zlen [nul]) with 1.
  assert (zlen (psql_error_severity_str (psql_level (log_level l))) ≤ 7) by (destruct (log_level l); vm_compute; discriminate).
  assert (zlen (psql_sqlstate_codes_str (err_code_map (log_error l))) = 5) by (by destruct (log_error l)). lia.
Qed.
(** Whatever the entry, its message is built without an error and has this form. *)
Lemma octo_log_spec record l : not_fatal l → octo_log record l = Ret (log_frames record [l]).
Proof.
  intros Hf. unfold octo_log, log_frames, recorded. rewrite filter_cons, filter_nil. unfold recorded.
  destruct (Z.ltb_spec (level_value (log_level l)) (level_value record)); [by rewrite decide_False by lia|]. rewrite decide_True by lia.
  destruct (make_error_response_wire _ _ _ _ (log_payload_small l)) as (e & E & W). rewrite E. cbn [mbind outcome_bind].
  rewrite decide_False by done. rewrite W. unfold log_frame, frame, header. cbn [fmap list_fmap]. by rewrite app_nil_r.
Qed.
Lemma log_frames_cons record l ls : log_frames record (l :: ls) = log_frames record [l] ++ log_frames record ls.
Proof. unfold log_frames. by rewrite <- fmap_app, <- list.filter_app. Qed.
Lemma octo_logs_spec record ls : Forall not_fatal ls → octo_logs record ls = Ret (log_frames record ls).
Proof.
  induction 1 as [|l ls Hl HF IH]; [done|]. cbn [octo_logs]. rewrite octo_log_spec, IH by done. cbn [mbind outcome_bind].
  by rewrite (log_frames_cons _ l ls).
Qed.
Lemma log_frames_app record ls ls' : log_frames record (ls ++ ls') = log_frames record ls ++ log_frames record ls'.
Proof. unfold log_frames. by rewrite list.filter_app, fmap_app. Qed.

(** A message of the log: a NoticeResponse or an ErrorResponse. *)
Definition log_message (w : list byte) : Prop := head w = Some PSQL_NoticeResponse ∨ head w = Some PSQL_ErrorResponse.
Lemma error_wire_head severity code text args e : make_error_response severity code text args = Ret e →
  head (error_wire e) = Some (error_response_type severity).
Proof.
  unfold make_error_response. intros E. repeat (apply bind_ret_inv in E as (? & _ & E); case_match).
  apply bind_ret_inv in E as (? & _ & E). by injection E as <-.
Qed.
Lemma octo_logs_messages record ls : ∀ ms, octo_logs record ls = Ret ms → Forall log_message ms.
Proof.
  induction ls as [|l ls IH]; intros ms E; cbn [octo_logs] in E; [injection E as <-; constructor|].
  apply bind_ret_inv in E as (m & E1 & E). apply bind_ret_inv in E as (ms' & E2 & [= <-]). apply Forall_app. split; [|by apply IH].
  unfold octo_log in E1. case_match; [injection E1 as <-; constructor|]. apply bind_ret_inv in E1 as (err & Ee & E1). case_decide; [done|].
  injection E1 as <-. constructor; [|constructor]. unfold log_message. rewrite (error_wire_head _ _ _ _ _ Ee). destruct (log_level l); auto.
Qed.
