(* ===== verification/FrontendTheorems.v ===== *)
(** * The client-message readers are correct

    The theorems about [Frontend]: each reader refines its list parser, accepts
    exactly the encodings of well-formed messages, never leaves the block it
    copied, and rejects a message of another type; and the one way a Bind can
    send the reader out of its block. *)
From stdpp Require Import strings.
From S2P Require Import Prelude CMem Errors Frontend FrontendSpec.

(** A reader that returned: a struct, or NULL with an error response. *)
Definition answered {A} (o : outcome (reader_result A)) : Prop :=
  ∃ r err, o = Ret (r, err) ∧ (r = None → err ≠ None).

Lemma reject_answered {A} severity code e args : answered (@reject A severity code e args).
Proof.
  destruct (@reject_returns A severity code e args) as [er ->].
  by exists None, (Some er).
Qed.

(** A refinement to a verdict gives an answer. *)
Definition verdict_answer {A M} (o : outcome (reader_result A)) (view : A → M)
    (severity : PSQL_ErrorSeverity) (code : PSQL_SQLSTATECode) (v : verdict M) : Prop :=
  match v with
  | Accept m => ∃ x, o = Ret (Some x, None) ∧ view x = m
  | Refuse e args => o = reject severity code e args
  end.

Lemma verdict_answered {A M} (o : outcome (reader_result A)) (view : A → M) sev code v :
  verdict_answer o view sev code v → answered o.
Proof.
  destruct v as [m|e args]; cbn.
  - intros (x & -> & _). by exists (Some x), None.
  - intros ->. apply reject_answered.
Qed.

(** What a verdict answer says when the reader gave a struct. *)
Lemma verdict_accept {A M} (o : outcome (reader_result A)) (view : A → M) sev code v x :
  verdict_answer o view sev code v → o = Ret (Some x, None) → v = Accept (view x).
Proof.
  destruct v as [m|e args]; cbn.
  - intros (y & -> & <-) [= ->]. done.
  - intros ->. destruct (@reject_returns A sev code e args) as [er ->]. done.
Qed.

Lemma bind_accept payload rest bd :
  small payload → parse_bind payload ≠ BNegative →
  read_bind (frame PSQL_Bind payload rest) = Ret (Some bd, None) →
  parse_bind payload = BAccept (view_bind bd) true.
Proof.
  intros Hs Hn E. pose proof (read_bind_spec payload rest Hs) as H.
  destruct (parse_bind payload) as [m ex|e args|]; cbn [bind_answer] in H; [| |done].
  - destruct H as (bd' & err & E' & <- & _ & Hw). rewrite E in E'. injection E' as <- <-.
    destruct ex; [done|]. by destruct Hw as (w & [=] & _).
  - rewrite E in H. unfold protocol_error in H.
    destruct (@reject_returns Bind PSQL_Error_ERROR PSQL_Code_Protocol_Violation e args) as [er Er].
    rewrite Er in H. done.
Qed.

(** C19: For every Bind payload that no parameter length makes negative, [read_bind]
    computes exactly the list parser [parse_bind]: the same rejection with the
    same text, or a struct whose destination, source, format codes, parameter
    values and result codes are the parsed ones and lie inside its block, with a
    warning left in [*err] precisely when bytes are missing or left over at the end. *)
Theorem read_bind_refines payload rest :
  small payload →
  bind_answer (read_bind (frame PSQL_Bind payload rest)) (parse_bind payload).
Proof. apply read_bind_spec. Qed.

Definition sample_bind : BindMsg :=
  {| bm_dest := lit "p"; bm_source := lit "stmt"; bm_codes := [0; 1];
     bm_parms := [lit "42"; [x00; x07]]; bm_result_codes := [1] |}.
Lemma wf_sample_bind : wf_bind sample_bind.
Proof. split; unfold wf_codes, codes_ok; eval_decide. Defined.

Lemma read_bind_refines_witness :
  ∃ bd err, read_bind (frame PSQL_Bind (encode_bind sample_bind) []) = Ret (Some bd, err) ∧
    view_bind bd = sample_bind ∧ bind_ok bd ∧ trailing_warning true err.
Proof. exact (read_bind_refines (encode_bind sample_bind) [] eq_refl). Defined.

(** [read_bind] accepts exactly the encodings of well-formed Bind messages: a
    client's message comes back field for field with no warning, and a payload it
    takes without warning is the encoding of what it returns. *)
Theorem read_bind_accepts_iff payload rest m :
  small payload → parse_bind payload ≠ BNegative →
  (∃ bd, read_bind (frame PSQL_Bind payload rest) = Ret (Some bd, None) ∧ view_bind bd = m) ↔
  payload = encode_bind m ∧ wf_bind m.
Proof.
  intros Hs Hn. split.
  - intros (bd & E & <-). by apply parse_bind_inv, (bind_accept payload rest).
  - intros [-> Hwf]. pose proof (read_bind_spec (encode_bind m) rest Hs) as H.
    rewrite parse_bind_encode in H by done.
    destruct H as (bd & err & E & Hv & _ & Hw). cbn in Hw. subst err. eauto.
Qed.

Lemma read_bind_accepts_iff_witness :
  ∃ bd, read_bind (frame PSQL_Bind (encode_bind sample_bind) []) = Ret (Some bd, None) ∧
        view_bind bd = sample_bind.
Proof.
  apply (read_bind_accepts_iff (encode_bind sample_bind) [] sample_bind);
    [done|by vm_compute|exact (conj eq_refl wf_sample_bind)].
Defined.

(** A parameter length below zero is not rejected: it moves the read pointer
    backwards.  The protocol's NULL parameter (length -1, here in an otherwise
    well-formed message) is refused with a complaint about the result column
    codes, and a larger negative length makes [read_bind] read outside the block. *)
Theorem read_bind_negative_length :
  let with_length n := [nul; nul] ++ be16 0 ++ be16 1 ++ be32 n ++ be16 0 in
  read_bind (frame PSQL_Bind (with_length (-1)) []) =
    protocol_error ERR_ROCTO_INVALID_NUMBER [str "Bind"; str "result column format codes"] ∧
  read_bind (frame PSQL_Bind (with_length (-100)) []) = Undef OutOfBounds.
Proof. split; vm_compute; reflexivity. Qed.

(** [read_parse] computes the list parser [parse_parse] on every payload. *)
Theorem read_parse_correct payload rest :
  small payload →
  verdict_answer (read_parse (frame PSQL_Parse payload rest)) view_parse
    PSQL_Error_ERROR PSQL_Code_Protocol_Violation (parse_parse payload).
Proof. apply read_parse_refines. Qed.

Definition sample_parse : ParseMsg :=
  {| pm_dest := lit "s1"; pm_query := lit "SELECT 1"; pm_types := [23; 4294967295] |}.
Lemma wf_sample_parse : wf_parse sample_parse.
Proof. split; eval_decide. Defined.

Lemma read_parse_correct_witness :
  verdict_answer (read_parse (frame PSQL_Parse (encode_parse sample_parse) [])) view_parse
    PSQL_Error_ERROR PSQL_Code_Protocol_Violation (parse_parse (encode_parse sample_parse)).
Proof. exact (read_parse_correct (encode_parse sample_parse) [] eq_refl). Defined.

(** [read_parse] accepts exactly the encodings of well-formed Parse messages. *)
Theorem read_parse_accepts_iff payload rest m :
  small payload →
  (∃ p, read_parse (frame PSQL_Parse payload rest) = Ret (Some p, None) ∧ view_parse p = m) ↔
  payload = encode_parse m ∧ wf_parse m.
Proof.
  intros Hs. pose proof (read_parse_refines payload rest Hs) as H. split.
  - intros (p & E & <-). by apply parse_parse_inv, (verdict_accept _ _ _ _ _ _ H E).
  - intros [-> Hwf]. by rewrite parse_parse_encode in H by done.
Qed.

Lemma read_parse_accepts_iff_witness :
  ∃ p, read_parse (frame PSQL_Parse (encode_parse sample_parse) []) = Ret (Some p, None) ∧
       view_parse p = sample_parse.
Proof.
  apply (read_parse_accepts_iff (encode_parse sample_parse) [] sample_parse eq_refl).
  exact (conj eq_refl wf_sample_parse).
Defined.

(** [read_execute] accepts exactly a portal name, its terminator and a four-byte
    row count, and returns them; every other payload is refused as [parse_execute]
    says. *)
Theorem read_execute_correct payload rest :
  small payload →
  verdict_answer (read_execute (frame PSQL_Execute payload rest)) view_execute
    PSQL_Error_ERROR PSQL_Code_Protocol_Violation (parse_execute payload) ∧
  ∀ m, parse_execute payload = Accept m ↔
       payload = encode_execute m ∧ no_nul m.1 ∧ 0 ≤ m.2 < 2 ^ 32.
Proof.
  intros Hs. split; [by apply read_execute_refines|]. intros m. split.
  - intros E. pose proof (parse_execute_Accept _ _ E) as Hp. split; [done|].
    subst payload. destruct m as [s n]. unfold parse_execute in E.
    destruct (split_nul _) as [[s' r]|] eqn:Es; [|done].
    apply split_nul_Some in Es as [_ Hn].
    destruct r as [|a [|b [|c [|d [|? r]]]]]; try done. injection E as -> <-.
    split; [done|apply be_range4].
  - intros (-> & Hn & Hr). by apply parse_execute_encode.
Qed.

Lemma read_execute_correct_witness :
  verdict_answer (read_execute (frame PSQL_Execute (encode_execute (lit "portal", 5)) [])) view_execute
    PSQL_Error_ERROR PSQL_Code_Protocol_Violation (Accept (lit "portal", 5)).
Proof. exact (proj1 (read_execute_correct (encode_execute (lit "portal", 5)) [] eq_refl)). Defined.

(** [read_describe] and, for a payload that is not empty, [read_close] take an
    item letter ('S' or 'P') and one name that ends the message, and answer every
    other payload with the notice [parse_target] names. *)
Theorem read_target_correct payload rest :
  small payload → payload ≠ [] →
  verdict_answer (read_describe (frame PSQL_Describe payload rest)) view_describe
    PSQL_Error_WARNING PSQL_Code_Protocol_Violation (parse_target "Describe" "name" payload) ∧
  verdict_answer (read_close (frame PSQL_Close payload rest)) view_close
    PSQL_Error_WARNING PSQL_Code_Protocol_Violation (parse_target "Close" "data" payload).
Proof.
  intros Hs Hne. split; [by apply read_describe_refines|by apply read_close_refines].
Qed.

Lemma read_target_correct_witness :
  verdict_answer (read_describe (frame PSQL_Describe (lit "Sname" ++ [nul]) [])) view_describe
    PSQL_Error_WARNING PSQL_Code_Protocol_Violation (Accept (chr "S", lit "name")) ∧
  verdict_answer (read_close (frame PSQL_Close (lit "Sname" ++ [nul]) [])) view_close
    PSQL_Error_WARNING PSQL_Code_Protocol_Violation (Accept (chr "S", lit "name")).
Proof. exact (read_target_correct (lit "Sname" ++ [nul]) [] eq_refl ltac:(discriminate)). Defined.

(** [read_query] and [read_password_message] return the text when the payload
    is one terminated string, and the syntax error [parse_text] names otherwise. *)
Theorem read_text_correct payload rest :
  small payload →
  verdict_answer (read_query (frame PSQL_Query payload rest)) view_query
    PSQL_Error_ERROR PSQL_Code_Syntax_Error (parse_text "Query" "query" payload) ∧
  verdict_answer (read_password_message (frame PSQL_PasswordMessage payload rest)) view_password
    PSQL_Error_ERROR PSQL_Code_Syntax_Error (parse_text "PasswordMessage" "password" payload).
Proof.
  intros Hs. split; [by apply read_query_refines|by apply read_password_message_refines].
Qed.

Lemma read_text_correct_witness :
  verdict_answer (read_query (frame PSQL_Query (lit "SELECT 1;" ++ [nul]) [])) view_query
    PSQL_Error_ERROR PSQL_Code_Syntax_Error (Accept (lit "SELECT 1;")) ∧
  verdict_answer (read_password_message (frame PSQL_PasswordMessage (lit "SELECT 1;" ++ [nul]) []))
    view_password PSQL_Error_ERROR PSQL_Code_Syntax_Error (Accept (lit "SELECT 1;")).
Proof. exact (read_text_correct (lit "SELECT 1;" ++ [nul]) [] eq_refl). Defined.

(** ** A message of another type *)
Ltac wrong_type :=
  intros Hs Ht;
  first [ prologue
        | rewrite message_length_frame, load8_frame by done; cbn [mbind outcome_bind];
          rewrite Z.add_simpl_r, load_data_frame; cbn [mbind outcome_bind] ];
  by rewrite decide_True.

Section wrong_type.
Context (t : byte) (payload rest : list byte).

Lemma bind_wrong_type : small payload → t ≠ PSQL_Bind → read_bind (frame t payload rest) =
  protocol_error ERR_ROCTO_INVALID_TYPE [str "Bind"; AChr t; AChr PSQL_Bind].
Proof. unfold read_bind. wrong_type. Qed.
Lemma parse_wrong_type : small payload → t ≠ PSQL_Parse → read_parse (frame t payload rest) =
  protocol_error ERR_ROCTO_INVALID_TYPE [str "Parse"; AChr t; AChr PSQL_Parse].
Proof. unfold read_parse. wrong_type. Qed.
Lemma execute_wrong_type : small payload → t ≠ PSQL_Execute → read_execute (frame t payload rest) =
  protocol_error ERR_ROCTO_INVALID_TYPE [str "Execute"; AChr t; AChr PSQL_Execute].
Proof. unfold read_execute. wrong_type. Qed.
Lemma describe_wrong_type : small payload → t ≠ PSQL_Describe → read_describe (frame t payload rest) =
  protocol_warning ERR_ROCTO_INVALID_TYPE [str "Describe"; AChr t; AChr PSQL_Describe].
Proof. unfold read_describe. wrong_type. Qed.
Lemma close_wrong_type : small payload → t ≠ PSQL_Close → read_close (frame t payload rest) =
  protocol_warning ERR_ROCTO_INVALID_TYPE [str "Close"; AChr t; AChr PSQL_Close].
Proof. unfold read_close. wrong_type. Qed.
Lemma query_wrong_type : small payload → t ≠ PSQL_Query → read_query (frame t payload rest) =
  syntax_error ERR_ROCTO_INVALID_TYPE [str "Query"; AChr t; AChr PSQL_Query].
Proof. unfold read_query. wrong_type. Qed.
Lemma password_message_wrong_type : small payload → t ≠ PSQL_PasswordMessage → read_password_message (frame t payload rest) =
  syntax_error ERR_ROCTO_INVALID_TYPE [str "PasswordMessage"; AChr t; AChr PSQL_PasswordMessage].
Proof. unfold read_password_message. wrong_type. Qed.
End wrong_type.

(** Every reader refuses a well-framed message of another type, whatever its
    payload, naming the type it got and the one it wants. *)
Theorem readers_check_type t payload rest :
  small payload →
  (t ≠ PSQL_Bind → read_bind (frame t payload rest) =
     protocol_error ERR_ROCTO_INVALID_TYPE [str "Bind"; AChr t; AChr PSQL_Bind]) ∧
  (t ≠ PSQL_Parse → read_parse (frame t payload rest) =
     protocol_error ERR_ROCTO_INVALID_TYPE [str "Parse"; AChr t; AChr PSQL_Parse]) ∧
  (t ≠ PSQL_Execute → read_execute (frame t payload rest) =
     protocol_error ERR_ROCTO_INVALID_TYPE [str "Execute"; AChr t; AChr PSQL_Execute]) ∧
  (t ≠ PSQL_Describe → read_describe (frame t payload rest) =
     protocol_warning ERR_ROCTO_INVALID_TYPE [str "Describe"; AChr t; AChr PSQL_Describe]) ∧
  (t ≠ PSQL_Close → read_close (frame t payload rest) =
     protocol_warning ERR_ROCTO_INVALID_TYPE [str "Close"; AChr t; AChr PSQL_Close]) ∧
  (t ≠ PSQL_Query → read_query (frame t payload rest) =
     syntax_error ERR_ROCTO_INVALID_TYPE [str "Query"; AChr t; AChr PSQL_Query]) ∧
  (t ≠ PSQL_PasswordMessage → read_password_message (frame t payload rest) =
     syntax_error ERR_ROCTO_INVALID_TYPE
       [str "PasswordMessage"; AChr t; AChr PSQL_PasswordMessage]) ∧
  (t ≠ PSQL_Sync → read_sync (frame t payload rest) =
     protocol_warning ERR_ROCTO_INVALID_TYPE [str "Sync"; AChr t; AChr PSQL_Sync]).
Proof.
  intros Hs. split_and!; intros Ht;
    [by apply bind_wrong_type|by apply parse_wrong_type|by apply execute_wrong_type
    |by apply describe_wrong_type|by apply close_wrong_type|by apply query_wrong_type
    |by apply password_message_wrong_type|].
  unfold read_sync, read_bare. rewrite load8_frame; cbn [mbind outcome_bind]. by rewrite decide_True.
Qed.

Lemma readers_check_type_witness :
  read_bind (frame PSQL_Sync [] []) =
    protocol_error ERR_ROCTO_INVALID_TYPE [str "Bind"; AChr PSQL_Sync; AChr PSQL_Bind].
Proof. apply (readers_check_type PSQL_Sync [] [] eq_refl). discriminate. Defined.

Lemma read_bare_answered name expected t payload rest : answered (read_bare name expected (frame t payload rest)).
Proof.
  unfold read_bare. rewrite load8_frame. cbn [mbind outcome_bind]. case_decide; [apply reject_answered|].
  by eexists (Some _), None.
Qed.
Lemma read_ssl_request_answered data : 8 ≤ zlen data → answered (read_ssl_request data).
Proof.
  intros Hd. unfold read_ssl_request.
  rewrite (load_bytes_app_eq data 0 8 [] (take 8 data) (drop 8 data)); [|by rewrite take_drop|done|unfold zlen in *; rewrite length_take; lia].
  cbn [mbind outcome_bind]. assert (L : length (take 8 data) = 8%nat) by (rewrite length_take; unfold zlen in Hd; lia).
  destruct (take 8 data) as [|a [|b [|c [|d [|e [|f [|g [|h []]]]]]]]]; try done.
  assert (R : ∀ n, n ∈ [0; 4] → ∃ x, load_be32 [a; b; c; d; e; f; g; h] n = Ret x).
  { intros n Hn. apply list_elem_of_In in Hn. cbn in Hn. by destruct Hn as [<-|[<-|[]]]; eexists. }
  destruct (R 0 ltac:(eval_decide)) as [x ->], (R 4 ltac:(eval_decide)) as [y ->]. cbn [mbind outcome_bind].
  destruct (negb (x =? 8)); [apply reject_answered|]. destruct (negb (80877103 =? s32 y)); [apply reject_answered|].
  by eexists (Some _), None.
Qed.

(** C35: No well-framed message makes a reader leave its block, abort or run forever: each of
    the readers of Bind (for a payload without a negative parameter length), Parse,
    Execute, Describe, Close (for a payload that is not empty), Query, Password, Flush, Sync
    and Terminate messages, and that of an SSLRequest of eight bytes, answers with a struct or
    with an error response. *)
Theorem readers_answer t payload rest data :
  small payload →
  (parse_bind payload ≠ BNegative → answered (read_bind (frame t payload rest))) ∧ answered (read_parse (frame t payload rest)) ∧
  answered (read_execute (frame t payload rest)) ∧ answered (read_describe (frame t payload rest)) ∧
  (payload ≠ [] → answered (read_close (frame t payload rest))) ∧ answered (read_query (frame t payload rest)) ∧
  answered (read_password_message (frame t payload rest)) ∧ answered (read_flush (frame t payload rest)) ∧
  answered (read_sync (frame t payload rest)) ∧ answered (read_terminate (frame t payload rest)) ∧
  (8 ≤ zlen data → answered (read_ssl_request data)).
Proof.
  intros Hs. split_and!; [intros Hneg| | | |intros Hne| | |by apply read_bare_answered..|apply read_ssl_request_answered].
  - destruct (decide (t = PSQL_Bind)) as [->|Ht];
      [|rewrite bind_wrong_type by done; apply reject_answered].
    pose proof (read_bind_spec payload rest Hs) as H.
    destruct (parse_bind payload) as [m ex|e args|]; cbn [bind_answer] in H; [| |done].
    + destruct H as (bd & err & -> & _). by exists (Some bd), err.
    + rewrite H. apply reject_answered.
  - destruct (decide (t = PSQL_Parse)) as [->|Ht].
    + exact (verdict_answered _ view_parse _ _ _ (read_parse_refines payload rest Hs)).
    + rewrite parse_wrong_type by done. apply reject_answered.
  - destruct (decide (t = PSQL_Execute)) as [->|Ht].
    + exact (verdict_answered _ view_execute _ _ _ (read_execute_refines payload rest Hs)).
    + rewrite execute_wrong_type by done. apply reject_answered.
  - destruct (decide (t = PSQL_Describe)) as [->|Ht].
    + exact (verdict_answered _ view_describe _ _ _ (read_describe_refines payload rest Hs)).
    + rewrite describe_wrong_type by done. apply reject_answered.
  - destruct (decide (t = PSQL_Close)) as [->|Ht].
    + exact (verdict_answered _ view_close _ _ _ (read_close_refines payload rest Hs Hne)).
    + rewrite close_wrong_type by done. apply reject_answered.
  - destruct (decide (t = PSQL_Query)) as [->|Ht].
    + exact (verdict_answered _ view_query _ _ _ (read_query_refines payload rest Hs)).
    + rewrite query_wrong_type by done. apply reject_answered.
  - destruct (decide (t = PSQL_PasswordMessage)) as [->|Ht].
    + exact (verdict_answered _ view_password _ _ _ (read_password_message_refines payload rest Hs)).
    + rewrite password_message_wrong_type by done. apply reject_answered.
Qed.

Lemma readers_answer_witness :
  answered (read_bind (frame PSQL_Bind (lit "garbage") [])).
Proof. apply (readers_answer PSQL_Bind (lit "garbage") [] []); [done|by vm_compute]. Defined.
