(* ===== verification/Backend.v ===== *)
(** * The messages rocto sends, and the client side that reads them

    [rocto/make_*.c] and the readers of backend messages, [rocto/read_*.c]:
    DataRow, RowDescription, CommandComplete, ParameterStatus, ReadyForQuery,
    the authentication requests and the messages that are only a header.

    A message struct is packed; [msg_data] is everything it holds after its length
    field, [msg_length] the length field as stored, in network order.
    [send_message] transmits [1 + ntohl(length)] bytes from [type] on: [wire]. *)
From stdpp Require Import strings.
From S2P Require Import Prelude CMem Errors.

Definition PSQL_AuthenticationOk : byte := chr "R".
Definition PSQL_AuthenticationMD5Password : byte := chr "R".
Definition PSQL_BindComplete : byte := chr "2".
Definition PSQL_CloseComplete : byte := chr "3".
Definition PSQL_CommandComplete : byte := chr "C".
Definition PSQL_DataRow : byte := chr "D".
Definition PSQL_EmptyQueryResponse : byte := chr "I".
Definition PSQL_NoData : byte := chr "n".
Definition PSQL_ReadyForQuery : byte := chr "Z".
Definition PSQL_RowDescription : byte := chr "T".
Definition PSQL_ParameterStatus : byte := chr "S".
Definition PSQL_ParseComplete : byte := chr "1".
Definition PSQL_PortalSuspended : byte := chr "s".
Definition PSQL_ParameterDescription : byte := chr "t".

Record Message := { msg_type : byte; msg_length : Z; msg_data : list byte }.
Definition object (m : Message) : list byte := msg_type m :: le32 (msg_length m) ++ msg_data m.
Definition wire (m : Message) : outcome (list byte) :=
  load_bytes (object m) 0 (ntohl (msg_length m) + 1).

(** ** Messages of fixed size *)
Definition make_authentication_ok : Message :=
  {| msg_type := PSQL_AuthenticationOk; msg_length := htonl 8; msg_data := le32 (htonl 0) |}.
(** [salt] is what the [getrandom] system call put in the caller's buffer. *)
Definition make_authentication_md5_password (salt : list byte) : outcome Message :=
  s ← load_bytes salt 0 4;
  Ret {| msg_type := PSQL_AuthenticationMD5Password; msg_length := htonl (4 + 4 + 1 * 4);
         msg_data := le32 (htonl 5) ++ s |}.
Definition make_bind_complete : Message :=
  {| msg_type := PSQL_BindComplete; msg_length := htonl 4; msg_data := [] |}.
Definition make_close_complete : Message :=
  {| msg_type := PSQL_CloseComplete; msg_length := htonl 4; msg_data := [] |}.
Definition make_empty_query_response : Message :=
  {| msg_type := PSQL_EmptyQueryResponse; msg_length := htonl 4; msg_data := [] |}.
Definition make_no_data : Message :=
  {| msg_type := PSQL_NoData; msg_length := htonl 4; msg_data := [] |}.
Definition make_parse_complete : Message :=
  {| msg_type := PSQL_ParseComplete; msg_length := htonl 4; msg_data := [] |}.
Definition make_portal_suspended : Message :=
  {| msg_type := PSQL_PortalSuspended; msg_length := htonl 4; msg_data := [] |}.
Definition make_parameter_description : Message :=
  {| msg_type := PSQL_ParameterDescription; msg_length := htonl (4 + 2); msg_data := le16 0 |}.

Inductive PSQL_TransactionStatus :=
  | PSQL_TransactionStatus_IDLE
  | PSQL_TransactionStatus_TRANSACTION
  | PSQL_TransactionStatus_FAILED.
Definition status_char (s : PSQL_TransactionStatus) : byte :=
  match s with
  | PSQL_TransactionStatus_IDLE => chr "I"
  | PSQL_TransactionStatus_TRANSACTION => chr "T"
  | PSQL_TransactionStatus_FAILED => chr "E"
  end.
Definition make_ready_for_query (status : PSQL_TransactionStatus) : Message :=
  {| msg_type := PSQL_ReadyForQuery; msg_length := htonl (4 + 1); msg_data := [status_char status] |}.

(** ** CommandComplete and ParameterStatus *)
Definition make_command_complete (command_tag : option (list byte)) : outcome Message :=
  let tag := cstr (default [] command_tag) in
  let command_tag_length := s32 (zlen tag + 1) in
  let length := s32 (4 + command_tag_length) in
  let data := replicate (Z.to_nat (length - 4)) nul in
  src ← load_bytes (tag ++ [nul]) 0 command_tag_length;
  data ← store_bytes data 0 src;
  Ret {| msg_type := PSQL_CommandComplete; msg_length := htonl length; msg_data := data |}.

Definition make_parameter_status (mem : nat → byte) (parm : option (list byte * list byte))
    : outcome (option Message) :=
  match parm with
  | None => Ret None
  | Some (name, value) =>
      let name := cstr name in
      let value := cstr value in
      let length := u32 (u32 (4 + (zlen name + 1)) + (zlen value + 1)) in
      let data := malloc mem (length - 4) in
      st ← put (data, 0) name;
      st ← put st [nul];
      st ← put st value;
      st ← put st [nul];
      Ret (Some {| msg_type := PSQL_ParameterStatus; msg_length := htonl length; msg_data := st.1 |})
  end.

(** ** DataRow *)
Record DataRowParm := { drp_length : Z; drp_value : list byte }.

Fixpoint data_row_length (n : nat) (parms : list DataRowParm) (acc : Z) : outcome Z :=
  match n, parms with
  | O, _ => Ret acc
  | S n', p :: parms' => data_row_length n' parms' (u32 (u32 (acc + drp_length p) + 4))
  | S _, [] => Undef OutOfBounds
  end.
Fixpoint put_data_row (n : nat) (parms : list DataRowParm) (st : list byte * Z)
    : outcome (list byte * Z) :=
  match n, parms with
  | O, _ => Ret st
  | S n', p :: parms' =>
      st ← put st (le32 (htonl (drp_length p)));
      v ← load_bytes (drp_value p) 0 (drp_length p);
      st ← put st v;
      put_data_row n' parms' st
  | S _, [] => Undef OutOfBounds
  end.
Definition make_data_row (mem : nat → byte) (parms : list DataRowParm) (num_parms : Z)
    : outcome Message :=
  length ← data_row_length (Z.to_nat num_parms) parms 0;
  let data := malloc mem length in
  let length := u32 (u32 (length + 4) + 2) in
  st ← put_data_row (Z.to_nat num_parms) parms (data, 0);
  Ret {| msg_type := PSQL_DataRow; msg_length := htonl length;
         msg_data := le16 (htons num_parms) ++ st.1 |}.

(** ** RowDescription *)
Record RowDescriptionParm := {
  rd_name : list byte;
  rd_table_id : Z;
  rd_column_id : Z;
  rd_data_type : Z;
  rd_data_type_size : Z;
  rd_type_modifier : Z;
  rd_format_code : Z;
}.

Fixpoint row_description_length (n : nat) (parms : list RowDescriptionParm) (acc : Z)
    : outcome Z :=
  match n, parms with
  | O, _ => Ret acc
  | S n', p :: parms' =>
      row_description_length n' parms' (u32 (u32 (acc + (zlen (cstr (rd_name p)) + 1)) + 18))
  | S _, [] => Undef OutOfBounds
  end.
Fixpoint put_row_description (n : nat) (parms : list RowDescriptionParm) (st : list byte * Z)
    : outcome (list byte * Z) :=
  match n, parms with
  | O, _ => Ret st
  | S n', p :: parms' =>
      st ← put st (cstr (rd_name p));
      st ← put st [nul];
      st ← put st (le32 (htonl (rd_table_id p)));
      st ← put st (le16 (htons (rd_column_id p)));
      st ← put st (le32 (htonl (rd_data_type p)));
      st ← put st (le16 (htons (rd_data_type_size p)));
      st ← put st (le32 (htonl (rd_type_modifier p)));
      st ← put st (le16 (htons (rd_format_code p)));
      put_row_description n' parms' st
  | S _, [] => Undef OutOfBounds
  end.
Definition make_row_description (parms : list RowDescriptionParm) (num_parms : Z)
    : outcome Message :=
  length ← row_description_length (Z.to_nat num_parms) parms 0;
  let data := replicate (Z.to_nat length) nul in
  let length := u32 (u32 (length + 4) + 2) in
  st ← put_row_description (Z.to_nat num_parms) parms (data, 0);
  Ret {| msg_type := PSQL_RowDescription; msg_length := htonl length;
         msg_data := le16 (htons num_parms) ++ st.1 |}.

(** ** The client's readers

    They trust the server: none of them checks a bound. *)
Record HeaderMessage := { h_type : byte; h_length : Z }.
Definition read_header (message : list byte) : outcome HeaderMessage :=
  remaining_length ← message_length message;
  t ← load8 message 0;
  Ret {| h_type := t; h_length := remaining_length |}.
Definition read_bind_complete : list byte → outcome HeaderMessage := read_header.
Definition read_close_complete : list byte → outcome HeaderMessage := read_header.
Definition read_empty_query_response : list byte → outcome HeaderMessage := read_header.
Definition read_parse_complete : list byte → outcome HeaderMessage := read_header.
Definition read_portal_suspended : list byte → outcome HeaderMessage := read_header.

Record ReadyForQuery := { rq_type : byte; rq_length : Z; rq_status : byte }.
Definition read_ready_for_query (message : list byte) : outcome ReadyForQuery :=
  remaining_length ← message_length message;
  t ← load8 message 0;
  status ← load8 message 5;
  Ret {| rq_type := t; rq_length := remaining_length; rq_status := status |}.

(** [length] and [result] stay in network order. *)
Record AuthenticationOk := { ao_type : byte; ao_length : Z; ao_result : list byte }.
Definition read_authentication_ok (message : list byte) : outcome AuthenticationOk :=
  t ← load8 message 0;
  len ← load32 message 1;
  result ← load_bytes message 5 4;
  Ret {| ao_type := t; ao_length := len; ao_result := result |}.

(** CommandComplete and ParameterStatus: a copy of the data. *)
Record TextMessage := { tm_type : byte; tm_length : Z; tm_data : list byte }.
Definition read_text (message : list byte) : outcome TextMessage :=
  remaining_length ← message_length message;
  t ← load8 message 0;
  data ← load_bytes message 5 (remaining_length - 4);
  Ret {| tm_type := t; tm_length := remaining_length; tm_data := data |}.
Definition read_command_complete : list byte → outcome TextMessage := read_text.
Definition read_parameter_status (message : option (list byte)) : outcome (option TextMessage) :=
  match message with
  | None => Ret None
  | Some message => m ← read_text message; Ret (Some m)
  end.

Record DataRow := {
  dr_parms : option (list (Z * Z));   (* length, offset of the value in [dr_data] *)
  dr_type : byte;
  dr_length : Z;
  dr_num_columns : Z;
  dr_data : list byte;
}.
Fixpoint read_columns (n : nat) (data : list byte) (cur : Z) : outcome (list (Z * Z)) :=
  match n with
  | O => Ret []
  | S n' =>
      len ← load_be32 data cur;
      let cur := cur + 4 in
      rest ← read_columns n' data (cur + len);
      Ret ((len, cur) :: rest)
  end.
Definition read_data_row (message : list byte) : outcome DataRow :=
  len ← message_length message;
  t ← load8 message 0;
  let remaining_length := u32 (len - 4) in
  v ← load_be16 message 5;
  let num_columns := s16 v in
  if num_columns =? 0 then
    Ret {| dr_parms := None; dr_type := t; dr_length := len; dr_num_columns := 0;
           dr_data := replicate (Z.to_nat (len - 6)) nul |}
  else
    let remaining_length := u32 (remaining_length - 2) in
    data ← load_bytes message 7 remaining_length;
    parms ← read_columns (Z.to_nat num_columns) data 0;
    Ret {| dr_parms := Some parms; dr_type := t; dr_length := len;
           dr_num_columns := num_columns; dr_data := data |}.

Record RowDescription := {
  rds_parms : list (Z * RowDescriptionParm);   (* the name is the pointer, as an offset *)
  rds_type : byte;
  rds_length : Z;
  rds_num_parms : Z;
  rds_data : list byte;
}.
Fixpoint read_row_parms (n : nat) (data : list byte) (cur : Z)
    : outcome (list (Z * RowDescriptionParm)) :=
  match n with
  | O => Ret []
  | S n' =>
      let name := cur in
      cur ← scan_str (scan_fuel data) data cur;
      let cur := cur + 1 in
      table_id ← load_be32 data cur;
      column_id ← load_be16 data (cur + 4);
      data_type ← load_be32 data (cur + 6);
      data_type_size ← load_be16 data (cur + 10);
      type_modifier ← load_be32 data (cur + 12);
      format_code ← load_be16 data (cur + 16);
      rest ← read_row_parms n' data (cur + 18);
      Ret ((name, {| rd_name := cstr (drop (Z.to_nat name) data);
                     rd_table_id := s32 table_id; rd_column_id := s16 column_id;
                     rd_data_type := s32 data_type; rd_data_type_size := s16 data_type_size;
                     rd_type_modifier := s32 type_modifier;
                     rd_format_code := s16 format_code |}) :: rest)
  end.
Definition read_row_description (message : list byte) : outcome RowDescription :=
  len ← message_length message;
  t ← load8 message 0;
  let remaining_length := u32 (len - 4) in
  v ← load_be16 message 5;
  let num_parms := s16 v in
  let remaining_length := u32 (remaining_length - 2) in
  data ← load_bytes message 7 remaining_length;
  parms ← read_row_parms (Z.to_nat num_parms) data 0;
  Ret {| rds_parms := parms; rds_type := t; rds_length := len; rds_num_parms := num_parms;
         rds_data := data |}.
