(* ===== verification/BackendTheorems.v ===== *)
(** * Server messages arrive as they were made

    For every message rocto builds: the declared length is the number of bytes
    the object holds, [send_message] puts the frame of the PostgreSQL protocol on
    the wire, and the client's reader gets back what the server put in. *)
From stdpp Require Import strings.
From S2P Require Import Prelude CMem Errors Frontend FrontendSpec Backend.

Lemma frame_app t payload rest : frame t payload rest = frame t payload [] ++ rest.
Proof. unfold frame. by rewrite app_nil_r, <- app_assoc. Qed.

(** An object whose length field counts its data: [wire] is the frame. *)
Lemma wire_frame m payload extra :
  small payload → msg_length m = htonl (zlen payload + 4) → msg_data m = payload ++ extra →
  wire m = Ret (frame (msg_type m) payload []).
Proof.
  unfold small. intros Hs Hl Hd. unfold wire, object. rewrite Hl, Hd, ntohl_htonl, le32_htonl.
  rewrite u32_small by zlia.
  rewrite (load_bytes_app_eq _ 0 _ [] (frame (msg_type m) payload []) extra).
  - done.
  - unfold frame, header. cbn [app]. rewrite app_nil_r. by rewrite <- app_assoc.
  - done.
  - unfold frame. rewrite !zlen_app, zlen_header. zlia.
Qed.

(** ** DataRow *)
Definition parm_ok (p : DataRowParm) : Prop := 0 ≤ drp_length p ≤ zlen (drp_value p).
Definition parm_value (p : DataRowParm) : list byte := take (Z.to_nat (drp_length p)) (drp_value p).
Definition row_payload (parms : list DataRowParm) : list byte :=
  be16 (zlen parms) ++ encode_parms (parm_value <$> parms).
Definition row_values (r : DataRow) : list (list byte) :=
  (λ p : Z * Z, take (Z.to_nat p.1) (drop (Z.to_nat p.2) (dr_data r))) <$> default [] (dr_parms r).

Lemma zlen_parm_value p : parm_ok p → zlen (parm_value p) = drp_length p.
Proof. unfold parm_ok, parm_value, zlen. rewrite length_take. lia. Qed.

Lemma zlen_encode_cons p ps : zlen (encode_parms (p :: ps)) = 4 + zlen p + zlen (encode_parms ps).
Proof. cbn [encode_parms]. rewrite !zlen_app. change (zlen (be32 (zlen p))) with 4. lia. Qed.

Lemma data_row_length_spec parms acc :
  Forall parm_ok parms → 0 ≤ acc → acc + zlen (encode_parms (parm_value <$> parms)) < 2 ^ 32 →
  data_row_length (length parms) parms acc = Ret (acc + zlen (encode_parms (parm_value <$> parms))).
Proof.
  intros Hok. revert acc. induction Hok as [|p parms Hp Hps IH]; intros acc H0 Hb.
  - cbn [fmap list_fmap encode_parms length data_row_length]. f_equal. zlia.
  - cbn [fmap list_fmap length data_row_length] in *. rewrite zlen_encode_cons, zlen_parm_value in * by done.
    unfold parm_ok in Hp. pose proof (zlen_nonneg (encode_parms (parm_value <$> parms))).
    rewrite (u32_small (acc + _)) by lia. rewrite u32_small by lia. rewrite IH by lia. f_equal. lia.
Qed.

Lemma put_data_row_spec parms w r :
  Forall parm_ok parms → zlen (encode_parms (parm_value <$> parms)) ≤ zlen r →
  let e := encode_parms (parm_value <$> parms) in
  put_data_row (length parms) parms (w ++ r, zlen w) =
    Ret ((w ++ e) ++ drop (length e) r, zlen (w ++ e)).
Proof.
  intros Hok. revert w r. induction Hok as [|p parms Hp Hps IH]; intros w r Hr; cbn zeta.
  - cbn. by rewrite app_nil_r.
  - cbn [fmap list_fmap] in *. rewrite zlen_encode_cons, zlen_parm_value in Hr by done.
    pose proof (zlen_nonneg (encode_parms (parm_value <$> parms))). unfold parm_ok in Hp.
    cbn [length put_data_row]. rewrite le32_htonl.
    rewrite put_over by (change (zlen (be32 (drp_length p))) with 4; lia). cbn [mbind outcome_bind].
    rewrite (load_bytes_app_eq (drp_value p) 0 _ [] (parm_value p) (drop (Z.to_nat (drp_length p)) (drp_value p)));
      [|symmetry; apply take_drop|done|by rewrite zlen_parm_value]. cbn [mbind outcome_bind].
    rewrite put_over by (rewrite zlen_parm_value, zlen_drop by done; cbn [length be32 be16 app]; lia).
    cbn [mbind outcome_bind]. rewrite IH.
    + cbn [encode_parms]. rewrite zlen_parm_value, <- !app_assoc by done.
      by rewrite !drop_drop, !length_app, !Nat.add_assoc.
    + rewrite !zlen_drop. cbn [length be32 be16 app]. pose proof (zlen_parm_value p Hp). unfold zlen in *. lia.
Qed.

Lemma read_columns_spec data pre vs post cur :
  data = pre ++ encode_parms vs ++ post → cur = zlen pre → Forall (λ v, zlen v < 2 ^ 32) vs →
  ∃ cols, read_columns (length vs) data cur = Ret cols ∧
    (λ p : Z * Z, take (Z.to_nat p.1) (drop (Z.to_nat p.2) data)) <$> cols = vs.
Proof.
  revert pre cur. induction vs as [|v vs IH]; intros pre cur Hd Hc Hv.
  { by exists []. }
  apply Forall_cons_iff in Hv as [Hv Hvs]. cbn [length read_columns encode_parms] in *.
  pose proof (be_be32 (zlen v)) as E. rewrite u32_small in E by zlia.
  destruct (be32 (zlen v)) as [|x [|y [|z [|w [|??]]]]] eqn:Eb; try done.
  rewrite (load_be32_app data cur pre x y z w (v ++ encode_parms vs ++ post));
    [|subst data; cbn [app]; by rewrite <- !app_assoc|done].
  rewrite E. cbn [mbind outcome_bind].
  destruct (IH (pre ++ [x; y; z; w] ++ v) (cur + 4 + zlen v)) as (cols & -> & Hcols);
    [subst data; by rewrite <- !app_assoc|zlia|done|].
  cbn [mbind outcome_bind]. eexists; split; [done|]. cbn [fmap list_fmap fst snd]. f_equal; [|done].
  subst data. replace (pre ++ ([x; y; z; w] ++ v ++ encode_parms vs) ++ post)
    with ((pre ++ [x; y; z; w]) ++ v ++ encode_parms vs ++ post) by (by rewrite <- !app_assoc).
  replace (cur + 4) with (zlen (pre ++ [x; y; z; w])) by zlia.
  by rewrite !zlen_to_nat, drop_app_length, take_app_length.
Qed.

Lemma make_data_row_spec mem parms :
  Forall parm_ok parms → small (row_payload parms) →
  ∃ m, make_data_row mem parms (zlen parms) = Ret m ∧
       wire m = Ret (frame PSQL_DataRow (row_payload parms) []).
Proof.
  unfold small. intros Hok Hs. set (e := encode_parms (parm_value <$> parms)).
  assert (Hp : zlen (row_payload parms) = 2 + zlen e) by (unfold row_payload; by rewrite zlen_app).
  pose proof (zlen_nonneg e) as He. unfold make_data_row. rewrite zlen_to_nat.
  rewrite data_row_length_spec by (done || (fold e; lia)). fold e. cbn [mbind outcome_bind].
  rewrite Z.add_0_l.
  pose proof (zlen_malloc mem (zlen e) He) as Hm.
  pose proof (put_data_row_spec parms [] (malloc mem (zlen e)) Hok) as Hput. fold e in Hput.
  rewrite Hm in Hput. specialize (Hput (Z.le_refl _)). rewrite zlen_nil in Hput. cbn [app] in Hput.
  rewrite Hput. cbn [mbind outcome_bind fst]. eexists; split; [done|].
  apply (wire_frame {| msg_type := PSQL_DataRow |} (row_payload parms) []); cbn [msg_length msg_data].
  - done.
  - f_equal. rewrite (u32_small (zlen e + 4)) by lia. rewrite u32_small by lia. lia.
  - rewrite le16_htons, app_nil_r. unfold row_payload. fold e.
    rewrite drop_ge by (unfold zlen in *; lia). by rewrite app_nil_r.
Qed.

Lemma read_data_row_spec vs rest :
  zlen vs < 2 ^ 15 → small (be16 (zlen vs) ++ encode_parms vs) →
  ∃ row, read_data_row (frame PSQL_DataRow (be16 (zlen vs) ++ encode_parms vs) rest) = Ret row ∧
         dr_num_columns row = zlen vs ∧ row_values row = vs.
Proof.
  intros Hn Hs. set (p := be16 (zlen vs) ++ encode_parms vs) in *.
  assert (Hp : zlen p = 2 + zlen (encode_parms vs)) by (unfold p; by rewrite zlen_app).
  unfold read_data_row. rewrite message_length_frame, load8_frame by done. cbn [mbind outcome_bind].
  unfold load_be16. rewrite (load16_be _ 5 (header PSQL_DataRow (zlen p + 4)) (z2b (zlen vs / 2 ^ 8))
    (z2b (zlen vs)) (encode_parms vs ++ rest)); [|unfold frame, p; by rewrite <- app_assoc|done].
  cbn [mbind outcome_bind].
  assert (En : s16 (be [z2b (zlen vs / 2 ^ 8); z2b (zlen vs)]) = zlen vs).
  { change [z2b (zlen vs / 2 ^ 8); z2b (zlen vs)] with (be16 (zlen vs)).
    rewrite be_be16. apply s16_u16. zlia. }
  rewrite En. destruct (Z.eqb_spec (zlen vs) 0) as [E0|E0].
  - assert (vs = []) as -> by (destruct vs; [done|zlia]). by eexists.
  - unfold small in Hs. rewrite (u32_small (_ - 4)), u32_small by zlia.
    rewrite (load_bytes_app_eq _ 7 _ (header PSQL_DataRow (zlen p + 4) ++ be16 (zlen vs)) (encode_parms vs) rest);
      [|unfold frame, p; by rewrite <- !app_assoc|done|zlia]. cbn [mbind outcome_bind].
    rewrite zlen_to_nat.
    destruct (read_columns_spec (encode_parms vs) [] vs [] 0) as (cols & -> & Hc);
      [by rewrite app_nil_r|done| |by eexists].
    clear En E0 Hn. clearbody p. revert Hs Hp. generalize (zlen p). clear. intros z Hs Hp.
    assert (Hb : zlen (encode_parms vs) < 2 ^ 31) by zlia. clear Hp Hs.
    induction vs as [|v vs IH]; constructor; rewrite zlen_encode_cons in Hb.
    + zlia.
    + apply IH. zlia.
Qed.

(** A result row reaches the client unchanged: for any columns whose lengths
    their buffers hold, [make_data_row] fills exactly the bytes it declares
    whatever the fresh memory held, [send_message] transmits the DataRow frame, and
    the client's [read_data_row] gets the same values in the same order. *)
Theorem data_row_roundtrip mem parms rest :
  Forall parm_ok parms → zlen parms < 2 ^ 15 → small (row_payload parms) →
  ∃ m w row, make_data_row mem parms (zlen parms) = Ret m ∧ wire m = Ret w ∧
    w = frame PSQL_DataRow (row_payload parms) [] ∧
    read_data_row (w ++ rest) = Ret row ∧
    dr_num_columns row = zlen parms ∧ row_values row = parm_value <$> parms.
Proof.
  intros Hok Hn Hs. destruct (make_data_row_spec mem parms Hok Hs) as (m & Hm & Hw).
  destruct (read_data_row_spec (parm_value <$> parms) rest) as (row & Hr & Hc & Hv);
    [by rewrite zlen_fmap|by rewrite zlen_fmap|].
  rewrite zlen_fmap in Hr, Hc. exists m, (frame PSQL_DataRow (row_payload parms) []), row.
  rewrite <- frame_app. done.
Qed.

Definition sample_row : list DataRowParm :=
  [{| drp_length := 2; drp_value := lit "42" |}; {| drp_length := 3; drp_value := lit "abcdef" |}].
Lemma data_row_roundtrip_witness :
  ∃ m w row, make_data_row (λ _, xff) sample_row 2 = Ret m ∧ wire m = Ret w ∧
    w = frame PSQL_DataRow (row_payload sample_row) [] ∧
    read_data_row (w ++ []) = Ret row ∧
    dr_num_columns row = 2 ∧ row_values row = [lit "42"; lit "abc"].
Proof.
  apply (data_row_roundtrip (λ _, xff) sample_row []); [|done|done].
  unfold sample_row, parm_ok. eval_decide.
Defined.

Lemma zlen_be32 z : zlen (be32 z) = 4.
Proof. done. Qed.
Lemma zlen_be16 z : zlen (be16 z) = 2.
Proof. done. Qed.
#[local] Hint Rewrite zlen_be32 zlen_be16 : zlen.

(** ** RowDescription *)
Definition int_ok (w z : Z) : Prop := - 2 ^ (w - 1) ≤ z < 2 ^ (w - 1).
Record column_ok (p : RowDescriptionParm) : Prop := {
  ok_name : no_nul (rd_name p);
  ok_table_id : int_ok 32 (rd_table_id p);
  ok_column_id : int_ok 16 (rd_column_id p);
  ok_data_type : int_ok 32 (rd_data_type p);
  ok_data_type_size : int_ok 16 (rd_data_type_size p);
  ok_type_modifier : int_ok 32 (rd_type_modifier p);
  ok_format_code : int_ok 16 (rd_format_code p);
}.
Definition column_numbers (p : RowDescriptionParm) : list byte :=
  be32 (rd_table_id p) ++ be16 (rd_column_id p) ++ be32 (rd_data_type p) ++
  be16 (rd_data_type_size p) ++ be32 (rd_type_modifier p) ++ be16 (rd_format_code p).
Definition column_wire (p : RowDescriptionParm) : list byte :=
  rd_name p ++ [nul] ++ column_numbers p.
Fixpoint columns_wire (ps : list RowDescriptionParm) : list byte :=
  match ps with [] => [] | p :: ps' => column_wire p ++ columns_wire ps' end.
Definition columns_payload (ps : list RowDescriptionParm) : list byte :=
  be16 (zlen ps) ++ columns_wire ps.

Lemma zlen_column_wire p : zlen (column_wire p) = zlen (rd_name p) + 1 + 18.
Proof. unfold column_wire. rewrite !zlen_app. change (zlen (column_numbers p)) with 18. zlia. Qed.

Lemma row_description_length_spec ps acc :
  Forall column_ok ps → 0 ≤ acc → acc + zlen (columns_wire ps) < 2 ^ 32 →
  row_description_length (length ps) ps acc = Ret (acc + zlen (columns_wire ps)).
Proof.
  intros Hok. revert acc. induction Hok as [|p ps Hp Hps IH]; intros acc H0 Hb.
  - cbn [columns_wire length row_description_length]. f_equal. zlia.
  - cbn [columns_wire length row_description_length] in *.
    rewrite zlen_app, zlen_column_wire in *. rewrite cstr_id by apply Hp. zlen_pos.
    rewrite (u32_small (acc + _)) by lia. rewrite u32_small by lia. rewrite IH by lia. f_equal. lia.
Qed.

(** One column, field by field, is one write of its wire form. *)
Lemma put_column_spec p ps w r n :
  column_ok p → zlen (column_wire p) ≤ zlen r →
  put_row_description (S n) (p :: ps) (w ++ r, zlen w) =
  put_row_description n ps
    ((w ++ column_wire p) ++ drop (length (column_wire p)) r, zlen (w ++ column_wire p)).
Proof.
  intros Hp Hr. cbn [put_row_description]. rewrite !le32_htonl, !le16_htons, cstr_id by apply Hp.
  rewrite zlen_column_wire in Hr. zlen_pos.
  do 8 (rewrite put_over by (rewrite ?zlen_drop; cbn [length be32 be16 app]; unfold zlen in *;
          cbn [length be32 be16 app]; lia); cbn [mbind outcome_bind]).
  unfold column_wire, column_numbers.
  by rewrite !drop_drop, !length_app, !Nat.add_assoc, <- !app_assoc.
Qed.

Lemma put_row_description_spec ps w r :
  Forall column_ok ps → zlen (columns_wire ps) ≤ zlen r →
  put_row_description (length ps) ps (w ++ r, zlen w) =
    Ret ((w ++ columns_wire ps) ++ drop (length (columns_wire ps)) r, zlen (w ++ columns_wire ps)).
Proof.
  intros Hok. revert w r. induction Hok as [|p ps Hp Hps IH]; intros w r Hr.
  - cbn [columns_wire length put_row_description drop]. by rewrite app_nil_r.
  - cbn [columns_wire length] in *. rewrite zlen_app in Hr. zlen_pos.
    rewrite put_column_spec by (done || lia). rewrite IH.
    + by rewrite drop_drop, length_app, <- !app_assoc.
    + rewrite zlen_drop. unfold zlen in *. lia.
Qed.

Lemma load_be32_at b i pre z post :
  b = pre ++ be32 z ++ post → i = zlen pre → load_be32 b i = Ret (u32 z).
Proof.
  intros Hb Hi. rewrite <- be_be32. by apply (load_be32_app b i pre _ _ _ _ post).
Qed.
Lemma load_be16_at b i pre z post :
  b = pre ++ be16 z ++ post → i = zlen pre → load_be16 b i = Ret (u16 z).
Proof.
  intros Hb Hi. rewrite <- be_be16. unfold load_be16. by apply (load16_be b i pre _ _ post).
Qed.

Lemma read_row_parms_spec data pre ps post cur :
  data = pre ++ columns_wire ps ++ post → cur = zlen pre → Forall column_ok ps →
  ∃ cols, read_row_parms (length ps) data cur = Ret cols ∧ cols.*2 = ps.
Proof.
  revert pre cur. induction ps as [|p ps IH]; intros pre cur Hd Hc Hok; [by exists []|].
  apply Forall_cons_iff in Hok as [Hp Hok]. cbn [length read_row_parms columns_wire] in *.
  destruct p as [nm tid cid dt dts tm fc]. destruct Hp as [Hn H1 H2 H3 H4 H5 H6].
  cbn [rd_name rd_table_id rd_column_id rd_data_type rd_data_type_size rd_type_modifier rd_format_code] in *.
  set (tl := columns_wire ps ++ post).
  assert (Hd' : data = pre ++ nm ++ [nul] ++ be32 tid ++ be16 cid ++ be32 dt ++ be16 dts ++ be32 tm
                         ++ be16 fc ++ tl)
    by (subst data tl; unfold column_wire, column_numbers; by rewrite <- !app_assoc).
  rewrite (scan_str_spec _ data pre nm (be32 tid ++ be16 cid ++ be32 dt ++ be16 dts ++ be32 tm
    ++ be16 fc ++ tl)); [|done|done|done|unfold scan_fuel; rewrite Hd', !length_app; lia].
  cbn [mbind outcome_bind].
  rewrite (load_be32_at data (cur + zlen nm + 1) (pre ++ nm ++ [nul]) tid (be16 cid ++ be32 dt ++ be16 dts ++ be32 tm
    ++ be16 fc ++ tl)); [|rewrite Hd'; by rewrite <- !app_assoc|zlia]. cbn [mbind outcome_bind].
  rewrite (load_be16_at data (cur + zlen nm + 1 + 4) (pre ++ nm ++ [nul] ++ be32 tid) cid (be32 dt ++ be16 dts ++ be32 tm
    ++ be16 fc ++ tl)); [|rewrite Hd'; by rewrite <- !app_assoc|zlia]. cbn [mbind outcome_bind].
  rewrite (load_be32_at data (cur + zlen nm + 1 + 6) (pre ++ nm ++ [nul] ++ be32 tid ++ be16 cid) dt (be16 dts ++ be32 tm
    ++ be16 fc ++ tl)); [|rewrite Hd'; by rewrite <- !app_assoc|zlia]. cbn [mbind outcome_bind].
  rewrite (load_be16_at data (cur + zlen nm + 1 + 10) (pre ++ nm ++ [nul] ++ be32 tid ++ be16 cid ++ be32 dt) dts (be32 tm
    ++ be16 fc ++ tl)); [|rewrite Hd'; by rewrite <- !app_assoc|zlia]. cbn [mbind outcome_bind].
  rewrite (load_be32_at data (cur + zlen nm + 1 + 12) (pre ++ nm ++ [nul] ++ be32 tid ++ be16 cid ++ be32 dt ++ be16 dts) tm
    (be16 fc ++ tl)); [|rewrite Hd'; by rewrite <- !app_assoc|zlia]. cbn [mbind outcome_bind].
  rewrite (load_be16_at data (cur + zlen nm + 1 + 16) (pre ++ nm ++ [nul] ++ be32 tid ++ be16 cid ++ be32 dt ++ be16 dts
    ++ be32 tm) fc tl); [|rewrite Hd'; by rewrite <- !app_assoc|zlia]. cbn [mbind outcome_bind].
  destruct (IH (pre ++ nm ++ [nul] ++ be32 tid ++ be16 cid ++ be32 dt ++ be16 dts ++ be32 tm ++ be16 fc)
    (cur + zlen nm + 1 + 18)) as (cols & -> & Hcols);
    [rewrite Hd'; by rewrite <- !app_assoc|zlia|done|].
  cbn [mbind outcome_bind]. eexists; split; [done|]. cbn [fmap list_fmap snd]. f_equal; [|done].
  rewrite (cstr_drop_block data pre nm (be32 tid ++ be16 cid ++ be32 dt ++ be16 dts ++ be32 tm
    ++ be16 fc ++ tl) cur) by done.
  unfold int_ok in *. by rewrite !s32_u32, !s16_u16.
Qed.

Lemma make_row_description_spec ps :
  Forall column_ok ps → small (columns_payload ps) →
  ∃ m, make_row_description ps (zlen ps) = Ret m ∧
       wire m = Ret (frame PSQL_RowDescription (columns_payload ps) []).
Proof.
  unfold small. intros Hok Hs. set (e := columns_wire ps).
  assert (Hp : zlen (columns_payload ps) = 2 + zlen e) by (unfold columns_payload; by rewrite zlen_app).
  pose proof (zlen_nonneg e) as He. unfold make_row_description. rewrite zlen_to_nat.
  rewrite row_description_length_spec by (done || (fold e; lia)). fold e. cbn [mbind outcome_bind].
  rewrite Z.add_0_l, zlen_to_nat.
  pose proof (put_row_description_spec ps [] (replicate (length e) nul) Hok) as Hput. fold e in Hput.
  rewrite zlen_replicate in Hput. specialize (Hput (Z.le_refl _)). rewrite zlen_nil in Hput. cbn [app] in Hput.
  rewrite Hput. cbn [mbind outcome_bind fst]. eexists; split; [done|].
  apply (wire_frame {| msg_type := PSQL_RowDescription |} (columns_payload ps) []); cbn [msg_length msg_data].
  - done.
  - f_equal. rewrite (u32_small (zlen e + 4)) by lia. rewrite u32_small by lia. lia.
  - rewrite le16_htons, app_nil_r. unfold columns_payload. fold e.
    rewrite drop_ge by (rewrite length_replicate; lia). by rewrite app_nil_r.
Qed.

(** A row description reaches the client unchanged: [make_row_description]
    transmits the RowDescription frame of the columns, and the client's
    [read_row_description] gets the same columns back: names, negative type
    modifiers and sizes included. *)
Theorem row_description_roundtrip ps rest :
  Forall column_ok ps → zlen ps < 2 ^ 15 → small (columns_payload ps) →
  ∃ m w rd, make_row_description ps (zlen ps) = Ret m ∧ wire m = Ret w ∧
    w = frame PSQL_RowDescription (columns_payload ps) [] ∧
    read_row_description (w ++ rest) = Ret rd ∧
    rds_num_parms rd = zlen ps ∧ (rds_parms rd).*2 = ps.
Proof.
  intros Hok Hn Hs. destruct (make_row_description_spec ps Hok Hs) as (m & Hm & Hw).
  exists m, (frame PSQL_RowDescription (columns_payload ps) []).
  set (p := columns_payload ps) in *. rewrite <- frame_app.
  assert (Hp : zlen p = 2 + zlen (columns_wire ps)) by (unfold p, columns_payload; by rewrite zlen_app).
  unfold read_row_description. rewrite message_length_frame, load8_frame by done. cbn [mbind outcome_bind].
  rewrite (load_be16_at _ 5 (header PSQL_RowDescription (zlen p + 4)) (zlen ps) (columns_wire ps ++ rest));
    [|unfold frame, p, columns_payload; by rewrite <- app_assoc|done]. cbn [mbind outcome_bind].
  rewrite s16_u16 by zlia. unfold small in Hs. rewrite (u32_small (_ - 4)), u32_small by zlia.
  rewrite (load_bytes_app_eq _ 7 _ (header PSQL_RowDescription (zlen p + 4) ++ be16 (zlen ps))
    (columns_wire ps) rest);
    [|unfold frame, p, columns_payload; by rewrite <- !app_assoc|done|zlia]. cbn [mbind outcome_bind].
  rewrite zlen_to_nat.
  destruct (read_row_parms_spec (columns_wire ps) [] ps [] 0) as (cols & -> & Hc);
    [by rewrite app_nil_r|done|done|]. cbn [mbind outcome_bind]. eexists; split_and!; done.
Qed.

Definition sample_columns : list RowDescriptionParm :=
  [{| rd_name := lit "id"; rd_table_id := 0; rd_column_id := 0; rd_data_type := 25;
      rd_data_type_size := -1; rd_type_modifier := -1; rd_format_code := 0 |}].
Lemma row_description_roundtrip_witness :
  ∃ m w rd, make_row_description sample_columns 1 = Ret m ∧ wire m = Ret w ∧
    w = frame PSQL_RowDescription (columns_payload sample_columns) [] ∧
    read_row_description (w ++ []) = Ret rd ∧
    rds_num_parms rd = 1 ∧ (rds_parms rd).*2 = sample_columns.
Proof.
  apply (row_description_roundtrip sample_columns []); [|done|done].
  repeat constructor; unfold int_ok; eval_decide.
Defined.

(** ** CommandComplete and ParameterStatus *)
Lemma read_text_frame t payload rest :
  small payload →
  read_text (frame t payload rest) =
    Ret {| tm_type := t; tm_length := zlen payload + 4; tm_data := payload |}.
Proof.
  intros Hs. unfold read_text. rewrite message_length_frame, load8_frame by done.
  cbn [mbind outcome_bind]. rewrite Z.add_simpl_r, load_data_frame. done.
Qed.

Lemma make_command_complete_spec tag :
  small (cstr (default [] tag) ++ [nul]) →
  ∃ m, make_command_complete tag = Ret m ∧
       wire m = Ret (frame PSQL_CommandComplete (cstr (default [] tag) ++ [nul]) []).
Proof.
  unfold small, make_command_complete. set (s := cstr _). intros Hs.
  rewrite (s32_small (zlen s + 1)) by zlia. rewrite (s32_small (4 + _)) by zlia.
  rewrite (load_bytes_app_eq _ 0 _ [] (s ++ [nul]) []); [|by rewrite app_nil_r|done|zlia].
  cbn [mbind outcome_bind].
  set (z := replicate _ nul). assert (Hz : zlen z = zlen (s ++ [nul])).
  { unfold z. rewrite zlen_replicate. zlia. }
  rewrite (store_bytes_app_eq z 0 [] z [] (s ++ [nul])); [|by rewrite app_nil_r|done|done].
  cbn [mbind outcome_bind app]. eexists; split; [done|].
  apply (wire_frame {| msg_type := PSQL_CommandComplete |} (s ++ [nul]) []); [done| |done].
  cbn [msg_length]. f_equal. zlia.
Qed.

Lemma make_parameter_status_spec mem name value :
  let payload := cstr name ++ [nul] ++ cstr value ++ [nul] in
  small payload →
  ∃ m, make_parameter_status mem (Some (name, value)) = Ret (Some m) ∧
       wire m = Ret (frame PSQL_ParameterStatus payload []).
Proof.
  intros payload Hs. unfold small in Hs. unfold make_parameter_status.
  set (n := cstr name) in *. set (v := cstr value) in *.
  assert (Hp : zlen payload = zlen n + 1 + zlen v + 1) by (unfold payload; zlia).
  zlen_pos. rewrite (u32_small (4 + _)) by lia. rewrite u32_small by lia.
  set (blk := malloc mem _).
  assert (Hb : zlen blk = zlen payload) by (unfold blk; rewrite zlen_malloc; lia).
  pose proof (put_over [] blk n ltac:(lia)) as E. cbn [app] in E. rewrite zlen_nil in E. rewrite E.
  cbn [mbind outcome_bind].
  do 3 (rewrite put_over by (rewrite ?zlen_drop; unfold zlen in *; cbn [length]; lia);
        cbn [mbind outcome_bind]). cbn [fst].
  eexists; split; [done|].
  apply (wire_frame {| msg_type := PSQL_ParameterStatus |} payload []); [done| |]; cbn [msg_length msg_data].
  - f_equal. lia.
  - rewrite !drop_drop, drop_ge, app_nil_r by (unfold zlen in *; cbn [length]; lia).
    unfold payload. rewrite !app_nil_r. by rewrite <- !app_assoc.
Qed.

(** A command tag (the empty one for NULL) and a parameter's name and value
    reach the client: the frames hold the strings with their terminators, whatever
    the uninitialised block of [make_parameter_status] held, and the readers copy
    them back. *)
Theorem text_messages_roundtrip mem tag name value rest :
  small (cstr (default [] tag) ++ [nul]) → small (cstr name ++ [nul] ++ cstr value ++ [nul]) →
  (∃ m w r, make_command_complete tag = Ret m ∧ wire m = Ret w ∧
     read_command_complete (w ++ rest) = Ret r ∧ tm_type r = PSQL_CommandComplete ∧
     cstr (tm_data r) = cstr (default [] tag)) ∧
  (∃ m w r, make_parameter_status mem (Some (name, value)) = Ret (Some m) ∧ wire m = Ret w ∧
     read_parameter_status (Some (w ++ rest)) = Ret (Some r) ∧ tm_type r = PSQL_ParameterStatus ∧
     tm_data r = cstr name ++ [nul] ++ cstr value ++ [nul]).
Proof.
  intros Hs1 Hs2. split.
  - destruct (make_command_complete_spec tag Hs1) as (m & Hm & Hw).
    exists m. eexists _, _. split; [done|]. split; [done|]. rewrite <- frame_app.
    split; [by apply read_text_frame|]. split; [done|]. cbn [tm_data].
    apply cstr_app_nul, cstr_no_nul.
  - destruct (make_parameter_status_spec mem name value Hs2) as (m & Hm & Hw).
    exists m. eexists _, _. split; [done|]. split; [done|]. rewrite <- frame_app.
    unfold read_parameter_status. by rewrite read_text_frame.
Qed.

Lemma text_messages_roundtrip_witness :
  ∃ m w r, make_command_complete (Some (lit "SELECT 1")) = Ret m ∧ wire m = Ret w ∧
     read_command_complete (w ++ []) = Ret r ∧ tm_type r = PSQL_CommandComplete ∧
     cstr (tm_data r) = lit "SELECT 1".
Proof.
  exact (proj1 (text_messages_roundtrip (λ _, xff) (Some (lit "SELECT 1")) (lit "user") (lit "bob") []
    eq_refl eq_refl)).
Defined.

(** The messages of fixed size go out as the protocol defines them, each with
    a length field that counts exactly its payload; the salt of the md5 request is
    the four random bytes of the caller's buffer. *)
Theorem fixed_messages_wire salt status :
  4 ≤ zlen salt →
  wire make_authentication_ok = Ret (frame (chr "R") (be32 0) []) ∧
  (m ← make_authentication_md5_password salt; wire m) =
    Ret (frame (chr "R") (be32 5 ++ take 4 salt) []) ∧
  wire (make_ready_for_query status) = Ret (frame (chr "Z") [status_char status] []) ∧
  wire make_parameter_description = Ret (frame (chr "t") (be16 0) []) ∧
  wire make_bind_complete = Ret (frame (chr "2") [] []) ∧
  wire make_close_complete = Ret (frame (chr "3") [] []) ∧
  wire make_parse_complete = Ret (frame (chr "1") [] []) ∧
  wire make_portal_suspended = Ret (frame (chr "s") [] []) ∧
  wire make_empty_query_response = Ret (frame (chr "I") [] []) ∧
  wire make_no_data = Ret (frame (chr "n") [] []).
Proof.
  intros Hs. split_and!; try (by destruct status); try reflexivity.
  destruct salt as [|a [|b [|c [|d salt]]]]; try zlia.
  unfold make_authentication_md5_password.
  rewrite (load_bytes_app_eq _ 0 _ [] [a; b; c; d] salt) by done. cbn [mbind outcome_bind].
  by apply (wire_frame {| msg_type := PSQL_AuthenticationMD5Password |} (be32 5 ++ [a; b; c; d]) []).
Qed.

Lemma fixed_messages_wire_witness :
  wire (make_ready_for_query PSQL_TransactionStatus_IDLE) = Ret (frame (chr "Z") (lit "I") []).
Proof. apply (fixed_messages_wire (lit "salt") PSQL_TransactionStatus_IDLE); done. Defined.
