(* ===== verification/LogicalPlan.v ===== *)
(** * Logical plans

    [optimization_transforms/logical_plan.h] and the functions that walk and
    extend a plan: the accessors [lp_get_*.c], [lp_drill_to_insert.c],
    [lp_insert_key.c], [lp_join_where.c], [lp_join_plans.c],
    [lp_opt_fix_key_to_const.c] and the structure check [lp_verify_structure.c].

    A plan is a tree of [LogicalPlan] nodes.  The node's union is either the two
    operands ([Op], what a freshly zeroed node holds) or one of the leaf members
    ([Leaf]), here the address of the shared SQL structure.  Reading the operands
    of a leaf, or any member through NULL, is undefined behaviour.  Functions that
    write into a plan in place return the plan as it is afterwards. *)
From stdpp Require Import gmap.
From S2P Require Import Prelude.

Inductive LPActionType :=
  | LP_INSERT
  | LP_SET_OPERATION
  | LP_TABLE
  | LP_TABLE_JOIN
  | LP_OUTER_JOIN
  | LP_COLUMN_LIST
  | LP_COLUMN_ALIAS
  | LP_COLUMN_LIST_ALIAS
  | LP_DERIVED_COLUMN
  | LP_PIECE_NUMBER
  | LP_VALUE
  | LP_PROJECT
  | LP_SELECT
  | LP_SELECT_OPTIONS
  | LP_KEYWORDS
  | LP_WHERE
  | LP_CRITERIA
  | LP_OUTPUT
  | LP_KEYS
  | LP_KEY
  | LP_KEY_FIX
  | LP_KEY_ADVANCE
  | LP_SET_UNION
  | LP_SET_UNION_ALL
  | LP_SET_EXCEPT
  | LP_SET_EXCEPT_ALL
  | LP_SET_INTERSECT
  | LP_SET_INTERSECT_ALL
  | LP_PLANS
  | LP_SET_OPTION
  | LP_FUNCTION_CALL
  | LP_CASE
  | LP_CASE_STATEMENT
  | LP_CASE_BRANCH
  | LP_CASE_BRANCH_STATEMENT
  | LP_ADDITION
  | LP_SUBTRACTION
  | LP_DIVISION
  | LP_MULTIPLICATION
  | LP_CONCAT
  | LP_BOOLEAN_OR
  | LP_BOOLEAN_AND
  | LP_BOOLEAN_IS
  | LP_BOOLEAN_EQUALS
  | LP_BOOLEAN_NOT_EQUALS
  | LP_BOOLEAN_LESS_THAN
  | LP_BOOLEAN_GREATER_THAN
  | LP_BOOLEAN_LESS_THAN_OR_EQUALS
  | LP_BOOLEAN_GREATER_THAN_OR_EQUALS
  | LP_BOOLEAN_REGEX_SENSITIVE
  | LP_BOOLEAN_REGEX_INSENSITIVE
  | LP_BOOLEAN_IN
  | LP_BOOLEAN_NOT_IN
  | LP_FORCE_NUM
  | LP_NEGATIVE
  | LP_BOOLEAN_NOT
  | LP_INVALID_ACTION.
#[export] Instance LPActionType_eq_dec : EqDecision LPActionType.
Proof. solve_decision. Defined.

(** The enumerators' values, for the comparisons of the code. *)
Definition lp_action_value (t : LPActionType) : Z :=
  match t with
  | LP_INSERT => 0
  | LP_SET_OPERATION => 1
  | LP_TABLE => 2
  | LP_TABLE_JOIN => 3
  | LP_OUTER_JOIN => 4
  | LP_COLUMN_LIST => 5
  | LP_COLUMN_ALIAS => 6
  | LP_COLUMN_LIST_ALIAS => 7
  | LP_DERIVED_COLUMN => 8
  | LP_PIECE_NUMBER => 9
  | LP_VALUE => 10
  | LP_PROJECT => 11
  | LP_SELECT => 12
  | LP_SELECT_OPTIONS => 13
  | LP_KEYWORDS => 14
  | LP_WHERE => 15
  | LP_CRITERIA => 16
  | LP_OUTPUT => 17
  | LP_KEYS => 18
  | LP_KEY => 19
  | LP_KEY_FIX => 20
  | LP_KEY_ADVANCE => 21
  | LP_SET_UNION => 22
  | LP_SET_UNION_ALL => 23
  | LP_SET_EXCEPT => 24
  | LP_SET_EXCEPT_ALL => 25
  | LP_SET_INTERSECT => 26
  | LP_SET_INTERSECT_ALL => 27
  | LP_PLANS => 28
  | LP_SET_OPTION => 29
  | LP_FUNCTION_CALL => 30
  | LP_CASE => 31
  | LP_CASE_STATEMENT => 32
  | LP_CASE_BRANCH => 33
  | LP_CASE_BRANCH_STATEMENT => 34
  | LP_ADDITION => 35
  | LP_SUBTRACTION => 36
  | LP_DIVISION => 37
  | LP_MULTIPLICATION => 38
  | LP_CONCAT => 39
  | LP_BOOLEAN_OR => 40
  | LP_BOOLEAN_AND => 41
  | LP_BOOLEAN_IS => 42
  | LP_BOOLEAN_EQUALS => 43
  | LP_BOOLEAN_NOT_EQUALS => 44
  | LP_BOOLEAN_LESS_THAN => 45
  | LP_BOOLEAN_GREATER_THAN => 46
  | LP_BOOLEAN_LESS_THAN_OR_EQUALS => 47
  | LP_BOOLEAN_GREATER_THAN_OR_EQUALS => 48
  | LP_BOOLEAN_REGEX_SENSITIVE => 49
  | LP_BOOLEAN_REGEX_INSENSITIVE => 50
  | LP_BOOLEAN_IN => 51
  | LP_BOOLEAN_NOT_IN => 52
  | LP_FORCE_NUM => 53
  | LP_NEGATIVE => 54
  | LP_BOOLEAN_NOT => 55
  | LP_INVALID_ACTION => 56
  end.

Definition ptr := Z.
Definition null : ptr := 0.

(** The leaf members of the union. *)
Inductive leaf :=
  | VColumnAlias (p : ptr)
  | VColumnListAlias (p : ptr)
  | VValue (p : ptr)
  | VTableAlias (p : ptr)
  | VKey (p : ptr)
  | VKeywords (p : ptr)
  | VPieceNumber (n : Z).
#[export] Instance leaf_eq_dec : EqDecision leaf.
Proof. solve_decision. Defined.

Inductive LogicalPlan :=
  | NULL
  | Op (type : LPActionType) (op0 op1 : LogicalPlan)
  | Leaf (type : LPActionType) (v : leaf).
#[export] Instance LogicalPlan_eq_dec : EqDecision LogicalPlan.
Proof. solve_decision. Defined.

Record SqlKey := {
  k_table : ptr;
  k_column : ptr;
  k_key_num : Z;
  k_unique_id : Z;
  k_value : LogicalPlan;
  k_insert : ptr;
  k_type : LPActionType;
  k_owner : LogicalPlan;
  k_is_cross_reference_key : bool;
  k_cross_reference_output_key : ptr;
  k_cross_reference_column_alias : ptr;
  k_cross_reference_filename : ptr;
}.
(** The keys in memory, by address: several nodes may point to one key. *)
Definition key_store := gmap ptr SqlKey.

Definition is_null (p : LogicalPlan) : bool := match p with NULL => true | _ => false end.

(** [p->type], [p->v.operand[side]], [p->v.key] *)
Definition lp_type (p : LogicalPlan) : outcome LPActionType :=
  match p with NULL => Undef NullPointer | Op t _ _ | Leaf t _ => Ret t end.
Definition operand (p : LogicalPlan) (side : bool) : outcome LogicalPlan :=
  match p with
  | NULL => Undef NullPointer
  | Op _ a b => Ret (if side then b else a)
  | Leaf _ _ => Undef WrongMember
  end.
Definition lp_key (p : LogicalPlan) : outcome ptr :=
  match p with
  | NULL => Undef NullPointer
  | Leaf _ (VKey k) => Ret k
  | Op _ NULL _ => Ret null   (* the zeroed union *)
  | _ => Undef WrongMember
  end.
Definition set_operand (p : LogicalPlan) (side : bool) (q : LogicalPlan) : outcome LogicalPlan :=
  match p with
  | NULL => Undef NullPointer
  | Op t a b => Ret (if side then Op t a q else Op t q b)
  | Leaf _ _ => Undef WrongMember
  end.

(** [MALLOC_LP]: a zeroed node of the type. *)
Definition malloc_lp (t : LPActionType) : LogicalPlan := Op t NULL NULL.

(** [GET_LP(dest, source, side, dest_type)] *)
Definition get_lp (source : LogicalPlan) (side : bool) (t : LPActionType) : outcome LogicalPlan :=
  p ← operand source side;
  pt ← lp_type p;
  _ ← c_assert (bool_decide (pt = t));
  Ret p.

(** ** Accessors *)
Definition lp_get_project (plan : LogicalPlan) : outcome LogicalPlan :=
  t ← lp_type plan;
  _ ← c_assert (bool_decide (t = LP_INSERT));
  get_lp plan false LP_PROJECT.
Definition lp_get_select (plan : LogicalPlan) : outcome LogicalPlan :=
  select ← get_lp plan false LP_PROJECT;
  get_lp select true LP_SELECT.
Definition lp_get_criteria (plan : LogicalPlan) : outcome LogicalPlan :=
  select ← get_lp plan false LP_PROJECT;
  select ← get_lp select true LP_SELECT;
  get_lp select true LP_CRITERIA.
Definition lp_get_keys (plan : LogicalPlan) : outcome LogicalPlan :=
  select ← get_lp plan false LP_PROJECT;
  select ← get_lp select true LP_SELECT;
  select ← get_lp select true LP_CRITERIA;
  get_lp select false LP_KEYS.
Definition lp_get_projection_columns (plan : LogicalPlan) : outcome LogicalPlan :=
  select ← get_lp plan false LP_PROJECT;
  get_lp select false LP_COLUMN_LIST.
Definition lp_get_select_keywords (plan : LogicalPlan) : outcome LogicalPlan :=
  select ← lp_get_select plan;
  select ← get_lp select true LP_CRITERIA;
  select ← get_lp select true LP_SELECT_OPTIONS;
  get_lp select true LP_KEYWORDS.
Definition lp_get_select_where (plan : LogicalPlan) : outcome LogicalPlan :=
  select ← lp_get_select plan;
  select ← get_lp select true LP_CRITERIA;
  select ← get_lp select true LP_SELECT_OPTIONS;
  get_lp select false LP_WHERE.
Definition lp_get_table_join (plan : LogicalPlan) : outcome LogicalPlan :=
  select ← lp_get_select plan;
  get_lp select false LP_TABLE_JOIN.

(** The plan must be a set operation down to the first insert. *)
Fixpoint lp_drill_to_insert (plan : LogicalPlan) : outcome LogicalPlan :=
  match plan with
  | NULL => Undef NullPointer
  | Op LP_INSERT _ _ | Leaf LP_INSERT _ => Ret plan
  | Op t _ b =>
      _ ← c_assert (bool_decide (t = LP_SET_OPERATION));
      match b with
      | NULL => Undef NullPointer
      | Op t' a _ => _ ← c_assert (bool_decide (t' = LP_PLANS)); lp_drill_to_insert a
      | Leaf t' _ => _ ← c_assert (bool_decide (t' = LP_PLANS)); Undef WrongMember
      end
  | Leaf t _ => _ ← c_assert (bool_decide (t = LP_SET_OPERATION)); Undef WrongMember
  end.
Definition lp_get_output_key (plan : LogicalPlan) : outcome LogicalPlan :=
  plan ← lp_drill_to_insert plan;
  t ← lp_type plan;
  _ ← c_assert (bool_decide (t = LP_INSERT));
  t ← get_lp plan true LP_OUTPUT;
  get_lp t false LP_KEY.

(** ** Operations *)
(** [while(cur_keys->v.operand[1] != NULL) cur_keys = ...; then append] *)
Fixpoint append_key (cur_keys key : LogicalPlan) : outcome LogicalPlan :=
  match cur_keys with
  | NULL => Undef NullPointer
  | Leaf _ _ => Undef WrongMember
  | Op t a NULL => Ret (Op t a (Op LP_KEYS key NULL))
  | Op t a b => b' ← append_key b key; Ret (Op t a b')
  end.
Definition insert_into_keys (keys key : LogicalPlan) : outcome LogicalPlan :=
  first ← operand keys false;
  if is_null first then set_operand keys false key else append_key keys key.
(** Writes the changed LP_KEYS back where [lp_get_keys] found it. *)
Definition lp_insert_key (plan key : LogicalPlan) : outcome LogicalPlan :=
  project ← get_lp plan false LP_PROJECT;
  select ← get_lp project true LP_SELECT;
  criteria ← get_lp select true LP_CRITERIA;
  keys ← get_lp criteria false LP_KEYS;
  keys ← insert_into_keys keys key;
  criteria ← set_operand criteria false keys;
  select ← set_operand select true criteria;
  project ← set_operand project true select;
  set_operand plan false project.

Definition lp_join_where (where1 where2 : LogicalPlan) : outcome LogicalPlan :=
  if is_null where1 then Ret where2
  else if is_null where2 then Ret where1
  else
    w1 ← operand where1 false;
    if is_null w1 then Ret where2
    else
      w2 ← operand where2 false;
      if is_null w2 then Ret where1
      else
        t1 ← lp_type where1;
        _ ← c_assert (bool_decide (t1 = LP_WHERE));
        t2 ← lp_type where2;
        _ ← c_assert (bool_decide (t2 = LP_WHERE));
        set_operand where1 false (Op LP_BOOLEAN_AND w1 w2).

Definition lp_join_plans (a b : LogicalPlan) (type : LPActionType) : LogicalPlan :=
  if is_null a then b
  else if is_null b then a
  else Op LP_SET_OPERATION (Op LP_SET_OPTION (malloc_lp type) NULL) (Op LP_PLANS a b).

(** [value] is the copy [lp_copy_plan] makes of the caller's plan. *)
Definition lp_opt_fix_key_to_const (keys : key_store) (key : ptr) (value : LogicalPlan)
    : outcome (key_store * bool) :=
  match keys !! key with
  | None => Undef NullPointer
  | Some k =>
      if bool_decide (k_type k = LP_KEY_ADVANCE) &&
         bool_decide (k_cross_reference_output_key k = null) then
        Ret (<[key := {| k_table := k_table k; k_column := k_column k; k_key_num := k_key_num k;
                         k_unique_id := k_unique_id k; k_value := value; k_insert := k_insert k;
                         k_type := LP_KEY_FIX; k_owner := k_owner k;
                         k_is_cross_reference_key := k_is_cross_reference_key k;
                         k_cross_reference_output_key := k_cross_reference_output_key k;
                         k_cross_reference_column_alias := k_cross_reference_column_alias k;
                         k_cross_reference_filename := k_cross_reference_filename k |}]> keys, true)
      else Ret (keys, false)
  end.

(** ** [lp_verify_structure] *)
(** The alternatives the code lists for the operands of an expression, in its
    order (LP_BOOLEAN_GREATER_THAN is there twice). *)
Definition expression_types : list LPActionType :=
  [LP_ADDITION; LP_SUBTRACTION; LP_DIVISION; LP_MULTIPLICATION; LP_CONCAT; LP_BOOLEAN_OR;
   LP_BOOLEAN_AND; LP_BOOLEAN_IS; LP_BOOLEAN_EQUALS; LP_BOOLEAN_NOT_EQUALS;
   LP_BOOLEAN_LESS_THAN; LP_BOOLEAN_GREATER_THAN; LP_BOOLEAN_LESS_THAN_OR_EQUALS;
   LP_BOOLEAN_GREATER_THAN; LP_BOOLEAN_REGEX_SENSITIVE; LP_BOOLEAN_REGEX_INSENSITIVE;
   LP_BOOLEAN_IN; LP_BOOLEAN_NOT_IN].
Definition left_operand_types : list LPActionType :=
  expression_types ++
  [LP_BOOLEAN_NOT; LP_NEGATIVE; LP_FORCE_NUM; LP_COLUMN_ALIAS; LP_COLUMN_LIST;
   LP_COLUMN_LIST_ALIAS; LP_FUNCTION_CALL; LP_DERIVED_COLUMN; LP_CASE; LP_WHERE; LP_VALUE].
Definition right_operand_types : list LPActionType :=
  expression_types ++
  [LP_BOOLEAN_NOT; LP_NEGATIVE; LP_FORCE_NUM; LP_COLUMN_ALIAS; LP_COLUMN_LIST;
   LP_COLUMN_LIST_ALIAS; LP_FUNCTION_CALL; LP_INSERT; LP_SET_OPERATION; LP_DERIVED_COLUMN;
   LP_KEY; LP_CASE; LP_WHERE; LP_VALUE].
Definition unary_operand_types : list LPActionType :=
  expression_types ++
  [LP_COLUMN_ALIAS; LP_COLUMN_LIST_ALIAS; LP_FUNCTION_CALL; LP_DERIVED_COLUMN; LP_VALUE].
Definition set_types : list LPActionType :=
  [LP_SET_UNION; LP_SET_UNION_ALL; LP_SET_EXCEPT; LP_SET_EXCEPT_ALL; LP_SET_INTERSECT;
   LP_SET_INTERSECT_ALL].

(** What the switch asks of the operands of a node of the expected type. *)
Inductive shape :=
  | SNone                                   (* nothing to check *)
  | SOperands (l r : list LPActionType)     (* each operand NULL or one of the types *)
  | SFirst (l : list LPActionType)          (* only the first is looked at *)
  | SBoth (l r : list LPActionType)         (* ... and neither may be NULL *)
  | SNeedFirst (l r : list LPActionType)    (* ... the first may not be NULL *)
  | SList (l r : list LPActionType)         (* NULL first operand: second NULL too *)
  | SUnary (l : list LPActionType)          (* the second operand is NULL *)
  | SKey (fixed : bool)                     (* LP_KEY_FIX, LP_KEY_ADVANCE *)
  | SInvalid.
Definition shape_of (expected : LPActionType) : shape :=
  match expected with
  | LP_INSERT => SOperands [LP_PROJECT] [LP_OUTPUT]
  | LP_OUTPUT => SFirst [LP_KEY]
  | LP_SET_OPERATION => SOperands [LP_SET_OPTION] [LP_PLANS]
  | LP_SET_OPTION => SFirst set_types
  | LP_PLANS => SOperands [LP_INSERT; LP_SET_OPERATION] [LP_INSERT; LP_SET_OPERATION]
  | LP_TABLE => SNone
  | LP_PROJECT => SOperands [LP_COLUMN_LIST] [LP_SELECT]
  | LP_SELECT => SBoth [LP_TABLE_JOIN] [LP_CRITERIA]
  | LP_OUTER_JOIN | LP_TABLE_JOIN =>
      SList [LP_TABLE; LP_INSERT; LP_SET_OPERATION] [LP_TABLE_JOIN]
  | LP_CRITERIA => SNeedFirst [LP_KEYS] [LP_SELECT_OPTIONS]
  | LP_KEYS => SList [LP_KEY] [LP_KEY; LP_KEYS]
  | LP_KEY => SNone
  | LP_KEY_FIX => SKey true
  | LP_KEY_ADVANCE => SKey false
  | LP_SELECT_OPTIONS => SOperands [LP_WHERE] [LP_KEYWORDS]
  | LP_KEYWORDS => SNone
  | LP_SET_UNION | LP_SET_INTERSECT | LP_SET_EXCEPT | LP_SET_UNION_ALL
  | LP_SET_INTERSECT_ALL | LP_SET_EXCEPT_ALL => SNone
  | LP_ADDITION | LP_SUBTRACTION | LP_DIVISION | LP_MULTIPLICATION | LP_CONCAT
  | LP_BOOLEAN_OR | LP_BOOLEAN_AND | LP_BOOLEAN_IS | LP_BOOLEAN_EQUALS
  | LP_BOOLEAN_NOT_EQUALS | LP_BOOLEAN_LESS_THAN | LP_BOOLEAN_GREATER_THAN
  | LP_BOOLEAN_LESS_THAN_OR_EQUALS | LP_BOOLEAN_GREATER_THAN_OR_EQUALS
  | LP_BOOLEAN_REGEX_SENSITIVE | LP_BOOLEAN_REGEX_INSENSITIVE | LP_BOOLEAN_IN
  | LP_BOOLEAN_NOT_IN | LP_WHERE | LP_CASE_STATEMENT | LP_CASE_BRANCH_STATEMENT
  | LP_COLUMN_LIST => SOperands left_operand_types right_operand_types
  | LP_FORCE_NUM | LP_NEGATIVE | LP_BOOLEAN_NOT => SUnary unary_operand_types
  | LP_COLUMN_ALIAS | LP_DERIVED_COLUMN | LP_PIECE_NUMBER | LP_VALUE
  | LP_COLUMN_LIST_ALIAS => SNone
  | LP_FUNCTION_CALL => SOperands [LP_VALUE] [LP_COLUMN_LIST]
  | LP_CASE => SOperands [LP_CASE_STATEMENT] [LP_CASE_BRANCH]
  | LP_CASE_BRANCH => SOperands [LP_CASE_BRANCH_STATEMENT] [LP_CASE_BRANCH]
  | LP_INVALID_ACTION => SInvalid
  end.

(** [f(t1) | f(t2) | ...]: every alternative is evaluated. *)
Fixpoint any_of (f : LPActionType → outcome bool) (ts : list LPActionType) : outcome bool :=
  match ts with
  | [] => Ret false
  | t :: ts' => b ← f t; b' ← any_of f ts'; Ret (b || b')
  end.

(** The checks of LP_KEY_FIX and LP_KEY_ADVANCE on [operand[0]->v.key]. *)
Definition check_key (keys : key_store) (fixed : bool) (a b : LogicalPlan) : outcome bool :=
  if is_null a then Ret false
  else if negb (is_null b) then Ret false
  else
    k ← lp_key a;
    if k =? null then Ret false
    else match keys !! k with
    | None => Undef NullPointer
    | Some key =>
        if fixed then Ret (negb (is_null (k_value key)))
        else if negb (is_null (k_value key)) then Ret false
        else Ret (negb (k_column key =? null))
    end.

Fixpoint lp_verify_structure_helper (keys : key_store) (plan : LogicalPlan)
    (expected : LPActionType) {struct plan} : outcome bool :=
  match plan with
  | NULL => Ret true
  | Leaf t _ =>
      if decide (t ≠ expected) then Ret false
      else match shape_of expected with
      | SNone => Ret true
      | SInvalid => Halt AssertFailed
      | _ => Undef WrongMember
      end
  | Op t a b =>
      if decide (t ≠ expected) then Ret false
      else
        let left ts := any_of (lp_verify_structure_helper keys a) ts in
        let right ts := any_of (lp_verify_structure_helper keys b) ts in
        match shape_of expected with
        | SNone => Ret true
        | SOperands l r => x ← left l; y ← right r; Ret (x && y)
        | SFirst l => left l
        | SBoth l r =>
            if is_null a || is_null b then Ret false
            else x ← left l; y ← right r; Ret (x && y)
        | SNeedFirst l r =>
            if is_null a then Ret false else x ← left l; y ← right r; Ret (x && y)
        | SList l r =>
            if is_null a then Ret (is_null b) else x ← left l; y ← right r; Ret (x && y)
        | SUnary l => x ← left l; Ret (x && is_null b)
        | SKey fixed => check_key keys fixed a b
        | SInvalid => Halt AssertFailed
        end
  end.

Definition lp_verify_structure (keys : key_store) (plan : LogicalPlan) : outcome bool :=
  t ← lp_type plan;
  if decide (t ≠ LP_INSERT ∧ t ≠ LP_SET_OPERATION) then Ret false
  else lp_verify_structure_helper keys plan t.
