(* ===== verification/LogicalPlanTheorems.v ===== *)
(** * Structure of logical plans: the check, the accessors, the editors *)
From stdpp Require Import gmap.
From S2P Require Import Prelude LogicalPlan.

Implicit Types (keys : key_store) (p q a b : LogicalPlan) (t : LPActionType).

(** ** The check *)
Lemma any_of_true f ts : any_of f ts = Ret true → ∃ t, t ∈ ts ∧ f t = Ret true.
Proof.
  induction ts as [|t ts IH]; cbn [any_of]; [done|]. intros H.
  apply bind_ret_inv in H as (x & Hx & H). apply bind_ret_inv in H as (y & Hy & [= H]).
  destruct x; [exists t; split; [left|done]|]. cbn in H. subst y.
  destruct (IH Hy) as (t' & ? & ?). exists t'. split; [by right|done].
Qed.
Lemma any_of_single f t : any_of f [t] = Ret true → f t = Ret true.
Proof. intros (t' & Ht & H)%any_of_true. by apply list_elem_of_singleton in Ht as ->. Qed.
Lemma any_of_intro f ts t :
  t ∈ ts → f t = Ret true → (∀ t', t' ∈ ts → returns (f t')) → any_of f ts = Ret true.
Proof.
  intros Ht Hf Hall.
  assert (Hr : ∀ us, (∀ t', t' ∈ us → returns (f t')) → returns (any_of f us)).
  { induction us as [|u us IH]; intros Hu; cbn [any_of]; [by eexists|].
    destruct (Hu u) as [x ->]; [left|]. destruct IH as [y ->]; [set_solver|]. by eexists. }
  induction ts as [|u us IH]; [by apply elem_of_nil in Ht|]. cbn [any_of].
  destruct (Hall u (list_elem_of_here _ _)) as [x Hx]. rewrite Hx.
  destruct (Hr us) as [y Hy]; [intros t' Ht'; apply Hall; by right|]. rewrite Hy. cbn [mbind outcome_bind].
  apply elem_of_cons in Ht as [Ht|Ht]; [subst u|].
  - assert (x = true) as -> by congruence. done.
  - rewrite IH in Hy by set_solver. injection Hy as <-. by rewrite orb_true_r.
Qed.

(** A node of another type is refused at once. *)
Lemma verify_wrong_type keys p t t' :
  lp_type p = Ret t' → t' ≠ t → lp_verify_structure_helper keys p t = Ret false.
Proof. destruct p; intros [= ->] Ht; cbn; by rewrite decide_True. Qed.
Lemma verify_null keys t : lp_verify_structure_helper keys NULL t = Ret true.
Proof. done. Qed.
Lemma verify_type keys p t :
  lp_verify_structure_helper keys p t = Ret true → p = NULL ∨ lp_type p = Ret t.
Proof.
  destruct p as [|t' a b|t' v]; [by left| |]; intros H; right; cbn [lp_type];
    destruct (decide (t' = t)) as [->|Hn]; try done;
    by rewrite (verify_wrong_type keys _ t t') in H.
Qed.

Lemma verify_op keys a b t l r : shape_of t = SOperands l r →
  lp_verify_structure_helper keys (Op t a b) t =
  (x ← any_of (lp_verify_structure_helper keys a) l;
   y ← any_of (lp_verify_structure_helper keys b) r; Ret (x && y)).
Proof. intros E. cbn [lp_verify_structure_helper]. rewrite decide_False by auto. by rewrite E. Qed.

(** The operands of a node that passed. *)
Lemma verify_operands keys a b t l r :
  shape_of t = SOperands l r ∨ shape_of t = SBoth l r ∨ shape_of t = SNeedFirst l r ∨
  (shape_of t = SList l r ∧ a ≠ NULL) →
  lp_verify_structure_helper keys (Op t a b) t = Ret true →
  any_of (lp_verify_structure_helper keys a) l = Ret true ∧
  any_of (lp_verify_structure_helper keys b) r = Ret true.
Proof.
  intros Hs H. cbn [lp_verify_structure_helper] in H. rewrite decide_False in H by auto.
  assert (H' : (x ← any_of (lp_verify_structure_helper keys a) l;
                y ← any_of (lp_verify_structure_helper keys b) r; Ret (x && y)) = Ret true).
  { destruct Hs as [E|[E|[E|[E Ha]]]]; rewrite E in H; [done| | |].
    - by destruct (is_null a || is_null b).
    - by destruct (is_null a).
    - by destruct a. }
  apply bind_ret_inv in H' as (x & -> & H'). apply bind_ret_inv in H' as (y & -> & [= H']).
  by apply andb_true_iff in H' as [-> ->].
Qed.

Lemma verify_child_type keys p t : any_of (lp_verify_structure_helper keys p) [t] = Ret true →
  p ≠ NULL → lp_type p = Ret t ∧ lp_verify_structure_helper keys p t = Ret true.
Proof. intros H%any_of_single Hp. by destruct (verify_type keys p t H). Qed.

(** A verified child fetched with [GET_LP]: the assertion holds. *)
Lemma get_lp_ok a b tp (side : bool) t : let c := if side then b else a in
  lp_type c = Ret t → get_lp (Op tp a b) side t = Ret c.
Proof. cbn. intros H. unfold get_lp. cbn. rewrite H. cbn. by rewrite bool_decide_true. Qed.

(** Nodes of the interior types that passed hold operands. *)
Lemma verify_is_op keys p t :
  lp_verify_structure_helper keys p t = Ret true → p ≠ NULL →
  (match shape_of t with SNone | SInvalid => false | _ => true end) = true →
  ∃ a b, p = Op t a b.
Proof.
  intros H Hn Hs. destruct p as [|t' a b|t' v]; [done| |].
  - destruct (verify_type _ _ _ H) as [|E]; [done|]. injection E as ->. eauto.
  - cbn in H. case_decide; [done|]. by destruct (shape_of t).
Qed.

(** The parts a plan must have for the accessors: nothing on the path is NULL. *)
Record complete_insert (plan project sel criteria options : LogicalPlan) : Prop := {
  ci_project : operand plan false = Ret project;
  ci_select : operand project true = Ret sel;
  ci_criteria : operand sel true = Ret criteria;
  ci_options : operand criteria true = Ret options;
  ci_columns : ∃ c, operand project false = Ret c ∧ c ≠ NULL;
  ci_where : ∃ w, operand options false = Ret w ∧ w ≠ NULL;
  ci_keywords : ∃ w, operand options true = Ret w ∧ w ≠ NULL;
  ci_nonnull : project ≠ NULL ∧ sel ≠ NULL ∧ criteria ≠ NULL ∧ options ≠ NULL;
}.

(** In a plan that [lp_verify_structure] passed and whose parts are present,
    the assertions of the accessors hold: each [lp_get_*] returns a node of the
    type it is named for. *)
Theorem verified_accessors keys plan project sel criteria options :
  lp_verify_structure keys plan = Ret true → lp_type plan = Ret LP_INSERT →
  complete_insert plan project sel criteria options →
  lp_get_project plan = Ret project ∧ lp_get_select plan = Ret sel ∧
  lp_get_criteria plan = Ret criteria ∧
  (∃ k, lp_get_keys plan = Ret k ∧ lp_type k = Ret LP_KEYS) ∧
  (∃ j, lp_get_table_join plan = Ret j ∧ lp_type j = Ret LP_TABLE_JOIN) ∧
  (∃ c, lp_get_projection_columns plan = Ret c ∧ lp_type c = Ret LP_COLUMN_LIST) ∧
  (∃ w, lp_get_select_where plan = Ret w ∧ lp_type w = Ret LP_WHERE) ∧
  (∃ k, lp_get_select_keywords plan = Ret k ∧ lp_type k = Ret LP_KEYWORDS).
Proof.
  intros Hv Ht [Hp Hs Hc Ho [cl [Hcl Hcl']] [w [Hw Hw']] [kw [Hk Hk']] (H1 & H2 & H3 & H4)].
  unfold lp_verify_structure in Hv. rewrite Ht in Hv. cbn in Hv.
  rewrite decide_False in Hv by (intros []; done).
  destruct plan as [|t pr out|]; try done. injection Ht as ->. injection Hp as ->.
  destruct (verify_operands _ _ _ LP_INSERT [LP_PROJECT] [LP_OUTPUT] (or_introl eq_refl) Hv) as [Vp _].
  apply verify_child_type in Vp as [Tp Vp]; [|done].
  destruct project as [|? a b|]; try done. injection Tp as ->. injection Hs as ->. injection Hcl as ->.
  destruct (verify_operands _ _ _ LP_PROJECT [LP_COLUMN_LIST] [LP_SELECT] (or_introl eq_refl) Vp) as [Vcl Vs].
  apply verify_child_type in Vs as [Ts Vs]; [|done]. apply verify_child_type in Vcl as [Tcl _]; [|done].
  destruct sel as [|? j c|]; try done. injection Ts as ->. injection Hc as ->.
  destruct (verify_operands _ _ _ LP_SELECT [LP_TABLE_JOIN] [LP_CRITERIA]
    (or_intror (or_introl eq_refl)) Vs) as [Vj Vc].
  assert (Hj : j ≠ NULL) by (intros ->; cbn in Vs; discriminate).
  apply verify_child_type in Vj as [Tj _]; [|done]. apply verify_child_type in Vc as [Tc Vc]; [|done].
  destruct criteria as [|? ks o|]; try done. injection Tc as ->. injection Ho as ->.
  destruct (verify_operands _ _ _ LP_CRITERIA [LP_KEYS] [LP_SELECT_OPTIONS]
    (or_intror (or_intror (or_introl eq_refl))) Vc) as [Vk Vo].
  assert (Hks : ks ≠ NULL) by (intros ->; cbn in Vc; discriminate).
  apply verify_child_type in Vk as [Tk _]; [|done]. apply verify_child_type in Vo as [To Vo]; [|done].
  destruct options as [|? w0 k0|]; try done. injection To as ->. injection Hw as ->. injection Hk as ->.
  destruct (verify_operands _ _ _ LP_SELECT_OPTIONS [LP_WHERE] [LP_KEYWORDS] (or_introl eq_refl) Vo) as [Vw Vkw].
  apply verify_child_type in Vw as [Tw _]; [|done]. apply verify_child_type in Vkw as [Tkw _]; [|done].
  unfold lp_get_project, lp_get_select_where, lp_get_select_keywords, lp_get_table_join,
    lp_get_projection_columns, lp_get_keys, lp_get_criteria, lp_get_select.
  repeat (rewrite ?get_lp_ok by done; cbn [mbind outcome_bind lp_type c_assert]).
  split_and!; try done; eauto.
Qed.

(** The plan of [SELECT c FROM t WHERE <cond>]. *)
Definition sample_plan (cond : LogicalPlan) : LogicalPlan :=
  Op LP_INSERT
    (Op LP_PROJECT (Op LP_COLUMN_LIST (Op LP_WHERE (Leaf LP_COLUMN_ALIAS (VColumnAlias 11)) NULL) NULL)
      (Op LP_SELECT (Op LP_TABLE_JOIN (Leaf LP_TABLE (VTableAlias 12)) NULL)
        (Op LP_CRITERIA (Op LP_KEYS NULL NULL)
          (Op LP_SELECT_OPTIONS (Op LP_WHERE cond NULL) (Leaf LP_KEYWORDS (VKeywords 13))))))
    (Op LP_OUTPUT (Leaf LP_KEY (VKey 14)) NULL).
Definition comparison (t : LPActionType) : LogicalPlan :=
  Op t (Leaf LP_COLUMN_ALIAS (VColumnAlias 11)) (Leaf LP_VALUE (VValue 15)).

Lemma verified_accessors_witness :
  ∃ w, lp_get_select_where (sample_plan (comparison LP_BOOLEAN_LESS_THAN)) = Ret w ∧
       lp_type w = Ret LP_WHERE.
Proof.
  eapply (verified_accessors ∅ (sample_plan (comparison LP_BOOLEAN_LESS_THAN)));
    [vm_compute; reflexivity|reflexivity|].
  split; try reflexivity; try (eexists; split; [reflexivity|discriminate]).
  split_and!; discriminate.
Defined.

(** The list of expression types in [lp_verify_structure] has
    LP_BOOLEAN_GREATER_THAN twice and LP_BOOLEAN_GREATER_THAN_OR_EQUALS nowhere, so
    no WHERE whose condition is a [>=] passes, while the same plan with [<] does:
    a query with [>=] is refused as a plan that is not well formed. *)
Theorem verify_rejects_greater_or_equals keys a b rest :
  lp_verify_structure_helper keys
    (Op LP_WHERE (Op LP_BOOLEAN_GREATER_THAN_OR_EQUALS a b) rest) LP_WHERE ≠ Ret true ∧
  lp_verify_structure ∅ (sample_plan (comparison LP_BOOLEAN_GREATER_THAN_OR_EQUALS)) = Ret false ∧
  lp_verify_structure ∅ (sample_plan (comparison LP_BOOLEAN_LESS_THAN)) = Ret true.
Proof.
  split; [|split; vm_compute; reflexivity]. intros H.
  destruct (verify_operands keys (Op LP_BOOLEAN_GREATER_THAN_OR_EQUALS a b) rest LP_WHERE
    left_operand_types right_operand_types (or_introl eq_refl) H) as [Hl _].
  apply any_of_true in Hl as (t & Ht & Hv). apply verify_type in Hv as [Hv|Hv]; [done|].
  injection Hv as <-. revert Ht. apply (bool_decide_unpack (_ ∉ _)). vm_compute. exact I.
Qed.

(** ** Joining plans *)
Lemma lp_join_plans_op a b t : a ≠ NULL → b ≠ NULL →
  lp_join_plans a b t = Op LP_SET_OPERATION (Op LP_SET_OPTION (malloc_lp t) NULL) (Op LP_PLANS a b).
Proof. by destruct a, b. Qed.

Lemma verify_two keys p t1 t2 tp :
  lp_type p = Ret tp → (tp = t1 ∨ tp = t2) → t1 ≠ t2 →
  lp_verify_structure_helper keys p tp = Ret true →
  any_of (lp_verify_structure_helper keys p) [t1; t2] = Ret true.
Proof.
  intros Ht Hor Hne Hv. cbn [any_of]. destruct Hor as [-> | ->]; rewrite Hv;
    [rewrite (verify_wrong_type keys p t2 t1)|rewrite (verify_wrong_type keys p t1 t2)]; done.
Qed.

(** Joining two verified plans with a set operator gives a verified set
    operation, and its first insert and output key are those of the first plan. *)
Theorem lp_join_plans_verified keys a b t :
  lp_verify_structure keys a = Ret true → lp_verify_structure keys b = Ret true → t ∈ set_types →
  lp_verify_structure keys (lp_join_plans a b t) = Ret true ∧
  lp_drill_to_insert (lp_join_plans a b t) = lp_drill_to_insert a ∧
  lp_get_output_key (lp_join_plans a b t) = lp_get_output_key a.
Proof.
  intros Ha Hb Ht.
  assert (Hroot : ∀ p, lp_verify_structure keys p = Ret true →
    any_of (lp_verify_structure_helper keys p) [LP_INSERT; LP_SET_OPERATION] = Ret true ∧ p ≠ NULL).
  { intros p Hp. destruct (lp_type p) as [tp| | |] eqn:Et; unfold lp_verify_structure in Hp;
      rewrite Et in Hp; try done. cbn in Hp.
    split; [|by intros ->]. destruct (decide _) as [|Hn]; [done|].
    apply (verify_two keys p _ _ tp); [done| |done|done].
    destruct (decide (tp = LP_INSERT)); [by left|]. right. apply dec_stable. tauto. }
  destruct (Hroot a Ha) as [Va Na]. destruct (Hroot b Hb) as [Vb Nb].
  rewrite lp_join_plans_op by done. split; [|done].
  unfold lp_verify_structure. cbn [lp_type mbind outcome_bind].
  rewrite decide_False by (intros [_ ?]; done).
  rewrite (verify_op keys _ _ LP_SET_OPERATION [LP_SET_OPTION] [LP_PLANS] eq_refl).
  assert (Hopt : any_of (lp_verify_structure_helper keys (Op LP_SET_OPTION (malloc_lp t) NULL))
    [LP_SET_OPTION] = Ret true).
  { unfold set_types in Ht. repeat (apply elem_of_cons in Ht as [->|Ht]; [done|]). by apply elem_of_nil in Ht. }
  assert (Hplans : any_of (lp_verify_structure_helper keys (Op LP_PLANS a b)) [LP_PLANS] = Ret true).
  { cbn [any_of].
    by rewrite (verify_op keys a b LP_PLANS _ _ eq_refl), Va, Vb. }
  by rewrite Hopt, Hplans.
Qed.

Lemma lp_join_plans_verified_witness :
  lp_verify_structure ∅ (lp_join_plans (sample_plan (comparison LP_BOOLEAN_LESS_THAN))
    (sample_plan (comparison LP_BOOLEAN_EQUALS)) LP_SET_UNION_ALL) = Ret true.
Proof.
  apply (lp_join_plans_verified ∅ (sample_plan (comparison LP_BOOLEAN_LESS_THAN))
    (sample_plan (comparison LP_BOOLEAN_EQUALS)) LP_SET_UNION_ALL);
    [vm_compute; reflexivity|vm_compute; reflexivity|].
  apply (bool_decide_unpack (_ ∈ _)). vm_compute. exact I.
Defined.

(** ** The key list *)
(** LP_KEYS nodes holding the keys in order; one empty node for no keys. *)
Fixpoint keys_chain (l : list LogicalPlan) : LogicalPlan :=
  match l with
  | [] => Op LP_KEYS NULL NULL
  | k :: l' => Op LP_KEYS k (match l' with [] => NULL | _ => keys_chain l' end)
  end.
Definition is_key (p : LogicalPlan) : Prop := ∃ k, p = Leaf LP_KEY (VKey k).

Lemma append_key_chain k0 l k : append_key (keys_chain (k0 :: l)) k = Ret (keys_chain (k0 :: l ++ [k])).
Proof.
  revert k0. induction l as [|k1 l IH]; intros k0; [done|].
  specialize (IH k1). change (keys_chain (k0 :: (k1 :: l) ++ [k])) with
    (Op LP_KEYS k0 (keys_chain (k1 :: l ++ [k]))).
  change (append_key (keys_chain (k0 :: k1 :: l)) k) with
    (b' ← append_key (keys_chain (k1 :: l)) k; Ret (Op LP_KEYS k0 b')).
  by rewrite IH.
Qed.

Lemma insert_into_keys_chain l k : Forall is_key l →
  insert_into_keys (keys_chain l) k = Ret (keys_chain (l ++ [k])).
Proof.
  destruct l as [|k0 l]; intros Hl; [done|]. apply Forall_cons_iff in Hl as [[x ->] _].
  apply append_key_chain.
Qed.

Lemma verify_keys_chain keys l : Forall is_key l →
  lp_verify_structure_helper keys (keys_chain l) LP_KEYS = Ret true.
Proof.
  induction l as [|k0 l IH]; intros Hl; [done|]. apply Forall_cons_iff in Hl as [[x ->] Hl].
  specialize (IH Hl). destruct l as [|k1 l]; [done|].
  change (keys_chain (Leaf LP_KEY (VKey x) :: k1 :: l))
    with (Op LP_KEYS (Leaf LP_KEY (VKey x)) (keys_chain (k1 :: l))).
  set (c := keys_chain (k1 :: l)) in *.
  assert (E : any_of (lp_verify_structure_helper keys c) [LP_KEY; LP_KEYS] = Ret true).
  { cbn [any_of]. rewrite IH, (verify_wrong_type keys c LP_KEY LP_KEYS); done. }
  cbn [lp_verify_structure_helper]. rewrite decide_False by auto. cbn [shape_of is_null]. by rewrite E.
Qed.

(** Replacing an operand by one the check cannot tell apart. *)
Definition verify_same keys p q : Prop :=
  is_null p = is_null q ∧
  ∀ t, lp_verify_structure_helper keys p t = lp_verify_structure_helper keys q t.
#[local] Instance verify_same_refl keys : Reflexive (verify_same keys).
Proof. done. Qed.

Lemma any_of_ext f g ts : (∀ t, f t = g t) → any_of f ts = any_of g ts.
Proof. intros H. induction ts as [|t ts IH]; cbn [any_of]; [done|]. by rewrite H, IH. Qed.

Lemma verify_same_op keys t a b a' b' :
  (∀ fixed, shape_of t ≠ SKey fixed) → verify_same keys a a' → verify_same keys b b' →
  verify_same keys (Op t a b) (Op t a' b').
Proof.
  intros Hs (N1 & V1) (N2 & V2). split; [done|].
  intros t'. cbn [lp_verify_structure_helper].
  destruct (decide (t = t')) as [<-|Hn]; [|by rewrite !decide_True].
  rewrite !decide_False by auto.
  assert (E1 : ∀ l, any_of (lp_verify_structure_helper keys a) l =
                    any_of (lp_verify_structure_helper keys a') l) by (intros; by apply any_of_ext).
  assert (E2 : ∀ l, any_of (lp_verify_structure_helper keys b) l =
                    any_of (lp_verify_structure_helper keys b') l) by (intros; by apply any_of_ext).
  destruct (shape_of t) eqn:Es; try done; rewrite ?N1, ?N2, ?E1; try done;
    try (destruct (any_of (lp_verify_structure_helper keys a') l); cbn; by rewrite ?E2).
  by destruct (Hs fixed).
Qed.

Lemma verify_same_keys keys l k : Forall is_key l → is_key k →
  verify_same keys (keys_chain l) (keys_chain (l ++ [k])).
Proof.
  intros Hl Hk. assert (Hlk : Forall is_key (l ++ [k])) by (apply Forall_app; by auto).
  assert (Ht : ∀ m, lp_type (keys_chain m) = Ret LP_KEYS) by (by intros []).
  split; [by destruct l|]. intros t. destruct (decide (LP_KEYS = t)) as [<-|Hn].
  - by rewrite !verify_keys_chain.
  - by rewrite !(verify_wrong_type keys _ t LP_KEYS).
Qed.

Lemma get_lp_inv p side t c : get_lp p side t = Ret c →
  ∃ t' a b, p = Op t' a b ∧ c = (if side then b else a) ∧ lp_type c = Ret t.
Proof.
  unfold get_lp. destruct p as [|t' a b|]; try done. cbn.
  destruct (lp_type _) as [ct| | |] eqn:E; try done. cbn. unfold c_assert.
  case_bool_decide; [|done]. intros [= <-]. subst. by exists t', a, b.
Qed.

Lemma lp_get_keys_inv plan ks : lp_get_keys plan = Ret ks →
  ∃ t cols j opts out, plan = Op t (Op LP_PROJECT cols
    (Op LP_SELECT j (Op LP_CRITERIA ks opts))) out ∧ lp_type ks = Ret LP_KEYS.
Proof.
  unfold lp_get_keys. intros (p1 & (t0 & a0 & out & -> & -> & T1)%get_lp_inv & H)%bind_ret_inv.
  apply bind_ret_inv in H as (p2 & (t1 & cols & ? & -> & -> & T2)%get_lp_inv & H).
  apply bind_ret_inv in H as (p3 & (t2 & j & ? & -> & -> & T3)%get_lp_inv & H).
  apply get_lp_inv in H as (t3 & ? & opts & -> & -> & T4).
  injection T1 as ->. injection T2 as ->. injection T3 as ->. by exists t0, cols, j, opts, out.
Qed.

(** [lp_insert_key] appends: the plan's keys are the old ones followed by the
    new one, every other part of the plan is unchanged, and the structure check
    gives the same answer as before. *)
Theorem lp_insert_key_appends keys plan l k :
  lp_get_keys plan = Ret (keys_chain l) → Forall is_key l → is_key k →
  ∃ plan', lp_insert_key plan k = Ret plan' ∧
    lp_get_keys plan' = Ret (keys_chain (l ++ [k])) ∧
    lp_get_table_join plan' = lp_get_table_join plan ∧
    lp_get_select_where plan' = lp_get_select_where plan ∧
    lp_get_projection_columns plan' = lp_get_projection_columns plan ∧
    lp_verify_structure keys plan' = lp_verify_structure keys plan.
Proof.
  intros Hg Hl Hk. destruct (lp_get_keys_inv _ _ Hg) as (t & cols & j & opts & out & -> & _).
  assert (Ht : ∀ m, lp_type (keys_chain m) = Ret LP_KEYS) by (by intros []).
  unfold lp_insert_key.
  do 3 (rewrite get_lp_ok by done; cbn [mbind outcome_bind]).
  rewrite get_lp_ok by apply Ht. cbn [mbind outcome_bind].
  rewrite insert_into_keys_chain by done. cbn [mbind outcome_bind set_operand].
  eexists; split; [done|]. split.
  { unfold lp_get_keys. do 3 (rewrite get_lp_ok by done; cbn [mbind outcome_bind]).
    apply get_lp_ok, Ht. }
  do 3 (split; [done|]). unfold lp_verify_structure. cbn [lp_type mbind outcome_bind].
  case_decide as Hd; [done|]. symmetry.
  assert (Hns : ∀ fixed, shape_of t ≠ SKey fixed).
  { intros fixed Hs. destruct t; cbn in Hs; try done; by destruct Hd. }
  apply verify_same_op; [done|repeat (apply verify_same_op; [done| |]); try done|done].
  by apply verify_same_keys.
Qed.

Lemma lp_insert_key_appends_witness :
  ∃ plan', lp_insert_key (sample_plan NULL) (Leaf LP_KEY (VKey 21)) = Ret plan' ∧
    lp_get_keys plan' = Ret (keys_chain [Leaf LP_KEY (VKey 21)]) ∧
    lp_get_table_join plan' = lp_get_table_join (sample_plan NULL) ∧
    lp_get_select_where plan' = lp_get_select_where (sample_plan NULL) ∧
    lp_get_projection_columns plan' = lp_get_projection_columns (sample_plan NULL) ∧
    lp_verify_structure ∅ plan' = lp_verify_structure ∅ (sample_plan NULL).
Proof.
  apply (lp_insert_key_appends ∅ (sample_plan NULL) [] (Leaf LP_KEY (VKey 21)));
    [reflexivity|constructor|by eexists].
Defined.
