(* ===== verification/Dnf.v ===== *)
(** * Negations and disjunctive normal form

    [optimization_transforms/lp_make_normal_disjunctive_form.c]: pushing NOT into
    a condition and turning an AND of two ORs into an OR of ANDs, after which the
    optimizer runs one plan per disjunct.  The condition is a tree when it comes
    in; the clauses of the result share the subtrees they have in common, and
    nothing writes into a shared one, so the model copies freely. *)
From stdpp Require Import gmap.
From S2P Require Import Prelude LogicalPlan.

(** ** [lp_apply_not] *)
(** "regex calls, or anything like a function call or columns ref" *)
Definition protected (t : LPActionType) : bool :=
  bool_decide (t = LP_BOOLEAN_REGEX_SENSITIVE) || bool_decide (t = LP_BOOLEAN_REGEX_INSENSITIVE) ||
  bool_decide (t = LP_BOOLEAN_IS) || (lp_action_value t <? lp_action_value LP_ADDITION).

(** The cases of the switch that only change the type. *)
Definition invert_type (t : LPActionType) : option LPActionType :=
  match t with
  | LP_BOOLEAN_EQUALS => Some LP_BOOLEAN_NOT_EQUALS
  | LP_BOOLEAN_NOT_EQUALS => Some LP_BOOLEAN_EQUALS
  | LP_BOOLEAN_LESS_THAN => Some LP_BOOLEAN_GREATER_THAN_OR_EQUALS
  | LP_BOOLEAN_GREATER_THAN => Some LP_BOOLEAN_LESS_THAN_OR_EQUALS
  | LP_BOOLEAN_LESS_THAN_OR_EQUALS => Some LP_BOOLEAN_GREATER_THAN
  | LP_BOOLEAN_GREATER_THAN_OR_EQUALS => Some LP_BOOLEAN_LESS_THAN
  | LP_BOOLEAN_IN => Some LP_BOOLEAN_NOT_IN
  | LP_BOOLEAN_NOT_IN => Some LP_BOOLEAN_IN
  | _ => None
  end.

Fixpoint lp_apply_not (root : LogicalPlan) (count : Z) : outcome LogicalPlan :=
  match root with
  | NULL => Undef NullPointer
  | Leaf t v =>
      if decide (t = LP_BOOLEAN_NOT) then Undef WrongMember
      else if count mod 2 =? 1 then
        match t with
        | LP_BOOLEAN_OR | LP_BOOLEAN_AND => Undef WrongMember
        | _ => match invert_type t with Some t' => Ret (Leaf t' v) | None => Halt AssertFailed end
        end
      else Ret root
  | Op t a b =>
      if decide (t = LP_BOOLEAN_NOT) then
        ta ← lp_type a;
        if protected ta then Ret root else lp_apply_not a (count + 1)
      else if count mod 2 =? 1 then
        match t with
        | LP_BOOLEAN_OR =>
            a' ← lp_apply_not a count; b' ← lp_apply_not b count; Ret (Op LP_BOOLEAN_AND a' b')
        | LP_BOOLEAN_AND =>
            a' ← lp_apply_not a count; b' ← lp_apply_not b count; Ret (Op LP_BOOLEAN_OR a' b')
        | _ => match invert_type t with Some t' => Ret (Op t' a b) | None => Halt AssertFailed end
        end
      else Ret root
  end.

(** ** [lp_make_normal_disjunctive_form] *)
Definition is_or (t : LPActionType) : bool := bool_decide (t = LP_BOOLEAN_OR).

(** One turn of the inner loop: the conjunction it builds and its [boolean_type]. *)
Definition pair_item (l r : LogicalPlan) : outcome (LogicalPlan * LPActionType) :=
  lt ← lp_type l;
  next_l ← (if is_or lt then operand l false else Ret l);
  rt ← lp_type r;
  next_r ← (if is_or rt then operand r false else Ret r);
  let boolean_type := if negb (is_or lt) && negb (is_or rt) then LP_BOOLEAN_AND
                      else LP_BOOLEAN_OR in
  Ret (Op LP_BOOLEAN_AND next_l next_r, boolean_type).

(** [do { ... if(r->type != LP_BOOLEAN_OR) break; r = r->v.operand[1]; } while(r);] *)
Fixpoint inner_loop (l r : LogicalPlan) : outcome (list (LogicalPlan * LPActionType)) :=
  item ← pair_item l r;
  match r with
  | Op LP_BOOLEAN_OR _ NULL => Ret [item]
  | Op LP_BOOLEAN_OR _ r1 => rest ← inner_loop l r1; Ret (item :: rest)
  | _ => Ret [item]
  end.
Fixpoint outer_loop (l right : LogicalPlan) : outcome (list (LogicalPlan * LPActionType)) :=
  items ← inner_loop l right;
  match l with
  | Op LP_BOOLEAN_OR _ NULL => Ret items
  | Op LP_BOOLEAN_OR _ l1 => rest ← outer_loop l1 right; Ret (items ++ rest)
  | _ => Ret items
  end.

(** The list the loops grow through [cur]: each turn fills the node the previous
    one made and hangs an empty node of its own [boolean_type] behind it. *)
Fixpoint chain (node_type : LPActionType) (items : list (LogicalPlan * LPActionType))
    : LogicalPlan :=
  match items with
  | [] => malloc_lp node_type
  | (lp, boolean_type) :: rest => Op node_type lp (chain boolean_type rest)
  end.
Definition build (items : list (LogicalPlan * LPActionType)) : LogicalPlan :=
  match items with [] => NULL | (_, boolean_type) :: _ => chain boolean_type items end.

(** "Promote the last item": the empty node at the end goes away. *)
Definition ends_here (p : LogicalPlan) : outcome bool :=
  if is_null p then Ret true else first ← operand p false; Ret (is_null first).
Fixpoint promote_last (prev : LogicalPlan) : outcome LogicalPlan :=
  match prev with
  | Op t a ((Op _ a' next) as cur) =>
      stop ← ends_here next;
      if (stop : bool) then Ret (Op t a a') else cur' ← promote_last cur; Ret (Op t a cur')
  | Op _ _ (Leaf _ _) => Undef WrongMember
  | _ => Undef NullPointer
  end.
Definition promote (ret : LogicalPlan) : outcome LogicalPlan :=
  second ← operand ret true;
  stop ← ends_here second;
  if (stop : bool) then operand ret false else promote_last ret.

Fixpoint dnf (fuel : nat) (root : LogicalPlan) : outcome LogicalPlan :=
  match fuel with
  | O => NoFuel
  | S fuel' =>
      if is_null root then Ret root
      else
        root ← lp_apply_not root 0;
        t ← lp_type root;
        if decide (t ≠ LP_BOOLEAN_AND ∧ t ≠ LP_BOOLEAN_OR) then Ret root
        else
          a ← operand root false;
          left ← dnf fuel' a;
          b ← operand root true;
          right ← dnf fuel' b;
          if decide (t ≠ LP_BOOLEAN_AND) then Ret (Op t left right)
          else items ← outer_loop left right; promote (build items)
  end.

(** Each call is on an operand of a tree no larger than the one before. *)
Fixpoint lp_size (p : LogicalPlan) : nat :=
  match p with NULL | Leaf _ _ => 1 | Op _ a b => S (lp_size a + lp_size b) end.
Definition lp_make_normal_disjunctive_form (root : LogicalPlan) : outcome LogicalPlan :=
  dnf (lp_size root) root.

(** ** What a condition means

    The interpretation of everything below the connectives is the client's; the
    comparisons that [lp_apply_not] exchanges must be complements. *)
Class Conditions := {
  test : LPActionType → LogicalPlan → LogicalPlan → bool;
  test_leaf : LPActionType → leaf → bool;
  test_not_equals a b :
    test LP_BOOLEAN_NOT_EQUALS a b = negb (test LP_BOOLEAN_EQUALS a b);
  test_greater_or_equals a b :
    test LP_BOOLEAN_GREATER_THAN_OR_EQUALS a b = negb (test LP_BOOLEAN_LESS_THAN a b);
  test_less_or_equals a b :
    test LP_BOOLEAN_LESS_THAN_OR_EQUALS a b = negb (test LP_BOOLEAN_GREATER_THAN a b);
  test_not_in a b : test LP_BOOLEAN_NOT_IN a b = negb (test LP_BOOLEAN_IN a b);
}.

(** A missing condition holds. *)
Fixpoint holds `{Conditions} (p : LogicalPlan) : bool :=
  match p with
  | NULL => true
  | Leaf t v => test_leaf t v
  | Op LP_BOOLEAN_AND a b => holds a && holds b
  | Op LP_BOOLEAN_OR a b => holds a || holds b
  | Op LP_BOOLEAN_NOT a _ => negb (holds a)
  | Op t a b => test t a b
  end.

Lemma test_invert `{Conditions} t t' a b :
  invert_type t = Some t' → test t' a b = negb (test t a b).
Proof.
  destruct t; intros [= <-];
    rewrite ?test_not_equals, ?test_greater_or_equals, ?test_less_or_equals, ?test_not_in,
      ?negb_involutive; done.
Qed.

(** The conditions the transformation is right for: [odd] is the parity of the
    negations above.  NOT over a regex, IS or a value stays where it is, so an odd
    number of negations may not reach it; under an odd number only connectives and
    invertible comparisons may occur. *)
Fixpoint negatable (odd : bool) (p : LogicalPlan) : bool :=
  match p with
  | NULL => false
  | Leaf t _ =>
      negb odd && negb (bool_decide (t ∈ [LP_BOOLEAN_NOT; LP_BOOLEAN_AND; LP_BOOLEAN_OR]))
  | Op LP_BOOLEAN_NOT a _ =>
      match lp_type a with
      | Ret ta => if protected ta then negb odd else negatable (negb odd) a
      | _ => false
      end
  | Op LP_BOOLEAN_AND a b | Op LP_BOOLEAN_OR a b => negatable odd a && negatable odd b
  | Op t _ _ => negb odd || bool_decide (invert_type t ≠ None)
  end.
