(* ===== verification/DnfTheorems.v ===== *)
(** * Disjunctive normal form keeps the meaning of a condition *)
From stdpp Require Import gmap.
From S2P Require Import Prelude LogicalPlan LogicalPlanTheorems Dnf.

(** ** [lp_apply_not] *)
Lemma odd_step count : ((count + 1) mod 2 =? 1) = negb (count mod 2 =? 1).
Proof.
  pose proof (Z.mod_pos_bound count 2 ltac:(lia)).
  rewrite Z.add_mod by lia. assert (count mod 2 = 0 ∨ count mod 2 = 1) as [-> | ->] by lia; done.
Qed.

(** The types [lp_apply_not] and [dnf] treat apart. *)
Definition connective (t : LPActionType) : bool :=
  bool_decide (t ∈ [LP_BOOLEAN_NOT; LP_BOOLEAN_AND; LP_BOOLEAN_OR]).

Lemma negatable_other odd t a b : connective t = false →
  negatable odd (Op t a b) = negb odd || bool_decide (invert_type t ≠ None).
Proof. by destruct t. Qed.
Lemma holds_other `{Conditions} t a b : connective t = false → holds (Op t a b) = test t a b.
Proof. by destruct t. Qed.
Lemma invert_connective t t' : invert_type t = Some t' → connective t = false ∧ connective t' = false.
Proof. by destruct t; intros [= <-]. Qed.

(** What [lp_apply_not] leaves: every NOT at the top is over something protected. *)
Definition settled (p : LogicalPlan) : Prop :=
  ∀ a b, p = Op LP_BOOLEAN_NOT a b → ∃ ta, lp_type a = Ret ta ∧ protected ta = true.

Lemma lp_apply_not_even p count :
  (count mod 2 =? 1) = false → (∀ a b, p ≠ Op LP_BOOLEAN_NOT a b) → p ≠ NULL →
  (∀ v, p ≠ Leaf LP_BOOLEAN_NOT v) → lp_apply_not p count = Ret p.
Proof.
  intros Hc Hn Hnull Hl. destruct p as [|t a b|t v]; [done| |]; cbn [lp_apply_not].
  - rewrite decide_False by (intros ->; by destruct (Hn a b)). by rewrite Hc.
  - rewrite decide_False by (intros ->; by destruct (Hl v)). by rewrite Hc.
Qed.

(** What [lp_apply_not] does to [p] under [count] negations. *)
Definition apply_not_ok (p : LogicalPlan) (count : Z) : Prop :=
  negatable (count mod 2 =? 1) p = true →
  ∃ q, lp_apply_not p count = Ret q ∧ negatable false q = true ∧ settled q ∧
    (lp_size q ≤ lp_size p)%nat ∧
    ∀ C : Conditions, holds q = xorb (count mod 2 =? 1) (holds p).

Lemma connective_case t t' a b count :
  (t = LP_BOOLEAN_AND ∧ t' = LP_BOOLEAN_OR) ∨ (t = LP_BOOLEAN_OR ∧ t' = LP_BOOLEAN_AND) →
  apply_not_ok a count → apply_not_ok b count → apply_not_ok (Op t a b) count.
Proof.
  unfold apply_not_ok. intros Ht IHa IHb Hn. destruct (count mod 2 =? 1) eqn:Eo.
  - assert (negatable true a = true ∧ negatable true b = true) as [Ha Hb]
      by (apply andb_true_iff; by destruct Ht as [[-> ->]|[-> ->]]).
    destruct (IHa Ha) as (qa & Ea & Na & _ & Za & Ma).
    destruct (IHb Hb) as (qb & Eb & Nb & _ & Zb & Mb). exists (Op t' qa qb).
    destruct Ht as [[-> ->]|[-> ->]]; cbn [lp_apply_not];
      (rewrite decide_False, Eo, Ea, Eb by done; split; [done|];
       split; [cbn [negatable]; by rewrite Na, Nb|]; split; [by intros ??|];
       split; [cbn; lia|]; intros C; cbn [holds]; rewrite Ma, Mb, !xorb_true_l).
    + by rewrite negb_andb.
    + by rewrite negb_orb.
  - exists (Op t a b). split; [apply lp_apply_not_even; destruct Ht as [[-> ->]|[-> ->]]; done|].
    split; [done|]. split; [destruct Ht as [[-> ->]|[-> ->]]; by intros ??|].
    split; [done|]. intros C. symmetry; apply xorb_false_l.
Qed.

Lemma lp_apply_not_spec p count : apply_not_ok p count.
Proof.
  revert count. induction p as [|t a IHa b IHb|t v]; intros count; [done| |].
  - destruct (connective t) eqn:Ec.
    + apply bool_decide_eq_true_1 in Ec.
      repeat (apply elem_of_cons in Ec as [->|Ec]); [| | |by apply elem_of_nil in Ec].
      * (* NOT *)
        intros Hn. cbn [negatable] in Hn. cbn [lp_apply_not]. rewrite decide_True by done.
        destruct (lp_type a) as [ta| | |] eqn:Ta; try done. cbn [mbind outcome_bind].
        destruct (protected ta) eqn:Ep.
        { apply negb_true_iff in Hn. rewrite Hn. eexists; split; [done|].
          split; [cbn [negatable]; by rewrite Ta, Ep|].
          split; [intros ?? [= <- <-]; eauto|]. split; [done|]. intros ?. symmetry; apply xorb_false_l. }
        rewrite <- odd_step in Hn. destruct (IHa _ Hn) as (q & -> & Hq & Hs & Hz & Hh).
        exists q. split; [done|]. split; [done|]. split; [done|]. split; [cbn; lia|].
        intros ?. rewrite Hh, odd_step. change (holds (Op LP_BOOLEAN_NOT a b)) with (negb (holds a)). by rewrite <- negb_xorb_l, negb_xorb_r.
      * (* AND *) apply (connective_case _ LP_BOOLEAN_OR); eauto.
      * (* OR *) apply (connective_case _ LP_BOOLEAN_AND); eauto.
    + (* a comparison or a value *)
      intros Hn. rewrite negatable_other in Hn by done.
      assert (t ≠ LP_BOOLEAN_NOT) by (by intros ->).
      destruct (count mod 2 =? 1) eqn:Eo; cbn [negb orb] in Hn.
      * apply bool_decide_eq_true_1 in Hn. destruct (invert_type t) as [t'|] eqn:Ei; [|done].
        destruct (invert_connective _ _ Ei) as [_ Ec']. exists (Op t' a b).
        split; [cbn [lp_apply_not]; rewrite decide_False, Eo by done; by destruct t; rewrite ?Ei|].
        split; [by rewrite negatable_other|]. split; [by intros ?? [= -> _ _]|]. split; [done|].
        intros ?. rewrite !holds_other, (test_invert _ _ _ _ Ei) by done. done.
      * exists (Op t a b). split; [by apply lp_apply_not_even; naive_solver|].
        split; [by rewrite negatable_other|]. split; [by intros ?? [= -> _ _]|]. split; [done|].
        intros ?. symmetry; apply xorb_false_l.
  - intros Hn. cbn [negatable] in Hn. apply andb_true_iff in Hn as [Ho Ht]. apply negb_true_iff in Ho. rewrite Ho.
    exists (Leaf t v). split.
    { apply lp_apply_not_even; [done|done|done|]. intros w [= -> _]. by vm_compute in Ht. }
    split; [done|]. split; [by intros ??|]. split; [done|]. intros ?. symmetry; apply xorb_false_l.
Qed.

(** ** The product of two lists of clauses *)
(** The clauses of a condition: its right spine of ORs. *)
Fixpoint terms (p : LogicalPlan) : list LogicalPlan :=
  match p with Op LP_BOOLEAN_OR a r => a :: terms r | _ => [p] end.
Fixpoint spine (p : LogicalPlan) : bool :=
  match p with
  | NULL => false
  | Op LP_BOOLEAN_OR _ r => spine r
  | Op _ _ _ => true
  | Leaf t _ => negb (is_or t)
  end.
Definition clause_head (p : LogicalPlan) : LogicalPlan :=
  match p with Op LP_BOOLEAN_OR a _ => a | _ => p end.
Definition or_node (p : LogicalPlan) : bool :=
  match p with Op LP_BOOLEAN_OR _ _ => true | _ => false end.
Fixpoint products (ls rs : list LogicalPlan) : list LogicalPlan :=
  match ls with [] => [] | l :: ls' => (Op LP_BOOLEAN_AND l <$> rs) ++ products ls' rs end.
Fixpoint or_chain (ps : list LogicalPlan) : LogicalPlan :=
  match ps with
  | [] => NULL
  | [p] => p
  | p :: ps' => Op LP_BOOLEAN_OR p (or_chain ps')
  end.

Lemma spine_cases p : spine p = true →
  (∃ a r, p = Op LP_BOOLEAN_OR a r ∧ spine r = true) ∨
  (or_node p = false ∧ terms p = [p] ∧ clause_head p = p ∧ p ≠ NULL ∧
   ∃ t, lp_type p = Ret t ∧ is_or t = false).
Proof.
  destruct p as [|t a r|t v]; [done| |]; intros H.
  - destruct (decide (t = LP_BOOLEAN_OR)) as [->|Hn]; [left; by exists a, r|right].
    assert (is_or t = false) by (by apply bool_decide_eq_false).
    split_and!; try (by destruct t). by exists t.
  - right. split_and!; try done. exists t. split; [done|]. by apply negb_true_iff.
Qed.

(** Each turn but the last of a walk makes an OR; the last one is [last]. *)
Definition labelled (last : LPActionType) (items : list (LogicalPlan * LPActionType)) : Prop :=
  ∃ xs y, items = xs ++ [y] ∧ Forall (λ i, i.2 = LP_BOOLEAN_OR) xs ∧ y.2 = last.

Lemma pair_item_spine l r : spine l = true → spine r = true →
  pair_item l r = Ret (Op LP_BOOLEAN_AND (clause_head l) (clause_head r),
    if or_node l || or_node r then LP_BOOLEAN_OR else LP_BOOLEAN_AND).
Proof.
  intros Hl Hr. unfold pair_item.
  destruct (spine_cases l Hl) as [(a & l1 & -> & _)|(Nl & _ & Cl & _ & tl & Tl & Ol)];
  destruct (spine_cases r Hr) as [(c & r1 & -> & _)|(Nr & _ & Cr & _ & tr & Tr & Or)];
    rewrite ?Tl, ?Tr, ?Cl, ?Cr, ?Nl, ?Nr; cbn [mbind outcome_bind lp_type];
    rewrite ?Ol, ?Or; cbn [mbind outcome_bind]; rewrite ?Tr; cbn [mbind outcome_bind]; by rewrite ?Or.
Qed.

Lemma inner_loop_spec l r : spine l = true → spine r = true →
  ∃ items, inner_loop l r = Ret items ∧
    items.*1 = Op LP_BOOLEAN_AND (clause_head l) <$> terms r ∧
    labelled (if or_node l then LP_BOOLEAN_OR else LP_BOOLEAN_AND) items.
Proof.
  intros Hl. induction r as [|t a _ r IH|t v]; intros Hr; [done| |].
  - destruct (decide (t = LP_BOOLEAN_OR)) as [->|Hn].
    + destruct (IH Hr) as (items & Hi & Hf & xs & y & -> & Hxs & Hy).
      pose proof (pair_item_spine l (Op LP_BOOLEAN_OR a r) Hl Hr) as Hp.
      rewrite orb_true_r in Hp. eexists. split.
      { destruct r as [| |]; [done| |]; cbn [inner_loop] in *; rewrite Hp; cbn [mbind outcome_bind]; by rewrite Hi. }
      split; [cbn [fmap list_fmap terms fst]; by rewrite Hf|].
      eexists (_ :: xs), y. split; [done|]. split; [by constructor|done].
    + pose proof (pair_item_spine l (Op t a r) Hl Hr) as Hp. eexists. split.
      { cbn [inner_loop]. rewrite Hp. cbn [mbind outcome_bind]. by destruct t. }
      split; [by destruct t|]. eexists [], _. split; [done|]. split; [constructor|].
      cbn [snd]. destruct t; try done; by rewrite orb_false_r.
  - pose proof (pair_item_spine l (Leaf t v) Hl Hr) as Hp. eexists. split; [cbn [inner_loop]; by rewrite Hp|].
    split; [done|]. eexists [], _. split; [done|]. split; [constructor|]. cbn. by rewrite orb_false_r.
Qed.

Lemma outer_loop_spec l r : spine l = true → spine r = true →
  ∃ items, outer_loop l r = Ret items ∧ items.*1 = products (terms l) (terms r) ∧
    labelled LP_BOOLEAN_AND items.
Proof.
  intros Hl Hr. induction l as [|t a _ l IH|t v]; [done| |].
  - destruct (inner_loop_spec (Op t a l) r Hl Hr) as (its & Hi & Hf & xs & y & -> & Hxs & Hy).
    destruct (decide (t = LP_BOOLEAN_OR)) as [->|Hn].
    + destruct (IH Hl) as (items & Ho & Hf' & xs' & y' & -> & Hxs' & Hy'). eexists. split.
      { destruct l as [| |]; [done| |]; cbn [outer_loop] in *; rewrite Hi; cbn [mbind outcome_bind]; by rewrite Ho. }
      split; [rewrite fmap_app, Hf, Hf'; done|].
      exists ((xs ++ [y]) ++ xs'), y'. split; [by rewrite (app_assoc _ xs' [_])|]. split; [|done].
      rewrite !Forall_app. split_and!; [done|by constructor|done].
    + eexists. split; [cbn [outer_loop]; rewrite Hi; by destruct t|].
      split; [rewrite Hf; destruct t; try done; cbn [terms products]; by rewrite app_nil_r|].
      exists xs, y. split; [done|]. split; [done|]. by destruct t.
  - destruct (inner_loop_spec (Leaf t v) r Hl Hr) as (its & Hi & Hf & xs & y & -> & Hxs & Hy).
    eexists. split; [cbn [outer_loop]; by rewrite Hi|].
    split; [rewrite Hf; cbn [terms products]; by rewrite app_nil_r|]. by exists xs, y.
Qed.

(** ** Promoting the last item *)
Lemma chain_cons t x xs y : ∃ n, chain t (x :: xs ++ [y]) = Op t x.1 n ∧ n = chain x.2 (xs ++ [y]).
Proof. destruct x. by eexists. Qed.

Lemma ends_here_chain t xs y :
  Forall (λ i, i.1 ≠ NULL) (xs ++ [y]) → ends_here (chain t (xs ++ [y])) = Ret false.
Proof.
  destruct xs as [|x xs]; cbn [app]; intros H; apply Forall_cons_iff in H as [H _].
  - destruct y as [[]]; done.
  - destruct x as [[]]; done.
Qed.

Lemma promote_last_chain p xs y :
  Forall (λ i, i.1 ≠ NULL) (xs ++ [y]) → Forall (λ i, i.2 = LP_BOOLEAN_OR) xs →
  promote_last (Op LP_BOOLEAN_OR p (chain LP_BOOLEAN_OR (xs ++ [y]))) =
    Ret (Op LP_BOOLEAN_OR p (or_chain ((xs ++ [y]).*1))).
Proof.
  revert p. induction xs as [|x xs IH]; intros p Hn Ho.
  - by destruct y as [q t].
  - apply Forall_cons_iff in Ho as [Hx Ho]. cbn [app] in Hn. apply Forall_cons_iff in Hn as [Hxn Hn].
    destruct x as [q t]. cbn in Hx. subst t.
    change (chain LP_BOOLEAN_OR (((q, LP_BOOLEAN_OR) :: xs) ++ [y]))
      with (Op LP_BOOLEAN_OR q (chain LP_BOOLEAN_OR (xs ++ [y]))).
    specialize (IH q Hn Ho). cbn [promote_last] in *. rewrite ends_here_chain by done.
    cbn [mbind outcome_bind]. rewrite IH. cbn [mbind outcome_bind].
    cbn [app fmap list_fmap]. destruct xs as [|[] xs]; done.
Qed.

Lemma promote_build items :
  labelled LP_BOOLEAN_AND items → Forall (λ i, i.1 ≠ NULL) items →
  promote (build items) = Ret (or_chain (items.*1)).
Proof.
  intros (xs & y & -> & Ho & Hy) Hn. destruct xs as [|[q t] xs].
  - by destruct y.
  - apply Forall_cons_iff in Ho as [Hx Ho]. cbn [app] in Hn. apply Forall_cons_iff in Hn as [Hxn Hn].
    cbn in Hx. subst t. unfold promote, build. cbn [app chain operand mbind outcome_bind].
    rewrite ends_here_chain by done. cbn [mbind outcome_bind]. rewrite promote_last_chain by done.
    cbn [fmap list_fmap fst]. by destruct xs as [|[] xs].
Qed.

(** ** Meaning *)
Lemma holds_terms `{Conditions} p : holds p = existsb holds (terms p).
Proof.
  induction p as [|t a _ r IH|t v]; [done| |cbn; by rewrite orb_false_r].
  destruct t; cbn [terms existsb]; try by rewrite orb_false_r. cbn [holds]. by rewrite IH.
Qed.
Lemma holds_and_all `{Conditions} l rs :
  existsb holds (Op LP_BOOLEAN_AND l <$> rs) = holds l && existsb holds rs.
Proof.
  induction rs as [|r rs IH]; cbn [fmap list_fmap existsb]; [by rewrite andb_false_r|].
  rewrite IH. cbn [holds]. by rewrite andb_orb_distrib_r.
Qed.
Lemma holds_products `{Conditions} ls rs :
  existsb holds (products ls rs) = existsb holds ls && existsb holds rs.
Proof.
  induction ls as [|l ls IH]; cbn [products existsb]; [done|].
  by rewrite existsb_app, holds_and_all, IH, andb_orb_distrib_l.
Qed.
Lemma products_ands ls rs : Forall (λ p, ∃ a b, p = Op LP_BOOLEAN_AND a b) (products ls rs).
Proof.
  induction ls as [|l ls IH]; cbn [products]; [constructor|]. apply Forall_app. split; [|done].
  apply Forall_fmap, Forall_true. intros r. by exists l, r.
Qed.
Lemma or_chain_terms ps :
  ps ≠ [] → Forall (λ p, ∃ a b, p = Op LP_BOOLEAN_AND a b) ps →
  terms (or_chain ps) = ps ∧ spine (or_chain ps) = true.
Proof.
  induction ps as [|p ps IH]; intros Hne Hf; [done|]. apply Forall_cons_iff in Hf as [(a & b & ->) Hf].
  destruct ps as [|p' ps]; [done|]. destruct (IH ltac:(done) Hf) as [Ht Hs].
  change (or_chain (Op LP_BOOLEAN_AND a b :: p' :: ps))
    with (Op LP_BOOLEAN_OR (Op LP_BOOLEAN_AND a b) (or_chain (p' :: ps))).
  split; [cbn [terms]; by rewrite Ht|done].
Qed.
Lemma terms_nonempty p : terms p ≠ [].
Proof. destruct p as [|t ? ?|]; [done| |done]. by destruct t. Qed.
Lemma products_nonempty ls rs : ls ≠ [] → rs ≠ [] → products ls rs ≠ [].
Proof. by destruct ls, rs. Qed.

(** The combination of two normal forms. *)
Lemma combine_spec l r : spine l = true → spine r = true →
  (items ← outer_loop l r; promote (build items)) = Ret (or_chain (products (terms l) (terms r))) ∧
  terms (or_chain (products (terms l) (terms r))) = products (terms l) (terms r) ∧
  spine (or_chain (products (terms l) (terms r))) = true.
Proof.
  intros Hl Hr. destruct (outer_loop_spec l r Hl Hr) as (items & -> & Hf & Hlab).
  cbn [mbind outcome_bind]. pose proof (products_ands (terms l) (terms r)) as Ha.
  assert (Hne : products (terms l) (terms r) ≠ []) by (apply products_nonempty; apply terms_nonempty).
  rewrite promote_build; [|done|].
  - rewrite Hf. split; [done|]. by apply or_chain_terms.
  - rewrite <- Hf in Ha. rewrite Forall_fmap in Ha. eapply Forall_impl; [|exact Ha].
    intros i (a & b & E) E'. cbn in E. by rewrite E' in E.
Qed.

Lemma dnf_spec n p : (lp_size p ≤ n)%nat → negatable false p = true →
  ∃ q, dnf n p = Ret q ∧ spine q = true ∧ ∀ C : Conditions, holds q = holds p.
Proof.
  revert p. induction n as [|n IH]; intros p Hn Hp; [by destruct p; cbn in Hn; lia|].
  assert (Hnull : is_null p = false) by (by destruct p). cbn [dnf]. rewrite Hnull.
  destruct (lp_apply_not_spec p 0 Hp) as (q & -> & Hq & _ & Hz & Hh). cbn [mbind outcome_bind].
  change (0 mod 2 =? 1) with false in Hh.
  assert (Hh' : ∀ C : Conditions, holds q = holds p) by (intros C; rewrite Hh; apply xorb_false_l).
  clear Hh Hp Hnull. destruct q as [|t a b|t v]; [done| |].
  2:{ cbn [lp_type mbind outcome_bind]. cbn [negatable] in Hq. apply andb_true_iff in Hq as [_ Ht].
      apply negb_true_iff, bool_decide_eq_false_1 in Ht.
      rewrite decide_True by (split; intros ->; apply Ht; set_solver).
      eexists. split; [done|]. split; [|done]. cbn. apply negb_true_iff, bool_decide_eq_false.
      intros ->. apply Ht. set_solver. }
  cbn [lp_type mbind outcome_bind]. destruct (decide _) as [[Ha Ho]|Hd].
  { eexists. split; [done|]. split; [by destruct t|done]. }
  assert (Hab : negatable false a = true ∧ negatable false b = true).
  { apply andb_true_iff. destruct t; try done; exfalso; apply Hd; split; done. }
  destruct Hab as [Na Nb]. cbn [operand mbind outcome_bind]. cbn [lp_size] in Hz.
  destruct (IH a ltac:(lia) Na) as (l & -> & Sl & Ml). cbn [mbind outcome_bind].
  destruct (IH b ltac:(lia) Nb) as (r & -> & Sr & Mr). cbn [mbind outcome_bind].
  destruct (decide (t = LP_BOOLEAN_AND)) as [->|Ht].
  - rewrite decide_False by auto. destruct (combine_spec l r Sl Sr) as (-> & Ht & Hs).
    eexists. split; [done|]. split; [done|]. intros C. rewrite <- Hh'. cbn [holds].
    by rewrite holds_terms, Ht, holds_products, <- !holds_terms, Ml, Mr.
  - rewrite decide_True by done. assert (t = LP_BOOLEAN_OR) as -> by (apply dec_stable; tauto).
    eexists. split; [done|]. split; [done|]. intros C. rewrite <- Hh'. cbn [holds]. by rewrite Ml, Mr.
Qed.

(** C21: For every condition without a doubly negated regex, IS or value,
    [lp_make_normal_disjunctive_form] returns a condition with the same truth value
    in every row, whatever the comparisons mean, as long as those that negation
    exchanges are complements.  The recursion ends: the size of the condition is
    fuel enough. *)
Theorem dnf_preserves_meaning p :
  negatable false p = true →
  ∃ q, lp_make_normal_disjunctive_form p = Ret q ∧ ∀ C : Conditions, holds q = holds p.
Proof.
  intros Hp. destruct (dnf_spec (lp_size p) p (le_n _) Hp) as (q & Hq & _ & Hh). by exists q.
Qed.

Definition is_null_value (n : Z) : LogicalPlan := Op LP_BOOLEAN_IS (Leaf LP_VALUE (VValue n)) NULL.
Definition less (n : Z) : LogicalPlan :=
  Op LP_BOOLEAN_LESS_THAN (Leaf LP_COLUMN_ALIAS (VColumnAlias n)) (Leaf LP_VALUE (VValue n)).
Definition sample_condition : LogicalPlan :=
  Op LP_BOOLEAN_AND (Op LP_BOOLEAN_OR (less 1) (Op LP_BOOLEAN_NOT (is_null_value 2) NULL))
    (Op LP_BOOLEAN_NOT (Op LP_BOOLEAN_AND (less 3) (less 4)) NULL).

Lemma dnf_preserves_meaning_witness :
  ∃ q, lp_make_normal_disjunctive_form sample_condition = Ret q ∧
       ∀ C : Conditions, holds q = holds sample_condition.
Proof. apply (dnf_preserves_meaning sample_condition). reflexivity. Defined.

(** ** The clauses are the product of the clauses *)
Lemma dnf_more_fuel n p q : dnf n p = Ret q → dnf (S n) p = Ret q.
Proof.
  revert p q. induction n as [|n IH]; intros p q; [done|].
  intros H. cbn [dnf] in H. change (dnf (S (S n)) p) with
    (if is_null p then Ret p else
      root ← lp_apply_not p 0; t ← lp_type root;
      if decide (t ≠ LP_BOOLEAN_AND ∧ t ≠ LP_BOOLEAN_OR) then Ret root else
      a ← operand root false; left ← dnf (S n) a; b ← operand root true; right ← dnf (S n) b;
      if decide (t ≠ LP_BOOLEAN_AND) then Ret (Op t left right)
      else items ← outer_loop left right; promote (build items)).
  destruct (is_null p); [done|].
  apply bind_ret_inv in H as (root & -> & H). apply bind_ret_inv in H as (t & Ht & H).
  cbn [mbind outcome_bind]. rewrite Ht. cbn [mbind outcome_bind].
  destruct (decide _) as [|_]; [done|].
  apply bind_ret_inv in H as (a & -> & H). apply bind_ret_inv in H as (l & Hl & H).
  apply bind_ret_inv in H as (b & Hb & H). apply bind_ret_inv in H as (r & Hr & H).
  apply IH in Hl, Hr. cbn [mbind outcome_bind]. rewrite Hl, Hb. cbn [mbind outcome_bind].
  rewrite Hr. exact H.
Qed.
Lemma dnf_fuel n m p q : (n ≤ m)%nat → dnf n p = Ret q → dnf m p = Ret q.
Proof. induction 1; [done|]. intros. by apply dnf_more_fuel, IHle. Qed.

Lemma dnf_spine n x y : negatable false x = true → dnf n x = Ret y → spine y = true.
Proof.
  intros Nx Ex. destruct (dnf_spec (n + lp_size x) x ltac:(lia) Nx) as (y' & Ey & Sy & _).
  apply (dnf_fuel n (n + lp_size x)) in Ex; [|lia]. congruence.
Qed.

(** The normal form of an AND has exactly one clause per pair of clauses of its
    sides, in order: the clauses of the left outermost. *)
Theorem dnf_and_clauses a b :
  negatable false a = true → negatable false b = true →
  ∃ qa qb q, lp_make_normal_disjunctive_form a = Ret qa ∧
    lp_make_normal_disjunctive_form b = Ret qb ∧
    lp_make_normal_disjunctive_form (Op LP_BOOLEAN_AND a b) = Ret q ∧
    terms q = products (terms qa) (terms qb).
Proof.
  intros Ha Hb. destruct (dnf_spec (lp_size a) a (le_n _) Ha) as (qa & Ea & Sa & _).
  destruct (dnf_spec (lp_size b) b (le_n _) Hb) as (qb & Eb & Sb & _).
  destruct (combine_spec qa qb Sa Sb) as (Ec & Et & _).
  exists qa, qb. eexists. split; [done|]. split; [done|]. split; [|exact Et].
  unfold lp_make_normal_disjunctive_form. cbn [lp_size dnf is_null].
  rewrite lp_apply_not_even by done. cbn [mbind outcome_bind lp_type operand].
  rewrite decide_False by (intros [? _]; done).
  rewrite (dnf_fuel (lp_size a) (lp_size a + lp_size b) a qa) by (done || lia). cbn [mbind outcome_bind].
  rewrite (dnf_fuel (lp_size b) (lp_size a + lp_size b) b qb) by (done || lia). cbn [mbind outcome_bind].
  rewrite decide_False by auto. exact Ec.
Qed.

Lemma dnf_and_clauses_witness :
  ∃ qa qb q, lp_make_normal_disjunctive_form (Op LP_BOOLEAN_OR (less 1) (less 2)) = Ret qa ∧
    lp_make_normal_disjunctive_form (Op LP_BOOLEAN_OR (less 3) (less 4)) = Ret qb ∧
    lp_make_normal_disjunctive_form
      (Op LP_BOOLEAN_AND (Op LP_BOOLEAN_OR (less 1) (less 2)) (Op LP_BOOLEAN_OR (less 3) (less 4))) = Ret q ∧
    terms q = products (terms qa) (terms qb).
Proof.
  apply (dnf_and_clauses (Op LP_BOOLEAN_OR (less 1) (less 2)) (Op LP_BOOLEAN_OR (less 3) (less 4)));
    reflexivity.
Defined.

(** ** When the result is a disjunctive normal form *)
Fixpoint conj_only (p : LogicalPlan) : bool :=
  match p with
  | NULL => false
  | Op LP_BOOLEAN_OR _ _ => false
  | Op LP_BOOLEAN_AND a b => conj_only a && conj_only b
  | _ => true
  end.
Definition is_dnf (p : LogicalPlan) : bool := forallb conj_only (terms p).

(** No disjunction once [odd] negations are pushed in. *)
Fixpoint or_free (odd : bool) (p : LogicalPlan) : bool :=
  match p with
  | Op LP_BOOLEAN_NOT a _ =>
      match lp_type a with
      | Ret ta => if protected ta then true else or_free (negb odd) a
      | _ => false
      end
  | Op LP_BOOLEAN_AND a b => negb odd && or_free odd a && or_free odd b
  | Op LP_BOOLEAN_OR a b => odd && or_free odd a && or_free odd b
  | _ => true
  end.
(** The left side of every disjunction is one clause. *)
Fixpoint right_nested (odd : bool) (p : LogicalPlan) : bool :=
  match p with
  | Op LP_BOOLEAN_NOT a _ =>
      match lp_type a with
      | Ret ta => if protected ta then true else right_nested (negb odd) a
      | _ => false
      end
  | Op LP_BOOLEAN_AND a b =>
      (if odd then or_free odd a else right_nested odd a) && right_nested odd b
  | Op LP_BOOLEAN_OR a b =>
      (if odd then right_nested odd a else or_free odd a) && right_nested odd b
  | _ => true
  end.

Lemma or_free_other odd t a b : connective t = false → or_free odd (Op t a b) = true.
Proof. by destruct t. Qed.
Lemma right_nested_other odd t a b : connective t = false → right_nested odd (Op t a b) = true.
Proof. by destruct t. Qed.

Lemma lp_apply_not_shape p count q :
  lp_apply_not p count = Ret q →
  (or_free (count mod 2 =? 1) p = true → or_free false q = true) ∧
  (right_nested (count mod 2 =? 1) p = true → right_nested false q = true).
Proof.
  revert count q. induction p as [|t a IHa b IHb|t v]; intros count q; [done| |].
  - destruct (connective t) eqn:Ec.
    + apply bool_decide_eq_true_1 in Ec. intros H. cbn [lp_apply_not] in H.
      repeat (apply elem_of_cons in Ec as [->|Ec]); [| | |by apply elem_of_nil in Ec].
      * rewrite decide_True in H by done. apply bind_ret_inv in H as (ta & Ta & H).
        cbn [or_free right_nested]. rewrite Ta. destruct (protected ta) eqn:Ep.
        -- injection H as <-. cbn [or_free right_nested]. by rewrite Ta, Ep.
        -- rewrite <- odd_step. by apply IHa.
      * rewrite decide_False in H by done. destruct (count mod 2 =? 1) eqn:Eo; [|by injection H as <-].
        apply bind_ret_inv in H as (a' & Ha & H). apply bind_ret_inv in H as (b' & Hb & [= <-]).
        destruct (IHa _ _ Ha) as [Fa _], (IHb _ _ Hb) as [_ Rb]. rewrite Eo in *.
        cbn [or_free right_nested]. split; [done|].
        intros [H1 H2]%andb_true_iff. by rewrite Fa, Rb.
      * rewrite decide_False in H by done. destruct (count mod 2 =? 1) eqn:Eo; [|by injection H as <-].
        apply bind_ret_inv in H as (a' & Ha & H). apply bind_ret_inv in H as (b' & Hb & [= <-]).
        destruct (IHa _ _ Ha) as [Fa Ra], (IHb _ _ Hb) as [Fb Rb]. rewrite Eo in *.
        cbn [or_free right_nested negb andb].
        split; intros [H1 H2]%andb_true_iff; [by rewrite Fa, Fb|by rewrite Ra, Rb].
    + intros H. cbn [lp_apply_not] in H. rewrite decide_False in H by (by intros ->).
      assert (∃ t', q = Op t' a b ∧ connective t' = false) as (t' & -> & Ec').
      { destruct (count mod 2 =? 1); [|injection H as <-; eauto].
        destruct (invert_type t) as [t'|] eqn:Ei; [|by destruct t].
        destruct (invert_connective _ _ Ei) as [_ ?]. exists t'. split; [|done].
        destruct t; try done; by injection H as <-. }
      split; intros _; [by apply or_free_other|by apply right_nested_other].
  - intros H. assert (∃ t' v', q = Leaf t' v') as (t' & v' & ->); [|done].
    cbn [lp_apply_not] in H. case_decide; [done|]. destruct (count mod 2 =? 1); [|injection H as <-; eauto].
    destruct t; try done; injection H as <-; eauto.
Qed.

Lemma conj_products ls rs :
  forallb conj_only ls = true → forallb conj_only rs = true → forallb conj_only (products ls rs) = true.
Proof.
  intros Hl Hr. induction ls as [|l ls IH]; [done|]. cbn [forallb] in Hl.
  apply andb_true_iff in Hl as [Hl Hls]. cbn [products]. rewrite forallb_app, IH, andb_true_r by done.
  clear IH Hls. induction rs as [|r rs IH]; [done|]. cbn [forallb] in Hr.
  apply andb_true_iff in Hr as [Hr Hrs]. cbn [fmap list_fmap forallb conj_only]. by rewrite Hl, Hr, IH.
Qed.

(** A condition free of disjunctions becomes one clause. *)
Definition one_clause (p : LogicalPlan) : Prop := terms p = [p] ∧ conj_only p = true.

Lemma dnf_shape n p q :
  negatable false p = true → dnf n p = Ret q → spine q = true →
  (or_free false p = true → one_clause q) ∧ (right_nested false p = true → is_dnf q = true).
Proof.
  revert p q. induction n as [|n IH]; intros p q Hp H Hq; [done|]. cbn [dnf] in H.
  assert (Hnull : is_null p = false) by (by destruct p). rewrite Hnull in H.
  destruct (lp_apply_not_spec p 0 Hp) as (p' & E & Hp' & _ & _ & _). rewrite E in H.
  destruct (lp_apply_not_shape p 0 p' E) as [Ho Hr]. change (0 mod 2 =? 1) with false in Ho, Hr.
  cbn [mbind outcome_bind] in H. clear Hp Hnull E.
  destruct p' as [|t a b|t v]; [done| |].
  2:{ cbn [lp_type mbind outcome_bind] in H. unfold one_clause, is_dnf.
      assert (q = Leaf t v) as -> by (case_decide; [by injection H|done]). done. }
  cbn [lp_type mbind outcome_bind operand] in H. destruct (decide _) as [[Ha Hor]|Hd].
  { injection H as <-. unfold one_clause, is_dnf. by destruct t. }
  apply bind_ret_inv in H as (l & Hl & H). apply bind_ret_inv in H as (r & Hr' & H).
  assert (Hab : negatable false a = true ∧ negatable false b = true).
  { apply andb_true_iff. destruct t; try done; exfalso; apply Hd; split; done. }
  destruct Hab as [Na Nb].
  pose proof (dnf_spine n) as Sp.
  destruct (IH a l Na Hl (Sp _ _ Na Hl)) as [Oa Ra]. destruct (IH b r Nb Hr' (Sp _ _ Nb Hr')) as [Ob Rb].
  destruct (decide (t = LP_BOOLEAN_AND)) as [->|Ht].
  - rewrite decide_False in H by auto.
    destruct (combine_spec l r (Sp _ _ Na Hl) (Sp _ _ Nb Hr')) as (Ec & Et & _).
    rewrite Ec in H. injection H as <-. split; intros Hc.
    + apply Ho in Hc. cbn [or_free negb andb] in Hc. apply andb_true_iff in Hc as [Ca Cb].
      destruct (Oa Ca) as [Tl Cl], (Ob Cb) as [Tr Cr].
      unfold one_clause. rewrite Tl, Tr. cbn [products fmap list_fmap app or_chain terms conj_only].
      by rewrite Cl, Cr.
    + apply Hr in Hc. cbn [right_nested] in Hc. apply andb_true_iff in Hc as [Ca Cb].
      unfold is_dnf. rewrite Et. by apply conj_products; [apply Ra|apply Rb].
  - rewrite decide_True in H by done. assert (t = LP_BOOLEAN_OR) as -> by (apply dec_stable; tauto).
    injection H as <-. split; intros Hc.
    + by apply Ho in Hc.
    + apply Hr in Hc. cbn [right_nested] in Hc. apply andb_true_iff in Hc as [Ca Cb].
      unfold is_dnf. cbn [terms forallb]. destruct (Oa Ca) as [_ ->]. by apply Rb.
Qed.

(** C22: When the left side of every OR is a single clause once negations are
    pushed in, the result is a disjunctive normal form: an OR list of conjunctions
    with no OR inside. *)
Theorem dnf_is_normal p :
  negatable false p = true → right_nested false p = true →
  ∃ q, lp_make_normal_disjunctive_form p = Ret q ∧ is_dnf q = true.
Proof.
  intros Hp Hr. destruct (dnf_spec (lp_size p) p (le_n _) Hp) as (q & Hq & Hs & _).
  exists q. split; [done|]. by apply (dnf_shape (lp_size p) p).
Qed.

Lemma dnf_is_normal_witness :
  ∃ q, lp_make_normal_disjunctive_form sample_condition = Ret q ∧ is_dnf q = true.
Proof. apply (dnf_is_normal sample_condition); reflexivity. Defined.

(** ** Where the transformation goes wrong *)
Definition regex (n : Z) : LogicalPlan :=
  Op LP_BOOLEAN_REGEX_SENSITIVE (Leaf LP_COLUMN_ALIAS (VColumnAlias n)) (Leaf LP_VALUE (VValue n)).
Definition not_plan (p : LogicalPlan) : LogicalPlan := Op LP_BOOLEAN_NOT p NULL.
(** A row in which every [<] and every regex holds. *)
Definition sample_row_conditions : Conditions.
Proof.
  refine {| test := λ t _ _,
              match t with
              | LP_BOOLEAN_EQUALS | LP_BOOLEAN_GREATER_THAN_OR_EQUALS | LP_BOOLEAN_GREATER_THAN
              | LP_BOOLEAN_IN => false
              | _ => true
              end;
            test_leaf := λ _ _, true |}; done.
Defined.

(** Conditions that pass the structure check and that [lp_apply_not] gets wrong
    or stops on.  NOT (x AND NOT (y LIKE r)) keeps its inner NOT although the outer
    one was pushed past it, so a row with x and y LIKE r is lost; NOT (x AND
    y LIKE r) stops the process at an assertion. *)
Theorem apply_not_regex_wrong :
  let p := not_plan (Op LP_BOOLEAN_AND (less 1) (not_plan (regex 2))) in
  lp_verify_structure ∅ (sample_plan p) = Ret true ∧
  (∃ q, lp_make_normal_disjunctive_form p = Ret q ∧
        @holds sample_row_conditions p = true ∧ @holds sample_row_conditions q = false) ∧
  lp_verify_structure ∅ (sample_plan (not_plan (Op LP_BOOLEAN_AND (less 1) (regex 2)))) = Ret true ∧
  lp_make_normal_disjunctive_form (not_plan (Op LP_BOOLEAN_AND (less 1) (regex 2))) =
    Halt AssertFailed.
Proof.
  cbv zeta. split_and!; try (vm_compute; reflexivity).
  eexists. split; [vm_compute; reflexivity|]. by split; vm_compute.
Qed.

(** Without right nesting the result is not the normal form its comment
    promises: ((a OR b) OR c) AND d keeps a disjunction under a conjunction. *)
Theorem dnf_left_nested_not_normal :
  ∃ q, lp_make_normal_disjunctive_form
         (Op LP_BOOLEAN_AND
            (Op LP_BOOLEAN_OR (Op LP_BOOLEAN_OR (less 1) (less 2)) (less 3)) (less 4)) = Ret q ∧
       is_dnf q = false ∧
       q = Op LP_BOOLEAN_OR
             (Op LP_BOOLEAN_AND (Op LP_BOOLEAN_OR (less 1) (less 2)) (less 4))
             (Op LP_BOOLEAN_AND (less 3) (less 4)).
Proof. eexists. split; [vm_compute; reflexivity|]. split; reflexivity. Qed.

(** Normalising can take a plan that passed the structure check to one that
    does not: NOT (a < b) becomes a [>=], which the check before the physical plan
    refuses with a fatal error. *)
Theorem dnf_breaks_verification :
  lp_verify_structure ∅ (sample_plan (not_plan (less 1))) = Ret true ∧
  ∃ q, lp_make_normal_disjunctive_form (not_plan (less 1)) = Ret q ∧
       lp_verify_structure ∅ (sample_plan q) = Ret false.
Proof. split; [vm_compute; reflexivity|]. eexists.
  split; [vm_compute; reflexivity|]. vm_compute. reflexivity.
Qed.

(** ** Joining conditions *)
(** The truth of a LP_WHERE: an absent or empty one holds. *)
Definition where_holds `{Conditions} (w : LogicalPlan) : bool :=
  match w with Op _ c _ => holds c | _ => true end.
Definition is_where (w : LogicalPlan) : Prop := w = NULL ∨ ∃ c r, w = Op LP_WHERE c r.

(** [lp_join_where] always returns for two WHERE nodes, either of which may be
    missing or empty, and the joined WHERE holds exactly when both do. *)
Theorem lp_join_where_and w1 w2 :
  is_where w1 → is_where w2 →
  ∃ w, lp_join_where w1 w2 = Ret w ∧ is_where w ∧
       ∀ C : Conditions, where_holds w = where_holds w1 && where_holds w2.
Proof.
  intros [->|(c1 & r1 & ->)] [->|(c2 & r2 & ->)].
  - exists NULL. split; [done|]. split; [by left|done].
  - exists (Op LP_WHERE c2 r2). split; [done|]. split; [right; eauto|done].
  - exists (Op LP_WHERE c1 r1). split; [done|]. split; [right; eauto|].
    intros C. cbn [where_holds]. by rewrite andb_true_r.
  - destruct (is_null c1) eqn:N1; [|destruct (is_null c2) eqn:N2].
    + destruct c1; try done. exists (Op LP_WHERE c2 r2). split; [done|]. split; [right; eauto|done].
    + destruct c2; try done. exists (Op LP_WHERE c1 r1). split; [by destruct c1|].
      split; [right; eauto|]. intros C. cbn [where_holds holds]. by rewrite andb_true_r.
    + exists (Op LP_WHERE (Op LP_BOOLEAN_AND c1 c2) r1).
      split; [by destruct c1, c2|]. split; [right; eauto|done].
Qed.

Lemma lp_join_where_and_witness :
  ∃ w, lp_join_where (Op LP_WHERE (less 1) NULL) (Op LP_WHERE (regex 2) NULL) = Ret w ∧ is_where w ∧
       ∀ C : Conditions, where_holds w =
         where_holds (Op LP_WHERE (less 1) NULL) && where_holds (Op LP_WHERE (regex 2) NULL).
Proof.
  apply (lp_join_where_and (Op LP_WHERE (less 1) NULL) (Op LP_WHERE (regex 2) NULL));
    right; by do 2 eexists.
Defined.
