(* ===== verification/DnfClauses.v ===== *)
(** * How many clauses a condition has

    The optimiser makes a plan for each disjunct of the normal form and optimises it
    again, so a disjunct that is not a conjunction yet is split further.  What makes this
    end, and what the conditions at the end are made of. *)
From stdpp Require Import gmap.
From S2P Require Import Prelude LogicalPlan LogicalPlanTheorems Dnf DnfTheorems.

(** The clauses of the disjunctive normal form under [odd] negations, all products taken. *)
Fixpoint clauses (odd : bool) (p : LogicalPlan) : nat :=
  match p with
  | Op LP_BOOLEAN_NOT a _ =>
      match lp_type a with
      | Ret ta => if protected ta then 1 else clauses (negb odd) a
      | _ => 1
      end
  | Op LP_BOOLEAN_AND a b => if odd then clauses odd a + clauses odd b else clauses odd a * clauses odd b
  | Op LP_BOOLEAN_OR a b => if odd then clauses odd a * clauses odd b else clauses odd a + clauses odd b
  | _ => 1
  end.
(** Every comparison under the connectives has the property. *)
Fixpoint atoms (Q : LPActionType → LogicalPlan → LogicalPlan → Prop) (p : LogicalPlan) : Prop :=
  match p with
  | Op LP_BOOLEAN_NOT a _ =>
      match lp_type a with
      | Ret ta => if protected ta then True else atoms Q a
      | _ => True
      end
  | Op LP_BOOLEAN_AND a b | Op LP_BOOLEAN_OR a b => atoms Q a ∧ atoms Q b
  | Op t a b => Q t a b
  | Leaf t _ => Q t NULL NULL               (* no operands *)
  | NULL => True
  end.

Lemma clauses_other odd t a b : connective t = false → clauses odd (Op t a b) = 1%nat.
Proof. by destruct t. Qed.
Lemma atoms_other Q t a b : connective t = false → atoms Q (Op t a b) ↔ Q t a b.
Proof. by destruct t. Qed.
Lemma atoms_impl (Q Q' : LPActionType → LogicalPlan → LogicalPlan → Prop) p :
  (∀ t a b, Q t a b → Q' t a b) → atoms Q p → atoms Q' p.
Proof.
  intros HQ. induction p as [|t a IHa b IHb|t v]; [done| |apply HQ].
  destruct (connective t) eqn:Ec; [|rewrite !atoms_other by done; apply HQ].
  apply bool_decide_eq_true_1 in Ec.
  repeat (apply elem_of_cons in Ec as [->|Ec]); cbn [atoms]; [|tauto|tauto|by apply elem_of_nil in Ec].
  by destruct (lp_type a) as [ta| | |]; [destruct (protected ta)|..].
Qed.
Lemma clauses_pos odd p : (1 ≤ clauses odd p)%nat.
Proof.
  revert odd. induction p as [|t a IHa b IHb|t v]; intros odd; [done| |done].
  destruct (connective t) eqn:Ec; [|by rewrite clauses_other].
  apply bool_decide_eq_true_1 in Ec. specialize (IHa odd) as Ha. specialize (IHb odd) as Hb.
  repeat (apply elem_of_cons in Ec as [->|Ec]); cbn [clauses]; [|destruct odd; nia..|by apply elem_of_nil in Ec].
  destruct (lp_type a) as [ta| | |]; [destruct (protected ta); [done|apply IHa]|done..].
Qed.

Section keeps.
Context (Q : LPActionType → LogicalPlan → LogicalPlan → Prop).
(** Negating a comparison does not change what it compares. *)
Context (Q_invert : ∀ t t' a b, invert_type t = Some t' → Q t a b → Q t' a b).

Lemma lp_apply_not_keeps p count q :
  lp_apply_not p count = Ret q →
  clauses false q = clauses (count mod 2 =? 1) p ∧ (atoms Q p → atoms Q q).
Proof.
  revert count q. induction p as [|t a IHa b IHb|t v]; intros count q; [done| |].
  - destruct (connective t) eqn:Ec.
    + apply bool_decide_eq_true_1 in Ec. intros H. cbn [lp_apply_not] in H.
      repeat (apply elem_of_cons in Ec as [->|Ec]); [| | |by apply elem_of_nil in Ec].
      * rewrite decide_True in H by done. apply bind_ret_inv in H as (ta & Ta & H).
        cbn [clauses atoms]. rewrite Ta. destruct (protected ta) eqn:Ep.
        -- injection H as <-. cbn [clauses atoms]. by rewrite Ta, Ep.
        -- rewrite <- odd_step. by apply IHa.
      * rewrite decide_False in H by done. destruct (count mod 2 =? 1) eqn:Eo; [|by injection H as <-].
        apply bind_ret_inv in H as (a' & Ha & H). apply bind_ret_inv in H as (b' & Hb & [= <-]).
        destruct (IHa _ _ Ha) as [Ca Aa], (IHb _ _ Hb) as [Cb Ab]. rewrite Eo in *.
        cbn [clauses atoms]. rewrite Ca, Cb. tauto.
      * rewrite decide_False in H by done. destruct (count mod 2 =? 1) eqn:Eo; [|by injection H as <-].
        apply bind_ret_inv in H as (a' & Ha & H). apply bind_ret_inv in H as (b' & Hb & [= <-]).
        destruct (IHa _ _ Ha) as [Ca Aa], (IHb _ _ Hb) as [Cb Ab]. rewrite Eo in *.
        cbn [clauses atoms]. rewrite Ca, Cb. tauto.
    + intros H. cbn [lp_apply_not] in H. rewrite decide_False in H by (by intros ->).
      assert (∃ t', q = Op t' a b ∧ connective t' = false ∧ (Q t a b → Q t' a b)) as (t' & -> & Ec' & HQ).
      { destruct (count mod 2 =? 1); [|injection H as <-; eauto].
        destruct (invert_type t) as [t'|] eqn:Ei; [|by destruct t].
        destruct (invert_connective _ _ Ei) as [_ ?]. exists t'. split; [|eauto].
        destruct t; try done; by injection H as <-. }
      by rewrite !clauses_other, !atoms_other.
  - intros H. assert (∃ t' v', q = Leaf t' v' ∧ (Q t NULL NULL → Q t' NULL NULL)) as (t' & v' & -> & HQ); [|done].
    cbn [lp_apply_not] in H. case_decide; [done|]. destruct (count mod 2 =? 1); [|injection H as <-; eauto].
    destruct (invert_type t) as [t'|] eqn:Ei; [|by destruct t].
    exists t', v. split; [|eauto]. destruct t; try done; by injection H as <-.
Qed.

Lemma clauses_terms p :
  clauses false p = sum_list_with (clauses false) (terms p).
Proof.
  induction p as [|t a _ b IH|t v]; [done| |done].
  destruct (decide (t = LP_BOOLEAN_OR)) as [->|Ht]; [cbn; by rewrite IH|].
  assert (terms (Op t a b) = [Op t a b]) as -> by (by destruct t). cbn. lia.
Qed.
Lemma clauses_products ls rs :
  sum_list_with (clauses false) (products ls rs) =
  (sum_list_with (clauses false) ls * sum_list_with (clauses false) rs)%nat.
Proof.
  induction ls as [|l ls IH]; [done|]. cbn [products sum_list_with]. rewrite sum_list_with_app, IH.
  enough (sum_list_with (clauses false) (Op LP_BOOLEAN_AND l <$> rs) =
          clauses false l * sum_list_with (clauses false) rs)%nat by lia.
  clear. induction rs as [|r rs IH]; [cbn; lia|]. cbn [fmap list_fmap sum_list_with clauses]. rewrite IH. lia.
Qed.

Lemma negatable_terms p : Forall (λ x, negatable false x = true) (terms p) ↔ negatable false p = true.
Proof.
  induction p as [|t a _ b IH|t v]; [|destruct (decide (t = LP_BOOLEAN_OR)) as [->|Ht]|].
  - exact (list.Forall_singleton _ _).
  - cbn [terms negatable]. by rewrite list.Forall_cons, IH, andb_true_iff.
  - assert (terms (Op t a b) = [Op t a b]) as -> by (by destruct t). exact (list.Forall_singleton _ _).
  - exact (list.Forall_singleton _ _).
Qed.
Lemma atoms_terms p : Forall (atoms Q) (terms p) ↔ atoms Q p.
Proof.
  induction p as [|t a _ b IH|t v]; [|destruct (decide (t = LP_BOOLEAN_OR)) as [->|Ht]|].
  - exact (list.Forall_singleton _ _).
  - cbn [terms atoms]. by rewrite list.Forall_cons, IH.
  - assert (terms (Op t a b) = [Op t a b]) as -> by (by destruct t). exact (list.Forall_singleton _ _).
  - exact (list.Forall_singleton _ _).
Qed.

(** Of a normal form: a plan can be made of it, it has the clauses and the comparisons of
    the condition, and one without an OR on top is a conjunction. *)
Definition kept (p q : LogicalPlan) : Prop :=
  Forall (λ x, negatable false x = true) (terms q) ∧ clauses false q = clauses false p ∧
  (atoms Q p → Forall (atoms Q) (terms q)) ∧ (or_node q = false → conj_only q = true).

Lemma terms_single p : or_node p = false → terms p = [p].
Proof. destruct p as [|t a b|]; [done| |done]. by destruct t. Qed.
Lemma forall_products (R : LogicalPlan → Prop) ls rs :
  (∀ l r, R l → R r → R (Op LP_BOOLEAN_AND l r)) →
  Forall R ls → Forall R rs → Forall R (products ls rs).
Proof.
  intros HR Hl Hr. induction Hl as [|l ls H _ IH]; [constructor|]. cbn [products].
  apply Forall_app. split; [|done]. apply Forall_fmap. eapply Forall_impl; [|exact Hr]. cbn. auto.
Qed.

Lemma products_one ls rs : ls ≠ [] → rs ≠ [] → length (products ls rs) = 1%nat → length ls = 1%nat ∧ length rs = 1%nat.
Proof.
  assert (L : ∀ ls, length (products ls rs) = (length ls * length rs)%nat).
  { clear. intros ls. induction ls as [|l ls IH]; [done|]. cbn. rewrite length_app, length_fmap, IH. lia. }
  rewrite L. destruct ls, rs; cbn; try done. nia.
Qed.
Lemma or_node_terms p : length (terms p) = 1%nat → or_node p = false.
Proof.
  destruct p as [|t a b|]; [done| |done]. destruct (decide (t = LP_BOOLEAN_OR)) as [->|Ht]; [|by destruct t].
  cbn. pose proof (terms_nonempty b). by destruct (terms b).
Qed.

Lemma kept_and a b l r :
  spine l = true → spine r = true → kept a l → kept b r →
  kept (Op LP_BOOLEAN_AND a b) (or_chain (products (terms l) (terms r))).
Proof.
  intros Sl Sr (Nl & Cl & Al & Ol) (Nr & Cr & Ar & Or). destruct (combine_spec l r Sl Sr) as (_ & T & _).
  unfold kept. rewrite clauses_terms, T, clauses_products, <- !clauses_terms, Cl, Cr.
  split_and!.
  - apply forall_products; [|done..]. intros x y Hx Hy. cbn [negatable]. by rewrite Hx, Hy.
  - done.
  - cbn [atoms]. intros [Ha Hb]. apply forall_products; [done|by apply Al|by apply Ar].
  - intros Ho. apply terms_single in Ho. rewrite T in Ho.
    destruct (products_one (terms l) (terms r)) as [L1 L2]; [apply terms_nonempty..|by rewrite Ho|].
    apply or_node_terms in L1, L2. rewrite (terms_single l), (terms_single r) by done.
    cbn. by rewrite Ol, Or.
Qed.

Lemma dnf_keeps n p q : negatable false p = true → dnf n p = Ret q → kept p q.
Proof.
  revert p q. induction n as [|n IH]; intros p q Hp H; [done|]. cbn [dnf] in H.
  assert (Hnull : is_null p = false) by (by destruct p). rewrite Hnull in H.
  destruct (lp_apply_not_spec p 0 Hp) as (p' & E & Hp' & _ & _ & _). rewrite E in H.
  destruct (lp_apply_not_keeps p 0 p' E) as [Hc Hat]. change (0 mod 2 =? 1) with false in Hc.
  assert (K : kept p' q → kept p q).
  { intros (N & C & A & O). split_and!; try done; [congruence|]. auto. }
  apply K. cbn [mbind outcome_bind] in H. clear Hp Hnull E Hc Hat K p.
  destruct p' as [|t a b|t v]; [done| |].
  2:{ cbn [lp_type mbind outcome_bind] in H.
      assert (q = Leaf t v) as -> by (case_decide; [by injection H|done]).
      split_and!; try done; repeat constructor; done. }
  cbn [lp_type mbind outcome_bind operand] in H. destruct (decide _) as [[Ha Hor]|Hd].
  { injection H as <-. assert (or_node (Op t a b) = false) by (by destruct t). unfold kept.
    rewrite terms_single by done. split_and!; try done; [by constructor..|]. by destruct t. }
  apply bind_ret_inv in H as (l & Hl & H). apply bind_ret_inv in H as (r & Hr' & H).
  assert (Hab : negatable false a = true ∧ negatable false b = true).
  { apply andb_true_iff. destruct t; try done; exfalso; apply Hd; split; done. }
  destruct Hab as [Na Nb].
  pose proof (dnf_spine n) as Sp.
  pose proof (IH a l Na Hl) as Ka. pose proof (IH b r Nb Hr') as Kb.
  destruct (decide (t = LP_BOOLEAN_AND)) as [->|Ht].
  - rewrite decide_False in H by auto.
    destruct (combine_spec l r (Sp _ _ Na Hl) (Sp _ _ Nb Hr')) as (Ec & _).
    rewrite Ec in H. injection H as <-. apply kept_and; eauto.
  - rewrite decide_True in H by done. assert (t = LP_BOOLEAN_OR) as -> by (apply dec_stable; tauto).
    injection H as <-. destruct Ka as (Nl & Cl & Al & _), Kb as (Nr & Cr & Ar & _).
    split_and!; [|cbn; by rewrite Cl, Cr|cbn [atoms terms]; intros [Aa Ab]|done]; cbn [terms]; constructor; auto.
    + by apply negatable_terms.
    + apply atoms_terms; auto.
Qed.
End keeps.

(** A property of conditions that passes to operands and that connectives keep. *)
Section hereditary.
Context (H : LogicalPlan → Prop).
Context (H_operands : ∀ t a b, H (Op t a b) → H a ∧ H b).
Context (H_and : ∀ a b, H a → H b → H (Op LP_BOOLEAN_AND a b)) (H_or : ∀ a b, H a → H b → H (Op LP_BOOLEAN_OR a b)).
Context (H_invert : ∀ t t' a b, invert_type t = Some t' → H (Op t a b) → H (Op t' a b)).
Context (H_leaf : ∀ t t' v, invert_type t = Some t' → H (Leaf t v) → H (Leaf t' v)).

Lemma lp_apply_not_hereditary p count q : H p → lp_apply_not p count = Ret q → H q.
Proof.
  revert count q. induction p as [|t a IHa b IHb|t v]; intros count q Hp E; [done| |]; cbn [lp_apply_not] in E.
  - destruct (H_operands _ _ _ Hp) as [Ha Hb]. case_decide.
    { apply bind_ret_inv in E as (ta & _ & E). destruct (protected ta); [by injection E as <-|eauto]. }
    destruct (count mod 2 =? 1); [|by injection E as <-].
    destruct (decide (t = LP_BOOLEAN_OR)) as [->|].
    { apply bind_ret_inv in E as (a' & Ea & E). apply bind_ret_inv in E as (b' & Eb & [= <-]). eauto. }
    destruct (decide (t = LP_BOOLEAN_AND)) as [->|].
    { apply bind_ret_inv in E as (a' & Ea & E). apply bind_ret_inv in E as (b' & Eb & [= <-]). eauto. }
    destruct (invert_type t) as [t'|] eqn:Ei; [|by destruct t].
    assert (q = Op t' a b) as -> by (destruct t; try done; by injection E as <-). eauto.
  - case_decide; [done|]. destruct (count mod 2 =? 1); [|by injection E as <-].
    destruct (invert_type t) as [t'|] eqn:Ei; [|by destruct t].
    assert (q = Leaf t' v) as -> by (destruct t; try done; by injection E as <-). eauto.
Qed.
Lemma terms_hereditary p : H p → Forall H (terms p).
Proof.
  induction p as [|t a _ b IH|t v]; intros Hp; try (by repeat constructor).
  destruct (decide (t = LP_BOOLEAN_OR)) as [->|Ht].
  - destruct (H_operands _ _ _ Hp). constructor; auto.
  - assert (terms (Op t a b) = [Op t a b]) as -> by (by destruct t). by constructor.
Qed.
Lemma or_chain_hereditary ps : ps ≠ [] → Forall H ps → H (or_chain ps).
Proof.
  intros Hn. induction 1 as [|p ps Hp _ IH]; [done|]. destruct ps as [|p' ps]; [done|].
  change (H (Op LP_BOOLEAN_OR p (or_chain (p' :: ps)))). apply H_or; [done|]. by apply IH.
Qed.
Lemma dnf_hereditary n p q : negatable false p = true → H p → dnf n p = Ret q → H q.
Proof.
  revert p q. induction n as [|n IH]; intros p q Hn Hp E; [done|]. cbn [dnf] in E.
  assert (Hnull : is_null p = false) by (by destruct p). rewrite Hnull in E.
  destruct (lp_apply_not_spec p 0 Hn) as (p' & E' & Hn' & _). rewrite E' in E. cbn [mbind outcome_bind] in E.
  pose proof (lp_apply_not_hereditary p 0 p' Hp E') as Hp'. clear Hp Hn E' Hnull p.
  destruct p' as [|t a b|t v]; [done| |cbn [lp_type mbind outcome_bind] in E; case_decide; [by injection E as <-|done]].
  cbn [lp_type mbind outcome_bind operand] in E. case_decide as Hd; [by injection E as <-|].
  apply bind_ret_inv in E as (l & El & E). apply bind_ret_inv in E as (r & Er & E).
  assert (Hab : negatable false a = true ∧ negatable false b = true).
  { apply andb_true_iff. destruct t; try done; exfalso; apply Hd; split; done. }
  destruct Hab as [Na Nb], (H_operands _ _ _ Hp') as [Ha Hb].
  pose proof (dnf_spine n) as Sp.
  pose proof (IH a l Na Ha El) as Hl. pose proof (IH b r Nb Hb Er) as Hr.
  destruct (decide (t = LP_BOOLEAN_AND)) as [->|Ht].
  - rewrite decide_False in E by auto. destruct (combine_spec l r (Sp _ _ Na El) (Sp _ _ Nb Er)) as (Ec & _).
    rewrite Ec in E. injection E as <-. apply or_chain_hereditary; [apply products_nonempty; apply terms_nonempty|].
    apply forall_products; [done|by apply terms_hereditary..].
  - rewrite decide_True in E by done. assert (t = LP_BOOLEAN_OR) as -> by (apply dec_stable; tauto).
    injection E as <-. auto.
Qed.
End hereditary.
