(* ===== verification/SocketIO.v ===== *)
(** * Socket input and output

    [rocto/read_bytes.c], [send_bytes.c], [read_message.c], [send_message.c] on a
    connection without TLS, and [read_startup_message.c].

    The kernel is the list of things it will answer to successive calls.  The end
    of the list of receive events is the peer closing the connection; at the end
    of the list of send events the call blocks. *)
From stdpp Require Import strings.
From S2P Require Import Prelude CMem Errors Frontend.

(** ** recv *)
Inductive recv_event :=
  | Data (b : byte) (bs : list byte)   (* bytes that are there to be read *)
  | Interrupted                        (* -1 with EINTR *)
  | Failed.                            (* -1 with another errno *)
Definition network := list recv_event.

Inductive recv_result := RecvOk (bs : list byte) | RecvClosed | RecvIntr | RecvError.
(** [recv(fd, p, n, 0)]: at most [n] bytes of what is there. *)
Definition recv (net : network) (n : Z) : recv_result * network :=
  match net with
  | [] => (RecvClosed, [])
  | Data b bs :: net' =>
      let got := take (Z.to_nat n) (b :: bs) in
      match drop (Z.to_nat n) (b :: bs) with
      | [] => (RecvOk got, net')
      | c :: cs => (RecvOk got, Data c cs :: net')
      end
  | Interrupted :: net' => (RecvIntr, net')
  | Failed :: net' => (RecvError, net')
  end.

(** [while(read_so_far < bytes_to_read) ...]; [at] is where [buffer] starts. *)
Fixpoint read_loop (fuel : nat) (net : network) (buf : list byte) (at_ read_so_far bytes_to_read : Z)
    : outcome (Z * list byte * network) :=
  match fuel with
  | O => NoFuel
  | S fuel' =>
      if read_so_far <? bytes_to_read then
        match recv net (bytes_to_read - read_so_far) with
        | (RecvOk bs, net) =>
            buf ← store_bytes buf (at_ + read_so_far) bs;
            read_loop fuel' net buf at_ (read_so_far + zlen bs) bytes_to_read
        | (RecvClosed, net) => Ret (-2, buf, net)
        | (RecvIntr, net) => read_loop fuel' net buf at_ read_so_far bytes_to_read
        | (RecvError, net) => Ret (-1, buf, net)
        end
      else Ret (0, buf, net)
  end.
(** Every turn uses up an event or part of one. *)
Definition event_weight (e : recv_event) : nat :=
  match e with Data _ bs => S (length bs) | _ => 1 end.
Fixpoint net_weight (net : network) : nat :=
  match net with [] => 0 | e :: net' => event_weight e + net_weight net' end.

(** [buffer] is offset [at_] of the block [buf]. *)
Definition read_bytes (net : network) (buf : list byte) (at_ buffer_size bytes_to_read : Z)
    : outcome (Z * list byte * network) :=
  if buffer_size <? bytes_to_read then Ret (-1, buf, net)
  else if bytes_to_read <? 0 then Ret (-1, buf, net)
  else read_loop (2 + net_weight net) net buf at_ 0 bytes_to_read.

(** [Some] is the message, at the start of the buffer; the code is [*rocto_err]. *)
Definition read_message (net : network) (buf : list byte) (buffer_size : Z)
    : outcome (option (list byte) * Z * network) :=
  '(rocto_err, buf, net) ← read_bytes net buf 0 buffer_size 5;
  if negb (rocto_err =? 0) then Ret (None, rocto_err, net)
  else
    len ← message_length buf;
    '(rocto_err, buf, net) ← read_bytes net buf 5 buffer_size (s32 (len - 4));
    if negb (rocto_err =? 0) then Ret (None, rocto_err, net)
    else Ret (Some buf, 0, net).

(** ** send *)
Inductive send_event :=
  | Accepts (n : Z)      (* room for [n] bytes *)
  | SendInterrupted
  | SendReset            (* ECONNRESET or EPIPE *)
  | SendFailed.

(** What was handed to the kernel so far and what [send_bytes] returned. *)
Fixpoint send_loop (events : list send_event) (message : list byte) (written_so_far to_write : Z)
    (sent : list byte) : outcome (Z * list byte) :=
  if written_so_far <? to_write then
    match events with
    | [] => NoFuel
    | Accepts n :: events' =>
        let written_now := Z.min n (to_write - written_so_far) in
        bs ← load_bytes message written_so_far written_now;
        send_loop events' message (written_so_far + written_now) to_write (sent ++ bs)
    | SendInterrupted :: events' => send_loop events' message written_so_far to_write sent
    | SendReset :: _ => Ret (1, sent)
    | SendFailed :: _ => Halt FatalExit
    end
  else Ret (0, sent).
Definition send_bytes (events : list send_event) (message : list byte) (length : Z)
    : outcome (Z * list byte) := send_loop events message 0 (s32 length) [].
Definition send_message (events : list send_event) (message : list byte) : outcome (Z * list byte) :=
  len ← message_length message;
  send_bytes events message (u32 (len + 1)).

(** ** The startup message

    [data] is what [rocto] already read: the length and the protocol version.  The
    rest goes into a fresh block; the result of [read_bytes] is not looked at. *)
Record StartupMessage := {
  sm_parameters : list (Z * Z);   (* offsets of name and value in [sm_data] *)
  sm_num_parameters : Z;
  sm_data : list byte;
}.

Inductive parm_list := ParmsEnd (cur num_parms : Z) | ParmsError (field : ERROR * string).
Fixpoint count_parms (fuel : nat) (data : list byte) (cur last num_parms : Z) : outcome parm_list :=
  match fuel with
  | O => NoFuel
  | S fuel' =>
      if cur <? last then
        c ← load8 data cur;
        if decide (c = nul) then Ret (ParmsEnd cur num_parms)
        else
          e ← expect_nul data cur last;
          match e with
          | None => Ret (ParmsError (ERR_ROCTO_MISSING_DATA, "parameter name"%string))
          | Some cur =>
              e ← expect_nul data (cur + 1) last;
              match e with
              | None => Ret (ParmsError (ERR_ROCTO_MISSING_NULL, "name or value"%string))
              | Some cur => count_parms fuel' data (cur + 1) last (num_parms + 1)
              end
          end
      else Ret (ParmsEnd cur num_parms)
  end.
Fixpoint fill_parms (fuel : nat) (data : list byte) (cur last : Z) : outcome (list (Z * Z)) :=
  match fuel with
  | O => NoFuel
  | S fuel' =>
      if cur <? last then
        c ← load8 data cur;
        if decide (c = nul) then Ret []
        else
          let name := cur in
          cur ← scan_nul (scan_fuel data) data cur last;
          c ← load8 data cur;
          _ ← c_assert (bool_decide (c = nul));
          let value := cur + 1 in
          cur ← scan_nul (scan_fuel data) data value last;
          c ← load8 data cur;
          _ ← c_assert (bool_decide (c = nul));
          rest ← fill_parms fuel' data (cur + 1) last;
          Ret ((name, value) :: rest)
      else Ret []
  end.

Definition read_startup_message (mem : nat → byte) (net : network) (data : list byte)
    : outcome (reader_result StartupMessage * network) :=
  length ← load_be32 data 0;
  version ← load_be32 data 4;
  let protocol_version := s32 version in
  let fail r := (r ← r; Ret (r, net)) in
  if negb (protocol_version =? 196608) then
    fail (fatal_error ERR_ROCTO_INVALID_VERSION
      [str "StartupMessage"; AInt protocol_version; AInt 196608])
  else if length =? 8 then
    fail (fatal_error ERR_ROCTO_MISSING_NULL [str "StartupMessage"; str "parameter list"])
  else if length <? 8 then Undef OutOfBounds       (* memcpy past the allocation *)
  else if 2 ^ 31 <=? length then Undef NullPointer (* malloc of a negative size *)
  else
  let n := length - 8 in
  '(_, block, net) ← read_bytes net (malloc mem n) 0 n n;
  let fail r := (r ← r; Ret (r, net)) in
  parms ← count_parms (scan_fuel block) block 0 n 0;
  match parms with
  | ParmsError (e, field) => fail (protocol_error e [str "StartupMessage"; str field])
  | ParmsEnd c num_parms =>
      terminated ← (if c =? n then Ret false else ch ← load8 block c; Ret (bool_decide (ch = nul)));
      if negb (terminated : bool) then
        fail (protocol_error ERR_ROCTO_MISSING_NULL [str "StartupMessage"; str "parameter list"])
      else if negb (c + 1 =? n) then
        fail (protocol_error ERR_ROCTO_TRAILING_CHARS [str "StartupMessage"])
      else
        parameters ← fill_parms (scan_fuel block) block 0 n;
        Ret ((Some {| sm_parameters := parameters; sm_num_parameters := zlen parameters;
                      sm_data := block |}, None), net)
  end.
