(* ===== verification/SocketTheorems.v ===== *)
(** * Reading and writing a socket: nothing lost, nothing reordered

    However the kernel cuts the byte stream into pieces and whenever it
    interrupts, [read_bytes] takes exactly the bytes asked for off the front of
    the stream, [send_bytes] hands over exactly the message, and [read_message]
    takes one frame. *)
From stdpp Require Import strings.
From S2P Require Import Prelude CMem Errors Frontend FrontendSpec Backend BackendTheorems SocketIO.

(** The bytes that will arrive, and what the reader is told after them. *)
Fixpoint stream (net : network) : list byte :=
  match net with
  | Data b bs :: net' => (b :: bs) ++ stream net'
  | Interrupted :: net' => stream net'
  | _ => []
  end.
Fixpoint ending (net : network) : Z :=
  match net with
  | [] => -2
  | Data _ _ :: net' | Interrupted :: net' => ending net'
  | Failed :: _ => -1
  end.

Lemma recv_data b bs net n : 0 < n →
  ∃ got net', recv (Data b bs :: net) n = (RecvOk got, net') ∧
    got = take (Z.to_nat n) (b :: bs) ∧ 0 < zlen got ≤ n ∧
    got ++ stream net' = (b :: bs) ++ stream net ∧ ending net' = ending net ∧
    (net_weight net' < net_weight (Data b bs :: net))%nat.
Proof.
  intros Hn. cbn [recv]. destruct (drop (Z.to_nat n) (b :: bs)) as [|c cs] eqn:E.
  - exists (take (Z.to_nat n) (b :: bs)), net. split; [done|]. split; [done|].
    assert (Hl : (length (b :: bs) ≤ Z.to_nat n)%nat).
    { apply (f_equal length) in E. rewrite length_drop in E. cbn [length] in *. lia. }
    rewrite take_ge by done. split; [unfold zlen; cbn [length] in *; lia|].
    split; [done|]. split; [done|]. cbn. lia.
  - exists (take (Z.to_nat n) (b :: bs)), (Data c cs :: net). split; [done|]. split; [done|].
    assert (Hl : (Z.to_nat n < length (b :: bs))%nat).
    { apply (f_equal length) in E. rewrite length_drop in E. cbn [length] in *. lia. }
    split; [unfold zlen; rewrite length_take; cbn [length] in *; lia|].
    split; [cbn [stream]; rewrite <- E, app_assoc, take_drop; done|]. split; [done|].
    apply (f_equal length) in E. rewrite length_drop in E. cbn [length net_weight event_weight] in *. lia.
Qed.

Lemma read_loop_spec fuel net pre mid post at_ sofar n :
  (net_weight net < fuel)%nat → at_ + sofar = zlen pre → n - sofar = zlen mid →
  if zlen mid <=? zlen (stream net) then
    ∃ net', read_loop fuel net (pre ++ mid ++ post) at_ sofar n =
              Ret (0, pre ++ take (length mid) (stream net) ++ post, net') ∧
            stream net' = drop (length mid) (stream net) ∧ ending net' = ending net
  else ∃ buf net', read_loop fuel net (pre ++ mid ++ post) at_ sofar n = Ret (ending net, buf, net') ∧
            zlen buf = zlen (pre ++ mid ++ post).
Proof.
  revert net pre mid sofar. induction fuel as [|fuel IH]; intros net pre mid sofar Hf Ha Hm; [lia|].
  cbn [read_loop]. destruct (Z.ltb_spec sofar n) as [Hlt|Hge].
  2:{ assert (mid = []) as -> by (destruct mid; [done|zlia]). zlen_pos. rewrite zlen_nil.
      destruct (Z.leb_spec 0 (zlen (stream net))); [|lia]. exists net. by rewrite drop_0. }
  destruct net as [|[b bs| |] net].
  - destruct (Z.leb_spec (zlen mid) (zlen (stream []))); [cbn in *; zlia|]. by do 2 eexists.
  - destruct (recv_data b bs net (n - sofar) ltac:(lia)) as (got & net' & -> & Hg & Hl & Hs & He & Hw).
    set (m1 := take (length got) mid). set (m2 := drop (length got) mid).
    assert (Hmid : mid = m1 ++ m2) by (symmetry; apply take_drop).
    assert (Hm1 : zlen m1 = zlen got) by (unfold m1, zlen in *; rewrite length_take; lia).
    assert (Hm2 : zlen mid = zlen got + zlen m2) by (rewrite Hmid, zlen_app; lia).
    rewrite (store_bytes_app_eq _ _ pre m1 (m2 ++ post)); [|rewrite Hmid; by rewrite <- app_assoc|done|done].
    cbn [mbind outcome_bind]. rewrite (app_assoc pre got).
    specialize (IH net' (pre ++ got) m2 (sofar + zlen got) ltac:(lia) ltac:(rewrite zlen_app; lia) ltac:(lia)).
    cbn [stream ending]. rewrite <- Hs, zlen_app.
    replace (zlen mid <=? zlen got + zlen (stream net')) with (zlen m2 <=? zlen (stream net'))
      by (apply Bool.eq_iff_eq_true; rewrite !Z.leb_le; lia).
    assert (Hlen : length mid = (length got + length m2)%nat) by (unfold zlen in *; lia).
    destruct (zlen m2 <=? zlen (stream net')).
    + destruct IH as (net'' & -> & Hs' & He'). exists net''.
      rewrite Hlen, take_app_add, <- !app_assoc. split; [done|].
      split; [by rewrite drop_app_add|by rewrite He'].
    + destruct IH as (buf & net'' & -> & Hz). exists buf, net''. rewrite He. split; [done|].
      rewrite Hz, !zlen_app. lia.
  - cbn [recv]. apply (IH net pre mid sofar); [cbn in Hf; lia|done|done].
  - cbn [recv stream ending]. destruct (Z.leb_spec (zlen mid) (zlen (@nil byte))); [zlia|]. by do 2 eexists.
Qed.

(** One read of [n] bytes into the middle of a block. *)
Lemma read_bytes_spec net pre mid post at_ size n :
  at_ = zlen pre → n = zlen mid → n ≤ size →
  if n <=? zlen (stream net) then
    ∃ net', read_bytes net (pre ++ mid ++ post) at_ size n =
              Ret (0, pre ++ take (length mid) (stream net) ++ post, net') ∧
            stream net' = drop (length mid) (stream net) ∧ ending net' = ending net
  else ∃ buf net', read_bytes net (pre ++ mid ++ post) at_ size n = Ret (ending net, buf, net') ∧
            zlen buf = zlen (pre ++ mid ++ post).
Proof.
  intros Ha Hn Hs. unfold read_bytes. zlen_pos.
  destruct (Z.ltb_spec size n); [lia|]. destruct (Z.ltb_spec n 0); [lia|]. rewrite Hn.
  apply read_loop_spec; lia.
Qed.

Lemma split_block {A} (buf : list A) i n :
  0 ≤ i → 0 ≤ n → i + n ≤ zlen buf →
  ∃ pre mid, buf = pre ++ mid ++ drop (Z.to_nat (i + n)) buf ∧ pre = take (Z.to_nat i) buf ∧
    zlen pre = i ∧ zlen mid = n.
Proof.
  intros Hi Hn Hb. exists (take (Z.to_nat i) buf), (take (Z.to_nat n) (drop (Z.to_nat i) buf)).
  split; [|split; [done|unfold zlen in *; rewrite !length_take, length_drop; lia]].
  replace (Z.to_nat (i + n)) with (Z.to_nat i + Z.to_nat n)%nat by lia.
  by rewrite <- drop_drop, take_drop, take_drop.
Qed.

(** [read_bytes] into a buffer that holds the bytes asked for: when the stream
    has them it returns 0 with exactly the next bytes of the stream stored there,
    the rest of the block and of the stream untouched, however the bytes were cut
    and however often the call was interrupted; when it does not, the answer is -2
    for a closed connection and -1 for an error, and the block keeps its size. *)
Theorem read_bytes_exact net buf at_ size n :
  0 ≤ at_ → 0 ≤ n ≤ size → at_ + n ≤ zlen buf →
  (n ≤ zlen (stream net) →
     ∃ net', read_bytes net buf at_ size n =
       Ret (0, take (Z.to_nat at_) buf ++ take (Z.to_nat n) (stream net) ++
               drop (Z.to_nat (at_ + n)) buf, net') ∧
       stream net' = drop (Z.to_nat n) (stream net) ∧ ending net' = ending net) ∧
  (zlen (stream net) < n →
     ∃ buf' net', read_bytes net buf at_ size n = Ret (ending net, buf', net') ∧
       zlen buf' = zlen buf).
Proof.
  intros Ha Hn Hb. destruct (split_block buf at_ n) as (pre & mid & Hsplit & Hpre & Hp & Hm); [lia..|].
  pose proof (read_bytes_spec net pre mid (drop (Z.to_nat (at_ + n)) buf) at_ size n) as H.
  rewrite <- Hsplit, Hpre in H. assert (Hlm : length mid = Z.to_nat n) by (unfold zlen in Hm; lia).
  rewrite Hlm in H. split; intros Hs.
  - destruct (Z.leb_spec n (zlen (stream net))); [|lia]. apply H; [by subst|done|lia].
  - destruct (Z.leb_spec n (zlen (stream net))); [lia|]. apply H; [by subst|done|lia].
Qed.

Definition sample_net : network := [Interrupted; Data x01 [x02]; Interrupted; Data x03 [x04; x05]].
Lemma read_bytes_exact_witness :
  ∃ net', read_bytes sample_net [x00; x00; x00; x00; x00; x00] 1 4 4 =
    Ret (0, [x00; x01; x02; x03; x04; x00], net') ∧ stream net' = [x05] ∧ ending net' = -2.
Proof.
  apply (proj1 (read_bytes_exact sample_net [x00; x00; x00; x00; x00; x00] 1 4 4
    ltac:(lia) ltac:(lia) ltac:(vm_compute; discriminate))). vm_compute. discriminate.
Defined.

(** ** Sending *)
(** The bytes the kernel has room for before it reports an error. *)
Fixpoint capacity (events : list send_event) : Z :=
  match events with
  | Accepts n :: events' => n + capacity events'
  | SendInterrupted :: events' => capacity events'
  | _ => 0
  end.
Definition positive_event (e : send_event) : Prop := match e with Accepts n => 0 < n | _ => True end.

Lemma capacity_nonneg events : Forall positive_event events → 0 ≤ capacity events.
Proof.
  induction 1 as [|e events He _ IH]; [done|]. destruct e; cbn [capacity positive_event] in *; lia.
Qed.

Lemma send_loop_spec events message done_ todo rest sent :
  message = done_ ++ todo ++ rest → sent = done_ → Forall positive_event events →
  (zlen todo ≤ capacity events →
     send_loop events message (zlen done_) (zlen done_ + zlen todo) sent = Ret (0, done_ ++ todo)) ∧
  (∀ r out, send_loop events message (zlen done_) (zlen done_ + zlen todo) sent = Ret (r, out) →
     (r = 0 ∧ out = done_ ++ todo) ∨ (r = 1 ∧ out `prefix_of` done_ ++ todo)).
Proof.
  intros Hm -> Hp. revert done_ todo Hm.
  assert (Hdone : ∀ events done_ todo, message = done_ ++ todo ++ rest → todo = [] →
    send_loop events message (zlen done_) (zlen done_ + zlen todo) done_ = Ret (0, done_ ++ todo)).
  { intros ev d t _ ->. rewrite zlen_nil, Z.add_0_r, app_nil_r.
    destruct ev; cbn [send_loop]; by rewrite Z.ltb_irrefl. }
  induction Hp as [|e events He Hp IH]; intros done_ todo Hm;
    destruct todo as [|x todo]; try (rewrite (Hdone _ done_ [] Hm) by done; split;
      [done|intros r out [= <- <-]; by left]); clear Hdone; set (td := x :: todo) in *;
    assert (Htd : 0 < zlen td) by (unfold td; zlia); cbn [send_loop];
    (destruct (Z.ltb_spec (zlen done_) (zlen done_ + zlen td)) as [_|?]; [|lia]).
  - split; [cbn; lia|done].
  - destruct e as [n| | |]; cbn [positive_event capacity] in *.
    + rewrite Z.add_simpl_l. set (k := Z.min n (zlen td)).
      set (t1 := take (Z.to_nat k) td). set (t2 := drop (Z.to_nat k) td).
      assert (Ht : td = t1 ++ t2) by (symmetry; apply take_drop).
      assert (Hk : zlen t1 = k) by (unfold t1, zlen in *; rewrite length_take; lia).
      assert (Hk2 : zlen td = k + zlen t2) by (rewrite Ht, zlen_app; lia).
      rewrite (load_bytes_app_eq message _ _ done_ t1 (t2 ++ rest));
        [|rewrite Hm, Ht; by rewrite <- app_assoc|done|done]. cbn [mbind outcome_bind].
      destruct (IH (done_ ++ t1) t2) as [IH1 IH2]; [rewrite Hm, Ht; by rewrite <- !app_assoc|].
      replace (zlen done_ + k) with (zlen (done_ ++ t1)) by (rewrite zlen_app; lia).
      replace (zlen done_ + zlen td) with (zlen (done_ ++ t1) + zlen t2) by (rewrite zlen_app; lia).
      replace (done_ ++ td) with ((done_ ++ t1) ++ t2) by (rewrite Ht; by rewrite <- app_assoc).
      split; [|done]. intros Hc. apply IH1. pose proof (capacity_nonneg events Hp). lia.
    + apply IH. done.
    + split; [lia|]. intros r out [= <- <-]. right. split; [done|]. by apply prefix_app_r.
    + split; [lia|done].
Qed.

(** [send_bytes] returns 0 only after handing over exactly the first [length]
    bytes of the message, in order and once each; it returns 1 after a prefix of
    them; and it does return 0 when the kernel takes enough, one byte at a time or
    all at once, with any interruptions between. *)
Theorem send_bytes_exact events message length :
  Forall positive_event events → 0 ≤ length ≤ zlen message → length < 2 ^ 31 →
  (length ≤ capacity events → send_bytes events message length =
     Ret (0, take (Z.to_nat length) message)) ∧
  (∀ r out, send_bytes events message length = Ret (r, out) →
     (r = 0 ∧ out = take (Z.to_nat length) message) ∨
     (r = 1 ∧ out `prefix_of` take (Z.to_nat length) message)).
Proof.
  intros Hp Hl Hs. unfold send_bytes. rewrite s32_small by lia.
  pose proof (send_loop_spec events message [] (take (Z.to_nat length) message)
    (drop (Z.to_nat length) message) []) as H.
  assert (Hz : zlen (take (Z.to_nat length) message) = length)
    by (unfold zlen in *; rewrite length_take; lia).
  rewrite zlen_nil, Z.add_0_l, Hz in H. apply H; [by rewrite take_drop|done|done].
Qed.

Lemma send_bytes_exact_witness :
  send_bytes [SendInterrupted; Accepts 2; Accepts 5] (lit "hello") 4 = Ret (0, lit "hell").
Proof.
  apply (send_bytes_exact [SendInterrupted; Accepts 2; Accepts 5] (lit "hello") 4);
    [repeat constructor|vm_compute; split; discriminate|lia|vm_compute; discriminate].
Defined.

(** ** Messages *)
Lemma stream_prefix net w rest : stream net = w ++ rest → take (length w) (stream net) = w.
Proof. intros ->. apply take_app_length. Qed.

Lemma read_message_spec net buf t payload rest :
  stream net = frame t payload [] ++ rest → small payload → 5 + zlen payload ≤ zlen buf →
  ∃ net', read_message net buf (zlen buf) =
    Ret (Some (frame t payload [] ++ drop (Z.to_nat (5 + zlen payload)) buf), 0, net') ∧
    stream net' = rest ∧ ending net' = ending net.
Proof.
  intros Hs Hsm Hb. zlen_pos. unfold read_message. set (h := header t (zlen payload + 4)).
  assert (Hh : zlen h = 5) by done. assert (Hlh : length h = 5%nat) by done.
  assert (Hf : frame t payload [] = h ++ payload) by (unfold frame; by rewrite app_nil_r).
  rewrite Hf, <- app_assoc in Hs.
  destruct (split_block buf 0 5) as (pre & m1 & Hbuf & _ & Hp & Hm); [lia..|].
  assert (pre = []) as -> by (destruct pre; [done|zlia]). cbn [app] in Hbuf. rewrite Z.add_0_l in Hbuf.
  pose proof (read_bytes_spec net [] m1 (drop (Z.to_nat 5) buf) 0 (zlen buf) 5 eq_refl
    ltac:(done) ltac:(lia)) as Hrd. cbn [app] in Hrd. rewrite <- Hbuf in Hrd.
  assert (Hl1 : length m1 = 5%nat) by (unfold zlen in Hm; lia). rewrite Hl1, Hs in Hrd.
  destruct (Z.leb_spec 5 (zlen (h ++ payload ++ rest))); [|rewrite !zlen_app in *; zlia].
  destruct Hrd as (net1 & -> & Hs1 & He1). cbn [mbind outcome_bind].
  change (negb (0 =? 0)) with false. cbn iota.
  replace (take 5 (h ++ payload ++ rest)) with h by (rewrite <- Hlh; by rewrite take_app_length).
  replace (drop 5 (h ++ payload ++ rest)) with (payload ++ rest) in Hs1
    by (rewrite <- Hlh; by rewrite drop_app_length).
  set (tl := drop (Z.to_nat 5) buf). assert (Htl : zlen tl = zlen buf - 5) by (unfold tl; zlia).
  assert (Hml : message_length (h ++ tl) = Ret (zlen payload + 4)).
  { unfold h, header. cbn [app]. rewrite message_length_wire. f_equal. apply u32_small.
    unfold small in Hsm. lia. }
  rewrite Hml. cbn [mbind outcome_bind]. rewrite Z.add_simpl_r, s32_small by (unfold small in Hsm; lia).
  destruct (split_block tl 0 (zlen payload)) as (pre2 & m2 & Htl2 & _ & Hp2 & Hm2); [lia..|].
  assert (pre2 = []) as -> by (destruct pre2; [done|zlia]). cbn [app] in Htl2.
  pose proof (read_bytes_spec net1 h m2 (drop (Z.to_nat (0 + zlen payload)) tl) 5 (zlen buf)
    (zlen payload) ltac:(done) ltac:(done) ltac:(lia)) as Hrd2. rewrite <- Htl2, Hs1 in Hrd2.
  assert (Hl2 : length m2 = length payload) by (unfold zlen in *; lia). rewrite Hl2 in Hrd2.
  destruct (Z.leb_spec (zlen payload) (zlen (payload ++ rest))); [|rewrite zlen_app in *; zlia].
  destruct Hrd2 as (net2 & -> & Hs2 & He2). cbn [mbind outcome_bind].
  change (negb (0 =? 0)) with false. cbn iota. exists net2.
  rewrite take_app_length, Hf. rewrite drop_app_length in Hs2.
  split; [|split; [done|congruence]]. do 3 f_equal. rewrite <- app_assoc. do 3 f_equal. unfold tl.
  rewrite drop_drop. f_equal. lia.
Qed.

Lemma send_message_spec m payload events :
  zlen payload + 5 < 2 ^ 31 → wire m = Ret (frame (msg_type m) payload []) →
  ntohl (msg_length m) = zlen payload + 4 →
  Forall positive_event events → 5 + zlen payload ≤ capacity events →
  send_message events (object m) = Ret (0, frame (msg_type m) payload []).
Proof.
  intros Hs5 Hw Hlen Hp Hc. assert (Hs : small payload) by (unfold small; lia).
  unfold send_message. unfold wire, load_bytes in Hw. rewrite Hlen in Hw.
  set (o := object m) in *. zlen_pos.
  destruct ((0 <? 0) || (zlen payload + 4 + 1 <? 0) || (zlen o <? 0 + (zlen payload + 4 + 1))) eqn:E;
    [done|]. injection Hw as Hw. change (drop (Z.to_nat 0) o) with o in Hw.
  apply orb_false_iff in E as [_ E]. apply Z.ltb_ge in E.
  assert (Ho : o = frame (msg_type m) payload [] ++ drop (Z.to_nat (zlen payload + 4 + 1)) o)
    by (rewrite <- Hw; by rewrite take_drop).
  assert (Hml : message_length o = Ret (zlen payload + 4)).
  { rewrite Ho. rewrite <- frame_app. by apply message_length_frame. }
  rewrite Hml. cbn [mbind outcome_bind]. unfold small in Hs. rewrite u32_small by lia.
  assert (Hf : zlen (frame (msg_type m) payload []) = zlen payload + 4 + 1).
  { unfold frame. rewrite !zlen_app, zlen_header. zlia. }
  unfold send_bytes. rewrite s32_small by lia.
  pose proof (proj1 (send_loop_spec events o [] (frame (msg_type m) payload [])
    (drop (Z.to_nat (zlen payload + 4 + 1)) o) [] Ho eq_refl Hp)) as Hl.
  rewrite zlen_nil, Z.add_0_l, Hf in Hl. apply Hl. lia.
Qed.

(** C32: A server message crosses the network whole: [send_message] hands over the
    frame, and for any way the network cuts it up and whatever follows it,
    [read_message] with a buffer that holds it returns the frame at the start of
    the buffer, with the following bytes still in the stream. *)
Theorem message_transport m payload net buf rest events :
  zlen payload + 5 < 2 ^ 31 → wire m = Ret (frame (msg_type m) payload []) →
  Forall positive_event events → 5 + zlen payload ≤ capacity events →
  stream net = frame (msg_type m) payload [] ++ rest → 5 + zlen payload ≤ zlen buf →
  ntohl (msg_length m) = zlen payload + 4 →
  send_message events (object m) = Ret (0, frame (msg_type m) payload []) ∧
  ∃ net', read_message net buf (zlen buf) =
    Ret (Some (frame (msg_type m) payload [] ++ drop (Z.to_nat (5 + zlen payload)) buf), 0, net') ∧
    stream net' = rest.
Proof.
  intros Hs5 Hw Hp Hc Hn Hb Hlen. split; [by apply send_message_spec|].
  assert (Hs : small payload) by (unfold small; lia).
  destruct (read_message_spec net buf (msg_type m) payload rest Hn Hs Hb) as (net' & H & Hr & _). eauto.
Qed.

Definition ready : Message := make_ready_for_query PSQL_TransactionStatus_IDLE.
Lemma message_transport_witness :
  send_message [Accepts 3; SendInterrupted; Accepts 4] (object ready) =
    Ret (0, frame PSQL_ReadyForQuery (lit "I") []).
Proof.
  apply (message_transport ready (lit "I") [Data (chr "Z") (be32 5 ++ lit "I")] (replicate 6 nul) []
    [Accepts 3; SendInterrupted; Accepts 4]); try reflexivity;
    try (vm_compute; discriminate). repeat constructor.
Defined.

(** [read_message] bounds the second read by the size of the whole buffer,
    although it starts five bytes into it: a frame whose payload is up to five
    bytes longer than the room left is written past the end of the buffer. *)
Theorem read_message_overflow buf t payload :
  small payload → 5 ≤ zlen buf → zlen buf - 5 < zlen payload ≤ zlen buf →
  read_message [Data t (be32 (zlen payload + 4) ++ payload)] buf (zlen buf) = Undef OutOfBounds.
Proof.
  unfold small. intros Hs Hb Hp. zlen_pos. unfold read_message.
  destruct (split_block buf 0 5) as (pre & m1 & Hbuf & _ & Hpz & Hm); [lia..|].
  assert (pre = []) as -> by (destruct pre; [done|zlia]). cbn [app] in Hbuf. rewrite Z.add_0_l in Hbuf.
  set (h := header t (zlen payload + 4)). assert (Hlh : length h = 5%nat) by done.
  destruct payload as [|x payload]; [zlia|]. remember (x :: payload) as pl eqn:Hpl.
  assert (Hr : read_bytes [Data t (be32 (zlen pl + 4) ++ pl)] buf 0 (zlen buf) 5 =
    Ret (0, h ++ drop (Z.to_nat 5) buf, [Data x payload])).
  { unfold read_bytes. destruct (Z.ltb_spec (zlen buf) 5); [lia|]. cbn [Z.ltb Z.compare Nat.add].
    cbn [read_loop]. change (0 <? 5) with true. cbn iota. cbn [recv].
    change (Z.to_nat (5 - 0)) with (length h).
    change (t :: be32 (zlen pl + 4) ++ pl) with (h ++ pl). rewrite drop_app_length, take_app_length.
    rewrite Hpl. rewrite <- Hpl. rewrite (store_bytes_app_eq buf _ [] m1 (drop (Z.to_nat 5) buf) h);
      [|by rewrite Hbuf at 1|done|rewrite Hm; done].
    reflexivity. }
  rewrite Hr. cbn [mbind outcome_bind]. change (negb (0 =? 0)) with false. cbn iota.
  assert (Hml : message_length (h ++ drop (Z.to_nat 5) buf) = Ret (zlen pl + 4)).
  { unfold h, header. cbn [app]. rewrite message_length_wire. f_equal. apply u32_small. lia. }
  rewrite Hml. cbn [mbind outcome_bind]. rewrite Z.add_simpl_r, s32_small by lia.
  unfold read_bytes. destruct (Z.ltb_spec (zlen buf) (zlen pl)); [lia|].
  destruct (Z.ltb_spec (zlen pl) 0); [lia|]. cbn [Nat.add read_loop].
  destruct (Z.ltb_spec 0 (zlen pl)); [|lia]. cbn [recv]. rewrite Z.sub_0_r, zlen_to_nat.
  rewrite <- Hpl, firstn_all. unfold store_bytes.
  assert (E : (zlen (h ++ drop (Z.to_nat 5) buf) <? 5 + 0 + zlen pl) = true).
  { apply Z.ltb_lt. rewrite zlen_app, zlen_drop. change (zlen h) with 5. lia. }
  destruct (drop (length pl) pl); by rewrite E, orb_true_r.
Qed.

Lemma read_message_overflow_witness :
  read_message [Data (chr "Q") (be32 12 ++ lit "SELECT 1")] (replicate 8 nul) 8 = Undef OutOfBounds.
Proof.
  apply (read_message_overflow (replicate 8 nul) (chr "Q") (lit "SELECT 1"));
    vm_compute; try split; try reflexivity; discriminate.
Defined.

(** ** The startup message *)
Fixpoint parse_startup (fuel : nat) (p : list byte) : verdict (list (list byte * list byte)) :=
  match fuel with
  | O => Refuse ERR_ROCTO_MISSING_NULL [str "StartupMessage"; str "parameter list"]
  | S fuel' =>
      match p with
      | [] => Refuse ERR_ROCTO_MISSING_NULL [str "StartupMessage"; str "parameter list"]
      | c :: r =>
          if decide (c = nul) then
            match r with
            | [] => Accept []
            | _ => Refuse ERR_ROCTO_TRAILING_CHARS [str "StartupMessage"]
            end
          else
            match split_nul p with
            | None => Refuse ERR_ROCTO_MISSING_DATA [str "StartupMessage"; str "parameter name"]
            | Some (name, r1) =>
                match split_nul r1 with
                | None => Refuse ERR_ROCTO_MISSING_NULL [str "StartupMessage"; str "name or value"]
                | Some (value, r2) =>
                    match parse_startup fuel' r2 with
                    | Accept ps => Accept ((name, value) :: ps)
                    | Refuse e args => Refuse e args
                    end
                end
            end
      end
  end.
Definition parm_text (data : list byte) (p : Z * Z) : list byte * list byte :=
  (cstr (drop (Z.to_nat p.1) data), cstr (drop (Z.to_nat p.2) data)).

(** Name and value are terminated strings inside the block. *)
Definition parm_at (data : list byte) (o : Z * Z) (p : list byte * list byte) : Prop :=
  string_at data o.1 = Ret p.1 ∧ string_at data o.2 = Ret p.2.
Lemma parm_at_text data offs ps : Forall2 (parm_at data) offs ps → parm_text data <$> offs = ps.
Proof.
  induction 1 as [|o [n v] offs ps [Hn Hv] _ IH]; [done|]. cbn [fmap list_fmap]. f_equal; [|exact IH].
  unfold parm_text. by rewrite (string_at_cstr _ _ _ Hn), (string_at_cstr _ _ _ Hv).
Qed.

Definition startup_counted (data : list byte) (last : Z) (counted : outcome parm_list)
    (filled : outcome (list (Z * Z))) (v : verdict (list (list byte * list byte))) : Prop :=
  match v with
  | Accept ps => ∃ c num offs, counted = Ret (ParmsEnd c num) ∧ load8 data c = Ret nul ∧
      c + 1 = last ∧ filled = Ret offs ∧ Forall2 (parm_at data) offs ps
  | Refuse e args =>
      (∃ field, counted = Ret (ParmsError (e, field)) ∧ args = [str "StartupMessage"; str field]) ∨
      (∃ c num, counted = Ret (ParmsEnd c num) ∧
         ((c = last ∧ e = ERR_ROCTO_MISSING_NULL ∧
           args = [str "StartupMessage"; str "parameter list"]) ∨
          (load8 data c = Ret nul ∧ c + 1 < last ∧ e = ERR_ROCTO_TRAILING_CHARS ∧
           args = [str "StartupMessage"])))
  end.

Lemma count_parms_spec fuel data pre r cur last num :
  data = pre ++ r → cur = zlen pre → last = zlen data → (length r < fuel)%nat →
  startup_counted data last (count_parms fuel data cur last num) (fill_parms fuel data cur last)
    (parse_startup fuel r).
Proof.
  revert pre r cur num. induction fuel as [|fuel IH]; intros pre r cur num Hd Hc Hl Hf; [lia|].
  assert (Hz : zlen data = zlen pre + zlen r) by (subst data; by rewrite zlen_app).
  cbn [count_parms fill_parms parse_startup]. destruct r as [|x r].
  { destruct (Z.ltb_spec cur last); [zlia|]. right. exists cur, num. split; [done|]. left. split; [zlia|done]. }
  destruct (Z.ltb_spec cur last); [|zlia].
  assert (E : load8 data cur = Ret x) by (by apply (load8_app_eq data cur pre x r)).
  rewrite E. cbn [mbind outcome_bind]. destruct (decide (x = nul)) as [->|Hx].
  { destruct r as [|y r].
    - exists cur, num, []. split; [done|]. split; [done|]. split; [zlia|done].
    - right. exists cur, num. split; [done|]. right. split; [done|]. split; [zlia|done]. }
  remember (x :: r) as R eqn:HR.
  rewrite (expect_nul_spec data pre R []); [|by rewrite app_nil_r|done|lia]. cbn [mbind outcome_bind].
  rewrite (scan_nul_spec (scan_fuel data) data pre R []);
    [|by rewrite app_nil_r|done|lia|unfold scan_fuel; subst data; rewrite length_app; lia].
  unfold nul_distance at 1. cbn [mbind outcome_bind].
  destruct (split_nul R) as [[name r1]|] eqn:E1; [|left; by eexists].
  apply split_nul_Some in E1 as [E1 Hname].
  assert (Hd1 : data = (pre ++ name ++ [nul]) ++ r1) by (subst data; rewrite E1; by rewrite <- !app_assoc).
  assert (Hz1 : zlen R = zlen name + 1 + zlen r1) by (rewrite E1; zlia).
  rewrite (expect_nul_spec data (pre ++ name ++ [nul]) r1 []); [|by rewrite app_nil_r|zlia|zlia].
  rewrite (load8_app_eq data (cur + zlen name) (pre ++ name) nul r1);
    [|rewrite Hd1; by rewrite <- !app_assoc|zlia].
  cbn [mbind outcome_bind]. rewrite bool_decide_true by done. cbn [c_assert mbind outcome_bind].
  rewrite (scan_nul_spec (scan_fuel data) data (pre ++ name ++ [nul]) r1 []);
    [|by rewrite app_nil_r|zlia|zlia|unfold scan_fuel; rewrite Hd1, length_app; lia].
  unfold nul_distance. cbn [mbind outcome_bind].
  destruct (split_nul r1) as [[value r2]|] eqn:E2; [|left; by eexists].
  apply split_nul_Some in E2 as [E2 Hvalue].
  assert (Hd2 : data = (pre ++ name ++ [nul] ++ value ++ [nul]) ++ r2)
    by (rewrite Hd1, E2; by rewrite <- !app_assoc).
  assert (Hz2 : zlen r1 = zlen value + 1 + zlen r2) by (rewrite E2; zlia).
  rewrite (load8_app_eq data (cur + zlen name + 1 + zlen value) (pre ++ name ++ [nul] ++ value) nul r2);
    [|rewrite Hd2; by rewrite <- !app_assoc|zlia].
  cbn [mbind outcome_bind]. rewrite bool_decide_true by done. cbn [c_assert mbind outcome_bind].
  assert (Hlr : (length r2 < fuel)%nat) by (unfold zlen in Hz1, Hz2; lia).
  specialize (IH (pre ++ name ++ [nul] ++ value ++ [nul]) r2 (cur + zlen name + 1 + zlen value + 1)
    (num + 1) Hd2 ltac:(zlia) Hl Hlr).
  destruct (parse_startup fuel r2) as [ps|e args]; cbn [startup_counted] in IH |- *; [|done].
  destruct IH as (c & num' & offs & -> & Hn & Hc1 & -> & Hv).
  exists c, num', ((cur, cur + zlen name + 1) :: offs). split; [done|]. split; [done|].
  split; [done|]. split; [done|]. constructor; [|done]. split; cbn [fst snd].
  - apply (string_at_app data pre name r1); [rewrite Hd1; by rewrite <- !app_assoc|done|done].
  - apply (string_at_app data (pre ++ name ++ [nul]) value r2);
      [rewrite Hd2; by rewrite <- !app_assoc|zlia|done].
Qed.

(** The eight bytes rocto reads first. *)
Definition startup_header (payload : list byte) : list byte := be32 (zlen payload + 8) ++ be32 196608.
Definition parse_startup_payload (p : list byte) := parse_startup (S (length p)) p.
Fixpoint encode_startup (ps : list (list byte * list byte)) : list byte :=
  match ps with
  | [] => [nul]
  | (name, value) :: ps' => name ++ nul :: value ++ nul :: encode_startup ps'
  end.
Definition startup_parm_ok (p : list byte * list byte) : Prop :=
  p.1 ≠ [] ∧ no_nul p.1 ∧ no_nul p.2.

Lemma parse_startup_encode ps fuel :
  Forall startup_parm_ok ps → (length (encode_startup ps) < fuel)%nat →
  parse_startup fuel (encode_startup ps) = Accept ps.
Proof.
  intros Hok. revert fuel. induction Hok as [|[name value] ps (Hne & Hn & Hv) Hps IH];
    intros [|fuel] Hf; try lia; [done|]. cbn [fst snd] in *. cbn [encode_startup] in *.
  destruct name as [|c name]; [done|]. cbn [parse_startup app].
  assert (c ≠ nul) by (intros ->; apply Hn; left). rewrite decide_False by done.
  change (c :: name ++ nul :: value ++ nul :: encode_startup ps)
    with ((c :: name) ++ nul :: value ++ nul :: encode_startup ps).
  rewrite !split_nul_app by done. rewrite IH; [done|].
  rewrite length_app in Hf. cbn [length] in Hf. rewrite length_app in Hf. cbn [length] in Hf. lia.
Qed.

Lemma read_startup_message_spec mem net payload rest :
  0 < zlen payload → zlen payload + 8 < 2 ^ 31 → stream net = payload ++ rest →
  ∃ net', stream net' = rest ∧
  match parse_startup_payload payload with
  | Accept ps => ∃ m, read_startup_message mem net (startup_header payload) = Ret ((Some m, None), net') ∧
      Forall2 (parm_at (sm_data m)) (sm_parameters m) ps ∧ sm_num_parameters m = zlen ps
  | Refuse e args => read_startup_message mem net (startup_header payload) =
      (r ← protocol_error e args; Ret (r, net'))
  end.
Proof.
  intros Hp Hs Hn. unfold read_startup_message, startup_header.
  rewrite (load_be32_at _ 0 [] (zlen payload + 8) (be32 196608)) by done. cbn [mbind outcome_bind].
  rewrite (load_be32_at _ 4 (be32 (zlen payload + 8)) 196608 []);
    [|by rewrite app_nil_r|done]. cbn [mbind outcome_bind].
  change (negb (s32 (u32 196608) =? 196608)) with false. cbn iota.
  rewrite u32_small by lia. destruct (Z.eqb_spec (zlen payload + 8) 8); [lia|].
  destruct (Z.ltb_spec (zlen payload + 8) 8); [lia|].
  destruct (Z.leb_spec (2 ^ 31) (zlen payload + 8)); [lia|]. rewrite Z.add_simpl_r.
  pose proof (zlen_malloc mem (zlen payload) ltac:(lia)) as Hm. set (blk := malloc mem (zlen payload)) in *.
  pose proof (read_bytes_spec net [] blk [] 0 (zlen payload) (zlen payload) eq_refl (eq_sym Hm) (Z.le_refl _)) as Hr.
  cbn [app] in Hr. rewrite !app_nil_r, Hn in Hr.
  destruct (Z.leb_spec (zlen payload) (zlen (payload ++ rest))); [|rewrite zlen_app in *; zlia].
  assert (Hl : length blk = length payload) by (unfold zlen in Hm; lia).
  rewrite Hl, take_app_length, drop_app_length in Hr. destruct Hr as (net' & -> & Hs' & _).
  cbn [mbind outcome_bind]. exists net'. split; [done|].
  pose proof (count_parms_spec (S (length payload)) payload [] payload 0 (zlen payload) 0 eq_refl eq_refl
    eq_refl ltac:(lia)) as Hc. unfold parse_startup_payload, scan_fuel.
  destruct (parse_startup (S (length payload)) payload) as [ps|e args]; cbn [startup_counted] in Hc.
  - destruct Hc as (c & num & offs & -> & Hl8 & Hc1 & -> & Hv). cbn [mbind outcome_bind].
    destruct (Z.eqb_spec c (zlen payload)); [lia|]. rewrite Hl8. cbn [mbind outcome_bind].
    rewrite bool_decide_true by done. cbn [negb]. destruct (Z.eqb_spec (c + 1) (zlen payload)); [|lia].
    cbn [negb mbind outcome_bind]. eexists. split; [done|]. cbn [sm_data sm_parameters sm_num_parameters].
    split; [done|]. unfold zlen. by rewrite (Forall2_length Hv).
  - destruct Hc as [(field & -> & ->)|(c & num & -> & [(-> & -> & ->)|(Hl8 & Hc1 & -> & ->)])].
    + done.
    + cbn [mbind outcome_bind]. by rewrite Z.eqb_refl.
    + cbn [mbind outcome_bind]. destruct (Z.eqb_spec c (zlen payload)); [lia|]. rewrite Hl8.
      cbn [mbind outcome_bind]. rewrite bool_decide_true by done. cbn [negb].
      destruct (Z.eqb_spec (c + 1) (zlen payload)); [lia|done].
Qed.

(** The startup message: when the announced bytes arrive (in whatever pieces),
    [read_startup_message] computes the list parser of the parameter list, never
    leaves its block, and takes exactly those bytes off the stream, with the names
    and values it points to terminated inside the block; a list of non-empty names
    with values comes back unchanged. *)
Theorem read_startup_message_refines mem net payload rest :
  0 < zlen payload → zlen payload + 8 < 2 ^ 31 → stream net = payload ++ rest →
  (∃ net', stream net' = rest ∧
   match parse_startup_payload payload with
   | Accept ps => ∃ m, read_startup_message mem net (startup_header payload) = Ret ((Some m, None), net') ∧
       Forall2 (parm_at (sm_data m)) (sm_parameters m) ps ∧ sm_num_parameters m = zlen ps
   | Refuse e args => read_startup_message mem net (startup_header payload) =
       (r ← protocol_error e args; Ret (r, net'))
   end) ∧
  ∀ ps, Forall startup_parm_ok ps → payload = encode_startup ps → parse_startup_payload payload = Accept ps.
Proof.
  intros Hp Hs Hn. split; [by apply read_startup_message_spec|].
  intros ps Hok ->. apply parse_startup_encode; [done|lia].
Qed.

Definition sample_parms : list (list byte * list byte) :=
  [(lit "user", lit "octo"); (lit "database", lit "db")].
Lemma read_startup_message_refines_witness :
  parse_startup_payload (encode_startup sample_parms) = Accept sample_parms.
Proof.
  apply (read_startup_message_refines (λ _, nul) [Data (chr "u") (tail (encode_startup sample_parms))]
    (encode_startup sample_parms) []); try (vm_compute; reflexivity).
  unfold sample_parms, startup_parm_ok.
  repeat (constructor; [split_and!; [discriminate|eval_decide|eval_decide]|]). constructor.
Defined.

(** The result of the read is not looked at: when the peer closes the
    connection before the announced bytes arrive, the parameters are read from
    whatever the fresh memory held and the message is accepted. *)
Theorem startup_short_read_accepted :
  ∃ mem m net', read_startup_message mem [] (startup_header (encode_startup sample_parms)) =
    Ret ((Some m, None), net') ∧
    parm_text (sm_data m) <$> sm_parameters m = sample_parms.
Proof.
  exists (λ n, nth n (encode_startup sample_parms) nul). do 2 eexists.
  split; [vm_compute; reflexivity|]. vm_compute. reflexivity.
Qed.
