(* ===== verification/Quoting.v ===== *)
(** * M string literals and LIKE patterns

    [quoting.c], [m_escape_string2.c] and [regex_to_like.c]: doubling the quotes of
    a string that goes into generated M code, undoing it, and turning a LIKE
    pattern into a regular expression.  A destination buffer is a block of its
    declared size; a write past it is out of bounds. *)
From stdpp Require Import strings.
From S2P Require Import Prelude CMem Errors.

Definition quote : byte := x22.

(** ** Escaping *)
Fixpoint escape_loop (s : list byte) (st : list byte * Z) : outcome (list byte * Z) :=
  match s with
  | [] => Ret st
  | c :: s' =>
      if decide (c = quote) then st ← put st [quote]; st ← put st [quote]; escape_loop s' st
      else st ← put st [c]; escape_loop s' st
  end.
(** The block [octo_cmalloc] returned: zeroed, [2*len] bytes. *)
Definition m_escape_string (string : list byte) : outcome (list byte) :=
  let s := cstr string in
  let len := s32 (zlen s) in
  st ← escape_loop s (replicate (Z.to_nat (2 * len)) nul, 0);
  st ← put st [nul];
  Ret st.1.

Fixpoint unescape_loop (s : list byte) (quote_count : Z) (st : list byte * Z)
    : outcome (list byte * Z) :=
  match s with
  | [] => Ret st
  | c :: s' =>
      if decide (c = quote) then
        if quote_count =? 1 then st ← put st [quote]; unescape_loop s' 0 st
        else unescape_loop s' (quote_count + 1) st
      else
        st ← put st [c];
        _ ← c_assert (quote_count =? 0);
        unescape_loop s' quote_count st
  end.
Definition m_unescape_string (string : list byte) : outcome (list byte) :=
  let s := cstr string in
  let len := s32 (zlen s) in
  st ← unescape_loop s 0 (replicate (Z.to_nat (2 * len)) nul, 0);
  st ← put st [nul];
  Ret st.1.

(** [i] counts what was written; [buffer] is the caller's. *)
Fixpoint escape2_loop (s : list byte) (buffer_len i : Z) (st : list byte * Z)
    : outcome (list byte * Z * Z) :=
  match s with
  | [] => Ret (st, i)
  | c :: s' =>
      if i <? buffer_len then
        if decide (c = quote) then
          st ← put st [quote]; st ← put st [quote]; escape2_loop s' buffer_len (i + 2) st
        else st ← put st [c]; escape2_loop s' buffer_len (i + 1) st
      else Ret (st, i)
  end.
Definition m_escape_string2 (buffer : list byte) (buffer_len : Z) (string : list byte)
    : outcome (list byte * Z) :=
  '(st, i) ← escape2_loop (cstr string) buffer_len 0 (buffer, 0);
  st ← put st [nul];
  Ret (st.1, i).

(** ** LIKE *)
Definition percent : byte := chr "%".
Definition underscore : byte := chr "_".
Definition dot : byte := chr ".".
Definition star : byte := chr "*".

Fixpoint like_loop (s : list byte) (end_ : Z) (st : list byte * Z) : outcome (list byte * Z) :=
  match s with
  | [] => Ret st
  | c :: s' =>
      if st.2 <? end_ then
        if decide (c = percent) then st ← put st [dot]; st ← put st [star]; like_loop s' end_ st
        else if decide (c = underscore) then st ← put st [dot]; like_loop s' end_ st
        else st ← put st [c]; like_loop s' end_ st
      else Ret st
  end.
Definition regex_to_like (src : list byte) : outcome (list byte) :=
  let ret := replicate (Z.to_nat MAX_STR_CONST) nul in
  st ← put (ret, 0) [chr "^"];
  st ← like_loop (cstr src) MAX_STR_CONST st;
  st ← put st [chr "$"];
  st ← put st [nul];
  Ret st.1.

(** ** What they compute *)
Fixpoint escaped (s : list byte) : list byte :=
  match s with
  | [] => []
  | c :: s' => if decide (c = quote) then quote :: quote :: escaped s' else c :: escaped s'
  end.
Fixpoint like_regex (s : list byte) : list byte :=
  match s with
  | [] => []
  | c :: s' =>
      if decide (c = percent) then dot :: star :: like_regex s'
      else if decide (c = underscore) then dot :: like_regex s' else c :: like_regex s'
  end.

Lemma escape_loop_spec s w n :
  zlen (escaped s) ≤ n →
  escape_loop s (w ++ replicate (Z.to_nat n) nul, zlen w) =
  Ret ((w ++ escaped s) ++ replicate (Z.to_nat (n - zlen (escaped s))) nul, zlen (w ++ escaped s)).
Proof.
  revert w n. induction s as [|c s IH]; intros w n Hn; cbn [escape_loop escaped] in *.
  - by rewrite app_nil_r, zlen_nil, Z.sub_0_r.
  - case_decide as Hc; rewrite !zlen_cons in *; zlen_pos.
    + rewrite put_zeros by (change (zlen [quote]) with 1; lia). cbn [mbind outcome_bind].
      rewrite put_zeros by (change (zlen [quote]) with 1; lia). cbn [mbind outcome_bind].
      change (zlen [quote]) with 1. rewrite IH by lia. rewrite <- !app_assoc. cbn [app].
      by rewrite <- !Z.sub_add_distr.
    + rewrite put_zeros by (change (zlen [c]) with 1; lia). cbn [mbind outcome_bind].
      change (zlen [c]) with 1. rewrite IH by lia. rewrite <- !app_assoc. cbn [app].
      by rewrite <- !Z.sub_add_distr.
Qed.

Lemma zlen_escaped s : zlen s ≤ zlen (escaped s) ≤ 2 * zlen s.
Proof.
  induction s as [|c s IH]; cbn [escaped]; [zlia|]. case_decide; rewrite !zlen_cons; lia.
Qed.
Lemma escaped_all_quotes s : zlen (escaped s) = 2 * zlen s ↔ Forall (λ c, c = quote) s.
Proof.
  induction s as [|c s IH]; cbn [escaped]; [done|]. pose proof (zlen_escaped s).
  rewrite Forall_cons_iff, <- IH. case_decide as Hc; rewrite !zlen_cons.
  - split; [split; [done|lia]|lia].
  - split; [lia|by intros [? _]].
Qed.

Lemma escaped_no_nul s : no_nul s → no_nul (escaped s).
Proof.
  unfold no_nul. induction s as [|c s IH]; [done|]. intros [Hc Hn]%not_elem_of_cons. cbn [escaped].
  case_decide; rewrite !not_elem_of_cons; split_and!; auto; done.
Qed.

(** ** Theorems *)
(** [m_escape_string] doubles every quote and terminates the result in a block
    of twice the length - except that a string of nothing but quotes, the empty one
    included, leaves no room for the terminator, which is then written past the
    end. *)
Theorem m_escape_string_correct s :
  no_nul s → zlen s < 2 ^ 31 →
  (Exists (λ c, c ≠ quote) s →
     ∃ buf, m_escape_string s = Ret buf ∧ zlen buf = 2 * zlen s ∧ cstr buf = escaped s) ∧
  (Forall (λ c, c = quote) s → m_escape_string s = Undef OutOfBounds).
Proof.
  intros Hn Hs. unfold m_escape_string. rewrite cstr_id by done. zlen_pos. rewrite s32_small by lia.
  pose proof (zlen_escaped s) as Hz.
  pose proof (escape_loop_spec s [] (2 * zlen s) ltac:(lia)) as E. cbn [app] in E. rewrite zlen_nil in E.
  rewrite E. cbn [mbind outcome_bind]. split; intros Hq.
  - assert (zlen (escaped s) ≠ 2 * zlen s).
    { rewrite escaped_all_quotes. intros Hall. apply Exists_exists in Hq as (c & Hc & Hq).
      by apply Hq, (proj1 (Forall_forall _ _) Hall). }
    rewrite put_zeros by (change (zlen [nul]) with 1; lia). cbn [mbind outcome_bind fst].
    eexists. split; [done|]. split; [rewrite !zlen_app, zlen_replicate; change (zlen [nul]) with 1; lia|].
    rewrite <- app_assoc. by apply cstr_app_nul, escaped_no_nul.
  - apply escaped_all_quotes in Hq. rewrite Hq, Z.sub_diag. cbn [Z.to_nat replicate]. rewrite app_nil_r.
    unfold put, store_bytes; cbn [fst snd]. change (zlen [nul]) with 1.
    replace (zlen (escaped s) <? 2 * zlen s + 1) with true by (symmetry; apply Z.ltb_lt; lia).
    by rewrite orb_true_r.
Qed.

Lemma m_escape_string_correct_witness :
  ∃ buf, m_escape_string (lit "a" ++ [quote] ++ lit "b") = Ret buf ∧ zlen buf = 6 ∧
         cstr buf = lit "a" ++ [quote; quote] ++ lit "b".
Proof.
  apply (m_escape_string_correct (lit "a" ++ [quote] ++ lit "b")); [eval_decide|done|].
  by apply Exists_cons_hd.
Defined.

Lemma unescape_loop_spec s w n :
  zlen s ≤ n →
  unescape_loop (escaped s) 0 (w ++ replicate (Z.to_nat n) nul, zlen w) =
  Ret ((w ++ s) ++ replicate (Z.to_nat (n - zlen s)) nul, zlen (w ++ s)).
Proof.
  revert w n. induction s as [|c s IH]; intros w n Hn; cbn [escaped].
  - cbn [unescape_loop]. by rewrite app_nil_r, zlen_nil, Z.sub_0_r.
  - rewrite zlen_cons in Hn. zlen_pos. destruct (decide (c = quote)) as [->|Hc]; cbn [unescape_loop].
    + rewrite !decide_True by done. cbn [Z.eqb Z.add Pos.eqb].
      rewrite put_zeros by (change (zlen [quote]) with 1; lia). cbn [mbind outcome_bind].
      change (zlen [quote]) with 1. rewrite IH by lia. rewrite <- !app_assoc, zlen_cons. cbn [app].
      by rewrite <- !Z.sub_add_distr.
    + rewrite decide_False by done.
      rewrite put_zeros by (change (zlen [c]) with 1; lia). cbn [mbind outcome_bind].
      change (zlen [c]) with 1. cbn [Z.eqb c_assert mbind outcome_bind].
      rewrite IH by lia. rewrite <- !app_assoc, zlen_cons. cbn [app]. by rewrite <- !Z.sub_add_distr.
Qed.

(** Round trip: unescaping an escaped string gives it back, with room to spare
    in the block [m_unescape_string] asks for. *)
Theorem m_unescape_escape s :
  no_nul s → s ≠ [] → zlen s < 2 ^ 30 →
  ∃ buf, m_unescape_string (escaped s) = Ret buf ∧ cstr buf = s.
Proof.
  intros Hn Hne Hs. pose proof (zlen_escaped s) as Hz. zlen_pos.
  assert (0 < zlen s) by (destruct s; [done|zlia]).
  unfold m_unescape_string. rewrite cstr_id by (by apply escaped_no_nul). rewrite s32_small by lia.
  pose proof (unescape_loop_spec s [] (2 * zlen (escaped s)) ltac:(lia)) as E.
  cbn [app] in E. change (zlen []) with 0 in E. rewrite E. cbn [mbind outcome_bind].
  rewrite put_zeros by (change (zlen [nul]) with 1; lia). cbn [mbind outcome_bind fst].
  eexists. split; [done|]. rewrite <- app_assoc. by apply cstr_app_nul.
Qed.

Lemma m_unescape_escape_witness :
  ∃ buf, m_unescape_string (escaped (lit "say " ++ [quote; quote])) = Ret buf ∧
         cstr buf = lit "say " ++ [quote; quote].
Proof.
  apply (m_unescape_escape (lit "say " ++ [quote; quote])); [eval_decide|discriminate|done].
Defined.

(** ** LIKE patterns and the regular expressions made of them *)
Fixpoint any_suffix (f : list byte → bool) (s : list byte) : bool :=
  f s || match s with [] => false | _ :: s' => any_suffix f s' end.
(** LIKE: [%] is any string, [_] any one character. *)
Fixpoint like (p : list byte) (s : list byte) : bool :=
  match p with
  | [] => bool_decide (s = [])
  | c :: p' =>
      if decide (c = percent) then any_suffix (like p') s
      else match s with
      | [] => false
      | x :: s' => (bool_decide (c = underscore) || bool_decide (x = c)) && like p' s'
      end
  end.

(** The fragment of regular expressions the translation produces: characters,
    [.] and a trailing [*]. *)
Inductive atom := Any | Lit (c : byte).
Definition atom_of (c : byte) : atom := if decide (c = dot) then Any else Lit c.
Definition atom_ok (a : atom) (x : byte) : bool :=
  match a with Any => true | Lit c => bool_decide (x = c) end.
Fixpoint parse_regex (re : list byte) : list (atom * bool) :=
  match re with
  | [] => []
  | c :: r =>
      match r with
      | [] => [(atom_of c, false)]
      | d :: r' =>
          if decide (d = star) then (atom_of c, true) :: parse_regex r'
          else (atom_of c, false) :: parse_regex r
      end
  end.
Fixpoint star_match (a : atom) (f : list byte → bool) (s : list byte) : bool :=
  f s || match s with [] => false | x :: s' => atom_ok a x && star_match a f s' end.
Fixpoint regex_match (re : list (atom * bool)) (s : list byte) : bool :=
  match re with
  | [] => bool_decide (s = [])
  | (a, true) :: re' => star_match a (regex_match re') s
  | (a, false) :: re' => match s with [] => false | x :: s' => atom_ok a x && regex_match re' s' end
  end.
(** An anchored expression, as text. *)
Definition anchored (body : list byte) : list byte := chr "^" :: body ++ [chr "$"].

Definition metacharacters : list byte := lit ".*[]\^$+?(){}|".
Definition plain (src : list byte) : Prop := Forall (λ c, c ∉ metacharacters) src.

Lemma plain_head c src : plain (c :: src) → c ≠ dot ∧ c ≠ star.
Proof. intros [H _]%Forall_cons_iff. split; intros ->; apply H; eval_decide. Qed.

Lemma like_regex_head src d r : plain src → like_regex src = d :: r → d ≠ star.
Proof.
  destruct src as [|c src]; [done|]. intros Hp. destruct (plain_head _ _ Hp). cbn [like_regex].
  repeat case_decide; intros [= <- _]; done.
Qed.

Lemma parse_char c src : plain src →
  parse_regex (c :: like_regex src) = (atom_of c, false) :: parse_regex (like_regex src).
Proof.
  intros Hp. cbn [parse_regex]. destruct (like_regex src) as [|d r] eqn:E; [done|].
  rewrite decide_False; [done|]. by apply (like_regex_head src d r).
Qed.

Lemma star_any f s : star_match Any f s = any_suffix f s.
Proof. induction s as [|x s IH]; cbn [star_match any_suffix]; [done|]. by rewrite <- IH. Qed.
Lemma any_suffix_ext f g s : (∀ t, f t = g t) → any_suffix f s = any_suffix g s.
Proof. intros H. induction s as [|x s IH]; cbn [any_suffix]; rewrite H; [done|]. by rewrite IH. Qed.

Lemma like_regex_matches src s : plain src →
  regex_match (parse_regex (like_regex src)) s = like src s.
Proof.
  revert s. induction src as [|c src IH]; intros s Hp; [done|].
  destruct (plain_head _ _ Hp) as [Hd Hs]. pose proof Hp as [_ Hp']%Forall_cons_iff.
  cbn [like_regex like]. destruct (decide (c = percent)) as [->|Hc].
  - cbn [parse_regex]. rewrite decide_True by done. change (atom_of dot) with Any. cbn [regex_match].
    rewrite star_any. apply any_suffix_ext. intros t. by apply IH.
  - destruct (decide (c = underscore)) as [->|Hu]; rewrite parse_char by done; cbn [regex_match];
      (destruct s as [|x s]; [done|]); rewrite IH by done.
    + done.
    + unfold atom_of. rewrite decide_False by done. cbn [atom_ok]. by rewrite (bool_decide_false (c = underscore)).
Qed.

(** ** The buffer of [regex_to_like] *)
Lemma put_past buf i bs : zlen buf < i + zlen bs → put (buf, i) bs = Undef OutOfBounds.
Proof.
  intros H. unfold put, store_bytes; cbn [fst snd].
  replace (zlen buf <? i + zlen bs) with true by (symmetry; apply Z.ltb_lt; lia). by rewrite orb_true_r.
Qed.

(** The loop wrote all of [e] after [w], or ran into the end of the buffer. *)
Definition loop_result (o : outcome (list byte * Z)) (w e : list byte) (n end_ : Z) : Prop :=
  (zlen e ≤ n → o = Ret ((w ++ e) ++ replicate (Z.to_nat (n - zlen e)) nul, zlen (w ++ e))) ∧
  (n < zlen e → o = Undef OutOfBounds ∨ ∃ buf, o = Ret (buf, end_) ∧ zlen buf = end_).

Lemma loop_result_cons o w x e n end_ :
  loop_result o (w ++ [x]) e (n - 1) end_ → loop_result o w (x :: e) n end_.
Proof.
  intros [H1 H2]. split; rewrite zlen_cons; intros Hz; [|apply H2; lia].
  rewrite H1 by lia. rewrite <- !app_assoc. cbn [app]. by rewrite <- Z.sub_add_distr.
Qed.

Lemma like_loop_spec s w n end_ :
  end_ = zlen w + n → 0 ≤ n →
  loop_result (like_loop s end_ (w ++ replicate (Z.to_nat n) nul, zlen w)) w (like_regex s) n end_.
Proof.
  revert w n. induction s as [|c s IH]; intros w n He Hn; cbn [like_loop like_regex].
  { split; [by rewrite app_nil_r, zlen_nil, Z.sub_0_r|zlia]. }
  cbn [fst snd]. destruct (Z.ltb_spec (zlen w) end_) as [Hlt|Hge].
  2:{ assert (n = 0) as -> by lia. split; [repeat case_decide; zlia|]. intros _. right.
      eexists. split; [repeat f_equal; lia|]. zlia. }
  assert (Hstep : ∀ v k x, 1 ≤ k → put (v ++ replicate (Z.to_nat k) nul, zlen v) [x] =
    Ret ((v ++ [x]) ++ replicate (Z.to_nat (k - 1)) nul, zlen (v ++ [x])))
    by (intros v k x Hk; rewrite put_zeros by (change (zlen [x]) with 1; lia); done).
  destruct (decide (c = percent)) as [_|_].
  - rewrite Hstep by lia. cbn [mbind outcome_bind]. apply loop_result_cons.
    destruct (decide (n = 1)) as [->|Hn1].
    + rewrite put_past by zlia. split; [zlia|]. by left.
    + rewrite Hstep by lia. cbn [mbind outcome_bind]. apply loop_result_cons, IH; zlia.
  - destruct (decide (c = underscore)) as [_|_]; rewrite Hstep by lia; cbn [mbind outcome_bind];
      apply loop_result_cons, IH; zlia.
Qed.

(** [regex_to_like] (which turns a LIKE pattern into a regular expression)
    returns the anchored translation when it fits its fixed buffer with its
    terminator, and otherwise writes past the end of it.  For patterns without
    regular-expression metacharacters the translation matches exactly the strings
    LIKE matches; a metacharacter is not escaped, so LIKE 'a.c' also finds 'abc'. *)
Theorem regex_to_like_correct src :
  no_nul src →
  (zlen (like_regex src) + 3 ≤ MAX_STR_CONST →
     ∃ buf, regex_to_like src = Ret buf ∧ zlen buf = MAX_STR_CONST ∧
            take (length (anchored (like_regex src)) + 1) buf = anchored (like_regex src) ++ [nul]) ∧
  (MAX_STR_CONST < zlen (like_regex src) + 3 → regex_to_like src = Undef OutOfBounds) ∧
  (plain src → ∀ s, regex_match (parse_regex (like_regex src)) s = like src s) ∧
  (regex_match (parse_regex (like_regex (lit "a.c"))) (lit "abc") = true ∧
   like (lit "a.c") (lit "abc") = false).
Proof.
  intros Hn. unfold regex_to_like. rewrite cstr_id by done. set (e := like_regex src).
  assert (E0 : put (replicate (Z.to_nat MAX_STR_CONST) nul, 0) [chr "^"] =
    Ret ([chr "^"] ++ replicate (Z.to_nat (MAX_STR_CONST - 1)) nul, 1))
    by exact (put_zeros [] MAX_STR_CONST [chr "^"] ltac:(done)).
  rewrite E0. cbn [mbind outcome_bind]. zlen_pos.
  destruct (like_loop_spec src [chr "^"] (MAX_STR_CONST - 1) MAX_STR_CONST ltac:(done) ltac:(done)) as [L1 L2].
  fold e in L1, L2. change (zlen [chr "^"]) with 1 in L1, L2.
  split_and!; [| |intros Hp s; by apply like_regex_matches|by vm_compute|by vm_compute].
  - intros Hf. rewrite L1 by lia. cbn [mbind outcome_bind].
    rewrite put_zeros by (change (zlen [chr "$"]) with 1; lia). cbn [mbind outcome_bind].
    rewrite put_zeros by (change (zlen [chr "$"]) with 1; change (zlen [nul]) with 1; lia).
    cbn [mbind outcome_bind fst]. eexists. split; [done|]. split.
    + rewrite !zlen_app, zlen_replicate. change (zlen [chr "^"]) with 1. change (zlen [chr "$"]) with 1.
      change (zlen [nul]) with 1. lia.
    + change (([chr "^"] ++ e) ++ [chr "$"]) with (anchored e).
      replace (length (anchored e) + 1)%nat with (length (anchored e ++ [nul])) by (rewrite length_app; done).
      apply take_app_length.
  - intros Hf. destruct (decide (MAX_STR_CONST - 1 < zlen e)) as [Hlt|Hge].
    + destruct (L2 Hlt) as [->|(buf & -> & Hb)]; [done|]. cbn [mbind outcome_bind].
      rewrite put_past; [done|]. change (zlen [chr "$"]) with 1. lia.
    + rewrite L1 by lia. cbn [mbind outcome_bind].
      destruct (decide (zlen e = MAX_STR_CONST - 1)) as [Heq|Hneq].
      * rewrite put_past; [done|]. rewrite !zlen_app, zlen_replicate. change (zlen [chr "^"]) with 1.
        change (zlen [chr "$"]) with 1. lia.
      * rewrite put_zeros by (change (zlen [chr "$"]) with 1; lia). cbn [mbind outcome_bind].
        rewrite put_past; [done|]. rewrite !zlen_app, zlen_replicate. change (zlen [chr "^"]) with 1.
        change (zlen [chr "$"]) with 1. change (zlen [nul]) with 1. lia.
Qed.

Lemma regex_to_like_correct_witness :
  ∃ buf, regex_to_like (lit "a%_") = Ret buf ∧ zlen buf = MAX_STR_CONST ∧
         take 7 buf = lit "^a.*.$" ++ [nul].
Proof.
  apply (regex_to_like_correct (lit "a%_")); [eval_decide|vm_compute; discriminate].
Defined.
