(* ===== verification/SqlStatement.v ===== *)
(** * SQL statements

    [octo_types.h]: the syntax tree the parser builds, and
    [hash_canonical_query.c], which feeds a statement to the hash whose digest
    names the file a compiled query is kept in.

    A pointer to a statement is the tree below it, [null_STATEMENT] for NULL.  The
    structs that a logical plan or another statement refers to carry their address
    ([ptr]).  A circular list is the list of its elements from the one pointed to;
    the empty list stands for a NULL pointer, which the code always dereferences.
    [SqlTable]'s [columns], through which the columns lead back to their table, is
    an address only.  The [SqlValue]s are in a store of their own, by address: plans
    share them with the statement and the planner writes into their strings. *)
From stdpp Require Import gmap.
From S2P Require Import Prelude CMem LogicalPlan.

(** ** Enumerations *)
Inductive UnaryOperations := FORCE_NUM | NEGATIVE | BOOLEAN_NOT.
Definition unary_value (o : UnaryOperations) : Z :=
  match o with FORCE_NUM => 0 | NEGATIVE => 1 | BOOLEAN_NOT => 2 end.

Inductive BinaryOperations :=
  | ADDITION | SUBTRACTION | DVISION | MULTIPLICATION | CONCAT
  | BOOLEAN_OR | BOOLEAN_AND | BOOLEAN_IS | BOOLEAN_EQUALS | BOOLEAN_NOT_EQUALS
  | BOOLEAN_LESS_THAN | BOOLEAN_GREATER_THAN
  | BOOLEAN_LESS_THAN_OR_EQUALS | BOOLEAN_GREATER_THAN_OR_EQUALS
  | BOOLEAN_REGEX_SENSITIVE | BOOLEAN_REGEX_INSENSITIVE
  | BOOLEAN_IN | BOOLEAN_NOT_IN | BOOLEAN_NULL | BOOLEAN_NOT_NULL.
#[export] Instance BinaryOperations_eq_dec : EqDecision BinaryOperations.
Proof. solve_decision. Defined.
Definition binary_value (o : BinaryOperations) : Z :=
  match o with
  | ADDITION => 0 | SUBTRACTION => 1 | DVISION => 2 | MULTIPLICATION => 3 | CONCAT => 4
  | BOOLEAN_OR => 5 | BOOLEAN_AND => 6 | BOOLEAN_IS => 7 | BOOLEAN_EQUALS => 8
  | BOOLEAN_NOT_EQUALS => 9 | BOOLEAN_LESS_THAN => 10 | BOOLEAN_GREATER_THAN => 11
  | BOOLEAN_LESS_THAN_OR_EQUALS => 12 | BOOLEAN_GREATER_THAN_OR_EQUALS => 13
  | BOOLEAN_REGEX_SENSITIVE => 14 | BOOLEAN_REGEX_INSENSITIVE => 15
  | BOOLEAN_IN => 16 | BOOLEAN_NOT_IN => 17 | BOOLEAN_NULL => 18 | BOOLEAN_NOT_NULL => 19
  end.

Inductive SqlValueType :=
  | UNKNOWN_SqlValueType | NUMBER_LITERAL | STRING_LITERAL | DATE_TIME | COLUMN_REFERENCE
  | CALCULATED_VALUE | TEMPORARY_TABLE_TYPE | FUNCTION_NAME | BOOLEAN_VALUE
  | PARAMETER_VALUE | NUL_VALUE | COERCE_TYPE | INVALID_SqlValueType.
#[export] Instance SqlValueType_eq_dec : EqDecision SqlValueType.
Proof. solve_decision. Defined.
Definition value_type_value (t : SqlValueType) : Z :=
  match t with
  | UNKNOWN_SqlValueType => 0 | NUMBER_LITERAL => 1 | STRING_LITERAL => 2 | DATE_TIME => 3
  | COLUMN_REFERENCE => 4 | CALCULATED_VALUE => 5 | TEMPORARY_TABLE_TYPE => 6
  | FUNCTION_NAME => 7 | BOOLEAN_VALUE => 8 | PARAMETER_VALUE => 9 | NUL_VALUE => 10
  | COERCE_TYPE => 11 | INVALID_SqlValueType => 12
  end.

Inductive SqlDataType :=
  | UNKNOWN_SqlDataType | CHARACTER_STRING_TYPE | INTEGER_TYPE | DATE_TIME_TYPE | INTERVAL_TYPE.
#[export] Instance SqlDataType_eq_dec : EqDecision SqlDataType.
Proof. solve_decision. Defined.
Definition data_type_value (t : SqlDataType) : Z :=
  match t with
  | UNKNOWN_SqlDataType => 0 | CHARACTER_STRING_TYPE => 1 | INTEGER_TYPE => 2
  | DATE_TIME_TYPE => 3 | INTERVAL_TYPE => 4
  end.

Inductive OptionalKeyword :=
  | NO_KEYWORD | OPTIONAL_SOURCE | OPTIONAL_CURSE | OPTIONAL_END | OPTIONAL_START
  | OPTIONAL_DELIM | OPTIONAL_EXTRACT | OPTIONAL_CASCADE | OPTIONAL_RESTRICT
  | OPTIONAL_PIECE | OPTIONAL_KEY_NUM | OPTIONAL_ADVANCE | OPTIONAL_LIMIT
  | OPTIONAL_DISTINCT | OPTIONAL_POPULATE_INDEX | OPTIONAL_PART_OF_EXPANSION
  | UNKNOWN_SqlConstraintType | NOT_NULL | UNIQUE_CONSTRAINT | PRIMARY_KEY | REFERENCES
  | CHECK_CONSTRAINT | MAX_LENGTH.
#[export] Instance OptionalKeyword_eq_dec : EqDecision OptionalKeyword.
Proof. solve_decision. Defined.
Definition keyword_value (k : OptionalKeyword) : Z :=
  match k with
  | NO_KEYWORD => 0 | OPTIONAL_SOURCE => 1 | OPTIONAL_CURSE => 2 | OPTIONAL_END => 3
  | OPTIONAL_START => 4 | OPTIONAL_DELIM => 5 | OPTIONAL_EXTRACT => 6
  | OPTIONAL_CASCADE => 7 | OPTIONAL_RESTRICT => 8 | OPTIONAL_PIECE => 9
  | OPTIONAL_KEY_NUM => 10 | OPTIONAL_ADVANCE => 11 | OPTIONAL_LIMIT => 12
  | OPTIONAL_DISTINCT => 13 | OPTIONAL_POPULATE_INDEX => 14
  | OPTIONAL_PART_OF_EXPANSION => 15 | UNKNOWN_SqlConstraintType => 16 | NOT_NULL => 17
  | UNIQUE_CONSTRAINT => 18 | PRIMARY_KEY => 19 | REFERENCES => 20
  | CHECK_CONSTRAINT => 21 | MAX_LENGTH => 22
  end.

Inductive SqlSetOperationType :=
  | SET_UNION | SET_UNION_ALL | SET_EXCEPT | SET_EXCEPT_ALL | SET_INTERSECT | SET_INTERSECT_ALL.
Definition set_type_value (t : SqlSetOperationType) : Z :=
  match t with
  | SET_UNION => 0 | SET_UNION_ALL => 1 | SET_EXCEPT => 2 | SET_EXCEPT_ALL => 3
  | SET_INTERSECT => 4 | SET_INTERSECT_ALL => 5
  end.

Inductive SqlJoinType :=
  | NO_JOIN | TABLE_SPEC | CROSS_JOIN | INNER_JOIN | RIGHT_JOIN | LEFT_JOIN | FULL_JOIN
  | NATURAL_JOIN.
#[export] Instance SqlJoinType_eq_dec : EqDecision SqlJoinType.
Proof. solve_decision. Defined.
Definition join_type_value (t : SqlJoinType) : Z :=
  match t with
  | NO_JOIN => 0 | TABLE_SPEC => 1 | CROSS_JOIN => 2 | INNER_JOIN => 3 | RIGHT_JOIN => 4
  | LEFT_JOIN => 5 | FULL_JOIN => 6 | NATURAL_JOIN => 7
  end.

(** ** The tree *)
#[local] Set Warnings "-register-all".
Inductive SqlStatement :=
  | null_STATEMENT
  | table_STATEMENT (p : ptr) (tableName source : SqlStatement) (columns : ptr)
      (delim : SqlStatement)
  | select_STATEMENT (select_list table_list where_expression order_expression
      optional_words set_operation : SqlStatement)
  | insert_STATEMENT (p : ptr)
  | drop_STATEMENT (table_name optional_keyword : SqlStatement)
  | value_STATEMENT (p : ptr) (v : SqlStatement)      (* [v]: [calculated] or [coerce_target] *)
  | function_call_STATEMENT (function_name parameters : SqlStatement)
  | binary_STATEMENT (operation : BinaryOperations) (operand0 operand1 : SqlStatement)
  | unary_STATEMENT (operation : UnaryOperations) (operand : SqlStatement)
  | column_list_STATEMENT (ring : list SqlStatement)
  | column_STATEMENT (ring : list SqlColumn)
  | join_STATEMENT (ring : list SqlJoin)
  | data_type_STATEMENT (t : SqlDataType)
  | constraint_STATEMENT (ring : list SqlOptionalKeyword)
  | constraint_type_STATEMENT
  | keyword_STATEMENT (ring : list SqlOptionalKeyword)
  | column_list_alias_STATEMENT (ring : list SqlColumnListAlias)
  | column_alias_STATEMENT (p : ptr) (column table_alias : SqlStatement)
  | table_alias_STATEMENT (p : ptr) (table alias : SqlStatement) (unique_id : Z)
      (column_list : SqlStatement)
  | join_type_STATEMENT (t : SqlJoinType)
  | set_operation_STATEMENT (type : SqlSetOperationType) (operand0 operand1 : SqlStatement)
  | begin_STATEMENT
  | commit_STATEMENT
  | cas_STATEMENT (value branches optional_else : SqlStatement)
  | cas_branch_STATEMENT (ring : list SqlCaseBranchStatement)
  | set_STATEMENT (variable value : SqlStatement)
  | show_STATEMENT (variable : SqlStatement)
  | no_data_STATEMENT
  | invalid_STATEMENT
with SqlColumn :=
  | Column (p : ptr) (columnName : SqlStatement) (type : SqlDataType)
      (table keywords : SqlStatement)
with SqlJoin :=
  | Join (value condition : SqlStatement) (type : SqlJoinType)
with SqlOptionalKeyword :=
  | Keyword (keyword : OptionalKeyword) (v : SqlStatement)
with SqlColumnListAlias :=
  | ColumnListAlias (p : ptr) (column_list alias keywords : SqlStatement) (type : SqlValueType)
with SqlCaseBranchStatement :=
  | CaseBranch (condition value : SqlStatement).

Definition is_null_stmt (s : SqlStatement) : bool :=
  match s with null_STATEMENT => true | _ => false end.

(** [stmt->type], as its enumerator's value. *)
Definition statement_type (s : SqlStatement) : outcome Z :=
  match s with
  | null_STATEMENT => Undef NullPointer
  | table_STATEMENT _ _ _ _ _ => Ret 0
  | select_STATEMENT _ _ _ _ _ _ => Ret 1
  | insert_STATEMENT _ => Ret 2
  | drop_STATEMENT _ _ => Ret 3
  | value_STATEMENT _ _ => Ret 4
  | function_call_STATEMENT _ _ => Ret 5
  | binary_STATEMENT _ _ _ => Ret 6
  | unary_STATEMENT _ _ => Ret 7
  | column_list_STATEMENT _ => Ret 8
  | column_STATEMENT _ => Ret 9
  | join_STATEMENT _ => Ret 10
  | data_type_STATEMENT _ => Ret 11
  | constraint_STATEMENT _ => Ret 12
  | constraint_type_STATEMENT => Ret 13
  | keyword_STATEMENT _ => Ret 14
  | column_list_alias_STATEMENT _ => Ret 15
  | column_alias_STATEMENT _ _ _ => Ret 16
  | table_alias_STATEMENT _ _ _ _ _ => Ret 17
  | join_type_STATEMENT _ => Ret 18
  | set_operation_STATEMENT _ _ _ => Ret 19
  | begin_STATEMENT => Ret 20
  | commit_STATEMENT => Ret 21
  | cas_STATEMENT _ _ _ => Ret 22
  | cas_branch_STATEMENT _ => Ret 23
  | set_STATEMENT _ _ => Ret 24
  | show_STATEMENT _ => Ret 25
  | no_data_STATEMENT => Ret 26
  | invalid_STATEMENT => Ret 27
  end.

(** The values in memory; [sv_literal] is the string of [string_literal] and
    [reference], when that is the member in use. *)
Record SqlValue := {
  sv_type : SqlValueType;
  sv_coerced_type : SqlValueType;
  sv_data_type : SqlDataType;
  sv_literal : list byte;
}.
Abbreviation values := (gmap ptr SqlValue).
Definition value_at (m : values) (p : ptr) : outcome SqlValue :=
  match m !! p with Some v => Ret v | None => Undef NullPointer end.

(** [do ... while(cur != start)] over a ring, with the results appended. *)
Definition ring_bytes {A} (f : A → outcome (list byte)) : list A → outcome (list byte) :=
  fix go l := match l with [] => Ret [] | x :: l' => a ← f x; b ← go l'; Ret (a ++ b) end.
Definition do_ring {A} (f : A → outcome (list byte)) (l : list A) : outcome (list byte) :=
  match l with [] => Undef NullPointer | _ => ring_bytes f l end.

(** ** [hash_canonical_query]

    The bytes given to [ydb_mmrhash_128_ingest], in order: the digest depends on
    them alone. *)
Definition add_sql_type_hash (n : Z) : list byte := le32 n.

Fixpoint hash_canonical_query (m : values) (stmt : SqlStatement) : outcome (list byte) :=
  match stmt with
  | null_STATEMENT => Ret []
  | begin_STATEMENT => Ret (add_sql_type_hash 20)
  | cas_STATEMENT value branches optional_else =>
      a ← hash_canonical_query m value;
      b ← hash_canonical_query m branches;
      c ← hash_canonical_query m optional_else;
      Ret (add_sql_type_hash 22 ++ a ++ b ++ c)
  | cas_branch_STATEMENT ring =>
      do_ring (λ '(CaseBranch condition value),
        a ← hash_canonical_query m condition;
        b ← hash_canonical_query m value;
        Ret (add_sql_type_hash 23 ++ a ++ b)) ring
  | commit_STATEMENT => Ret (add_sql_type_hash 21)
  | drop_STATEMENT table_name optional_keyword =>
      a ← hash_canonical_query m table_name;
      b ← hash_canonical_query m optional_keyword;
      Ret (add_sql_type_hash 3 ++ a ++ b)
  | insert_STATEMENT _ => Halt AssertFailed
  | no_data_STATEMENT => Ret (add_sql_type_hash 26)
  | select_STATEMENT select_list table_list where_expression order_expression
      optional_words set_operation =>
      a ← hash_canonical_query m select_list;
      b ← hash_canonical_query m table_list;
      c ← hash_canonical_query m where_expression;
      d ← hash_canonical_query m order_expression;
      e ← hash_canonical_query m optional_words;
      f ← hash_canonical_query m set_operation;
      Ret (add_sql_type_hash 1 ++ a ++ b ++ c ++ d ++ e ++ f)
  | set_STATEMENT variable value =>
      a ← hash_canonical_query m variable;
      b ← hash_canonical_query m value;
      Ret (add_sql_type_hash 24 ++ a ++ b)
  | show_STATEMENT variable =>
      a ← hash_canonical_query m variable;
      Ret (add_sql_type_hash 25 ++ a)
  | function_call_STATEMENT function_name parameters =>
      a ← hash_canonical_query m function_name;
      b ← hash_canonical_query m parameters;
      Ret (add_sql_type_hash 5 ++ a ++ b)
  | join_STATEMENT ring =>
      do_ring (λ '(Join value condition type),
        a ← hash_canonical_query m value;
        b ← hash_canonical_query m condition;
        Ret (add_sql_type_hash 10 ++ add_sql_type_hash (join_type_value type) ++ a ++ b)) ring
  | value_STATEMENT p v =>
      value ← value_at m p;
      let head := add_sql_type_hash 4 ++ add_sql_type_hash (value_type_value (sv_type value)) ++
                  add_sql_type_hash (data_type_value (sv_data_type value)) in
      match sv_type value with
      | NUMBER_LITERAL | STRING_LITERAL | FUNCTION_NAME | DATE_TIME | BOOLEAN_VALUE
      | COLUMN_REFERENCE => Ret (head ++ sv_literal value)
      | CALCULATED_VALUE => a ← hash_canonical_query m v; Ret (head ++ a)
      | NUL_VALUE | UNKNOWN_SqlValueType => Ret head
      | COERCE_TYPE =>
          a ← hash_canonical_query m v;
          Ret (head ++ add_sql_type_hash (value_type_value (sv_coerced_type value)) ++ a)
      | _ => Halt AssertFailed
      end
  | column_STATEMENT ring =>
      do_ring (λ '(Column _ columnName type table keywords),
        a ← hash_canonical_query m columnName;
        b ← hash_canonical_query m table;
        c ← hash_canonical_query m keywords;
        Ret (add_sql_type_hash 9 ++ a ++ add_sql_type_hash (data_type_value type) ++ b ++ c)) ring
  | column_alias_STATEMENT _ column _ =>      (* the table alias is commented out *)
      a ← hash_canonical_query m column;
      Ret (add_sql_type_hash 16 ++ a)
  | column_list_STATEMENT ring =>
      do_ring (λ value,
        a ← hash_canonical_query m value;
        Ret (add_sql_type_hash 8 ++ a)) ring
  | column_list_alias_STATEMENT ring =>
      do_ring (λ '(ColumnListAlias _ column_list alias keywords type),
        a ← hash_canonical_query m column_list;
        b ← hash_canonical_query m alias;
        c ← hash_canonical_query m keywords;
        Ret (add_sql_type_hash 15 ++ a ++ b ++ c ++ add_sql_type_hash (value_type_value type))) ring
  | table_STATEMENT _ tableName source _ delim =>
      t ← statement_type tableName;
      _ ← c_assert (t =? 4);
      a ← hash_canonical_query m tableName;
      b ← hash_canonical_query m source;
      c ← hash_canonical_query m delim;
      Ret (add_sql_type_hash 0 ++ a ++ b ++ c)
  | table_alias_STATEMENT _ table alias unique_id column_list =>
      a ← hash_canonical_query m table;
      b ← hash_canonical_query m alias;
      c ← hash_canonical_query m column_list;
      Ret (add_sql_type_hash 17 ++ a ++ b ++ add_sql_type_hash unique_id ++ c)
  | binary_STATEMENT operation operand0 operand1 =>
      a ← hash_canonical_query m operand0;
      b ← hash_canonical_query m operand1;
      Ret (add_sql_type_hash 6 ++ add_sql_type_hash (binary_value operation) ++ a ++ b)
  | set_operation_STATEMENT type operand0 operand1 =>
      a ← hash_canonical_query m operand0;
      b ← hash_canonical_query m operand1;
      Ret (add_sql_type_hash 19 ++ add_sql_type_hash (set_type_value type) ++ a ++ b)
  | unary_STATEMENT operation operand =>
      a ← hash_canonical_query m operand;
      Ret (add_sql_type_hash 7 ++ add_sql_type_hash (unary_value operation) ++ a)
  | constraint_STATEMENT _ => Ret (add_sql_type_hash 12)
  | keyword_STATEMENT ring =>
      do_ring (λ '(Keyword keyword v),
        a ← hash_canonical_query m v;
        Ret (add_sql_type_hash (keyword_value keyword) ++ a)) ring
  | invalid_STATEMENT => Halt AssertFailed
  | data_type_STATEMENT _ | constraint_type_STATEMENT | join_type_STATEMENT _ => Halt FatalExit
  end.

(** ** Induction

    The statements directly below one, and induction along them. *)
Definition column_children (c : SqlColumn) : list SqlStatement :=
  match c with Column _ n _ t k => [n; t; k] end.
Definition join_children (j : SqlJoin) : list SqlStatement :=
  match j with Join v c _ => [v; c] end.
Definition keyword_children (k : SqlOptionalKeyword) : list SqlStatement :=
  match k with Keyword _ v => [v] end.
Definition alias_children (a : SqlColumnListAlias) : list SqlStatement :=
  match a with ColumnListAlias _ l a k _ => [l; a; k] end.
Definition branch_children (b : SqlCaseBranchStatement) : list SqlStatement :=
  match b with CaseBranch c v => [c; v] end.
Definition children (s : SqlStatement) : list SqlStatement :=
  match s with
  | table_STATEMENT _ a b _ c => [a; b; c]
  | select_STATEMENT a b c d e f => [a; b; c; d; e; f]
  | drop_STATEMENT a b | function_call_STATEMENT a b | binary_STATEMENT _ a b
  | column_alias_STATEMENT _ a b | set_operation_STATEMENT _ a b | set_STATEMENT a b => [a; b]
  | value_STATEMENT _ a | unary_STATEMENT _ a | show_STATEMENT a => [a]
  | column_list_STATEMENT ring => ring
  | column_STATEMENT ring => ring ≫= column_children
  | join_STATEMENT ring => ring ≫= join_children
  | constraint_STATEMENT ring | keyword_STATEMENT ring => ring ≫= keyword_children
  | column_list_alias_STATEMENT ring => ring ≫= alias_children
  | table_alias_STATEMENT _ a b _ c | cas_STATEMENT a b c => [a; b; c]
  | cas_branch_STATEMENT ring => ring ≫= branch_children
  | _ => []
  end.

Section induction.
Context (P : SqlStatement → Prop) (Hstep : ∀ s, Forall P (children s) → P s).
Fixpoint statement_ind (s : SqlStatement) : P s.
Proof.
  apply Hstep.
  destruct s as [ | | | | | | | | | ring | ring | ring | | ring | | ring | ring | | | | | | | | ring | | | | ];
    cbn [children]; repeat apply Forall_cons_2; try apply Forall_nil_2; try apply statement_ind.
  all: induction ring as [|x ring IH]; [apply Forall_nil_2|].
  { apply Forall_cons_2; [apply statement_ind|exact IH]. }
  all: cbn [mbind list_bind]; apply Forall_app_2; [|exact IH]; destruct x; cbn;
    repeat apply Forall_cons_2; try apply Forall_nil_2; apply statement_ind.
Qed.
End induction.

Lemma Forall_bind_children {A} (P : SqlStatement → Prop) (c : A → list SqlStatement) ring :
  Forall P (ring ≫= c) → Forall (λ x, Forall P (c x)) ring.
Proof. induction ring as [|x ring IH]; [done|]. cbn. intros [??]%Forall_app. constructor; auto. Qed.

(** The same with the statements two levels down, for the operands that are rings. *)
Lemma statement_ind2 (P : SqlStatement → Prop) :
  (∀ s, Forall (λ c, P c ∧ Forall P (children c)) (children s) → P s) → ∀ s, P s.
Proof.
  intros Hstep s. cut (P s ∧ Forall P (children s)); [by intros [? _]|].
  induction s as [s IH] using statement_ind. split; [by apply Hstep|].
  eapply Forall_impl; [|exact IH]. by intros c [? _].
Qed.
