(* ===== verification/HashTheorems.v ===== *)
(** * What the hash of a query distinguishes

    [run_query] reuses the compiled plan of any earlier query with the same hash.
    Over the bytes [hash_canonical_query] feeds to the hash: what they leave out,
    expressions that give the same bytes, and the expressions the bytes determine. *)
From stdpp Require Import gmap strings.
From S2P Require Import Prelude CMem LogicalPlan SqlStatement.

(** ** Canonical expressions

    An expression with the strings in place and without addresses; a column is known by the
    identifier of its table alias and its name. *)
Definition column_name : Type := Z * list byte.
Inductive expr :=
  | ELiteral (type : SqlValueType) (data_type : SqlDataType) (s : list byte)
  | ENul (type : SqlValueType) (data_type : SqlDataType)
  | ECalculated (data_type : SqlDataType) (e : expr)
  | ECoerce (coerced_type : SqlValueType) (data_type : SqlDataType) (e : expr)
  | EUnary (o : UnaryOperations) (e : expr)
  | EBinary (o : BinaryOperations) (a b : expr)
  | EBinaryList (o : BinaryOperations) (a : expr) (l : exprs)
  | ECall (f : expr) (l : exprs)
  | EColumn (column : column_name)
with exprs :=
  | EOne (e : expr)
  | EMore (e : expr) (l : exprs).
Scheme expr_mind := Induction for expr Sort Prop
with exprs_mind := Induction for exprs Sort Prop.
Combined Scheme expr_exprs_ind from expr_mind, exprs_mind.

Fixpoint exprs_of (l : list (option expr)) : option exprs :=
  match l with
  | [] => None
  | [e] => EOne <$> e
  | e :: l' => e ← e; l' ← exprs_of l'; Some (EMore e l')
  end.

Definition is_literal (t : SqlValueType) : bool :=
  bool_decide (t ∈ [NUMBER_LITERAL; STRING_LITERAL; FUNCTION_NAME; DATE_TIME; BOOLEAN_VALUE;
                    COLUMN_REFERENCE]).

Definition column_of (m : values) (column table_alias : SqlStatement) : option column_name :=
  match table_alias with
  | table_alias_STATEMENT _ _ _ unique_id _ =>
      match column with
      | column_STATEMENT (Column _ (value_STATEMENT p _) _ _ _ :: _) | column_list_alias_STATEMENT (ColumnListAlias _ _ (value_STATEMENT p _) _ _ :: _) =>
          v ← m !! p; Some (unique_id, cstr (sv_literal v))
      | _ => None
      end
  | _ => None
  end.

(** [schema]: the columns there are, each with the bytes hashed for it. *)
Section schema.
Context (schema : gmap column_name (list byte)).

Fixpoint canonical (m : values) (s : SqlStatement) : option expr :=
  match s with
  | value_STATEMENT p v =>
      x ← m !! p;
      if is_literal (sv_type x) then Some (ELiteral (sv_type x) (sv_data_type x) (sv_literal x))
      else match sv_type x with
      | NUL_VALUE | UNKNOWN_SqlValueType => Some (ENul (sv_type x) (sv_data_type x))
      | CALCULATED_VALUE => ECalculated (sv_data_type x) <$> canonical m v
      | COERCE_TYPE => ECoerce (sv_coerced_type x) (sv_data_type x) <$> canonical m v
      | _ => None
      end
  | unary_STATEMENT o a => EUnary o <$> canonical m a
  | binary_STATEMENT o a (column_list_STATEMENT ring) =>
      a ← canonical m a; l ← exprs_of (canonical m <$> ring); Some (EBinaryList o a l)
  | binary_STATEMENT o a b => a ← canonical m a; b ← canonical m b; Some (EBinary o a b)
  | function_call_STATEMENT f (column_list_STATEMENT ring) =>
      f ← canonical m f; l ← exprs_of (canonical m <$> ring); Some (ECall f l)
  | column_alias_STATEMENT _ column table_alias =>
      c ← column_of m column table_alias; bs ← schema !! c;
      match hash_canonical_query m column with Ret bs' => if decide (bs' = bs) then Some (EColumn c) else None | _ => None end
  | _ => None
  end.

Definition value_head (type : SqlValueType) (data_type : SqlDataType) : list byte :=
  le32 4 ++ le32 (value_type_value type) ++ le32 (data_type_value data_type).
Fixpoint encode (e : expr) : list byte :=
  match e with
  | ELiteral type data_type s => value_head type data_type ++ s
  | ENul type data_type => value_head type data_type
  | ECalculated data_type e => value_head CALCULATED_VALUE data_type ++ encode e
  | ECoerce coerced_type data_type e =>
      value_head COERCE_TYPE data_type ++ le32 (value_type_value coerced_type) ++ encode e
  | EUnary o e => le32 7 ++ le32 (unary_value o) ++ encode e
  | EBinary o a b => le32 6 ++ le32 (binary_value o) ++ encode a ++ encode b
  | EBinaryList o a l => le32 6 ++ le32 (binary_value o) ++ encode a ++ encode_list l
  | ECall f l => le32 5 ++ encode f ++ encode_list l
  | EColumn c => le32 16 ++ default [] (schema !! c)
  end
with encode_list (l : exprs) : list byte :=
  match l with
  | EOne e => le32 8 ++ encode e
  | EMore e l' => le32 8 ++ encode e ++ encode_list l'
  end.

(** ** The bytes of a canonical expression *)
Definition encodes (m : values) (s : SqlStatement) : Prop :=
  ∀ e, canonical m s = Some e → hash_canonical_query m s = Ret (encode e).

Lemma do_ring_exprs m ring l :
  Forall (encodes m) ring →
  exprs_of (canonical m <$> ring) = Some l →
  hash_canonical_query m (column_list_STATEMENT ring) = Ret (encode_list l).
Proof.
  intros Hring Hl. cbn [hash_canonical_query]. destruct ring as [|s ring]; [done|].
  cbn [do_ring]. revert s l Hring Hl.
  induction ring as [|s' ring IH]; intros s l [Hs Hring]%Forall_cons_1 Hl.
  - cbn in Hl. destruct (canonical m s) as [e|] eqn:E; simplify_eq/=.
    rewrite (Hs _ E). cbn. by rewrite app_nil_r.
  - rewrite fmap_cons in Hl. cbn [exprs_of] in Hl.
    destruct (canonical m s) as [e|] eqn:E; [|done]. rewrite fmap_cons in Hl.
    destruct (exprs_of _) as [l'|] eqn:E'; [|done]. simplify_eq/=.
    rewrite (Hs _ E). cbn [mbind outcome_bind]. rewrite (IH s' l' Hring) by done.
    cbn [mbind outcome_bind]. by app_norm.
Qed.

Lemma canonical_binary m o a b :
  (∃ ring, b = column_list_STATEMENT ring) ∨
  canonical m (binary_STATEMENT o a b) =
    a' ← canonical m a; b' ← canonical m b; Some (EBinary o a' b').
Proof. destruct b; first [by right|left; by eexists]. Qed.

Lemma canonical_encodes m s : encodes m s.
Proof.
  induction s as [s IH] using statement_ind2. intros e He.
  destruct s as [ | | | | | p v | f a | o a b | o a | | | | | | | | | p c t | | | | | | | | | | | ];
    cbn [canonical] in He; try done; cbn [children] in IH.
  - apply Forall_cons_1 in IH as [[IH _] _]. cbn [hash_canonical_query]. unfold value_at, encodes in *.
    destruct (m !! p) as [x|]; [|done]. cbn [mbind option_bind outcome_bind] in He |- *.
    destruct (is_literal (sv_type x)) eqn:Ht.
    + simplify_eq/=. by destruct (sv_type x); vm_compute in Ht.
    + destruct (sv_type x); try done; simplify_eq/=; try done;
        destruct (canonical m v) as [e'|]; simplify_eq/=; rewrite (IH e') by done; done.
  - apply Forall_cons_1 in IH as [[Hf _] [[_ Ha] _]%Forall_cons_1]. destruct a; try done.
    destruct (canonical m f) as [f'|] eqn:Ef; [|done].
    destruct (exprs_of _) as [l'|] eqn:El; simplify_eq/=.
    pose proof (do_ring_exprs m ring l' Ha El) as Hl.
    rewrite (Hf f') by done. cbn in Hl |- *. by rewrite Hl.
  - apply Forall_cons_1 in IH as [[Ha _] [[Hb Hl] _]%Forall_cons_1].
    change (canonical m (binary_STATEMENT o a b) = Some e) in He.
    destruct (canonical_binary m o a b) as [[ring ->]|Hc].
    2: { rewrite Hc in He. destruct (canonical m a) as [a'|] eqn:Ea; [|done].
         destruct (canonical m b) as [b'|] eqn:Eb; simplify_eq/=.
         rewrite (Ha a') by done. cbn [mbind outcome_bind]. by rewrite (Hb b'). }
    cbn [canonical] in He. destruct (canonical m a) as [a'|] eqn:Ea; [|done].
    destruct (exprs_of _) as [l'|] eqn:El; simplify_eq/=.
    pose proof (do_ring_exprs m ring l' Hl El) as Hl'.
    rewrite (Ha a') by done. cbn in Hl' |- *. by rewrite Hl'.
  - apply Forall_cons_1 in IH as [[Ha _] _]. destruct (canonical m a) as [a'|] eqn:Ea; simplify_eq/=.
    by rewrite (Ha a').
  - cbn [hash_canonical_query]. destruct (column_of m c t) as [i|]; [|done]. cbn [mbind option_bind] in He.
    destruct (schema !! i) as [bs|] eqn:Ei; [|done]. cbn in He. destruct (hash_canonical_query m c) as [bs'| | |]; [|done..].
    destruct (decide (bs' = bs)) as [->|]; [|done]. injection He as <-. cbn. by rewrite Ei.
Qed.

(** ** Unambiguous expressions

    A string ends at the next integer when none of its bytes can start one; a list
    ends at the next integer that is not the tag of a list item, so nothing before an
    item may end in a list itself. *)
Definition printable (s : list byte) : bool := forallb (λ c, 32 <=? b2z c) s.
Fixpoint ends_ring (e : expr) : bool :=
  match e with
  | ELiteral _ _ _ | ENul _ _ | EColumn _ => false
  | ECalculated _ e | ECoerce _ _ e | EUnary _ e | EBinary _ _ e => ends_ring e
  | EBinaryList _ _ _ | ECall _ _ => true
  end.
Fixpoint unambiguous (e : expr) : bool :=
  match e with
  | ELiteral t _ s => is_literal t && printable s
  | ENul t _ => bool_decide (t = NUL_VALUE ∨ t = UNKNOWN_SqlValueType)
  | ECalculated _ e | ECoerce _ _ e | EUnary _ e => unambiguous e
  | EBinary _ a b => unambiguous a && unambiguous b
  | EBinaryList _ a l => unambiguous a && negb (ends_ring a) && unambiguous_list l
  | ECall f l => unambiguous f && negb (ends_ring f) && unambiguous_list l
  | EColumn c => bool_decide (is_Some (schema !! c))
  end
with unambiguous_list (l : exprs) : bool :=
  match l with
  | EOne e => unambiguous e && negb (ends_ring e)
  | EMore e l' => unambiguous e && negb (ends_ring e) && unambiguous_list l'
  end.

(** The bytes of no column start with those of another one. *)
Definition prefix_free : Prop :=
  ∀ c c' x y r r', schema !! c = Some x → schema !! c' = Some y → x ++ r = y ++ r' → c = c' ∧ r = r'.

(** What may follow: the end or an integer below 32, and after a list not an item. *)
Definition small_head (r : list byte) : Prop := ∀ c r', r = c :: r' → b2z c < 32.
Definition no_item (r : list byte) : Prop := ∀ r', r ≠ le32 8 ++ r'.
Definition follows (e : expr) (r : list byte) : Prop := small_head r ∧ (ends_ring e = true → no_item r).

Lemma le32_app_inj a b r r' : 0 ≤ a < 2 ^ 32 → 0 ≤ b < 2 ^ 32 →
  le32 a ++ r = le32 b ++ r' → a = b ∧ r = r'.
Proof.
  intros Ha Hb H. apply app_inj_1 in H as [H ->]; [|done]. split; [|done].
  apply (f_equal (λ l, match l with [a;b;c;d] => b2z a + 256 * b2z b + 65536 * b2z c + 16777216 * b2z d | _ => 0 end)) in H.
  cbn [le32 le16 app] in H. rewrite !b2z_z2b in H. cbn in *. Z.to_euclidean_division_equations. lia.
Qed.

Lemma le32_small_head t r : 0 ≤ t < 32 → small_head (le32 t ++ r).
Proof. intros Ht c r' [= <- _]. rewrite b2z_z2b_small; lia. Qed.
Lemma le32_no_item t r : 0 ≤ t < 32 → t ≠ 8 → no_item (le32 t ++ r).
Proof. intros ?? r' H. apply le32_app_inj in H as [? _]; lia. Qed.

Definition tag (e : expr) : Z :=
  match e with
  | ELiteral _ _ _ | ENul _ _ | ECalculated _ _ | ECoerce _ _ _ => 4
  | EUnary _ _ => 7
  | EBinary _ _ _ | EBinaryList _ _ _ => 6
  | ECall _ _ => 5
  | EColumn _ => 16
  end.
Lemma encode_tag e : ∃ r, encode e = le32 (tag e) ++ r.
Proof. destruct e; cbn [encode tag]; unfold value_head; app_norm; by eexists. Qed.
Lemma tag_range e : 0 ≤ tag e < 32 ∧ tag e ≠ 8.
Proof. destruct e; cbn; lia. Qed.
Lemma encode_follows a e r : follows a (encode e ++ r).
Proof.
  destruct (encode_tag e) as [r' ->], (tag_range e). rewrite <- app_assoc.
  split; [by apply le32_small_head|]. intros _. by apply le32_no_item.
Qed.
Lemma encode_list_tag l : ∃ r, encode_list l = le32 8 ++ r.
Proof. destruct l; cbn [encode_list]; by eexists. Qed.
Lemma encode_list_follows a l r : ends_ring a = false → follows a (encode_list l ++ r).
Proof.
  intros Ha. destruct (encode_list_tag l) as [r' ->]. rewrite <- app_assoc.
  split; [by apply le32_small_head|]. by rewrite Ha.
Qed.

Lemma printable_app_inj s s' r r' :
  printable s = true → printable s' = true → small_head r → small_head r' →
  s ++ r = s' ++ r' → s = s' ∧ r = r'.
Proof.
  revert s'. induction s as [|c s IH]; intros [|c' s'] Hs Hs' Hr Hr' H; cbn in *.
  - done.
  - exfalso. apply andb_true_iff in Hs' as [?%Z.leb_le _]. specialize (Hr _ _ H). lia.
  - exfalso. apply andb_true_iff in Hs as [?%Z.leb_le _]. specialize (Hr' _ _ (eq_sym H)). lia.
  - apply andb_true_iff in Hs as [_ Hs], Hs' as [_ Hs']. injection H as -> H.
    by destruct (IH s' Hs Hs' Hr Hr' H) as [-> ->].
Qed.

#[local] Instance value_type_value_inj : Inj (=) (=) value_type_value.
Proof. intros [] []; cbn; done. Qed.
#[local] Instance data_type_value_inj : Inj (=) (=) data_type_value.
Proof. intros [] []; cbn; done. Qed.
#[local] Instance unary_value_inj : Inj (=) (=) unary_value.
Proof. intros [] []; cbn; done. Qed.
#[local] Instance binary_value_inj : Inj (=) (=) binary_value.
Proof. intros [] []; cbn; done. Qed.
Lemma code_range n : 0 ≤ n < 32 → 0 ≤ n < 2 ^ 32.
Proof. lia. Qed.
Lemma value_type_range t : 0 ≤ value_type_value t < 32. Proof. destruct t; cbn; lia. Qed.
Lemma data_type_range t : 0 ≤ data_type_value t < 32. Proof. destruct t; cbn; lia. Qed.
Lemma unary_range t : 0 ≤ unary_value t < 32. Proof. destruct t; cbn; lia. Qed.
Lemma binary_range t : 0 ≤ binary_value t < 32. Proof. destruct t; cbn; lia. Qed.

Create HintDb codes.
#[local] Hint Resolve value_type_range data_type_range unary_range binary_range : codes.
#[local] Hint Extern 0 (_ ≤ _ < _) => lia : codes.

(** Equal integers in front: strip them, or find the contradiction. *)
Ltac strip1 H :=
  match type of H with
  | le32 _ ++ _ = le32 _ ++ _ =>
      let E := fresh "E" in
      apply le32_app_inj in H as [E H];
      [first [discriminate E
             |apply (inj value_type_value) in E; first [discriminate E|subst]
             |apply (inj data_type_value) in E; subst
             |apply (inj unary_value) in E; subst
             |apply (inj binary_value) in E; subst
             |clear E]
      |eapply code_range; eauto with codes..]
  end.
Ltac strip H := cbn [encode encode_list] in H; unfold value_head in H; rewrite <- ?app_assoc in H;
  repeat strip1 H.

Lemma encode_not_list e l r r' : encode e ++ r ≠ encode_list l ++ r'.
Proof.
  destruct (encode_tag e) as [x ->], (encode_list_tag l) as [y ->], (tag_range e).
  rewrite <- !app_assoc. intros E. apply le32_app_inj in E as [? _]; lia.
Qed.

Ltac split_andb :=
  cbn [unambiguous unambiguous_list] in *;
  repeat match goal with
  | H : (_ && _) = true |- _ => let H' := fresh H "0" in apply andb_true_iff in H as [H H']
  | H : negb _ = true |- _ => apply negb_true_iff in H
  end.
(** Two incompatible value types. *)
Ltac absurd_type :=
  match goal with
  | H : is_literal ?t = true, H' : bool_decide (?t = _ ∨ _) = true |- _ =>
      apply bool_decide_eq_true in H' as [-> | ->]; discriminate H
  | H : is_literal _ = true |- _ => discriminate H
  | H : bool_decide (_ = _ ∨ _) = true |- _ => discriminate H
  end.

Section unambiguous.
Context (Hschema : prefix_free).

Lemma encode_inj_both :
  (∀ e e' r r', unambiguous e = true → unambiguous e' = true →
     follows e r → follows e' r' → encode e ++ r = encode e' ++ r' → e = e' ∧ r = r') ∧
  (∀ l l' r r', unambiguous_list l = true → unambiguous_list l' = true →
     small_head r → no_item r → small_head r' → no_item r' →
     encode_list l ++ r = encode_list l' ++ r' → l = l' ∧ r = r').
Proof.
  apply expr_exprs_ind.
  - intros t d s e' r r' Hu Hu' [Hr _] [Hr' _] H. destruct e'; strip H; split_andb; try absurd_type.
    by destruct (printable_app_inj _ _ _ _ Hu0 Hu'0 Hr Hr' H) as [-> ->].
  - intros t d e' r r' Hu Hu' _ _ H. destruct e'; strip H; split_andb; try absurd_type. done.
  - intros d e IH e' r r' Hu Hu' Hr Hr' H. destruct e'; strip H; split_andb; try absurd_type.
    by apply IH in H as [-> ->].
  - intros c d e IH e' r r' Hu Hu' Hr Hr' H. destruct e'; strip H; split_andb; try absurd_type.
    by apply IH in H as [-> ->].
  - intros o e IH e' r r' Hu Hu' Hr Hr' H. destruct e'; strip H.
    by apply IH in H as [-> ->].
  - intros o a IHa b IHb e' r r' Hu Hu' Hr Hr' H. destruct e' as [| | | | |o' a' b'|o' a' l'| |];
      strip H; split_andb.
    + apply IHa in H as [-> H]; [|done..|apply encode_follows|apply encode_follows].
      by destruct (IHb _ _ _ Hu0 Hu'0 Hr Hr' H) as [-> ->].
    + apply IHa in H as [-> H]; [|done..|apply encode_follows|by apply encode_list_follows].
      by apply encode_not_list in H.
  - intros o a IHa l IHl e' r r' Hu Hu' [Hr Hn] [Hr' Hn'] H.
    destruct e' as [| | | | |o' a' b'|o' a' l'| |]; strip H; split_andb.
    + apply IHa in H as [-> H]; [|done..|by apply encode_list_follows|apply encode_follows].
      by apply eq_sym, encode_not_list in H.
    + apply IHa in H as [-> H]; [|done..|by apply encode_list_follows|by apply encode_list_follows].
      by apply IHl in H as [-> ->]; auto.
  - intros f IHf l IHl e' r r' Hu Hu' [Hr Hn] [Hr' Hn'] H.
    destruct e' as [| | | | | | |f' l'|]; strip H; split_andb.
    apply IHf in H as [-> H]; [|done..|by apply encode_list_follows|by apply encode_list_follows].
    by apply IHl in H as [-> ->]; auto.
  - intros c e' r r' Hu Hu' _ _ H. destruct e' as [| | | | | | | |c']; strip H. cbn [unambiguous] in Hu, Hu'.
    apply bool_decide_eq_true in Hu as [x Ex], Hu' as [y Ey]. rewrite Ex, Ey in H. by destruct (Hschema _ _ _ _ _ _ Ex Ey H) as [-> ->].
  - intros e IH l' r r' Hu Hu' Hr Hn Hr' Hn' H. destruct l' as [e'|e' l']; strip H; split_andb.
    + by apply IH in H as [-> ->]; [|done|done|by split..].
    + apply IH in H as [-> H]; [|done|done|by split|by apply encode_list_follows].
      destruct (encode_list_tag l') as [y E]. rewrite E, <- app_assoc in H. by destruct (Hn _ H).
  - intros e IH l IHl l' r r' Hu Hu' Hr Hn Hr' Hn' H. destruct l' as [e'|e' l']; strip H; split_andb.
    + apply IH in H as [-> H]; [|done|done|by apply encode_list_follows|by split].
      destruct (encode_list_tag l) as [y E]. rewrite E, <- app_assoc in H. by destruct (Hn' _ (eq_sym H)).
    + apply IH in H as [-> H]; [|done|done|by apply encode_list_follows|by apply encode_list_follows].
      by apply IHl in H as [-> ->].
Qed.

Lemma encode_inj e e' :
  unambiguous e = true → unambiguous e' = true → encode e = encode e' → e = e'.
Proof.
  intros Hu Hu' H. eapply (proj1 encode_inj_both e e' [] []); [done..| | |by rewrite H];
    (split; [done|]; intros _ r'; done).
Qed.
End unambiguous.
End schema.

(** ** The owner of a column

    [reown f s]: [s] with the table alias of every column replaced by [f]'s. *)
Fixpoint reown (f : SqlStatement → SqlStatement) (s : SqlStatement) : SqlStatement :=
  match s with
  | table_STATEMENT p a b c d => table_STATEMENT p (reown f a) (reown f b) c (reown f d)
  | select_STATEMENT a b c d e g =>
      select_STATEMENT (reown f a) (reown f b) (reown f c) (reown f d) (reown f e) (reown f g)
  | drop_STATEMENT a b => drop_STATEMENT (reown f a) (reown f b)
  | value_STATEMENT p v => value_STATEMENT p (reown f v)
  | function_call_STATEMENT a b => function_call_STATEMENT (reown f a) (reown f b)
  | binary_STATEMENT o a b => binary_STATEMENT o (reown f a) (reown f b)
  | unary_STATEMENT o a => unary_STATEMENT o (reown f a)
  | column_list_STATEMENT ring => column_list_STATEMENT (reown f <$> ring)
  | column_STATEMENT ring => column_STATEMENT
      ((λ '(Column p n d t k), Column p (reown f n) d (reown f t) (reown f k)) <$> ring)
  | join_STATEMENT ring => join_STATEMENT
      ((λ '(Join v c t), Join (reown f v) (reown f c) t) <$> ring)
  | keyword_STATEMENT ring => keyword_STATEMENT ((λ '(Keyword k v), Keyword k (reown f v)) <$> ring)
  | column_list_alias_STATEMENT ring => column_list_alias_STATEMENT
      ((λ '(ColumnListAlias p l a k t),
          ColumnListAlias p (reown f l) (reown f a) (reown f k) t) <$> ring)
  | column_alias_STATEMENT p c t => column_alias_STATEMENT p (reown f c) (f t)
  | table_alias_STATEMENT p a b u c => table_alias_STATEMENT p (reown f a) (reown f b) u (reown f c)
  | set_operation_STATEMENT t a b => set_operation_STATEMENT t (reown f a) (reown f b)
  | cas_STATEMENT a b c => cas_STATEMENT (reown f a) (reown f b) (reown f c)
  | cas_branch_STATEMENT ring => cas_branch_STATEMENT
      ((λ '(CaseBranch c v), CaseBranch (reown f c) (reown f v)) <$> ring)
  | set_STATEMENT a b => set_STATEMENT (reown f a) (reown f b)
  | show_STATEMENT a => show_STATEMENT (reown f a)
  | s => s
  end.

Lemma do_ring_ext {A} (g : A → outcome (list byte)) (h : A → A) ring :
  Forall (λ x, g (h x) = g x) ring → do_ring g (h <$> ring) = do_ring g ring.
Proof.
  intros H. destruct ring as [|x ring]; [done|]. rewrite fmap_cons. cbn [do_ring].
  rewrite <- fmap_cons. induction H as [|y l Hy Hl IH]; [done|].
  rewrite fmap_cons. cbn [ring_bytes]. by rewrite Hy, IH.
Qed.
Lemma statement_type_reown f s : statement_type (reown f s) = statement_type s.
Proof. by destruct s. Qed.

Lemma hash_reown m f s : hash_canonical_query m (reown f s) = hash_canonical_query m s.
Proof.
  induction s as [s IH] using statement_ind.
  destruct s; cbn [children] in IH; cbn [reown hash_canonical_query]; try done;
    rewrite ?statement_type_reown; try apply Forall_bind_children in IH.
  all: try (apply do_ring_ext; eapply Forall_impl; [|exact IH]; by intros x ->).
  all: try (apply do_ring_ext; eapply Forall_impl; [|exact IH]; intros []; intros; cbn in * ).
  all: decompose_Forall_hyps;
    repeat match goal with H : hash_canonical_query _ (reown _ _) = _ |- _ => rewrite H; clear H end;
    done.
Qed.

Lemma prefix_free_intro schema :
  map_Forall (λ c x, map_Forall (λ c' y, c = c' ∨ ¬ x `prefix_of` y) schema) schema → prefix_free schema.
Proof.
  intros H c c' x y r r' Hx Hy E. pose proof (H c x Hx c' y Hy) as H1. pose proof (H c' y Hy c x Hx) as H2. cbn in H1, H2.
  assert (c = c') as ->.
  { destruct (prefix_weak_total x y (x ++ r)) as [Hxy|Hyx]; [by eexists|by rewrite E; eexists|..]; naive_solver. }
  assert (x = y) as -> by congruence. by apply app_inv_head in E as ->.
Qed.

(** ** Samples: [SELECT a.ID FROM T a, T b] and [SELECT b.ID FROM T a, T b] *)
Definition plain_value (t : SqlValueType) (s : list byte) : SqlValue :=
  {| sv_type := t; sv_coerced_type := UNKNOWN_SqlValueType; sv_data_type := UNKNOWN_SqlDataType;
     sv_literal := s |}.
Definition sample_values : values :=
  list_to_map [(1, plain_value COLUMN_REFERENCE (lit "T")); (2, plain_value COLUMN_REFERENCE (lit "ID"));
               (3, plain_value COLUMN_REFERENCE (lit "A")); (4, plain_value COLUMN_REFERENCE (lit "B"));
               (5, plain_value FUNCTION_NAME (lit "F")); (6, plain_value FUNCTION_NAME (lit "G"));
               (7, plain_value NUMBER_LITERAL (lit "1")); (8, plain_value NUMBER_LITERAL (lit "2"));
               (9, plain_value COLUMN_REFERENCE (lit "NAME"))].
Definition val (p : ptr) : SqlStatement := value_STATEMENT p null_STATEMENT.
Definition sample_table : SqlStatement :=
  table_STATEMENT 100 (val 1) null_STATEMENT 101 null_STATEMENT.
Definition sample_column : SqlStatement :=
  column_STATEMENT [Column 101 (val 2) INTEGER_TYPE sample_table null_STATEMENT;
                    Column 102 (val 9) CHARACTER_STRING_TYPE sample_table null_STATEMENT].
Definition other_column : SqlStatement :=
  column_STATEMENT [Column 102 (val 9) CHARACTER_STRING_TYPE sample_table null_STATEMENT;
                    Column 101 (val 2) INTEGER_TYPE sample_table null_STATEMENT].
Definition alias_a : SqlStatement := table_alias_STATEMENT 103 sample_table (val 3) 1 null_STATEMENT.
Definition alias_b : SqlStatement := table_alias_STATEMENT 104 sample_table (val 4) 2 null_STATEMENT.
Definition self_join (owner : SqlStatement) : SqlStatement :=
  table_alias_STATEMENT 105
    (select_STATEMENT
       (column_list_alias_STATEMENT
          [ColumnListAlias 106
             (column_list_STATEMENT [column_alias_STATEMENT 107 sample_column owner])
             (val 2) null_STATEMENT NUMBER_LITERAL])
       (join_STATEMENT [Join alias_a null_STATEMENT NO_JOIN; Join alias_b null_STATEMENT CROSS_JOIN])
       null_STATEMENT null_STATEMENT (keyword_STATEMENT [Keyword NO_KEYWORD null_STATEMENT]) null_STATEMENT)
    null_STATEMENT 3 null_STATEMENT.
Definition call (f : ptr) (args : list SqlStatement) : SqlStatement :=
  function_call_STATEMENT (val f) (column_list_STATEMENT args).

(** The hash does not depend on which table alias a column belongs to, nor on
    where one argument list ends inside another: [SELECT a.ID FROM T a, T b] and
    [SELECT b.ID FROM T a, T b] hash the same bytes, and so do [F(G(1),2)] and
    [F(G(1,2))], so the compiled plan of one is run for the other. *)
Theorem hash_collisions :
  (∀ m f s, hash_canonical_query m (reown f s) = hash_canonical_query m s) ∧
  self_join alias_a ≠ self_join alias_b ∧
  (∃ bs, hash_canonical_query sample_values (self_join alias_a) = Ret bs ∧
         hash_canonical_query sample_values (self_join alias_b) = Ret bs) ∧
  call 5 [call 6 [val 7]; val 8] ≠ call 5 [call 6 [val 7; val 8]] ∧
  (∃ bs, hash_canonical_query sample_values (call 5 [call 6 [val 7]; val 8]) = Ret bs ∧
         hash_canonical_query sample_values (call 5 [call 6 [val 7; val 8]]) = Ret bs).
Proof.
  split; [exact hash_reown|]. split; [done|].
  split; [eexists; split; vm_compute; reflexivity|]. split; [done|].
  eexists. split; vm_compute; reflexivity.
Qed.

(** C31: For expressions whose strings are printable and in which no list ends just before a list item, over columns
    of which none hashes to the beginning of what another one hashes to (so that of a table joined with itself the
    columns of one alias at most are there), two statements hash the same bytes exactly when they are the same expression: the same operators,
    literals and types, and the same columns of the same table aliases. *)
Theorem hash_identifies_expressions schema m m' s s' e e' :
  prefix_free schema →
  canonical schema m s = Some e → canonical schema m' s' = Some e' →
  unambiguous schema e = true → unambiguous schema e' = true →
  hash_canonical_query m s = hash_canonical_query m' s' ↔ e = e'.
Proof.
  intros Hs He He' Hu Hu'.
  rewrite (canonical_encodes schema m s e He), (canonical_encodes schema m' s' e' He').
  split; [|by intros ->]. intros [= H]. by apply (encode_inj schema).
Qed.

Definition column_bytes (s : SqlStatement) : list byte :=
  match hash_canonical_query sample_values s with Ret bs => bs | _ => [] end.
(** [ID] and [NAME] of the table alias 1. *)
Definition sample_schema : gmap column_name (list byte) :=
  {[(1, lit "ID") := column_bytes sample_column; (1, lit "NAME") := column_bytes other_column]}.
Definition sample_equals (column : SqlStatement) : SqlStatement :=
  binary_STATEMENT BOOLEAN_AND
    (binary_STATEMENT BOOLEAN_EQUALS (column_alias_STATEMENT 107 column alias_a) (call 5 [val 7]))
    (binary_STATEMENT BOOLEAN_IN (val 7) (column_list_STATEMENT [val 7; val 8])).

Definition sample_expr (column : SqlStatement) : expr :=
  default (EColumn (0, [])) (canonical sample_schema sample_values (sample_equals column)).

Lemma hash_identifies_expressions_witness :
  hash_canonical_query sample_values (sample_equals sample_column) =
  hash_canonical_query sample_values (sample_equals other_column) ↔
  sample_expr sample_column = sample_expr other_column.
Proof.
  apply (hash_identifies_expressions sample_schema); [|vm_compute; reflexivity..].
  apply prefix_free_intro. eval_decide.
Defined.
