(* ===== verification/Compress.v ===== *)
(** * The stored form of a table

    [compress_statement.c] lays a statement out in one block with relative pointers,
    which [run_query.c] stores in the schema global; [decompress_statement.c] turns the
    pointers of such a block into addresses in place, which is how [find_table.c] loads
    a table.  Both work on the bytes of the structs of [octo_types.h], with the offsets
    of the LP64 target.

    A [memcpy] of a struct copies members the model has no value for ([loc], padding,
    pointers that are overwritten next or never read): those bytes stay what they were
    in the block, whose contents are arbitrary.  [SqlTable]'s [columns] is an address;
    the ring it leads to is in [rings]. *)
From stdpp Require Import gmap.
From S2P Require Import Prelude CMem LogicalPlan SqlStatement.

(** ** Layout *)
Definition sizeof_SqlStatement : Z := 32.         (* type 0, loc 4, v 24 *)
Definition sizeof_SqlTable : Z := 48.             (* tableName 0, source 8, columns 16, delim 24, next 32, prev 40 *)
Definition sizeof_SqlValue : Z := 24.             (* type 0, coerced_type 4, data_type 8, v 16 *)
Definition sizeof_SqlColumn : Z := 48.            (* columnName 0, type 8, table 16, keywords 24, next 32, prev 40 *)
Definition sizeof_SqlOptionalKeyword : Z := 32.   (* keyword 0, v 8, next 16, prev 24 *)

Definition le64 (z : Z) : list byte := le32 z ++ le32 (z / 2 ^ 32).
Definition INT_MAX : Z := 2 ^ 31 - 1.

(** ** [compress_statement_helper]

    [out] is NULL in the pass that counts; [out_length] is an [int]. *)
Record packer := { out : option (list byte); out_length : Z }.
(** [if(out != NULL) ...]: bytes stored at an offset of [out]. *)
Definition poke (i : Z) (bs : list byte) (st : packer) : outcome packer :=
  match out st with
  | None => Ret st
  | Some b => b ← store_bytes b i bs; Ret {| out := Some b; out_length := out_length st |}
  end.
(** [*out_length += n;] *)
Definition grow (n : Z) (st : packer) : outcome packer :=
  if INT_MAX <? out_length st + n then Undef OutOfBounds
  else Ret {| out := out st; out_length := out_length st + n |}.

(** [stmt->v.value == NULL], for whatever member of the union is in use.  A statement is
    made of zeroed memory, so one that never gets a payload has NULL here. *)
Definition payload_null (stmt : SqlStatement) : bool :=
  match stmt with
  | table_STATEMENT p _ _ _ _ | insert_STATEMENT p | value_STATEMENT p _ | column_alias_STATEMENT p _ _
  | table_alias_STATEMENT p _ _ _ _ => p =? null
  | column_list_STATEMENT [] | column_STATEMENT [] | join_STATEMENT [] | constraint_STATEMENT []
  | keyword_STATEMENT [] | column_list_alias_STATEMENT [] | cas_branch_STATEMENT [] => true
  | data_type_STATEMENT t => data_type_value t =? 0
  | join_type_STATEMENT t => join_type_value t =? 0
  | null_STATEMENT | constraint_type_STATEMENT | begin_STATEMENT | commit_STATEMENT
  | no_data_STATEMENT | invalid_STATEMENT => true
  | _ => false
  end.

(** A loop over a ring, told whether the element is the last one. *)
Definition ring_loop {A S} (f : A → bool → S → outcome S) : list A → S → outcome S :=
  fix go l s := match l with
  | [] => Ret s
  | x :: l' => s ← f x (match l' with [] => true | _ => false end) s; go l' s
  end.

Section compress.
Context (m : values) (rings : gmap ptr (list SqlColumn)).

(** [table->columns] *)
Definition columns_statement (p : ptr) : outcome SqlStatement :=
  if p =? null then Ret null_STATEMENT
  else match rings !! p with Some ring => Ret (column_STATEMENT ring) | None => Undef NullPointer end.

(** [CALL_COMPRESS_HELPER]: the field at offset [field] becomes the relative pointer to
    where the statement was put, or NULL. *)
Definition call_compress_helper (helper : SqlStatement → packer → outcome (option Z * packer))
    (stmt : SqlStatement) (field : Z) (st : packer) : outcome packer :=
  '(r, st) ← helper stmt st;
  poke field (le64 (match r with Some r => r - field | None => 0 end)) st.

(** The first part of the helper: the [SqlStatement] itself, its [v] leading to what
    follows it. *)
Definition compress_head (type : Z) (st : packer) : outcome packer :=
  let new_stmt := out_length st in
  st ← poke new_stmt (le32 type) st;
  st ← grow sizeof_SqlStatement st;
  poke (new_stmt + 24) (le64 (out_length st - (new_stmt + 24))) st.

(** The [SqlValue], and the string it holds, which the field at offset [field] leads to. *)
Definition compress_value (value : SqlValue) (st : packer) : outcome packer :=
  let new_value := out_length st in
  st ← poke new_value (le32 (value_type_value (sv_type value))) st;
  st ← poke (new_value + 4) (le32 (value_type_value (sv_coerced_type value))) st;
  st ← poke (new_value + 8) (le32 (data_type_value (sv_data_type value))) st;
  grow sizeof_SqlValue st.
Definition compress_text (string_literal : list byte) (field : Z) (st : packer) : outcome packer :=
  let len := zlen string_literal in
  let at_ := out_length st in
  st ← poke at_ string_literal st;
  st ← poke field (le64 (at_ - field)) st;
  st ← grow len st;
  st ← poke (out_length st) [nul] st;
  grow 1 st.

(** One turn of the loops over columns and over keywords. *)
Definition compress_column (call : SqlStatement → Z → packer → outcome packer) (c : SqlColumn) (last : bool)
    (st : packer) : outcome packer :=
  match c with Column _ columnName type _ keywords =>
    let new_column := out_length st in
    st ← poke (new_column + 8) (le32 (data_type_value type)) st;
    st ← poke (new_column + 32) (le64 0 ++ le64 0) st;
    st ← grow sizeof_SqlColumn st;
    st ← call columnName new_column st;
    st ← call keywords (new_column + 24) st;
    if last then Ret st
    else poke (new_column + 32) (le64 (out_length st - (new_column + 32))) st
  end.
Definition compress_keyword (call : SqlStatement → Z → packer → outcome packer) (k : SqlOptionalKeyword) (last : bool)
    (st : packer) : outcome packer :=
  match k with Keyword keyword v =>
    let new_keyword := out_length st in
    st ← poke new_keyword (le32 (keyword_value keyword)) st;
    st ← poke (new_keyword + 16) (le64 0 ++ le64 0) st;
    st ← grow sizeof_SqlOptionalKeyword st;
    st ← call v (new_keyword + 8) st;
    if last then Ret st
    else poke (new_keyword + 16) (le64 (out_length st - (new_keyword + 16))) st
  end.

(** The switch. *)
Definition compress_payload (call : SqlStatement → Z → packer → outcome packer) (stmt : SqlStatement)
    (st : packer) : outcome packer :=
  match stmt with
  | table_STATEMENT _ tableName source columns delim =>
      columns ← columns_statement columns;
      let new_table := out_length st in
      st ← grow sizeof_SqlTable st;
      st ← call tableName new_table st;
      st ← call source (new_table + 8) st;
      st ← call columns (new_table + 16) st;
      call delim (new_table + 24) st
  | value_STATEMENT p v =>
      value ← value_at m p;
      let new_value := out_length st in
      st ← compress_value value st;
      match sv_type value with
      | CALCULATED_VALUE => call v (new_value + 16) st
      | COERCE_TYPE => Undef WrongMember
      | _ => compress_text (sv_literal value) (new_value + 16) st
      end
  | column_list_STATEMENT _ | column_list_alias_STATEMENT _ => Ret st
  | column_STATEMENT ring => ring_loop (compress_column call) ring st
  | join_STATEMENT _ => Undef Uninitialised          (* [cur_join] *)
  | keyword_STATEMENT ring => ring_loop (compress_keyword call) ring st
  | invalid_STATEMENT => Halt AssertFailed
  | _ => Halt FatalExit
  end.

(** The statement's place in [out], or NULL; nobody looks at it in the counting pass. *)
Fixpoint compress_statement_helper (fuel : nat) (stmt : SqlStatement) (st : packer)
    : outcome (option Z * packer) :=
  match fuel with
  | O => NoFuel
  | S fuel' =>
      if payload_null stmt then Ret (None, st) else
      let new_stmt := out_length st in
      type ← statement_type stmt;
      st ← compress_head type st;
      st ← compress_payload (call_compress_helper (compress_statement_helper fuel')) stmt st;
      Ret (Some new_stmt, st)
  end.

(** [compress_statement]: the block and its length. *)
Definition compress_statement (fuel : nat) (mem : nat → byte) (stmt : SqlStatement)
    : outcome (list byte * Z) :=
  '(_, st) ← compress_statement_helper fuel stmt {| out := None; out_length := 0 |};
  '(_, st) ← compress_statement_helper fuel stmt {| out := Some (malloc mem (out_length st)); out_length := 0 |};
  match out st with Some b => Ret (b, out_length st) | None => Undef NullPointer end.
End compress.

(** ** [decompress_statement_helper]

    [b] is the memory from the address [base] on, [out_length] bytes of it the block;
    addresses are 64 bits wide. *)
Section decompress.
Context (base : Z) (block_length : Z).

Definition load_ptr (b : list byte) (a : Z) : outcome Z := load64 b (a - base).
Definition load_enum (b : list byte) (a : Z) : outcome Z := load32 b (a - base).
Definition store_ptr (b : list byte) (a p : Z) : outcome (list byte) := store_bytes b (a - base) (le64 p).
(** [R2A(X)] for the field at address [a]. *)
Definition R2A (a x : Z) : Z := u64 (a + x).

(** [CALL_DECOMPRESS_HELPER] for the field at address [a]. *)
Definition call_decompress_helper (helper : Z → list byte → outcome (list byte)) (a : Z) (b : list byte)
    : outcome (list byte) :=
  x ← load_ptr b a;
  if x =? 0 then Ret b
  else b ← store_ptr b a (R2A a x); helper (R2A a x) b.

(** The walks over a ring that read only its [next] members. *)
Fixpoint walk_ring (fuel : nat) (next start cur : Z) (b : list byte) : outcome (list byte) :=
  match fuel with
  | O => NoFuel
  | S fuel' =>
      cur ← load_ptr b (cur + next);
      if cur =? start then Ret b else walk_ring fuel' next start cur b
  end.

(** The [do ... while] over the columns and over the keywords: the members, then the
    [next] of this element and the [prev] of the next one. *)
Fixpoint link_ring (fuel : nat) (members : Z → list byte → outcome (list byte)) (next prev start cur : Z)
    (b : list byte) : outcome (list byte) :=
  match fuel with
  | O => NoFuel
  | S fuel' =>
      b ← members cur b;
      x ← load_ptr b (cur + next);
      let n := if x =? 0 then start else R2A (cur + next) x in
      b ← store_ptr b (cur + next) n;
      b ← store_ptr b (n + prev) cur;
      if n =? start then Ret b else link_ring fuel' members next prev start n b
  end.

(** The switch, for a statement of type [type] whose [v] is the address [v]; [call] is
    [CALL_DECOMPRESS_HELPER]. *)
Definition decompress_payload (fuel : nat) (call : Z → list byte → outcome (list byte)) (type v : Z)
    (b : list byte) : outcome (list byte) :=
  if type =? 0 then                                    (* table_STATEMENT *)
    b ← call v b;
    b ← call (v + 8) b;
    b ← call (v + 16) b;
    call (v + 24) b
  else if type =? 4 then                               (* value_STATEMENT *)
    t ← load_enum b v;
    if t =? value_type_value CALCULATED_VALUE then call (v + 16) b
    else x ← load_ptr b (v + 16); store_ptr b (v + 16) (R2A (v + 16) x)
  else if type =? 8 then walk_ring fuel 8 v v b        (* column_list_STATEMENT *)
  else if type =? 9 then                               (* column_STATEMENT *)
    link_ring fuel (λ cur b, b ← call cur b; call (cur + 24) b) 32 40 v v b
  else if type =? 10 then Undef Uninitialised          (* join_STATEMENT: [cur_join] *)
  else if type =? 14 then                              (* keyword_STATEMENT *)
    link_ring fuel (λ cur b, call (cur + 8) b) 16 24 v v b
  else if type =? 15 then walk_ring fuel 32 v v b      (* column_list_alias_STATEMENT *)
  else if type =? 27 then Halt AssertFailed            (* invalid_STATEMENT *)
  else if (0 <=? type) && (type <? 27) then Halt FatalExit
  else Ret b.

Fixpoint decompress_statement_helper (fuel : nat) (stmt : Z) (b : list byte) : outcome (list byte) :=
  match fuel with
  | O => NoFuel
  | S fuel' =>
      _ ← c_assert (stmt <? base + block_length);
      if stmt =? null then Ret b else
      x ← load_ptr b (stmt + 24);
      if x =? 0 then Ret b else
      let v := R2A (stmt + 24) x in
      b ← store_ptr b (stmt + 24) v;
      type ← load_enum b stmt;
      decompress_payload fuel' (call_decompress_helper (decompress_statement_helper fuel')) type v b
  end.

Definition decompress_statement (fuel : nat) (b : list byte) : outcome (list byte) :=
  decompress_statement_helper fuel base b.
End decompress.
