(* ===== verification/CompressTheorems.v ===== *)
(** * A stored table is the table

    What [compress_statement] writes, [decompress_statement] turns back into the
    statement: [placed] says where every struct of a statement is in a block and what
    its pointers hold, relative as stored or absolute as loaded; [represents] is what a
    statement is in memory, without reference to any layout. *)
From stdpp Require Import gmap.
From S2P Require Import Prelude CMem LogicalPlan SqlStatement Compress.

(** ** Memory that changes in one place *)
Definition only (lo hi : Z) (b b' : list byte) : Prop :=
  length b' = length b ∧ ∀ k, ¬ (lo ≤ Z.of_nat k < hi) → b' !! k = b !! k.
Definition bytes_at (b : list byte) (i : Z) (bs : list byte) : Prop :=
  ∃ pre post, b = pre ++ bs ++ post ∧ i = zlen pre.

Lemma only_refl lo hi b : only lo hi b b.
Proof. by split. Qed.
Lemma only_zlen lo hi b b' : only lo hi b b' → zlen b' = zlen b.
Proof. intros [E _]. unfold zlen. by rewrite E. Qed.
Lemma only_weaken lo hi lo' hi' b b' : only lo hi b b' → lo' ≤ lo → hi ≤ hi' → only lo' hi' b b'.
Proof. intros [E H] ??. split; [done|]. intros k Hk. apply H. lia. Qed.
Lemma only_trans lo hi b b' b'' : only lo hi b b' → only lo hi b' b'' → only lo hi b b''.
Proof. intros [E H] [E' H']. split; [congruence|]. intros k Hk. by rewrite H', H. Qed.

Lemma store_bytes_only b i bs : 0 ≤ i → i + zlen bs ≤ zlen b →
  ∃ b', store_bytes b i bs = Ret b' ∧ only i (i + zlen bs) b b' ∧ bytes_at b' i bs.
Proof.
  intros Hi Hn.
  set (pre := take (Z.to_nat i) b). set (mid := take (length bs) (drop (Z.to_nat i) b)).
  set (post := drop (length bs) (drop (Z.to_nat i) b)).
  assert (Hb : b = pre ++ mid ++ post) by (unfold pre, mid, post; by rewrite !take_drop).
  assert (Hpre : length pre = Z.to_nat i) by (unfold pre; rewrite length_take; unfold zlen in *; lia).
  assert (Hmid : length mid = length bs) by (unfold mid; rewrite length_take, length_drop; unfold zlen in *; lia).
  exists (pre ++ bs ++ post). split_and!.
  - apply (store_bytes_app_eq _ _ pre mid post); [done|unfold zlen; lia|unfold zlen; lia].
  - rewrite Hb. split; [rewrite !length_app; lia|]. intros k Hk. unfold zlen in Hk.
    destruct (decide (k < length pre)%nat); [by rewrite !lookup_app_l by lia|].
    rewrite !(lookup_app_r pre) by lia. rewrite !lookup_app_r by lia. by rewrite Hmid.
  - exists pre, post. split; [done|]. unfold zlen. lia.
Qed.

(** The bytes of an interval are the same. *)
Definition same (lo hi : Z) (b b' : list byte) : Prop := ∀ k, lo ≤ Z.of_nat k < hi → b' !! k = b !! k.
Lemma only_same lo hi b b' l h : only lo hi b b' → h ≤ lo ∨ hi ≤ l → same l h b b'.
Proof. intros [E H] ? k ?. apply H. lia. Qed.
Lemma same_trans l h b b' b'' : same l h b b' → same l h b' b'' → same l h b b''.
Proof. intros H H' k ?. by rewrite H', H. Qed.

Lemma same_sub l h l' h' b b' : same l h b b' → l ≤ l' → h' ≤ h → same l' h' b b'.
Proof. intros H ?? k ?. apply H. lia. Qed.

Lemma load8_same lo hi b b' i : same lo hi b b' → lo ≤ i ∧ i + 1 ≤ hi → load8 b' i = load8 b i.
Proof.
  intros H Hi. unfold load8. destruct (i <? 0) eqn:E; [done|]. rewrite H; [done|]. lia.
Qed.
Lemma load32_same lo hi b b' i : same lo hi b b' → lo ≤ i ∧ i + 4 ≤ hi → load32 b' i = load32 b i.
Proof. intros H Hi. unfold load32, load16. by rewrite !(load8_same _ _ _ _ _ H) by lia. Qed.
Lemma load64_same lo hi b b' i : same lo hi b b' → lo ≤ i ∧ i + 8 ≤ hi → load64 b' i = load64 b i.
Proof. intros H Hi. unfold load64. by rewrite !(load32_same _ _ _ _ _ H) by lia. Qed.

Lemma load32_bytes_at b i z : bytes_at b i (le32 z) → load32 b i = Ret (u32 z).
Proof.
  intros (pre & post & Hb & Hi).
  rewrite (load32_app_eq b i pre (z2b z) (z2b (z / 2 ^ 8)) (z2b (z / 2 ^ 16)) (z2b (z / 2 ^ 16 / 2 ^ 8)) post)
    by done.
  f_equal. rewrite !b2z_z2b. change 256 with (2 ^ 8). unfold u32.
  rewrite (Z.div_div _ (2 ^ 16)) by lia.
  change (2 ^ 32) with (2 ^ 8 * (2 ^ 8 * (2 ^ 8 * 2 ^ 8))). rewrite !Z.rem_mul_r, !Z.div_div by lia.
  change (2 ^ 8 * 2 ^ 8) with (2 ^ 16). change (2 ^ 16 * 2 ^ 8) with (2 ^ 24). lia.
Qed.
Lemma bytes_at_app b i l k : bytes_at b i (l ++ k) → bytes_at b i l ∧ bytes_at b (i + zlen l) k.
Proof.
  intros (pre & post & -> & ->). split.
  - exists pre, (k ++ post). by rewrite <- !app_assoc.
  - exists (pre ++ l), post. rewrite <- !app_assoc. split; [done|]. zlia.
Qed.
Lemma load64_bytes_at b i z : bytes_at b i (le64 z) → load64 b i = Ret (u64 z).
Proof.
  intros [H1 H2]%bytes_at_app. unfold load64. rewrite (load32_bytes_at _ _ _ H1). cbn [mbind outcome_bind].
  change (zlen (le32 z)) with 4 in H2. rewrite (load32_bytes_at _ _ _ H2). cbn [mbind outcome_bind].
  f_equal. unfold u32, u64. change (2 ^ 64) with (2 ^ 32 * 2 ^ 32). rewrite Z.rem_mul_r by lia. lia.
Qed.

Lemma bytes_at_same lo hi b b' i bs : same lo hi b b' → lo ≤ i ∧ i + zlen bs ≤ hi → bs ≠ [] ∨ i ≤ zlen b' →
  bytes_at b i bs → bytes_at b' i bs.
Proof.
  intros H Hd Hne (pre & post & Hb & Hp).
  assert (Hk : ∀ k, (k < length bs)%nat → b' !! (length pre + k)%nat = bs !! k).
  { intros k Hk. rewrite H by (unfold zlen in *; lia). rewrite Hb, lookup_app_r, lookup_app_l by lia. f_equal. lia. }
  assert (Hl : (length pre ≤ length b')%nat).
  { destruct Hne as [Hne|?]; [|unfold zlen in *; lia]. apply Nat.lt_le_incl. destruct bs as [|x bs]; [done|]. apply lookup_lt_is_Some. specialize (Hk 0%nat). rewrite Nat.add_0_r in Hk.
    rewrite Hk by (cbn; lia). by eexists. }
  exists (take (length pre) b'), (drop (length (pre ++ bs)) b'). split.
  - rewrite <- (take_drop (length pre) b') at 1. f_equal.
    rewrite <- (take_drop (length bs) (drop (length pre) b')) at 1. f_equal; [|by rewrite drop_drop, !length_app].
    apply list_eq. intros k. destruct (decide (k < length bs)%nat).
    + rewrite lookup_take, decide_True, lookup_drop by done. by apply Hk.
    + rewrite lookup_ge_None_2, lookup_ge_None_2 by (rewrite ?length_take; lia). done.
  - rewrite Hp. unfold zlen. rewrite length_take. lia.
Qed.
Lemma string_at_bytes_at b i s : bytes_at b i (s ++ [nul]) → no_nul s → string_at b i = Ret s.
Proof. intros (pre & post & -> & ->) Hs. apply (string_at_app _ pre s post); [|done|done]. by rewrite <- !app_assoc. Qed.

(** ** Statements that can be stored

    What a statement says, without addresses: tables, values, columns and keywords. *)
#[local] Set Warnings "-register-all".
Inductive content :=
  | CNull
  | CTable (tableName source columns delim : content)
  | CText (type coerced : SqlValueType) (data_type : SqlDataType) (text : list byte)
  | CCalculated (coerced : SqlValueType) (data_type : SqlDataType) (calculated : content)
  | CColumns (ring : list (content * SqlDataType * content))    (* columnName, type, keywords *)
  | CKeywords (ring : list (OptionalKeyword * content)).
Definition is_null (c : content) : bool := match c with CNull => true | _ => false end.

Section content_of.
Context (m : values) (rings : gmap ptr (list SqlColumn)).
Fixpoint content_of (fuel : nat) (stmt : SqlStatement) : option content :=
  match fuel with
  | O => None
  | S fuel' =>
      if payload_null stmt then Some CNull else
      match stmt with
      | table_STATEMENT _ tableName source columns delim =>
          n ← content_of fuel' tableName;
          s ← content_of fuel' source;
          c ← match columns_statement rings columns with Ret stmt => content_of fuel' stmt | _ => None end;
          d ← content_of fuel' delim;
          Some (CTable n s c d)
      | value_STATEMENT p v =>
          value ← m !! p;
          match sv_type value with
          | CALCULATED_VALUE =>
              c ← content_of fuel' v; Some (CCalculated (sv_coerced_type value) (sv_data_type value) c)
          | COERCE_TYPE => None
          | t => if decide (no_nul (sv_literal value))
                 then Some (CText t (sv_coerced_type value) (sv_data_type value) (sv_literal value)) else None
          end
      | column_STATEMENT ring =>
          CColumns <$> mapM (λ '(Column _ columnName type _ keywords),
            n ← content_of fuel' columnName; k ← content_of fuel' keywords; Some (n, type, k)) ring
      | keyword_STATEMENT ring =>
          CKeywords <$> mapM (λ '(Keyword keyword v), c ← content_of fuel' v; Some (keyword, c)) ring
      | _ => None
      end
  end.
End content_of.

(** ** Layout of a statement *)
Definition ring_size {A} (cell : A → Z) : list A → Z :=
  fix go l := match l with [] => 0 | x :: l' => cell x + go l' end.
Fixpoint size (c : content) : Z :=
  match c with
  | CNull => 0
  | CTable n s k d => 80 + size n + size s + size k + size d
  | CText _ _ _ text => 57 + zlen text
  | CCalculated _ _ c => 56 + size c
  | CColumns ring => 32 + ring_size (λ '(n, _, k), 48 + size n + size k) ring
  | CKeywords ring => 32 + ring_size (λ '(_, v), 32 + size v) ring
  end.

(** Pointers as stored, or as they are in a block at [base]. *)
Inductive pointers := Relative | Absolute (base : Z).
Definition ptr_value (P : pointers) (field target : Z) : Z :=
  match P with Relative => target - field | Absolute base => base + target end.

(** The cells of a ring from offset [p] on: [hdr] bytes with [next] and [prev] as the last
    two members, then what the cell refers to. *)
Definition ring_placed {A} (hdr : Z) (cell : Z → A → Prop) (cell_size : A → Z) (P : pointers) (b : list byte)
    (start : Z) : Z → list A → Prop :=
  fix go p l := match l with
  | [] => True
  | x :: l' =>
      let e := p + cell_size x in
      let n := match l' with [] => start | _ => e end in
      cell p x ∧
      match P with
      | Relative => load64 b (p + hdr - 16) = Ret (match l' with [] => 0 | _ => e - (p + hdr - 16) end)
      | Absolute base => load64 b (p + hdr - 16) = Ret (base + n) ∧ load64 b (n + hdr - 8) = Ret (base + p)
      end ∧
      go e l'
  end.

(** The statement is at offset [i]; the pointer at offset [field] leads to the statement at
    offset [target]. *)
Definition child (placed : Z → content → Prop) (P : pointers) (b : list byte) (field target : Z) (c : content) : Prop :=
  load64 b field = Ret (if is_null c then 0 else ptr_value P field target) ∧ placed target c.
Fixpoint placed (P : pointers) (b : list byte) (i : Z) (c : content) : Prop :=
  let child := child (placed P b) P b in
  let head type := load32 b i = Ret type ∧ load64 b (i + 24) = Ret (ptr_value P (i + 24) (i + 32)) in
  match c with
  | CNull => True
  | CTable n s k d =>
      head 0 ∧ child (i + 32) (i + 80) n ∧ child (i + 40) (i + 80 + size n) s ∧
      child (i + 48) (i + 80 + size n + size s) k ∧
      child (i + 56) (i + 80 + size n + size s + size k) d
  | CText t k d text =>
      head 4 ∧ load32 b (i + 32) = Ret (value_type_value t) ∧ load32 b (i + 36) = Ret (value_type_value k) ∧
      load32 b (i + 40) = Ret (data_type_value d) ∧ load64 b (i + 48) = Ret (ptr_value P (i + 48) (i + 56)) ∧
      bytes_at b (i + 56) (text ++ [nul]) ∧ no_nul text ∧ t ≠ CALCULATED_VALUE
  | CCalculated k d c =>
      head 4 ∧ load32 b (i + 32) = Ret (value_type_value CALCULATED_VALUE) ∧
      load32 b (i + 36) = Ret (value_type_value k) ∧ load32 b (i + 40) = Ret (data_type_value d) ∧
      child (i + 48) (i + 56) c
  | CColumns ring =>
      head 9 ∧ ring ≠ [] ∧ ring_placed 48 (λ p '(n, t, k),
        load32 b (p + 8) = Ret (data_type_value t) ∧ child p (p + 48) n ∧ child (p + 24) (p + 48 + size n) k)
        (λ '(n, _, k), 48 + size n + size k) P b (i + 32) (i + 32) ring
  | CKeywords ring =>
      head 14 ∧ ring ≠ [] ∧ ring_placed 32 (λ p '(w, v),
        load32 b p = Ret (keyword_value w) ∧ child (p + 8) (p + 32) v)
        (λ '(_, v), 32 + size v) P b (i + 32) (i + 32) ring
  end.

(** ** A statement in memory

    The C structs at address [a]: NULL, or the statement, the struct it points to and what
    that leads to; a ring is doubly linked and closed. *)
Section represents.
Context (base : Z) (b : list byte).
Definition ring_cells {A} (next prev : Z) (cell : Z → A → Prop) : Z → Z → list A → Z → Z → Prop :=
  fix go p q l e r := match l with
  | [] => p = e ∧ q = r
  | x :: l' => load_ptr base b (p + prev) = Ret q ∧ cell p x ∧
      ∃ n, load_ptr base b (p + next) = Ret n ∧ (n = e ↔ l' = []) ∧ go n p l' e r
  end.
Fixpoint represents (a : Z) (c : content) : Prop :=
  let member a c := ∃ p, load_ptr base b a = Ret p ∧ represents p c in
  let payload type v := a ≠ null ∧ load_enum base b a = Ret type ∧ load_ptr base b (a + 24) = Ret v ∧ v ≠ null in
  match c with
  | CNull => a = null
  | CTable n s k d => ∃ v, payload 0 v ∧ member v n ∧ member (v + 8) s ∧ member (v + 16) k ∧ member (v + 24) d
  | CText t k d text => ∃ v, payload 4 v ∧ t ≠ CALCULATED_VALUE ∧
      load_enum base b v = Ret (value_type_value t) ∧ load_enum base b (v + 4) = Ret (value_type_value k) ∧
      load_enum base b (v + 8) = Ret (data_type_value d) ∧
      ∃ p, load_ptr base b (v + 16) = Ret p ∧ string_at b (p - base) = Ret text
  | CCalculated k d c => ∃ v, payload 4 v ∧
      load_enum base b v = Ret (value_type_value CALCULATED_VALUE) ∧ load_enum base b (v + 4) = Ret (value_type_value k) ∧
      load_enum base b (v + 8) = Ret (data_type_value d) ∧ member (v + 16) c
  | CColumns ring => ring ≠ [] ∧ ∃ v last, payload 9 v ∧
      ring_cells 32 40 (λ p '(n, t, k), member p n ∧ load_enum base b (p + 8) = Ret (data_type_value t) ∧
        member (p + 24) k) v last ring v last
  | CKeywords ring => ring ≠ [] ∧ ∃ v last, payload 14 v ∧
      ring_cells 16 24 (λ p '(w, c), load_enum base b p = Ret (keyword_value w) ∧ member (p + 8) c) v last ring v last
  end.
End represents.

(** ** Sizes and frames *)
Definition content_children (c : content) : list content :=
  match c with
  | CTable n s k d => [n; s; k; d]
  | CCalculated _ _ c => [c]
  | CColumns ring => ring ≫= λ '(n, _, k), [n; k]
  | CKeywords ring => ring ≫= λ '(_, v), [v]
  | _ => []
  end.
Section content_ind.
Context (Q : content → Prop) (Hstep : ∀ c, Forall Q (content_children c) → Q c).
Fixpoint content_induction (c : content) : Q c.
Proof.
  apply Hstep. destruct c as [| | | |ring|ring]; cbn [content_children];
    repeat apply Forall_cons_2; try apply Forall_nil_2; try apply content_induction.
  all: induction ring as [|x ring IH]; [apply Forall_nil_2|].
  all: cbn [mbind list_bind]; apply Forall_app_2; [|exact IH].
  - destruct x as [[n t] k]. apply Forall_cons_2; [|apply Forall_cons_2; [|apply Forall_nil_2]]; apply content_induction.
  - destruct x as [w v]. apply Forall_cons_2; [|apply Forall_nil_2]; apply content_induction.
Qed.
End content_ind.
Lemma Forall_bind_inv {A B} (Q : B → Prop) (f : A → list B) l :
  Forall Q (l ≫= f) → Forall (λ x, Forall Q (f x)) l.
Proof. induction l as [|x l IH]; [constructor|]. cbn. intros [??]%Forall_app. constructor; auto. Qed.

Lemma ring_size_nonneg {A} (cell : A → Z) l : Forall (λ x, 0 ≤ cell x) l → 0 ≤ ring_size cell l.
Proof. induction 1; cbn; lia. Qed.
Lemma size_nonneg c : 0 ≤ size c.
Proof.
  induction c as [c IH] using content_induction. destruct c as [| |? ? ? text| |ring|ring]; cbn [size content_children] in *.
  - lia.
  - repeat (apply list.Forall_cons in IH as [? IH]). lia.
  - pose proof (zlen_nonneg text). lia.
  - apply list.Forall_cons in IH as [? _]. lia.
  - enough (0 ≤ ring_size (λ '(n, _, k), 48 + size n + size k) ring) by lia.
    apply ring_size_nonneg. apply Forall_bind_inv in IH. eapply Forall_impl; [|exact IH].
    intros [[n t] k] Hx. repeat (apply list.Forall_cons in Hx as [? Hx]). lia.
  - enough (0 ≤ ring_size (λ '(_, v), 32 + size v) ring) by lia.
    apply ring_size_nonneg. apply Forall_bind_inv in IH. eapply Forall_impl; [|exact IH].
    intros [w v] Hx. apply list.Forall_cons in Hx as [? _]. lia.
Qed.
(** Facts [lia] needs about every size in sight. *)
Ltac size_pos :=
  repeat match goal with
  | |- context [size ?c] =>
      lazymatch goal with _ : 0 ≤ size c |- _ => fail | _ => pose proof (size_nonneg c) end
  | _ : context [size ?c] |- _ =>
      lazymatch goal with _ : 0 ≤ size c |- _ => fail | _ => pose proof (size_nonneg c) end
  end.
Ltac slia := cbn [size] in *; size_pos; zlia.

Lemma size_pos_nonnull c : is_null c = false → 32 ≤ size c.
Proof.
  destruct c as [| |? ? ? text| |ring|ring]; cbn [size]; intros; try done; size_pos; zlen_pos; try lia.
  - enough (0 ≤ ring_size (λ '(n, _, k), 48 + size n + size k) ring) by lia.
    apply ring_size_nonneg, list.Forall_forall. intros [[n t] k] _. size_pos. lia.
  - enough (0 ≤ ring_size (λ '(_, v), 32 + size v) ring) by lia.
    apply ring_size_nonneg, list.Forall_forall. intros [w v] _. size_pos. lia.
Qed.

Section ring_frame.
Context {A : Type} (hdr : Z) (cell_size : A → Z) (Hhdr : 16 ≤ hdr) (Hsize : ∀ x, hdr ≤ cell_size x).
Lemma cells_size_nonneg l : 0 ≤ ring_size cell_size l.
Proof. apply ring_size_nonneg, list.Forall_forall. intros x _. pose proof (Hsize x). lia. Qed.

Lemma ring_placed_same P lo hi b b' start l (cell cell' : Z → A → Prop) p :
  same lo hi b b' → start ≤ p → lo ≤ start ∧ p + ring_size cell_size l ≤ hi →
  Forall (λ x, ∀ q, start ≤ q → q + cell_size x ≤ p + ring_size cell_size l → cell q x → cell' q x) l →
  ring_placed hdr cell cell_size P b start p l → ring_placed hdr cell' cell_size P b' start p l.
Proof.
  intros Ho. revert p. induction l as [|x l IH]; intros p Hp Hd Hc H; [done|].
  cbn [ring_placed ring_size] in *. destruct H as (Hx & Hl & Hr).
  apply list.Forall_cons in Hc as [Hcx Hc]. pose proof (Hsize x). pose proof (cells_size_nonneg l).
  split_and!.
  - apply Hcx; [lia|lia|done].
  - assert (Hnext : match l with [] => True | _ => hdr ≤ ring_size cell_size l end).
    { destruct l as [|y l]; [done|]. cbn. pose proof (Hsize y). pose proof (cells_size_nonneg l).
      cbn [ring_size] in *. lia. }
    destruct P as [|base].
    + by rewrite (load64_same _ _ _ _ _ Ho) by lia.
    + destruct Hl as [Hn Hv]. split; [by rewrite (load64_same _ _ _ _ _ Ho) by lia|].
      rewrite (load64_same _ _ _ _ _ Ho); [done|]. destruct l; lia.
  - apply IH; [lia|lia| |done]. eapply Forall_impl; [|exact Hc]. intros y Hy q ??. apply Hy; lia.
Qed.
End ring_frame.

Lemma child_same P lo hi b b' f t c (pl pl' : Z → content → Prop) :
  same lo hi b b' → lo ≤ f ∧ f + 8 ≤ hi → (pl t c → pl' t c) →
  child pl P b f t c → child pl' P b' f t c.
Proof. intros Ho Hf Hpl [Hl Hp]. split; [by rewrite (load64_same _ _ _ _ _ Ho)|auto]. Qed.

Lemma placed_same P lo hi b b' i c : same lo hi b b' → lo ≤ i ∧ i + size c ≤ hi →
  placed P b i c → placed P b' i c.
Proof.
  intros Ho. revert i. induction c as [c IH] using content_induction. intros i Hd.
  assert (H32 : ∀ j, lo ≤ j ∧ j + 4 ≤ hi → load32 b' j = load32 b j) by (intros; by eapply load32_same).
  assert (H64 : ∀ j, lo ≤ j ∧ j + 8 ≤ hi → load64 b' j = load64 b j) by (intros; by eapply load64_same).
  destruct c as [|n s k d|t k d text|k d c|ring|ring]; cbn [content_children] in IH; cbn [placed].
  - done.
  - do 4 (apply list.Forall_cons in IH as [? IH]). rewrite H32, H64 by slia.
    intros ([??] & ? & ? & ? & ?). split_and!; try done.
    all: eapply child_same; [exact Ho|slia| |eassumption]; intros Hc; eauto with lia.
    all: match goal with H : ∀ i, _ → placed _ _ i ?c → _ |- placed _ _ _ ?c => apply H; [slia|done] end.
  - rewrite !H32, !H64 by slia. intros ([??] & ? & ? & ? & ? & ? & ? & ?). split_and!; try done.
    eapply bytes_at_same; [exact Ho|slia|left; by destruct text|done].
  - apply list.Forall_cons in IH as [IH _]. rewrite !H32, !H64 by slia.
    intros ([??] & ? & ? & ? & ?). split_and!; try done.
    eapply child_same; [exact Ho|slia| |eassumption]. apply IH. slia.
  - assert (Hs : 0 ≤ ring_size (λ '(n, _, k), 48 + size n + size k) ring).
    { apply (cells_size_nonneg 48); [lia|]. intros [[n t] k]. slia. }
    cbn [size] in Hd. rewrite !H32, !H64 by lia. intros ([??] & ? & Hr). split_and!; try done.
    eapply ring_placed_same; [| |exact Ho| | | |exact Hr]; [lia|intros [[n t] k]; slia|lia|lia|].
    apply Forall_bind_inv in IH. eapply Forall_impl; [|exact IH]. intros [[n t] k] Hx q Hq He (Ht & Hn & Hk).
    do 2 (apply list.Forall_cons in Hx as [? Hx]). split_and!.
    + rewrite H32; [done|slia].
    + eapply child_same; [exact Ho|slia| |exact Hn]. match goal with H : context [placed P b _ n] |- _ => apply H end. slia.
    + eapply child_same; [exact Ho|slia| |exact Hk]. match goal with H : context [placed P b _ k] |- _ => apply H end. slia.
  - assert (Hs : 0 ≤ ring_size (λ '(_, v), 32 + size v) ring).
    { apply (cells_size_nonneg 32); [lia|]. intros [w v]. slia. }
    cbn [size] in Hd. rewrite !H32, !H64 by lia. intros ([??] & ? & Hr). split_and!; try done.
    eapply ring_placed_same; [| |exact Ho| | | |exact Hr]; [lia|intros [w v]; slia|lia|lia|].
    apply Forall_bind_inv in IH. eapply Forall_impl; [|exact IH]. intros [w v] Hx q Hq He (Ht & Hn).
    apply list.Forall_cons in Hx as [? _]. split.
    + rewrite H32; [done|slia].
    + eapply child_same; [exact Ho|slia| |exact Hn]. match goal with H : context [placed P b _ v] |- _ => apply H end. slia.
Qed.

(** ** The writing pass *)
Lemma poke_only i bs b n : 0 ≤ i → i + zlen bs ≤ zlen b →
  ∃ b', poke i bs {| out := Some b; out_length := n |} = Ret {| out := Some b'; out_length := n |} ∧
    only i (i + zlen bs) b b' ∧ bytes_at b' i bs.
Proof.
  intros Hi Hn. destruct (store_bytes_only b i bs Hi Hn) as (b' & E & Ho & Hb).
  exists b'. unfold poke; cbn. by rewrite E.
Qed.
Lemma grow_ok n o k : k + n ≤ INT_MAX → grow n {| out := o; out_length := k |} = Ret {| out := o; out_length := k + n |}.
Proof. intros H. unfold grow; cbn. destruct (Z.ltb_spec INT_MAX (k + n)); [lia|done]. Qed.
Lemma zlen_le32 z : zlen (le32 z) = 4. Proof. done. Qed.
Lemma zlen_le64 z : zlen (le64 z) = 8. Proof. done. Qed.
Lemma u64_small z : 0 ≤ z < 2 ^ 64 → u64 z = z.
Proof. apply Z.mod_small. Qed.
Lemma value_type_u32 t : u32 (value_type_value t) = value_type_value t. Proof. by destruct t. Qed.
Lemma data_type_u32 t : u32 (data_type_value t) = data_type_value t. Proof. by destruct t. Qed.
Lemma keyword_u32 w : u32 (keyword_value w) = keyword_value w. Proof. by destruct w. Qed.
Lemma bytes_at_snoc b i s x : bytes_at b i s → bytes_at b (i + zlen s) [x] → bytes_at b i (s ++ [x]).
Proof.
  intros (pre & post & Hb & ->) (pre' & post' & Hb' & Hl). exists pre, post'. split; [|done].
  rewrite Hb, app_assoc in Hb'. apply app_inj_1 in Hb' as [<- Hb'].
  - rewrite Hb, Hb'. by rewrite <- !app_assoc.
  - rewrite length_app. unfold zlen in Hl. lia.
Qed.

(** What one call of the helper does: it fills its own part of the block. *)
Definition packs (helper : SqlStatement → packer → outcome (option Z * packer)) (stmt : SqlStatement) (c : content) : Prop :=
  ∀ b off, 0 ≤ off → off + size c ≤ zlen b → zlen b ≤ INT_MAX →
  ∃ b', helper stmt {| out := Some b; out_length := off |} =
      Ret (if is_null c then None else Some off, {| out := Some b'; out_length := off + size c |}) ∧
    only off (off + size c) b b' ∧ placed Relative b' off c.

Lemma call_packs helper stmt c b field off :
  packs helper stmt c → 0 ≤ field → field + 8 ≤ off → off + size c ≤ zlen b → zlen b ≤ INT_MAX →
  ∃ b', call_compress_helper helper stmt field {| out := Some b; out_length := off |} =
      Ret {| out := Some b'; out_length := off + size c |} ∧
    only field (off + size c) b b' ∧ same (field + 8) off b b' ∧
    child (placed Relative b') Relative b' field off c.
Proof.
  intros Hp Hf Ho Hb Hm. pose proof (size_nonneg c). destruct (Hp b off) as (b1 & E & H1 & Hc); [lia|lia|lia|].
  unfold call_compress_helper. rewrite E. cbn [mbind outcome_bind].
  destruct (poke_only field (le64 (match (if is_null c then None else Some off) with
    Some r => r - field | None => 0 end)) b1 (off + size c)) as (b2 & E2 & H2 & Hb2).
  { done. } { rewrite zlen_le64, (only_zlen _ _ _ _ H1). lia. }
  rewrite zlen_le64 in H2. exists b2. split_and!; [done| | |].
  - eapply only_trans; eapply only_weaken; [exact H1|lia|lia|exact H2|lia|lia].
  - eapply same_trans; eapply only_same; [exact H1|lia|exact H2|lia].
  - split.
    + rewrite (load64_bytes_at _ _ _ Hb2). unfold INT_MAX in *.
      destruct (is_null c) eqn:En; [done|]. cbn. rewrite u64_small by lia. done.
    + eapply placed_same; [eapply (only_same _ _ _ _ off (off + size c)); [exact H2|lia]|lia|done].
Qed.

(** A ring, cell by cell. *)
Lemma ring_loop_packs {A B} (f : A → bool → packer → outcome packer) (hdr : Z)
    (cell : list byte → Z → B → Prop) (cell_size : B → Z) xs ys b off start :
  16 ≤ hdr → (∀ y, hdr ≤ cell_size y) →
  (∀ b b' p y, same p (p + cell_size y) b b' → cell b p y → cell b' p y) →
  Forall2 (λ x y, ∀ b off last, 0 ≤ off → off + cell_size y ≤ zlen b → zlen b ≤ INT_MAX →
    ∃ b', f x last {| out := Some b; out_length := off |} = Ret {| out := Some b'; out_length := off + cell_size y |} ∧
      only off (off + cell_size y) b b' ∧ cell b' off y ∧
      load64 b' (off + hdr - 16) = Ret (if last : bool then 0 else off + cell_size y - (off + hdr - 16))) xs ys →
  0 ≤ off → off + ring_size cell_size ys ≤ zlen b → zlen b ≤ INT_MAX →
  ∃ b', ring_loop f xs {| out := Some b; out_length := off |} =
      Ret {| out := Some b'; out_length := off + ring_size cell_size ys |} ∧
    only off (off + ring_size cell_size ys) b b' ∧ ring_placed hdr (cell b') cell_size Relative b' start off ys.
Proof.
  intros Hh Hsz Hloc HF. revert b off. induction HF as [|x y xs ys Hx HF IH]; intros b off Ho Hb Hm.
  { cbn. rewrite Z.add_0_r. exists b. split_and!; [done|apply only_refl|done]. }
  cbn [ring_loop ring_size ring_placed] in *.
  pose proof (Hsz y). pose proof (cells_size_nonneg hdr cell_size Hh Hsz ys).
  destruct (Hx b off (match xs with [] => true | _ => false end)) as (b1 & E & H1 & Hc & Hn); [lia..|].
  rewrite E. cbn [mbind outcome_bind].
  destruct (IH b1 (off + cell_size y)) as (b2 & E2 & H2 & Hr); [lia|rewrite (only_zlen _ _ _ _ H1); lia..|].
  assert (Hs : same off (off + cell_size y) b1 b2) by (eapply only_same; [exact H2|lia]).
  exists b2. rewrite E2. split_and!.
  - by rewrite Z.add_assoc.
  - eapply only_trans; eapply only_weaken; [exact H1|lia|lia|exact H2|lia|lia].
  - by eapply Hloc.
  - rewrite (load64_same _ _ _ _ _ Hs) by lia. rewrite Hn. by destruct HF.
  - done.
Qed.

Lemma head_packs b off type : 0 ≤ off → off + 32 ≤ zlen b → zlen b ≤ INT_MAX → 0 ≤ type < 2 ^ 32 →
  ∃ b', compress_head type {| out := Some b; out_length := off |} = Ret {| out := Some b'; out_length := off + 32 |} ∧
    only off (off + 32) b b' ∧ load32 b' off = Ret type ∧ load64 b' (off + 24) = Ret 8.
Proof.
  intros Ho Hb Hm Ht. unfold compress_head; cbn [out_length].
  destruct (poke_only off (le32 type) b off) as (b1 & E1 & H1 & B1); [done|rewrite zlen_le32; lia|].
  rewrite E1. cbn [mbind outcome_bind]. rewrite grow_ok by (unfold sizeof_SqlStatement; lia).
  cbn [mbind outcome_bind out_length]. unfold sizeof_SqlStatement. rewrite zlen_le32 in H1.
  destruct (poke_only (off + 24) (le64 (off + 32 - (off + 24))) b1 (off + 32)) as (b2 & E2 & H2 & B2);
    [lia|rewrite zlen_le64, (only_zlen _ _ _ _ H1); lia|].
  rewrite zlen_le64 in H2. exists b2. split_and!; [done| | |].
  - eapply only_trans; eapply only_weaken; [exact H1|lia|lia|exact H2|lia|lia].
  - assert (Hs : same off (off + 4) b1 b2) by (eapply only_same; [exact H2|lia]).
    rewrite (load32_same _ _ _ _ _ Hs), (load32_bytes_at _ _ _ B1), u32_small by lia. done.
  - rewrite (load64_bytes_at _ _ _ B2), u64_small by lia. f_equal. lia.
Qed.

(** The result of the switch on its own part of the block, from the offset [off] on. *)
Definition packs_payload (payload : packer → outcome packer) (n : Z) (done : list byte → Z → Prop) : Prop :=
  ∀ b off, 0 ≤ off → off + n ≤ zlen b → zlen b ≤ INT_MAX →
  ∃ b', payload {| out := Some b; out_length := off |} = Ret {| out := Some b'; out_length := off + n |} ∧
    only off (off + n) b b' ∧ done b' off.

(** Knowing that [b'] is [b1] on an interval, move a fact about one to the other. *)
Ltac keep H :=
  first [ rewrite (load32_same _ _ _ _ _ H) by slia
        | rewrite (load64_same _ _ _ _ _ H) by slia ].

Lemma child_same_placed P lo hi b b' f t c :
  same lo hi b b' → lo ≤ f ∧ f + 8 ≤ hi → lo ≤ t ∧ t + size c ≤ hi →
  child (placed P b) P b f t c → child (placed P b') P b' f t c.
Proof. intros Hs Hf Ht. eapply child_same; [exact Hs|done|]. by eapply placed_same. Qed.
(** A later call leaves alone what is before its own field and what is between that field
    and its own part. *)
Lemma child_kept P b b' field off n f t c :
  only field (off + n) b b' → same (field + 8) off b b' → f + 8 ≤ field → field + 8 ≤ t → t + size c ≤ off →
  child (placed P b) P b f t c → child (placed P b') P b' f t c.
Proof.
  intros Ho Hs ???. eapply child_same; [eapply (only_same _ _ _ _ f (f + 8)); [exact Ho|lia]|lia|].
  eapply placed_same; [exact Hs|lia].
Qed.
Lemma child_apart P lo hi b b' f t c : only lo hi b b' → f + 8 ≤ lo ∨ hi ≤ f → t + size c ≤ lo ∨ hi ≤ t →
  child (placed P b) P b f t c → child (placed P b') P b' f t c.
Proof.
  intros Ho ??. eapply child_same; [eapply (only_same _ _ _ _ f (f + 8)); [exact Ho|done]|lia|].
  eapply placed_same; [eapply (only_same _ _ _ _ t (t + size c)); [exact Ho|done]|lia].
Qed.
(** One step of a chain of changes inside an interval. *)
Ltac inside F := eapply only_trans; [eapply only_weaken; [exact F|lia|lia]|].
Ltac last_inside F := eapply only_weaken; [exact F|lia|lia].

Lemma table_packs helper n s k d sn ss sk sd :
  packs helper sn n → packs helper ss s → packs helper sk k → packs helper sd d →
  packs_payload (λ st,
    let new_table := out_length st in
    st ← grow sizeof_SqlTable st;
    st ← call_compress_helper helper sn new_table st;
    st ← call_compress_helper helper ss (new_table + 8) st;
    st ← call_compress_helper helper sk (new_table + 16) st;
    call_compress_helper helper sd (new_table + 24) st) (48 + size n + size s + size k + size d)
    (λ b i, let child := child (placed Relative b) Relative b in
      child i (i + 48) n ∧ child (i + 8) (i + 48 + size n) s ∧ child (i + 16) (i + 48 + size n + size s) k ∧
      child (i + 24) (i + 48 + size n + size s + size k) d).
Proof.
  intros Hn Hs Hk Hd b off Ho Hb Hm. size_pos. cbn [out_length]. rewrite grow_ok by (unfold sizeof_SqlTable; lia).
  unfold sizeof_SqlTable. cbn [mbind outcome_bind].
  destruct (call_packs helper sn n b off (off + 48) Hn) as (b1 & E1 & F1 & G1 & C1); [lia..|].
  rewrite E1. cbn [mbind outcome_bind]. pose proof (only_zlen _ _ _ _ F1).
  destruct (call_packs helper ss s b1 (off + 8) (off + 48 + size n) Hs) as (b2 & E2 & F2 & G2 & C2); [lia..|].
  rewrite E2. cbn [mbind outcome_bind]. pose proof (only_zlen _ _ _ _ F2).
  destruct (call_packs helper sk k b2 (off + 16) (off + 48 + size n + size s) Hk) as (b3 & E3 & F3 & G3 & C3); [lia..|].
  rewrite E3. cbn [mbind outcome_bind]. pose proof (only_zlen _ _ _ _ F3).
  destruct (call_packs helper sd d b3 (off + 24) (off + 48 + size n + size s + size k) Hd) as (b4 & E4 & F4 & G4 & C4); [lia..|].
  exists b4. split_and!.
  - rewrite E4. do 2 f_equal. lia.
  - inside F1. inside F2. inside F3. last_inside F4.
  - eapply child_kept; [exact F4|exact G4|lia..|]. eapply child_kept; [exact F3|exact G3|lia..|].
    eapply child_kept; [exact F2|exact G2|lia..|done].
  - eapply child_kept; [exact F4|exact G4|lia..|]. eapply child_kept; [exact F3|exact G3|lia..|done].
  - eapply child_kept; [exact F4|exact G4|lia..|done].
  - done.
Qed.

Lemma value_packs value b off :
  0 ≤ off → off + 24 ≤ zlen b → zlen b ≤ INT_MAX →
  ∃ b', compress_value value {| out := Some b; out_length := off |} = Ret {| out := Some b'; out_length := off + 24 |} ∧
    only off (off + 24) b b' ∧ load32 b' off = Ret (value_type_value (sv_type value)) ∧
    load32 b' (off + 4) = Ret (value_type_value (sv_coerced_type value)) ∧
    load32 b' (off + 8) = Ret (data_type_value (sv_data_type value)).
Proof.
  destruct value as [t k d text]; cbn [sv_type sv_coerced_type sv_data_type].
  intros Ho Hb Hm. unfold compress_value; cbn [out_length sv_type sv_coerced_type sv_data_type].
  destruct (poke_only off (le32 (value_type_value t)) b off) as (b1 & E1 & F1 & B1); [lia|rewrite zlen_le32; lia|].
  rewrite zlen_le32 in F1. pose proof (only_zlen _ _ _ _ F1).
  destruct (poke_only (off + 4) (le32 (value_type_value k)) b1 off) as (b2 & E2 & F2 & B2); [lia|rewrite zlen_le32; lia|].
  rewrite zlen_le32 in F2. pose proof (only_zlen _ _ _ _ F2).
  destruct (poke_only (off + 8) (le32 (data_type_value d)) b2 off) as (b3 & E3 & F3 & B3); [lia|rewrite zlen_le32; lia|].
  rewrite zlen_le32 in F3.
  exists b3. rewrite E1. cbn [mbind outcome_bind]. rewrite E2. cbn [mbind outcome_bind]. rewrite E3. cbn [mbind outcome_bind].
  unfold sizeof_SqlValue. rewrite grow_ok by lia. split_and!; [done| | | |].
  - inside F1. inside F2. last_inside F3.
  - erewrite (load32_same off (off + 4) b2), (load32_same off (off + 4) b1);
      [|eapply only_same; [exact F2|lia]|lia|eapply only_same; [exact F3|lia]|lia].
    by rewrite (load32_bytes_at _ _ _ B1), value_type_u32.
  - erewrite (load32_same (off + 4) (off + 8) b2); [|eapply only_same; [exact F3|lia]|lia].
    by rewrite (load32_bytes_at _ _ _ B2), value_type_u32.
  - by rewrite (load32_bytes_at _ _ _ B3), data_type_u32.
Qed.

(** The string of a value: the bytes, the pointer to them and the terminator. *)
Lemma text_packs text b off : 0 ≤ off → 16 ≤ off → off + zlen text + 1 ≤ zlen b → zlen b ≤ INT_MAX →
  ∃ b', compress_text text (off - 8) {| out := Some b; out_length := off |} =
      Ret {| out := Some b'; out_length := off + zlen text + 1 |} ∧
    only (off - 8) (off + zlen text + 1) b b' ∧ load64 b' (off - 8) = Ret 8 ∧ bytes_at b' off (text ++ [nul]).
Proof.
  intros Ho Ho' Hb Hm. pose proof (zlen_nonneg text). unfold compress_text; cbn [out_length].
  destruct (poke_only off text b off) as (b1 & E1 & F1 & B1); [lia|lia|]. pose proof (only_zlen _ _ _ _ F1).
  destruct (poke_only (off - 8) (le64 (off - (off - 8))) b1 off) as (b2 & E2 & F2 & B2); [lia|rewrite zlen_le64; lia|].
  rewrite zlen_le64 in F2. pose proof (only_zlen _ _ _ _ F2).
  destruct (poke_only (off + zlen text) [nul] b2 (off + zlen text)) as (b3 & E3 & F3 & B3); [lia|zlia|].
  change (zlen [nul]) with 1 in F3.
  exists b3. rewrite E1. cbn [mbind outcome_bind]. rewrite E2. cbn [mbind outcome_bind].
  rewrite grow_ok by lia. cbn [mbind outcome_bind out_length]. rewrite E3. cbn [mbind outcome_bind].
  rewrite grow_ok by lia. split_and!; [done| | |].
  - inside F1. inside F2. last_inside F3.
  - erewrite (load64_same (off - 8) off b2); [|eapply only_same; [exact F3|lia]|lia].
    rewrite (load64_bytes_at _ _ _ B2), u64_small by lia. f_equal. lia.
  - apply bytes_at_snoc; [|done]. eapply bytes_at_same; [eapply (only_same _ _ _ _ off (off + zlen text)); [exact F3|lia]|lia| |].
    { right. rewrite (only_zlen _ _ _ _ F3). lia. }
    eapply bytes_at_same; [eapply (only_same _ _ _ _ off (off + zlen text)); [exact F2|lia]|lia|right; lia|done].
Qed.

(** One column and one keyword. *)
Lemma column_packs helper p name t table keywords n k :
  packs helper name n → packs helper keywords k →
  ∀ b off last, 0 ≤ off → off + (48 + size n + size k) ≤ zlen b → zlen b ≤ INT_MAX →
  ∃ b', compress_column (call_compress_helper helper) (Column p name t table keywords) last
        {| out := Some b; out_length := off |} = Ret {| out := Some b'; out_length := off + (48 + size n + size k) |} ∧
    only off (off + (48 + size n + size k)) b b' ∧
    (load32 b' (off + 8) = Ret (data_type_value t) ∧ child (placed Relative b') Relative b' off (off + 48) n ∧
     child (placed Relative b') Relative b' (off + 24) (off + 48 + size n) k) ∧
    load64 b' (off + 48 - 16) = Ret (if last : bool then 0 else off + (48 + size n + size k) - (off + 48 - 16)).
Proof.
  intros Hn Hk b off last Ho Hb Hm. size_pos. unfold compress_column; cbn [out_length].
  destruct (poke_only (off + 8) (le32 (data_type_value t)) b off) as (b1 & E1 & F1 & B1); [lia|rewrite zlen_le32; lia|].
  rewrite zlen_le32 in F1. pose proof (only_zlen _ _ _ _ F1).
  destruct (poke_only (off + 32) (le64 0 ++ le64 0) b1 off) as (b2 & E2 & F2 & B2); [lia|change (zlen (le64 0 ++ le64 0)) with 16; lia|].
  change (zlen (le64 0 ++ le64 0)) with 16 in F2. pose proof (only_zlen _ _ _ _ F2).
  rewrite E1. cbn [mbind outcome_bind]. rewrite E2. cbn [mbind outcome_bind].
  unfold sizeof_SqlColumn. rewrite grow_ok by lia. cbn [mbind outcome_bind].
  destruct (call_packs helper name n b2 off (off + 48) Hn) as (b3 & E3 & F3 & G3 & C3); [lia..|].
  rewrite E3. cbn [mbind outcome_bind]. pose proof (only_zlen _ _ _ _ F3).
  destruct (call_packs helper keywords k b3 (off + 24) (off + 48 + size n) Hk) as (b4 & E4 & F4 & G4 & C4); [lia..|].
  rewrite E4. cbn [mbind outcome_bind out_length]. pose proof (only_zlen _ _ _ _ F4).
  assert (N4 : load64 b4 (off + 32) = Ret 0).
  { rewrite (load64_same _ _ _ _ _ G4) by lia. rewrite (load64_same _ _ _ _ _ G3) by lia.
    apply bytes_at_app in B2 as [B2 _]. by rewrite (load64_bytes_at _ _ _ B2). }
  assert (T4 : load32 b4 (off + 8) = Ret (data_type_value t)).
  { erewrite (load32_same (off + 8) (off + 12) b3); [|eapply only_same; [exact F4|lia]|lia].
    rewrite (load32_same _ _ _ _ _ G3) by lia.
    erewrite (load32_same (off + 8) (off + 12) b1); [|eapply only_same; [exact F2|lia]|lia].
    by rewrite (load32_bytes_at _ _ _ B1), data_type_u32. }
  assert (C3' : child (placed Relative b4) Relative b4 off (off + 48) n).
  { eapply child_kept; [exact F4|exact G4|lia..|done]. }
  assert (O4 : only off (off + (48 + size n + size k)) b b4).
  { inside F1. inside F2. inside F3. last_inside F4. }
  replace (off + 48 - 16) with (off + 32) by lia.
  destruct last; [exists b4; split_and!; try done; by rewrite <- !Z.add_assoc|].
  destruct (poke_only (off + 32) (le64 (off + 48 + size n + size k - (off + 32))) b4 (off + 48 + size n + size k))
    as (b5 & E5 & F5 & B5); [lia|rewrite zlen_le64; lia|]. rewrite zlen_le64 in F5.
  exists b5. rewrite E5. split_and!.
  - do 2 f_equal. lia.
  - inside O4. last_inside F5.
  - erewrite (load32_same (off + 8) (off + 12) b4); [done|eapply only_same; [exact F5|lia]|lia].
  - eapply child_apart; [exact F5|lia|lia|done].
  - eapply child_apart; [exact F5|lia|lia|done].
  - rewrite (load64_bytes_at _ _ _ B5), u64_small by (unfold INT_MAX in *; lia). f_equal. lia.
Qed.

Lemma keyword_packs helper w v c :
  packs helper v c →
  ∀ b off last, 0 ≤ off → off + (32 + size c) ≤ zlen b → zlen b ≤ INT_MAX →
  ∃ b', compress_keyword (call_compress_helper helper) (Keyword w v) last
        {| out := Some b; out_length := off |} = Ret {| out := Some b'; out_length := off + (32 + size c) |} ∧
    only off (off + (32 + size c)) b b' ∧
    (load32 b' off = Ret (keyword_value w) ∧ child (placed Relative b') Relative b' (off + 8) (off + 32) c) ∧
    load64 b' (off + 32 - 16) = Ret (if last : bool then 0 else off + (32 + size c) - (off + 32 - 16)).
Proof.
  intros Hc b off last Ho Hb Hm. size_pos. unfold compress_keyword; cbn [out_length].
  destruct (poke_only off (le32 (keyword_value w)) b off) as (b1 & E1 & F1 & B1); [lia|rewrite zlen_le32; lia|].
  rewrite zlen_le32 in F1. pose proof (only_zlen _ _ _ _ F1).
  destruct (poke_only (off + 16) (le64 0 ++ le64 0) b1 off) as (b2 & E2 & F2 & B2); [lia|change (zlen (le64 0 ++ le64 0)) with 16; lia|].
  change (zlen (le64 0 ++ le64 0)) with 16 in F2. pose proof (only_zlen _ _ _ _ F2).
  rewrite E1. cbn [mbind outcome_bind]. rewrite E2. cbn [mbind outcome_bind].
  unfold sizeof_SqlOptionalKeyword. rewrite grow_ok by lia. cbn [mbind outcome_bind].
  destruct (call_packs helper v c b2 (off + 8) (off + 32) Hc) as (b3 & E3 & F3 & G3 & C3); [lia..|].
  rewrite E3. cbn [mbind outcome_bind out_length]. pose proof (only_zlen _ _ _ _ F3).
  assert (N3 : load64 b3 (off + 16) = Ret 0).
  { rewrite (load64_same _ _ _ _ _ G3) by lia. apply bytes_at_app in B2 as [B2 _]. by rewrite (load64_bytes_at _ _ _ B2). }
  assert (T3 : load32 b3 off = Ret (keyword_value w)).
  { erewrite (load32_same off (off + 4) b2), (load32_same off (off + 4) b1);
      [|eapply only_same; [exact F2|lia]|lia|eapply only_same; [exact F3|lia]|lia].
    by rewrite (load32_bytes_at _ _ _ B1), keyword_u32. }
  assert (O3 : only off (off + (32 + size c)) b b3).
  { inside F1. inside F2. last_inside F3. }
  replace (off + 32 - 16) with (off + 16) by lia.
  destruct last; [exists b3; split_and!; try done; by rewrite <- !Z.add_assoc|].
  destruct (poke_only (off + 16) (le64 (off + 32 + size c - (off + 16))) b3 (off + 32 + size c))
    as (b4 & E4 & F4 & B4); [lia|rewrite zlen_le64; lia|]. rewrite zlen_le64 in F4.
  exists b4. rewrite E4. split_and!.
  - do 2 f_equal. lia.
  - inside O3. last_inside F4.
  - erewrite (load32_same off (off + 4) b3); [done|eapply only_same; [exact F4|lia]|lia].
  - eapply child_apart; [exact F4|lia|lia|done].
  - rewrite (load64_bytes_at _ _ _ B4), u64_small by (unfold INT_MAX in *; lia). f_equal. lia.
Qed.

(** ** The helper *)
Lemma payload_packs fuel m rings stmt type payload n done c :
  payload_null stmt = false → statement_type stmt = Ret type → 0 ≤ type < 2 ^ 32 →
  compress_payload m rings (call_compress_helper (compress_statement_helper m rings fuel)) stmt = payload →
  packs_payload payload n done → 0 ≤ n → size c = 32 + n → is_null c = false →
  (∀ b i, load32 b i = Ret type ∧ load64 b (i + 24) = Ret (ptr_value Relative (i + 24) (i + 32)) →
    done b (i + 32) → placed Relative b i c) →
  packs (compress_statement_helper m rings (S fuel)) stmt c.
Proof.
  intros Hv Ht Hty <- Hp Hn Hs Hnull Hpl b off Ho Hb Hm. cbn [compress_statement_helper].
  rewrite Hv, Ht. cbn [mbind outcome_bind out_length].
  destruct (head_packs b off type) as (b1 & E1 & F1 & T1 & V1); [lia..|].
  rewrite E1. cbn [mbind outcome_bind]. pose proof (only_zlen _ _ _ _ F1).
  destruct (Hp b1 (off + 32)) as (b2 & E2 & F2 & D2); [lia..|].
  rewrite E2. cbn [mbind outcome_bind]. rewrite Hnull. exists b2. split_and!.
  - do 3 f_equal. lia.
  - inside F1. last_inside F2.
  - assert (Hh : same off (off + 32) b1 b2) by (eapply only_same; [exact F2|lia]).
    apply Hpl; [|done]. rewrite (load32_same _ _ _ _ _ Hh), (load64_same _ _ _ _ _ Hh) by lia.
    split; [done|]. rewrite V1. cbn. f_equal. lia.
Qed.

Section helper.
Context (m : values) (rings : gmap ptr (list SqlColumn)).
Abbreviation helper := (compress_statement_helper m rings).
Abbreviation contents := (content_of m rings).

Lemma value_helper fuel p v c :
  (∀ stmt c, contents fuel stmt = Some c → packs (helper fuel) stmt c) → payload_null (value_STATEMENT p v) = false →
  contents (S fuel) (value_STATEMENT p v) = Some c → packs (helper (S fuel)) (value_STATEMENT p v) c.
Proof.
  intros IH Hv Hc. cbn [content_of] in Hc. rewrite Hv in Hc.
  destruct (m !! p) as [value|] eqn:Em; cbn [mbind option_bind] in Hc; [|done].
  assert (Hval : value_at m p = Ret value) by (unfold value_at; by rewrite Em).
  destruct (decide (sv_type value = CALCULATED_VALUE)) as [Et|Et].
  - rewrite Et in Hc. destruct (contents fuel v) as [c'|] eqn:Ec; cbn in Hc; [|done]. injection Hc as <-.
    pose proof (IH _ _ Ec) as Hp. pose proof (size_nonneg c').
    eapply (payload_packs _ _ _ _ 4 _ (24 + size c') (λ b i, load32 b i = Ret (value_type_value CALCULATED_VALUE) ∧
      load32 b (i + 4) = Ret (value_type_value (sv_coerced_type value)) ∧
      load32 b (i + 8) = Ret (data_type_value (sv_data_type value)) ∧
      child (placed Relative b) Relative b (i + 16) (i + 24) c')); [done..| |lia|cbn; lia|done|].
    + intros b off Ho Hb Hm. cbn [compress_payload]. rewrite Hval. cbn [mbind outcome_bind out_length].
      destruct (value_packs value b off)
        as (b1 & E1 & F1 & T1 & K1 & D1); [lia..|]. pose proof (only_zlen _ _ _ _ F1).
      rewrite E1. cbn [mbind outcome_bind]. rewrite Et in T1 |- *.
      destruct (call_packs (helper fuel) v c' b1 (off + 16) (off + 24) Hp) as (b2 & E2 & F2 & G2 & C2); [lia..|].
      exists b2. rewrite E2. assert (Hs : same off (off + 16) b1 b2) by (eapply only_same; [exact F2|lia]).
      split_and!; [do 2 f_equal; lia|inside F1; last_inside F2| | | |done]; by rewrite (load32_same _ _ _ _ _ Hs) by lia.
    + intros b i Hh (T & K & D & C). cbn [placed]. replace (i + 36) with (i + 32 + 4) by lia.
      replace (i + 40) with (i + 32 + 8) by lia. replace (i + 48) with (i + 32 + 16) by lia.
      replace (i + 56) with (i + 32 + 24) by lia. done.
  - assert (sv_type value ≠ COERCE_TYPE ∧ no_nul (sv_literal value) ∧
      c = CText (sv_type value) (sv_coerced_type value) (sv_data_type value) (sv_literal value)) as (Ek & Hnul & ->).
    { destruct (sv_type value); try done; case_decide; try done; injection Hc as <-; done. }
    set (text := sv_literal value) in *. pose proof (zlen_nonneg text).
    eapply (payload_packs _ _ _ _ 4 _ (25 + zlen text) (λ b i, load32 b i = Ret (value_type_value (sv_type value)) ∧
      load32 b (i + 4) = Ret (value_type_value (sv_coerced_type value)) ∧
      load32 b (i + 8) = Ret (data_type_value (sv_data_type value)) ∧ load64 b (i + 16) = Ret 8 ∧
      bytes_at b (i + 24) (text ++ [nul]))); [done..| |lia|cbn; lia|done|].
    + intros b off Ho Hb Hm. cbn [compress_payload]. rewrite Hval. cbn [mbind outcome_bind out_length].
      destruct (value_packs value b off)
        as (b1 & E1 & F1 & T1 & K1 & D1); [lia..|]. pose proof (only_zlen _ _ _ _ F1).
      rewrite E1. cbn [mbind outcome_bind].
      destruct (text_packs text b1 (off + 24)) as (b2 & E2 & F2 & P2 & B2); [lia..|].
      exists b2. assert (Hs : same off (off + 16) b1 b2) by (eapply only_same; [exact F2|lia]).
      replace (off + 24 - 8) with (off + 16) in * by lia.
      split_and!; [|inside F1; last_inside F2| | | |done|done]; try by rewrite (load32_same _ _ _ _ _ Hs) by lia.
      transitivity (Ret {| out := Some b2; out_length := off + 24 + zlen text + 1 |}); [|do 2 f_equal; lia].
      rewrite <- E2. fold text. by destruct (sv_type value).
    + intros b i Hh (T & K & D & P & B). cbn [placed]. replace (i + 36) with (i + 32 + 4) by lia.
      replace (i + 40) with (i + 32 + 8) by lia. replace (i + 48) with (i + 32 + 16) by lia.
      replace (i + 56) with (i + 32 + 24) by lia. split_and!; try done; try apply Hh. rewrite P. cbn. f_equal. lia.
Qed.

Lemma table_helper fuel p sn ss columns sd c :
  (∀ stmt c, contents fuel stmt = Some c → packs (helper fuel) stmt c) →
  payload_null (table_STATEMENT p sn ss columns sd) = false →
  contents (S fuel) (table_STATEMENT p sn ss columns sd) = Some c →
  packs (helper (S fuel)) (table_STATEMENT p sn ss columns sd) c.
Proof.
  intros IH Hv Hc. cbn [content_of] in Hc. rewrite Hv in Hc.
  apply bind_Some in Hc as (n & En & Hc). apply bind_Some in Hc as (s & Es & Hc).
  apply bind_Some in Hc as (k & Ek & Hc). apply bind_Some in Hc as (d & Ed & Hc). injection Hc as <-.
  destruct (columns_statement rings columns) as [sk| | |] eqn:Ecol; try done.
  eapply (payload_packs _ _ _ _ 0); [done..|reflexivity| | | |done|].
  - intros b off Ho Hb Hm. cbn [compress_payload]. rewrite Ecol. cbn [mbind outcome_bind].
    apply (table_packs (helper fuel) n s k d sn ss sk sd); auto.
  - slia.
  - cbn. lia.
  - intros b i Hh (C1 & C2 & C3 & C4). cbn [placed]. cbn zeta in *.
    replace (i + 80) with (i + 32 + 48) by lia. replace (i + 40) with (i + 32 + 8) by lia.
    replace (i + 48) with (i + 32 + 16) by lia. replace (i + 56) with (i + 32 + 24) by lia. destruct Hh. split_and!; done.
Qed.

Lemma columns_helper fuel ring c :
  (∀ stmt c, contents fuel stmt = Some c → packs (helper fuel) stmt c) →
  payload_null (column_STATEMENT ring) = false →
  contents (S fuel) (column_STATEMENT ring) = Some c → packs (helper (S fuel)) (column_STATEMENT ring) c.
Proof.
  intros IH Hv Hc. cbn [content_of] in Hc. rewrite Hv in Hc.
  apply fmap_Some in Hc as (cells & Hcells & ->). apply mapM_Some in Hcells.
  assert (Hsz : ∀ y : content * SqlDataType * content, 48 ≤ (let '(n, _, k) := y in 48 + size n + size k))
    by (intros [[n t] k]; slia).
  pose proof (cells_size_nonneg 48 _ ltac:(lia) Hsz cells).
  assert (Hne : cells ≠ []) by (intros ->; apply Forall2_nil_inv_r in Hcells as ->; done).
  eapply (payload_packs _ _ _ _ 9 _ (ring_size (λ '(n, _, k), 48 + size n + size k) cells)); [done..|reflexivity| |lia|done|done|].
  - intros b off Ho Hb Hm. cbn [compress_payload].
    eapply (ring_loop_packs _ 48 (λ b p '(n, t, k), load32 b (p + 8) = Ret (data_type_value t) ∧
        child (placed Relative b) Relative b p (p + 48) n ∧
        child (placed Relative b) Relative b (p + 24) (p + 48 + size n) k) _ ring cells b off off);
      [lia|done| | |done|done|done].
    + intros b0 b1 p [[n t] k] Hs (T & N & K). rewrite (load32_same _ _ _ _ _ Hs) by slia.
      split_and!; [done|eapply child_same_placed; [exact Hs|slia|slia|done]..].
    + eapply Forall2_impl; [|exact Hcells]. intros [q name t table keywords] [[n t'] k] Hx.
      apply bind_Some in Hx as (n' & En & Hx). apply bind_Some in Hx as (k' & Ek & Hx). injection Hx as <- <- <-.
      intros b0 off0 last ???. apply column_packs; auto.
  - intros b i Hh Hr. cbn [placed]. done.
Qed.

Lemma keywords_helper fuel ring c :
  (∀ stmt c, contents fuel stmt = Some c → packs (helper fuel) stmt c) →
  payload_null (keyword_STATEMENT ring) = false →
  contents (S fuel) (keyword_STATEMENT ring) = Some c → packs (helper (S fuel)) (keyword_STATEMENT ring) c.
Proof.
  intros IH Hv Hc. cbn [content_of] in Hc. rewrite Hv in Hc.
  apply fmap_Some in Hc as (cells & Hcells & ->). apply mapM_Some in Hcells.
  assert (Hsz : ∀ y : OptionalKeyword * content, 32 ≤ (let '(_, v) := y in 32 + size v)) by (intros [w v]; slia).
  pose proof (cells_size_nonneg 32 _ ltac:(lia) Hsz cells).
  assert (Hne : cells ≠ []) by (intros ->; apply Forall2_nil_inv_r in Hcells as ->; done).
  eapply (payload_packs _ _ _ _ 14 _ (ring_size (λ '(_, v), 32 + size v) cells)); [done..|reflexivity| |lia|done|done|].
  - intros b off Ho Hb Hm. cbn [compress_payload].
    eapply (ring_loop_packs _ 32 (λ b p '(w, v), load32 b p = Ret (keyword_value w) ∧
        child (placed Relative b) Relative b (p + 8) (p + 32) v) _ ring cells b off off);
      [lia|done| | |done|done|done].
    + intros b0 b1 p [w v] Hs (T & V). rewrite (load32_same _ _ _ _ _ Hs) by slia.
      split; [done|eapply child_same_placed; [exact Hs|slia|slia|done]].
    + eapply Forall2_impl; [|exact Hcells]. intros [w v] [w' c'] Hx.
      apply bind_Some in Hx as (c0 & Ec & Hx). injection Hx as <- <-.
      intros b0 off0 last ???. apply keyword_packs; auto.
  - intros b i Hh Hr. cbn [placed]. done.
Qed.

Lemma helper_packs fuel stmt c : contents fuel stmt = Some c → packs (helper fuel) stmt c.
Proof.
  revert stmt c. induction fuel as [|fuel IH]; intros stmt c Hc; [done|].
  destruct (payload_null stmt) eqn:Hv.
  - cbn [content_of] in Hc. rewrite Hv in Hc. injection Hc as <-. intros b off Ho Hb Hm. exists b.
    cbn [compress_statement_helper size is_null placed]. rewrite Hv, Z.add_0_r.
    split_and!; [done|apply only_refl|done].
  - destruct stmt; try (cbn [content_of] in Hc; rewrite Hv in Hc; done).
    + by apply table_helper.
    + by apply value_helper.
    + by apply columns_helper.
    + by apply keywords_helper.
Qed.

(** ** The counting pass *)
Definition counts (helper : SqlStatement → packer → outcome (option Z * packer)) (stmt : SqlStatement) (n : Z) : Prop :=
  ∀ off, 0 ≤ off → off + n ≤ INT_MAX →
  ∃ r, helper stmt {| out := None; out_length := off |} = Ret (r, {| out := None; out_length := off + n |}).
Lemma call_counts h stmt n field off : counts h stmt n → 0 ≤ off → off + n ≤ INT_MAX →
  call_compress_helper h stmt field {| out := None; out_length := off |} = Ret {| out := None; out_length := off + n |}.
Proof. intros Hc Ho Hm. destruct (Hc off Ho Hm) as [r E]. unfold call_compress_helper. by rewrite E. Qed.
Lemma ring_loop_counts {A B} (f : A → bool → packer → outcome packer) (cell_size : B → Z) xs ys off :
  (∀ y, 0 ≤ cell_size y) →
  Forall2 (λ x y, ∀ off last, 0 ≤ off → off + cell_size y ≤ INT_MAX →
    f x last {| out := None; out_length := off |} = Ret {| out := None; out_length := off + cell_size y |}) xs ys →
  0 ≤ off → off + ring_size cell_size ys ≤ INT_MAX →
  ring_loop f xs {| out := None; out_length := off |} = Ret {| out := None; out_length := off + ring_size cell_size ys |}.
Proof.
  intros Hs HF. revert off. induction HF as [|x y xs ys Hx HF IH]; intros off Ho Hm; cbn [ring_loop ring_size] in *.
  { by rewrite Z.add_0_r. }
  pose proof (Hs y). assert (0 ≤ ring_size cell_size ys).
  { apply ring_size_nonneg, list.Forall_forall. auto. }
  rewrite Hx by lia. cbn [mbind outcome_bind]. rewrite IH by lia. by rewrite Z.add_assoc.
Qed.

Lemma poke_none i bs n : poke i bs {| out := None; out_length := n |} = Ret {| out := None; out_length := n |}.
Proof. done. Qed.
(** Run a count: stores do nothing, lengths add up. *)
Ltac count :=
  repeat first [ rewrite poke_none | rewrite grow_ok by slia | progress cbn [mbind outcome_bind out_length] ].

Lemma value_counts fuel p v c :
  (∀ stmt c, contents fuel stmt = Some c → counts (helper fuel) stmt (size c)) →
  payload_null (value_STATEMENT p v) = false → contents (S fuel) (value_STATEMENT p v) = Some c →
  counts (helper (S fuel)) (value_STATEMENT p v) (size c).
Proof.
  intros IH Hv Hc off Ho Hm. cbn [content_of compress_statement_helper] in *. rewrite Hv in *.
  destruct (m !! p) as [value|] eqn:Em; cbn [mbind option_bind] in Hc; [|done].
  cbn [statement_type mbind outcome_bind]. unfold compress_head, sizeof_SqlStatement. cbn [compress_payload].
  unfold value_at. rewrite Em. unfold compress_value, sizeof_SqlValue.
  destruct (decide (sv_type value = CALCULATED_VALUE)) as [Et|Et].
  - rewrite Et in *. apply bind_Some in Hc as (c' & Ec & Hc). injection Hc as <-. count.
    rewrite (call_counts _ _ (size c')) by (first [by apply IH|slia]). rewrite Et. eexists.
    cbn [mbind outcome_bind]. do 3 f_equal. slia.
  - assert (sv_type value ≠ COERCE_TYPE ∧ c = CText (sv_type value) (sv_coerced_type value) (sv_data_type value) (sv_literal value))
      as [Ek ->] by (destruct (sv_type value); try done; case_decide; try done; injection Hc as <-; done).
    count. exists (Some off).
    transitivity (st ← compress_text (sv_literal value) (off + 32 + 16) {| out := None; out_length := off + 32 + 24 |};
                  Ret (Some off, st)); [by destruct (sv_type value)|].
    unfold compress_text. count. do 3 f_equal. slia.
Qed.

Lemma helper_counts fuel stmt c : contents fuel stmt = Some c → counts (helper fuel) stmt (size c).
Proof.
  revert stmt c. induction fuel as [|fuel IH]; intros stmt c Hc; [done|].
  destruct (payload_null stmt) eqn:Hv.
  { cbn [content_of] in Hc. rewrite Hv in Hc. injection Hc as <-. intros off Ho Hm.
    cbn [compress_statement_helper size]. rewrite Hv, Z.add_0_r. by eexists. }
  destruct stmt; try (cbn [content_of] in Hc; rewrite Hv in Hc; done); [|by apply value_counts| |];
    intros off Ho Hm; cbn [content_of compress_statement_helper] in *; rewrite Hv in *;
    cbn [statement_type mbind outcome_bind]; unfold compress_head, sizeof_SqlStatement; cbn [compress_payload].
  - apply bind_Some in Hc as (n & En & Hc). apply bind_Some in Hc as (s & Es & Hc).
    apply bind_Some in Hc as (k & Ek & Hc). apply bind_Some in Hc as (d & Ed & Hc). injection Hc as <-.
    destruct (columns_statement rings columns) as [sk| | |] eqn:Ecol; try done. unfold sizeof_SqlTable. count.
    rewrite (call_counts _ _ (size n)) by (first [by apply IH|slia]). cbn [mbind outcome_bind].
    rewrite (call_counts _ _ (size s)) by (first [by apply IH|slia]). cbn [mbind outcome_bind].
    rewrite (call_counts _ _ (size k)) by (first [by apply IH|slia]). cbn [mbind outcome_bind].
    rewrite (call_counts _ _ (size d)) by (first [by apply IH|slia]). cbn [mbind outcome_bind].
    eexists. do 3 f_equal. slia.
  - apply fmap_Some in Hc as (cells & Hcells & ->). apply mapM_Some in Hcells. cbn [size] in *.
    pose proof (cells_size_nonneg 48 (λ '(n, _, k), 48 + size n + size k) ltac:(lia) ltac:(intros [[n t] k]; slia) cells).
    count. erewrite (ring_loop_counts _ (λ '(n, _, k), 48 + size n + size k) _ cells);
      [eexists; cbn [mbind outcome_bind]; do 3 f_equal; lia|intros [[n t] k]; slia| |lia|lia].
    eapply Forall2_impl; [|exact Hcells]. intros [q name t table keywords] [[n t'] k] Hx.
    apply bind_Some in Hx as (n' & En & Hx). apply bind_Some in Hx as (k' & Ek & Hx). injection Hx as <- <- <-.
    intros off0 last ??. unfold compress_column, sizeof_SqlColumn. count.
    rewrite (call_counts _ _ (size n')) by (first [by apply IH|slia]). cbn [mbind outcome_bind].
    rewrite (call_counts _ _ (size k')) by (first [by apply IH|slia]). cbn [mbind outcome_bind].
    destruct last; count; do 2 f_equal; lia.
  - apply fmap_Some in Hc as (cells & Hcells & ->). apply mapM_Some in Hcells. cbn [size] in *.
    pose proof (cells_size_nonneg 32 (λ '(_, v), 32 + size v) ltac:(lia) ltac:(intros [w v]; slia) cells).
    count. erewrite (ring_loop_counts _ (λ '(_, v), 32 + size v) _ cells);
      [eexists; cbn [mbind outcome_bind]; do 3 f_equal; lia|intros [w v]; slia| |lia|lia].
    eapply Forall2_impl; [|exact Hcells]. intros [w v] [w' c'] Hx.
    apply bind_Some in Hx as (c0 & Ec & Hx). injection Hx as <- <-.
    intros off0 last ??. unfold compress_keyword, sizeof_SqlOptionalKeyword. count.
    rewrite (call_counts _ _ (size c0)) by (first [by apply IH|slia]). cbn [mbind outcome_bind].
    destruct last; count; do 2 f_equal; lia.
Qed.

(** Both passes together: the block that is allocated is exactly filled. *)
Lemma compress_placed fuel mem stmt c : contents fuel stmt = Some c → is_null c = false → size c ≤ INT_MAX →
  ∃ b, compress_statement m rings fuel mem stmt = Ret (b, size c) ∧ zlen b = size c ∧ placed Relative b 0 c.
Proof.
  intros Hc Hn Hm. pose proof (size_nonneg c). unfold compress_statement.
  destruct (helper_counts _ _ _ Hc 0) as [r E]; [lia|lia|]. rewrite E. cbn [mbind outcome_bind out_length].
  destruct (helper_packs _ _ _ Hc (malloc mem (0 + size c)) 0) as (b & E2 & F & P);
    [lia|rewrite zlen_malloc; lia|rewrite zlen_malloc; lia|].
  rewrite E2. cbn [mbind outcome_bind out]. exists b. rewrite (only_zlen _ _ _ _ F), zlen_malloc by lia. done.
Qed.
End helper.
