(* ===== verification/DecompressTheorems.v ===== *)
(** * Loading a stored table

    [decompress_statement] turns the relative pointers of a block into addresses and
    closes the rings; together with [CompressTheorems] a statement that is stored and
    loaded is the statement. *)
From stdpp Require Import gmap strings.
From S2P Require Import Prelude CMem LogicalPlan SqlStatement Compress CompressTheorems.

Section decompress.
Context (base block_length : Z) (Hbase : 0 < base).
Abbreviation Abs := (Absolute base).

Lemma load_ptr_at b i : load_ptr base b (base + i) = load64 b i.
Proof. unfold load_ptr. f_equal. lia. Qed.
Lemma load_enum_at b i : load_enum base b (base + i) = load32 b i.
Proof. unfold load_enum. f_equal. lia. Qed.
Lemma store_ptr_only b i p : 0 ≤ i → i + 8 ≤ zlen b → 0 ≤ p < 2 ^ 64 →
  ∃ b', store_ptr base b (base + i) p = Ret b' ∧ only i (i + 8) b b' ∧ load64 b' i = Ret p.
Proof.
  intros Hi Hb Hp. unfold store_ptr. replace (base + i - base) with i by lia.
  destruct (store_bytes_only b i (le64 p)) as (b' & E & Ho & Hat); [done|by rewrite zlen_le64|].
  rewrite zlen_le64 in Ho. exists b'. by rewrite (load64_bytes_at _ _ _ Hat), u64_small.
Qed.
Lemma R2A_at f t : 0 ≤ base + t < 2 ^ 64 → R2A (base + f) (t - f) = base + t.
Proof. intros H. unfold R2A. rewrite u64_small; lia. Qed.

(** What one call of the helper does to the part of the block that holds a statement. *)
Definition unpacks (helper : Z → list byte → outcome (list byte)) (c : content) : Prop :=
  ∀ b i, 0 ≤ i → i + size c ≤ zlen b → base + zlen b < 2 ^ 64 → zlen b ≤ block_length → is_null c = false →
  placed Relative b i c →
  ∃ b', helper (base + i) b = Ret b' ∧ only i (i + size c) b b' ∧ placed Abs b' i c.

Lemma call_unpacks helper c b f t :
  unpacks helper c → 0 ≤ f → f + 8 ≤ t → t + size c ≤ zlen b → base + zlen b < 2 ^ 64 → zlen b ≤ block_length →
  child (placed Relative b) Relative b f t c →
  ∃ b', call_decompress_helper base helper (base + f) b = Ret b' ∧ only f (t + size c) b b' ∧
    same (f + 8) t b b' ∧ child (placed Abs b') Abs b' f t c.
Proof.
  intros Hu Hf Ht Hb Hw Hl [Hp Hc]. pose proof (size_nonneg c). unfold call_decompress_helper.
  rewrite load_ptr_at, Hp. cbn [mbind outcome_bind].
  destruct (is_null c) eqn:En.
  { exists b. by destruct c. }
  pose proof (size_pos_nonnull c En). cbn [ptr_value]. destruct (Z.eqb_spec (t - f) 0); [lia|].
  rewrite R2A_at by lia.
  destruct (store_ptr_only b f (base + t)) as (b1 & E1 & F1 & L1); [lia..|].
  rewrite E1. cbn [mbind outcome_bind]. pose proof (only_zlen _ _ _ _ F1).
  destruct (Hu b1 t) as (b2 & E2 & F2 & P2); [lia..|done| |].
  { eapply placed_same; [eapply (only_same _ _ _ _ t (t + size c)); [exact F1|lia]|lia|done]. }
  exists b2. split_and!; [done|inside F1; last_inside F2| |].
  - eapply same_trans; eapply only_same; [exact F1|lia|exact F2|lia].
  - split; [|done]. rewrite En.
    erewrite (load64_same f (f + 8) b1); [done|eapply only_same; [exact F2|lia]|lia].
Qed.

(** ** Rings *)
Section ring.
Context {A : Type} (hdr : Z) (cell : pointers → list byte → Z → A → Prop) (cell_size : A → Z).
Context (Hhdr : 16 ≤ hdr) (Hsize : ∀ x, hdr ≤ cell_size x).
(** A cell does not depend on its own links. *)
Context (Hcell : ∀ P b b' p x, same p (p + hdr - 16) b b' → same (p + hdr) (p + cell_size x) b b' →
  cell P b p x → cell P b' p x).
Context (members : Z → list byte → outcome (list byte)).
Definition unpacks_cell (x : A) : Prop :=
  ∀ b p, 0 ≤ p → p + cell_size x ≤ zlen b → base + zlen b < 2 ^ 64 → zlen b ≤ block_length → cell Relative b p x →
  ∃ b', members (base + p) b = Ret b' ∧ only p (p + cell_size x) b b' ∧ same (p + hdr - 16) (p + hdr) b b' ∧
    cell Abs b' p x.
Abbreviation ring_at P b := (ring_placed hdr (cell P b) cell_size P b).
Abbreviation link fuel start p := (link_ring base fuel members (hdr - 16) (hdr - 8) (base + start) (base + p)).

(** One turn: the cell at [p], and the links between it and the cell at [n]. *)
Lemma link_turn x b p n r fuel start :
  unpacks_cell x → 0 ≤ p → p + cell_size x ≤ zlen b → base + zlen b < 2 ^ 64 → zlen b ≤ block_length →
  0 ≤ n → n + hdr ≤ zlen b → (n = p ∨ n + hdr ≤ p ∨ p + cell_size x ≤ n) → cell Relative b p x →
  load64 b (p + hdr - 16) = Ret r → (if r =? 0 then base + start else R2A (base + (p + hdr - 16)) r) = base + n →
  ∃ b', link (S fuel) start p b = (if n =? start then Ret b' else link fuel start n b') ∧
    only (Z.min p (n + hdr - 8)) (Z.max (p + cell_size x) (n + hdr)) b b' ∧ cell Abs b' p x ∧ load64 b' (p + hdr - 16) = Ret (base + n) ∧
    load64 b' (n + hdr - 8) = Ret (base + p) ∧
    (∀ l h, h ≤ p ∨ p + cell_size x ≤ l → h ≤ n + hdr - 8 ∨ n + hdr ≤ l → same l h b b') ∧
    (n ≠ p → same (p + hdr - 8) (p + hdr) b b').
Proof.
  intros Hx Hp Hb Hw Hl Hn Hnb Hd Hc Hr Hnext. pose proof (Hsize x).
  destruct (Hx b p) as (b1 & E1 & F1 & S1 & C1); [done..|]. pose proof (only_zlen _ _ _ _ F1).
  destruct (store_ptr_only b1 (p + hdr - 16) (base + n)) as (b2 & E2 & F2 & L2); [lia..|]. pose proof (only_zlen _ _ _ _ F2).
  destruct (store_ptr_only b2 (n + hdr - 8) (base + p)) as (b3 & E3 & F3 & L3); [lia..|]. pose proof (only_zlen _ _ _ _ F3).
  exists b3. split_and!.
  - cbn [link_ring]. rewrite E1. cbn [mbind outcome_bind].
    replace (base + p + (hdr - 16)) with (base + (p + hdr - 16)) by lia.
    rewrite load_ptr_at, (load64_same _ _ _ _ _ S1), Hr by lia. cbn [mbind outcome_bind]. rewrite Hnext, E2.
    cbn [mbind outcome_bind]. replace (base + n + (hdr - 8)) with (base + (n + hdr - 8)) by lia. rewrite E3.
    cbn [mbind outcome_bind]. destruct (Z.eqb_spec (base + n) (base + start)), (Z.eqb_spec n start); try lia; done.
  - inside F1. inside F2. last_inside F3.
  - eapply Hcell; [| |eapply Hcell; [| |exact C1]]; eapply only_same;
      first [exact F2|exact F3|idtac]; lia.
  - erewrite (load64_same (p + hdr - 16) (p + hdr - 8) b2); [done|eapply only_same; [exact F3|lia]|lia].
  - done.
  - intros l h ??. eapply same_trans; [eapply only_same; [exact F1|lia]|].
    eapply same_trans; eapply only_same; [exact F2|lia|exact F3|lia].
  - intros ?. eapply same_trans; [eapply same_sub; [exact S1|lia|lia]|].
    eapply same_trans; eapply only_same; [exact F2|lia|exact F3|lia].
Qed.

(** The [prev] of its first cell is not looked at in a stored ring. *)
Lemma stored_ring_kept l : ∀ b b' start p, same p (p + hdr - 8) b b' → same (p + hdr) (p + ring_size cell_size l) b b' →
  ring_at Relative b start p l → ring_at Relative b' start p l.
Proof.
  induction l as [|x l IH]; intros b b' start p H1 H2 Hr; [done|]. cbn [ring_placed ring_size] in *.
  destruct Hr as (Hc & Hn & Hr). pose proof (Hsize x). pose proof (cells_size_nonneg hdr cell_size Hhdr Hsize l).
  split_and!.
  - eapply Hcell; [eapply same_sub; [exact H1|lia|lia]|eapply same_sub; [exact H2|lia|lia]|exact Hc].
  - by rewrite (load64_same _ _ _ _ _ H1) by lia.
  - destruct l as [|y l]; [done|]. cbn [ring_size] in *. pose proof (Hsize y).
    pose proof (cells_size_nonneg hdr cell_size Hhdr Hsize l).
    apply (IH b); [eapply same_sub; [exact H2|lia|lia]..|done].
Qed.

(** The cells after the first one. *)
Lemma link_rest l : ∀ b p fuel start, l ≠ [] → Forall unpacks_cell l → (length l ≤ fuel)%nat →
  0 ≤ start → start + hdr ≤ p → p + ring_size cell_size l ≤ zlen b → base + zlen b < 2 ^ 64 → zlen b ≤ block_length →
  ring_at Relative b start p l →
  ∃ b', link fuel start p b = Ret b' ∧ only start (p + ring_size cell_size l) b b' ∧
    same start (start + hdr - 8) b b' ∧ same (start + hdr) p b b' ∧ same (p + hdr - 8) (p + hdr) b b' ∧
    ring_at Abs b' start p l.
Proof.
  induction l as [|x l IH]; intros b p fuel start Hne Hx Hfuel Hs Hp Hb Hw Hl Hr; [done|]. clear Hne.
  apply list.Forall_cons in Hx as [Hx Hxs]. destruct fuel as [|fuel]; [cbn in Hfuel; lia|].
  cbn [ring_placed ring_size length] in *. destruct Hr as (Hc & Hn & Hr).
  pose proof (Hsize x). pose proof (cells_size_nonneg hdr cell_size Hhdr Hsize l). destruct l as [|y l].
  - cbn [ring_size] in *.
    destruct (link_turn x b p start 0 fuel start) as (b1 & E & F & C & N & V & S & S'); [done|lia..|done|done|done|].
    rewrite Z.eqb_refl in E. exists b1. split_and!; try done; try (apply S; lia); try (apply S'; lia).
    last_inside F.
  - pose proof (Hsize y). pose proof (cells_size_nonneg hdr cell_size Hhdr Hsize l). cbn [ring_size] in *.
    destruct (link_turn x b p (p + cell_size x) (p + cell_size x - (p + hdr - 16)) fuel start)
      as (b1 & E & F & C & N & V & S & S'); [done|lia..|done|done| |].
    { destruct (Z.eqb_spec (p + cell_size x - (p + hdr - 16)) 0); [lia|]. apply R2A_at. lia. }
    destruct (Z.eqb_spec (p + cell_size x) start); [lia|]. pose proof (only_zlen _ _ _ _ F).
    destruct (IH b1 (p + cell_size x) fuel start) as (b2 & E2 & F2 & S2 & T2 & V2 & R2); [done|done|cbn [length] in *; lia|lia|lia|lia|lia|lia| |].
    { eapply stored_ring_kept; [apply S; lia|cbn [ring_size]; apply S; lia|done]. }
    exists b2. rewrite E, E2. split_and!; try done.
    + inside F. last_inside F2.
    + eapply same_trans; [apply S; lia|done].
    + eapply same_trans; [apply S; lia|]. eapply same_sub; [exact T2|lia|lia].
    + eapply same_trans; [apply S'; lia|]. eapply same_sub; [exact T2|lia|lia].
    + eapply Hcell; [| |exact C]; eapply same_sub; first [exact T2|lia].
    + rewrite (load64_same _ _ _ _ _ T2) by lia. done.
    + rewrite (load64_same _ _ _ _ _ V2) by lia. done.
Qed.

Lemma link_whole l b fuel start : l ≠ [] → Forall unpacks_cell l → (length l ≤ fuel)%nat →
  0 ≤ start → start + ring_size cell_size l ≤ zlen b → base + zlen b < 2 ^ 64 → zlen b ≤ block_length →
  ring_at Relative b start start l →
  ∃ b', link fuel start start b = Ret b' ∧ only start (start + ring_size cell_size l) b b' ∧ ring_at Abs b' start start l.
Proof.
  intros Hne Hx Hfuel Hs Hb Hw Hl Hr. destruct l as [|x l]; [done|]. clear Hne.
  apply list.Forall_cons in Hx as [Hx Hxs]. destruct fuel as [|fuel]; [cbn in Hfuel; lia|].
  cbn [ring_placed ring_size length] in *. destruct Hr as (Hc & Hn & Hr).
  pose proof (Hsize x). pose proof (cells_size_nonneg hdr cell_size Hhdr Hsize l). destruct l as [|y l].
  - cbn [ring_size] in *.
    destruct (link_turn x b start start 0 fuel start) as (b1 & E & F & C & N & V & S & S'); [done|lia..|done|done|done|].
    rewrite Z.eqb_refl in E. exists b1. split_and!; try done. last_inside F.
  - pose proof (Hsize y). pose proof (cells_size_nonneg hdr cell_size Hhdr Hsize l). cbn [ring_size] in *.
    destruct (link_turn x b start (start + cell_size x) (start + cell_size x - (start + hdr - 16)) fuel start)
      as (b1 & E & F & C & N & V & S & S'); [done|lia..|done|done| |].
    { destruct (Z.eqb_spec (start + cell_size x - (start + hdr - 16)) 0); [lia|]. apply R2A_at. lia. }
    destruct (Z.eqb_spec (start + cell_size x) start); [lia|]. pose proof (only_zlen _ _ _ _ F).
    destruct (link_rest (y :: l) b1 (start + cell_size x) fuel start) as (b2 & E2 & F2 & S2 & T2 & V2 & R2);
      [done|done|cbn [length] in *; lia|lia|lia|cbn [ring_size]; lia|lia|lia| |].
    { eapply stored_ring_kept; [apply S; lia|cbn [ring_size]; apply S; lia|done]. }
    cbn [ring_size] in *. exists b2. rewrite E, E2. split_and!; try done.
    + inside F. last_inside F2.
    + eapply Hcell; [eapply same_sub; [exact S2|lia|lia]|eapply same_sub; [exact T2|lia|lia]|exact C].
    + rewrite (load64_same _ _ _ _ _ S2) by lia. done.
    + rewrite (load64_same _ _ _ _ _ V2) by lia. done.
Qed.
End ring.

(** ** The helper *)
Abbreviation helper := (decompress_statement_helper base block_length).
Abbreviation call fuel := (call_decompress_helper base (helper fuel)).
Lemma head_unpacks fuel b i type : 0 ≤ i → i + 32 ≤ zlen b → base + zlen b < 2 ^ 64 → zlen b ≤ block_length →
  load32 b i = Ret type → load64 b (i + 24) = Ret (ptr_value Relative (i + 24) (i + 32)) →
  ∃ b', helper (S fuel) (base + i) b = decompress_payload base fuel (call fuel) type (base + (i + 32)) b' ∧
    only (i + 24) (i + 32) b b' ∧ load32 b' i = Ret type ∧ load64 b' (i + 24) = Ret (ptr_value Abs (i + 24) (i + 32)).
Proof.
  intros Hi Hb Hw Hl Ht Hv. cbn [ptr_value] in *.
  destruct (store_ptr_only b (i + 24) (base + (i + 32))) as (b1 & E1 & F1 & L1); [lia..|].
  assert (T1 : load32 b1 i = Ret type).
  { erewrite (load32_same i (i + 4) b); [done|eapply only_same; [exact F1|lia]|lia]. }
  exists b1. replace (i + 24 + 8) with (i + 32) in F1 by lia. split_and!; try done.
  cbn [decompress_statement_helper].
  destruct (Z.ltb_spec (base + i) (base + block_length)); [|lia]. cbn [c_assert mbind outcome_bind].
  destruct (Z.eqb_spec (base + i) null); [unfold null in *; lia|].
  replace (base + i + 24) with (base + (i + 24)) by lia. rewrite load_ptr_at, Hv. cbn [mbind outcome_bind].
  destruct (Z.eqb_spec (i + 32 - (i + 24)) 0); [lia|]. rewrite R2A_at by lia. rewrite E1. cbn [mbind outcome_bind].
  rewrite load_enum_at, T1. done.
Qed.

(** A call leaves alone the members that come later. *)
Lemma child_later P b b' field off n f t c :
  only field (off + n) b b' → same (field + 8) off b b' → field + 8 ≤ f → f + 8 ≤ off → off + n ≤ t →
  child (placed P b) P b f t c → child (placed P b') P b' f t c.
Proof.
  intros Ho Hs ???. eapply child_same; [exact Hs|lia|].
  eapply placed_same; [eapply (only_same _ _ _ _ t (t + size c)); [exact Ho|lia]|lia].
Qed.

Lemma table_unpacks fuel n s k d :
  unpacks (helper fuel) n → unpacks (helper fuel) s → unpacks (helper fuel) k → unpacks (helper fuel) d →
  unpacks (helper (S fuel)) (CTable n s k d).
Proof.
  intros Un Us Uk Ud b i Hi Hb Hw Hl _ Hp. cbn [placed] in Hp.
  destruct Hp as ([Ht Hv] & Cn & Cs & Ck & Cd). cbn [size] in Hb. size_pos.
  destruct (head_unpacks fuel b i 0) as (b0 & E0 & F0 & T0 & V0); [lia..|done|done|]. pose proof (only_zlen _ _ _ _ F0).
  rewrite E0. unfold decompress_payload. cbn [Z.eqb].
  destruct (call_unpacks (helper fuel) n b0 (i + 32) (i + 80)) as (b1 & E1 & F1 & G1 & C1);
    [done|lia..|eapply child_apart; [exact F0|lia|lia|done]|]. pose proof (only_zlen _ _ _ _ F1).
  rewrite E1. cbn [mbind outcome_bind].
  destruct (call_unpacks (helper fuel) s b1 (i + 40) (i + 80 + size n)) as (b2 & E2 & F2 & G2 & C2); [done|lia..| |].
  { eapply child_later; [exact F1|exact G1|lia..|]. eapply child_apart; [exact F0|lia|lia|done]. }
  replace (base + (i + 32) + 8) with (base + (i + 40)) by lia. rewrite E2. cbn [mbind outcome_bind].
  pose proof (only_zlen _ _ _ _ F2).
  destruct (call_unpacks (helper fuel) k b2 (i + 48) (i + 80 + size n + size s)) as (b3 & E3 & F3 & G3 & C3); [done|lia..| |].
  { eapply child_later; [exact F2|exact G2|lia..|]. eapply child_later; [exact F1|exact G1|lia..|].
    eapply child_apart; [exact F0|lia|lia|done]. }
  replace (base + (i + 32) + 16) with (base + (i + 48)) by lia. rewrite E3. cbn [mbind outcome_bind].
  pose proof (only_zlen _ _ _ _ F3).
  destruct (call_unpacks (helper fuel) d b3 (i + 56) (i + 80 + size n + size s + size k)) as (b4 & E4 & F4 & G4 & C4);
    [done|lia..| |].
  { eapply child_later; [exact F3|exact G3|lia..|]. eapply child_later; [exact F2|exact G2|lia..|].
    eapply child_later; [exact F1|exact G1|lia..|]. eapply child_apart; [exact F0|lia|lia|done]. }
  replace (base + (i + 32) + 24) with (base + (i + 56)) by lia. exists b4. rewrite E4.
  assert (Hs : same i (i + 32) b0 b4).
  { eapply same_trans; [eapply only_same; [exact F1|lia]|]. eapply same_trans; [eapply only_same; [exact F2|lia]|].
    eapply same_trans; eapply only_same; [exact F3|lia|exact F4|lia]. }
  cbn [placed size]. rewrite (load32_same _ _ _ _ _ Hs), (load64_same _ _ _ _ _ Hs) by lia. split_and!; try done.
  - inside F0. inside F1. inside F2. inside F3. last_inside F4.
  - eapply child_kept; [exact F4|exact G4|lia..|]. eapply child_kept; [exact F3|exact G3|lia..|].
    eapply child_kept; [exact F2|exact G2|lia..|done].
  - eapply child_kept; [exact F4|exact G4|lia..|]. eapply child_kept; [exact F3|exact G3|lia..|done].
  - eapply child_kept; [exact F4|exact G4|lia..|done].
Qed.

Lemma text_unpacks fuel t k d text : unpacks (helper (S fuel)) (CText t k d text).
Proof.
  intros b i Hi Hb Hw Hl _ Hp. cbn [placed] in Hp. destruct Hp as ([Ht Hv] & Lt & Lk & Ld & Lp & Hs & Hnul & Hnc).
  cbn [size] in Hb. pose proof (zlen_nonneg text).
  destruct (head_unpacks fuel b i 4) as (b0 & E0 & F0 & T0 & V0); [lia..|done|done|]. pose proof (only_zlen _ _ _ _ F0).
  assert (S0 : same (i + 32) (i + 57 + zlen text) b b0) by (eapply only_same; [exact F0|lia]).
  destruct (store_ptr_only b0 (i + 48) (base + (i + 56))) as (b1 & E1 & F1 & L1); [lia..|].
  exists b1. rewrite E0. unfold decompress_payload. cbn [Z.eqb].
  rewrite load_enum_at, (load32_same _ _ _ _ _ S0), Lt by lia. cbn [mbind outcome_bind].
  destruct (Z.eqb_spec (value_type_value t) (value_type_value CALCULATED_VALUE)); [by destruct t|].
  replace (base + (i + 32) + 16) with (base + (i + 48)) by lia.
  rewrite load_ptr_at, (load64_same _ _ _ _ _ S0), Lp by lia. cbn [mbind outcome_bind ptr_value].
  rewrite R2A_at, E1 by lia. cbn [size placed].
  assert (S1 : same i (i + 48) b0 b1) by (eapply only_same; [exact F1|lia]).
  rewrite !(load32_same _ _ _ _ _ S1), (load64_same _ _ _ _ _ S1), T0, V0, !(load32_same _ _ _ _ _ S0) by lia.
  split_and!; try done; [inside F0; last_inside F1|].
  eapply bytes_at_same; [eapply (only_same _ _ _ _ (i + 56) (i + 57 + zlen text)); [exact F1|lia]|zlia|left; by destruct text|].
  eapply bytes_at_same; [exact S0|zlia|left; by destruct text|done].
Qed.

Lemma calculated_unpacks fuel k d c : unpacks (helper fuel) c → unpacks (helper (S fuel)) (CCalculated k d c).
Proof.
  intros Uc b i Hi Hb Hw Hl _ Hp. cbn [placed] in Hp. destruct Hp as ([Ht Hv] & Lt & Lk & Ld & Cc).
  cbn [size] in Hb. size_pos.
  destruct (head_unpacks fuel b i 4) as (b0 & E0 & F0 & T0 & V0); [lia..|done|done|]. pose proof (only_zlen _ _ _ _ F0).
  assert (S0 : same (i + 32) (i + 48) b b0) by (eapply only_same; [exact F0|lia]).
  destruct (call_unpacks (helper fuel) c b0 (i + 48) (i + 56)) as (b1 & E1 & F1 & G1 & C1);
    [done|lia..|eapply child_apart; [exact F0|lia|lia|done]|].
  exists b1. rewrite E0. unfold decompress_payload. cbn [Z.eqb].
  rewrite load_enum_at, (load32_same _ _ _ _ _ S0), Lt by lia. cbn [mbind outcome_bind]. rewrite Z.eqb_refl.
  replace (base + (i + 32) + 16) with (base + (i + 48)) by lia. rewrite E1. cbn [size placed].
  assert (S1 : same i (i + 48) b0 b1) by (eapply only_same; [exact F1|lia]).
  rewrite !(load32_same _ _ _ _ _ S1), (load64_same _ _ _ _ _ S1), T0, V0, !(load32_same _ _ _ _ _ S0) by lia.
  split_and!; try done. inside F0. last_inside F1.
Qed.

(** A cell of a ring of columns and of keywords, as in [placed]. *)
Definition column_cell (P : pointers) (b : list byte) (p : Z) (x : content * SqlDataType * content) : Prop :=
  let '(n, t, k) := x in load32 b (p + 8) = Ret (data_type_value t) ∧ child (placed P b) P b p (p + 48) n ∧
    child (placed P b) P b (p + 24) (p + 48 + size n) k.
Definition keyword_cell (P : pointers) (b : list byte) (p : Z) (x : OptionalKeyword * content) : Prop :=
  let '(w, v) := x in load32 b p = Ret (keyword_value w) ∧ child (placed P b) P b (p + 8) (p + 32) v.
Lemma column_cell_kept P b b' p x : same p (p + 48 - 16) b b' →
  same (p + 48) (p + (let '(n, _, k) := x in 48 + size n + size k)) b b' → column_cell P b p x → column_cell P b' p x.
Proof.
  destruct x as [[n t] k]. intros S1 S2 (T & N & K). cbn. size_pos. rewrite (load32_same _ _ _ _ _ S1) by lia.
  split_and!; [done| |]; (eapply child_same; [exact S1|lia| |eassumption]); eapply placed_same; first [exact S2|lia].
Qed.
Lemma keyword_cell_kept P b b' p x : same p (p + 32 - 16) b b' →
  same (p + 32) (p + (let '(_, v) := x in 32 + size v)) b b' → keyword_cell P b p x → keyword_cell P b' p x.
Proof.
  destruct x as [w v]. intros S1 S2 (T & V). cbn. size_pos. rewrite (load32_same _ _ _ _ _ S1) by lia.
  split; [done|]. eapply child_same; [exact S1|lia| |eassumption]. eapply placed_same; first [exact S2|lia].
Qed.

Lemma column_unpacks fuel n t k : unpacks (helper fuel) n → unpacks (helper fuel) k →
  unpacks_cell 48 column_cell (λ '(n, _, k), 48 + size n + size k)
    (λ cur b, b ← call fuel cur b; call fuel (cur + 24) b) (n, t, k).
Proof.
  intros Un Uk b p Hp Hb Hw Hl (T & N & K). size_pos.
  destruct (call_unpacks (helper fuel) n b p (p + 48)) as (b1 & E1 & F1 & G1 & C1); [done|lia..|done|].
  pose proof (only_zlen _ _ _ _ F1).
  destruct (call_unpacks (helper fuel) k b1 (p + 24) (p + 48 + size n)) as (b2 & E2 & F2 & G2 & C2);
    [done|lia..|eapply child_later; [exact F1|exact G1|lia..|done]|].
  exists b2. rewrite E1. cbn [mbind outcome_bind]. replace (base + p + 24) with (base + (p + 24)) by lia.
  rewrite E2. split_and!; [done|inside F1; last_inside F2| |].
  - eapply same_trans; [eapply same_sub; [exact G1|lia|lia]|eapply same_sub; [exact G2|lia|lia]].
  - split_and!; [|eapply child_kept; [exact F2|exact G2|lia..|done]|done].
    erewrite (load32_same (p + 8) (p + 12) b1); [|eapply only_same; [exact F2|lia]|lia].
    by rewrite (load32_same _ _ _ _ _ G1) by lia.
Qed.
Lemma keyword_unpacks fuel w v : unpacks (helper fuel) v →
  unpacks_cell 32 keyword_cell (λ '(_, v), 32 + size v) (λ cur b, call fuel (cur + 8) b) (w, v).
Proof.
  intros Uv b p Hp Hb Hw Hl (T & V). size_pos.
  destruct (call_unpacks (helper fuel) v b (p + 8) (p + 32)) as (b1 & E1 & F1 & G1 & C1); [done|lia..|done|].
  exists b1. replace (base + p + 8) with (base + (p + 8)) by lia. rewrite E1. split_and!; [done|last_inside F1| |].
  - eapply same_sub; [exact G1|lia|lia].
  - split; [|done]. erewrite (load32_same p (p + 4) b); [done|eapply only_same; [exact F1|lia]|lia].
Qed.

Lemma ring_length_size {A} hdr (cell_size : A → Z) l : 1 ≤ hdr → (∀ x, hdr ≤ cell_size x) →
  Z.of_nat (length l) ≤ ring_size cell_size l.
Proof. intros Hh Hs. induction l as [|x l IH]; cbn [length ring_size]; [lia|]. pose proof (Hs x). lia. Qed.

Lemma columns_unpacks fuel ring : (Z.to_nat (size (CColumns ring)) ≤ fuel)%nat →
  Forall (unpacks (helper fuel)) (content_children (CColumns ring)) → unpacks (helper (S fuel)) (CColumns ring).
Proof.
  intros Hf HU b i Hi Hb Hw Hl _ Hp. cbn [placed] in Hp. destruct Hp as ([Ht Hv] & Hne & Hr). cbn [size] in *.
  set (cs := λ '(n, _, k), 48 + size n + size k) in *.
  assert (Hcs : ∀ x, 48 ≤ cs x) by (intros [[n t] k]; cbn; slia).
  pose proof (ring_length_size 48 cs ring ltac:(lia) Hcs).
  destruct (head_unpacks fuel b i 9) as (b0 & E0 & F0 & T0 & V0); [lia..|done|done|]. pose proof (only_zlen _ _ _ _ F0).
  destruct (link_whole 48 column_cell cs ltac:(lia) Hcs column_cell_kept
    (λ cur b, b ← call fuel cur b; call fuel (cur + 24) b) ring b0 fuel (i + 32)) as (b1 & E1 & F1 & R1);
    [done| |lia|lia|lia|lia|lia| |].
  { apply Forall_bind_inv in HU. eapply Forall_impl; [|exact HU]. intros [[n t] k] Hx.
    do 2 (apply list.Forall_cons in Hx as [? Hx]). by apply column_unpacks. }
  { eapply (stored_ring_kept 48 column_cell cs ltac:(lia) Hcs column_cell_kept);
      [eapply only_same; [exact F0|lia]..|exact Hr]. }
  exists b1. rewrite E0. unfold decompress_payload. cbn [Z.eqb].
  change (48 - 16) with 32 in E1. change (48 - 8) with 40 in E1. rewrite E1.
  assert (S1 : same i (i + 32) b0 b1) by (eapply only_same; [exact F1|lia]).
  cbn [placed size]. rewrite (load32_same _ _ _ _ _ S1), (load64_same _ _ _ _ _ S1) by lia.
  split_and!; try done. inside F0. last_inside F1.
Qed.
Lemma keywords_unpacks fuel ring : (Z.to_nat (size (CKeywords ring)) ≤ fuel)%nat →
  Forall (unpacks (helper fuel)) (content_children (CKeywords ring)) → unpacks (helper (S fuel)) (CKeywords ring).
Proof.
  intros Hf HU b i Hi Hb Hw Hl _ Hp. cbn [placed] in Hp. destruct Hp as ([Ht Hv] & Hne & Hr). cbn [size] in *.
  set (cs := λ '(_, v), 32 + size v) in *.
  assert (Hcs : ∀ x : OptionalKeyword * content, 32 ≤ cs x) by (intros [w v]; cbn; slia).
  pose proof (ring_length_size 32 cs ring ltac:(lia) Hcs).
  destruct (head_unpacks fuel b i 14) as (b0 & E0 & F0 & T0 & V0); [lia..|done|done|]. pose proof (only_zlen _ _ _ _ F0).
  destruct (link_whole 32 keyword_cell cs ltac:(lia) Hcs keyword_cell_kept
    (λ cur b, call fuel (cur + 8) b) ring b0 fuel (i + 32)) as (b1 & E1 & F1 & R1);
    [done| |lia|lia|lia|lia|lia| |].
  { apply Forall_bind_inv in HU. eapply Forall_impl; [|exact HU]. intros [w v] Hx.
    apply list.Forall_cons in Hx as [? _]. by apply keyword_unpacks. }
  { eapply (stored_ring_kept 32 keyword_cell cs ltac:(lia) Hcs keyword_cell_kept);
      [eapply only_same; [exact F0|lia]..|exact Hr]. }
  exists b1. rewrite E0. unfold decompress_payload. cbn [Z.eqb].
  change (32 - 16) with 16 in E1. change (32 - 8) with 24 in E1. rewrite E1.
  assert (S1 : same i (i + 32) b0 b1) by (eapply only_same; [exact F1|lia]).
  cbn [placed size]. rewrite (load32_same _ _ _ _ _ S1), (load64_same _ _ _ _ _ S1) by lia.
  split_and!; try done. inside F0. last_inside F1.
Qed.

Lemma children_smaller c : Forall (λ c', size c' + 32 ≤ size c) (content_children c).
Proof.
  destruct c as [|n s k d|?|? ? c|ring|ring]; cbn [content_children size].
  - constructor.
  - size_pos. repeat constructor; lia.
  - constructor.
  - size_pos. repeat constructor; lia.
  - induction ring as [|[[n t] k] ring IH]; [constructor|]. cbn [mbind list_bind ring_size].
    assert (0 ≤ ring_size (λ '(n, _, k), 48 + size n + size k) ring).
    { apply (cells_size_nonneg 48); [lia|]. intros [[??]?]. slia. }
    apply Forall_app_2; [size_pos; repeat constructor; lia|]. eapply Forall_impl; [|exact IH]. cbv beta. intros. size_pos. lia.
  - induction ring as [|[w v] ring IH]; [constructor|]. cbn [mbind list_bind ring_size].
    assert (0 ≤ ring_size (λ '(_, v), 32 + size v) ring).
    { apply (cells_size_nonneg 32); [lia|]. intros [??]. slia. }
    apply Forall_app_2; [size_pos; repeat constructor; lia|]. eapply Forall_impl; [|exact IH]. cbv beta. intros. size_pos. lia.
Qed.

Lemma helper_unpacks c : ∀ fuel, (Z.to_nat (size c) < fuel)%nat → unpacks (helper fuel) c.
Proof.
  induction c as [c IH] using content_induction. intros [|fuel] Hf; [lia|].
  assert (HU : Forall (unpacks (helper fuel)) (content_children c)).
  { pose proof (children_smaller c) as Hsm. apply list.Forall_forall. intros c' Hin.
    rewrite list.Forall_forall in IH, Hsm. apply (IH c' Hin). specialize (Hsm c' Hin). cbn in Hsm. size_pos. lia. }
  destruct c as [|n s k d|t k d text|k d c|ring|ring].
  - by intros b i ?????.
  - cbn [content_children] in HU. repeat (apply list.Forall_cons in HU as [? HU]). by apply table_unpacks.
  - apply text_unpacks.
  - apply list.Forall_cons in HU as [? _]. by apply calculated_unpacks.
  - apply columns_unpacks; [lia|done].
  - apply keywords_unpacks; [lia|done].
Qed.

(** ** What the block then is *)
Lemma ring_last {A} hdr (cell : Z → A → Prop) cell_size b start l : ∀ p, l ≠ [] →
  ring_placed hdr cell cell_size Abs b start p l → ∃ r, load64 b (start + hdr - 8) = Ret r.
Proof.
  induction l as [|x l IH]; intros p Hne Hr; [done|]. cbn [ring_placed] in Hr. destruct Hr as (_ & [_ Hv] & Hr).
  destruct l as [|y l]; [by eexists|]. by eapply IH.
Qed.
Lemma ring_cells_from {A} hdr (cell cell' : Z → A → Prop) cell_size b start l :
  (∀ x, 0 < cell_size x) → 0 ≤ start →
  Forall (λ x, ∀ p, 0 ≤ p → cell p x → cell' (base + p) x) l → ∀ p q, start ≤ p → l ≠ [] →
  ring_placed hdr cell cell_size Abs b start p l → load64 b (p + hdr - 8) = Ret q →
  ∃ r, ring_cells base b (hdr - 16) (hdr - 8) cell' (base + p) q l (base + start) r ∧ load64 b (start + hdr - 8) = Ret r.
Proof.
  intros Hsz Hs Hcell. induction Hcell as [|x l Hx Hcell IH]; intros p q Hp Hne Hr Hq; [done|].
  cbn [ring_placed] in Hr. destruct Hr as (Hc & [Hn Hv] & Hr). cbn [ring_cells]. pose proof (Hsz x).
  assert (Hq' : load_ptr base b (base + p + (hdr - 8)) = Ret q).
  { replace (base + p + (hdr - 8)) with (base + (p + hdr - 8)) by lia. by rewrite load_ptr_at. }
  assert (Hn' : load_ptr base b (base + p + (hdr - 16)) = Ret (base + match l with [] => start | _ => p + cell_size x end)).
  { replace (base + p + (hdr - 16)) with (base + (p + hdr - 16)) by lia. by rewrite load_ptr_at. }
  destruct l as [|y l].
  - exists (base + p). split; [|done]. split_and!; [done|apply Hx; [lia|done]|]. by eexists.
  - destruct (IH (p + cell_size x) (base + p)) as (r & R & L); [lia|done|done|done|].
    exists r. split; [|done]. split_and!; [done|apply Hx; [lia|done]|]. eexists. split_and!; [done|split; [lia|done]|done].
Qed.
Lemma ring_represents {A} hdr (cell cell' : Z → A → Prop) cell_size b start l :
  (∀ x, 0 < cell_size x) → 0 ≤ start → l ≠ [] →
  Forall (λ x, ∀ p, 0 ≤ p → cell p x → cell' (base + p) x) l →
  ring_placed hdr cell cell_size Abs b start start l →
  ∃ last, ring_cells base b (hdr - 16) (hdr - 8) cell' (base + start) last l (base + start) last.
Proof.
  intros Hsz Hs Hne Hc Hr. destruct (ring_last _ _ _ _ _ _ _ Hne Hr) as [r Hl].
  destruct (ring_cells_from hdr cell cell' cell_size b start l Hsz Hs Hc start r ltac:(lia) Hne Hr Hl) as (r' & R & L').
  assert (r' = r) as -> by congruence. by exists r.
Qed.

Lemma child_represents b f t c :
  (is_null c = false → placed Abs b t c → represents base b (base + t) c) →
  child (placed Abs b) Abs b f t c → ∃ p, load_ptr base b (base + f) = Ret p ∧ represents base b p c.
Proof.
  intros H [Hl Hc]. rewrite load_ptr_at, Hl. eexists. split; [done|]. destruct (is_null c) eqn:En; [|by apply H].
  by destruct c.
Qed.
Lemma placed_represents b c : ∀ i, 0 ≤ i → is_null c = false → placed Abs b i c → represents base b (base + i) c.
Proof.
  induction c as [c IH] using content_induction. intros i Hi Hn Hp.
  assert (Hpay : ∀ type, load32 b i = Ret type ∧ load64 b (i + 24) = Ret (ptr_value Abs (i + 24) (i + 32)) →
    base + i ≠ null ∧ load_enum base b (base + i) = Ret type ∧
    load_ptr base b (base + i + 24) = Ret (base + (i + 32)) ∧ base + (i + 32) ≠ null).
  { intros type [Ht Hv]. unfold null. rewrite load_enum_at. replace (base + i + 24) with (base + (i + 24)) by lia.
    rewrite load_ptr_at. split_and!; [lia|done|done|lia]. }
  assert (Hadd : ∀ z, base + (i + 32) + z = base + (i + 32 + z)) by (intros; lia).
  assert (Hch : ∀ f t c', 0 ≤ t → (∀ i, 0 ≤ i → is_null c' = false → placed Abs b i c' → represents base b (base + i) c') →
    child (placed Abs b) Abs b f t c' → ∃ p, load_ptr base b (base + f) = Ret p ∧ represents base b p c').
  { intros f t c' Ht Hc'. apply child_represents. auto. }
  destruct c as [|n s k d|t k d text|k d c|ring|ring]; [done|..]; cbn [content_children] in IH; cbn [placed] in Hp; cbn [represents].
  - repeat (apply list.Forall_cons in IH as [? IH]). destruct Hp as (Hh & Cn & Cs & Ck & Cd).
    exists (base + (i + 32)). split; [by apply Hpay|]. size_pos.
    rewrite !Hadd, <- !(Z.add_assoc i). cbn [Z.add Pos.add Pos.add_carry Pos.succ].
    split_and!; (eapply Hch; [|done|eassumption]; lia).
  - destruct Hp as (Hh & Lt & Lk & Ld & Lp & Hs & Hnul & Hnc). exists (base + (i + 32)).
    split; [by apply Hpay|].
    rewrite !Hadd, !load_enum_at, load_ptr_at, <- !(Z.add_assoc i). cbn [Z.add Pos.add Pos.add_carry Pos.succ].
    split_and!; [done..|]. eexists. split; [exact Lp|]. cbn [ptr_value].
    replace (base + (i + 56) - base) with (i + 56) by lia. by apply string_at_bytes_at.
  - apply list.Forall_cons in IH as [IHc _]. destruct Hp as (Hh & Lt & Lk & Ld & Cc). exists (base + (i + 32)).
    split; [by apply Hpay|].
    rewrite !Hadd, !load_enum_at, <- !(Z.add_assoc i). cbn [Z.add Pos.add Pos.add_carry Pos.succ].
    split_and!; [done..|]. eapply Hch; [|exact IHc|exact Cc]. lia.
  - destruct Hp as (Hh & Hne & Hr). split; [done|]. exists (base + (i + 32)).
    destruct (ring_represents 48 (column_cell Abs b) (λ p '(n, t, k), (∃ q, load_ptr base b p = Ret q ∧ represents base b q n) ∧
      load_enum base b (p + 8) = Ret (data_type_value t) ∧
      ∃ q, load_ptr base b (p + 24) = Ret q ∧ represents base b q k) (λ '(n, _, k), 48 + size n + size k) b (i + 32) ring) as [last Hlast];
      [intros [[n t] k]; slia|lia|done| |exact Hr|exists last; split; [by apply Hpay|exact Hlast]].
    apply Forall_bind_inv in IH. eapply Forall_impl; [|exact IH]. intros [[n t] k] Hx p Hp0 (T & N & K).
    do 2 (apply list.Forall_cons in Hx as [? Hx]). size_pos. rewrite <- !Z.add_assoc, load_enum_at.
    split_and!; [eapply Hch; [|done|exact N]; lia|done|eapply Hch; [|done|exact K]; lia].
  - destruct Hp as (Hh & Hne & Hr). split; [done|]. exists (base + (i + 32)).
    destruct (ring_represents 32 (keyword_cell Abs b) (λ p '(w, v), load_enum base b p = Ret (keyword_value w) ∧
      ∃ q, load_ptr base b (p + 8) = Ret q ∧ represents base b q v) (λ '(_, v), 32 + size v) b (i + 32) ring) as [last Hlast];
      [intros [w v]; slia|lia|done| |exact Hr|exists last; split; [by apply Hpay|exact Hlast]].
    apply Forall_bind_inv in IH. eapply Forall_impl; [|exact IH]. intros [w v] Hx p Hp0 (T & V).
    apply list.Forall_cons in Hx as [? _]. size_pos. rewrite <- !Z.add_assoc, load_enum_at.
    split; [done|eapply Hch; [|done|exact V]; lia].
Qed.
End decompress.

(** ** A block holds one statement *)
#[local] Instance value_type_inj : Inj (=) (=) value_type_value.
Proof. intros [] []; done. Qed.
#[local] Instance data_type_inj : Inj (=) (=) data_type_value.
Proof. intros [] []; done. Qed.
#[local] Instance keyword_inj : Inj (=) (=) keyword_value.
Proof. intros [] []; done. Qed.
Ltac same_loads :=
  repeat match goal with
  | H : load_ptr ?o ?b ?a = Ret ?x, H' : load_ptr ?o ?b ?a = Ret ?y |- _ =>
      assert (y = x) as -> by congruence; clear H'
  | H : load_enum ?o ?b ?a = Ret (?f ?x), H' : load_enum ?o ?b ?a = Ret (?f ?y) |- _ =>
      assert (y = x) as -> by (apply (inj f); congruence); clear H'
  end.

Lemma ring_cells_unique {A} base b next prev (cell : Z → A → Prop) l l' p q e r q' r' :
  Forall (λ x, ∀ p y, cell p x → cell p y → y = x) l → l ≠ [] → l' ≠ [] →
  ring_cells base b next prev cell p q l e r → ring_cells base b next prev cell p q' l' e r' → l' = l.
Proof.
  intros Hu. revert l' p q q'. induction Hu as [|x l Hx Hu IH]; intros l' p q q' Hne Hne' H H'; [done|].
  destruct l' as [|y l']; [done|]. cbn [ring_cells] in *.
  destruct H as (_ & Hc & n & Hn & He & H), H' as (_ & Hc' & n' & Hn' & He' & H'). same_loads.
  f_equal; [by eapply Hx|]. destruct l as [|x2 l], l' as [|y2 l']; [done|naive_solver..|]. by eapply IH.
Qed.
(** The type of a statement, [None] for NULL. *)
Definition content_type (c : content) : option Z :=
  match c with
  | CNull => None | CTable _ _ _ _ => Some 0 | CText _ _ _ _ | CCalculated _ _ _ => Some 4
  | CColumns _ => Some 9 | CKeywords _ => Some 14
  end.
Lemma represents_type base b a c : represents base b a c →
  match content_type c with None => a = null | Some t => a ≠ null ∧ load_enum base b a = Ret t end.
Proof.
  destruct c; cbn [represents content_type]; [done|by intros (? & (? & ? & _) & _)..| |].
  all: by intros (_ & ? & ? & (? & ? & _) & _).
Qed.
Lemma represents_same_type base b a c c' : represents base b a c → represents base b a c' →
  content_type c' = content_type c.
Proof.
  intros H%represents_type H'%represents_type. destruct (content_type c), (content_type c'); naive_solver congruence.
Qed.
Lemma represents_unique base b c : ∀ a c', represents base b a c → represents base b a c' → c' = c.
Proof.
  induction c as [c IH] using content_induction. intros a c' H H'.
  pose proof (represents_same_type _ _ _ _ _ H H') as Hty.
  destruct c as [|n s k d|t k d text|k d c|ring|ring]; cbn [content_children] in IH; cbn [represents] in H.
  - by destruct c'.
  - repeat (apply list.Forall_cons in IH as [? IH]).
    destruct H as (v & (Ha & Ht & Hv & _) & (p1 & L1 & R1) & (p2 & L2 & R2) & (p3 & L3 & R3) & (p4 & L4 & R4)).
    destruct c' as [|n' s' k' d'|? ? ? ?|? ? ?|?|?]; try done; cbn [represents] in H'.
    destruct H' as (v' & (_ & _ & Hv' & _) & (p1' & L1' & R1') & (p2' & L2' & R2') & (p3' & L3' & R3') & (p4' & L4' & R4')).
    same_loads. f_equal; eauto.
  - destruct H as (v & (Ha & Ht & Hv & _) & Hnc & Lt & Lk & Ld & p & Lp & Hs).
    destruct c' as [|? ? ? ?|t' k' d' text'|? ? ?|?|?]; try done; cbn [represents] in H'.
    + destruct H' as (v' & (_ & _ & Hv' & _) & Hnc' & Lt' & Lk' & Ld' & p' & Lp' & Hs'). same_loads. congruence.
    + destruct H' as (v' & (_ & _ & Hv' & _) & Lt' & _). same_loads. done.
  - apply list.Forall_cons in IH as [IHc _]. destruct H as (v & (Ha & Ht & Hv & _) & Lt & Lk & Ld & p & Lp & R).
    destruct c' as [|? ? ? ?|t' k' d' text'|k' d' c'|?|?]; try done; cbn [represents] in H'.
    + destruct H' as (v' & (_ & _ & Hv' & _) & Hnc & Lt' & _). same_loads. done.
    + destruct H' as (v' & (_ & _ & Hv' & _) & Lt' & Lk' & Ld' & p' & Lp' & R'). same_loads. f_equal. eauto.
  - destruct H as (Hne & v & last & (Ha & Ht & Hv & _) & R).
    destruct c' as [|? ? ? ?|? ? ? ?|? ? ?|ring'|?]; try done; cbn [represents] in H'.
    destruct H' as (Hne' & v' & last' & (_ & _ & Hv' & _) & R'). same_loads. f_equal.
    eapply ring_cells_unique; [|done|done|exact R|exact R'].
    apply Forall_bind_inv in IH. eapply Forall_impl; [|exact IH]. intros [[n t] k] Hx p [[n' t'] k'].
    do 2 (apply list.Forall_cons in Hx as [? Hx]).
    intros ((p1 & L1 & R1) & Lt & p2 & L2 & R2) ((p1' & L1' & R1') & Lt' & p2' & L2' & R2'). same_loads.
    repeat f_equal; eauto.
  - destruct H as (Hne & v & last & (Ha & Ht & Hv & _) & R).
    destruct c' as [|? ? ? ?|? ? ? ?|? ? ?|?|ring']; try done; cbn [represents] in H'.
    destruct H' as (Hne' & v' & last' & (_ & _ & Hv' & _) & R'). same_loads. f_equal.
    eapply ring_cells_unique; [|done|done|exact R|exact R'].
    apply Forall_bind_inv in IH. eapply Forall_impl; [|exact IH]. intros [w v0] Hx p [w' v1].
    apply list.Forall_cons in Hx as [? _]. intros (Lw & p1 & L1 & R1) (Lw' & p1' & L1' & R1'). same_loads.
    f_equal; eauto.
Qed.

(** ** Round trip *)
Lemma placed_app P b i c rest : 0 ≤ i → i + size c ≤ zlen b → placed P b i c → placed P (b ++ rest) i c.
Proof.
  intros Hi Hb. apply (placed_same P 0 (zlen b)); [|lia].
  intros k Hk. rewrite lookup_app_l; [done|]. unfold zlen in Hk. lia.
Qed.

Lemma stored_loads m rings fuel mem stmt c base rest block_length fuel' :
  content_of m rings fuel stmt = Some c → is_null c = false → size c ≤ INT_MAX →
  0 < base → base + size c + zlen rest < 2 ^ 64 → size c + zlen rest ≤ block_length → (Z.to_nat (size c) < fuel')%nat →
  ∃ b b', compress_statement m rings fuel mem stmt = Ret (b, zlen b) ∧ zlen b = size c ∧
    decompress_statement base block_length fuel' (b ++ rest) = Ret b' ∧
    length b' = length (b ++ rest) ∧ represents base b' base c.
Proof.
  intros Hc Hn Hs Hb Hw Hl Hf. destruct (compress_placed m rings fuel mem stmt c Hc Hn Hs) as (b & E & Hz & Hp).
  pose proof (size_nonneg c). pose proof (zlen_nonneg rest).
  destruct (helper_unpacks base block_length Hb c fuel' Hf (b ++ rest) 0)
    as (b' & E' & F & P); [lia|zlia|zlia|zlia|done|apply placed_app; [lia|lia|done]|].
  rewrite Z.add_0_r in E'. exists b, b'. rewrite E, Hz. split_and!; [done|done|done|apply F|].
  rewrite <- (Z.add_0_r base) at 2. by apply (placed_represents base Hb).
Qed.
(** C11: a statement made of tables, values, columns and keywords that is compressed and
    then decompressed, in a block at any address and with anything behind it, is there
    as the structs it was: both passes of the compression agree on the length, no access
    leaves the block, and the rings are closed and doubly linked again. *)
Theorem stored_statement_loads m rings fuel mem stmt c base rest block_length :
  content_of m rings fuel stmt = Some c → is_null c = false → size c ≤ INT_MAX →
  0 < base → base + size c + zlen rest < 2 ^ 64 → size c + zlen rest ≤ block_length →
  ∃ b b', compress_statement m rings fuel mem stmt = Ret (b, zlen b) ∧ zlen b = size c ∧
    decompress_statement base block_length (S (Z.to_nat (size c))) (b ++ rest) = Ret b' ∧
    length b' = length (b ++ rest) ∧ (∀ c', represents base b' base c' ↔ c' = c).
Proof.
  intros Hc Hn Hs Hb Hw Hl.
  destruct (stored_loads m rings fuel mem stmt c base rest block_length (S (Z.to_nat (size c))) Hc Hn Hs Hb Hw Hl ltac:(lia))
    as (b & b' & E & Hz & E' & Hlen & R).
  exists b, b'. split_and!; [done..|]. intros c'. split; [by eapply represents_unique|by intros ->].
Qed.

(** ** A table *)
Definition name_value (s : string) : SqlValue :=
  {| sv_type := STRING_LITERAL; sv_coerced_type := UNKNOWN_SqlValueType; sv_data_type := UNKNOWN_SqlDataType;
     sv_literal := lit s |}.
(** CREATE TABLE names (id INTEGER PRIMARY KEY, name VARCHAR) GLOBAL ... *)
Definition names_values : values :=
  {[ 1 := name_value "names"; 2 := name_value "^names(keys(0))"; 3 := name_value "id"; 4 := name_value "name";
     5 := name_value "1"; 6 := name_value EmptyString ]}.
Definition names_rings : gmap ptr (list SqlColumn) :=
  {[ 10 := [ Column 11 (value_STATEMENT 3 null_STATEMENT) INTEGER_TYPE null_STATEMENT
               (keyword_STATEMENT [Keyword PRIMARY_KEY (value_STATEMENT 6 null_STATEMENT); Keyword NO_KEYWORD null_STATEMENT]);
             Column 12 (value_STATEMENT 4 null_STATEMENT) CHARACTER_STRING_TYPE null_STATEMENT
               (keyword_STATEMENT [Keyword OPTIONAL_PIECE (value_STATEMENT 5 null_STATEMENT)]) ] ]}.
Definition names_table : SqlStatement :=
  table_STATEMENT 9 (value_STATEMENT 1 null_STATEMENT)
    (keyword_STATEMENT [Keyword OPTIONAL_SOURCE (value_STATEMENT 2 null_STATEMENT)]) 10 null_STATEMENT.
Definition names_content : content :=
  let text s := CText STRING_LITERAL UNKNOWN_SqlValueType UNKNOWN_SqlDataType (lit s) in
  CTable (text "names"%string) (CKeywords [(OPTIONAL_SOURCE, text "^names(keys(0))"%string)])
    (CColumns [(text "id"%string, INTEGER_TYPE, CKeywords [(PRIMARY_KEY, text EmptyString); (NO_KEYWORD, CNull)]);
               (text "name"%string, CHARACTER_STRING_TYPE, CKeywords [(OPTIONAL_PIECE, text "1"%string)])]) CNull.
Lemma stored_statement_loads_witness :
  ∃ b b', compress_statement names_values names_rings 6 (λ _, x2a) names_table = Ret (b, zlen b) ∧ zlen b = size names_content ∧
    decompress_statement 4096 32768 (S (Z.to_nat (size names_content))) (b ++ replicate 100 nul) = Ret b' ∧
    length b' = length (b ++ replicate 100 nul) ∧ (∀ c', represents 4096 b' 4096 c' ↔ c' = names_content).
Proof.
  apply (stored_statement_loads names_values names_rings 6 (λ _, x2a) names_table names_content 4096 (replicate 100 nul) 32768).
  - vm_compute. reflexivity.
  - reflexivity.
  - vm_compute. discriminate.
  - lia.
  - vm_compute. reflexivity.
  - vm_compute. discriminate.
Defined.
