(* ===== verification/Types.v ===== *)
(** * The types of expressions

    [populate_data_type.c]: the check a query gets before it is planned, which finds a
    type for each expression and refuses operands of different types.

    A cast is replaced by what it is applied to ([*v = *value->v.coerce_target]) when it
    has been visited, and the type found for a selected column is written into the
    select list.  Both are shared with the rest of the query, so they are a state here:
    the addresses of the casts already replaced, and the types by the address of the
    list element. *)
From stdpp Require Import gmap strings.
From S2P Require Import Prelude CMem LogicalPlan SqlStatement.

Record types := { ty_replaced : gset ptr; ty_aliases : gmap ptr SqlValueType }.
Definition replace_cast (p : ptr) (st : types) : types :=
  {| ty_replaced := {[p]} ∪ ty_replaced st; ty_aliases := ty_aliases st |}.
Definition set_alias_type (p : ptr) (t : SqlValueType) (st : types) : types :=
  {| ty_replaced := ty_replaced st; ty_aliases := <[p := t]> (ty_aliases st) |}.

Definition get_type_string (type : SqlValueType) : outcome string :=
  match type with
  | NUMBER_LITERAL => Ret "NUMBER"
  | STRING_LITERAL => Ret "STRING"
  | DATE_TIME => Ret "DATE TIME"
  | TEMPORARY_TABLE_TYPE => Ret "TEMPORARY TABLE TYPE"
  | BOOLEAN_VALUE => Ret "BOOLEAN"
  | PARAMETER_VALUE => Ret "PARAMETER"
  | _ => Halt FatalExit
  end%string.

(** An enumerator of another enumeration in a [SqlValueType]. *)
Definition value_types : list SqlValueType :=
  [UNKNOWN_SqlValueType; NUMBER_LITERAL; STRING_LITERAL; DATE_TIME; COLUMN_REFERENCE;
   CALCULATED_VALUE; TEMPORARY_TABLE_TYPE; FUNCTION_NAME; BOOLEAN_VALUE; PARAMETER_VALUE;
   NUL_VALUE; COERCE_TYPE; INVALID_SqlValueType].
Definition as_value_type (n : Z) : SqlValueType :=
  default INVALID_SqlValueType (value_types !! Z.to_nat n).

(** [v->v.select == NULL]: the union's pointer, or the bytes of a zero enumerator. *)
Definition no_member (v : SqlStatement) : bool :=
  match v with
  | column_list_STATEMENT [] | column_STATEMENT [] | join_STATEMENT [] | constraint_STATEMENT []
  | keyword_STATEMENT [] | column_list_alias_STATEMENT [] | cas_branch_STATEMENT []
  | data_type_STATEMENT UNKNOWN_SqlDataType | join_type_STATEMENT NO_JOIN
  | constraint_type_STATEMENT => true
  | _ => false
  end.

(** The types of the operands, made equal when one is open. *)
Definition open_type (t : SqlValueType) : bool :=
  bool_decide (t = PARAMETER_VALUE ∨ t = UNKNOWN_SqlValueType).
Definition unify (t1 t2 : SqlValueType) : SqlValueType * SqlValueType :=
  if open_type t1 then (t2, t2) else if open_type t2 then (t1, t1) else (t1, t2).
(** The type of a binary operation, and the types of its operands after it. *)
Definition binary_types (operation : BinaryOperations) (t1 t2 : SqlValueType)
    : SqlValueType * (SqlValueType * SqlValueType) :=
  match operation with
  | ADDITION | SUBTRACTION | DVISION | MULTIPLICATION => (t1, (t1, t2))
  | CONCAT =>
      let t := as_value_type (data_type_value CHARACTER_STRING_TYPE) in (t, (t, t))
  | _ => (BOOLEAN_VALUE, (t1, t2))
  end.
Definition column_type (t : SqlDataType) : outcome SqlValueType :=
  match t with
  | CHARACTER_STRING_TYPE => Ret STRING_LITERAL
  | INTEGER_TYPE => Ret NUMBER_LITERAL
  | DATE_TIME_TYPE => Ret DATE_TIME
  | _ => Halt FatalExit
  end.

(** A loop over a ring: [result |= ...], the type that of the last call. *)
Definition typed : Type := (Z * SqlValueType * types)%type.
Definition type_ring {A} (f : A → types → outcome typed) : list A → typed → outcome typed :=
  fix go l acc :=
    match l with
    | [] => Ret acc
    | x :: l' =>
        let '(result, _, st) := acc in
        '(r, t, st) ← f x st;
        go l' (Z.lor result r, t, st)
    end.

(** The same over a select list: the type is the first one known. *)
Definition alias_ring {A} (f : A → types → outcome typed) : list A → typed → outcome typed :=
  fix go l acc :=
    match l with
    | [] => Ret acc
    | x :: l' =>
        let '(result, type, st) := acc in
        '(r, t, st) ← f x st;
        go l' (Z.lor result r, if decide (type = UNKNOWN_SqlValueType) then t else type, st)
    end.

Section types.
(** [logging]: whether warnings are recorded, which prints the types. *)
Context (m : values) (logging : bool).

Fixpoint populate_data_type (v : SqlStatement) (st : types) : outcome typed :=
  if is_null_stmt v || no_member v then Ret (0, UNKNOWN_SqlValueType, st) else
  match v with
  | set_operation_STATEMENT _ operand0 operand1 =>
      '(r0, _, st) ← populate_data_type operand0 st;
      '(r1, _, st) ← populate_data_type operand1 st;
      Ret (Z.lor r0 r1, TEMPORARY_TABLE_TYPE, st)
  | select_STATEMENT select_list table_list where_expression order_expression _ _ =>
      '(r0, _, st) ← populate_data_type select_list st;
      '(r1, _, st) ← populate_data_type table_list st;
      '(r2, _, st) ← populate_data_type where_expression st;
      '(r3, _, st) ← populate_data_type order_expression st;
      Ret (Z.lor (Z.lor (Z.lor r0 r1) r2) r3, TEMPORARY_TABLE_TYPE, st)
  | join_STATEMENT ring =>
      type_ring (λ '(Join value condition _) st,
        '(r0, _, st) ← populate_data_type value st;
        '(r1, t, st) ← populate_data_type condition st;
        Ret (Z.lor r0 r1, t, st)) ring (0, UNKNOWN_SqlValueType, st)
  | value_STATEMENT p u =>
      value ← value_at m p;
      match sv_type value with
      | CALCULATED_VALUE => populate_data_type u st
      | COLUMN_REFERENCE => Halt AssertFailed
      | NUMBER_LITERAL | STRING_LITERAL | DATE_TIME | PARAMETER_VALUE | UNKNOWN_SqlValueType =>
          Ret (0, sv_type value, st)
      | NUL_VALUE => Ret (0, UNKNOWN_SqlValueType, st)
      | BOOLEAN_VALUE => Ret (0, BOOLEAN_VALUE, st)
      | COERCE_TYPE =>
          if decide (p ∈ ty_replaced st) then populate_data_type u st
          else
            '(r, _, st) ← populate_data_type u st;
            if is_null_stmt u then Undef NullPointer
            else Ret (r, sv_coerced_type value, replace_cast p st)
      | _ => Halt FatalExit
      end
  | binary_STATEMENT operation operand0 operand1 =>
      '(r0, child_type1, st) ← populate_data_type operand0 st;
      '(r1, child_type2, st) ← populate_data_type operand1 st;
      let '(child_type1, child_type2) := unify child_type1 child_type2 in
      let '(type, (child_type1, child_type2)) := binary_types operation child_type1 child_type2 in
      if decide (child_type1 ≠ child_type2 ∧ child_type2 ≠ TEMPORARY_TABLE_TYPE) then
        _ ← (if logging then
               _ ← get_type_string child_type1; _ ← get_type_string child_type2; Ret ()
             else Ret ());
        if is_null_stmt operand0 || is_null_stmt operand1 then Undef NullPointer
        else Ret (1, type, st)
      else Ret (Z.lor r0 r1, type, st)
  | unary_STATEMENT _ operand => populate_data_type operand st
  | column_list_STATEMENT ring =>
      type_ring populate_data_type ring (0, UNKNOWN_SqlValueType, st)
  | column_list_alias_STATEMENT ring =>
      alias_ring (λ '(ColumnListAlias p column_list _ _ _) st,
        '(r, child_type, st) ← populate_data_type column_list st;
        Ret (r, child_type, set_alias_type p child_type st)) ring (0, UNKNOWN_SqlValueType, st)
  | column_alias_STATEMENT _ column _ =>
      match column with
      | column_list_alias_STATEMENT _ => '(_, t, st) ← populate_data_type column st; Ret (0, t, st)
      | null_STATEMENT => Undef NullPointer
      | column_STATEMENT [] => Undef NullPointer
      | column_STATEMENT (Column _ _ type _ _ :: _) => t ← column_type type; Ret (0, t, st)
      | _ => Halt AssertFailed
      end
  | function_call_STATEMENT _ parameters =>
      '(_, _, st) ← populate_data_type parameters st;
      Ret (0, STRING_LITERAL, st)
  | cas_STATEMENT value branches _ =>
      '(r0, _, st) ← populate_data_type value st;
      '(r1, t, st) ← populate_data_type branches st;
      Ret (Z.lor r0 r1, t, st)
  | cas_branch_STATEMENT ring =>
      type_ring (λ '(CaseBranch condition value) st,
        '(r0, _, st) ← populate_data_type condition st;
        '(r1, t, st) ← populate_data_type value st;
        Ret (Z.lor r0 r1, t, st)) ring (0, UNKNOWN_SqlValueType, st)
  | table_alias_STATEMENT _ table _ _ _ => populate_data_type table st
  | table_STATEMENT _ _ _ _ _ => Ret (0, UNKNOWN_SqlValueType, st)
  | _ => Halt FatalExit
  end.
End types.
