(* ===== verification/TypesTheorems.v ===== *)
(** * What the type check promises

    [run] computes which kind of value an expression has in a row, and is stuck where
    values of different kinds meet.  On the expressions it really covers the check is
    exact: what it accepts is never stuck, what it refuses is.  The expressions it does
    not cover are shown too. *)
From stdpp Require Import gmap strings.
From S2P Require Import Prelude CMem LogicalPlan SqlStatement Types.

(** ** Kinds of values *)
Inductive kind := Number | Text | Date | Truth.
#[export] Instance kind_eq_dec : EqDecision kind.
Proof. solve_decision. Defined.
(** A value: NULL or one of a kind. *)
Abbreviation cell := (option kind).
Definition kind_of (t : SqlValueType) : option kind :=
  match t with
  | NUMBER_LITERAL => Some Number | STRING_LITERAL => Some Text
  | DATE_TIME => Some Date | BOOLEAN_VALUE => Some Truth | _ => None
  end.
Definition agree (a b : cell) : bool :=
  match a, b with Some x, Some y => bool_decide (x = y) | _, _ => true end.
Definition arithmetic (o : BinaryOperations) : bool :=
  match o with ADDITION | SUBTRACTION | DVISION | MULTIPLICATION => true | _ => false end.
Definition operate (o : BinaryOperations) (a b : cell) : option cell :=
  if agree a b then
    Some (match a, b with
          | Some x, Some _ => Some (if arithmetic o then x else Truth)
          | _, _ => None
          end)
  else None.

(** The kind a literal has; a column is NULL in the rows where [nulls] says so. *)
Definition literal_cell (m : values) (s : SqlStatement) : option cell :=
  match s with
  | value_STATEMENT p _ =>
      match sv_type <$> m !! p with
      | Some NUL_VALUE => Some None
      | Some t => Some <$> kind_of t
      | None => None
      end
  | _ => None
  end.
Definition column_cell (nulls : ptr → bool) (s : SqlStatement) : option cell :=
  match s with
  | column_alias_STATEMENT p (column_STATEMENT (Column _ _ t _ _ :: _)) _ =>
      match column_type t with
      | Ret t => if nulls p then Some None else Some <$> kind_of t
      | _ => None
      end
  | _ => None
  end.
Definition simple_cell (m : values) (nulls : ptr → bool) (s : SqlStatement) : option cell :=
  match s with column_alias_STATEMENT _ _ _ => column_cell nulls s | _ => literal_cell m s end.

Fixpoint run (m : values) (nulls : ptr → bool) (s : SqlStatement) : option cell :=
  match s with
  | value_STATEMENT p u =>
      match sv_type <$> m !! p with
      | Some CALCULATED_VALUE => run m nulls u
      | _ => literal_cell m s
      end
  | column_alias_STATEMENT _ _ _ => column_cell nulls s
  | binary_STATEMENT o a b =>
      match b with
      | column_list_STATEMENT ring =>
          x ← run m nulls a;
          ys ← mapM (literal_cell m) ring;
          if forallb (agree x) ys then Some (if bool_decide (x = None) then None else Some Truth) else None
      | _ => x ← run m nulls a; y ← run m nulls b; operate o x y
      end
  | unary_STATEMENT o a =>
      x ← run m nulls a; Some (option_map (λ _, match o with BOOLEAN_NOT => Truth | _ => Number end) x)
  | function_call_STATEMENT _ (column_list_STATEMENT ring) =>
      _ ← mapM (simple_cell m nulls) ring; Some (Some Text)
  | _ => None
  end.

(** ** What the check covers *)
Definition is_literal (m : values) (s : SqlStatement) : bool :=
  match s with
  | value_STATEMENT p _ =>
      match sv_type <$> m !! p with
      | Some (NUMBER_LITERAL | STRING_LITERAL | DATE_TIME | BOOLEAN_VALUE | NUL_VALUE) => true
      | _ => false
      end
  | _ => false
  end.
Definition is_column (s : SqlStatement) : bool :=
  match s with
  | column_alias_STATEMENT _ (column_STATEMENT (Column _ _ t _ _ :: _)) _ =>
      bool_decide (t = CHARACTER_STRING_TYPE ∨ t = INTEGER_TYPE ∨ t = DATE_TIME_TYPE)
  | _ => false
  end.
(** Literals of one type, none of them NULL. *)
Definition literal_type (m : values) (s : SqlStatement) : SqlValueType :=
  match s with value_STATEMENT p _ => default UNKNOWN_SqlValueType (sv_type <$> m !! p) | _ => UNKNOWN_SqlValueType end.
Definition uniform (m : values) (ring : list SqlStatement) : bool :=
  forallb (λ x, is_literal m x && bool_decide (literal_type m x = literal_type m (List.last ring null_STATEMENT)) &&
                bool_decide (literal_type m x ≠ NUL_VALUE)) ring.
(** Expressions whose values are numbers, or truth values. *)
Fixpoint numeric (m : values) (s : SqlStatement) : bool :=
  match s with
  | value_STATEMENT p u =>
      match sv_type <$> m !! p with
      | Some CALCULATED_VALUE => numeric m u | Some NUMBER_LITERAL => true | _ => false
      end
  | column_alias_STATEMENT _ (column_STATEMENT (Column _ _ INTEGER_TYPE _ _ :: _)) _ => true
  | binary_STATEMENT o a b => arithmetic o && numeric m a && numeric m b
  | unary_STATEMENT BOOLEAN_NOT _ => false
  | unary_STATEMENT _ a => numeric m a
  | _ => false
  end.
Fixpoint logical (m : values) (s : SqlStatement) : bool :=
  match s with
  | value_STATEMENT p u =>
      match sv_type <$> m !! p with
      | Some CALCULATED_VALUE => logical m u | Some BOOLEAN_VALUE => true | _ => false
      end
  | binary_STATEMENT o _ _ => negb (arithmetic o) && bool_decide (o ≠ CONCAT)
  | unary_STATEMENT BOOLEAN_NOT a => logical m a
  | _ => false
  end.
Fixpoint covered (m : values) (s : SqlStatement) : bool :=
  match s with
  | value_STATEMENT p u =>
      match sv_type <$> m !! p with
      | Some CALCULATED_VALUE => covered m u
      | _ => is_literal m s
      end
  | column_alias_STATEMENT _ _ _ => is_column s
  | binary_STATEMENT o a b =>
      bool_decide (o ≠ CONCAT) && covered m a &&
      match b with
      | column_list_STATEMENT ring => negb (arithmetic o) && bool_decide (ring ≠ []) && uniform m ring
      | _ => covered m b
      end
  | unary_STATEMENT o a =>
      covered m a && match o with BOOLEAN_NOT => logical m a | _ => numeric m a end
  | function_call_STATEMENT _ (column_list_STATEMENT ring) =>
      bool_decide (ring ≠ []) && forallb (λ x, is_literal m x || is_column x) ring
  | _ => false
  end.
(** No NULL is written in the expression. *)
Fixpoint no_null_literal (m : values) (s : SqlStatement) : bool :=
  match s with
  | value_STATEMENT p u =>
      match sv_type <$> m !! p with
      | Some CALCULATED_VALUE => no_null_literal m u
      | t => bool_decide (t ≠ Some NUL_VALUE)
      end
  | binary_STATEMENT _ a b =>
      no_null_literal m a && match b with column_list_STATEMENT _ => true | _ => no_null_literal m b end
  | unary_STATEMENT _ a => no_null_literal m a
  | _ => true
  end.

(** ** The check, exactly *)
Definition fits_type (c : cell) (t : SqlValueType) : Prop := match c with Some k => kind_of t = Some k | None => True end.
Definition known (t : SqlValueType) : Prop := t = UNKNOWN_SqlValueType ∨ is_Some (kind_of t).

(** What is shown of an expression, by induction. *)
Definition checked_ok (m : values) (logging : bool) (s : SqlStatement) : Prop :=
  ∀ st, ∃ r t, populate_data_type m logging s st = Ret (r, t, st) ∧ known t ∧
    (numeric m s = true → t = NUMBER_LITERAL) ∧ (logical m s = true → t = BOOLEAN_VALUE) ∧
    if decide (r = 0) then
      (∀ nulls, ∃ c, run m nulls s = Some c ∧ fits_type c t) ∧
      (no_null_literal m s = true → ∃ k, run m (λ _, false) s = Some (Some k) ∧ kind_of t = Some k)
    else no_null_literal m s = true → run m (λ _, false) s = None.

Section exact.
Context (m : values) (logging : bool).

Lemma checked_accept s t :
  (∀ st, populate_data_type m logging s st = Ret (0, t, st)) → known t →
  (numeric m s = true → t = NUMBER_LITERAL) → (logical m s = true → t = BOOLEAN_VALUE) →
  (∀ nulls, ∃ c, run m nulls s = Some c ∧ fits_type c t) →
  (no_null_literal m s = true → ∃ k, run m (λ _, false) s = Some (Some k) ∧ kind_of t = Some k) →
  checked_ok m logging s.
Proof. intros Hp Hk Hn Hl Hr Hf st. exists 0, t. rewrite decide_True by done. by split_and!. Qed.

Lemma literal_ok s : is_literal m s = true → checked_ok m logging s.
Proof.
  destruct s; try done. cbn [is_literal]. destruct (m !! p) as [x|] eqn:E; [|done]. cbn [fmap option_fmap option_map].
  intros Hl.
  apply (checked_accept _ (if decide (sv_type x = NUL_VALUE) then UNKNOWN_SqlValueType else sv_type x));
    cbn [populate_data_type is_null_stmt no_member orb numeric logical no_null_literal run literal_cell];
    unfold value_at; rewrite ?E; cbn [mbind outcome_bind fmap option_fmap option_map];
    destruct (sv_type x); try done; try (by left); try (by right; eexists); try (intros ?; eexists; by split).
Qed.
Lemma column_ok s : is_column s = true → checked_ok m logging s.
Proof.
  destruct s as [| | | | | | | | | | | | | | | | |p [] | | | | | | | | | | |]; try done.
  cbn [is_column]. destruct ring as [|[q n t tb k] ring]; [done|]. intros Ht%bool_decide_eq_true.
  destruct (column_type t) as [t'| | |] eqn:E; [|by destruct Ht as [->|[->| ->]]..].
  apply (checked_accept _ t');
    cbn [populate_data_type is_null_stmt no_member orb numeric logical no_null_literal run column_cell];
    rewrite ?E; try done; destruct Ht as [->|[->| ->]]; injection E as <-; try done; try (by right; eexists);
    try (intros ?; case_match; by eexists); try (by eexists).
Qed.

(** Known types after [unify]: equal, or two different kinds. *)
Lemma unify_known t1 t2 : known t1 → known t2 →
  ∃ u1 u2, unify t1 t2 = (u1, u2) ∧ known u1 ∧ u2 ≠ TEMPORARY_TABLE_TYPE ∧
    ((u1 = u2 ∧ (t1 = u1 ∨ t1 = UNKNOWN_SqlValueType) ∧ (t2 = u1 ∨ t2 = UNKNOWN_SqlValueType)) ∨
     (u1 ≠ u2 ∧ t1 = u1 ∧ t2 = u2 ∧ is_Some (kind_of u1) ∧ is_Some (kind_of u2))).
Proof.
  assert (Hk : ∀ t, known t → t = UNKNOWN_SqlValueType ∨ t = NUMBER_LITERAL ∨ t = STRING_LITERAL ∨ t = DATE_TIME ∨ t = BOOLEAN_VALUE).
  { intros t [->|[k E]]; [by left|]. destruct t; cbn in E; try done; tauto. }
  intros H1 H2. pose proof (Hk _ H1) as K1. pose proof (Hk _ H2) as K2. clear Hk.
  destruct K1 as [->|[->|[->|[->| ->]]]], K2 as [->|[->|[->|[->| ->]]]]; do 2 eexists; (split; [reflexivity|]);
    (split; [first [by left|by right; eexists]|]); (split; [done|]);
    first [left; split; [done|]; split; tauto
          |right; split; [done|]; split; [done|]; split; [done|]; split; by eexists].
Qed.
Lemma kind_string t : is_Some (kind_of t) → ∃ s, get_type_string t = Ret s.
Proof. intros [k E]. destruct t; cbn in E; try done; by eexists. Qed.

(** Cells that fit types which agree, agree. *)
Lemma fits_agree c1 c2 t1 t2 u :
  fits_type c1 t1 → fits_type c2 t2 → (t1 = u ∨ t1 = UNKNOWN_SqlValueType) → (t2 = u ∨ t2 = UNKNOWN_SqlValueType) →
  agree c1 c2 = true.
Proof.
  destruct c1 as [k1|], c2 as [k2|]; cbn [fits_type agree]; try done.
  intros H1 H2 [->| ->] [->| ->]; try done. apply bool_decide_eq_true. congruence.
Qed.
Lemma operate_fits o c1 c2 t1 t2 u :
  fits_type c1 t1 → fits_type c2 t2 → (t1 = u ∨ t1 = UNKNOWN_SqlValueType) → (t2 = u ∨ t2 = UNKNOWN_SqlValueType) →
  ∃ c, operate o c1 c2 = Some c ∧ fits_type c (if arithmetic o then u else BOOLEAN_VALUE).
Proof.
  intros H1 H2 Hu1 Hu2. unfold operate. rewrite (fits_agree c1 c2 t1 t2 u) by done. eexists. split; [done|].
  destruct c1 as [k1|], c2 as [k2|]; try done. destruct Hu1 as [->| ->]; [|done]. by destruct (arithmetic o).
Qed.

Lemma binary_types_spec o u1 u2 :
  o ≠ CONCAT → binary_types o u1 u2 = (if arithmetic o then u1 else BOOLEAN_VALUE, (u1, u2)).
Proof. by destruct o. Qed.

Definition not_ring (b : SqlStatement) : Prop := ∀ ring, b ≠ column_list_STATEMENT ring.
Lemma run_binary o a b nulls : not_ring b →
  run m nulls (binary_STATEMENT o a b) = (x ← run m nulls a; y ← run m nulls b; operate o x y).
Proof. intros Hb. destruct b; try done. by destruct (Hb ring). Qed.
Lemma no_null_binary o a b : not_ring b →
  no_null_literal m (binary_STATEMENT o a b) = no_null_literal m a && no_null_literal m b.
Proof. intros Hb. destruct b; done. Qed.

Lemma populate_binary o a b st r1 t1 st1 r2 t2 st2 :
  o ≠ CONCAT → a ≠ null_STATEMENT → b ≠ null_STATEMENT →
  populate_data_type m logging a st = Ret (r1, t1, st1) → populate_data_type m logging b st1 = Ret (r2, t2, st2) →
  known t1 → known t2 →
  ∃ u1 u2, unify t1 t2 = (u1, u2) ∧
    populate_data_type m logging (binary_STATEMENT o a b) st =
      Ret (if decide (u1 = u2) then Z.lor r1 r2 else 1, if arithmetic o then u1 else BOOLEAN_VALUE, st2).
Proof.
  intros Ho Ha Hb E1 E2 K1 K2. destruct (unify_known t1 t2 K1 K2) as (u1 & u2 & Eu & _ & Htt & Hu).
  exists u1, u2. split; [done|]. cbn [populate_data_type is_null_stmt no_member orb]. rewrite E1. cbn [mbind outcome_bind].
  rewrite E2. cbn [mbind outcome_bind]. rewrite Eu, binary_types_spec by done.
  destruct Hu as [(-> & _)|(Hne & _ & _ & Hk1 & Hk2)].
  { rewrite decide_False by tauto. by rewrite decide_True. }
  rewrite decide_True by done. rewrite (decide_False (P := u1 = u2)) by done.
  destruct (kind_string u1 Hk1) as [s1 ->], (kind_string u2 Hk2) as [s2 ->].
  replace (is_null_stmt a || is_null_stmt b) with false by (by destruct a, b).
  by destruct logging.
Qed.

Lemma binary_ok o a b :
  o ≠ CONCAT → a ≠ null_STATEMENT → b ≠ null_STATEMENT → not_ring b →
  checked_ok m logging a → checked_ok m logging b → checked_ok m logging (binary_STATEMENT o a b).
Proof.
  intros Ho Ha Hb Hr IHa IHb st. destruct (IHa st) as (r1 & t1 & E1 & K1 & N1 & _ & R1).
  destruct (IHb st) as (r2 & t2 & E2 & K2 & N2 & _ & R2).
  destruct (populate_binary o a b st _ _ _ _ _ _ Ho Ha Hb E1 E2 K1 K2) as (u1 & u2 & Eu & Ep).
  destruct (unify_known t1 t2 K1 K2) as (u1' & u2' & Eu' & Ku & _ & Hu). rewrite Eu in Eu'. injection Eu' as <- <-.
  do 2 eexists. split; [exact Ep|]. split; [destruct (arithmetic o); [done|by right; eexists]|]. split.
  { cbn [numeric]. intros [[-> Hna]%andb_true_iff Hnb]%andb_true_iff. rewrite (N1 Hna), (N2 Hnb) in Eu. by injection Eu as <- _. }
  split; [cbn [logical]; intros [Hl _]%andb_true_iff; by destruct (arithmetic o)|].
  rewrite no_null_binary by done.
  destruct Hu as [(<- & Hu1 & Hu2)|(Hne & -> & -> & [k1 Hk1] & [k2 Hk2])].
  - rewrite (decide_True (P := u1 = u1)) by done. destruct (decide (Z.lor r1 r2 = 0)) as [[-> ->]%Z.lor_eq_0_iff|Hrr].
    + rewrite decide_True in R1, R2 by done. destruct R1 as [R1 F1], R2 as [R2 F2]. split.
      * intros nulls. rewrite run_binary by done. destruct (R1 nulls) as (c1 & -> & Hc1), (R2 nulls) as (c2 & -> & Hc2).
        cbn [mbind option_bind]. by apply (operate_fits o c1 c2 t1 t2).
      * intros [Hna Hnb]%andb_true_iff. rewrite run_binary by done.
        destruct (F1 Hna) as (k1 & -> & Hk1), (F2 Hnb) as (k2 & -> & Hk2). cbn [mbind option_bind].
        destruct Hu1 as [->| ->]; [|done]. destruct Hu2 as [->| ->]; [|done]. rewrite Hk1 in Hk2. injection Hk2 as <-.
        unfold operate. cbn [agree]. rewrite bool_decide_true by done. eexists. split; [done|]. by destruct (arithmetic o).
    + intros [Hna Hnb]%andb_true_iff. rewrite run_binary by done.
      destruct (decide (r1 = 0)) as [->|H1]; [|by rewrite (R1 Hna)].
      destruct (decide (r2 = 0)) as [->|H2]; [done|]. rewrite (R2 Hnb).
      by destruct (run m _ a).
  - rewrite (decide_False (P := u1 = u2)) by done. rewrite (decide_False (P := 1 = 0)) by done.
    intros [Hna Hnb]%andb_true_iff. rewrite run_binary by done.
    destruct (decide (r1 = 0)) as [->|H1]; [|by rewrite (R1 Hna)].
    destruct R1 as [_ F1]. destruct (F1 Hna) as (k1' & -> & Hk1'). cbn [mbind option_bind].
    destruct (decide (r2 = 0)) as [->|H2]; [|by rewrite (R2 Hnb)].
    destruct R2 as [_ F2]. destruct (F2 Hnb) as (k2' & -> & Hk2'). cbn [mbind option_bind].
    unfold operate. cbn [agree]. rewrite bool_decide_false; [done|]. intros ->. apply Hne.
    destruct u1, u2; cbn in *; congruence.
Qed.

Lemma unary_ok o a :
  match o with BOOLEAN_NOT => logical m a | _ => numeric m a end = true →
  checked_ok m logging a → checked_ok m logging (unary_STATEMENT o a).
Proof.
  intros Ho IH st. destruct (IH st) as (r & t & E & K & N & L & R). exists r, t.
  cbn [populate_data_type is_null_stmt no_member orb]. split; [done|]. split; [done|].
  assert (Ht : kind_of t = Some (match o with BOOLEAN_NOT => Truth | _ => Number end))
    by (destruct o; [by rewrite (N Ho)..|by rewrite (L Ho)]).
  split; [by destruct o|]. split; [by destruct o|].
  cbn [run no_null_literal]. destruct (decide (r = 0)) as [->|Hr].
  - destruct R as [R F]. split.
    + intros nulls. destruct (R nulls) as (c & -> & Hc). cbn [mbind option_bind]. eexists. split; [done|]. by destruct c.
    + intros Hn. destruct (F Hn) as (k & -> & Hk). cbn [mbind option_bind option_map]. by eexists.
  - intros Hn. by rewrite (R Hn).
Qed.

(** ** Lists *)
Lemma populate_literal x st t : is_literal m x = true → literal_type m x = t → t ≠ NUL_VALUE →
  populate_data_type m logging x st = Ret (0, t, st) ∧ ∃ k, kind_of t = Some k ∧ literal_cell m x = Some (Some k).
Proof.
  destruct x; try done. cbn [is_literal literal_type]. destruct (m !! p) as [y|] eqn:E; [|done].
  cbn [fmap option_fmap option_map default]. intros Hl <- Hn.
  cbn [populate_data_type is_null_stmt no_member orb literal_cell]. unfold value_at. rewrite E.
  cbn [mbind outcome_bind fmap option_fmap option_map]. destruct (sv_type y); try done; (split; [done|]); by eexists.
Qed.
Lemma uniform_ring ring t acc st :
  ring ≠ [] → Forall (λ x, is_literal m x = true ∧ literal_type m x = t ∧ t ≠ NUL_VALUE) ring →
  type_ring (populate_data_type m logging) ring (0, acc, st) = Ret (0, t, st) ∧
  ∃ k ks, kind_of t = Some k ∧ mapM (literal_cell m) ring = Some ks ∧ ks ≠ [] ∧ Forall (λ c, c = Some k) ks.
Proof.
  intros Hne H. revert acc. induction H as [|x ring (Hl & Ht & Hn) Hr IH]; [done|]. intros acc. cbn [type_ring].
  destruct (populate_literal x st t Hl Ht Hn) as [-> (k & Hk & Hx)]. cbn [mbind outcome_bind]. change (Z.lor 0 0) with 0.
  destruct ring as [|y ring].
  { split; [done|]. exists k, [Some k]. split; [done|]. split; [cbn [mapM]; by rewrite Hx|]. split; [done|by repeat constructor]. }
  destruct (IH ltac:(done) t) as [-> (k' & ks & Hk' & Hks & Hnks & Hall)]. split; [done|].
  rewrite Hk in Hk'. injection Hk' as <-. exists k, (Some k :: ks). split; [done|].
  split; [cbn [mapM]; rewrite Hx; cbn [mbind option_bind]; cbn [mapM] in Hks; by rewrite Hks|]. split; [done|by constructor].
Qed.
Lemma uniform_Forall ring : uniform m ring = true → ring ≠ [] →
  ∃ t, Forall (λ x, is_literal m x = true ∧ literal_type m x = t ∧ t ≠ NUL_VALUE) ring.
Proof.
  unfold uniform. intros Hu Hne. exists (literal_type m (List.last ring null_STATEMENT)).
  revert Hu. apply forallb_Forall. intros x Hx.
  rewrite !andb_true_iff, !bool_decide_eq_true in Hx. destruct Hx as [[Hl Ht] Hn]. rewrite <- Ht. done.
Qed.

Lemma in_list_ok o a ring :
  o ≠ CONCAT → arithmetic o = false → a ≠ null_STATEMENT → ring ≠ [] → uniform m ring = true →
  checked_ok m logging a → checked_ok m logging (binary_STATEMENT o a (column_list_STATEMENT ring)).
Proof.
  intros Ho Har Ha Hne Hu IH st. destruct (IH st) as (r1 & t1 & E1 & K1 & _ & _ & R1).
  destruct (uniform_Forall ring Hu Hne) as [t2 Hall].
  destruct (uniform_ring ring t2 UNKNOWN_SqlValueType st Hne Hall) as [E2 (k2 & ks & Hk2 & Hks & Hnks & Hkall)].
  assert (E2' : populate_data_type m logging (column_list_STATEMENT ring) st = Ret (0, t2, st)) by (by destruct ring).
  assert (K2 : known t2) by (by right; eexists).
  destruct (populate_binary o a (column_list_STATEMENT ring) st _ _ _ _ _ _ Ho Ha ltac:(done) E1 E2' K1 K2) as (u1 & u2 & Eu & Ep).
  destruct (unify_known t1 t2 K1 K2) as (u1' & u2' & Eu' & _ & _ & Hunify). rewrite Eu in Eu'. injection Eu' as <- <-.
  rewrite Har in Ep. do 2 eexists. split; [exact Ep|]. split; [by right; eexists|].
  split; [cbn [numeric]; by rewrite Har|]. split; [done|]. cbn [no_null_literal run]. rewrite andb_true_r, Hks.
  assert (Hag : ∀ c, (fits_type c t1 ∧ (t1 = t2 ∨ t1 = UNKNOWN_SqlValueType)) → forallb (agree c) ks = true).
  { intros c [Hc Ht]. revert Hkall. apply Forall_forallb. intros ? ->.
    by apply (fits_agree c (Some k2) t1 t2 t2); [|done| |left]. }
  destruct Hunify as [(<- & Hu1 & Hu2)|(Hne12 & -> & -> & [k1 Hk1] & _)].
  - assert (Hu12 : t1 = t2 ∨ t1 = UNKNOWN_SqlValueType)
      by (destruct Hu1 as [->| ->]; [|by right]; destruct Hu2 as [->| ->]; [by left|done]).
    rewrite (decide_True (P := u1 = u1)), Z.lor_0_r by done. destruct (decide (r1 = 0)) as [->|Hr].
    + destruct R1 as [R1 F1]. split.
      * intros nulls. destruct (R1 nulls) as (c & -> & Hc). cbn [mbind option_bind]. rewrite Hag by done.
        eexists. split; [done|]. by destruct (bool_decide (c = None)).
      * intros Hn. destruct (F1 Hn) as (k & -> & Hk). cbn [mbind option_bind]. rewrite Hag by done.
        rewrite bool_decide_false by done. by eexists.
    + intros Hn. by rewrite (R1 Hn).
  - rewrite (decide_False (P := u1 = u2)) by done. rewrite (decide_False (P := 1 = 0)) by done. intros Hn.
    destruct (decide (r1 = 0)) as [->|Hr]; [|by rewrite (R1 Hn)].
    destruct R1 as [_ F1]. destruct (F1 Hn) as (k & -> & Hk). cbn [mbind option_bind].
    destruct ks as [|c ks]; [done|]. apply Forall_cons_1 in Hkall as [-> _]. cbn [forallb agree].
    rewrite bool_decide_false; [done|]. intros ->. apply Hne12. destruct u1, u2; cbn in *; congruence.
Qed.

Lemma arguments_ok ring acc :
  forallb (λ x, is_literal m x || is_column x) ring = true →
  (∃ r t, type_ring (populate_data_type m logging) ring acc = Ret (r, t, acc.2)) ∧
  ∀ nulls, ∃ cs, mapM (simple_cell m nulls) ring = Some cs.
Proof.
  intros Hr. apply (forallb_Forall _ _ _ (λ x Hx, Hx)) in Hr. revert acc. induction Hr as [|x ring Hx Hr IH]; intros [[r0 t0] st0].
  { split; [by do 2 eexists|]. intros nulls. by eexists. }
  assert (Hok : checked_ok m logging x)
    by (apply orb_true_iff in Hx as [Hx|Hx]; [by apply literal_ok|by apply column_ok]).
  split.
  - destruct (Hok st0) as (r & t & E & _). cbn [type_ring]. rewrite E. cbn [mbind outcome_bind].
    destruct (IH (Z.lor r0 r, t, st0)) as [(r' & t' & ->) _]. by do 2 eexists.
  - intros nulls. destruct (IH (r0, t0, st0)) as [_ Hcs]. destruct (Hcs nulls) as [cs Hcs'].
    assert (∃ c, simple_cell m nulls x = Some c) as [c Hc].
    { apply orb_true_iff in Hx as [Hx|Hx].
      - destruct x; try done. cbn [simple_cell literal_cell is_literal] in *.
        destruct (sv_type <$> m !! p) as [t|]; [|done]. destruct t; try done; by eexists.
      - destruct x as [| | | | | | | | | | | | | | | | |p [] | | | | | | | | | | |]; try done.
        cbn [is_column simple_cell column_cell] in *. destruct ring0 as [|[q n t tb k] ring0]; [done|].
        apply bool_decide_eq_true in Hx. destruct Hx as [->|[->| ->]]; cbn; case_match; by eexists. }
    exists (c :: cs). cbn [mapM]. rewrite Hc. cbn [mbind option_bind]. cbn [mapM] in Hcs'. by rewrite Hcs'.
Qed.

Lemma call_ok f ring :
  ring ≠ [] → forallb (λ x, is_literal m x || is_column x) ring = true →
  checked_ok m logging (function_call_STATEMENT f (column_list_STATEMENT ring)).
Proof.
  intros Hne Hr. apply (checked_accept _ STRING_LITERAL); try done.
  - intros st. destruct (arguments_ok ring (0, UNKNOWN_SqlValueType, st) Hr) as [(r & t & E) _].
    cbn [populate_data_type is_null_stmt no_member orb]. destruct ring as [|x ring]; [done|].
    cbn [is_null_stmt no_member orb]. by rewrite E.
  - by right; eexists.
  - intros nulls. destruct (arguments_ok ring (0, UNKNOWN_SqlValueType, {| ty_replaced := ∅; ty_aliases := ∅ |}) Hr) as [_ Hcs].
    destruct (Hcs nulls) as [cs E]. cbn [run]. rewrite E. by eexists.
  - intros _. destruct (arguments_ok ring (0, UNKNOWN_SqlValueType, {| ty_replaced := ∅; ty_aliases := ∅ |}) Hr) as [_ Hcs].
    destruct (Hcs (λ _, false)) as [cs E]. cbn [run]. rewrite E. by eexists.
Qed.

Lemma covered_ok s : covered m s = true → checked_ok m logging s.
Proof.
  induction s as [s IH] using statement_ind. intros Hc.
  destruct s as [| | | | |p u|f ps|o a b|o a| | | | | | | | |p c t| | | | | | | | | | |]; try done.
  - cbn [covered] in Hc. destruct (m !! p) as [x|] eqn:E; [|cbn in Hc; by rewrite E in Hc].
    cbn [fmap option_fmap option_map] in Hc. destruct (decide (sv_type x = CALCULATED_VALUE)) as [Ht|Ht].
    + rewrite Ht in Hc. apply Forall_cons_1 in IH as [IH _]. intros st. destruct (IH Hc st) as (r & t & Ep & H').
      exists r, t. cbn [populate_data_type is_null_stmt no_member orb numeric logical no_null_literal run].
      unfold value_at. rewrite E. cbn [mbind outcome_bind fmap option_fmap option_map]. rewrite Ht. by split.
    + apply literal_ok. destruct (sv_type x) eqn:Et; first [exact Hc|done].
  - destruct ps; try done. cbn [covered] in Hc. apply andb_true_iff in Hc as [Hne Hr].
    apply call_ok; [by apply bool_decide_eq_true in Hne|done].
  - apply Forall_cons_1 in IH as [IHa IH]. apply Forall_cons_1 in IH as [IHb _].
    cbn [covered] in Hc. apply andb_true_iff in Hc as [[Ho%bool_decide_eq_true Ha]%andb_true_iff Hb].
    assert (Hna : a ≠ null_STATEMENT) by (by intros ->).
    assert (Hdec : (∃ ring, b = column_list_STATEMENT ring) ∨ not_ring b) by (destruct b; first [right; by intros ?|left; by eexists]).
    destruct Hdec as [[ring ->]|Hnr].
    + rewrite !andb_true_iff, bool_decide_eq_true, negb_true_iff in Hb. destruct Hb as [[Har Hne] Hu].
      exact (in_list_ok o a ring Ho Har Hna Hne Hu (IHa Ha)).
    + assert (Hcb : covered m b = true) by (destruct b; try done; by destruct (Hnr ring)).
      apply binary_ok; [done|done|by intros ->|done|by apply IHa|by apply IHb].
  - apply Forall_cons_1 in IH as [IHa _]. cbn [covered] in Hc. apply andb_true_iff in Hc as [Ha Ho].
    exact (unary_ok o a Ho (IHa Ha)).
  - by apply column_ok.
Qed.
End exact.

(** C26: On the expressions it covers the type check is exact.  It always answers; an
    expression it accepts, with the type it found, has a value of that type (or NULL) in
    every row and never brings values of different kinds together; one it refuses, when
    no NULL is written in it, does so in every row without NULLs. *)
Theorem type_check_exact m logging s st :
  covered m s = true →
  ∃ r t, populate_data_type m logging s st = Ret (r, t, st) ∧
    (r = 0 → ∀ nulls, ∃ c, run m nulls s = Some c ∧ fits_type c t) ∧
    (r ≠ 0 → no_null_literal m s = true → run m (λ _, false) s = None).
Proof.
  intros Hc. destruct (covered_ok m logging s Hc st) as (r & t & E & _ & _ & _ & R). exists r, t.
  split; [done|]. destruct (decide (r = 0)) as [->|Hr]; (split; [|try done]); [|done]. intros _. apply R.
Qed.

Definition sample_types : values :=
  list_to_map
    [(1, {| sv_type := NUMBER_LITERAL; sv_coerced_type := UNKNOWN_SqlValueType; sv_data_type := UNKNOWN_SqlDataType; sv_literal := lit "5" |});
     (2, {| sv_type := STRING_LITERAL; sv_coerced_type := UNKNOWN_SqlValueType; sv_data_type := UNKNOWN_SqlDataType; sv_literal := lit "x" |});
     (3, {| sv_type := COERCE_TYPE; sv_coerced_type := NUMBER_LITERAL; sv_data_type := UNKNOWN_SqlDataType; sv_literal := [] |})].
Definition number : SqlStatement := value_STATEMENT 1 null_STATEMENT.
Definition text : SqlStatement := value_STATEMENT 2 null_STATEMENT.
Definition name_column : SqlStatement :=
  column_alias_STATEMENT 10 (column_STATEMENT [Column 11 text CHARACTER_STRING_TYPE null_STATEMENT null_STATEMENT]) null_STATEMENT.
Definition sample_condition : SqlStatement :=
  binary_STATEMENT BOOLEAN_AND
    (binary_STATEMENT BOOLEAN_EQUALS name_column text)
    (unary_STATEMENT BOOLEAN_NOT (binary_STATEMENT BOOLEAN_IN number (column_list_STATEMENT [number; number]))).
Definition no_types : types := {| ty_replaced := ∅; ty_aliases := ∅ |}.
Lemma type_check_exact_witness :
  ∃ r t, populate_data_type sample_types true sample_condition no_types = Ret (r, t, no_types) ∧
    (r = 0 → ∀ nulls, ∃ c, run sample_types nulls sample_condition = Some c ∧ fits_type c t) ∧
    (r ≠ 0 → no_null_literal sample_types sample_condition = true → run sample_types (λ _, false) sample_condition = None).
Proof. apply (type_check_exact sample_types true sample_condition no_types). vm_compute. reflexivity. Defined.

(** ** What it does not cover *)
Lemma accepted_concat m logging a b st r1 t1 st1 r2 t2 st2 :
  populate_data_type m logging a st = Ret (r1, t1, st1) → populate_data_type m logging b st1 = Ret (r2, t2, st2) →
  populate_data_type m logging (binary_STATEMENT CONCAT a b) st = Ret (Z.lor r1 r2, NUMBER_LITERAL, st2).
Proof.
  intros E1 E2. cbn [populate_data_type is_null_stmt no_member orb]. rewrite E1. cbn [mbind outcome_bind].
  rewrite E2. cbn [mbind outcome_bind]. destruct (unify t1 t2) as [u1 u2]. cbn [binary_types].
  rewrite decide_False; [done|]. by intros [? _].
Qed.
Lemma type_ring_last m logging ring x acc r t st1 r' t' st' :
  type_ring (populate_data_type m logging) ring acc = Ret (r, t, st1) →
  populate_data_type m logging x st1 = Ret (r', t', st') →
  type_ring (populate_data_type m logging) (ring ++ [x]) acc = Ret (Z.lor r r', t', st').
Proof.
  intros Hr Hx. revert acc Hr. induction ring as [|z ring IH]; intros [[r0 t0] st0] Hr.
  - injection Hr as <- <- <-. cbn [app type_ring]. rewrite Hx. done.
  - cbn [app type_ring] in Hr |- *. destruct (populate_data_type m logging z st0) as [[[rz tz] stz]| | |]; try done.
    cbn [mbind outcome_bind] in Hr |- *. by apply IH.
Qed.

(** Where the check and the values part.  The type of [a || b] is always NUMBER,
    whatever [a] and [b] are, because an enumerator of the wrong enumeration is stored;
    of a list only the last element's type counts; the parameters of a function call
    never cause a refusal; the ELSE of a CASE is not looked at; and a cast counts once,
    after which the expression has the type it had without it. *)
Theorem type_check_holes m logging st :
  (∀ a b r1 t1 st1 r2 t2 st2,
     populate_data_type m logging a st = Ret (r1, t1, st1) → populate_data_type m logging b st1 = Ret (r2, t2, st2) →
     populate_data_type m logging (binary_STATEMENT CONCAT a b) st = Ret (Z.lor r1 r2, NUMBER_LITERAL, st2)) ∧
  (∀ ring x r t st1 r' t' st', ring ≠ [] →
     populate_data_type m logging (column_list_STATEMENT ring) st = Ret (r, t, st1) →
     populate_data_type m logging x st1 = Ret (r', t', st') →
     populate_data_type m logging (column_list_STATEMENT (ring ++ [x])) st = Ret (Z.lor r r', t', st')) ∧
  (∀ f ps r t st1, populate_data_type m logging ps st = Ret (r, t, st1) →
     populate_data_type m logging (function_call_STATEMENT f ps) st = Ret (0, STRING_LITERAL, st1)) ∧
  (∀ v b e e', populate_data_type m logging (cas_STATEMENT v b e) st = populate_data_type m logging (cas_STATEMENT v b e') st) ∧
  (∀ p u value r t st1 r' t' st2, m !! p = Some value → sv_type value = COERCE_TYPE → p ∉ ty_replaced st → u ≠ null_STATEMENT →
     populate_data_type m logging u st = Ret (r, t, st1) →
     populate_data_type m logging u (replace_cast p st1) = Ret (r', t', st2) →
     populate_data_type m logging (value_STATEMENT p u) st = Ret (r, sv_coerced_type value, replace_cast p st1) ∧
     populate_data_type m logging (value_STATEMENT p u) (replace_cast p st1) = Ret (r', t', st2)).
Proof.
  split_and!.
  - intros *. apply accepted_concat.
  - intros ring x r t st1 r' t' st' Hne Hr Hx.
    assert (Hr' : type_ring (populate_data_type m logging) ring (0, UNKNOWN_SqlValueType, st) = Ret (r, t, st1)) by (by destruct ring).
    rewrite <- (type_ring_last m logging ring x _ _ _ _ _ _ _ Hr' Hx). by destruct ring.
  - intros f ps r t st1 E. cbn [populate_data_type is_null_stmt no_member orb]. by rewrite E.
  - done.
  - intros p u value r t st1 r' t' st2 Em Ec Hp Hu E E'.
    cbn [populate_data_type is_null_stmt no_member orb]. unfold value_at. rewrite Em. cbn [mbind outcome_bind]. rewrite Ec.
    split.
    + rewrite decide_False by done. rewrite E. cbn [mbind outcome_bind]. by destruct u.
    + rewrite decide_True; [done|]. cbn [ty_replaced replace_cast]. apply elem_of_union. left. by apply elem_of_singleton.
Qed.
