(* ===== verification/Optimize.v ===== *)
(** * The plan optimiser

    [optimization_transforms/optimize_logical_plan.c] and what it calls:
    [join_tables] gives a plan the keys of the tables it reads, the normal form of the
    condition is split into one plan per disjunct, and
    [lp_optimize_where_multi_equals_ands.c] fixes the keys that the conditions determine,
    through a generated cross reference where a column is not a key.

    The functions write into the plan they are given; here they return it.  What plans
    point to is in a state of its own ([planner]): the keys, values, column aliases,
    table aliases and keyword lists by address, the next free address and the counter of
    identifiers that the plans of a query share.  Tables and their columns do not change
    ([catalog]).  A copy of a statement has new addresses and the same contents; the
    addresses of what it contains are not kept apart. *)
From stdpp Require Import gmap strings.
From S2P Require Import Prelude CMem LogicalPlan Dnf SqlStatement.

(** Tables and columns by address, and the columns of a table by its [columns] pointer. *)
Record catalog := {
  cat_tables : gmap ptr SqlStatement;
  cat_columns : gmap ptr SqlColumn;
  cat_rings : gmap ptr (list SqlColumn);
}.
Record planner := {
  pl_counter : Z;
  pl_next : ptr;
  pl_keys : key_store;
  pl_values : values;
  pl_keywords : gmap ptr (list OptionalKeyword);
  pl_column_aliases : gmap ptr (SqlStatement * SqlStatement);   (* [column], [table_alias] *)
  pl_table_aliases : gmap ptr SqlStatement;                     (* the alias as a statement *)
  pl_items : gmap ptr (SqlStatement * SqlValueType);            (* [SqlColumnListAlias]es of plans: [alias], [type] *)
}.

(** ** State passing *)
Definition P (A : Type) : Type := planner → outcome (A * planner).
#[export] Instance P_ret : MRet P := λ A x s, Ret (x, s).
#[export] Instance P_bind : MBind P := λ A B f x s, '(a, s) ← x s; f a s.
Definition lift {A} (o : outcome A) : P A := λ s, a ← o; Ret (a, s).
Definition gets {A} (f : planner → A) : P A := λ s, Ret (f s, s).
Definition found {A} (o : option A) : outcome A :=
  match o with Some x => Ret x | None => Undef NullPointer end.

Definition with_keys (f : key_store → key_store) (s : planner) : planner :=
  {| pl_counter := pl_counter s; pl_next := pl_next s; pl_keys := f (pl_keys s); pl_values := pl_values s;
     pl_keywords := pl_keywords s; pl_column_aliases := pl_column_aliases s; pl_table_aliases := pl_table_aliases s; pl_items := pl_items s |}.
Definition with_values (f : values → values) (s : planner) : planner :=
  {| pl_counter := pl_counter s; pl_next := pl_next s; pl_keys := pl_keys s; pl_values := f (pl_values s);
     pl_keywords := pl_keywords s; pl_column_aliases := pl_column_aliases s; pl_table_aliases := pl_table_aliases s; pl_items := pl_items s |}.
Definition with_keywords (f : gmap ptr (list OptionalKeyword) → gmap ptr (list OptionalKeyword)) (s : planner) : planner :=
  {| pl_counter := pl_counter s; pl_next := pl_next s; pl_keys := pl_keys s; pl_values := pl_values s;
     pl_keywords := f (pl_keywords s); pl_column_aliases := pl_column_aliases s; pl_table_aliases := pl_table_aliases s; pl_items := pl_items s |}.
Definition with_column_aliases (f : gmap ptr (SqlStatement * SqlStatement) → gmap ptr (SqlStatement * SqlStatement))
    (s : planner) : planner :=
  {| pl_counter := pl_counter s; pl_next := pl_next s; pl_keys := pl_keys s; pl_values := pl_values s;
     pl_keywords := pl_keywords s; pl_column_aliases := f (pl_column_aliases s); pl_table_aliases := pl_table_aliases s; pl_items := pl_items s |}.
Definition with_table_aliases (f : gmap ptr SqlStatement → gmap ptr SqlStatement) (s : planner) : planner :=
  {| pl_counter := pl_counter s; pl_next := pl_next s; pl_keys := pl_keys s; pl_values := pl_values s;
     pl_keywords := pl_keywords s; pl_column_aliases := pl_column_aliases s; pl_table_aliases := f (pl_table_aliases s); pl_items := pl_items s |}.
Definition with_items (f : gmap ptr (SqlStatement * SqlValueType) → gmap ptr (SqlStatement * SqlValueType)) (s : planner) : planner :=
  {| pl_counter := pl_counter s; pl_next := pl_next s; pl_keys := pl_keys s; pl_values := pl_values s;
     pl_keywords := pl_keywords s; pl_column_aliases := pl_column_aliases s; pl_table_aliases := pl_table_aliases s;
     pl_items := f (pl_items s) |}.
Definition put (f : planner → planner) : P () := λ s, Ret ((), f s).
(** [octo_cmalloc]: an address nothing has yet. *)
Definition fresh : P ptr := λ s,
  Ret (pl_next s, {| pl_counter := pl_counter s; pl_next := pl_next s + 1; pl_keys := pl_keys s;
     pl_values := pl_values s; pl_keywords := pl_keywords s; pl_column_aliases := pl_column_aliases s;
     pl_table_aliases := pl_table_aliases s; pl_items := pl_items s |}).
Definition get_plan_unique_number : P Z := λ s,
  Ret (pl_counter s, {| pl_counter := s32 (pl_counter s + 1); pl_next := pl_next s; pl_keys := pl_keys s;
     pl_values := pl_values s; pl_keywords := pl_keywords s; pl_column_aliases := pl_column_aliases s;
     pl_table_aliases := pl_table_aliases s; pl_items := pl_items s |}).

(** ** Copies *)
Definition new_key (k : SqlKey) : P ptr := p ← fresh; _ ← put (with_keys (<[p := k]>)); mret p.
Definition key_at (p : ptr) : P SqlKey := ks ← gets pl_keys; lift (found (ks !! p)).
(** [lp_copy_key] *)
Definition lp_copy_key (p : ptr) : P ptr := k ← key_at p; new_key k.
(** [copy_sql_statement] of a value: the type a value is coerced to is not copied; a cast
    has a statement where the string would be. *)
Definition copied_value (v : SqlValue) : outcome SqlValue :=
  match sv_type v with
  | COERCE_TYPE => Undef WrongMember
  | t => Ret {| sv_type := t; sv_coerced_type := UNKNOWN_SqlValueType; sv_data_type := sv_data_type v;
                sv_literal := match t with NUL_VALUE => [] | _ => sv_literal v end |}
  end.
Definition copy_value (p : ptr) : P ptr :=
  m ← gets pl_values;
  v ← lift (value_at m p);
  v ← lift (copied_value v);
  q ← fresh;
  _ ← put (with_values (<[q := v]>));
  mret q.
Definition copy_column_alias (p : ptr) : P ptr :=
  cs ← gets pl_column_aliases;
  c ← lift (found (cs !! p));
  q ← fresh;
  _ ← put (with_column_aliases (<[q := c]>));
  mret q.
Definition copy_keywords (p : ptr) : P ptr :=
  ks ← gets pl_keywords;
  k ← lift (found (ks !! p));
  q ← fresh;
  _ ← put (with_keywords (<[q := k]>));
  mret q.

(** The one element a plan refers to; a struct that is not one of [pl_items] stays unknown. *)
Definition copy_item (p : ptr) : P ptr :=
  q ← fresh;
  _ ← put (with_items (λ items, match items !! p with Some c => <[q := c]> items | None => items end));
  mret q.

Definition copy_leaf (t : LPActionType) (v : leaf) : P leaf :=
  match t, v with
  | LP_KEY, VKey p => q ← lp_copy_key p; mret (VKey q)
  | LP_VALUE, VValue p => q ← copy_value p; mret (VValue q)
  | LP_TABLE, _ | LP_PIECE_NUMBER, _ => mret v
  | LP_COLUMN_ALIAS, VColumnAlias p => q ← copy_column_alias p; mret (VColumnAlias q)
  | LP_COLUMN_LIST_ALIAS, VColumnListAlias p => q ← copy_item p; mret (VColumnListAlias q)
  | LP_KEYWORDS, VKeywords p => q ← copy_keywords p; mret (VKeywords q)
  | _, _ => lift (Undef WrongMember)
  end.
(** A node of one of the leaf types whose union was never set has a NULL there. *)
Definition leaf_type (t : LPActionType) : bool :=
  match t with
  | LP_KEY | LP_VALUE | LP_COLUMN_ALIAS | LP_COLUMN_LIST_ALIAS | LP_KEYWORDS => true
  | _ => false
  end.
Fixpoint lp_copy_plan (plan : LogicalPlan) : P LogicalPlan :=
  match plan with
  | NULL => mret NULL
  | Leaf t v => v ← copy_leaf t v; mret (Leaf t v)
  | Op t a b =>
      if leaf_type t then lift (Undef NullPointer)
      else if bool_decide (t = LP_TABLE ∨ t = LP_PIECE_NUMBER) then mret plan
      else
        a ← lp_copy_plan a;
        b ← lp_copy_plan b;
        mret (Op t a b)
  end.

(** ** Reading statements *)
(** [UNPACK_SQL_STATEMENT] *)
Definition unpack_table_alias (s : SqlStatement) : outcome (SqlStatement * SqlStatement * Z) :=
  match s with
  | table_alias_STATEMENT _ table alias unique_id _ => Ret (table, alias, unique_id)
  | null_STATEMENT => Undef NullPointer
  | _ => Halt AssertFailed
  end.
(** The table's address, its name and its columns. *)
Definition unpack_table (s : SqlStatement) : outcome (ptr * SqlStatement * ptr) :=
  match s with
  | table_STATEMENT p tableName _ columns _ => Ret (p, tableName, columns)
  | null_STATEMENT => Undef NullPointer
  | _ => Halt AssertFailed
  end.
Definition is_table (s : SqlStatement) : outcome bool :=
  match s with
  | table_STATEMENT _ _ _ _ _ => Ret true
  | null_STATEMENT => Undef NullPointer
  | _ => Ret false
  end.
Definition is_column_stmt (s : SqlStatement) : outcome bool :=
  match s with
  | column_STATEMENT _ => Ret true
  | null_STATEMENT => Undef NullPointer
  | _ => Ret false
  end.
Definition unpack_column (s : SqlStatement) : outcome SqlColumn :=
  match s with
  | column_STATEMENT (c :: _) => Ret c
  | null_STATEMENT | column_STATEMENT [] => Undef NullPointer
  | _ => Halt AssertFailed
  end.
Definition column_address (c : SqlColumn) : ptr := match c with Column p _ _ _ _ => p end.
Definition column_name (c : SqlColumn) : SqlStatement := match c with Column _ n _ _ _ => n end.
(** The string of a value statement. *)
Definition name_of (m : values) (s : SqlStatement) : outcome (list byte) :=
  match s with
  | value_STATEMENT p _ => v ← value_at m p; Ret (sv_literal v)
  | null_STATEMENT => Undef NullPointer
  | _ => Halt AssertFailed
  end.
(** The name a column alias is looked for by. *)
Definition search_column_name (m : values) (column : SqlStatement) : outcome (list byte) :=
  match column with
  | column_STATEMENT _ => c ← unpack_column column; name_of m (column_name c)
  | column_list_alias_STATEMENT (ColumnListAlias _ _ alias _ _ :: _) => name_of m alias
  | null_STATEMENT | column_list_alias_STATEMENT [] => Undef NullPointer
  | _ => Halt AssertFailed
  end.
Definition column_alias_of (p : LogicalPlan) : outcome ptr :=
  match p with Leaf _ (VColumnAlias a) => Ret a | NULL => Undef NullPointer | _ => Undef WrongMember end.
Definition unpack_column_alias (p : LogicalPlan) : P (SqlStatement * SqlStatement) :=
  a ← lift (column_alias_of p);
  cs ← gets pl_column_aliases;
  lift (found (cs !! a)).

Fixpoint get_keyword_from_keywords (ring : list SqlOptionalKeyword) (keyword : OptionalKeyword)
    : option SqlStatement :=
  match ring with
  | [] => None
  | Keyword w v :: ring' => if decide (w = keyword) then Some v else get_keyword_from_keywords ring' keyword
  end.
Definition get_keyword (c : SqlColumn) (keyword : OptionalKeyword) : outcome (option SqlStatement) :=
  match c with
  | Column _ _ _ _ (keyword_STATEMENT []) | Column _ _ _ _ null_STATEMENT => Undef NullPointer
  | Column _ _ _ _ (keyword_STATEMENT ring) => Ret (get_keyword_from_keywords ring keyword)
  | _ => Halt AssertFailed
  end.

(** [atoi]: blanks, a sign, digits; [strtol] saturates and the result is cut to [int]. *)
Definition is_blank (c : byte) : bool := bool_decide (b2z c = 32) || ((9 <=? b2z c) && (b2z c <=? 13)).
Fixpoint skip_blanks (s : list byte) : list byte :=
  match s with c :: s' => if is_blank c then skip_blanks s' else s | [] => [] end.
Fixpoint leading_digits (s : list byte) (acc : Z) : Z :=
  match s with
  | c :: s' => if (48 <=? b2z c) && (b2z c <=? 57) then leading_digits s' (10 * acc + (b2z c - 48)) else acc
  | [] => acc
  end.
Definition atoi (s : list byte) : Z :=
  match skip_blanks s with
  | c :: s' =>
      if decide (c = chr "-") then s32 (Z.max (- 2 ^ 63) (- leading_digits s' 0))
      else if decide (c = chr "+") then s32 (Z.min (2 ^ 63 - 1) (leading_digits s' 0))
      else s32 (Z.min (2 ^ 63 - 1) (leading_digits (c :: s') 0))
  | [] => 0
  end.

Section optimise.
Context (cat : catalog).

(** ** Keys of tables *)
Definition MAX_KEY_COUNT : Z := 255.
(** [key_columns] is the array, by index.  A number given twice ends the scan with 1. *)
Fixpoint scan_key_columns (m : values) (ring : list SqlColumn) (max_key : Z) (key_columns : gmap Z ptr)
    : outcome (Z * gmap Z ptr) :=
  match ring with
  | [] => Ret (max_key, key_columns)
  | c :: ring' =>
      let numbered max_key key_columns :=
        num ← get_keyword c OPTIONAL_KEY_NUM;
        '(again, max_key, key_columns) ←
          match num with
          | None => Ret (false, max_key, key_columns)
          | Some v =>
              text ← name_of m v;
              let key_num := atoi text in
              if (key_num <? 0) || (MAX_KEY_COUNT <=? key_num) then Undef OutOfBounds
              else if decide (is_Some (key_columns !! key_num)) then Ret (true, max_key, key_columns)
              else Ret (false, Z.max max_key key_num, <[key_num := column_address c]> key_columns)
          end;
        if again : bool then Ret (1, key_columns)
        else
          _ ← c_assert (max_key <? MAX_KEY_COUNT);
          scan_key_columns m ring' max_key key_columns in
      primary ← get_keyword c PRIMARY_KEY;
      match primary with
      | None => numbered max_key key_columns
      | Some _ =>
          if decide (is_Some (key_columns !! 0)) then Ret (1, key_columns)
          else numbered 0 (<[0 := column_address c]> key_columns)
      end
  end.
Definition get_key_columns (columns : ptr) : P (Z * gmap Z ptr) :=
  m ← gets pl_values;
  ring ← lift (found (cat_rings cat !! columns));
  lift (match ring with [] => Undef NullPointer | _ => scan_key_columns m ring (-1) ∅ end).

(** A key as [memset] leaves it, with the members given. *)
Definition make_key (table column : ptr) (key_num unique_id : Z) (type : LPActionType) (owner : LogicalPlan)
    (is_cross_reference_key : bool) (output_key : ptr) : SqlKey :=
  {| k_table := table; k_column := column; k_key_num := key_num; k_unique_id := unique_id; k_value := NULL;
     k_insert := null; k_type := type; k_owner := owner; k_is_cross_reference_key := is_cross_reference_key;
     k_cross_reference_output_key := output_key; k_cross_reference_column_alias := null;
     k_cross_reference_filename := null |}.
(** [for(cur_key = 0; cur_key <= max_key; cur_key++)]: a LP_KEY for each. *)
Fixpoint table_keys (n : nat) (cur_key : Z) (key : Z → SqlKey) : P (list LogicalPlan) :=
  match n with
  | O => mret []
  | S n' =>
      p ← new_key (key cur_key);
      rest ← table_keys n' (cur_key + 1) key;
      mret (Leaf LP_KEY (VKey p) :: rest)
  end.
Definition key_column (key_columns : gmap Z ptr) (n : Z) : ptr := default null (key_columns !! n).
(** The chain of LP_KEYS that holds them; one empty node when there are none. *)
Fixpoint key_list (keys : list LogicalPlan) : LogicalPlan :=
  match keys with
  | [] => Op LP_KEYS NULL NULL
  | [k] => Op LP_KEYS k NULL
  | k :: keys' => Op LP_KEYS k (key_list keys')
  end.
(** Drill down to the bottom, start on a fresh node if that one is used, and fill. *)
Fixpoint fill_keys (keys : LogicalPlan) (new : list LogicalPlan) : outcome LogicalPlan :=
  match keys with
  | NULL => Undef NullPointer
  | Leaf _ _ => Undef WrongMember
  | Op t k NULL =>
      if is_null k then
        match key_list new with Op _ k' rest => Ret (Op t k' rest) | _ => Undef WrongMember end
      else Ret (Op t k (key_list new))
  | Op t k rest =>
      rt ← lp_type rest;
      _ ← c_assert (bool_decide (rt = LP_KEYS));
      rest ← fill_keys rest new;
      Ret (Op t k rest)
  end.

(** ** Looking for a column among the keys *)
(** What a column alias is looked for by: identifier, table name, column name.  Only
    [lp_get_key_index] takes a derived table, by its alias. *)
Definition search_terms (derived : bool) (lp_column_alias : LogicalPlan) : P (Z * list byte * list byte) :=
  '(column, table_alias) ← unpack_column_alias lp_column_alias;
  '(table, alias, search_id) ← lift (unpack_table_alias table_alias);
  m ← gets pl_values;
  base ← lift (is_table table);
  search_table_name ←
    (if base || negb derived then
       '(_, tableName, _) ← lift (unpack_table table);
       lift (name_of m tableName)
     else
       _ ← lift (match table with select_STATEMENT _ _ _ _ _ _ => Ret () | _ => Halt AssertFailed end);
       lift (name_of m alias));
  search_name ← lift (search_column_name m column);
  mret (search_id, search_table_name, search_name).
(** Whether a key of the right identifier is the one looked for. *)
Definition key_matches (key : SqlKey) (table_name name : list byte) : P bool :=
  m ← gets pl_values;
  table ← lift (found (cat_tables cat !! k_table key));
  '(_, tableName, _) ← lift (unpack_table table);
  key_table_name ← lift (name_of m tableName);
  if negb (bool_decide (table_name = key_table_name)) then mret false
  else
    column ← lift (found (cat_columns cat !! k_column key));
    key_column_name ← lift (name_of m (column_name column));
    mret (bool_decide (name = key_column_name)).
(** The LP_KEY of a node of the chain. *)
Definition chain_key (cur_key : LogicalPlan) : P (ptr * SqlKey) :=
  lp_key_ ← lift (get_lp cur_key false LP_KEY);
  p ← lift (lp_key lp_key_);
  k ← key_at p;
  mret (p, k).

Fixpoint find_key (cur_key : LogicalPlan) (search_id : Z) (table_name name : list byte) : P (option ptr) :=
  match cur_key with
  | NULL => lift (Undef NullPointer)
  | Leaf _ _ => lift (Undef WrongMember)
  | Op _ _ rest =>
      '(p, key) ← chain_key cur_key;
      hit ←
        (if negb (k_unique_id key =? search_id) then mret false
         else if k_table key =? null then
           _ ← lift (c_assert (k_column key =? null)); mret false
         else key_matches key table_name name);
      if hit : bool then mret (Some p)
      else if is_null rest then mret None
      else find_key rest search_id table_name name
  end.
Definition lp_get_key (plan lp_column_alias : LogicalPlan) : P (option ptr) :=
  '(search_id, table_name, name) ← search_terms false lp_column_alias;
  keys ← lift (lp_get_keys plan);
  find_key keys search_id table_name name.

Fixpoint find_key_index (cur_key : LogicalPlan) (search_id : Z) (table_name name : list byte) (index : Z) : P Z :=
  match cur_key with
  | NULL => lift (Undef NullPointer)
  | Leaf _ _ => lift (Undef WrongMember)
  | Op _ _ rest =>
      '(_, key) ← chain_key cur_key;
      if k_table key =? null then _ ← lift (c_assert (k_column key =? null)); mret (-2)
      else
        hit ← (if negb (k_unique_id key =? search_id) then mret false
               else key_matches key table_name name);
        if hit : bool then mret index
        else if is_null rest then mret (-1)
        else find_key_index rest search_id table_name name (index + 1)
  end.
Definition lp_get_key_index (plan lp_column_alias : LogicalPlan) : P Z :=
  '(search_id, table_name, name) ← search_terms true lp_column_alias;
  keys ← lift (lp_get_keys plan);
  find_key_index keys search_id table_name name 0.

(** The identifier of the table a column alias belongs to. *)
Definition alias_id (lp_column_alias : LogicalPlan) : P Z :=
  '(_, table_alias) ← unpack_column_alias lp_column_alias;
  '(_, _, unique_id) ← lift (unpack_table_alias table_alias);
  mret unique_id.
Definition lp_is (p : LogicalPlan) (t : LPActionType) : outcome bool :=
  pt ← lp_type p; Ret (bool_decide (pt = t)).

Definition lp_verify_valid_for_key_fix (plan left right : LogicalPlan) : P bool :=
  lv ← lift (lp_is left LP_VALUE);
  lc ← lift (lp_is left LP_COLUMN_ALIAS);
  if negb (lv || lc) then mret false else
  rv ← lift (lp_is right LP_VALUE);
  rc ← lift (lp_is right LP_COLUMN_ALIAS);
  if negb (rv || rc) then mret false else
  if rc && lc then
    i1 ← lp_get_key_index plan left;
    i2 ← lp_get_key_index plan right;
    if (i1 =? -1) && (i2 =? -1) then mret false else
    same ← (if (i1 =? -1) || (i2 =? -1) then
              l ← alias_id left; r ← alias_id right; mret (l =? r)
            else mret false);
    if same : bool then mret false else
    mret (negb ((i1 =? -2) || (i2 =? -2)))
  else mret true.

(** The optimiser calls itself through the functions below. *)
Context (optimize : LogicalPlan → P LogicalPlan).

Definition output_key (insert : LogicalPlan) : outcome LogicalPlan :=
  output ← get_lp insert true LP_OUTPUT;
  get_lp output false LP_KEY.
(** The two plans of a set operation, each optimised. *)
Definition optimize_operands (plan : LogicalPlan) : P LogicalPlan :=
  plans ← lift (operand plan true);
  a ← lift (operand plans false);
  a ← optimize a;
  plans ← lift (set_operand plans false a);
  b ← lift (operand plans true);
  b ← optimize b;
  plans ← lift (set_operand plans true b);
  lift (set_operand plan true plans).

(** [join_tables(root, plan)], from the keys of [root]: the keys and the plan after it. *)
Fixpoint join_tables (plan keys : LogicalPlan) : P (LogicalPlan * LogicalPlan) :=
  match plan with
  | NULL => lift (Undef NullPointer)
  | Leaf t _ => if decide (t = LP_TABLE_JOIN) then lift (Undef WrongMember) else mret (plan, keys)
  | Op t NULL _ => mret (plan, keys)
  | Op t sub next =>
      if decide (t ≠ LP_TABLE_JOIN) then mret (plan, keys) else
      st ← lift (lp_type sub);
      sub ← (if decide (st = LP_INSERT) then optimize sub else mret sub);
      st ← lift (lp_type sub);
      if decide (st = LP_SET_OPERATION) then
        sub ← optimize_operands sub;
        plans ← lift (operand sub true);
        sub1 ← lift (operand plans false);
        sub1 ← lift (lp_drill_to_insert sub1);
        key ← lift (output_key sub1);
        keys ← lift (insert_into_keys keys key);
        mret (Op t sub next, keys)            (* the tables after it are not looked at *)
      else
        _ ← lift (if is_null next then Ret () else
                    nt ← lp_type next; c_assert (bool_decide (nt = LP_TABLE_JOIN)));
        keys ←
          (if decide (st = LP_INSERT) then
             key ← lift (output_key sub);
             lift (insert_into_keys keys key)
           else
             _ ← lift (c_assert (bool_decide (st = LP_TABLE)));
             match sub with
             | Leaf _ (VTableAlias p) =>
                 tas ← gets pl_table_aliases;
                 ta ← lift (found (tas !! p));
                 '(table, _, unique_id) ← lift (unpack_table_alias ta);
                 '(tp, _, columns) ← lift (unpack_table table);
                 '(max_key, key_columns) ← get_key_columns columns;
                 new ← table_keys (Z.to_nat (max_key + 1)) 0 (λ n,
                         make_key tp (key_column key_columns n) n unique_id LP_KEY_ADVANCE sub false null);
                 lift (fill_keys keys new)
             | _ => lift (Undef WrongMember)
             end);
        if is_null next then mret (Op t sub next, keys)
        else
          '(next, keys) ← join_tables next keys;
          mret (Op t sub next, keys)
  end.

(** ** Cross references *)
Definition lp_make_key (column_alias : SqlStatement * SqlStatement) (is_cross_reference_key : bool) : P LogicalPlan :=
  column ← lift (unpack_column column_alias.1);
  '(table, _, unique_id) ← lift (unpack_table_alias column_alias.2);
  '(tp, _, _) ← lift (unpack_table table);
  p ← new_key (make_key tp (column_address column) (-1) unique_id LP_KEY_ADVANCE NULL is_cross_reference_key null);
  mret (Leaf LP_KEY (VKey p)).

(** A column of the cross reference: the column by its address, NULL where a key number
    is not used. *)
Definition packed_column (p : ptr) : SqlStatement :=
  column_STATEMENT (match cat_columns cat !! p with Some c => [c] | None => [] end).
Definition new_column_alias (column table_alias : SqlStatement) : P LogicalPlan :=
  p ← fresh;
  _ ← put (with_column_aliases (<[p := (column, table_alias)]>));
  mret (Op LP_WHERE (Leaf LP_COLUMN_ALIAS (VColumnAlias p)) NULL).
Fixpoint key_aliases (n : nat) (cur_key : Z) (key_columns : gmap Z ptr) (table_alias : SqlStatement) : P LogicalPlan :=
  match n with
  | O => mret NULL
  | S n' =>
      w ← new_column_alias (packed_column (key_column key_columns cur_key)) table_alias;
      rest ← key_aliases n' (cur_key + 1) key_columns table_alias;
      mret (Op LP_COLUMN_LIST w rest)
  end.
(** The plan is optimised in place: its condition is empty, so it is not split. *)
Definition lp_generate_xref_plan (table : SqlStatement) (column : SqlColumn) (unique_id : Z) : P LogicalPlan :=
  '(tp, tableName, columns) ← lift (unpack_table table);
  out ← new_key (make_key tp (column_address column) 0 unique_id LP_INSERT NULL true null);
  ta ← fresh;
  id ← get_plan_unique_number;
  let alias := table_alias_STATEMENT ta table tableName id null_STATEMENT in
  _ ← put (with_table_aliases (<[ta := alias]>));
  w ← new_column_alias (column_STATEMENT [column]) alias;
  '(max_key, key_columns) ← get_key_columns columns;
  ws ← key_aliases (Z.to_nat (max_key + 1)) 0 key_columns alias;
  kw ← fresh;
  _ ← put (with_keywords (<[kw := [OPTIONAL_POPULATE_INDEX]]>));
  let select :=
    Op LP_SELECT (Op LP_TABLE_JOIN (Leaf LP_TABLE (VTableAlias ta)) NULL)
      (Op LP_CRITERIA (Op LP_KEYS NULL NULL)
        (Op LP_SELECT_OPTIONS (Op LP_WHERE NULL NULL) (Leaf LP_KEYWORDS (VKeywords kw)))) in
  optimize (Op LP_INSERT (Op LP_PROJECT (Op LP_COLUMN_LIST w ws) select)
                         (Op LP_OUTPUT (Leaf LP_KEY (VKey out)) NULL)).

(** The LP_TABLE of the table, replaced by [f] of it; [None] when it is not there. *)
Fixpoint replace_table (table_join : LogicalPlan) (unique_id : Z) (xref : P LogicalPlan)
    : P (option (LogicalPlan * LogicalPlan)) :=
  match table_join with
  | NULL => lift (Undef NullPointer)
  | Leaf _ _ => lift (Undef WrongMember)
  | Op t sub next =>
      st ← lift (lp_type sub);
      hit ← (if decide (st = LP_TABLE) then
               match sub with
               | Leaf _ (VTableAlias p) =>
                   tas ← gets pl_table_aliases;
                   ta ← lift (found (tas !! p));
                   '(_, _, id) ← lift (unpack_table_alias ta);
                   mret (id =? unique_id)
               | _ => lift (Undef WrongMember)
               end
             else mret false);
      if hit : bool then
        x ← xref; mret (Some (Op t x next, x))
      else if is_null next then mret None
      else
        nt ← lift (lp_type next);
        _ ← lift (c_assert (bool_decide (nt = LP_TABLE_JOIN)));
        r ← replace_table next unique_id xref;
        mret ((λ '(next, x), (Op t sub next, x)) <$> r)
  end.
(** The members of the plan the functions write, put back where they were found. *)
Definition set_select (plan select : LogicalPlan) : outcome LogicalPlan :=
  project ← get_lp plan false LP_PROJECT;
  project ← set_operand project true select;
  set_operand plan false project.
Definition set_table_join (plan table_join : LogicalPlan) : outcome LogicalPlan :=
  select ← lp_get_select plan;
  select ← set_operand select false table_join;
  set_select plan select.
Definition set_criteria (plan criteria : LogicalPlan) : outcome LogicalPlan :=
  select ← lp_get_select plan;
  select ← set_operand select true criteria;
  set_select plan select.
Definition set_keys (plan keys : LogicalPlan) : outcome LogicalPlan :=
  criteria ← lp_get_criteria plan;
  criteria ← set_operand criteria false keys;
  set_criteria plan criteria.
Definition set_where (plan condition : LogicalPlan) : outcome LogicalPlan :=
  where_ ← lp_get_select_where plan;
  where_ ← set_operand where_ false condition;
  criteria ← lp_get_criteria plan;
  options ← get_lp criteria true LP_SELECT_OPTIONS;
  options ← set_operand options false where_;
  criteria ← set_operand criteria true options;
  set_criteria plan criteria.

Definition set_cross_reference_column_alias (a : ptr) (k : SqlKey) : SqlKey :=
  {| k_table := k_table k; k_column := k_column k; k_key_num := k_key_num k; k_unique_id := k_unique_id k;
     k_value := k_value k; k_insert := k_insert k; k_type := k_type k; k_owner := k_owner k;
     k_is_cross_reference_key := k_is_cross_reference_key k;
     k_cross_reference_output_key := k_cross_reference_output_key k; k_cross_reference_column_alias := a;
     k_cross_reference_filename := k_cross_reference_filename k |}.
(** The keys to read the cross reference by, and the plan with it in. *)
Definition lp_generate_xref_keys (plan : LogicalPlan) (table : SqlStatement) (address : ptr)
    (column_alias : SqlStatement * SqlStatement) (unique_id : Z) : P (option LogicalPlan * LogicalPlan) :=
  column ← lift (unpack_column column_alias.1);
  table_join ← lift (lp_get_table_join plan);
  r ← replace_table table_join unique_id (lp_generate_xref_plan table column unique_id);
  match r with
  | None => mret (None, plan)
  | Some (table_join, xref) =>
      plan ← lift (set_table_join plan table_join);
      out ← lift (lp_get_output_key xref);
      out ← lift (lp_key out);
      k ← key_at out;
      _ ← put (with_keys (<[out := set_cross_reference_column_alias address k]>));
      '(tp, _, columns) ← lift (unpack_table table);
      '(max_key, key_columns) ← get_key_columns columns;
      new ← table_keys (Z.to_nat (max_key + 1)) 0 (λ n,
              make_key tp (key_column key_columns n) n unique_id LP_KEY_ADVANCE NULL false out);
      mret (Some (key_list new), plan)
  end.

(** From the first node that is not of the table. *)
Fixpoint skip_own (keys : LogicalPlan) (unique_id : Z) : P LogicalPlan :=
  match keys with
  | NULL => mret NULL
  | Leaf _ _ => lift (Undef WrongMember)
  | Op t _ rest =>
      _ ← lift (c_assert (bool_decide (t = LP_KEYS)));
      '(_, k) ← chain_key keys;
      if k_unique_id k =? unique_id then skip_own rest unique_id else mret keys
  end.
(** "Remove all keys for the table alias" and put the key of the cross reference and the
    [generated] ones in their place.  What follows is hung on the first generated node. *)
Fixpoint splice_keys (keys : LogicalPlan) (unique_id : Z) (key generated : LogicalPlan) : P LogicalPlan :=
  match keys with
  | NULL => lift (Undef NullPointer)
  | Leaf _ _ => lift (Undef WrongMember)
  | Op t k rest =>
      '(_, cur) ← chain_key keys;
      if (k_unique_id cur =? unique_id) || is_null rest then
        after ← (if k_unique_id cur =? unique_id then skip_own keys unique_id else mret rest);
        generated ← (if is_null after then mret generated else lift (set_operand generated true after));
        mret (Op LP_KEYS key generated)
      else
        rt ← lift (lp_type rest);
        _ ← lift (c_assert (bool_decide (rt = LP_KEYS)));
        rest ← splice_keys rest unique_id key generated;
        mret (Op t k rest)
  end.

(** ** Fixing keys *)
(** [key_unique_id_array]; reading or writing outside of it is undefined. *)
Definition array_get (a : list Z) (i : Z) : outcome Z :=
  if i <? 0 then Undef OutOfBounds
  else match a !! Z.to_nat i with Some x => Ret x | None => Undef OutOfBounds end.
Definition array_set (a : list Z) (i x : Z) : outcome (list Z) :=
  if (i <? 0) || (zlen a <=? i) then Undef OutOfBounds else Ret (<[Z.to_nat i := x]> a).

(** Which column is fixed ([fst]) to what ([snd]); [None] when nothing can be. *)
Definition choose_sides (key_unique_id_array : list Z) (left right : LogicalPlan)
    : P (option (LogicalPlan * LogicalPlan)) :=
  lc ← lift (lp_is left LP_COLUMN_ALIAS);
  rc ← lift (lp_is right LP_COLUMN_ALIAS);
  if rc && lc then
    right_id ← alias_id right;
    left_id ← alias_id left;
    counter ← gets pl_counter;
    _ ← lift (c_assert (0 <=? left_id));
    _ ← lift (c_assert (0 <=? right_id));
    _ ← lift (c_assert (left_id <? counter));
    _ ← lift (c_assert (right_id <? counter));
    l ← lift (array_get key_unique_id_array left_id);
    r ← (if l =? 0 then lift (array_get key_unique_id_array right_id) else mret 1);
    if (l =? 0) && (r =? 0) then mret None else
    r ← lift (array_get key_unique_id_array right_id);
    if (r =? 0) || (l <? r) then mret (Some (right, left)) else mret (Some (left, right))
  else if rc then
    right_id ← alias_id right;
    r ← lift (array_get key_unique_id_array right_id);
    if r =? 0 then mret None else mret (Some (right, left))
  else if lc then
    left_id ← alias_id left;
    l ← lift (array_get key_unique_id_array left_id);
    if l =? 0 then mret None else mret (Some (left, right))
  else mret None.

(** The key of the column, through a cross reference if it is not one; [None] when there
    is no way. *)
Definition key_for (plan left : LogicalPlan) : P (option ptr * LogicalPlan) :=
  key ← lp_get_key plan left;
  match key with
  | Some key => mret (Some key, plan)
  | None =>
      address ← lift (column_alias_of left);
      column_alias ← unpack_column_alias left;
      '(table, _, unique_id) ← lift (unpack_table_alias column_alias.2);
      base ← lift (is_table table);
      if negb base then mret (None, plan) else
      own ← lift (is_column_stmt column_alias.1);
      '(address, column_alias) ← lift
        (if own : bool then Ret (address, column_alias)
         else match column_alias.1 with
         | column_list_alias_STATEMENT (ColumnListAlias _ (column_list_STATEMENT (v :: _)) _ _ _ :: _) =>
             match v with
             | column_alias_STATEMENT p c t => Ret (p, (c, t))
             | null_STATEMENT => Undef NullPointer
             | _ => Halt AssertFailed
             end
         | column_list_alias_STATEMENT [] => Undef NullPointer
         | column_list_alias_STATEMENT (ColumnListAlias _ (null_STATEMENT | column_list_STATEMENT []) _ _ _ :: _) =>
             Undef NullPointer
         | _ => Halt AssertFailed
         end);
      '(generated, plan) ← lp_generate_xref_keys plan table address column_alias unique_id;
      match generated with
      | None => mret (None, plan)
      | Some generated =>
          keys ← lift (lp_get_keys plan);
          key ← lp_make_key column_alias true;
          keys ← splice_keys keys unique_id key generated;
          plan ← lift (set_keys plan keys);
          p ← lift (lp_key key);
          mret (Some p, plan)
      end
  end.

(** An equality of the condition: the plan and whether a key was fixed. *)
Definition fix_equals (plan : LogicalPlan) (key_unique_id_array : list Z) (left right : LogicalPlan)
    : P (LogicalPlan * Z) :=
  valid ← lp_verify_valid_for_key_fix plan left right;
  if negb valid then mret (plan, 0) else
  sides ← choose_sides key_unique_id_array left right;
  match sides with
  | None => mret (plan, 0)
  | Some (column, other) =>
      '(key, plan) ← key_for plan column;
      match key with
      | None => mret (plan, 0)
      | Some key =>
          k ← key_at key;
          if bool_decide (k_type k = LP_KEY_ADVANCE) && bool_decide (k_cross_reference_output_key k = null) then
            value ← lp_copy_plan other;
            keys ← gets pl_keys;
            '(keys, fixed) ← lift (lp_opt_fix_key_to_const keys key value);
            _ ← put (with_keys (λ _, keys));
            mret (plan, if fixed : bool then 1 else 0)
          else mret (plan, 0)
      end
  end.

Fixpoint lp_optimize_where_multi_equal_ands_helper (plan where_ : LogicalPlan) (key_unique_id_array : list Z)
    : P (LogicalPlan * Z) :=
  match where_ with
  | NULL => lift (Undef NullPointer)
  | _ =>
      match (match where_ with Op LP_WHERE cur _ => cur | _ => where_ end) with
      | NULL => mret (plan, 0)
      | Op LP_BOOLEAN_OR _ _ | Leaf LP_BOOLEAN_OR _ => lift (Halt AssertFailed)
      | Op LP_BOOLEAN_AND a b =>
          '(plan, n) ← lp_optimize_where_multi_equal_ands_helper plan a key_unique_id_array;
          '(plan, n') ← lp_optimize_where_multi_equal_ands_helper plan b key_unique_id_array;
          mret (plan, n + n')
      | Op LP_BOOLEAN_EQUALS a b => fix_equals plan key_unique_id_array a b
      | Leaf LP_BOOLEAN_AND _ | Leaf LP_BOOLEAN_EQUALS _ | Leaf LP_WHERE _ => lift (Undef WrongMember)
      | _ => mret (plan, 0)
      end
  end.

(** [key_unique_id_array[key->unique_id] = i] for each key, [i] from 1. *)
Fixpoint number_keys (cur : LogicalPlan) (i : Z) (a : list Z) : P (list Z) :=
  match cur with
  | NULL => mret a
  | Leaf _ _ => lift (Undef WrongMember)
  | Op _ _ rest =>
      '(_, key) ← chain_key cur;
      a ← lift (array_set a (k_unique_id key) i);
      number_keys rest (i + 1) a
  end.
Definition lp_optimize_where_multi_equal_ands (plan where_ : LogicalPlan) : P (LogicalPlan * Z) :=
  counter ← gets pl_counter;
  let max_unique_id := counter - 1 in
  _ ← lift (if max_unique_id <? 0 then Undef NullPointer else Ret ());     (* no memory for so many *)
  keys ← lift (lp_get_keys plan);
  a ← number_keys keys 1 (replicate (Z.to_nat max_unique_id) 0);
  lp_optimize_where_multi_equal_ands_helper plan where_ a.

(** ** One plan per disjunct *)
(** The statement is marked, once, as one that was split. *)
Definition mark_expansion (plan : LogicalPlan) : P () :=
  keywords ← lift (lp_get_select_keywords plan);
  match keywords with
  | Leaf _ (VKeywords p) =>
      ks ← gets pl_keywords;
      ring ← lift (found (ks !! p));
      if decide (OPTIONAL_PART_OF_EXPANSION ∈ ring) then mret ()
      else put (with_keywords (<[p := ring ++ [OPTIONAL_PART_OF_EXPANSION]]>))
  | Leaf _ _ => lift (Undef WrongMember)
  | _ => lift (Undef NullPointer)
  end.
(** A copy of the plan for each disjunct but the last, and the last one.  The disjuncts
    themselves move to the copies. *)
Fixpoint expand (plan cur : LogicalPlan) : P (list LogicalPlan * LogicalPlan) :=
  match cur with
  | Op LP_BOOLEAN_OR condition rest =>
      _ ← mark_expansion plan;
      p ← lp_copy_plan plan;
      p ← lift (set_where p condition);
      '(ps, cur) ← expand plan rest;
      mret (p :: ps, cur)
  | Leaf LP_BOOLEAN_OR _ => lift (Undef WrongMember)
  | _ => mret ([], cur)
  end.

Definition optimize_body (plan : LogicalPlan) : P LogicalPlan :=
  t ← lift (lp_type plan);
  if decide (t = LP_SET_OPERATION) then optimize_operands plan else
  table_join ← lift (lp_get_table_join plan);
  keys ← lift (lp_get_keys plan);
  first_key ← lift (operand keys false);
  plan ← (if is_null first_key then
            '(table_join, keys) ← join_tables table_join keys;
            plan ← lift (set_table_join plan table_join);
            lift (set_keys plan keys)
          else mret plan);
  where_ ← lift (lp_get_select_where plan);
  condition ← lift (operand where_ false);
  condition ← lift (lp_make_normal_disjunctive_form condition);
  plan ← lift (set_where plan condition);
  '(copies, cur) ← expand plan condition;
  plan ← lift (set_where plan cur);
  match copies with
  | [] =>
      where_ ← lift (lp_get_select_where plan);
      '(plan, _) ← lp_optimize_where_multi_equal_ands plan where_;
      mret plan
  | _ => optimize (fold_left (λ new_plan p, lp_join_plans new_plan p LP_SET_UNION_ALL) copies plan)
  end.
End optimise.

(** The calls of the optimiser on subplans, on the operands of a set operation and on the
    union it makes itself: [fuel] bounds their nesting. *)
Fixpoint optimize_logical_plan (cat : catalog) (fuel : nat) (plan : LogicalPlan) : P LogicalPlan :=
  match fuel with
  | O => lift NoFuel
  | S fuel' => optimize_body cat (optimize_logical_plan cat fuel') plan
  end.
