(* ===== verification/OptimizeStore.v ===== *)
(** * What the optimiser leaves alone

    The optimiser adds to the store and writes into the keys of the plan it works on.
    Here: that relation between stores, and copies of plans. *)
From stdpp Require Import gmap strings.
From S2P Require Import Prelude CMem LogicalPlan Dnf SqlStatement Optimize.

(** ** Stores *)
(** Addresses in use are below the next free one. *)
Record store_ok (s : planner) : Prop := {
  ok_keys p k : pl_keys s !! p = Some k → p < pl_next s;
  ok_values p v : pl_values s !! p = Some v → p < pl_next s;
  ok_keywords p w : pl_keywords s !! p = Some w → p < pl_next s;
  ok_aliases p c : pl_column_aliases s !! p = Some c → p < pl_next s;
}.

(** Everything but whether and to what a key is fixed. *)
Definition same_key (k k' : SqlKey) : Prop :=
  k_table k' = k_table k ∧ k_column k' = k_column k ∧ k_key_num k' = k_key_num k ∧
  k_unique_id k' = k_unique_id k ∧ k_insert k' = k_insert k ∧ k_owner k' = k_owner k ∧
  k_is_cross_reference_key k' = k_is_cross_reference_key k ∧
  k_cross_reference_output_key k' = k_cross_reference_output_key k.
#[export] Instance same_key_equiv : Equivalence same_key.
Proof.
  split; [by intros k|intros k k' H|intros a b c H1 H2]; unfold same_key in *; destruct_and!; split_and!; congruence.
Qed.

(** The keywords without the mark of a plan that was split. *)
Definition unmarked (ring : list OptionalKeyword) : list OptionalKeyword :=
  filter (λ w, w ≠ OPTIONAL_PART_OF_EXPANSION) ring.

(** From [s] to [s'], with writes to the keys [K] only. *)
Record changes (K : list ptr) (s s' : planner) : Prop := {
  ch_counter : pl_counter s' = pl_counter s;
  ch_next : pl_next s ≤ pl_next s';
  ch_values : pl_values s ⊆ pl_values s';
  ch_aliases : pl_column_aliases s ⊆ pl_column_aliases s';
  ch_tables : pl_table_aliases s ⊆ pl_table_aliases s';
  ch_keywords p r : pl_keywords s !! p = Some r →
    ∃ r', pl_keywords s' !! p = Some r' ∧ unmarked r' = unmarked r;
  ch_keys p k : pl_keys s !! p = Some k → p ∉ K → pl_keys s' !! p = Some k;
  ch_fixed p k : pl_keys s !! p = Some k → ∃ k', pl_keys s' !! p = Some k' ∧ same_key k k';
}.

Lemma changes_refl K s : changes K s s.
Proof. split; try done; eauto. intros p k H. exists k. by split. Qed.
Lemma changes_trans K s1 s2 s3 : changes K s1 s2 → changes K s2 s3 → changes K s1 s3.
Proof.
  intros H1 H2. split.
  - by rewrite (ch_counter _ _ _ H2), (ch_counter _ _ _ H1).
  - etrans; [apply H1|apply H2].
  - etrans; [apply H1|apply H2].
  - etrans; [apply H1|apply H2].
  - etrans; [apply H1|apply H2].
  - intros p r H. destruct (ch_keywords _ _ _ H1 p r H) as (r1 & E1 & <-). eapply (ch_keywords _ _ _ H2); eauto.
  - intros p k H Hp. apply H2; [|done]. by apply H1.
  - intros p k H. destruct (ch_fixed _ _ _ H1 p k H) as (k1 & E1 & S1).
    destruct (ch_fixed _ _ _ H2 p k1 E1) as (k2 & E2 & S2). exists k2. split; [done|]. by etrans.
Qed.
Lemma changes_weaken K K' s s' : K ⊆ K' → changes K s s' → changes K' s s'.
Proof. intros HK []. split; try done. intros p k H Hp. eauto. Qed.
Lemma changes_none K s s' : changes [] s s' → changes K s s'.
Proof. apply changes_weaken. set_solver. Qed.
Create HintDb store discriminated.
#[export] Hint Resolve changes_refl changes_weaken : store.

(** ** Steps of the monad *)
Lemma P_bind_run {A B} (m : P A) (f : A → P B) s a s' : m s = Ret (a, s') → (m ≫= f) s = f a s'.
Proof. intros H. unfold mbind, P_bind. by rewrite H. Qed.
Lemma lift_run {A} (o : outcome A) a s : o = Ret a → lift o s = Ret (a, s).
Proof. by intros ->. Qed.
Lemma lift_bind_run {A B} (o : outcome A) (f : A → P B) s a : o = Ret a → (lift o ≫= f) s = f a s.
Proof. by intros ->. Qed.
Lemma found_some {A} (o : option A) a : o = Some a → found o = Ret a.
Proof. by intros ->. Qed.

(** Something at the next free address, nothing else. *)
Record grown (s s' : planner) : Prop := {
  gr_counter : pl_counter s' = pl_counter s;
  gr_next : pl_next s' = pl_next s + 1;
  gr_tables : pl_table_aliases s' = pl_table_aliases s;
  gr_keys p : p ≠ pl_next s → pl_keys s' !! p = pl_keys s !! p;
  gr_values p : p ≠ pl_next s → pl_values s' !! p = pl_values s !! p;
  gr_keywords p : p ≠ pl_next s → pl_keywords s' !! p = pl_keywords s !! p;
  gr_aliases p : p ≠ pl_next s → pl_column_aliases s' !! p = pl_column_aliases s !! p;
}.
Lemma grown_below {A} (m m' : gmap ptr A) (next : ptr) :
  (∀ p x, m !! p = Some x → p < next) → (∀ p, p ≠ next → m' !! p = m !! p) →
  m ⊆ m' ∧ ∀ p x, m' !! p = Some x → p < next + 1.
Proof.
  intros Hm Hm'. split.
  - apply map_subseteq_spec. intros p x H. rewrite Hm'; [done|]. apply Hm in H. lia.
  - intros p x H. destruct (decide (p = next)) as [->|Hp]; [lia|]. rewrite Hm' in H by done. apply Hm in H. lia.
Qed.
Lemma grown_ok s s' : store_ok s → grown s s' → store_ok s' ∧ changes [] s s'.
Proof.
  intros W G. destruct (grown_below _ _ _ (ok_keys _ W) (gr_keys _ _ G)) as [K1 K2].
  destruct (grown_below _ _ _ (ok_values _ W) (gr_values _ _ G)) as [V1 V2].
  destruct (grown_below _ _ _ (ok_keywords _ W) (gr_keywords _ _ G)) as [W1 W2].
  destruct (grown_below _ _ _ (ok_aliases _ W) (gr_aliases _ _ G)) as [A1 A2].
  pose proof (gr_next _ _ G) as N. rewrite <- N in *. split; [by split|].
  pose proof (proj1 (map_subseteq_spec _ _) K1) as K. pose proof (proj1 (map_subseteq_spec _ _) W1) as Kw.
  split; try done; [apply G|lia|by rewrite (gr_tables _ _ G)| | |].
  - intros p r H. exists r. split; [by apply Kw|done].
  - intros p k H _. by apply K.
  - intros p k H. exists k. split; [by apply K|done].
Qed.

Lemma new_key_ok k s : store_ok s → ∃ s', new_key k s = Ret (pl_next s, s') ∧
  store_ok s' ∧ changes [] s s' ∧ pl_next s' = pl_next s + 1 ∧ pl_keys s' !! pl_next s = Some k.
Proof.
  intros W. eexists. split; [done|]. match goal with |- store_ok ?x ∧ _ => assert (G : grown s x) end.
  { split; try done. intros p Hp. apply lookup_insert_ne. done. }
  destruct (grown_ok _ _ W G). split_and!; [done..|]. apply lookup_insert_eq.
Qed.

(** ** Copies of plans *)
Definition plain_value (v : SqlValue) : bool := bool_decide (sv_type v ≠ COERCE_TYPE).
(** What a constant stands for. *)
Definition value_meaning (v : SqlValue) : SqlValueType * list byte :=
  (sv_type v, match sv_type v with NUL_VALUE => [] | _ => sv_literal v end).

Definition copyable_leaf (s : planner) (t : LPActionType) (v : leaf) : bool :=
  match t, v with
  | LP_KEY, VKey p => bool_decide (is_Some (pl_keys s !! p))
  | LP_VALUE, VValue p => match pl_values s !! p with Some v => plain_value v | None => false end
  | LP_COLUMN_ALIAS, VColumnAlias p => bool_decide (is_Some (pl_column_aliases s !! p))
  | LP_COLUMN_LIST_ALIAS, VColumnListAlias _ => true
  | LP_KEYWORDS, VKeywords p => bool_decide (is_Some (pl_keywords s !! p))
  | LP_TABLE, VTableAlias _ | LP_PIECE_NUMBER, VPieceNumber _ => true
  | _, _ => false
  end.
Definition holds_leaf (t : LPActionType) : bool :=
  leaf_type t || bool_decide (t = LP_TABLE ∨ t = LP_PIECE_NUMBER).
(** The plans a copy is made of without a read through NULL or of the wrong member. *)
Fixpoint copyable (s : planner) (p : LogicalPlan) : bool :=
  match p with
  | NULL => true
  | Leaf t v => copyable_leaf s t v
  | Op t a b => negb (holds_leaf t) && copyable s a && copyable s b
  end.

Definition leaf_like (R : SqlKey → SqlKey → Prop) (s : planner) (v v' : leaf) : Prop :=
  match v, v' with
  | VKey p, VKey q => ∃ k k', pl_keys s !! p = Some k ∧ pl_keys s !! q = Some k' ∧ R k k'
  | VValue p, VValue q =>
      ∃ x x', pl_values s !! p = Some x ∧ pl_values s !! q = Some x' ∧ value_meaning x' = value_meaning x
  | VColumnAlias p, VColumnAlias q =>
      ∃ c, pl_column_aliases s !! p = Some c ∧ pl_column_aliases s !! q = Some c
  | VColumnListAlias _, VColumnListAlias _ => True
  | VKeywords p, VKeywords q =>
      ∃ r r', pl_keywords s !! p = Some r ∧ pl_keywords s !! q = Some r' ∧ unmarked r' = unmarked r
  | VTableAlias p, VTableAlias q => q = p
  | VPieceNumber n, VPieceNumber n' => n' = n
  | _, _ => False
  end.
(** Plans of the same shape, with the same contents. *)
Fixpoint like (R : SqlKey → SqlKey → Prop) (s : planner) (p q : LogicalPlan) : Prop :=
  match p, q with
  | NULL, NULL => True
  | Leaf t v, Leaf t' v' => t' = t ∧ leaf_like R s v v'
  | Op t a b, Op t' a' b' => t' = t ∧ like R s a a' ∧ like R s b b'
  | _, _ => False
  end.
(** The keys a plan points to. *)
Fixpoint key_leaves (p : LogicalPlan) : list ptr :=
  match p with
  | Leaf _ (VKey p) => [p]
  | Op _ a b => key_leaves a ++ key_leaves b
  | _ => []
  end.

Lemma leaf_like_impl (R R' : SqlKey → SqlKey → Prop) s v v' : (∀ k k', R k k' → R' k k') → leaf_like R s v v' → leaf_like R' s v v'.
Proof. intros HR. destruct v, v'; cbn; try done. intros (k & k' & ? & ? & ?). eauto 6. Qed.
Lemma like_impl (R R' : SqlKey → SqlKey → Prop) s p q : (∀ k k', R k k' → R' k k') → like R s p q → like R' s p q.
Proof.
  intros HR. revert q. induction p as [|t a IHa b IHb|t v]; intros [|t' a' b'|t' v']; cbn; try done.
  - intros (? & ? & ?). auto.
  - intros [? ?]. split; [done|]. by eapply leaf_like_impl.
Qed.
Lemma like_type R s p q t : like R s p q → lp_type p = Ret t → lp_type q = Ret t.
Proof. destruct p, q; cbn; try done; intros [-> _]; done. Qed.

(** A later store has what an earlier one had. *)
Lemma copyable_leaf_mono K s s' t v : changes K s s' → copyable_leaf s t v = true → copyable_leaf s' t v = true.
Proof.
  intros C. destruct t, v; cbn; try done; rewrite ?bool_decide_eq_true; intros H.
  - destruct H as [c H]. exists c. by eapply lookup_weaken, C.
  - destruct (pl_values s !! p) eqn:E; [|done]. by rewrite (lookup_weaken _ _ _ _ E (ch_values _ _ _ C)).
  - destruct H as [r H]. destruct (ch_keywords _ _ _ C _ _ H) as (r' & -> & _). eauto.
  - destruct H as [k H]. destruct (ch_fixed _ _ _ C _ _ H) as (k' & -> & _). eauto.
Qed.
Lemma copyable_mono K s s' p : changes K s s' → copyable s p = true → copyable s' p = true.
Proof.
  intros C. induction p as [|t a IHa b IHb|t v]; cbn; [done| |by eapply copyable_leaf_mono].
  rewrite !andb_true_iff. intros [[? ?] ?]. split_and!; auto.
Qed.
Lemma leaf_like_mono K s s' v v' : changes K s s' → leaf_like same_key s v v' → leaf_like same_key s' v v'.
Proof.
  intros C. destruct v, v'; cbn; try done.
  - intros (c & H1 & H2). exists c. split; eapply lookup_weaken; try done; apply C.
  - intros (x & x' & H1 & H2 & H). exists x, x'. split_and!; try done; eapply lookup_weaken; try done; apply C.
  - intros (k & k' & H1 & H2 & H). destruct (ch_fixed _ _ _ C _ _ H1) as (k1 & E1 & S1).
    destruct (ch_fixed _ _ _ C _ _ H2) as (k2 & E2 & S2). exists k1, k2. split_and!; try done.
    by rewrite <- S1, H.
  - intros (r & r' & H1 & H2 & H). destruct (ch_keywords _ _ _ C _ _ H1) as (r1 & E1 & U1).
    destruct (ch_keywords _ _ _ C _ _ H2) as (r2 & E2 & U2). exists r1, r2. split_and!; [done..|]. congruence.
Qed.
Lemma like_mono K s s' p q : changes K s s' → like same_key s p q → like same_key s' p q.
Proof.
  intros C. revert q. induction p as [|t a IHa b IHb|t v]; intros [|t' a' b'|t' v']; cbn; try done.
  - intros (? & ? & ?). auto.
  - intros [? ?]. split; [done|]. by eapply leaf_like_mono.
Qed.
Lemma leaf_like_trans s u v w : leaf_like same_key s u v → leaf_like same_key s v w → leaf_like same_key s u w.
Proof.
  destruct u, v; cbn; try done; destruct w; cbn; try done.
  - intros (c & H1 & H2) (c' & H3 & H4). exists c. split; congruence.
  - intros (x & x' & H1 & H2 & H) (y & y' & H3 & H4 & H'). exists x, y'. split_and!; congruence.
  - congruence.
  - intros (k & k' & H1 & H2 & H) (l & l' & H3 & H4 & H'). exists k, l'. split_and!; try done.
    assert (k' = l) as -> by congruence. by rewrite H.
  - intros (r & r' & H1 & H2 & H) (x & x' & H3 & H4 & H'). exists r, x'. split_and!; congruence.
  - congruence.
Qed.
Lemma like_trans s p q r : like same_key s p q → like same_key s q r → like same_key s p r.
Proof.
  revert q r. induction p as [|t a IHa b IHb|t v]; intros [|t' a' b'|t' v']; cbn; try done;
    intros [|t'' a'' b''|t'' v'']; cbn; try done.
  - intros (-> & H1 & H2) (-> & H3 & H4). eauto.
  - intros [-> H1] [-> H2]. split; [done|]. by eapply leaf_like_trans.
Qed.
Lemma like_refl s p : copyable s p = true → like same_key s p p.
Proof.
  induction p as [|t a IHa b IHb|t v]; cbn; [done| |].
  - rewrite !andb_true_iff. intros [[? ?] ?]. auto.
  - intros H. split; [done|]. destruct t, v; cbn in H |- *; try done; try (apply bool_decide_eq_true_1 in H as [x H]).
    + by exists x.
    + destruct (pl_values s !! p) as [x|]; [|done]. by exists x, x.
    + by exists x, x.
    + by exists x, x.
Qed.
#[export] Hint Resolve copyable_mono like_mono like_refl like_trans : store.

(** What a copy of a part of a plan gives. *)
Definition copied_leaf (t : LPActionType) (v : leaf) (s : planner) : Prop :=
  ∃ v' s', copy_leaf t v s = Ret (v', s') ∧ store_ok s' ∧ changes [] s s' ∧ leaf_like eq s' v v' ∧
    copyable_leaf s' t v' = true ∧
    Forall (λ q, pl_next s ≤ q < pl_next s') (key_leaves (Leaf t v')).

Lemma copy_key_ok p s k : store_ok s → pl_keys s !! p = Some k → copied_leaf LP_KEY (VKey p) s.
Proof.
  intros W H. destruct (new_key_ok k s W) as (s' & E & W' & C & N & K). exists (VKey (pl_next s)), s'.
  assert (pl_keys s' !! p = Some k) by (apply C; [done|set_solver]). split_and!; try done.
  - unfold copy_leaf, lp_copy_key, key_at, gets, lift, mbind, P_bind. cbn. rewrite H. cbn. by rewrite E.
  - by exists k, k.
  - cbn. apply bool_decide_eq_true. eauto.
  - cbn. constructor; [lia|constructor].
Qed.
Lemma copy_value_ok p s v : store_ok s → pl_values s !! p = Some v → plain_value v = true →
  copied_leaf LP_VALUE (VValue p) s.
Proof.
  intros W H Hv. apply bool_decide_eq_true_1 in Hv. unfold copied_leaf.
  assert (∃ v', copied_value v = Ret v' ∧ value_meaning v' = value_meaning v ∧ plain_value v' = true)
    as (v' & Ev & Mv & Pv).
  { unfold copied_value, value_meaning, plain_value. destruct (sv_type v) eqn:E; try done; eexists; done. }
  eexists (VValue (pl_next s)), _. split.
  { unfold copy_leaf, copy_value, gets, lift, mbind, P_bind, value_at. cbn. rewrite H. cbn. by rewrite Ev. }
  match goal with |- store_ok ?x ∧ _ => assert (G : grown s x) end.
  { split; try done. intros q Hq. apply lookup_insert_ne. done. }
  destruct (grown_ok _ _ W G) as [W' C]. pose proof (lookup_weaken _ _ _ _ H (ch_values _ _ _ C)) as H'.
  split_and!; try done.
  - exists v, v'. split_and!; [done|by apply lookup_insert_eq|done].
  - cbn [copyable_leaf pl_values with_values]. by rewrite lookup_insert_eq.
Qed.
Lemma copy_column_alias_ok p s c : store_ok s → pl_column_aliases s !! p = Some c → copied_leaf LP_COLUMN_ALIAS (VColumnAlias p) s.
Proof.
  intros W H. unfold copied_leaf. eexists (VColumnAlias (pl_next s)), _. split.
  { unfold copy_leaf, copy_column_alias, gets, lift, mbind, P_bind. cbn. by rewrite H. }
  match goal with |- store_ok ?x ∧ _ => assert (G : grown s x) end.
  { split; try done. intros q Hq. apply lookup_insert_ne. done. }
  destruct (grown_ok _ _ W G) as [W' C]. pose proof (lookup_weaken _ _ _ _ H (ch_aliases _ _ _ C)) as H'.
  split_and!; try done.
  - exists c. split; [done|by apply lookup_insert_eq].
  - cbn [copyable_leaf pl_column_aliases with_column_aliases]. apply bool_decide_eq_true. rewrite lookup_insert_eq. eauto.
Qed.
Lemma copy_keywords_ok p s r : store_ok s → pl_keywords s !! p = Some r → copied_leaf LP_KEYWORDS (VKeywords p) s.
Proof.
  intros W H. unfold copied_leaf. eexists (VKeywords (pl_next s)), _. split.
  { unfold copy_leaf, copy_keywords, gets, lift, mbind, P_bind. cbn. by rewrite H. }
  match goal with |- store_ok ?x ∧ _ => assert (G : grown s x) end.
  { split; try done. intros q Hq. apply lookup_insert_ne. done. }
  destruct (grown_ok _ _ W G) as [W' C]. apply (ok_keywords _ W) in H as Hp.
  split_and!; try done.
  - exists r, r. split_and!; [|by apply lookup_insert_eq|done].
    cbn [pl_keywords with_keywords]. rewrite lookup_insert_ne; [done|lia].
  - cbn [copyable_leaf pl_keywords with_keywords]. apply bool_decide_eq_true. rewrite lookup_insert_eq. eauto.
Qed.
Lemma copy_leaf_ok t v s : store_ok s → copyable_leaf s t v = true → copied_leaf t v s.
Proof.
  intros W H.
  assert (Same : ∀ v', copy_leaf t v s = Ret (v', s) → copyable_leaf s t v' = true → key_leaves (Leaf t v') = [] →
    leaf_like eq s v v' → copied_leaf t v s).
  { intros v' E Hc Hk Hl. exists v', s. rewrite Hk. split_and!; auto using changes_refl. }
  destruct t, v; try done; try (by eapply Same); cbn in H; try (apply bool_decide_eq_true_1 in H as [x H]).
  - by eapply copy_column_alias_ok.
  - eexists (VColumnListAlias (pl_next s)), _. split; [done|].
    match goal with |- store_ok ?x ∧ _ => assert (G : grown s x) by (by split) end.
    destruct (grown_ok _ _ W G). by split_and!.
  - destruct (pl_values s !! p) eqn:E; [|done]. by eapply copy_value_ok.
  - by eapply copy_keywords_ok.
  - by eapply copy_key_ok.
Qed.

Lemma leaf_like_eq_mono K s s' v v' :
  changes K s s' → leaf_like eq s v v' → (∀ q, q ∈ K → q ∉ key_leaves (Leaf LP_KEY v) ++ key_leaves (Leaf LP_KEY v')) →
  leaf_like eq s' v v'.
Proof.
  intros C. destruct v, v'; cbn; try done.
  - intros (c & H1 & H2) _. exists c. split; eapply lookup_weaken; try done; apply C.
  - intros (x & x' & H1 & H2 & H) _. exists x, x'. split_and!; try done; eapply lookup_weaken; try done; apply C.
  - intros (k & k' & H1 & H2 & ->) HK. exists k', k'. split_and!; try done; eapply (ch_keys _ _ _ C); try done; set_solver.
  - intros (r & r' & H1 & H2 & H) _. destruct (ch_keywords _ _ _ C _ _ H1) as (r1 & E1 & U1).
    destruct (ch_keywords _ _ _ C _ _ H2) as (r2 & E2 & U2). exists r1, r2. split_and!; [done..|]. congruence.
Qed.
Lemma like_eq_mono s s' p q : changes [] s s' → like eq s p q → like eq s' p q.
Proof.
  intros C. revert q. induction p as [|t a IHa b IHb|t v]; intros [|t' a' b'|t' v']; cbn; try done.
  - intros (? & ? & ?). auto.
  - intros [? ?]. split; [done|]. eapply leaf_like_eq_mono; [done..|]. set_solver.
Qed.

(** A copy has the contents of the plan and keys of its own. *)
Lemma lp_copy_plan_ok p s : store_ok s → copyable s p = true →
  ∃ q s', lp_copy_plan p s = Ret (q, s') ∧ store_ok s' ∧ changes [] s s' ∧ like eq s' p q ∧
    copyable s' q = true ∧ Forall (λ x, pl_next s ≤ x < pl_next s') (key_leaves q).
Proof.
  revert s. induction p as [|t a IHa b IHb|t v]; intros s W H.
  - exists NULL, s. split_and!; try done; auto using changes_refl.
  - cbn [copyable] in H. apply andb_true_iff in H as [[Ht Ha]%andb_true_iff Hb].
    apply negb_true_iff, orb_false_iff in Ht as [Hl Ht].
    destruct (IHa s W Ha) as (a' & s1 & E1 & W1 & C1 & L1 & Y1 & F1).
    destruct (IHb s1 W1) as (b' & s2 & E2 & W2 & C2 & L2 & Y2 & F2); [by eapply copyable_mono|].
    exists (Op t a' b'), s2. split; [|split; [done|split; [by eapply changes_trans|split; [|split]]]].
    + cbn [lp_copy_plan]. rewrite Hl, Ht. unfold mbind, P_bind, mret, P_ret. rewrite E1. cbn. by rewrite E2.
    + cbn. split_and!; [done| |done]. by eapply like_eq_mono.
    + cbn [copyable]. unfold holds_leaf. rewrite Hl, Ht, Y2, (copyable_mono _ _ _ _ C2 Y1). done.
    + cbn. pose proof (ch_next _ _ _ C1). pose proof (ch_next _ _ _ C2).
      apply Forall_app. split; (eapply Forall_impl; [|done]); cbn; lia.
  - destruct (copy_leaf_ok t v s W H) as (v' & s' & E & W' & C & L & Y & F). exists (Leaf t v'), s'.
    split_and!; try done. cbn [lp_copy_plan]. unfold mbind, P_bind, mret, P_ret. by rewrite E.
Qed.
