(* ===== verification/FixTheorems.v ===== *)
(** * Fixing keys to what the condition says

    What [lp_optimize_where_multi_equal_ands] does to the keys of a plan over tables, as
    long as no column has to be looked up through a cross reference: which key it fixes
    for an equality is a function of the names ([choice]), and the value it fixes it to is
    the other side of the equality. *)
From stdpp Require Import gmap strings.
From S2P Require Import Prelude CMem LogicalPlan LogicalPlanTheorems Dnf DnfTheorems DnfClauses SqlStatement Optimize OptimizeStore.

Definition ret {A} (o : outcome A) : option A := match o with Ret x => Some x | _ => None end.
Lemma ret_some {A} (o : outcome A) x : ret o = Some x ↔ o = Ret x.
Proof. destruct o; cbn; naive_solver. Qed.

(** ** Columns and keys by name *)
(** A column of a table of the query: the table's identifier, its name, the column's. *)
Definition column_ref : Type := Z * list byte * list byte.
(** A key: its identifier and, for a key of a table, the names. *)
Definition key_ref : Type := Z * option (list byte * list byte).

Definition column_terms (s : planner) (p : LogicalPlan) : option column_ref :=
  match p with
  | Leaf LP_COLUMN_ALIAS (VColumnAlias a) =>
      c ← pl_column_aliases s !! a;
      match c.2 with
      | table_alias_STATEMENT _ (table_STATEMENT _ tableName _ _ _) _ id _ =>
          t ← ret (name_of (pl_values s) tableName);
          n ← ret (search_column_name (pl_values s) c.1);
          Some (id, t, n)
      | _ => None
      end
  | _ => None
  end.

Section keys.
Context (cat : catalog).

Definition key_terms (s : planner) (k : SqlKey) : option key_ref :=
  if k_table k =? null then if k_column k =? null then Some (k_unique_id k, None) else None
  else
    match cat_tables cat !! k_table k, cat_columns cat !! k_column k with
    | Some (table_STATEMENT _ tableName _ _ _), Some c =>
        t ← ret (name_of (pl_values s) tableName);
        n ← ret (name_of (pl_values s) (column_name c));
        Some (k_unique_id k, Some (t, n))
    | _, _ => None
    end.
Definition keys_are (s : planner) (ks : list ptr) (kts : list key_ref) : Prop :=
  Forall2 (λ p kt, ∃ k, pl_keys s !! p = Some k ∧ key_terms s k = Some kt) ks kts.
Definition chain_of (ks : list ptr) : LogicalPlan := key_list ((λ p, Leaf LP_KEY (VKey p)) <$> ks).

Lemma name_of_mono m m' st x : m ⊆ m' → name_of m st = Ret x → name_of m' st = Ret x.
Proof.
  intros Hm. destruct st; cbn; try done. unfold value_at. destruct (m !! p) eqn:E; [|done].
  by rewrite (lookup_weaken _ _ _ _ E Hm).
Qed.
Lemma column_name_mono m m' st x : m ⊆ m' → search_column_name m st = Ret x → search_column_name m' st = Ret x.
Proof.
  intros Hm. destruct st; cbn; try done; destruct ring as [|[] ring]; cbn; try done; by apply name_of_mono.
Qed.
Lemma column_terms_mono K s s' p c : changes K s s' → column_terms s p = Some c → column_terms s' p = Some c.
Proof.
  intros C. destruct p as [| |t v]; try done. destruct t; try done. destruct v as [a| | | | | |]; try done. cbn.
  destruct (pl_column_aliases s !! a) as [[col ta]|] eqn:E; [|done].
  rewrite (lookup_weaken _ _ _ _ E (ch_aliases _ _ _ C)). cbn. destruct ta; try done. destruct ta1; try done.
  destruct (ret (name_of (pl_values s) ta1_1)) as [tn|] eqn:E1; [|done]. apply ret_some in E1.
  rewrite (name_of_mono _ _ _ _ (ch_values _ _ _ C) E1). cbn.
  destruct (ret (search_column_name _ _)) as [n|] eqn:E2; [|done]. apply ret_some in E2.
  by rewrite (column_name_mono _ _ _ _ (ch_values _ _ _ C) E2).
Qed.
Lemma key_terms_mono K s s' k k' kt :
  changes K s s' → same_key k k' → key_terms s k = Some kt → key_terms s' k' = Some kt.
Proof.
  intros C (E1 & E2 & _ & E3 & _). unfold key_terms. rewrite E1, E2, E3.
  destruct (k_table k =? null); [done|]. destruct (cat_tables cat !! k_table k) as [[]|]; try done.
  destruct (cat_columns cat !! k_column k); [|done].
  destruct (ret (name_of _ tableName)) as [tn|] eqn:F1; [|done]. apply ret_some in F1.
  rewrite (name_of_mono _ _ _ _ (ch_values _ _ _ C) F1). cbn.
  destruct (ret (name_of _ (column_name _))) as [n|] eqn:F2; [|done]. apply ret_some in F2.
  by rewrite (name_of_mono _ _ _ _ (ch_values _ _ _ C) F2).
Qed.
Lemma keys_are_mono K s s' ks kts : changes K s s' → keys_are s ks kts → keys_are s' ks kts.
Proof.
  intros C. apply Forall2_impl. intros p kt (k & E & T). destruct (ch_fixed _ _ _ C _ _ E) as (k' & E' & S).
  exists k'. split; [done|]. by eapply key_terms_mono.
Qed.

(** ** Looking a column up *)
Definition matches (kt : key_ref) (c : column_ref) : bool :=
  (kt.1 =? c.1.1) &&
  match kt.2 with Some (t, n) => bool_decide (c.1.2 = t) && bool_decide (c.2 = n) | None => false end.
Fixpoint find_pos (kts : list key_ref) (c : column_ref) : option nat :=
  match kts with
  | [] => None
  | kt :: kts' => if matches kt c then Some O else S <$> find_pos kts' c
  end.
(** -1: not there; -2: the key of a derived table comes first. *)
Fixpoint find_index (kts : list key_ref) (c : column_ref) (i : Z) : Z :=
  match kts with
  | [] => -1
  | kt :: kts' =>
      match kt.2 with
      | None => -2
      | Some _ => if matches kt c then i else find_index kts' c (i + 1)
      end
  end.

Lemma key_matches_ok s k id t n (c : column_ref) :
  k_table k ≠ null → key_terms s k = Some (id, Some (t, n)) →
  key_matches cat k c.1.2 c.2 s = Ret (bool_decide (c.1.2 = t) && bool_decide (c.2 = n), s).
Proof.
  intros Hk. unfold key_terms. destruct (Z.eqb_spec (k_table k) null) as [?|_]; [done|].
  destruct (cat_tables cat !! k_table k) as [[]|] eqn:E1; try done.
  destruct (cat_columns cat !! k_column k) as [col|] eqn:E2; [|done].
  destruct (ret (name_of _ tableName)) as [tn|] eqn:F1; [|done]. apply ret_some in F1.
  destruct (ret (name_of _ (column_name _))) as [cn|] eqn:F2; [|done]. apply ret_some in F2.
  intros [= _ -> ->]. unfold key_matches, gets, lift, mbind, P_bind. cbn. rewrite E1. cbn. rewrite F1. cbn.
  case_bool_decide; [|done]. cbn. rewrite E2. cbn. by rewrite F2.
Qed.
Lemma key_terms_null s k kt : key_terms s k = Some kt →
  kt.1 = k_unique_id k ∧ (k_table k = null → k_column k = null ∧ kt.2 = None) ∧
  (k_table k ≠ null → ∃ t n, kt = (k_unique_id k, Some (t, n))).
Proof.
  unfold key_terms. destruct (Z.eqb_spec (k_table k) null) as [->|Hn].
  { destruct (Z.eqb_spec (k_column k) null) as [->|]; [|done]. by intros [= <-]. }
  destruct (cat_tables cat !! k_table k) as [[]|]; try done. destruct (cat_columns cat !! k_column k); [|done].
  destruct (ret (name_of _ tableName)) as [tn|]; [|done]. destruct (ret (name_of _ (column_name _))) as [n|]; [|done].
  intros [= <-]. split_and!; [done|done|]. intros _. eauto.
Qed.

Lemma chain_of_cons p ks : ∃ rest, chain_of (p :: ks) = Op LP_KEYS (Leaf LP_KEY (VKey p)) rest ∧
  rest = match ks with [] => NULL | _ => chain_of ks end.
Proof. destruct ks as [|q ks]; eexists; done. Qed.
Lemma chain_of_not_null p ks : is_null (chain_of (p :: ks)) = false.
Proof. by destruct ks. Qed.
Lemma chain_key_ok s p k t rest : pl_keys s !! p = Some k →
  chain_key (Op t (Leaf LP_KEY (VKey p)) rest) s = Ret ((p, k), s).
Proof. intros H. unfold chain_key, key_at, gets, lift, mbind, P_bind. cbn.
  rewrite (bool_decide_eq_true_2 _ eq_refl). cbn. by rewrite H.
Qed.

Lemma find_key_ok s ks kts id t n :
  keys_are s ks kts → ks ≠ [] →
  find_key cat (chain_of ks) id t n s = Ret (i ← find_pos kts (id, t, n); ks !! i, s).
Proof.
  induction 1 as [|p kt ks kts (k & E & T) H IH]; [done|]. intros _.
  destruct (chain_of_cons p ks) as (rest & -> & Er). cbn [find_key].
  rewrite (P_bind_run _ _ _ _ _ (chain_key_ok s p k LP_KEYS rest E)).
  destruct (key_terms_null s k kt T) as (Ei & Hn & Hs).
  assert (M : (if negb (k_unique_id k =? id) then mret false
     else if k_table k =? null then _ ← lift (c_assert (k_column k =? null)); mret false
     else key_matches cat k t n) s = Ret (matches kt (id, t, n), s)).
  { unfold matches. rewrite Ei. cbn [fst snd]. destruct (k_unique_id k =? id); [|done]. cbn [negb andb].
    destruct (Z.eqb_spec (k_table k) null) as [Hk|Hk].
    - destruct (Hn Hk) as [-> ->]. done.
    - destruct (Hs Hk) as (t' & n' & ->). cbn [snd].
      exact (key_matches_ok s k (k_unique_id k) t' n' (id, t, n) Hk T). }
  rewrite (P_bind_run _ _ _ _ _ M). cbn [find_pos]. destruct (matches kt (id, t, n)); [done|].
  destruct ks as [|q ks]; subst rest.
  { inversion H; subst. done. }
  rewrite chain_of_not_null, IH by done. by destruct (find_pos kts (id, t, n)).
Qed.
Lemma find_key_index_ok s ks kts id t n i :
  keys_are s ks kts → ks ≠ [] →
  find_key_index cat (chain_of ks) id t n i s = Ret (find_index kts (id, t, n) i, s).
Proof.
  intros H. revert i. induction H as [|p kt ks kts (k & E & T) H IH]; intros i; [done|]. intros _.
  destruct (chain_of_cons p ks) as (rest & -> & Er). cbn [find_key_index].
  rewrite (P_bind_run _ _ _ _ _ (chain_key_ok s p k LP_KEYS rest E)).
  destruct (key_terms_null s k kt T) as (Ei & Hn & Hs). cbn [find_index].
  destruct (Z.eqb_spec (k_table k) null) as [Hk|Hk].
  { by destruct (Hn Hk) as [-> ->]. }
  destruct (Hs Hk) as (t' & n' & ->). cbn [snd].
  assert (M : (if negb (k_unique_id k =? id) then mret false else key_matches cat k t n) s
     = Ret (matches (k_unique_id k, Some (t', n')) (id, t, n), s)).
  { unfold matches. cbn [fst snd]. destruct (k_unique_id k =? id); [|done]. cbn [negb andb].
    exact (key_matches_ok s k (k_unique_id k) t' n' (id, t, n) Hk T). }
  rewrite (P_bind_run _ _ _ _ _ M). destruct (matches _ _); [done|].
  destruct ks as [|q ks]; subst rest.
  { inversion H; subst. done. }
  by rewrite chain_of_not_null, IH.
Qed.

Lemma search_terms_ok d s p c : column_terms s p = Some c → search_terms d p s = Ret (c, s).
Proof.
  destruct p as [| |t v]; try done. destruct t; try done. destruct v as [a| | | | | |]; try done. cbn.
  destruct (pl_column_aliases s !! a) as [[col ta]|] eqn:E; [|done]. cbn.
  destruct ta; try done. destruct ta1; try done.
  destruct (ret (name_of _ _)) as [tn|] eqn:F1; [|done]. apply ret_some in F1. cbn.
  destruct (ret (search_column_name _ _)) as [n|] eqn:F2; [|done]. apply ret_some in F2. intros [= <-].
  unfold search_terms, unpack_column_alias, gets, lift, mbind, P_bind. cbn. rewrite E. cbn. rewrite F1. cbn. by rewrite F2.
Qed.
Lemma alias_id_ok s p c : column_terms s p = Some c → alias_id p s = Ret (c.1.1, s).
Proof.
  destruct p as [| |t v]; try done. destruct t; try done. destruct v as [a| | | | | |]; try done. cbn.
  destruct (pl_column_aliases s !! a) as [[col ta]|] eqn:E; [|done]. cbn.
  destruct ta; try done. destruct ta1; try done.
  destruct (ret (name_of _ _)) as [tn|]; [|done]. destruct (ret (search_column_name _ _)) as [n|]; [|done].
  intros [= <-]. unfold alias_id, unpack_column_alias, gets, lift, mbind, P_bind. cbn. by rewrite E.
Qed.

(** ** What an equality compares *)
Inductive side := SValue (v : SqlValueType * list byte) | SColumn (c : column_ref) | SOther.
Definition side_of (s : planner) (p : LogicalPlan) : option side :=
  match p with
  | NULL => None
  | Leaf LP_VALUE (VValue a) =>
      v ← pl_values s !! a; if plain_value v then Some (SValue (value_meaning v)) else None
  | Op LP_VALUE _ _ | Leaf LP_VALUE _ | Op LP_COLUMN_ALIAS _ _ => None
  | Leaf LP_COLUMN_ALIAS _ => SColumn <$> column_terms s p
  | _ => Some SOther
  end.
Lemma side_of_mono K s s' p x : changes K s s' → side_of s p = Some x → side_of s' p = Some x.
Proof.
  intros C. destruct p as [|t ? ?|t v]; [done|by destruct t|]. destruct t; try done; unfold side_of.
  - destruct (column_terms s (Leaf LP_COLUMN_ALIAS v)) as [c|] eqn:E; [|done].
    by rewrite (column_terms_mono _ _ _ _ _ C E).
  - destruct v as [| |a| | | |]; try done. destruct (pl_values s !! a) as [x'|] eqn:E; [|done].
    by rewrite (lookup_weaken _ _ _ _ E (ch_values _ _ _ C)).
Qed.

(** The position of a table: of its last key in the list, from 1; 0 when the table is not
    one of the query's. *)
Fixpoint last_index (ids : list Z) (i id acc : Z) : Z :=
  match ids with [] => acc | x :: ids' => last_index ids' (i + 1) id (if x =? id then i else acc) end.
Definition position (kts : list key_ref) (id : Z) : Z := last_index (fst <$> kts) 1 id 0.

(** [lp_verify_valid_for_key_fix] and the choice of the column to fix: [true] for the left. *)
Definition valid (kts : list key_ref) (x y : side) : bool :=
  match x, y with
  | SOther, _ | _, SOther => false
  | SColumn c, SColumn d =>
      let i1 := find_index kts c 0 in let i2 := find_index kts d 0 in
      if (i1 =? -1) && (i2 =? -1) then false
      else if ((i1 =? -1) || (i2 =? -1)) && (c.1.1 =? d.1.1) then false
      else negb ((i1 =? -2) || (i2 =? -2))
  | _, _ => true
  end.
Definition pick (kts : list key_ref) (x y : side) : option bool :=
  match x, y with
  | SColumn c, SColumn d =>
      let l := position kts c.1.1 in let r := position kts d.1.1 in
      if (l =? 0) && (r =? 0) then None else Some (negb ((r =? 0) || (l <? r)))
  | SColumn c, SValue _ => if position kts c.1.1 =? 0 then None else Some true
  | SValue _, SColumn d => if position kts d.1.1 =? 0 then None else Some false
  | _, _ => None
  end.
Definition choice (kts : list key_ref) (x y : side) : option bool :=
  if valid kts x y then pick kts x y else None.

Definition in_range (bound : Z) (x : side) : bool :=
  match x with SColumn c => (0 <=? c.1.1) && (c.1.1 <? bound) | _ => true end.
Definition is_key_column (kts : list key_ref) (x : side) : bool :=
  match x with SColumn c => bool_decide (is_Some (find_pos kts c)) | _ => false end.
(** An equality whose names resolve and that needs no cross reference. *)
Definition equality_ok (s : planner) (kts : list key_ref) (bound : Z) (l r : LogicalPlan) : bool :=
  match side_of s l, side_of s r with
  | Some x, Some y =>
      in_range bound x && in_range bound y &&
      match choice kts x y with Some c => is_key_column kts (if c : bool then x else y) | None => true end
  | _, _ => false
  end.

Lemma side_of_value s p v : side_of s p = Some (SValue v) →
  ∃ a x, p = Leaf LP_VALUE (VValue a) ∧ pl_values s !! a = Some x ∧ plain_value x = true ∧ v = value_meaning x.
Proof.
  destruct p as [|t ? ?|t w]; [done|by destruct t|]. destruct t; try done; unfold side_of.
  - by destruct (column_terms _ _).
  - destruct w as [| |a| | | |]; try done. destruct (pl_values s !! a) as [x|] eqn:E; [|done]. cbn.
    destruct (plain_value x) eqn:Ep; [|done]. intros [= <-]. by exists a, x.
Qed.
Lemma side_of_column s p c : side_of s p = Some (SColumn c) →
  column_terms s p = Some c ∧ ∃ a, p = Leaf LP_COLUMN_ALIAS (VColumnAlias a) ∧ is_Some (pl_column_aliases s !! a).
Proof.
  destruct p as [|t ? ?|t w]; [done|by destruct t|]. destruct t; try done; unfold side_of.
  - destruct (column_terms s _) as [c'|] eqn:E; [|done]. intros [= ->]. split; [done|].
    destruct w as [a| | | | | |]; try done. exists a. split; [done|]. cbn in E. destruct (pl_column_aliases s !! a); [eauto|done].
  - destruct w as [| |a| | | |]; try done. destruct (pl_values s !! a) as [x|]; [|done]. cbn. by destruct (plain_value x).
Qed.
(** The tests on the types of the operands. *)
Lemma side_of_types s p x : side_of s p = Some x →
  lp_is p LP_VALUE = Ret (match x with SValue _ => true | _ => false end) ∧
  lp_is p LP_COLUMN_ALIAS = Ret (match x with SColumn _ => true | _ => false end).
Proof.
  destruct x as [v|c|]; intros H.
  - apply side_of_value in H as (a & x & -> & _). done.
  - apply side_of_column in H as (_ & a & -> & _). done.
  - destruct p as [|t ? ?|t w]; [done|by destruct t|]. destruct t; try done; unfold side_of in H.
    + by destruct (column_terms s _).
    + destruct w as [| |a| | | |]; try done. destruct (pl_values s !! a) as [x|]; [|done]. cbn in H. by destruct (plain_value x).
Qed.

Section plan.
Context (plan : LogicalPlan) (ks : list ptr) (kts : list key_ref).
Context (plan_keys : lp_get_keys plan = Ret (chain_of ks)) (ks_some : ks ≠ []).

Lemma lp_get_key_ok s p c : keys_are s ks kts → column_terms s p = Some c →
  lp_get_key cat plan p s = Ret (i ← find_pos kts c; ks !! i, s).
Proof.
  intros K T. unfold lp_get_key. rewrite (P_bind_run _ _ _ _ _ (search_terms_ok false s p c T)).
  destruct c as [[id t] n]. rewrite (lift_bind_run _ _ _ _ plan_keys). by apply find_key_ok.
Qed.
Lemma lp_get_key_index_ok s p c : keys_are s ks kts → column_terms s p = Some c →
  lp_get_key_index cat plan p s = Ret (find_index kts c 0, s).
Proof.
  intros K T. unfold lp_get_key_index. rewrite (P_bind_run _ _ _ _ _ (search_terms_ok true s p c T)).
  destruct c as [[id t] n]. rewrite (lift_bind_run _ _ _ _ plan_keys). by apply find_key_index_ok.
Qed.

Lemma verify_columns_ok s l r c d : keys_are s ks kts →
  column_terms s l = Some c → column_terms s r = Some d →
  (i1 ← lp_get_key_index cat plan l;
   i2 ← lp_get_key_index cat plan r;
   if (i1 =? -1) && (i2 =? -1) then mret false else
   same ← (if (i1 =? -1) || (i2 =? -1) then
             l ← alias_id l; r ← alias_id r; mret (l =? r)
           else mret false);
   if same : bool then mret false else
   mret (negb ((i1 =? -2) || (i2 =? -2)))) s = Ret (valid kts (SColumn c) (SColumn d), s).
Proof.
  intros K Tl Tr. rewrite (P_bind_run _ _ _ _ _ (lp_get_key_index_ok s l c K Tl)).
  rewrite (P_bind_run _ _ _ _ _ (lp_get_key_index_ok s r d K Tr)). cbn [valid].
  destruct ((find_index kts c 0 =? -1) && (find_index kts d 0 =? -1)); [done|].
  destruct ((find_index kts c 0 =? -1) || (find_index kts d 0 =? -1)); cbn [andb].
  - erewrite P_bind_run; [|rewrite (P_bind_run _ _ _ _ _ (alias_id_ok s l c Tl)), (P_bind_run _ _ _ _ _ (alias_id_ok s r d Tr)); done].
    by destruct (c.1.1 =? d.1.1).
  - done.
Qed.
Lemma lp_verify_valid_for_key_fix_ok s l r x y : keys_are s ks kts →
  side_of s l = Some x → side_of s r = Some y →
  lp_verify_valid_for_key_fix cat plan l r s = Ret (valid kts x y, s).
Proof.
  intros K Hl Hr. destruct (side_of_types s l x Hl) as [Lv Lc]. destruct (side_of_types s r y Hr) as [Rv Rc].
  unfold lp_verify_valid_for_key_fix. rewrite (lift_bind_run _ _ _ _ Lv), (lift_bind_run _ _ _ _ Lc).
  destruct x as [v|c|]; cbn [orb negb]; [| |done];
    rewrite (lift_bind_run _ _ _ _ Rv), (lift_bind_run _ _ _ _ Rc); destruct y as [w|d|]; cbn [orb negb andb]; try done.
  apply verify_columns_ok; [done|by apply side_of_column..].
Qed.
End plan.

(** ** The array of positions *)
Definition positions (kts : list key_ref) (bound : Z) (a : list Z) : Prop :=
  ∀ id, 0 ≤ id < bound → a !! Z.to_nat id = Some (position kts id).

Lemma array_get_ok kts bound a id : positions kts bound a → 0 ≤ id < bound → array_get a id = Ret (position kts id).
Proof.
  intros Ha Hid. unfold array_get. destruct (Z.ltb_spec id 0); [lia|]. by rewrite (Ha id Hid).
Qed.
Lemma choose_sides_ok s kts bound a l r x y :
  positions kts bound a → bound ≤ pl_counter s →
  side_of s l = Some x → side_of s r = Some y → in_range bound x = true → in_range bound y = true →
  x ≠ SOther → y ≠ SOther →
  choose_sides a l r s = Ret ((λ c : bool, if c then (l, r) else (r, l)) <$> pick kts x y, s).
Proof.
  intros Ha Hb Hl Hr Bx By Nx Ny. destruct (side_of_types s l x Hl) as [_ Lc]. destruct (side_of_types s r y Hr) as [_ Rc].
  unfold choose_sides. rewrite (lift_bind_run _ _ _ _ Lc), (lift_bind_run _ _ _ _ Rc).
  destruct x as [v|c|], y as [w|d|]; cbn [andb pick]; try done.
  - apply side_of_column in Hr as [Tr _]. rewrite (P_bind_run _ _ _ _ _ (alias_id_ok s r d Tr)).
    cbn in By. rewrite (lift_bind_run _ _ _ _ (array_get_ok kts bound a d.1.1 Ha ltac:(lia))).
    by destruct (position kts d.1.1 =? 0).
  - apply side_of_column in Hl as [Tl _]. rewrite (P_bind_run _ _ _ _ _ (alias_id_ok s l c Tl)).
    cbn in Bx. rewrite (lift_bind_run _ _ _ _ (array_get_ok kts bound a c.1.1 Ha ltac:(lia))).
    by destruct (position kts c.1.1 =? 0).
  - apply side_of_column in Hl as [Tl _]. apply side_of_column in Hr as [Tr _]. cbn in Bx, By.
    rewrite (P_bind_run _ _ _ _ _ (alias_id_ok s r d Tr)), (P_bind_run _ _ _ _ _ (alias_id_ok s l c Tl)).
    assert (A : ∀ b, b = true → c_assert b = Ret ()) by (by intros ? ->).
    rewrite (P_bind_run _ _ s (pl_counter s) s eq_refl).
    do 4 (erewrite lift_bind_run; [|apply A; lia]).
    pose proof (array_get_ok kts bound a c.1.1 Ha ltac:(lia)) as Gl.
    pose proof (array_get_ok kts bound a d.1.1 Ha ltac:(lia)) as Gr.
    rewrite (lift_bind_run _ _ _ _ Gl). destruct (Z.eqb_spec (position kts c.1.1) 0) as [E|E].
    + erewrite P_bind_run; [|by apply lift_run]. cbn [andb].
      destruct (Z.eqb_spec (position kts d.1.1) 0) as [E'|E']; [done|].
      rewrite (lift_bind_run _ _ _ _ Gr), (proj2 (Z.eqb_neq _ _) E'). cbn [orb].
      by destruct (position kts c.1.1 <? position kts d.1.1).
    + rewrite (P_bind_run _ _ s 1 s eq_refl). cbn [andb].
      rewrite (lift_bind_run _ _ _ _ Gr).
      by destruct ((position kts d.1.1 =? 0) || (position kts c.1.1 <? position kts d.1.1)).
Qed.

(** ** One equality *)
Lemma side_of_like s p q x : like eq s p q → copyable s q = true → x ≠ SOther →
  side_of s p = Some x → side_of s q = Some x.
Proof.
  intros L Y Nx H. destruct x as [v|c|]; [| |done].
  - apply side_of_value in H as (a & x & -> & Ea & _ & ->). destruct q as [| |t w]; try done.
    destruct L as [-> L]. destruct w as [| |b| | | |]; try done. destruct L as (x1 & x2 & E1 & E2 & M).
    assert (x1 = x) as -> by congruence. unfold side_of. cbn [copyable copyable_leaf] in Y. rewrite E2 in *. cbn.
    by rewrite Y, M.
  - apply side_of_column in H as (T & a & -> & _). destruct q as [| |t w]; try done.
    destruct L as [-> L]. destruct w as [b| | | | | |]; try done. destruct L as (c' & E1 & E2).
    cbn in T. rewrite E1 in T. unfold side_of, column_terms. rewrite E2. cbn in T |- *. by rewrite T.
Qed.
Lemma side_of_copyable s p x : side_of s p = Some x → x ≠ SOther → copyable s p = true.
Proof.
  intros H Hx. destruct x as [v|c|]; [| |done].
  - apply side_of_value in H as (a & x & -> & E & Hp & _). cbn. by rewrite E.
  - apply side_of_column in H as (_ & a & -> & E). cbn. by apply bool_decide_eq_true.
Qed.

(** The key is fixed to the other side of this equality, chosen as [choice] says. *)
Definition fixed_by (s : planner) (kts : list key_ref) (k : SqlKey) (l r : LogicalPlan) : Prop :=
  k_type k = LP_KEY_FIX ∧
  ∃ (c : column_ref) y, key_terms s k = Some (c.1.1, Some (c.1.2, c.2)) ∧ side_of s (k_value k) = Some y ∧
    ((side_of s l = Some (SColumn c) ∧ side_of s r = Some y ∧ choice kts (SColumn c) y = Some true) ∨
     (side_of s l = Some y ∧ side_of s r = Some (SColumn c) ∧ choice kts y (SColumn c) = Some false)).
Lemma fixed_by_mono K s s' kts k l r : changes K s s' → fixed_by s kts k l r → fixed_by s' kts k l r.
Proof.
  intros C (F & c & y & T & V & H). split; [done|]. exists c, y.
  split; [by eapply key_terms_mono; eauto|]. split; [by eapply side_of_mono|].
  destruct H as [(H1 & H2 & H3)|(H1 & H2 & H3)]; [left|right]; (split_and!; [by eapply side_of_mono..|done]).
Qed.

Lemma find_pos_lookup kts c i : find_pos kts c = Some i → kts !! i = Some (c.1.1, Some (c.1.2, c.2)).
Proof.
  revert i. induction kts as [|kt kts IH]; intros i; [done|]. cbn. destruct (matches kt c) eqn:M.
  - intros [= <-]. unfold matches in M. destruct kt as [id [[t n]|]]; cbn in *; [|by rewrite andb_false_r in M].
    apply andb_true_iff in M as [?%Z.eqb_eq [?%bool_decide_eq_true ?%bool_decide_eq_true]%andb_true_iff]. by subst.
  - destruct (find_pos kts c) as [j|]; [|done]. intros [= <-]. cbn. by apply IH.
Qed.

(** The writes of a step to the keys of the plan: each key is as it was, or fixed by an
    equality of the list. *)
Definition keys_step (s s' : planner) (ks : list ptr) (kts : list key_ref) (equalities : list (LogicalPlan * LogicalPlan)) : Prop :=
  ∀ p k, p ∈ ks → pl_keys s' !! p = Some k →
    pl_keys s !! p = Some k ∨ ∃ l r, (l, r) ∈ equalities ∧ fixed_by s' kts k l r.
Lemma keys_step_refl s ks kts eqs : keys_step s s ks kts eqs.
Proof. intros p k Hp H. by left. Qed.

Definition set_fixed (k : SqlKey) (value : LogicalPlan) : SqlKey :=
  {| k_table := k_table k; k_column := k_column k; k_key_num := k_key_num k;
     k_unique_id := k_unique_id k; k_value := value; k_insert := k_insert k;
     k_type := LP_KEY_FIX; k_owner := k_owner k; k_is_cross_reference_key := k_is_cross_reference_key k;
     k_cross_reference_output_key := k_cross_reference_output_key k;
     k_cross_reference_column_alias := k_cross_reference_column_alias k;
     k_cross_reference_filename := k_cross_reference_filename k |}.
Lemma fix_changes s p k value : store_ok s → pl_keys s !! p = Some k →
  let s' := with_keys (λ _, <[p := set_fixed k value]> (pl_keys s)) s in
  store_ok s' ∧ changes [p] s s'.
Proof.
  intros W E. split.
  - split; cbn; [|apply W..]. intros q kq H. destruct (decide (q = p)) as [->|Hq]; [by eapply (ok_keys _ W)|].
    apply (ok_keys _ W q kq). rewrite <- H. symmetry. by apply lookup_insert_ne.
  - split; try done; cbn.
    + intros q r H. eauto.
    + intros q kq H Hq. rewrite <- H. apply lookup_insert_ne. set_solver.
    + intros q kq H. destruct (decide (q = p)) as [->|Hq].
      * exists (set_fixed k value). split; [apply lookup_insert_eq|]. by assert (kq = k) as -> by congruence.
      * exists kq. split; [|done]. rewrite <- H. by apply lookup_insert_ne.
Qed.

Section fixing.
Context (optimize : LogicalPlan → P LogicalPlan).
Context (plan : LogicalPlan) (ks : list ptr) (kts : list key_ref).
Context (plan_keys : lp_get_keys plan = Ret (chain_of ks)) (ks_some : ks ≠ []).

(** [lp_opt_fix_key_to_const], with the copy it makes. *)
Definition fix_key (key : ptr) (other : LogicalPlan) : P (LogicalPlan * Z) :=
  k ← key_at key;
  if bool_decide (k_type k = LP_KEY_ADVANCE) && bool_decide (k_cross_reference_output_key k = null) then
    value ← lp_copy_plan other;
    keys ← gets pl_keys;
    '(keys, fixed) ← lift (lp_opt_fix_key_to_const keys key value);
    _ ← put (with_keys (λ _, keys));
    mret (plan, if fixed : bool then 1 else 0)
  else mret (plan, 0).

Lemma fix_key_ok s p k other y :
  store_ok s → keys_are s ks kts → p ∈ ks → pl_keys s !! p = Some k → side_of s other = Some y → y ≠ SOther →
  ∃ n s', fix_key p other s = Ret ((plan, n), s') ∧ store_ok s' ∧ changes ks s s' ∧
    ∀ q kq, q ∈ ks → pl_keys s' !! q = Some kq → pl_keys s !! q = Some kq ∨
      (q = p ∧ k_type kq = LP_KEY_FIX ∧ same_key k kq ∧ side_of s' (k_value kq) = Some y).
Proof.
  intros W K Hp E Hy Ny. unfold fix_key. erewrite P_bind_run by (unfold key_at, gets, lift, mbind, P_bind; cbn; by rewrite E).
  destruct (bool_decide (k_type k = LP_KEY_ADVANCE) && bool_decide (k_cross_reference_output_key k = null)) eqn:Ea.
  2:{ exists 0, s. split; [done|]. split; [done|]. split; [apply changes_refl|]. by left. }
  destruct (lp_copy_plan_ok other s W (side_of_copyable _ _ _ Hy Ny)) as (v & s1 & Ec & W1 & C1 & L & Y & _).
  rewrite (P_bind_run _ _ _ _ _ Ec).
  assert (E1 : pl_keys s1 !! p = Some k) by (apply C1; [done|set_solver]).
  destruct (fix_changes s1 p k v W1 E1) as [W2 C2].
  eexists 1, (with_keys (λ _, <[p := set_fixed k v]> (pl_keys s1)) s1). split.
  { unfold gets, lift, mbind, P_bind, lp_opt_fix_key_to_const. cbn. rewrite E1, Ea. done. }
  split; [done|]. split.
  { eapply changes_trans; [by apply changes_none|]. apply (changes_weaken [p]); [set_solver|done]. }
  intros q kq Hq H. cbn in H. destruct (decide (q = p)) as [->|Hn].
  - right. assert (kq = set_fixed k v) as ->.
    { assert (<[p := set_fixed k v]> (pl_keys s1) !! p = Some (set_fixed k v)) by apply lookup_insert_eq. congruence. }
    split_and!; [done|done|done|]. cbn. eapply (side_of_mono [p]); [done|].
    eapply side_of_like; [done..|]. by eapply side_of_mono.
  - left. assert (pl_keys s1 !! q = Some kq) as H' by (rewrite <- H; symmetry; by apply lookup_insert_ne).
    apply list_elem_of_lookup in Hq as [i Hi]. destruct (Forall2_lookup_l _ _ _ _ _ K Hi) as (kt & _ & kq' & E' & _).
    rewrite (ch_keys _ _ _ C1 _ _ E' ltac:(set_solver)) in H'. congruence.
Qed.

Lemma fix_equals_tail s p k c other y l r :
  store_ok s → keys_are s ks kts → p ∈ ks → pl_keys s !! p = Some k →
  key_terms s k = Some (c.1.1, Some (c.1.2, c.2)) → side_of s other = Some y → y ≠ SOther →
  (side_of s l = Some (SColumn c) ∧ side_of s r = Some y ∧ choice kts (SColumn c) y = Some true) ∨
  (side_of s l = Some y ∧ side_of s r = Some (SColumn c) ∧ choice kts y (SColumn c) = Some false) →
  ∃ n s', fix_key p other s = Ret ((plan, n), s') ∧ store_ok s' ∧ changes ks s s' ∧ keys_step s s' ks kts [(l, r)].
Proof.
  intros W K Hp E T Hy Ny H. destruct (fix_key_ok s p k other y W K Hp E Hy Ny) as (n & s' & -> & W' & C & F).
  exists n, s'. split; [done|]. split; [done|]. split; [done|]. intros q kq Hq Eq.
  destruct (F q kq Hq Eq) as [?|(-> & Ft & S & V)]; [by left|right]. exists l, r. split; [set_solver|].
  split; [done|]. exists c, y. split; [by eapply key_terms_mono|]. split; [done|].
  destruct H as [(H1 & H2 & H3)|(H1 & H2 & H3)]; [left|right]; (split_and!; [by eapply side_of_mono..|done]).
Qed.

Lemma is_key_column_found s c : keys_are s ks kts → is_key_column kts (SColumn c) = true →
  ∃ p k, p ∈ ks ∧ pl_keys s !! p = Some k ∧ key_terms s k = Some (c.1.1, Some (c.1.2, c.2)) ∧
    (i ← find_pos kts c; ks !! i) = Some p.
Proof.
  intros K [i Hi]%bool_decide_eq_true. pose proof (find_pos_lookup kts c i Hi) as Hk.
  destruct (Forall2_lookup_r _ _ _ _ _ K Hk) as (p & Hp & k & Ek & Tk). exists p, k.
  split; [by eapply list_elem_of_lookup_2|]. split; [done|]. split; [done|]. by rewrite Hi.
Qed.
Lemma key_for_ok s column c p : keys_are s ks kts → column_terms s column = Some c →
  (i ← find_pos kts c; ks !! i) = Some p → key_for cat optimize plan column s = Ret ((Some p, plan), s).
Proof.
  intros K T H. unfold key_for. rewrite (P_bind_run _ _ _ _ _ (lp_get_key_ok plan ks kts plan_keys ks_some s column c K T)).
  by rewrite H.
Qed.

Lemma fix_equals_ok s bound a l r :
  store_ok s → keys_are s ks kts → positions kts bound a → bound ≤ pl_counter s →
  equality_ok s kts bound l r = true →
  ∃ n s', fix_equals cat optimize plan a l r s = Ret ((plan, n), s') ∧ store_ok s' ∧ changes ks s s' ∧
    keys_step s s' ks kts [(l, r)].
Proof.
  intros W K Ha Hb H. unfold equality_ok in H.
  destruct (side_of s l) as [x|] eqn:Hl; [|done]. destruct (side_of s r) as [y|] eqn:Hr; [|done].
  apply andb_true_iff in H as [[Bx By]%andb_true_iff H]. unfold fix_equals.
  rewrite (P_bind_run _ _ _ _ _ (lp_verify_valid_for_key_fix_ok plan ks kts plan_keys ks_some s l r x y K Hl Hr)).
  assert (Done : ∃ n s', Ret ((plan, 0), s) = Ret ((plan, n), s') ∧ store_ok s' ∧ changes ks s s' ∧
    keys_step s s' ks kts [(l, r)]).
  { exists 0, s. split; [done|]. split; [done|]. split; [apply changes_refl|apply keys_step_refl]. }
  unfold choice in H. destruct (valid kts x y) eqn:Ev; [|done]. cbn [negb].
  assert (Nx : x ≠ SOther) by (by intros ->). assert (Ny : y ≠ SOther) by (intros ->; by destruct x).
  rewrite (P_bind_run _ _ _ _ _ (choose_sides_ok s kts bound a l r x y Ha Hb Hl Hr Bx By Nx Ny)).
  destruct (pick kts x y) as [[]|] eqn:Ep; cbn [fmap option_fmap option_map]; [| |done].
  - assert (∃ c, x = SColumn c) as [c ->] by (destruct x, y; cbn in Ep; eauto; by repeat case_match).
    destruct (is_key_column_found s c K H) as (p & k & Hp & Ek & Tk & Gk).
    erewrite P_bind_run by (by eapply key_for_ok; [|apply side_of_column|]).
    apply (fix_equals_tail s p k c r y l r); try done. left. unfold choice. by rewrite Ev.
  - assert (∃ c, y = SColumn c) as [c ->] by (destruct x, y; cbn in Ep; eauto; by repeat case_match).
    destruct (is_key_column_found s c K H) as (p & k & Hp & Ek & Tk & Gk).
    erewrite P_bind_run by (by eapply key_for_ok; [|apply side_of_column|]).
    apply (fix_equals_tail s p k c l x l r); try done. right. unfold choice. by rewrite Ev.
Qed.

(** ** All equalities of a conjunction *)
Fixpoint equalities (cond : LogicalPlan) : list (LogicalPlan * LogicalPlan) :=
  match cond with
  | Op LP_BOOLEAN_AND a b => equalities a ++ equalities b
  | Op LP_BOOLEAN_EQUALS l r => [(l, r)]
  | _ => []
  end.
(** What is asked of a comparison of the condition, negated or not. *)
Definition atom_ok (s : planner) (bound : Z) (t : LPActionType) (l r : LogicalPlan) : Prop :=
  t ≠ LP_WHERE ∧ (t = LP_BOOLEAN_EQUALS ∨ t = LP_BOOLEAN_NOT_EQUALS → equality_ok s kts bound l r = true).
Lemma atom_ok_invert s bound t t' l r : invert_type t = Some t' → atom_ok s bound t l r → atom_ok s bound t' l r.
Proof. destruct t; intros [= <-] [_ H]; (split; [done|]); intros [|]; try done; auto. Qed.
Lemma equality_ok_mono K s s' bound l r : changes K s s' → equality_ok s kts bound l r = true → equality_ok s' kts bound l r = true.
Proof.
  intros C. unfold equality_ok. destruct (side_of s l) as [x|] eqn:El; [|done]. destruct (side_of s r) as [y|] eqn:Er; [|done].
  by rewrite (side_of_mono _ _ _ _ _ C El), (side_of_mono _ _ _ _ _ C Er).
Qed.
Lemma atom_ok_mono K s s' bound t l r : changes K s s' → atom_ok s bound t l r → atom_ok s' bound t l r.
Proof. intros C [H1 H2]. split; [done|]. intros H. eapply equality_ok_mono; eauto. Qed.

Lemma keys_step_trans s1 s2 s3 e1 e2 : changes ks s2 s3 →
  keys_step s1 s2 ks kts e1 → keys_step s2 s3 ks kts e2 → keys_step s1 s3 ks kts (e1 ++ e2).
Proof.
  intros C H1 H2 p k Hp E. destruct (H2 p k Hp E) as [E'|(l & r & Hin & F)].
  - destruct (H1 p k Hp E') as [?|(l & r & Hin & F)]; [by left|right]. exists l, r.
    split; [apply elem_of_app; by left|]. by eapply fixed_by_mono.
  - right. exists l, r. split; [apply elem_of_app; by right|done].
Qed.

Lemma helper_ok cond s bound a :
  conj_only cond = true → negatable false cond = true → atoms (atom_ok s bound) cond →
  store_ok s → keys_are s ks kts → positions kts bound a → bound ≤ pl_counter s →
  ∃ n s', lp_optimize_where_multi_equal_ands_helper cat optimize plan cond a s = Ret ((plan, n), s') ∧
    store_ok s' ∧ changes ks s s' ∧ keys_step s s' ks kts (equalities cond).
Proof.
  revert s. induction cond as [|t l IHl r IHr|t v]; intros s Hc Hn Ho W K Ha Hb; [done| |].
  - assert (Done : ∃ n s', Ret ((plan, 0), s) = Ret ((plan, n), s') ∧ store_ok s' ∧ changes ks s s' ∧
      keys_step s s' ks kts []).
    { exists 0, s. split; [done|]. split; [done|]. split; [apply changes_refl|apply keys_step_refl]. }
    destruct (decide (t = LP_BOOLEAN_AND)) as [->|Hand].
    { cbn in Hc. apply andb_true_iff in Hc as [Cl Cr]. destruct Ho as [Ol Or].
      cbn in Hn. apply andb_true_iff in Hn as [Nl Nr]. destruct (IHl s Cl Nl Ol W K Ha Hb) as (n1 & s1 & E1 & W1 & C1 & S1).
      destruct (IHr s1) as (n2 & s2 & E2 & W2 & C2 & S2); try done.
      { eapply atoms_impl; [|exact Or]. intros ???. by eapply atom_ok_mono. }
      { by eapply keys_are_mono. }
      { by rewrite (ch_counter _ _ _ C1). }
      exists (n1 + n2), s2. split; [|split; [done|]; split; [by eapply changes_trans|by eapply keys_step_trans]].
      cbn. unfold mbind, P_bind. rewrite E1. cbn. by rewrite E2. }
    destruct (decide (t = LP_BOOLEAN_EQUALS)) as [->|Heq].
    { destruct Ho as [_ Ho]. by apply (fix_equals_ok s bound); auto. }
    assert (t ≠ LP_WHERE) by (destruct (connective t) eqn:Ec; [by intros ->|by apply (atoms_other (atom_ok s bound)) in Ho as [? _]]).
    destruct t; try done.
  - destruct Ho as [Hw He]. exists 0, s. split; [|split; [done|]; split; [apply changes_refl|apply keys_step_refl]].
    assert (t ≠ LP_BOOLEAN_EQUALS) by (intros ->; by specialize (He (or_introl eq_refl))).
    cbn in Hc. destruct t; try done.
Qed.

(** ** The array *)
Fixpoint number (ids : list Z) (i : Z) (a : list Z) : list Z :=
  match ids with [] => a | id :: ids' => number ids' (i + 1) (<[Z.to_nat id := i]> a) end.
Lemma number_lookup ids i a id x :
  Forall (λ id, 0 ≤ id < zlen a) ids → 0 ≤ id → a !! Z.to_nat id = Some x →
  number ids i a !! Z.to_nat id = Some (last_index ids i id x).
Proof.
  revert i a x. induction ids as [|y ids IH]; intros i a x Hf Hid Hx; [done|]. apply Forall_cons_iff in Hf as [Hy Hf].
  cbn. apply IH; [by unfold zlen; rewrite length_insert|done|]. destruct (Z.eqb_spec y id) as [->|Hne].
  - apply list_lookup_insert_eq. unfold zlen in Hy. lia.
  - rewrite list_lookup_insert_ne by lia. done.
Qed.
Lemma number_keys_ok s ks' kts' i a :
  keys_are s ks' kts' → ks' ≠ [] → Forall (λ kt : key_ref, 0 ≤ kt.1 < zlen a) kts' →
  number_keys (chain_of ks') i a s = Ret (number (fst <$> kts') i a, s).
Proof.
  intros K. revert i a. induction K as [|p kt ks' kts' (k & E & T) K IH]; intros i a; [done|]. intros _ Hf.
  apply Forall_cons_iff in Hf as [Hid Hf]. destruct (chain_of_cons p ks') as (rest & -> & Er). cbn [number_keys].
  rewrite (P_bind_run _ _ _ _ _ (chain_key_ok s p k LP_KEYS rest E)).
  destruct (key_terms_null s k kt T) as (Ei & _). rewrite <- Ei.
  assert (A : array_set a kt.1 i = Ret (<[Z.to_nat kt.1 := i]> a)).
  { unfold array_set. destruct (Z.ltb_spec kt.1 0); [lia|]. by destruct (Z.leb_spec (zlen a) kt.1); [lia|]. }
  rewrite (lift_bind_run _ _ _ _ A). cbn [fmap list_fmap number].
  destruct ks' as [|q ks']; subst rest; [by inversion K; subst|].
  apply IH; [done|]. by unfold zlen; rewrite length_insert.
Qed.
Lemma positions_number bound : 0 ≤ bound → Forall (λ kt : key_ref, 0 ≤ kt.1 < bound) kts →
  positions kts bound (number (fst <$> kts) 1 (replicate (Z.to_nat bound) 0)).
Proof.
  intros Hb Hf id Hid. apply number_lookup; [|lia|by apply lookup_replicate_2; lia].
  rewrite zlen_replicate, Z2Nat.id by lia. by apply Forall_fmap.
Qed.

(** Every equality of the conjunction is used as [choice] says, and nothing else changes. *)
Lemma lp_optimize_where_multi_equal_ands_ok cond rest s :
  cond = NULL ∨ conj_only cond = true ∧ negatable false cond = true ∧ atoms (atom_ok s (pl_counter s - 1)) cond →
  store_ok s → keys_are s ks kts → 0 ≤ pl_counter s - 1 → Forall (λ kt : key_ref, 0 ≤ kt.1 < pl_counter s - 1) kts →
  ∃ n s', lp_optimize_where_multi_equal_ands cat optimize plan (Op LP_WHERE cond rest) s = Ret ((plan, n), s') ∧
    store_ok s' ∧ changes ks s s' ∧ keys_step s s' ks kts (equalities cond).
Proof.
  intros Hc W K Hb Hf. unfold lp_optimize_where_multi_equal_ands. rewrite (P_bind_run _ _ s _ s eq_refl).
  rewrite (lift_bind_run _ _ _ ()) by (by destruct (Z.ltb_spec (pl_counter s - 1) 0); [lia|]).
  rewrite (lift_bind_run _ _ _ _ plan_keys).
  rewrite (P_bind_run _ _ _ _ _ (number_keys_ok s ks kts 1 _ K ks_some ltac:(by rewrite zlen_replicate, Z2Nat.id))).
  pose proof (positions_number _ Hb Hf) as Pos.
  destruct Hc as [->|(C1 & C2 & C3)].
  { exists 0, s. split; [done|]. split; [done|]. split; [apply changes_refl|apply keys_step_refl]. }
  destruct (helper_ok cond s (pl_counter s - 1) _ C1 C2 C3 W K Pos ltac:(lia)) as (n & s' & E & R).
  exists n, s'. split; [|done]. rewrite <- E.
  destruct cond as [|t l r|t v]; [done| |done]. 
  destruct (decide (t = LP_WHERE)) as [->|Ht]; [by destruct C3 as [? _]|]. by destruct t.
Qed.
End fixing.
End keys.
