(* ===== verification/OptimizeTheorems.v ===== *)
(** * The optimiser keeps the rows of a query

    A plan over tables is split into a union of plans, one per clause of its condition,
    and the keys of each are fixed to what its clause says: together they select exactly
    the rows the condition selects. *)
From stdpp Require Import gmap strings.
From S2P Require Import Prelude CMem LogicalPlan LogicalPlanTheorems Dnf DnfTheorems DnfClauses SqlStatement Optimize OptimizeStore FixTheorems.

(** ** Plans of SELECT statements *)
Record query := Query {
  q_columns : LogicalPlan;
  q_tables : LogicalPlan;
  q_keys : list ptr;
  q_where : LogicalPlan;
  q_rest : LogicalPlan;
  q_keywords : ptr;
  q_output : LogicalPlan;
}.
Definition plan_of (q : query) : LogicalPlan :=
  Op LP_INSERT
    (Op LP_PROJECT (q_columns q)
      (Op LP_SELECT (q_tables q)
        (Op LP_CRITERIA (chain_of (q_keys q))
          (Op LP_SELECT_OPTIONS (Op LP_WHERE (q_where q) (q_rest q)) (Leaf LP_KEYWORDS (VKeywords (q_keywords q)))))))
    (q_output q).
Definition with_where (q : query) (c : LogicalPlan) : query :=
  Query (q_columns q) (q_tables q) (q_keys q) c (q_rest q) (q_keywords q) (q_output q).
Definition with_query_keys (q : query) (ks : list ptr) : query :=
  Query (q_columns q) (q_tables q) ks (q_where q) (q_rest q) (q_keywords q) (q_output q).

Lemma chain_of_keys ks : ∃ a b, chain_of ks = Op LP_KEYS a b.
Proof. destruct ks as [|p [|q ks]]; by eexists _, _. Qed.
Lemma get_lp_op t a b side t' (c := if side : bool then b else a) :
  lp_type c = Ret t' → get_lp (Op t a b) side t' = Ret c.
Proof. intros H. unfold get_lp. cbn. fold c. rewrite H. cbn. by rewrite (bool_decide_eq_true_2 _ eq_refl). Qed.

Section accessors.
Context (q : query).
Lemma select_of : lp_get_select (plan_of q) = Ret (Op LP_SELECT (q_tables q)
        (Op LP_CRITERIA (chain_of (q_keys q))
          (Op LP_SELECT_OPTIONS (Op LP_WHERE (q_where q) (q_rest q)) (Leaf LP_KEYWORDS (VKeywords (q_keywords q)))))).
Proof. done. Qed.
Lemma keys_of : lp_get_keys (plan_of q) = Ret (chain_of (q_keys q)).
Proof. unfold lp_get_keys. cbn. by destruct (chain_of_keys (q_keys q)) as (a & b & ->). Qed.
Lemma tables_of : lp_type (q_tables q) = Ret LP_TABLE_JOIN → lp_get_table_join (plan_of q) = Ret (q_tables q).
Proof. intros H. unfold lp_get_table_join. rewrite select_of. cbn [mbind outcome_bind]. by apply get_lp_op. Qed.
Lemma where_of : lp_get_select_where (plan_of q) = Ret (Op LP_WHERE (q_where q) (q_rest q)).
Proof. done. Qed.
Lemma keywords_of : lp_get_select_keywords (plan_of q) = Ret (Leaf LP_KEYWORDS (VKeywords (q_keywords q))).
Proof. done. Qed.
Lemma set_where_of c : set_where (plan_of q) c = Ret (plan_of (with_where q c)).
Proof. done. Qed.
Lemma set_tables_of t : lp_type (q_tables q) = Ret LP_TABLE_JOIN →
  set_table_join (plan_of q) t = Ret (plan_of (Query (q_columns q) t (q_keys q) (q_where q) (q_rest q) (q_keywords q) (q_output q))).
Proof. done. Qed.
Lemma set_keys_of ks : set_keys (plan_of q) (chain_of ks) = Ret (plan_of (with_query_keys q ks)).
Proof. done. Qed.
End accessors.

(** ** Copies *)
Lemma chain_of_app ks : key_leaves (chain_of ks) = ks.
Proof.
  induction ks as [|p ks IH]; [done|]. destruct (chain_of_cons p ks) as (rest & -> & ->). cbn.
  destruct ks; [done|]. by rewrite IH.
Qed.
Lemma like_chain R s ks c : like R s (chain_of ks) c →
  ∃ ks', c = chain_of ks' ∧
    Forall2 (λ p p', ∃ k k', pl_keys s !! p = Some k ∧ pl_keys s !! p' = Some k' ∧ R k k') ks ks'.
Proof.
  revert c. induction ks as [|p ks IH]; intros c H.
  - destruct c as [|t a b|]; try done. destruct H as (-> & Ha & Hb). exists []. split; [|constructor].
    by destruct a, b.
  - destruct (chain_of_cons p ks) as (rest & E & Er). rewrite E in H. clear E.
    destruct c as [|t a b|]; try done. destruct H as (-> & Ha & Hb).
    destruct a as [| |t v]; try done. destruct Ha as [-> Ha]. destruct v as [| | | |p'| |]; try done.
    destruct ks as [|q ks]; subst rest.
    + destruct b; try done. exists [p']. split; [done|]. by constructor.
    + destruct (IH b Hb) as (ks' & -> & F). exists (p' :: ks'). split; [|by constructor].
      inversion F; subst. by destruct (chain_of_cons p' (y :: l')) as (? & -> & ->).
Qed.
(** Two queries alike but for the condition. *)
Definition alike (s : planner) (q q' : query) : Prop :=
  like same_key s (plan_of (with_where q NULL)) (plan_of (with_where q' NULL)).
Lemma alike_mono K s s' q q' : changes K s s' → alike s q q' → alike s' q q'.
Proof. apply like_mono. Qed.
Lemma alike_trans s q q' q'' : alike s q q' → alike s q' q'' → alike s q q''.
Proof. apply like_trans. Qed.
Lemma like_where R s q q' : like R s (plan_of q) (plan_of q') → like R s (plan_of (with_where q NULL)) (plan_of (with_where q' NULL)).
Proof. cbn. tauto. Qed.

Lemma like_plan_of s q p : like eq s (plan_of q) p → ∃ q', p = plan_of q' ∧ alike s q q' ∧
  lp_type (q_tables q') = lp_type (q_tables q) ∧
  Forall2 (λ p p', ∃ k, pl_keys s !! p = Some k ∧ pl_keys s !! p' = Some k) (q_keys q) (q_keys q').
Proof.
  intros H0. pose proof H0 as H. unfold plan_of in H.
  destruct p as [|t p out|]; try done. destruct H as (-> & H & Hout).
  destruct p as [|t cols sel|]; try done. destruct H as (-> & Hcols & H).
  destruct sel as [|t tabs crit|]; try done. destruct H as (-> & Htabs & H).
  destruct crit as [|t ks opts|]; try done. destruct H as (-> & Hks & H).
  destruct opts as [|t wh kw|]; try done. destruct H as (-> & Hwh & Hkw).
  destruct wh as [|t w rest|]; try done. destruct Hwh as (-> & Hw & Hrest).
  destruct kw as [| |t v]; try done. destruct Hkw as [-> Hkw]. destruct v as [| | | | |kw|]; try done.
  destruct (like_chain _ _ _ _ Hks) as (ks' & -> & F).
  exists (Query cols tabs ks' w rest kw out). split; [done|]. split.
  - apply (like_impl eq); [by intros k k' ->|]. by apply like_where.
  - split.
    + cbn. destruct (q_tables q) as [| |], tabs; try done; by destruct Htabs as [-> _].
    + eapply Forall2_impl; [|exact F]. intros p p' (k & k' & E1 & E2 & ->). eauto.
Qed.
Lemma plan_key_leaves q p : p ∈ q_keys q → p ∈ key_leaves (plan_of q).
Proof. intros H. cbn. rewrite chain_of_app. set_solver. Qed.

Lemma keys_are_copy cat s ks ks' kts :
  Forall2 (λ p p', ∃ k, pl_keys s !! p = Some k ∧ pl_keys s !! p' = Some k) ks ks' →
  keys_are cat s ks kts → keys_are cat s ks' kts.
Proof.
  intros K. revert kts. induction K as [|p p' ks ks' (k & E1 & E2) K IH]; intros kts Ks;
    inversion Ks as [|? kt ? kts' (k' & E & Tk) Ks']; subst; constructor.
  - exists k. split; [done|]. by assert (k' = k) as <- by congruence.
  - by apply IH.
Qed.

(** The plans of a union of plans. *)
Fixpoint union_leaves (p : LogicalPlan) : option (list LogicalPlan) :=
  match p with
  | Op LP_SET_OPERATION (Op LP_SET_OPTION (Op LP_SET_UNION_ALL NULL NULL) NULL) (Op LP_PLANS a b) =>
      x ← union_leaves a; y ← union_leaves b; Some (x ++ y)
  | Op LP_INSERT _ _ => Some [p]
  | _ => None
  end.
Definition all_keys (qs : list query) : list ptr := concat (q_keys <$> qs).

Section optimising.
Context (cat : catalog) (kts : list key_ref).

(** ** Queries whose keys are known *)
Definition condition_ok (s : planner) (cond : LogicalPlan) : Prop :=
  cond = NULL ∨ negatable false cond = true ∧ atoms (atom_ok kts s (pl_counter s - 1)) cond.
Record ready (s : planner) (q : query) : Prop := {
  re_tables : lp_type (q_tables q) = Ret LP_TABLE_JOIN;
  re_some : q_keys q ≠ [];
  re_keys : keys_are cat s (q_keys q) kts;
  re_advance p k : p ∈ q_keys q → pl_keys s !! p = Some k → k_type k = LP_KEY_ADVANCE;
  re_copyable : copyable s (plan_of q) = true;
  re_where : condition_ok s (q_where q);
  re_counter : 0 ≤ pl_counter s - 1;
  re_ids : Forall (λ kt : key_ref, 0 ≤ kt.1 < pl_counter s - 1) kts;
}.
Lemma keys_present s ks p : keys_are cat s ks kts → p ∈ ks → ∃ k, pl_keys s !! p = Some k.
Proof.
  intros K [i Hi]%list_elem_of_lookup. destruct (Forall2_lookup_l _ _ _ _ _ K Hi) as (kt & _ & k & E & _). eauto.
Qed.
Lemma condition_ok_mono K s s' c : changes K s s' → condition_ok s c → condition_ok s' c.
Proof.
  intros C [->|[N A]]; [by left|right]. split; [done|]. rewrite (ch_counter _ _ _ C).
  eapply atoms_impl; [|exact A]. intros ???. by eapply atom_ok_mono.
Qed.
Lemma ready_mono K s s' q : changes K s s' → (∀ p, p ∈ q_keys q → p ∉ K) → ready s q → ready s' q.
Proof.
  intros C Hk []. split; try done.
  - by eapply keys_are_mono.
  - intros p k Hp E. destruct (keys_present s _ p re_keys0 Hp) as [k' E'].
    rewrite (ch_keys _ _ _ C _ _ E' (Hk p Hp)) in E. simplify_eq. eauto.
  - by eapply copyable_mono.
  - by eapply condition_ok_mono.
  - by rewrite (ch_counter _ _ _ C).
  - by rewrite (ch_counter _ _ _ C).
Qed.
Lemma copyable_where s q c : copyable s (plan_of q) = true → copyable s c = true → copyable s (plan_of (with_where q c)) = true.
Proof. cbn. rewrite !andb_true_iff. tauto. Qed.
Lemma copyable_get_where s q : copyable s (plan_of q) = true → copyable s (q_where q) = true.
Proof. cbn. rewrite !andb_true_iff. tauto. Qed.
Lemma ready_where s q c : ready s q → copyable s c = true → condition_ok s c → ready s (with_where q c).
Proof. intros [] Hc Ho. split; try done. by apply copyable_where. Qed.

(** ** A copy of a query *)
Lemma copy_query s q : store_ok s → ready s q →
  ∃ q' s', lp_copy_plan (plan_of q) s = Ret (plan_of q', s') ∧ store_ok s' ∧ changes [] s s' ∧
    ready s' (with_where q' (q_where q)) ∧ alike s' q q' ∧ Forall (λ p, pl_next s ≤ p < pl_next s') (q_keys q').
Proof.
  intros W R. destruct (lp_copy_plan_ok _ s W (re_copyable _ _ R)) as (p & s' & E & W' & C & L & Y & F).
  destruct (like_plan_of s' q p L) as (q' & -> & A & T & K). exists q', s'.
  split; [done|]. split; [done|]. split; [done|]. split; [|split; [done|]].
  - assert (R' : ready s' q) by (apply (ready_mono [] s s' q C); [intros p _; apply not_elem_of_nil|done]).
    split; cbn.
    + rewrite T. apply R.
    + intros En. rewrite En in K. inversion K as [En'|]. by apply (re_some _ _ R).
    + eapply keys_are_copy; [exact K|apply R'].
    + intros p' k Hp' Ek. apply list_elem_of_lookup in Hp' as [i Hi].
      destruct (Forall2_lookup_r _ _ _ _ _ K Hi) as (p & Hp & k' & E1 & E2).
      assert (k' = k) as -> by congruence. eapply (re_advance _ _ R'); [|done]. by eapply list_elem_of_lookup_2.
    + apply copyable_where; [done|]. eapply copyable_mono; [done|]. apply copyable_get_where, R.
    + apply R'.
    + apply R'.
    + apply R'.
  - apply Forall_forall. intros p Hp. rewrite Forall_forall in F. apply F. rewrite <- list_elem_of_In in *. by apply plan_key_leaves.
Qed.

(** ** One copy per disjunct *)
Lemma mark_expansion_ok s q : store_ok s → copyable s (plan_of q) = true →
  ∃ s', mark_expansion (plan_of q) s = Ret ((), s') ∧ store_ok s' ∧ changes [] s s' ∧ pl_next s' = pl_next s.
Proof.
  intros W Y. assert (is_Some (pl_keywords s !! q_keywords q)) as [r E].
  { cbn in Y. rewrite !andb_true_iff, bool_decide_eq_true in Y. tauto. }
  unfold mark_expansion. rewrite (lift_bind_run _ _ _ _ (keywords_of q)).
  erewrite P_bind_run by (by unfold gets). rewrite (lift_bind_run _ _ _ _ (found_some _ _ E)).
  case_decide as Hr.
  { exists s. split; [done|]. split; [done|]. split; [apply changes_refl|done]. }
  eexists. split; [done|]. split; [|split; [|done]].
  - split; cbn; [apply W|apply W| |apply W]. intros p w H. destruct (decide (p = q_keywords q)) as [->|Hp]; [by eapply (ok_keywords _ W)|].
    rewrite lookup_insert_ne in H by done. by eapply (ok_keywords _ W).
  - split; try done; cbn.
    + intros p w H. destruct (decide (p = q_keywords q)) as [->|Hp].
      * rewrite lookup_insert_eq. eexists. split; [done|]. assert (w = r) as -> by congruence.
        unfold unmarked. rewrite list.filter_app. by rewrite app_nil_r.
      * rewrite lookup_insert_ne by done. eauto.
    + intros p k H. exists k. by split.
Qed.

(** No two of them share a key. *)
Fixpoint separate (qs : list query) : Prop :=
  match qs with
  | [] => True
  | q :: qs' => Forall (λ q', ∀ p, p ∈ q_keys q → p ∉ q_keys q') qs' ∧ separate qs'
  end.

Lemma expand_ok cond s q :
  store_ok s → ready s q → spine cond = true ∨ cond = NULL →
  Forall (λ c, copyable s c = true ∧ condition_ok s c) (terms cond) →
  ∃ copies rest s', expand (plan_of q) cond s = Ret ((plan_of <$> copies, rest), s') ∧ store_ok s' ∧ changes [] s s' ∧
    terms cond = (q_where <$> copies) ++ [rest] ∧ Forall (ready s') copies ∧ Forall (alike s' q) copies ∧
    separate copies ∧ Forall (λ q', ∀ p, p ∈ q_keys q' → pl_next s ≤ p) copies.
Proof.
  revert s. induction cond as [|t a _ b IH|t v]; intros s W R Hs Ht.
  - exists [], NULL, s. split_and!; try done. apply changes_refl.
  - destruct (decide (t = LP_BOOLEAN_OR)) as [->|Hor].
    2:{ exists [], (Op t a b), s. split; [by destruct t|]. split; [done|]. split; [apply changes_refl|].
        split; [by destruct t|]. by split_and!. }
    cbn [terms] in Ht. apply list.Forall_cons in Ht as [[Ya Oa] Hb].
    destruct (mark_expansion_ok s q W (re_copyable _ _ R)) as (s1 & E1 & W1 & C1 & N1).
    assert (R1 : ready s1 q) by (apply (ready_mono [] s s1 q C1); [intros p _; apply not_elem_of_nil|done]).
    destruct (copy_query s1 q W1 R1) as (q' & s2 & E2 & W2 & C2 & R2 & A2 & F2).
    assert (C12 : changes [] s s2) by (by eapply changes_trans).
    destruct (IH s2) as (copies & rest & s3 & E3 & W3 & C3 & T3 & R3 & A3 & S3 & F3); try done.
    { apply (ready_mono [] s s2 q C12); [intros p _; apply not_elem_of_nil|done]. }
    { destruct Hs as [Hs|]; [by left|done]. }
    { eapply Forall_impl; [|exact Hb]. intros c [Y O]. split; [by eapply copyable_mono|by eapply condition_ok_mono]. }
    exists (with_where q' a :: copies), rest, s3. split_and!.
    + cbn [expand]. rewrite (P_bind_run _ _ _ _ _ E1), (P_bind_run _ _ _ _ _ E2), (lift_bind_run _ _ _ _ (set_where_of q' a)).
      by rewrite (P_bind_run _ _ _ _ _ E3).
    + done.
    + by eapply changes_trans.
    + cbn [terms fmap list_fmap app]. by rewrite T3.
    + constructor; [|done]. apply (ready_mono [] s2 s3 _ C3); [intros p _; apply not_elem_of_nil|].
      apply (ready_where _ (with_where q' (q_where q))); [done|by eapply copyable_mono|by eapply condition_ok_mono].
    + constructor; [|done]. by apply (alike_mono [] s2).
    + cbn [separate]. split; [|done]. eapply Forall_impl; [|exact F3]. cbn. intros qc Hc p Hp Hin.
      specialize (Hc p Hin). rewrite list.Forall_forall in F2. specialize (F2 p Hp). cbn in F2. lia.
    + pose proof (ch_next _ _ _ C2). constructor.
      * cbn. intros p Hp. rewrite list.Forall_forall in F2. specialize (F2 p Hp). cbn in F2. lia.
      * eapply Forall_impl; [|exact F3]. cbn. intros qc Hc p Hp. specialize (Hc p Hp). lia.
  - exists [], (Leaf t v), s. split; [|split; [done|]; split; [apply changes_refl|]; by split_and!].
    destruct Hs as [Hs|]; [|done]. by destruct t.
Qed.

(** ** What comes out *)
(** Each key steps through its table or is fixed by an equality of the query's condition. *)
Definition sound (s : planner) (q : query) : Prop :=
  keys_are cat s (q_keys q) kts ∧
  ∀ p k, p ∈ q_keys q → pl_keys s !! p = Some k →
    k_type k = LP_KEY_ADVANCE ∨ ∃ l r, (l, r) ∈ equalities (q_where q) ∧ fixed_by cat s kts k l r.
Lemma sound_mono K s s' q : changes K s s' → (∀ p, p ∈ q_keys q → p ∉ K) → sound s q → sound s' q.
Proof.
  intros C Hk [Ks H]. split; [by eapply keys_are_mono|]. intros p k Hp E.
  destruct (keys_present s _ p Ks Hp) as [k' E']. rewrite (ch_keys _ _ _ C _ _ E' (Hk p Hp)) in E. simplify_eq.
  destruct (H p k Hp E') as [?|(l & r & Hin & F)]; [by left|right]. exists l, r. split; [done|]. by eapply fixed_by_mono.
Qed.

(** The plan [result] made of the queries [srcs]: the union of the queries [qs]. *)
Record optimised (s s' : planner) (srcs : list query) (result : LogicalPlan) (qs : list query) : Prop := {
  op_store : store_ok s';
  op_changes : changes (all_keys srcs) s s';
  op_leaves : union_leaves result = Some (plan_of <$> qs);
  op_alike : Forall (λ q', ∃ q, q ∈ srcs ∧ alike s' q q') qs;
  op_sound : Forall (sound s') qs;
  op_keys : Forall (λ q', ∀ p, p ∈ q_keys q' → p ∈ all_keys srcs ∨ pl_next s ≤ p) qs;
  op_atoms (Q : LPActionType → LogicalPlan → LogicalPlan → Prop) :
    (∀ t t' a b, invert_type t = Some t' → Q t a b → Q t' a b) →
    Forall (λ q, atoms Q (q_where q)) srcs → Forall (λ q, atoms Q (q_where q)) qs;
  op_holds (C : Conditions) : existsb holds (q_where <$> qs) = existsb holds (q_where <$> srcs);
}.

Lemma all_keys_app qs qs' : all_keys (qs ++ qs') = all_keys qs ++ all_keys qs'.
Proof. unfold all_keys. by rewrite fmap_app, concat_app. Qed.
Lemma elem_of_all_keys qs p : p ∈ all_keys qs ↔ ∃ q, q ∈ qs ∧ p ∈ q_keys q.
Proof.
  induction qs as [|q qs IH]; [cbn; split; [by intros ?%not_elem_of_nil|by intros (q & Hq%not_elem_of_nil & _)]|].
  change (all_keys (q :: qs)) with (q_keys q ++ all_keys qs). rewrite elem_of_app, IH.
  split.
  - intros [H|(q' & Hq & H)]; [exists q|exists q']; (split; [apply elem_of_cons; auto|done]).
  - intros (q' & [->|Hq]%elem_of_cons & H); [by left|right; by exists q'].
Qed.
Lemma separate_last qs q : separate (qs ++ [q]) → separate qs ∧ ∀ p, p ∈ all_keys qs → p ∉ q_keys q.
Proof.
  induction qs as [|q' qs IH]; cbn [separate app]; [intros _; split; [done|by intros p ?%not_elem_of_nil]|].
  intros [H [S F]%IH].
  apply Forall_app in H as [H1 H2]. apply Forall_inv in H2. split; [done|]. intros p.
  change (all_keys (q' :: qs)) with (q_keys q' ++ all_keys qs). intros [?|?]%elem_of_app; [by apply H2|by apply F].
Qed.

Lemma optimised_app s s1 s2 srcs r1 qs1 q r2 qs2 :
  store_ok s → keys_are cat s (q_keys q) kts → (∀ p, p ∈ all_keys srcs → p ∉ q_keys q) →
  optimised s s1 srcs r1 qs1 → optimised s1 s2 [q] r2 qs2 →
  optimised s s2 (srcs ++ [q]) (Op LP_SET_OPERATION (Op LP_SET_OPTION (malloc_lp LP_SET_UNION_ALL) NULL) (Op LP_PLANS r1 r2)) (qs1 ++ qs2).
Proof.
  intros W Kq Hd O1 O2. pose proof (op_changes _ _ _ _ _ O1) as C1. pose proof (op_changes _ _ _ _ _ O2) as C2.
  assert (Eq : all_keys [q] = q_keys q) by apply app_nil_r. rewrite Eq in C2. split.
  - apply O2.
  - rewrite all_keys_app, Eq. eapply changes_trans; (eapply changes_weaken; [|done]); intros p Hp; apply elem_of_app; auto.
  - cbn. rewrite (op_leaves _ _ _ _ _ O1), (op_leaves _ _ _ _ _ O2). cbn. by rewrite fmap_app.
  - apply Forall_app. split.
    + eapply Forall_impl; [|apply (op_alike _ _ _ _ _ O1)]. cbn. intros q' (q0 & Hq & A). exists q0. rewrite elem_of_app. split; [by left|by eapply alike_mono].
    + eapply Forall_impl; [|apply (op_alike _ _ _ _ _ O2)]. cbn. intros q' (q0 & Hq & A). exists q0. rewrite elem_of_app. split; [by right|done].
  - apply Forall_app. split; [|apply (op_sound _ _ _ _ _ O2)]. pose proof (op_keys _ _ _ _ _ O1) as Hk. pose proof (op_sound _ _ _ _ _ O1) as Hs.
    apply list.Forall_forall. intros q' Hq'. rewrite list.Forall_forall in Hk, Hs.
    apply (sound_mono _ s1 _ _ C2); [|by apply Hs]. intros p Hp Hin. destruct (Hk q' Hq' p Hp) as [H|H]; [by eapply Hd|].
    destruct (keys_present s _ p Kq Hin) as [k E]. apply (ok_keys _ W) in E. lia.
  - apply Forall_app. rewrite all_keys_app. split.
    + eapply Forall_impl; [|apply (op_keys _ _ _ _ _ O1)]. cbn. intros q' H p Hp. rewrite elem_of_app. destruct (H p Hp); auto.
    + eapply Forall_impl; [|apply (op_keys _ _ _ _ _ O2)]. rewrite Eq. intros q' H p Hp. rewrite elem_of_app. pose proof (ch_next _ _ _ C1).
      destruct (H p Hp); [by auto|]. right. lia.
  - intros Q HQ [H1 H2]%Forall_app. apply Forall_app. split; [by apply (op_atoms _ _ _ _ _ O1)|by apply (op_atoms _ _ _ _ _ O2)].
  - intros C. rewrite !fmap_app, !existsb_app. by rewrite (op_holds _ _ _ _ _ O1), (op_holds _ _ _ _ _ O2).
Qed.

(** ** The union of several queries *)
Abbreviation optimize := (optimize_logical_plan cat).
Definition union_of (first : query) (copies : list query) : LogicalPlan :=
  fold_left (λ new_plan p, lp_join_plans new_plan p LP_SET_UNION_ALL) (plan_of <$> copies) (plan_of first).
Lemma union_of_snoc q0 copies q : union_of q0 (copies ++ [q]) =
  Op LP_SET_OPERATION (Op LP_SET_OPTION (malloc_lp LP_SET_UNION_ALL) NULL) (Op LP_PLANS (union_of q0 copies) (plan_of q)).
Proof.
  unfold union_of. rewrite fmap_app, fold_left_app. cbn [fmap list_fmap fold_left].
  apply lp_join_plans_op; [|done]. induction copies as [|q' copies _] using rev_ind; [done|].
  rewrite fmap_app, fold_left_app. cbn [fmap list_fmap fold_left]. unfold lp_join_plans. by destruct (fold_left _ _ _).
Qed.
Lemma optimize_set fuel a b o s a' s1 b' s2 :
  optimize fuel a s = Ret (a', s1) → optimize fuel b s1 = Ret (b', s2) →
  optimize (S fuel) (Op LP_SET_OPERATION o (Op LP_PLANS a b)) s = Ret (Op LP_SET_OPERATION o (Op LP_PLANS a' b'), s2).
Proof.
  intros Ea Eb. cbn [optimize_logical_plan]. unfold optimize_body. rewrite (lift_bind_run _ _ _ LP_SET_OPERATION eq_refl).
  rewrite decide_True by done. unfold optimize_operands. do 2 (erewrite lift_bind_run by done).
  rewrite (P_bind_run _ _ _ _ _ Ea). do 2 (erewrite lift_bind_run by done).
  rewrite (P_bind_run _ _ _ _ _ Eb). by erewrite lift_bind_run.
Qed.

Definition optimises (fuel : nat) (s : planner) (srcs : list query) (plan : LogicalPlan) : Prop :=
  ∃ result s' qs, optimize fuel plan s = Ret (result, s') ∧ optimised s s' srcs result qs.
Lemma union_ok (f m : nat) :
  (∀ fuel s q, (f ≤ fuel)%nat → store_ok s → ready s q → (clauses false (q_where q) ≤ m)%nat →
     optimises fuel s [q] (plan_of q)) →
  ∀ copies q0 fuel s, (f + length copies ≤ fuel)%nat → store_ok s → separate (q0 :: copies) →
    Forall (λ q, ready s q ∧ (clauses false (q_where q) ≤ m)%nat) (q0 :: copies) →
    optimises fuel s (q0 :: copies) (union_of q0 copies).
Proof.
  intros Hleaf copies q0. induction copies as [|q copies IH] using rev_ind; intros fuel s Hf W Hs Hr.
  - apply list.Forall_singleton in Hr as [R Hc]. apply Hleaf; [|done..]. cbn in Hf. lia.
  - rewrite length_app in Hf. cbn in Hf. destruct fuel as [|fuel]; [lia|].
    apply (separate_last (q0 :: copies) q) in Hs as [Hs Hd].
    change (q0 :: copies ++ [q]) with ((q0 :: copies) ++ [q]) in *. apply Forall_app in Hr as [Hr Hq].
    apply Forall_inv in Hq as [Rq Cq].
    destruct (IH fuel s ltac:(lia) W Hs Hr) as (r1 & s1 & qs1 & E1 & O1).
    assert (Rq1 : ready s1 q).
    { eapply ready_mono; [apply (op_changes _ _ _ _ _ O1)| |done]. intros p Hp Hin. by apply (Hd p Hin). }
    destruct (Hleaf fuel s1 q ltac:(lia) (op_store _ _ _ _ _ O1) Rq1 Cq) as (r2 & s2 & qs2 & E2 & O2).
    eexists _, s2, (qs1 ++ qs2). rewrite union_of_snoc. split; [by eapply optimize_set|].
    eapply optimised_app; [done|apply Rq|done..].
Qed.

(** ** A conjunction *)
Lemma first_key ks : ks ≠ [] → ∃ p rest, chain_of ks = Op LP_KEYS (Leaf LP_KEY (VKey p)) rest.
Proof. destruct ks as [|p ks]; [done|]. intros _. exists p. destruct (chain_of_cons p ks) as (rest & -> & _). eauto. Qed.
(** The optimiser on a query that has its keys: the condition is normalised and split. *)
Lemma optimize_keyed fuel s q c : lp_type (q_tables q) = Ret LP_TABLE_JOIN → q_keys q ≠ [] → lp_make_normal_disjunctive_form (q_where q) = Ret c →
  optimize (S fuel) (plan_of q) s =
  ('(copies, cur) ← expand (plan_of (with_where q c)) c;
   plan ← lift (set_where (plan_of (with_where q c)) cur);
   match copies with
   | [] =>
       where_ ← lift (lp_get_select_where plan);
       '(plan, _) ← lp_optimize_where_multi_equal_ands cat (optimize fuel) plan where_;
       mret plan
   | _ => optimize fuel (fold_left (λ new_plan p, lp_join_plans new_plan p LP_SET_UNION_ALL) copies plan)
   end) s.
Proof.
  intros Ht Hk Ec. destruct (first_key _ Hk) as (p & rest & Ek).
  cbn [optimize_logical_plan]. unfold optimize_body. rewrite (lift_bind_run _ _ _ LP_INSERT eq_refl).
  rewrite decide_False by done. rewrite (lift_bind_run _ _ _ _ (tables_of q Ht)).
  rewrite (lift_bind_run _ _ _ _ (keys_of q)), Ek. rewrite (lift_bind_run _ _ _ (Leaf LP_KEY (VKey p)) eq_refl).
  rewrite (P_bind_run _ _ s (plan_of q) s eq_refl), (lift_bind_run _ _ _ _ (where_of q)).
  rewrite (lift_bind_run _ _ _ (q_where q) eq_refl), (lift_bind_run _ _ _ _ Ec). done.
Qed.

(** What the normal form of the condition of a query is good for. *)
Lemma normal_form s q : ready s q → ∃ c, lp_make_normal_disjunctive_form (q_where q) = Ret c ∧
  (spine c = true ∨ c = NULL) ∧ (∀ C : Conditions, holds c = holds (q_where q)) ∧
  clauses false c = clauses false (q_where q) ∧ copyable s c = true ∧ condition_ok s c ∧
  Forall (λ x, copyable s x = true ∧ condition_ok s x) (terms c) ∧
  (or_node c = false → c = NULL ∨ conj_only c = true) ∧
  ∀ Q, (∀ t t' a b, invert_type t = Some t' → Q t a b → Q t' a b) → atoms Q (q_where q) → Forall (atoms Q) (terms c).
Proof.
  intros R. pose proof (copyable_get_where s q (re_copyable _ _ R)) as Y. destruct (re_where _ _ R) as [E|[N A]].
  { rewrite E. exists NULL. split; [done|]. split; [by right|]. split; [done|]. split; [done|]. split; [done|].
    split; [by left|]. split; [|split; [by left|]].
    - apply list.Forall_singleton. split; [done|by left].
    - intros Q _ _. by apply list.Forall_singleton. }
  destruct (dnf_spec (lp_size (q_where q)) (q_where q) (le_n _) N) as (c & Ec & Sc & Hc).
  set (Q := atom_ok kts s (pl_counter s - 1)) in *.
  destruct (dnf_keeps Q (λ t t' a b, atom_ok_invert kts s _ t t' a b) _ _ _ N Ec) as (Kn & Kc & Ka & Ko).
  assert (Yc : copyable s c = true).
  { apply (dnf_hereditary (λ p, copyable s p = true)) in Ec; [done|..|done|done]; cbn.
    - intros t a b. rewrite !andb_true_iff. tauto.
    - by intros a b -> ->.
    - by intros a b -> ->.
    - intros t t' a b Hi. rewrite !andb_true_iff. intros [[_ ?] ?]. destruct t; try discriminate Hi; by injection Hi as <-.
    - intros t t' v Hi. destruct t; try discriminate Hi; by injection Hi as <-. }
  exists c. split; [done|]. split; [by left|]. split; [done|]. split; [done|]. split; [done|]. split.
  { right. split; [by apply negatable_terms|]. apply atoms_terms. by apply Ka. }
  split; [|split; [intros Ho; right; by apply Ko|]].
  2:{ intros Q' HQ' A'. by destruct (dnf_keeps Q' HQ' _ _ _ N Ec) as (_ & _ & Ka' & _); apply Ka'. }
  specialize (Ka A).
  assert (Ft : Forall (λ p, copyable s p = true) (terms c)).
  { apply terms_hereditary; [|done]. intros t a b. cbn. rewrite !andb_true_iff. tauto. }
  apply list.Forall_forall. intros x Hx. rewrite list.Forall_forall in Ka, Kn, Ft.
  split; [by apply Ft|]. right. split; [by apply Kn|by apply Ka].
Qed.

Lemma single_ok fuel s q c : store_ok s → ready s q → ready s (with_where q c) →
  c = NULL ∨ conj_only c = true → terms c = [c] → spine c = true ∨ c = NULL → (∀ C : Conditions, holds c = holds (q_where q)) →
  (∀ Q, (∀ t t' a b, invert_type t = Some t' → Q t a b → Q t' a b) → atoms Q (q_where q) → Forall (atoms Q) (terms c)) →
  lp_make_normal_disjunctive_form (q_where q) = Ret c → optimises (S fuel) s [q] (plan_of q).
Proof.
  intros W R Rc Hc Ht Hs Hh Hat Ec. unfold optimises. rewrite (optimize_keyed fuel s q c (re_tables _ _ R) (re_some _ _ R) Ec).
  assert (Ee : expand (plan_of (with_where q c)) c s = Ret (([], c), s)).
  { destruct c as [|t a b|t v]; [done| |].
    - by destruct t; try done; cbn in Hc; destruct Hc.
    - destruct Hs as [Hs|]; [|done]. by destruct t. }
  rewrite (P_bind_run _ _ _ _ _ Ee), (lift_bind_run _ _ _ _ (set_where_of _ c)), (lift_bind_run _ _ _ _ (where_of _)).
  destruct (lp_optimize_where_multi_equal_ands_ok cat (optimize fuel) (plan_of (with_where q c)) (q_keys q) kts
    (keys_of (with_where q c)) (re_some _ _ R) c (q_rest q) s) as (n & s' & E & W' & C & St).
  { destruct Hc as [->|Hc]; [by left|]. destruct (re_where _ _ Rc) as [?|[N A]]; [by left|by right]. }
  { done. } { apply R. } { apply R. } { apply R. }
  exists (plan_of (with_where q c)), s', [with_where q c]. split; [by rewrite (P_bind_run _ _ _ _ _ E)|].
  assert (Eq : all_keys [q] = q_keys q) by apply app_nil_r. split; rewrite ?Eq; try done.
  - apply list.Forall_singleton. exists q. split; [by apply list_elem_of_singleton|].
    apply (like_refl s' (plan_of (with_where q NULL))).
    eapply copyable_mono; [done|]. apply copyable_where; [apply R|done].
  - apply list.Forall_singleton. split; [by eapply keys_are_mono; [|apply R]|]. intros p k Hp Ep.
    destruct (St p k Hp Ep) as [E0|F]; [left; by eapply (re_advance _ _ R)|by right].
  - apply list.Forall_singleton. by left.
  - intros Q HQ H%Forall_inv. apply list.Forall_singleton. specialize (Hat Q HQ H).
    rewrite Ht in Hat. by apply Forall_inv in Hat.
  - intros Cn. cbn. by rewrite Hh.
Qed.

(** ** Any condition *)
Lemma changes_old K K' s s' : store_ok s → (∀ p, p ∈ K' → pl_next s ≤ p) → changes (K ++ K') s s' → changes K s s'.
Proof.
  intros W Hf C. split; try apply C. intros p k E Hp. apply C; [done|]. intros [?|H]%elem_of_app; [done|].
  apply Hf in H. apply (ok_keys _ W) in E. lia.
Qed.
Lemma sum_bound (l : list LogicalPlan) x : x ∈ l →
  (clauses false x + (length l - 1) ≤ sum_list_with (clauses false) l)%nat.
Proof.
  assert (L : ∀ l, (length l ≤ sum_list_with (clauses false) l)%nat).
  { clear. intros l. induction l as [|y l IH]; [done|]. cbn. pose proof (clauses_pos false y). lia. }
  induction l as [|y l IH]; [by intros ?%not_elem_of_nil|]. intros [->|Hx]%elem_of_cons; cbn.
  - specialize (L l). lia.
  - specialize (IH Hx). pose proof (clauses_pos false y). destruct l; [by apply not_elem_of_nil in Hx|]. cbn in *. lia.
Qed.

(** From the store before the copies were made. *)
Lemma optimised_back s s1 s' q c rest copies result qs :
  store_ok s → changes [] s s1 → copyable s1 (plan_of (with_where q rest)) = true →
  terms c = (q_where <$> copies) ++ [rest] → Forall (alike s1 (with_where q c)) copies →
  Forall (λ q', ∀ p, p ∈ q_keys q' → pl_next s ≤ p) copies →
  optimised s1 s' (with_where q rest :: copies) result qs → optimised s s' [with_where q c] result qs.
Proof.
  intros W C1 Y Ht Ac Fc O. pose proof (op_changes _ _ _ _ _ O) as C.
  assert (Eq : all_keys [with_where q c] = q_keys q) by apply app_nil_r.
  change (all_keys (with_where q rest :: copies)) with (q_keys q ++ all_keys copies) in C.
  assert (Hc : ∀ p, p ∈ all_keys copies → pl_next s ≤ p).
  { intros p (q' & Hq & Hp)%elem_of_all_keys. rewrite list.Forall_forall in Fc. by eapply Fc. }
  split; rewrite ?Eq.
  - apply O.
  - eapply changes_old; [done|exact Hc|]. eapply changes_trans; [by apply changes_none|done].
  - apply O.
  - eapply Forall_impl; [|apply (op_alike _ _ _ _ _ O)]. intros q' (q0 & Hq & A). exists (with_where q c).
    split; [by apply list_elem_of_singleton|]. apply elem_of_cons in Hq as [->|Hq]; [exact A|].
    rewrite list.Forall_forall in Ac. eapply alike_trans; [|done]. eapply alike_mono; [done|]. by apply Ac.
  - apply (op_sound _ _ _ _ _ O).
  - eapply Forall_impl; [|apply (op_keys _ _ _ _ _ O)]. intros q' H p Hp. pose proof (ch_next _ _ _ C1).
    destruct (H p Hp) as [Hin|?]; [|right; lia].
    change (all_keys (with_where q rest :: copies)) with (q_keys q ++ all_keys copies) in Hin.
    apply elem_of_app in Hin as [?|?]; auto.
  - intros Q HQ H%Forall_inv. apply (op_atoms _ _ _ _ _ O Q HQ). cbn in H. apply atoms_terms in H.
    rewrite Ht in H. apply Forall_app in H as [H1 H2%Forall_inv]. constructor; [done|]. rewrite Forall_fmap in H1. exact H1.
  - intros Cn. rewrite (op_holds _ _ _ _ _ O). cbn. rewrite orb_false_r, (holds_terms c), Ht, existsb_app. cbn.
    by rewrite orb_false_r, orb_comm.
Qed.

Lemma optimise_split m fuel s q c copies rest s1 :
  (∀ n, (n < m)%nat → ∀ fuel s q, (2 * n ≤ fuel)%nat → store_ok s → ready s q → (clauses false (q_where q) ≤ n)%nat →
     optimises fuel s [q] (plan_of q)) →
  (2 * m ≤ S fuel)%nat → store_ok s → ready s (with_where q c) → (clauses false c ≤ m)%nat → copies ≠ [] →
  Forall (λ x, copyable s x = true ∧ condition_ok s x) (terms c) →
  store_ok s1 → changes [] s s1 → terms c = (q_where <$> copies) ++ [rest] → Forall (ready s1) copies →
  Forall (alike s1 (with_where q c)) copies → separate copies →
  Forall (λ q', ∀ p, p ∈ q_keys q' → pl_next s ≤ p) copies →
  ∃ result s' qs, optimize fuel (union_of (with_where q rest) copies) s1 = Ret (result, s') ∧
    optimised s s' [with_where q c] result qs.
Proof.
  intros IH Hf W R Hm Hne Hterms W1 C1 Ht Rc Ac Sc Fc. set (k := length copies). pose proof (clauses_pos false c).
  assert (Hk : (1 ≤ k)%nat) by (subst k; destruct copies; cbn; [done|lia]).
  assert (Hlen : length (terms c) = S k) by (rewrite Ht, length_app, length_fmap; cbn; subst k; lia).
  assert (Hbound : ∀ x, x ∈ terms c → (clauses false x ≤ m - k)%nat).
  { intros x Hx. apply sum_bound in Hx. rewrite <- clauses_terms, Hlen in Hx. lia. }
  assert (Hrest : rest ∈ terms c) by (rewrite Ht; apply elem_of_app; right; by apply list_elem_of_singleton).
  assert (R1 : ready s1 (with_where q rest)).
  { apply (ready_mono [] s s1 _ C1); [intros p _; apply not_elem_of_nil|]. rewrite list.Forall_forall in Hterms.
    destruct (Hterms rest Hrest). by apply (ready_where s (with_where q c)). }
  assert (kqs : keys_are cat s (q_keys q) kts) by apply R.
  destruct (union_ok (2 * (m - k)) (m - k)) with (copies := copies) (q0 := with_where q rest) (fuel := fuel) (s := s1)
    as (result & s' & qs & E & O); try done.
  { intros fuel' s' q' Hf'. apply IH; [lia|done]. }
  { fold k. pose proof (sum_bound _ _ Hrest) as Hr. rewrite <- clauses_terms, Hlen in Hr. lia. }
  { split; [|done]. eapply Forall_impl; [|exact Fc]. cbn. intros q' Hq p Hp Hin.
    destruct (keys_present s _ p kqs Hp) as [kp Ep]. apply (ok_keys _ W) in Ep. specialize (Hq p Hin). lia. }
  { constructor; [split; [done|by apply Hbound]|]. apply list.Forall_forall. intros q' Hq'. rewrite list.Forall_forall in Rc.
    split; [by apply Rc|]. apply Hbound. rewrite Ht. apply elem_of_app. left. by apply list_elem_of_fmap_2. }
  exists result, s', qs. split; [done|].
  apply (optimised_back s s1 s' q c rest copies); try done. apply R1.
Qed.

Lemma optimize_ready n fuel s q : (2 * n ≤ fuel)%nat → store_ok s → ready s q → (clauses false (q_where q) ≤ n)%nat →
  optimises fuel s [q] (plan_of q).
Proof.
  revert fuel s q. induction (Nat.lt_wf_0 n) as [n _ IH]. intros fuel s q Hf W R Hn.
  pose proof (clauses_pos false (q_where q)). destruct fuel as [|fuel]; [lia|].
  destruct (normal_form s q R) as (c & Ec & Sc & Hc & Kc & Yc & Oc & Ft & Ho & Hat).
  pose proof (ready_where s q c R Yc Oc) as Rc.
  destruct (expand_ok c s (with_where q c) W Rc Sc Ft) as (copies & rest & s1 & E1 & W1 & C1 & T1 & R1 & A1 & S1 & F1).
  destruct copies as [|q' copies].
  { assert (terms c = [c] ∧ or_node c = false) as [Ht Hor].
    { assert (or_node c = false) by (apply or_node_terms; by rewrite T1). split; [by apply terms_single|done]. }
    eapply single_ok; eauto. }
  destruct (optimise_split n fuel s q c (q' :: copies) rest s1) as (result & s' & qs & E & O); try done; [lia|].
  exists result, s', qs. split.
  - rewrite (optimize_keyed fuel s q c (re_tables _ _ R) (re_some _ _ R) Ec), (P_bind_run _ _ _ _ _ E1), (lift_bind_run _ _ _ _ (set_where_of _ rest)). exact E.
  - split; try apply O.
    + eapply Forall_impl; [|apply (op_alike _ _ _ _ _ O)]. intros q2 (q0 & ->%list_elem_of_singleton & A).
      exists q. split; [by apply list_elem_of_singleton|exact A].
    + intros Q HQ Hq%Forall_inv. apply (op_atoms _ _ _ _ _ O Q HQ), list.Forall_singleton. cbn.
      apply atoms_terms. by apply Hat.
    + intros C. rewrite (op_holds _ _ _ _ _ O). cbn. by rewrite Hc.
Qed.
End optimising.
