(* ===== verification/OptimizeRows.v ===== *)
(** * Queries over tables, from the tables to the rows

    The keys [join_tables] gives a query, what a row has to satisfy to be selected by an
    optimised plan, and what the optimiser gets wrong. *)
From stdpp Require Import gmap strings.
From S2P Require Import Prelude CMem LogicalPlan LogicalPlanTheorems Dnf DnfTheorems DnfClauses SqlStatement Optimize OptimizeStore FixTheorems OptimizeTheorems.

Section joining.
Context (cat : catalog).

(** ** The keys of the tables *)
Fixpoint tables_plan (ts : list ptr) : LogicalPlan :=
  match ts with [] => NULL | p :: ts' => Op LP_TABLE_JOIN (Leaf LP_TABLE (VTableAlias p)) (tables_plan ts') end.
(** The key columns of a table, in the order of their numbers. *)
Definition keys_of_table (s : planner) (p : ptr) : option (list SqlKey) :=
  match pl_table_aliases s !! p with
  | Some (table_alias_STATEMENT _ (table_STATEMENT tp _ _ columns _) _ id _) =>
      match get_key_columns cat columns s with
      | Ret ((max_key, key_columns), _) =>
          Some ((λ n, make_key tp (key_column key_columns n) n id LP_KEY_ADVANCE (Leaf LP_TABLE (VTableAlias p)) false null)
                <$> seqZ 0 (max_key + 1))
      | _ => None
      end
  | _ => None
  end.
Definition keys_of_tables (s : planner) (ts : list ptr) : option (list SqlKey) :=
  @concat SqlKey <$> mapM (keys_of_table s) ts.
(** Stores that agree on what the keys of a table depend on. *)
Definition same_names (s s' : planner) : Prop :=
  pl_values s' = pl_values s ∧ pl_table_aliases s' = pl_table_aliases s.
Definition keys_at (s : planner) (ps : list ptr) (l : list SqlKey) : Prop :=
  Forall2 (λ p k, pl_keys s !! p = Some k) ps l.
Lemma keys_at_mono s s' ps l : changes [] s s' → keys_at s ps l → keys_at s' ps l.
Proof. intros C. apply Forall2_impl. intros p k E. apply C; [done|apply not_elem_of_nil]. Qed.

Lemma table_keys_ok n i key s : store_ok s → ∃ ps s',
  table_keys n i key s = Ret ((λ p, Leaf LP_KEY (VKey p)) <$> ps, s') ∧ store_ok s' ∧ changes [] s s' ∧ same_names s s' ∧
  keys_at s' ps (key <$> seqZ i (Z.of_nat n)).
Proof.
  revert i s. induction n as [|n IH]; intros i s W.
  - exists [], s. split; [done|]. split; [done|]. split; [apply changes_refl|]. split; [by split|constructor].
  - destruct (new_key_ok (key i) s W) as (s1 & E1 & W1 & C1 & N1 & K1).
    destruct (IH (i + 1) s1 W1) as (ps & s2 & E2 & W2 & C2 & S2 & K2). exists (pl_next s :: ps), s2.
    split; [cbn [table_keys]; by rewrite (P_bind_run _ _ _ _ _ E1), (P_bind_run _ _ _ _ _ E2)|].
    split; [done|]. split; [by eapply changes_trans|]. split.
    + injection E1 as <-. exact S2.
    + rewrite seqZ_cons by lia. replace (Z.pred (Z.of_nat (S n))) with (Z.of_nat n) by lia.
      rewrite <- Z.add_1_r. cbn [fmap list_fmap]. constructor; [|exact K2]. apply C2; [done|apply not_elem_of_nil].
Qed.
Lemma fill_keys_ok ks ps : ps ≠ [] →
  fill_keys (chain_of ks) ((λ p, Leaf LP_KEY (VKey p)) <$> ps) = Ret (chain_of (ks ++ ps)).
Proof.
  intros Hp. induction ks as [|k ks IH]; [by destruct ps as [|p [|p' ps]]|].
  destruct ks as [|k' ks].
  - by destruct ps as [|p [|p' ps]].
  - change (chain_of (k :: k' :: ks)) with (Op LP_KEYS (Leaf LP_KEY (VKey k)) (chain_of (k' :: ks))).
    change (chain_of ((k :: k' :: ks) ++ ps)) with (Op LP_KEYS (Leaf LP_KEY (VKey k)) (chain_of ((k' :: ks) ++ ps))).
    destruct (chain_of_cons k' ks) as (rest & E & _). rewrite E in IH |- *.
    change (fill_keys (Op LP_KEYS (Leaf LP_KEY (VKey k)) (Op LP_KEYS (Leaf LP_KEY (VKey k')) rest)) ((λ p, Leaf LP_KEY (VKey p)) <$> ps))
      with (rest ← fill_keys (Op LP_KEYS (Leaf LP_KEY (VKey k')) rest) ((λ p, Leaf LP_KEY (VKey p)) <$> ps);
            Ret (Op LP_KEYS (Leaf LP_KEY (VKey k)) rest)).
    by rewrite IH.
Qed.
Definition key_columns_of (m : values) (columns : ptr) : outcome (Z * gmap Z ptr) :=
  ring ← found (cat_rings cat !! columns);
  match ring with [] => Undef NullPointer | _ => scan_key_columns m ring (-1) ∅ end.
Lemma get_key_columns_run columns s :
  get_key_columns cat columns s = (x ← key_columns_of (pl_values s) columns; Ret (x, s)).
Proof.
  unfold get_key_columns, key_columns_of, gets, lift, mbind, P_bind. cbn [outcome_bind].
  by destruct (found (cat_rings cat !! columns)).
Qed.
Lemma keys_of_table_same s s' p : same_names s s' → keys_of_table s' p = keys_of_table s p.
Proof.
  intros [Ev Et]. unfold keys_of_table. rewrite Et. destruct (pl_table_aliases s !! p) as [st|]; [|done]. destruct st; try done.
  match goal with |- context [match ?x with null_STATEMENT => _ | _ => _ end] => destruct x end; try done.
  rewrite !get_key_columns_run, Ev. by destruct (key_columns_of (pl_values s) columns) as [[]| | |].
Qed.

(** ** [join_tables] *)
Lemma keys_of_table_inv s p l : keys_of_table s p = Some l →
  ∃ q tp tn src columns d al id cl max_key key_columns,
    pl_table_aliases s !! p = Some (table_alias_STATEMENT q (table_STATEMENT tp tn src columns d) al id cl) ∧
    get_key_columns cat columns s = Ret ((max_key, key_columns), s) ∧
    l = (λ n, make_key tp (key_column key_columns n) n id LP_KEY_ADVANCE (Leaf LP_TABLE (VTableAlias p)) false null)
          <$> seqZ 0 (max_key + 1).
Proof.
  unfold keys_of_table. destruct (pl_table_aliases s !! p) as [st|]; [|done]. destruct st; try done.
  match goal with |- context [match ?x with null_STATEMENT => _ | _ => _ end] => destruct x end; try done.
  destruct (get_key_columns cat columns s) as [[[m kc] s0]| | |] eqn:E; try done. intros [= <-].
  assert (s0 = s) as ->.
  { rewrite get_key_columns_run in E. by apply bind_ret_inv in E as (x & _ & [= _ ->]). }
  by eexists _, _, _, _, _, _, _, _, _, _, _.
Qed.

(** What one table does. *)
Lemma join_table_ok optimize p next ks s l :
  store_ok s → keys_of_table s p = Some l → l ≠ [] → next = NULL ∨ lp_type next = Ret LP_TABLE_JOIN →
  ∃ ps s', store_ok s' ∧ changes [] s s' ∧ same_names s s' ∧ keys_at s' ps l ∧
    join_tables cat optimize (Op LP_TABLE_JOIN (Leaf LP_TABLE (VTableAlias p)) next) (chain_of ks) s =
    (if is_null next then mret (Op LP_TABLE_JOIN (Leaf LP_TABLE (VTableAlias p)) next, chain_of (ks ++ ps))
     else
       '(next, keys) ← join_tables cat optimize next (chain_of (ks ++ ps));
       mret (Op LP_TABLE_JOIN (Leaf LP_TABLE (VTableAlias p)) next, keys)) s'.
Proof.
  intros W Hp Hl Hn.
  destruct (keys_of_table_inv s p l Hp) as (q & tp & tn & src & columns & d & al & id & cl & m & kc & Ea & Ek & El).
  destruct (table_keys_ok (Z.to_nat (m + 1)) 0 (λ n, make_key tp (key_column kc n) n id LP_KEY_ADVANCE
    (Leaf LP_TABLE (VTableAlias p)) false null) s W) as (ps & s' & Et & W' & C' & N' & K').
  assert (Hm : 0 < m + 1) by (destruct (Z.ltb_spec 0 (m + 1)); [done|]; by rewrite (seqZ_nil 0 (m + 1)) in El by lia).
  rewrite Z2Nat.id in K' by lia. rewrite <- El in K'.
  exists ps, s'. split; [done|]. split; [done|]. split; [done|]. split; [done|].
  assert (Hps : ps ≠ []) by (intros ->; by inversion K'; subst).
  cbn [join_tables]. rewrite decide_False by (intros H; by apply H). rewrite (lift_bind_run _ _ _ LP_TABLE eq_refl).
  rewrite (P_bind_run _ _ s (Leaf LP_TABLE (VTableAlias p)) s eq_refl), (lift_bind_run _ _ _ LP_TABLE eq_refl).
  rewrite !decide_False by done. rewrite (lift_bind_run _ _ _ ()).
  2:{ destruct Hn as [->|Hn]; [done|]. destruct (is_null next) eqn:En; [done|]. by rewrite Hn. }
  erewrite P_bind_run; [done|].
  rewrite (lift_bind_run _ _ _ () eq_refl). erewrite P_bind_run by (by unfold gets).
  rewrite (lift_bind_run _ _ _ _ (found_some _ _ Ea)). do 2 (erewrite lift_bind_run by done; cbv beta iota).
  rewrite (P_bind_run _ _ _ _ _ Ek), (P_bind_run _ _ _ _ _ Et). by apply lift_run, fill_keys_ok.
Qed.
Lemma join_tables_ok optimize ts ls ks s :
  store_ok s → ts ≠ [] → mapM (keys_of_table s) ts = Some ls → Forall (λ l, l ≠ []) ls →
  ∃ ps s', join_tables cat optimize (tables_plan ts) (chain_of ks) s = Ret ((tables_plan ts, chain_of (ks ++ ps)), s') ∧
    store_ok s' ∧ changes [] s s' ∧ same_names s s' ∧ keys_at s' ps (concat ls).
Proof.
  revert ls ks s. induction ts as [|p ts IH]; intros ls ks s W Hn Hm Hl; [done|].
  apply mapM_Some in Hm. inversion Hm as [|? l ? ls' Hp Hm' E1 E2]; subst. clear Hm. apply mapM_Some in Hm'.
  apply list.Forall_cons in Hl as [Hl Hls]. cbn in Hp.
  destruct (join_table_ok optimize p (tables_plan ts) ks s l W Hp Hl) as (ps & s1 & W1 & C1 & N1 & K1 & E).
  { destruct ts; [by left|by right]. }
  cbn [tables_plan concat]. rewrite E. destruct ts as [|p' ts].
  - apply mapM_Some in Hm'. inversion Hm'; subst. exists ps, s1. cbn [concat]. by rewrite app_nil_r.
  - assert (Hm1 : mapM (keys_of_table s1) (p' :: ts) = Some ls').
    { apply mapM_Some. apply mapM_Some in Hm'.
      eapply Forall2_impl; [|exact Hm']. cbn. intros x y. by rewrite (keys_of_table_same s s1). }
    destruct (IH ls' (ks ++ ps) s1 W1 ltac:(done) Hm1 Hls) as (ps' & s2 & E2 & W2 & C2 & N2 & K2).
    exists (ps ++ ps'), s2. cbn [is_null tables_plan]. rewrite (P_bind_run _ _ _ _ _ E2).
    split; [by rewrite <- app_assoc|]. split; [done|]. split; [by eapply changes_trans|]. split.
    + destruct N1, N2. split; congruence.
    + apply Forall2_app; [|done]. by eapply keys_at_mono.
Qed.

(** ** A query over tables *)
(** The plan of a SELECT before it is optimised: base tables with at least one key each,
    whose names resolve, everything it points to in the store, and a condition that can be
    normalised and whose equalities need no cross reference ([equality_ok]). *)
Record query_ok (s : planner) (q : query) (ts : list ptr) (ls : list (list SqlKey)) (kts : list key_ref) : Prop := {
  qo_store : store_ok s;
  qo_keys : q_keys q = [];
  qo_tables : q_tables q = tables_plan ts;
  qo_some : ts ≠ [];
  qo_lists : mapM (keys_of_table s) ts = Some ls;
  qo_nonempty : Forall (λ l, l ≠ []) ls;
  qo_terms : mapM (key_terms cat s) (concat ls) = Some kts;
  qo_copyable : copyable s (plan_of q) = true;
  qo_where : condition_ok kts s (q_where q);
  qo_counter : 0 ≤ pl_counter s - 1;
  qo_ids : Forall (λ kt : key_ref, 0 ≤ kt.1 < pl_counter s - 1) kts;
}.

Lemma copyable_chain s ks : copyable s (chain_of ks) = true ↔ Forall (λ p, is_Some (pl_keys s !! p)) ks.
Proof.
  induction ks as [|p ks IH]; [done|]. destruct (chain_of_cons p ks) as (rest & -> & ->).
  rewrite list.Forall_cons. cbn [copyable copyable_leaf holds_leaf leaf_type negb andb orb].
  rewrite (bool_decide_eq_false_2 (LP_KEYS = LP_TABLE ∨ LP_KEYS = LP_PIECE_NUMBER)) by (by intros [|]). cbn [negb andb].
  destruct ks as [|p' ks]; [|rewrite andb_true_iff, <- IH, bool_decide_eq_true; done].
  cbn. rewrite andb_true_r, bool_decide_eq_true. split; [by intros; split; [|constructor]|by intros [? _]].
Qed.
Lemma keys_at_are s s' ps l kts : changes [] s s' → keys_at s' ps l → mapM (key_terms cat s) l = Some kts →
  keys_are cat s' ps kts.
Proof.
  intros C K Hm%mapM_Some. unfold keys_are. revert kts Hm. induction K as [|p k ps l E K IH]; intros kts Hm;
    inversion Hm as [|? kt ? kts' T Hm' E1 E2]; subst; constructor; [|by apply IH].
  exists k. split; [done|]. eapply key_terms_mono; [done| |done]. done.
Qed.
Lemma keys_of_table_advance s p l k : keys_of_table s p = Some l → k ∈ l → k_type k = LP_KEY_ADVANCE.
Proof.
  intros H Hk. destruct (keys_of_table_inv s p l H) as (q & tp & tn & src & columns & d & al & id & cl & m & kc & _ & _ & ->).
  by apply list_elem_of_fmap in Hk as (n & -> & _).
Qed.

Lemma join_ready optimize s q ts ls kts : query_ok s q ts ls kts →
  ∃ ps s', join_tables cat optimize (q_tables q) (chain_of []) s = Ret ((q_tables q, chain_of ps), s') ∧
    store_ok s' ∧ changes [] s s' ∧ keys_at s' ps (concat ls) ∧ ready cat kts s' (with_query_keys q ps).
Proof.
  intros Q. destruct (join_tables_ok optimize ts ls [] s (qo_store _ _ _ _ _ Q) (qo_some _ _ _ _ _ Q)
    (qo_lists _ _ _ _ _ Q) (qo_nonempty _ _ _ _ _ Q)) as (ps & s' & E & W & C & _ & K).
  exists ps, s'. rewrite (qo_tables _ _ _ _ _ Q). split; [done|]. split; [done|]. split; [done|]. split; [done|].
  pose proof (keys_at_are s s' ps _ kts C K (qo_terms _ _ _ _ _ Q)) as Ka.
  assert (Hts : ts ≠ []) by apply Q. split; cbn; rewrite ?(ch_counter _ _ _ C); try apply Q.
  - rewrite (qo_tables _ _ _ _ _ Q). by destruct ts.
  - intros ->. inversion K as [El|]. pose proof (qo_lists _ _ _ _ _ Q) as Hm. apply mapM_Some in Hm.
    pose proof (qo_nonempty _ _ _ _ _ Q) as Hne. destruct ts; [done|]. inversion Hm; subst.
    apply list.Forall_cons in Hne as [Hne _]. cbn in El. by destruct y.
  - done.
  - intros p k Hp Ek. apply list_elem_of_lookup in Hp as [i Hi]. destruct (Forall2_lookup_l _ _ _ _ _ K Hi) as (k' & Hk & E').
    cbn in E'. assert (k' = k) as -> by congruence. apply list_elem_of_lookup_2 in Hk.
    apply list_elem_of_In, in_concat in Hk as (l & Hl & Hk). apply list_elem_of_In in Hl, Hk.
    pose proof (qo_lists _ _ _ _ _ Q) as Hm. apply mapM_Some in Hm. apply list_elem_of_lookup in Hl as [j Hj].
    destruct (Forall2_lookup_r _ _ _ _ _ Hm Hj) as (t & _ & Ht). by eapply keys_of_table_advance.
  - pose proof (qo_copyable _ _ _ _ _ Q) as Y. apply (copyable_mono _ _ _ _ C) in Y.
    assert (copyable s' (chain_of ps) = true).
    { apply copyable_chain. clear -K. induction K; constructor; eauto. }
    cbn in Y |- *. rewrite !andb_true_iff in *. tauto.
  - eapply condition_ok_mono; [done|apply Q].
Qed.
Lemma optimize_unjoined fuel s q ps s' : q_keys q = [] → lp_type (q_tables q) = Ret LP_TABLE_JOIN → ps ≠ [] →
  join_tables cat (optimize_logical_plan cat fuel) (q_tables q) (chain_of []) s = Ret ((q_tables q, chain_of ps), s') →
  optimize_logical_plan cat (S fuel) (plan_of q) s = optimize_logical_plan cat (S fuel) (plan_of (with_query_keys q ps)) s'.
Proof.
  intros Hk Ht Hp E. cbn [optimize_logical_plan]. unfold optimize_body. do 2 rewrite (lift_bind_run _ _ _ LP_INSERT eq_refl).
  rewrite !decide_False by done. rewrite (lift_bind_run _ _ _ _ (tables_of q Ht)).
  rewrite (lift_bind_run _ _ _ _ (tables_of (with_query_keys q ps) Ht)).
  rewrite !(lift_bind_run _ _ _ _ (keys_of _)), Hk. cbn [q_keys with_query_keys].
  destruct (first_key ps Hp) as (p & rest & Ek). rewrite Ek.
  rewrite (lift_bind_run (operand (chain_of []) false) _ _ NULL eq_refl).
  rewrite (lift_bind_run (operand (Op LP_KEYS (Leaf LP_KEY (VKey p)) rest) false) _ _ (Leaf LP_KEY (VKey p)) eq_refl).
  cbn [is_null]. rewrite (P_bind_run _ _ s (plan_of (with_query_keys q ps)) s'); [by rewrite (P_bind_run _ _ s' _ s' eq_refl)|].
  rewrite (P_bind_run _ _ _ _ _ E), (lift_bind_run _ _ _ _ (set_tables_of q _ Ht)).
  by rewrite (lift_run _ _ _ (set_keys_of _ ps)).
Qed.

(** ** Rows *)
Section rows.
(** What the columns of a row of the join and the constants are. *)
Context {V : Type} `{EqDecision V} (row : column_ref → V) (const : SqlValueType * list byte → V).

Definition denote (x : side) : option V :=
  match x with SValue v => Some (const v) | SColumn c => Some (row c) | SOther => None end.
(** A key that is fixed is met by the rows that have its value there. *)
Definition key_met (s : planner) (p : ptr) : bool :=
  match pl_keys s !! p with
  | Some k =>
      if decide (k_type k = LP_KEY_FIX) then
        match key_terms cat s k, side_of s (k_value k) with
        | Some (id, Some (t, n)), Some y => bool_decide (denote y = Some (row (id, t, n)))
        | _, _ => false
        end
      else true
  | None => false
  end.
Definition selects `{Conditions} (s : planner) (q : query) : bool :=
  holds (q_where q) && forallb (key_met s) (q_keys q).
(** An equality between columns and constants holds only of equal values. *)
Definition equals_means `{Conditions} (s : planner) : Prop :=
  ∀ l r x y, side_of s l = Some x → side_of s r = Some y → x ≠ SOther → y ≠ SOther →
    test LP_BOOLEAN_EQUALS l r = true → denote x = denote y.

Lemma holds_equalities `{Conditions} cond l r :
  holds cond = true → (l, r) ∈ equalities cond → test LP_BOOLEAN_EQUALS l r = true.
Proof.
  induction cond as [|t a IHa b IHb|t v]; cbn [equalities]; [by intros _ ?%not_elem_of_nil| |by intros _ ?%not_elem_of_nil].
  destruct (decide (t = LP_BOOLEAN_AND)) as [->|Ha].
  { cbn. intros [? ?]%andb_true_iff [?|?]%elem_of_app; auto. }
  destruct (decide (t = LP_BOOLEAN_EQUALS)) as [->|He].
  { cbn. by intros Ht [= -> ->]%list_elem_of_singleton. }
  destruct t; try done; by intros _ ?%not_elem_of_nil.
Qed.
Lemma choice_sides kts x y c : choice kts x y = Some c → x ≠ SOther ∧ y ≠ SOther.
Proof. unfold choice. destruct x, y; cbn; try done; by case_match. Qed.

(** Both sides of an equality are known in the store. *)
Definition sides_known (s : planner) (t : LPActionType) (l r : LogicalPlan) : Prop :=
  t = LP_BOOLEAN_EQUALS ∨ t = LP_BOOLEAN_NOT_EQUALS → is_Some (side_of s l) ∧ is_Some (side_of s r).
Lemma atoms_equalities Q cond l r : atoms Q cond → (l, r) ∈ equalities cond → Q LP_BOOLEAN_EQUALS l r.
Proof.
  induction cond as [|t a IHa b IHb|t v]; cbn [equalities]; [by intros _ ?%not_elem_of_nil| |by intros _ ?%not_elem_of_nil].
  destruct (decide (t = LP_BOOLEAN_AND)) as [->|Ha].
  { cbn. intros [? ?] [?|?]%elem_of_app; auto. }
  destruct (decide (t = LP_BOOLEAN_EQUALS)) as [->|He].
  { cbn. by intros Ht [= -> ->]%list_elem_of_singleton. }
  destruct t; try done; by intros _ ?%not_elem_of_nil.
Qed.
Lemma sound_selects `{Conditions} kts K s s' q : changes K s s' → equals_means s → atoms (sides_known s) (q_where q) →
  sound cat kts s' q → selects s' q = holds (q_where q).
Proof.
  intros Ch He Hat [Ka Hs]. unfold selects. destruct (holds (q_where q)) eqn:Eh; [|done]. cbn [andb].
  apply (Forall_forallb _ (λ p, p ∈ q_keys q)); [|by apply list.Forall_forall]. intros p Hp.
  destruct (keys_present cat kts s' _ p Ka Hp) as [k Ek]. unfold key_met. rewrite Ek.
  destruct (Hs p k Hp Ek) as [Et|(l & r & Hin & Ft & c & y & Tk & Vk & Hc)].
  { by rewrite decide_False by (by rewrite Et). }
  rewrite decide_True by done. rewrite Tk, Vk. apply bool_decide_eq_true. destruct c as [[id t] n].
  pose proof (holds_equalities _ l r Eh Hin) as Ht.
  destruct (atoms_equalities _ _ l r Hat Hin (or_introl eq_refl)) as [[x Hx] [x' Hx']].
  pose proof (side_of_mono _ _ _ _ _ Ch Hx) as Mx. pose proof (side_of_mono _ _ _ _ _ Ch Hx') as Mx'.
  destruct Hc as [(Sl & Sr & Hc)|(Sl & Sr & Hc)]; destruct (choice_sides _ _ _ _ Hc).
  - assert (x = SColumn (id, t, n)) as -> by congruence. assert (x' = y) as -> by congruence.
    symmetry. by apply (He l r (SColumn (id, t, n)) y).
  - assert (x' = SColumn (id, t, n)) as -> by congruence. assert (x = y) as -> by congruence.
    by apply (He l r y (SColumn (id, t, n))).
Qed.
Lemma sound_select_all `{Conditions} kts K s s' qs : changes K s s' → equals_means s →
  Forall (λ q, atoms (sides_known s) (q_where q)) qs → Forall (sound cat kts s') qs →
  existsb (selects s') qs = existsb holds (q_where <$> qs).
Proof.
  intros Ch He Ha. induction 1 as [|q qs Hq _ IH]; [done|]. apply list.Forall_cons in Ha as [Hq' Ha]. cbn.
  by rewrite (sound_selects kts K s s' q Ch He Hq' Hq), IH.
Qed.
End rows.
End joining.

(** ** Order *)
Lemma last_index_cases ids i id acc :
  ((id ∉ ids) ∧ last_index ids i id acc = acc) ∨ ∃ j, ids !! j = Some id ∧ last_index ids i id acc = i + Z.of_nat j.
Proof.
  revert i acc. induction ids as [|x ids IH]; intros i acc; [left; split; [apply not_elem_of_nil|done]|]. cbn.
  destruct (Z.eqb_spec x id) as [->|Hx].
  - right. destruct (IH (i + 1) i) as [[_ ->]|(j & Hj & ->)]; [exists O; split; [done|lia]|exists (S j); split; [done|lia]].
  - destruct (IH (i + 1) acc) as [[Hn ->]|(j & Hj & ->)]; [left; split; [by rewrite not_elem_of_cons|done]|].
    right. exists (S j). split; [done|lia].
Qed.
Lemma position_pos kts id : id ∈ kts.*1 → 0 < position kts id.
Proof. intros H. unfold position. destruct (last_index_cases (kts.*1) 1 id 0) as [[? _]|(j & _ & ->)]; [done|lia]. Qed.
Lemma position_nonneg kts id : 0 ≤ position kts id.
Proof. unfold position. destruct (last_index_cases (kts.*1) 1 id 0) as [[_ ->]|(j & _ & ->)]; lia. Qed.
Lemma position_inj kts id id' : position kts id = position kts id' → position kts id ≠ 0 → id = id'.
Proof.
  unfold position. destruct (last_index_cases (kts.*1) 1 id 0) as [[_ ->]|(j & Hj & ->)]; [lia|].
  destruct (last_index_cases (kts.*1) 1 id' 0) as [[_ ->]|(j' & Hj' & ->)]; intros; [lia|].
  assert (j = j') as -> by lia. congruence.
Qed.
(** What a key of the column [c] is fixed to is known when the key is reached: a constant,
    or a column of a parent query or of a table before it. *)
Definition known (kts : list key_ref) (y : side) (c : column_ref) : Prop :=
  match y with
  | SValue _ => True
  | SColumn d => position kts d.1.1 = 0 ∨ position kts d.1.1 < position kts c.1.1
  | SOther => False
  end.
(** No equality has two columns of one table. *)
Definition apart (s : planner) (cond : LogicalPlan) : bool :=
  forallb (λ '(l, r), match side_of s l, side_of s r with Some (SColumn c), Some (SColumn d) => negb (c.1.1 =? d.1.1) | _, _ => true end) (equalities cond).
Lemma apart_sides s cond l r c d : apart s cond = true → (l, r) ∈ equalities cond →
  side_of s l = Some (SColumn c) → side_of s r = Some (SColumn d) → c.1.1 ≠ d.1.1.
Proof.
  unfold apart. rewrite forallb_forall. intros H Hin Hl Hr. apply list_elem_of_In, H in Hin. rewrite Hl, Hr in Hin. lia.
Qed.
Lemma choice_known kts (c : column_ref) y : c.1.1 ∈ kts.*1 → (∀ d, y = SColumn d → d.1.1 ≠ c.1.1) →
  choice kts (SColumn c) y = Some true ∨ choice kts y (SColumn c) = Some false → known kts y c.
Proof.
  intros Hc Hne. pose proof (position_pos _ _ Hc) as Pc. unfold choice.
  destruct y as [v|d|]; [done| |intros [|]; done]. specialize (Hne d eq_refl).
  pose proof (position_nonneg kts d.1.1) as Pd. cbn [pick].
  destruct (Z.eqb_spec (position kts d.1.1) 0) as [E0|E0]; [by left|]. cbn [known].
  assert (Ec : (position kts c.1.1 =? 0) = false) by lia. rewrite Ec. intros [H|H]; case_match; try done; cbn in H.
  - injection H as H. destruct (Z.ltb_spec (position kts c.1.1) (position kts d.1.1)); [done|].
    destruct (decide (position kts d.1.1 = position kts c.1.1)) as [E|E]; [|lia].
    destruct Hne. eapply position_inj; [done|lia].
  - injection H as H. destruct (Z.ltb_spec (position kts d.1.1) (position kts c.1.1)); [by auto|done].
Qed.

(** ** The optimised query *)
(** The same columns of the same tables into the same place. *)
Definition same_source (s : planner) (q q' : query) : Prop :=
  like same_key s (q_columns q) (q_columns q') ∧ like same_key s (q_tables q) (q_tables q') ∧
  like same_key s (q_output q) (q_output q').

Lemma optimize_query cat s q ts ls kts fuel :
  query_ok cat s q ts ls kts → (2 * clauses false (q_where q) ≤ fuel)%nat →
  ∃ result s' qs, optimize_logical_plan cat fuel (plan_of q) s = Ret (result, s') ∧
    union_leaves result = Some (plan_of <$> qs) ∧ Forall (same_source s' q) qs ∧ Forall (sound cat kts s') qs ∧
    (∃ K, changes K s s') ∧ Forall (λ q', atoms (sides_known s) (q_where q')) qs ∧
    ∀ C : Conditions, existsb holds (q_where <$> qs) = holds (q_where q).
Proof.
  intros Q Hf. pose proof (clauses_pos false (q_where q)). destruct fuel as [|fuel]; [lia|].
  destruct (join_ready cat (optimize_logical_plan cat fuel) s q ts ls kts Q) as (ps & s1 & E1 & W1 & C1 & K1 & R1).
  destruct (optimize_ready cat kts (clauses false (q_where q)) (S fuel) s1 (with_query_keys q ps) Hf W1 R1 (le_n _))
    as (result & s' & qs & E & O).
  exists result, s', qs. rewrite (optimize_unjoined cat fuel s q ps s1); [|apply Q|apply R1|apply R1|done]. split; [done|].
  split; [apply O|]. split; [|split; [apply O|split; [|split]]].
  - eapply Forall_impl; [|apply (op_alike _ _ _ _ _ _ _ O)]. intros q' (q0 & ->%list_elem_of_singleton & A).
    cbn in A. unfold same_source. tauto.
  - eexists. eapply changes_trans; [by apply changes_none|apply O].
  - apply O; [intros t t' a b Hi HQ Ht; apply HQ; by destruct t; try discriminate Hi; injection Hi as <-; auto; destruct Ht|].
    apply list.Forall_singleton. destruct (qo_where _ _ _ _ _ _ Q) as [Ew|[_ A]]; [by cbn; rewrite Ew|].
    eapply atoms_impl; [|exact A]. intros t a b [_ H'] Ht. specialize (H' Ht). unfold equality_ok in H'.
    by destruct (side_of s a), (side_of s b).
  - intros C. rewrite (op_holds _ _ _ _ _ _ _ O). cbn. apply orb_false_r.
Qed.

(** C3: The optimiser keeps the rows of a query.  For a SELECT over tables whose condition
    needs no cross reference, [optimize_logical_plan] ends (twice the number of clauses is
    fuel enough), and what it returns is a union of plans that read the same columns of
    the same tables and of which each has the keys of the tables, in order.  Whatever the
    comparisons mean, as long as equality is equality, a row of the join is selected by
    one of these plans - it satisfies its condition and has the values its keys are fixed
    to - exactly if it satisfies the condition of the query. *)
Theorem optimize_keeps_rows cat s q ts ls kts fuel :
  query_ok cat s q ts ls kts → (2 * clauses false (q_where q) ≤ fuel)%nat →
  ∃ result s' qs, optimize_logical_plan cat fuel (plan_of q) s = Ret (result, s') ∧
    union_leaves result = Some (plan_of <$> qs) ∧ Forall (same_source s' q) qs ∧
    Forall (λ q', keys_are cat s' (q_keys q') kts) qs ∧
    ∀ (C : Conditions) (V : Type) (H : EqDecision V) (row : column_ref → V) const,
      equals_means row const s → existsb (selects cat row const s') qs = holds (q_where q).
Proof.
  intros Q Hf. destruct (optimize_query cat s q ts ls kts fuel Q Hf) as (result & s' & qs & E & L & A & S & [K Ch] & Hat & Hh).
  exists result, s', qs. split; [done|]. split; [done|]. split; [done|]. split.
  - eapply Forall_impl; [|exact S]. by intros q' [? _].
  - intros C V HV row const He. by rewrite (sound_select_all cat row const kts K s s' qs Ch He Hat S), Hh.
Qed.

Lemma apart_choice s cond kts l r (c : column_ref) y d : apart s cond = true → (l, r) ∈ equalities cond →
  (side_of s l = Some (SColumn c) ∧ side_of s r = Some y ∧ choice kts (SColumn c) y = Some true ∨
   side_of s l = Some y ∧ side_of s r = Some (SColumn c) ∧ choice kts y (SColumn c) = Some false) → y = SColumn d → d.1.1 ≠ c.1.1.
Proof.
  intros Hap Hin H ->. destruct H as [(Hl & Hr & _)|(Hl & Hr & _)]; [symmetry|]; by eapply apart_sides.
Qed.
(** C25: Keys are fixed in order.  A query over tables with keys, which needs no cross
    reference and whose condition is negatable, is optimised; in each of the plans made whose
    condition equates no two columns of one table a key either steps through its table, or it
    is fixed by an equality of the plan's condition to a constant or to a column whose value is
    known when the key is reached: of a parent query or of a table earlier in the join. *)
Theorem fixed_keys_known cat s q ts ls kts fuel :
  query_ok cat s q ts ls kts → (2 * clauses false (q_where q) ≤ fuel)%nat →
  ∃ result s' qs, optimize_logical_plan cat fuel (plan_of q) s = Ret (result, s') ∧
    union_leaves result = Some (plan_of <$> qs) ∧
    ∀ q' p k, q' ∈ qs → apart s' (q_where q') = true → p ∈ q_keys q' → pl_keys s' !! p = Some k →
      k_type k = LP_KEY_ADVANCE ∨
      k_type k = LP_KEY_FIX ∧ ∃ (c : column_ref) y, key_terms cat s' k = Some (c.1.1, Some (c.1.2, c.2)) ∧
        side_of s' (k_value k) = Some y ∧ known kts y c ∧
        ∃ l r, (l, r) ∈ equalities (q_where q') ∧
          (side_of s' l = Some (SColumn c) ∧ side_of s' r = Some y ∨ side_of s' l = Some y ∧ side_of s' r = Some (SColumn c)).
Proof.
  intros Q Hf. destruct (optimize_query cat s q ts ls kts fuel Q Hf) as (result & s' & qs & E & L & _ & S & _ & _ & _).
  exists result, s', qs. split; [done|]. split; [done|]. intros q' p k Hq Hap Hp Ek.
  rewrite list.Forall_forall in S. destruct (S q' Hq) as [Ka Hs].
  destruct (Hs p k Hp Ek) as [?|(l & r & Hin & Ft & c & y & Tk & Vk & Hc)]; [by left|right]. split; [done|].
  exists c, y. split; [done|]. split; [done|]. split.
  - apply choice_known; [| |destruct Hc as [(_ & _ & ?)|(_ & _ & ?)]; auto]; [|intros d Ey; exact (apart_choice _ _ _ _ _ _ _ _ Hap Hin Hc Ey)].
    apply list_elem_of_lookup in Hp as [i Hi]. destruct (Forall2_lookup_l _ _ _ _ _ Ka Hi) as (kt & Hk & k' & E' & T').
    assert (k' = k) as -> by congruence. assert (kt = (c.1.1, Some (c.1.2, c.2))) as -> by congruence.
    apply list_elem_of_fmap. eexists. split; [|by eapply list_elem_of_lookup_2]. done.
  - exists l, r. split; [done|]. destruct Hc as [(? & ? & _)|(? & ? & _)]; auto.
Qed.

(** ** A sample *)
Definition below {A} (m : gmap ptr A) (next : ptr) : bool := bool_decide (map_Forall (λ p _, p < next) m).
Lemma store_ok_check s : below (pl_keys s) (pl_next s) = true → below (pl_values s) (pl_next s) = true →
  below (pl_keywords s) (pl_next s) = true → below (pl_column_aliases s) (pl_next s) = true → store_ok s.
Proof. unfold below. rewrite !bool_decide_eq_true. intros H1 H2 H3 H4. by split. Qed.

Definition name_value (s : string) : SqlValue :=
  {| sv_type := STRING_LITERAL; sv_coerced_type := UNKNOWN_SqlValueType; sv_data_type := UNKNOWN_SqlDataType; sv_literal := lit s |}.
Definition named (p : ptr) : SqlStatement := value_STATEMENT p null_STATEMENT.
(** A table ORDERS with the keys ID and LINE and a column NAME. *)
Definition col_id : SqlColumn := Column 21 (named 2) INTEGER_TYPE null_STATEMENT (keyword_STATEMENT [Keyword PRIMARY_KEY null_STATEMENT]).
Definition col_line : SqlColumn := Column 22 (named 3) INTEGER_TYPE null_STATEMENT (keyword_STATEMENT [Keyword OPTIONAL_KEY_NUM (named 5)]).
Definition col_name : SqlColumn := Column 23 (named 4) CHARACTER_STRING_TYPE null_STATEMENT (keyword_STATEMENT [Keyword NO_KEYWORD null_STATEMENT]).
Definition orders : SqlStatement := table_STATEMENT 10 (named 1) null_STATEMENT 20 null_STATEMENT.
Definition sample_catalog : catalog :=
  {| cat_tables := {[10 := orders]}; cat_columns := list_to_map [(21, col_id); (22, col_line); (23, col_name)];
     cat_rings := {[20 := [col_id; col_line; col_name]]} |}.
Definition orders_as (p id : Z) : SqlStatement := table_alias_STATEMENT p orders (named 1) id null_STATEMENT.
(** [FROM ORDERS, ORDERS], the aliases with the identifiers 1 and 2. *)
Definition sample_store : planner :=
  {| pl_counter := 4; pl_next := 100;
     pl_keys := list_to_map [(50, make_key null null 0 3 LP_INSERT NULL false null); (51, make_key null null 0 0 LP_INSERT NULL false null)];
     pl_values := list_to_map [(1, name_value "ORDERS"); (2, name_value "ID"); (3, name_value "LINE"); (4, name_value "NAME"); (5, name_value "1"); (6, name_value "42")];
     pl_keywords := {[40 := [NO_KEYWORD]]};
     pl_column_aliases := list_to_map
       [(60, (column_STATEMENT [col_id], orders_as 30 1)); (61, (column_STATEMENT [col_line], orders_as 30 1)); (62, (column_STATEMENT [col_name], orders_as 30 1));
        (63, (column_STATEMENT [col_id], orders_as 31 2)); (64, (column_STATEMENT [col_line], orders_as 31 2)); (65, (column_STATEMENT [col_name], orders_as 31 2))];
     pl_table_aliases := list_to_map [(30, orders_as 30 1); (31, orders_as 31 2)];
     pl_items := ∅ |}.
Definition column (p : ptr) : LogicalPlan := Leaf LP_COLUMN_ALIAS (VColumnAlias p).
Definition constant (p : ptr) : LogicalPlan := Leaf LP_VALUE (VValue p).
Definition equal (a b : LogicalPlan) : LogicalPlan := Op LP_BOOLEAN_EQUALS a b.
Definition sample_query (ts : list ptr) (cond : LogicalPlan) : query :=
  Query (Op LP_COLUMN_LIST (Op LP_WHERE (column 60) NULL) NULL) (tables_plan ts) [] cond NULL 40
    (Op LP_OUTPUT (Leaf LP_KEY (VKey 50)) NULL).
(** [a.ID = 42 OR (a.NAME = b.ID AND a.LINE = 1)] *)
Definition orders_condition : LogicalPlan :=
  Op LP_BOOLEAN_OR (equal (column 60) (constant 6))
    (Op LP_BOOLEAN_AND (equal (column 62) (column 63)) (equal (column 61) (constant 5))).
Definition orders_query : query := sample_query [30; 31] orders_condition.
Definition orders_lists : list (list SqlKey) := default [] (mapM (keys_of_table sample_catalog sample_store) [30; 31]).
Definition orders_keys : list key_ref := default [] (mapM (key_terms sample_catalog sample_store) (concat orders_lists)).

Lemma orders_query_ok : query_ok sample_catalog sample_store orders_query [30; 31] orders_lists orders_keys.
Proof.
  split.
  - apply store_ok_check; vm_compute; reflexivity.
  - done.
  - done.
  - done.
  - vm_compute; reflexivity.
  - vm_compute. repeat constructor; done.
  - vm_compute; reflexivity.
  - vm_compute; reflexivity.
  - right. split; [reflexivity|]. split; [|split]; (split; [done|]); intros _; vm_compute; reflexivity.
  - vm_compute. done.
  - vm_compute. repeat constructor; done.
Qed.
(** A row in which [a.NAME] is [b.ID] and [a.LINE] is 1, and comparisons that look at the values. *)
Definition sample_row (c : column_ref) : list byte :=
  if bool_decide (c.2 = lit "LINE") then lit "1" else lit "7".
Definition equal_in (s : planner) (l r : LogicalPlan) : bool :=
  match side_of s l, side_of s r with
  | Some x, Some y => bool_decide (denote sample_row snd x = denote sample_row snd y)
  | _, _ => false
  end.
Definition value_conditions (s : planner) : Conditions.
Proof.
  refine {| test t l r :=
              match t with
              | LP_BOOLEAN_EQUALS => equal_in s l r
              | LP_BOOLEAN_NOT_EQUALS => negb (equal_in s l r)
              | LP_BOOLEAN_GREATER_THAN_OR_EQUALS | LP_BOOLEAN_LESS_THAN_OR_EQUALS | LP_BOOLEAN_NOT_IN => true
              | _ => false
              end;
            test_leaf _ _ := false |}; reflexivity.
Defined.
Lemma optimize_keeps_rows_witness :
  ∃ result s' qs, optimize_logical_plan sample_catalog 4 (plan_of orders_query) sample_store = Ret (result, s') ∧
    union_leaves result = Some (plan_of <$> qs) ∧
    existsb (@selects sample_catalog _ _ sample_row snd (value_conditions sample_store) s') qs = true.
Proof.
  destruct (optimize_keeps_rows sample_catalog sample_store orders_query [30; 31] orders_lists orders_keys 4 orders_query_ok)
    as (result & s' & qs & E & L & _ & _ & H); [vm_compute; lia|].
  exists result, s', qs. split; [exact E|]. split; [exact L|].
  rewrite (H (value_conditions sample_store) _ _ sample_row snd); [vm_compute; reflexivity|].
  intros l r x y Hl Hr _ _. cbn. unfold equal_in. rewrite Hl, Hr. apply bool_decide_eq_true_1.
Defined.
Definition condition_in (plan : LogicalPlan) : LogicalPlan :=
  match plan with Op _ (Op _ _ (Op _ _ (Op _ _ (Op _ (Op _ cond _) _)))) _ => cond | _ => NULL end.
Lemma orders_apart : match optimize_logical_plan sample_catalog 4 (plan_of orders_query) sample_store with
  | Ret (result, s') => forallb (λ plan, apart s' (condition_in plan)) (default [] (union_leaves result)) = true
  | _ => False
  end.
Proof. vm_compute. reflexivity. Qed.
Lemma fixed_keys_known_witness :
  ∃ result s' qs, optimize_logical_plan sample_catalog 4 (plan_of orders_query) sample_store = Ret (result, s') ∧
    union_leaves result = Some (plan_of <$> qs) ∧
    ∀ q' p k, q' ∈ qs → p ∈ q_keys q' → pl_keys s' !! p = Some k →
      k_type k = LP_KEY_ADVANCE ∨
      k_type k = LP_KEY_FIX ∧ ∃ (c : column_ref) y, key_terms sample_catalog s' k = Some (c.1.1, Some (c.1.2, c.2)) ∧
        side_of s' (k_value k) = Some y ∧ known orders_keys y c ∧
        ∃ l r, (l, r) ∈ equalities (q_where q') ∧
          (side_of s' l = Some (SColumn c) ∧ side_of s' r = Some y ∨ side_of s' l = Some y ∧ side_of s' r = Some (SColumn c)).
Proof.
  destruct (fixed_keys_known sample_catalog sample_store orders_query [30; 31] orders_lists orders_keys 4 orders_query_ok)
    as (result & s' & qs & E & L & H); [vm_compute; lia|].
  exists result, s', qs. split; [exact E|]. split; [exact L|]. intros q' p k Hq. apply H; [exact Hq|].
  pose proof orders_apart as A. rewrite E in A.
  rewrite L in A. cbn [default from_option id] in A. rewrite forallb_forall in A.
  apply (A (plan_of q')), list_elem_of_In, list_elem_of_fmap. exists q'. split; [reflexivity|exact Hq].
Defined.
