(* ===== verification/OptimizeErrors.v ===== *)
(** * Where the optimiser goes wrong

    A column that is not a key is looked up through a cross reference, whose plan is
    optimised like any other: this always writes past the array of positions.  And, on a
    sample table: keys fixed too early, keys that are lost, equalities that are missed. *)
From stdpp Require Import gmap strings.
From S2P Require Import Prelude CMem LogicalPlan LogicalPlanTheorems Dnf DnfTheorems DnfClauses SqlStatement Optimize OptimizeStore FixTheorems OptimizeTheorems OptimizeRows.

(** ** Cross references *)
(** Steps that keep the names, the aliases of tables and the counter. *)
Definition quiet (s s' : planner) : Prop :=
  store_ok s' ∧ same_names s s' ∧ pl_counter s' = pl_counter s.
Lemma quiet_trans s1 s2 s3 : quiet s1 s2 → quiet s2 s3 → quiet s1 s3.
Proof. intros (_ & [? ?] & ?) (? & [? ?] & ?). split; [done|]. split; [split|]; congruence. Qed.

Lemma new_column_alias_quiet column alias s : store_ok s →
  ∃ w s', new_column_alias column alias s = Ret (w, s') ∧ quiet s s'.
Proof.
  intros W. eexists _, _. split; [done|]. match goal with |- quiet s ?x => assert (G : grown s x) end.
  { split; try done. intros p Hp. apply lookup_insert_ne. done. }
  destruct (grown_ok _ _ W G). by split_and!.
Qed.
Lemma key_aliases_quiet cat n i kc alias s : store_ok s →
  ∃ w s', key_aliases cat n i kc alias s = Ret (w, s') ∧ quiet s s'.
Proof.
  revert i s. induction n as [|n IH]; intros i s W; [by exists NULL, s|]. cbn [key_aliases].
  destruct (new_column_alias_quiet (packed_column cat (key_column kc i)) alias s W) as (w & s1 & E1 & Q1).
  destruct (IH (i + 1) s1 (proj1 Q1)) as (ws & s2 & E2 & Q2).
  eexists _, s2. rewrite (P_bind_run _ _ _ _ _ E1), (P_bind_run _ _ _ _ _ E2). split; [done|]. by eapply quiet_trans.
Qed.
Lemma P_bind_undef {A B} (m : P A) (f : A → P B) s u : m s = Undef u → (m ≫= f) s = Undef u.
Proof. intros H. unfold mbind, P_bind. by rewrite H. Qed.
Lemma number_keys_overflow s p k ks a i : pl_keys s !! p = Some k → zlen a ≤ k_unique_id k →
  number_keys (chain_of (p :: ks)) i a s = Undef OutOfBounds.
Proof.
  intros E Hk. destruct (chain_of_cons p ks) as (rest & -> & _). cbn [number_keys].
  rewrite (P_bind_run _ _ _ _ _ (chain_key_ok s p k LP_KEYS rest E)). unfold array_set.
  assert (((k_unique_id k <? 0) || (zlen a <=? k_unique_id k)) = true) as -> by (destruct (Z.leb_spec (zlen a) (k_unique_id k)); [by rewrite orb_true_r|lia]).
  done.
Qed.

(** A query with the newest identifier. *)
Lemma newest_overflows cat fuel s q p l :
  store_ok s → q_keys q = [] → q_tables q = tables_plan [p] → q_where q = NULL → 1 ≤ pl_counter s →
  keys_of_table cat s p = Some l → l ≠ [] → Forall (λ k, k_unique_id k = pl_counter s - 1) l →
  optimize_logical_plan cat (S fuel) (plan_of q) s = Undef OutOfBounds.
Proof.
  intros W Hk Ht Hw Hc Hl Hn Hid.
  destruct (join_tables_ok cat (optimize_logical_plan cat fuel) [p] [l] [] s W) as (ps & s' & E & W' & C & _ & K); [done| |by constructor|].
  { cbn. by rewrite Hl. }
  cbn [concat app] in K. rewrite app_nil_r in K. destruct l as [|k l]; [done|]. inversion K as [|p0 ? ps' ? E0 K' E1 E2]; subst.
  assert (Tt : lp_type (q_tables q) = Ret LP_TABLE_JOIN) by (by rewrite Ht).
  rewrite (optimize_unjoined cat fuel s q (p0 :: ps') s'); [|done..|by rewrite Ht].
  rewrite (optimize_keyed cat fuel s' _ NULL); [|done|done|by cbn; rewrite Hw].
  rewrite (P_bind_run _ _ s' ([], NULL) s' eq_refl), (lift_bind_run _ _ _ _ (set_where_of _ NULL)), (lift_bind_run _ _ _ _ (where_of _)).
  apply list.Forall_cons in Hid as [Hid _]. apply P_bind_undef. unfold lp_optimize_where_multi_equal_ands.
  pose proof (ch_counter _ _ _ C) as Hc'. rewrite (P_bind_run _ _ s' _ s' eq_refl).
  rewrite (lift_bind_run _ _ _ ()) by (by destruct (Z.ltb_spec (pl_counter s' - 1) 0); [lia|]).
  rewrite (lift_bind_run _ _ _ _ (keys_of _)). apply P_bind_undef.
  apply (number_keys_overflow s' p0 k); [done|]. rewrite zlen_replicate, Z2Nat.id by lia. lia.
Qed.

(** The plan of a cross reference, and the store when it goes to the optimiser. *)
Lemma xref_plan_run cat optimize s tp tn src columns d column id m kc :
  store_ok s → key_columns_of cat (pl_values s) columns = Ret (m, kc) → 0 ≤ pl_counter s < 2 ^ 31 - 1 →
  ∃ w ws kw ta out s',
    lp_generate_xref_plan cat optimize (table_STATEMENT tp tn src columns d) column id s =
      optimize (plan_of (Query (Op LP_COLUMN_LIST w ws) (tables_plan [ta]) [] NULL NULL kw out)) s' ∧
    store_ok s' ∧ pl_values s' = pl_values s ∧ pl_counter s' = pl_counter s + 1 ∧
    pl_table_aliases s' !! ta = Some (table_alias_STATEMENT ta (table_STATEMENT tp tn src columns d) tn (pl_counter s) null_STATEMENT).
Proof.
  intros W Hk Hc. unfold lp_generate_xref_plan.
  rewrite (lift_bind_run _ _ _ (tp, tn, columns) eq_refl). cbv beta iota.
  destruct (new_key_ok (make_key tp (column_address column) 0 id LP_INSERT NULL true null) s W) as (s1 & E1 & W1 & C1 & N1 & _).
  rewrite (P_bind_run _ _ _ _ _ E1).
  assert (V1 : pl_values s1 = pl_values s ∧ pl_counter s1 = pl_counter s) by (by injection E1 as <-). destruct V1 as [V1 Co1].
  rewrite (P_bind_run fresh _ s1 _ _ eq_refl). erewrite (P_bind_run get_plan_unique_number) by reflexivity. cbv zeta.
  erewrite (P_bind_run (put _)) by reflexivity. match goal with |- context [(_ ≫= _) ?x] => set (s2 := x) end.
  assert (W2 : store_ok s2).
  { split; cbn; intros p x H; [apply (ok_keys _ W1) in H|apply (ok_values _ W1) in H|apply (ok_keywords _ W1) in H|apply (ok_aliases _ W1) in H]; lia. }
  match goal with |- context [new_column_alias ?c ?a] => destruct (new_column_alias_quiet c a s2 W2) as (w & s3 & E3 & Q3) end.
  rewrite (P_bind_run _ _ _ _ _ E3).
  assert (E4 : get_key_columns cat columns s3 = Ret ((m, kc), s3)).
  { rewrite get_key_columns_run. destruct Q3 as (_ & [-> _] & _). cbn [pl_values s2 with_table_aliases]. by rewrite V1, Hk. }
  rewrite (P_bind_run _ _ _ _ _ E4).
  match goal with |- context [key_aliases cat ?n 0 kc ?a] => destruct (key_aliases_quiet cat n 0 kc a s3 (proj1 Q3)) as (ws & s5 & E5 & Q5) end.
  rewrite (P_bind_run _ _ _ _ _ E5). pose proof (quiet_trans _ _ _ Q3 Q5) as (W5 & [V5 T5] & Co5).
  rewrite (P_bind_run fresh _ s5 _ _ eq_refl). erewrite (P_bind_run (put _)) by reflexivity.
  match goal with |- context [optimize _ ?x] => set (s6 := x) end.
  assert (G : grown s5 s6) by (split; try done; intros p Hp; by apply lookup_insert_ne).
  eexists w, ws, _, (pl_next s1), _, s6. split; [reflexivity|]. split; [by apply (grown_ok _ _ W5 G)|].
  split; [cbn; rewrite V5; exact V1|]. split.
  - change (pl_counter s6) with (pl_counter s5). rewrite Co5. cbn [pl_counter s2 with_table_aliases]. rewrite Co1. apply s32_small. lia.
  - change (pl_table_aliases s6) with (pl_table_aliases s5). rewrite T5. cbn [pl_table_aliases s2 with_table_aliases].
    rewrite lookup_insert_eq. by rewrite Co1.
Qed.

(** C40: A cross reference is never finished.  Its plan has the identifier the counter gave
    last, and the array of positions ends before that one: whatever the table (as long as
    it has a key) and the column, generating the plan writes one past the end. *)
Theorem cross_reference_overflows cat fuel s tp tn src columns d column id m kc :
  store_ok s → key_columns_of cat (pl_values s) columns = Ret (m, kc) → 0 ≤ m → 0 ≤ pl_counter s < 2 ^ 31 - 1 →
  lp_generate_xref_plan cat (optimize_logical_plan cat (S fuel)) (table_STATEMENT tp tn src columns d) column id s =
  Undef OutOfBounds.
Proof.
  intros W Hk Hm Hc. destruct (xref_plan_run cat (optimize_logical_plan cat (S fuel)) s tp tn src columns d column id m kc W Hk Hc)
    as (w & ws & kw & ta & out & s' & -> & W' & V & Co & T).
  apply (newest_overflows cat fuel s' _ ta ((λ n, make_key tp (key_column kc n) n (pl_counter s) LP_KEY_ADVANCE
    (Leaf LP_TABLE (VTableAlias ta)) false null) <$> seqZ 0 (m + 1))); try done; [lia| | |].
  - unfold keys_of_table. rewrite T, get_key_columns_run, V, Hk. done.
  - by rewrite seqZ_cons by lia.
  - apply Forall_fmap, list.Forall_forall. intros n _. cbn. lia.
Qed.
Lemma cross_reference_overflows_witness :
  lp_generate_xref_plan sample_catalog (optimize_logical_plan sample_catalog 1) orders col_name 1 sample_store = Undef OutOfBounds.
Proof.
  eapply (cross_reference_overflows sample_catalog 0 sample_store).
  - apply store_ok_check; vm_compute; reflexivity.
  - vm_compute; reflexivity.
  - lia.
  - vm_compute. split; [discriminate|reflexivity].
Defined.

(** ** On the sample table *)
(** Of each key of the plan: its column, its type and what it is fixed to. *)
Definition key_summary (o : outcome (LogicalPlan * planner)) : option (list (ptr * LPActionType * option side)) :=
  match o with
  | Ret (plan, s) =>
      match lp_get_keys plan with
      | Ret keys =>
          mapM (λ p, k ← pl_keys s !! p;
                     Some (k_column k, k_type k, if decide (k_type k = LP_KEY_FIX) then side_of s (k_value k) else None))
               (key_leaves keys)
      | _ => None
      end
  | _ => None
  end.
Definition optimized (ts : list ptr) (cond : LogicalPlan) : outcome (LogicalPlan * planner) :=
  optimize_logical_plan sample_catalog 4 (plan_of (sample_query ts cond)) sample_store.
(** [FROM (... UNION ALL ...), ORDERS] *)
Definition union_member : LogicalPlan :=
  let q := sample_query [31] NULL in
  plan_of (Query (q_columns q) (q_tables q) [] NULL NULL 40 (Op LP_OUTPUT (Leaf LP_KEY (VKey 51)) NULL)).
Definition union_first : LogicalPlan :=
  Op LP_TABLE_JOIN (lp_join_plans union_member union_member LP_SET_UNION_ALL) (tables_plan [30]).
Definition union_query : query :=
  let q := sample_query [30] NULL in
  Query (q_columns q) union_first [] NULL NULL 40 (q_output q).

(** Conditions the optimiser does not get right.  [WHERE NAME = 42], with NAME not a
    key, is a write past an array.  [WHERE ID = LINE] fixes the first key to the value of
    the second, which is only known later.  In a subquery, [a.ID = b.ID] with [b] of the
    parent query fixes nothing although [b.ID = a.ID] fixes the key.  After a derived
    table that is a union, the following tables of the FROM list get no keys. *)
Theorem optimizer_slips :
  optimized [30] (equal (column 62) (constant 6)) = Undef OutOfBounds ∧
  key_summary (optimized [30] (equal (column 60) (column 61))) =
    Some [(21, LP_KEY_FIX, Some (SColumn (1, lit "ORDERS", lit "LINE"))); (22, LP_KEY_ADVANCE, None)] ∧
  key_summary (optimized [30] (equal (column 60) (column 63))) =
    Some [(21, LP_KEY_ADVANCE, None); (22, LP_KEY_ADVANCE, None)] ∧
  key_summary (optimized [30] (equal (column 63) (column 60))) =
    Some [(21, LP_KEY_FIX, Some (SColumn (2, lit "ORDERS", lit "ID"))); (22, LP_KEY_ADVANCE, None)] ∧
  key_summary (optimize_logical_plan sample_catalog 4 (plan_of union_query) sample_store) = Some [(null, LP_INSERT, None)].
Proof. vm_compute. split_and!; reflexivity. Qed.
