(* ===== verification/GenerateWhere.v ===== *)
(** * From SQL conditions to logical plans

    [optimization_transforms/lp_generate_where.c]: the translation of an expression
    of the syntax tree into a plan, with its expansion of IN lists and its rewriting
    of literal regular expressions into comparisons, which writes into the pattern.

    The state is the planner's: of it the translation itself only changes the values.
    Subqueries are planned by the function [subquery], which [GeneratePlan.v] gives. *)
From stdpp Require Import gmap strings.
From S2P Require Import Prelude CMem LogicalPlan SqlStatement Quoting Optimize.

Definition gen : Type := planner.
Definition g_values : gen → values := pl_values.
Definition set_values (m : values) : gen → gen := with_values (λ _, m).

(** "we simply add the enum offset to find the type" *)
Definition lp_actions : list LPActionType :=
  [LP_INSERT; LP_SET_OPERATION; LP_TABLE; LP_TABLE_JOIN; LP_OUTER_JOIN; LP_COLUMN_LIST;
   LP_COLUMN_ALIAS; LP_COLUMN_LIST_ALIAS; LP_DERIVED_COLUMN; LP_PIECE_NUMBER; LP_VALUE;
   LP_PROJECT; LP_SELECT; LP_SELECT_OPTIONS; LP_KEYWORDS; LP_WHERE; LP_CRITERIA; LP_OUTPUT;
   LP_KEYS; LP_KEY; LP_KEY_FIX; LP_KEY_ADVANCE; LP_SET_UNION; LP_SET_UNION_ALL;
   LP_SET_EXCEPT; LP_SET_EXCEPT_ALL; LP_SET_INTERSECT; LP_SET_INTERSECT_ALL; LP_PLANS;
   LP_SET_OPTION; LP_FUNCTION_CALL; LP_CASE; LP_CASE_STATEMENT; LP_CASE_BRANCH;
   LP_CASE_BRANCH_STATEMENT; LP_ADDITION; LP_SUBTRACTION; LP_DIVISION; LP_MULTIPLICATION;
   LP_CONCAT; LP_BOOLEAN_OR; LP_BOOLEAN_AND; LP_BOOLEAN_IS; LP_BOOLEAN_EQUALS;
   LP_BOOLEAN_NOT_EQUALS; LP_BOOLEAN_LESS_THAN; LP_BOOLEAN_GREATER_THAN;
   LP_BOOLEAN_LESS_THAN_OR_EQUALS; LP_BOOLEAN_GREATER_THAN_OR_EQUALS;
   LP_BOOLEAN_REGEX_SENSITIVE; LP_BOOLEAN_REGEX_INSENSITIVE; LP_BOOLEAN_IN;
   LP_BOOLEAN_NOT_IN; LP_FORCE_NUM; LP_NEGATIVE; LP_BOOLEAN_NOT; LP_INVALID_ACTION].
Definition lp_action_of (n : Z) : LPActionType := default LP_INVALID_ACTION (lp_actions !! Z.to_nat n).
Definition binary_type (o : BinaryOperations) : LPActionType :=
  lp_action_of (binary_value o + lp_action_value LP_ADDITION).
Definition unary_type (o : UnaryOperations) : LPActionType :=
  lp_action_of (unary_value o + lp_action_value LP_FORCE_NUM).

(** The scan of a pattern: [^], characters that are not in the switch, [$], the end. *)
Definition scan_stops : list byte := lit "\*+{()}[]?.|".
Fixpoint scan_pattern (c : list byte) : option (list byte) :=
  match c with
  | [] => None
  | x :: c' =>
      if decide (x = chr "$") then (match c' with [] => Some [] | _ => None end)
      else if decide (x ∈ scan_stops) then None
      else cons x <$> scan_pattern c'
  end.
Definition literal_pattern (s : list byte) : option (list byte) :=
  match s with
  | x :: c => if decide (x = chr "^") then scan_pattern c else None
  | [] => None
  end.
Definition set_literal (s : list byte) (x : SqlValue) : SqlValue :=
  {| sv_type := sv_type x; sv_coerced_type := sv_coerced_type x; sv_data_type := sv_data_type x;
     sv_literal := s |}.

(** "if this is a regex, see if the pattern is entirely characters" *)
Definition regex_to_equals (ret : LogicalPlan) (g : gen) : outcome (LogicalPlan * gen) :=
  match ret with
  | Op LP_BOOLEAN_REGEX_SENSITIVE a b =>
      match b with
      | NULL => Undef NullPointer
      | Leaf LP_VALUE (VValue p) =>
          value ← value_at (g_values g) p;
          if decide (sv_type value ≠ STRING_LITERAL ∧ sv_type value ≠ NUMBER_LITERAL) then Ret (ret, g)
          else match literal_pattern (sv_literal value) with
          | None => Ret (ret, g)
          | Some s => Ret (Op LP_BOOLEAN_EQUALS a b,
                           set_values (<[p := set_literal s value]> (g_values g)) g)
          end
      | _ => Ret (ret, g)
      end
  | _ => Ret (ret, g)
  end.

(** The chains the loops build, from the plans of the elements. *)
Definition in_chain (type : LPActionType) (t : LogicalPlan) (items : list LogicalPlan) : LogicalPlan :=
  fold_left (λ ret item,
    let next := Op (if decide (type = LP_BOOLEAN_IN) then LP_BOOLEAN_EQUALS else LP_BOOLEAN_NOT_EQUALS) t item in
    if is_null ret then next
    else Op (if decide (type = LP_BOOLEAN_IN) then LP_BOOLEAN_OR else LP_BOOLEAN_AND) next ret) items NULL.
Fixpoint column_chain (items : list LogicalPlan) : LogicalPlan :=
  match items with
  | [] => NULL
  | NULL :: items' => column_chain items'
  | x :: items' => Op LP_COLUMN_LIST x (column_chain items')
  end.
Fixpoint branch_chain (items : list (LogicalPlan * LogicalPlan)) : LogicalPlan :=
  match items with
  | [] => NULL
  | (c, v) :: items' => Op LP_CASE_BRANCH (Op LP_CASE_BRANCH_STATEMENT c v) (branch_chain items')
  end.

(** A loop over a ring that threads the state. *)
Definition each {A B} (f : A → gen → outcome (B * gen)) : list A → gen → outcome (list B * gen) :=
  fix go l g :=
    match l with
    | [] => Ret ([], g)
    | x :: l' => '(y, g) ← f x g; '(ys, g) ← go l' g; Ret (y :: ys, g)
    end.
Definition do_each {A B} (f : A → gen → outcome (B * gen)) (l : list A) (g : gen)
    : outcome (list B * gen) :=
  match l with [] => Undef NullPointer | _ => each f l g end.

(** [UNPACK_SQL_STATEMENT] of a member of another type. *)
Definition wrong_type {A} (s : SqlStatement) : outcome A :=
  if is_null_stmt s then Undef NullPointer else Halt AssertFailed.

Section generate.
Context (subquery : SqlStatement → gen → outcome (LogicalPlan * gen)).

Fixpoint lp_generate_where (stmt : SqlStatement) (g : gen) : outcome (LogicalPlan * gen) :=
  match stmt with
  | null_STATEMENT => Ret (NULL, g)
  | value_STATEMENT p v =>
      value ← value_at (g_values g) p;
      match sv_type value with
      | CALCULATED_VALUE => lp_generate_where v g
      | _ => Ret (Leaf LP_VALUE (VValue p), g)
      end
  | binary_STATEMENT operation operand0 operand1 =>
      let type := binary_type operation in
      let general g :=
        '(a, g) ← lp_generate_where operand0 g;
        '(b, g) ← lp_generate_where operand1 g;
        regex_to_equals (Op type a b) g in
      if decide (type = LP_BOOLEAN_IN ∨ type = LP_BOOLEAN_NOT_IN) then
        match operand1 with
        | null_STATEMENT => Undef NullPointer
        | column_list_STATEMENT ring =>
            '(t, g) ← lp_generate_where operand0 g;
            '(items, g) ← do_each lp_generate_where ring g;
            Ret (in_chain type t items, g)
        | _ => general g
        end
      else general g
  | unary_STATEMENT operation operand =>
      '(a, g) ← lp_generate_where operand g;
      Ret (Op (unary_type operation) a NULL, g)
  | function_call_STATEMENT function_name parameters =>
      '(f, g) ← lp_generate_where function_name g;
      match parameters with
      | column_list_STATEMENT ring =>
          '(items, g) ← do_each lp_generate_where ring g;
          Ret (Op LP_FUNCTION_CALL f (column_chain items), g)
      | _ => wrong_type parameters
      end
  | column_alias_STATEMENT p _ _ => Ret (Leaf LP_COLUMN_ALIAS (VColumnAlias p), g)
  | cas_STATEMENT value branches optional_else =>
      '(v, g) ← lp_generate_where value g;
      '(e, g) ← lp_generate_where optional_else g;
      match branches with
      | cas_branch_STATEMENT ring =>
          '(items, g) ← do_each (λ '(CaseBranch condition value) g,
              '(c, g) ← lp_generate_where condition g;
              '(v, g) ← lp_generate_where value g;
              Ret ((c, v), g)) ring g;
          Ret (Op LP_CASE (Op LP_CASE_STATEMENT v e) (branch_chain items), g)
      | _ => wrong_type branches
      end
  | set_operation_STATEMENT _ _ _ | table_alias_STATEMENT _ _ _ _ _ => subquery stmt g
  | _ => Halt FatalExit
  end.
End generate.
