(* ===== verification/GenerateTheorems.v ===== *)
(** * The plan of a condition means what the condition means

    [eval] gives an SQL expression its value in a row, [lp_eval] a plan, over one
    interpretation of the operators; [lp_generate_where] takes one to the other, and
    the normal form of the plan keeps its truth. *)
From stdpp Require Import gmap strings.
From S2P Require Import Prelude CMem LogicalPlan LogicalPlanTheorems Dnf DnfTheorems SqlStatement Quoting Optimize GenerateWhere.

#[local] Set Warnings "-clear-no-such-hyp".

(** ** Meaning *)
Class SqlMeaning := {
  sql_value : Type;
  truth : sql_value → bool;
  of_bool : bool → sql_value;
  nul_value : sql_value;
  column_value : ptr → sql_value;              (* of the row at hand *)
  constant : SqlValue → sql_value;
  apply_binary : BinaryOperations → sql_value → sql_value → sql_value;
  apply_unary : UnaryOperations → sql_value → sql_value;
  call_function : sql_value → list sql_value → sql_value;
  choose : option sql_value → list (sql_value * sql_value) → option sql_value → sql_value;
}.

(** The comparisons are truth values, and complements where the planner takes them to
    be; matching an anchored pattern without metacharacters is equality. *)
Class SqlLaws `{SqlMeaning} := {
  truth_of_bool b : truth (of_bool b) = b;
  equals_bool a b :
    apply_binary BOOLEAN_EQUALS a b = of_bool (truth (apply_binary BOOLEAN_EQUALS a b));
  not_equals_bool a b :
    apply_binary BOOLEAN_NOT_EQUALS a b = of_bool (negb (truth (apply_binary BOOLEAN_EQUALS a b)));
  greater_or_equals_not a b :
    truth (apply_binary BOOLEAN_GREATER_THAN_OR_EQUALS a b) =
      negb (truth (apply_binary BOOLEAN_LESS_THAN a b));
  less_or_equals_not a b :
    truth (apply_binary BOOLEAN_LESS_THAN_OR_EQUALS a b) =
      negb (truth (apply_binary BOOLEAN_GREATER_THAN a b));
  not_in_not a b :
    truth (apply_binary BOOLEAN_NOT_IN a b) = negb (truth (apply_binary BOOLEAN_IN a b));
  regex_literal a x s :
    plain s →
    apply_binary BOOLEAN_REGEX_SENSITIVE a (constant (set_literal (anchored s) x)) =
      apply_binary BOOLEAN_EQUALS a (constant (set_literal s x));
}.

Section meaning.
Context `{SqlMeaning}.

Definition sql_binary (o : BinaryOperations) (a b : sql_value) : sql_value :=
  match o with
  | BOOLEAN_AND => of_bool (truth a && truth b)
  | BOOLEAN_OR => of_bool (truth a || truth b)
  | _ => apply_binary o a b
  end.
Definition sql_unary (o : UnaryOperations) (a : sql_value) : sql_value :=
  match o with BOOLEAN_NOT => of_bool (negb (truth a)) | _ => apply_unary o a end.

Fixpoint eval (m : values) (s : SqlStatement) : sql_value :=
  match s with
  | value_STATEMENT p v =>
      match m !! p with
      | Some x => if decide (sv_type x = CALCULATED_VALUE) then eval m v else constant x
      | None => nul_value
      end
  | binary_STATEMENT o a b =>
      match b with
      | column_list_STATEMENT ring =>
          let equal x := truth (apply_binary BOOLEAN_EQUALS (eval m a) x) in
          match o with
          | BOOLEAN_IN => of_bool (existsb equal (eval m <$> ring))
          | BOOLEAN_NOT_IN => of_bool (forallb (negb ∘ equal) (eval m <$> ring))
          | _ => nul_value
          end
      | _ => sql_binary o (eval m a) (eval m b)
      end
  | unary_STATEMENT o a => sql_unary o (eval m a)
  | function_call_STATEMENT f (column_list_STATEMENT ring) =>
      call_function (eval m f)
        (ring ≫= λ x, if is_null_stmt x then [] else [eval m x])    (* F() has one NULL *)
  | column_alias_STATEMENT p _ _ => column_value p
  | cas_STATEMENT v (cas_branch_STATEMENT ring) e =>
      choose (if is_null_stmt v then None else Some (eval m v))
        ((λ '(CaseBranch c v), (eval m c, eval m v)) <$> ring)
        (if is_null_stmt e then None else Some (eval m e))
  | _ => nul_value
  end.

Definition binary_of (t : LPActionType) : option BinaryOperations :=
  match t with
  | LP_ADDITION => Some ADDITION | LP_SUBTRACTION => Some SUBTRACTION
  | LP_DIVISION => Some DVISION | LP_MULTIPLICATION => Some MULTIPLICATION
  | LP_CONCAT => Some CONCAT | LP_BOOLEAN_OR => Some BOOLEAN_OR
  | LP_BOOLEAN_AND => Some BOOLEAN_AND | LP_BOOLEAN_IS => Some BOOLEAN_IS
  | LP_BOOLEAN_EQUALS => Some BOOLEAN_EQUALS | LP_BOOLEAN_NOT_EQUALS => Some BOOLEAN_NOT_EQUALS
  | LP_BOOLEAN_LESS_THAN => Some BOOLEAN_LESS_THAN
  | LP_BOOLEAN_GREATER_THAN => Some BOOLEAN_GREATER_THAN
  | LP_BOOLEAN_LESS_THAN_OR_EQUALS => Some BOOLEAN_LESS_THAN_OR_EQUALS
  | LP_BOOLEAN_GREATER_THAN_OR_EQUALS => Some BOOLEAN_GREATER_THAN_OR_EQUALS
  | LP_BOOLEAN_REGEX_SENSITIVE => Some BOOLEAN_REGEX_SENSITIVE
  | LP_BOOLEAN_REGEX_INSENSITIVE => Some BOOLEAN_REGEX_INSENSITIVE
  | LP_BOOLEAN_IN => Some BOOLEAN_IN | LP_BOOLEAN_NOT_IN => Some BOOLEAN_NOT_IN
  | _ => None
  end.
Definition unary_of (t : LPActionType) : option UnaryOperations :=
  match t with
  | LP_FORCE_NUM => Some FORCE_NUM | LP_NEGATIVE => Some NEGATIVE
  | LP_BOOLEAN_NOT => Some BOOLEAN_NOT | _ => None
  end.

Fixpoint lp_eval (m : values) (p : LogicalPlan) : sql_value :=
  match p with
  | Leaf LP_VALUE (VValue a) => match m !! a with Some x => constant x | None => nul_value end
  | Leaf LP_COLUMN_ALIAS (VColumnAlias a) => column_value a
  | Op LP_FUNCTION_CALL f args => call_function (lp_eval m f) (lp_arguments m args)
  | Op LP_CASE (Op LP_CASE_STATEMENT v e) branches =>
      choose (if is_null v then None else Some (lp_eval m v)) (lp_branches m branches)
        (if is_null e then None else Some (lp_eval m e))
  | Op t a b =>
      match binary_of t with
      | Some o => sql_binary o (lp_eval m a) (lp_eval m b)
      | None => match unary_of t with Some o => sql_unary o (lp_eval m a) | None => nul_value end
      end
  | _ => nul_value
  end
with lp_arguments (m : values) (p : LogicalPlan) : list sql_value :=
  match p with
  | Op LP_COLUMN_LIST x rest => lp_eval m x :: lp_arguments m rest
  | _ => []
  end
with lp_branches (m : values) (p : LogicalPlan) : list (sql_value * sql_value) :=
  match p with
  | Op LP_CASE_BRANCH (Op LP_CASE_BRANCH_STATEMENT c v) rest =>
      (lp_eval m c, lp_eval m v) :: lp_branches m rest
  | _ => []
  end.
End meaning.

(** ** Expressions without subqueries *)
(** The addresses of the values an expression reads. *)
Fixpoint addresses (s : SqlStatement) : list ptr :=
  match s with
  | value_STATEMENT p v => p :: addresses v
  | binary_STATEMENT _ a b | function_call_STATEMENT a b => addresses a ++ addresses b
  | unary_STATEMENT _ a => addresses a
  | column_list_STATEMENT ring => ring ≫= addresses
  | cas_STATEMENT v b e => addresses v ++ addresses e ++ addresses b
  | cas_branch_STATEMENT ring => ring ≫= λ '(CaseBranch c v), addresses c ++ addresses v
  | _ => []
  end.

(** The value a pattern is kept in. *)
Fixpoint pattern_of (m : values) (s : SqlStatement) : option SqlValue :=
  match s with
  | value_STATEMENT p v =>
      x ← m !! p; if decide (sv_type x = CALCULATED_VALUE) then pattern_of m v else Some x
  | _ => None
  end.
(** The scan does not stop at a [^] inside the pattern. *)
Definition pattern_safe (m : values) (s : SqlStatement) : bool :=
  match pattern_of m s with
  | Some x =>
      match literal_pattern (sv_literal x) with Some s => bool_decide (chr "^" ∉ s) | None => true end
  | None => true
  end.

(** What the translation accepts, without subqueries, and is right for: each value is
    there, no cast, IS NULL is not an operator of the plan, lists only where IN and
    function calls have them. *)
Fixpoint translatable (m : values) (s : SqlStatement) : bool :=
  match s with
  | value_STATEMENT p v =>
      match m !! p with
      | Some x =>
          if decide (sv_type x = CALCULATED_VALUE) then translatable m v
          else bool_decide (sv_type x ≠ COERCE_TYPE)
      | None => false
      end
  | binary_STATEMENT o a b =>
      translatable m a &&
      match b with
      | column_list_STATEMENT ring =>
          bool_decide (o = BOOLEAN_IN ∨ o = BOOLEAN_NOT_IN) && bool_decide (ring ≠ []) &&
          forallb (translatable m) ring
      | _ =>
          bool_decide (o ≠ BOOLEAN_NULL ∧ o ≠ BOOLEAN_NOT_NULL) && translatable m b &&
          (bool_decide (o ≠ BOOLEAN_REGEX_SENSITIVE) || pattern_safe m b)
      end
  | unary_STATEMENT _ a => translatable m a
  | function_call_STATEMENT f (column_list_STATEMENT ring) =>
      translatable m f && bool_decide (ring ≠ []) &&
      forallb (λ x, is_null_stmt x || translatable m x) ring
  | column_alias_STATEMENT _ _ _ => true
  | cas_STATEMENT v (cas_branch_STATEMENT ring) e =>
      (is_null_stmt v || translatable m v) && (is_null_stmt e || translatable m e) &&
      bool_decide (ring ≠ []) && forallb (λ '(CaseBranch c v), translatable m c && translatable m v) ring
  | _ => false
  end.

(** The shapes of a translatable expression. *)
Inductive expression (m : values) : SqlStatement → Prop :=
  | XConstant p v x : m !! p = Some x → sv_type x ≠ CALCULATED_VALUE → sv_type x ≠ COERCE_TYPE →
      expression m (value_STATEMENT p v)
  | XCalculated p v x : m !! p = Some x → sv_type x = CALCULATED_VALUE → translatable m v = true →
      expression m (value_STATEMENT p v)
  | XIn o a ring : o = BOOLEAN_IN ∨ o = BOOLEAN_NOT_IN → translatable m a = true → ring ≠ [] →
      Forall (λ x, translatable m x = true) ring →
      expression m (binary_STATEMENT o a (column_list_STATEMENT ring))
  | XBinary o a b : (∀ ring, b ≠ column_list_STATEMENT ring) → o ≠ BOOLEAN_NULL → o ≠ BOOLEAN_NOT_NULL →
      translatable m a = true → translatable m b = true →
      (o = BOOLEAN_REGEX_SENSITIVE → pattern_safe m b = true) →
      expression m (binary_STATEMENT o a b)
  | XUnary o a : translatable m a = true → expression m (unary_STATEMENT o a)
  | XCall f ring : translatable m f = true → ring ≠ [] →
      Forall (λ x, x = null_STATEMENT ∨ translatable m x = true) ring →
      expression m (function_call_STATEMENT f (column_list_STATEMENT ring))
  | XColumn p c t : expression m (column_alias_STATEMENT p c t)
  | XCase v ring e : v = null_STATEMENT ∨ translatable m v = true →
      e = null_STATEMENT ∨ translatable m e = true → ring ≠ [] →
      Forall (λ '(CaseBranch c v), translatable m c = true ∧ translatable m v = true) ring →
      expression m (cas_STATEMENT v (cas_branch_STATEMENT ring) e).

Lemma list_or_not b :
  (∃ ring, b = column_list_STATEMENT ring) ∨ (∀ ring, b ≠ column_list_STATEMENT ring).
Proof. destruct b; first [right; done|left; by eexists]. Qed.
Lemma translatable_binary m o a b : (∀ ring, b ≠ column_list_STATEMENT ring) →
  translatable m (binary_STATEMENT o a b) =
    translatable m a &&
    (bool_decide (o ≠ BOOLEAN_NULL ∧ o ≠ BOOLEAN_NOT_NULL) && translatable m b &&
     (bool_decide (o ≠ BOOLEAN_REGEX_SENSITIVE) || pattern_safe m b)).
Proof. intros Hb. destruct b; try done. by destruct (Hb ring). Qed.
Lemma eval_binary `{SqlMeaning} m o a b : (∀ ring, b ≠ column_list_STATEMENT ring) →
  eval m (binary_STATEMENT o a b) = sql_binary o (eval m a) (eval m b).
Proof. intros Hb. destruct b; try done. by destruct (Hb ring). Qed.

Lemma null_or_spec m s : is_null_stmt s || translatable m s = true → s = null_STATEMENT ∨ translatable m s = true.
Proof. destruct s; auto. Qed.
Lemma translatable_expression m s : translatable m s = true → expression m s.
Proof.
  intros Ht. destruct s as [ | | | | | p v | f a | o a b | o a | | | | | | | | | p c t | | | | | | v b e | | | | | ];
    try discriminate Ht.
  - cbn in Ht. destruct (m !! p) as [x|] eqn:E; [|done]. case_decide; [by eapply XCalculated|].
    apply bool_decide_eq_true in Ht. by eapply XConstant.
  - destruct a; try discriminate Ht. cbn in Ht. apply andb_true_iff in Ht as [[Hf Hn%bool_decide_eq_true]%andb_true_iff Hr].
    apply XCall; [done..|]. revert Hr. apply forallb_Forall. intros x. apply null_or_spec.
  - destruct (list_or_not b) as [[ring ->]|Hb].
    + cbn in Ht. apply andb_true_iff in Ht as [Ha Ht].
      apply andb_true_iff in Ht as [[Ho%bool_decide_eq_true Hn%bool_decide_eq_true]%andb_true_iff Hr].
      apply XIn; [done..|]. revert Hr. by apply forallb_Forall.
    + rewrite translatable_binary in Ht by done.
      apply andb_true_iff in Ht as [Ha [[[Ho Ho']%bool_decide_eq_true Htb]%andb_true_iff Hr]%andb_true_iff].
      apply XBinary; try done. intros ->. by rewrite bool_decide_false in Hr by auto.
  - by apply XUnary.
  - apply XColumn.
  - destruct b; try discriminate Ht. cbn in Ht.
    apply andb_true_iff in Ht as [[[Hv He]%andb_true_iff Hn%bool_decide_eq_true]%andb_true_iff Hr].
    apply XCase; [by apply null_or_spec..|done|]. revert Hr. apply forallb_Forall.
    intros [c v']. apply andb_true_iff.
Qed.

(** ** What an expression depends on *)
Definition agree (l : list ptr) (m m' : values) : Prop := ∀ a, a ∈ l → m' !! a = m !! a.
Lemma agree_app l l' m m' : agree (l ++ l') m m' ↔ agree l m m' ∧ agree l' m m'.
Proof. unfold agree. set_solver. Qed.
Lemma agree_ring {A} (f : A → list ptr) ring m m' :
  agree (ring ≫= f) m m' ↔ Forall (λ x, agree (f x) m m') ring.
Proof.
  induction ring as [|x ring IH]; cbn.
  - split; [constructor|]. intros _ a Ha. set_solver.
  - rewrite agree_app, IH. by rewrite Forall_cons_iff.
Qed.

Lemma pattern_agree m m' s : agree (addresses s) m m' → pattern_of m' s = pattern_of m s.
Proof.
  induction s as [s IH] using statement_ind. intros Ha. destruct s; try done. cbn in *.
  rewrite Ha by set_solver. destruct (m !! p) as [x|]; [|done]. cbn. case_decide; [|done].
  apply Forall_cons_1 in IH as [IH _]. apply IH. intros a ?. apply Ha. set_solver.
Qed.

Section agree.
Context `{SqlMeaning} (m m' : values).
Definition same (s : SqlStatement) : Prop :=
  agree (addresses s) m m' → translatable m s = true →
  translatable m' s = true ∧ eval m' s = eval m s.


Lemma null_or_same x : same x → agree (addresses x) m m' → x = null_STATEMENT ∨ translatable m x = true →
  is_null_stmt x || translatable m' x = true ∧ eval m' x = eval m x.
Proof. intros Hx Ha [-> |Ht]; [done|]. destruct (Hx Ha Ht) as [-> ->]. by rewrite orb_true_r. Qed.
Lemma ring_agree ring : Forall same ring → agree (ring ≫= addresses) m m' →
  Forall (λ x, x = null_STATEMENT ∨ translatable m x = true) ring →
  forallb (λ x, is_null_stmt x || translatable m' x) ring = true ∧ eval m' <$> ring = eval m <$> ring ∧
  (Forall (λ x, translatable m x = true) ring → forallb (translatable m') ring = true).
Proof.
  rewrite agree_ring. intros Hs Ha Hr. induction Hs as [|x ring Hx Hs IH]; [done|].
  decompose_Forall_hyps. destruct (null_or_same x) as [? Ex]; [done..|].
  destruct IH as (IH1 & IH2 & IH3); [done..|]. rewrite Ex, IH2.
  split_and!; [by apply andb_true_iff|done|]. intros Ht. decompose_Forall_hyps.
  apply andb_true_iff. split; [|by apply IH3]. by apply Hx.
Qed.
Lemma branches_agree ring :
  Forall (λ b, Forall same (branch_children b)) ring →
  agree (addresses (cas_branch_STATEMENT ring)) m m' →
  Forall (λ '(CaseBranch c v), translatable m c = true ∧ translatable m v = true) ring →
  forallb (λ '(CaseBranch c v), translatable m' c && translatable m' v) ring = true ∧
  (λ '(CaseBranch c v), (eval m' c, eval m' v)) <$> ring =
  (λ '(CaseBranch c v), (eval m c, eval m v)) <$> ring.
Proof.
  induction ring as [|[c v] ring IH]; [done|]. intros [Hs ?]%Forall_cons_1 Ha [[??] ?]%Forall_cons_1.
  cbn in Ha. rewrite !agree_app in Ha. destruct Ha as [[??] ?]. destruct IH as [E1 E2]; [done..|].
  apply Forall_cons_1 in Hs as [Hc [Hv _]%Forall_cons_1].
  destruct (Hc ltac:(done) ltac:(done)) as [E0 E3], (Hv ltac:(done) ltac:(done)) as [E4 E5].
  rewrite !fmap_cons, E3, E5, E2. cbn [forallb]. by rewrite E0, E1, E4.
Qed.

Lemma expression_agree s : same s.
Proof.
  induction s as [s IH] using statement_ind2. intros Ha Ht.
  destruct (translatable_expression _ _ Ht) as
    [p v x E Hc Ho|p v x E Hc Hv|o a ring Ho Hta Hn Hr|o a b Hb Ho Ho' Hta Htb Hp|o a Hta
    |f ring Hf Hn Hr|p c t|v ring e Hv He Hn Hr]; cbn [children] in IH.
  - cbn in *. rewrite Ha, E by set_solver. by rewrite !decide_False, bool_decide_true by done.
  - cbn in *. rewrite Ha, E by set_solver. rewrite !decide_True by done.
    apply Forall_cons_1 in IH as [[IH _] _]. apply IH; [|done]. intros a ?. apply Ha. set_solver.
  - apply Forall_cons_1 in IH as [[IHa _] [[_ IHr] _]%Forall_cons_1].
    cbn [addresses] in Ha. apply agree_app in Ha as [Haa Har].
    destruct (ring_agree ring) as (_ & E & Et); [done..| |].
    { eapply Forall_impl; [|exact Hr]. auto. }
    destruct (IHa Haa Hta) as [E1 E2]. cbn. rewrite E1, E2, E, Et by done.
    by rewrite !bool_decide_true by done.
  - apply Forall_cons_1 in IH as [[IHa _] [[IHb _] _]%Forall_cons_1].
    cbn [addresses] in Ha. apply agree_app in Ha as [Haa Hab].
    destruct (IHa Haa Hta) as [E1 E2], (IHb Hab Htb) as [E3 E4].
    rewrite translatable_binary in Ht |- * by done. rewrite !eval_binary by done.
    unfold pattern_safe in *. rewrite (pattern_agree m m') by done.
    rewrite Hta, Htb in Ht. by rewrite E1, E2, E3, E4.
  - apply Forall_cons_1 in IH as [[IHa _] _]. cbn in *.
    destruct (IHa Ha Hta) as [E1 E2]. by rewrite E1, E2.
  - apply Forall_cons_1 in IH as [[IHf _] [[_ IHr] _]%Forall_cons_1].
    cbn [addresses] in Ha. apply agree_app in Ha as [Haf Har].
    destruct (ring_agree ring) as (E & E' & _); [done..|]. destruct (IHf Haf Hf) as [E1 E2].
    cbn. rewrite E, E1, E2, bool_decide_true by done. split; [done|]. f_equal.
    clear -E'. induction ring as [|x ring IH]; [done|]. injection E' as E1 E2. cbn.
    by rewrite E1, IH.
  - done.
  - apply Forall_cons_1 in IH as [[IHv _] [[_ IHr] [[IHe _] _]%Forall_cons_1]%Forall_cons_1].
    cbn [addresses] in Ha. rewrite !agree_app in Ha. destruct Ha as (Hav & Hae & Har).
    destruct (null_or_same v) as [E1 E2]; [done..|]. destruct (null_or_same e) as [E3 E4]; [done..|].
    cbn [children] in IHr. apply Forall_bind_children in IHr.
    destruct (branches_agree ring) as [E5 E6]; [done..|].
    cbn. by rewrite E1, E2, E3, E4, bool_decide_true, E5, E6 by done.
Qed.
End agree.

(** ** What a plan depends on *)
Fixpoint plan_addresses (p : LogicalPlan) : list ptr :=
  match p with
  | Leaf LP_VALUE (VValue a) => [a]
  | Op _ a b => plan_addresses a ++ plan_addresses b
  | _ => []
  end.

Lemma plan_ind2 (P : LogicalPlan → Prop) :
  P NULL → (∀ t v, P (Leaf t v)) →
  (∀ t a b, P a → P b → (∀ t' c d, a = Op t' c d → P c ∧ P d) → P (Op t a b)) → ∀ p, P p.
Proof.
  intros H0 Hl Ho p. cut (P p ∧ ∀ t c d, p = Op t c d → P c ∧ P d); [by intros [? _]|].
  induction p as [|t a [IHa IHa'] b [IHb IHb']|t v]; [done| |done].
  split; [by apply Ho|]. by intros ??? [= <- <- <-].
Qed.

Lemma lp_eval_agree `{SqlMeaning} m m' p : agree (plan_addresses p) m m' →
  lp_eval m' p = lp_eval m p ∧ lp_arguments m' p = lp_arguments m p ∧
  lp_branches m' p = lp_branches m p.
Proof.
  induction p as [|t v|t a b IHa IHb IHc] using plan_ind2; intros Ha.
  - done.
  - split; [|done]. destruct t, v; cbn in *; try done. by rewrite Ha by set_solver.
  - cbn [plan_addresses] in Ha. apply agree_app in Ha as [Ha Hb].
    destruct (IHa Ha) as (E1 & E2 & E3), (IHb Hb) as (E4 & E5 & E6).
    assert (Hc : ∀ t' c d, a = Op t' c d → lp_eval m' c = lp_eval m c ∧ lp_eval m' d = lp_eval m d).
    { intros t' c d ->. cbn [plan_addresses] in Ha. apply agree_app in Ha as [Hc Hd].
      destruct (IHc t' c d eq_refl) as [IH1 IH2]. split; [by apply IH1|by apply IH2]. }
    split_and!.
    + destruct t; cbn [lp_eval binary_of unary_of]; rewrite ?E1, ?E4, ?E5; try done.
      destruct a as [|t' c d|]; try done. destruct (Hc t' c d eq_refl) as [E7 E8].
      destruct t'; rewrite ?E6, ?E7, ?E8; done.
    + destruct t; cbn; by rewrite ?E1, ?E5.
    + destruct t; try done. destruct a as [|t' c d|]; try done.
      destruct (Hc t' c d eq_refl) as [E7 E8]. destruct t'; try done. cbn. by rewrite E6, E7, E8.
Qed.

(** ** The loops *)
Lemma in_chain_fold `{SqlLaws} m t items ret b :
  lp_eval m ret = of_bool b → is_null ret = false →
  lp_eval m (fold_left (λ ret item,
    let next := Op LP_BOOLEAN_EQUALS t item in
    if is_null ret then next else Op LP_BOOLEAN_OR next ret) items ret) =
  of_bool (b || existsb (λ x, truth (apply_binary BOOLEAN_EQUALS (lp_eval m t) x)) (lp_eval m <$> items)).
Proof.
  revert ret b. induction items as [|x items IH]; intros ret b Hr Hn; cbn.
  - by rewrite orb_false_r.
  - rewrite Hn, (IH _ (truth (apply_binary BOOLEAN_EQUALS (lp_eval m t) (lp_eval m x)) || b)); [|cbn|done].
    + f_equal. destruct b; by rewrite ?orb_true_r, ?orb_false_r.
    + by rewrite Hr, truth_of_bool.
Qed.
Lemma not_in_chain_fold `{SqlLaws} m t items ret b :
  lp_eval m ret = of_bool b → is_null ret = false →
  lp_eval m (fold_left (λ ret item,
    let next := Op LP_BOOLEAN_NOT_EQUALS t item in
    if is_null ret then next else Op LP_BOOLEAN_AND next ret) items ret) =
  of_bool (b && forallb (negb ∘ (λ x, truth (apply_binary BOOLEAN_EQUALS (lp_eval m t) x)))
                  (lp_eval m <$> items)).
Proof.
  revert ret b. induction items as [|x items IH]; intros ret b Hr Hn; cbn.
  - by rewrite andb_true_r.
  - rewrite Hn, (IH _ (negb (truth (apply_binary BOOLEAN_EQUALS (lp_eval m t) (lp_eval m x))) && b)); [|cbn|done].
    + f_equal. destruct b; by rewrite ?andb_true_r, ?andb_false_r.
    + by rewrite Hr, not_equals_bool, !truth_of_bool.
Qed.

Lemma binary_type_in o : binary_type o = LP_BOOLEAN_IN ↔ o = BOOLEAN_IN.
Proof. by destruct o. Qed.
Lemma binary_type_not_in o : binary_type o = LP_BOOLEAN_NOT_IN ↔ o = BOOLEAN_NOT_IN.
Proof. by destruct o. Qed.

Section chains.
Context `{SqlLaws} (m : values).
Lemma in_chain_eval o t items : o = BOOLEAN_IN ∨ o = BOOLEAN_NOT_IN → items ≠ [] →
  let equal x := truth (apply_binary BOOLEAN_EQUALS (lp_eval m t) x) in
  lp_eval m (in_chain (binary_type o) t items) =
    of_bool (if decide (o = BOOLEAN_IN) then existsb equal (lp_eval m <$> items)
             else forallb (negb ∘ equal) (lp_eval m <$> items)).
Proof.
  intros Ho Hn equal. destruct items as [|x items]; [done|].
  destruct Ho as [-> | ->]; unfold in_chain; cbn [fold_left is_null].
  - rewrite (in_chain_fold m t items _ (equal (lp_eval m x))); [done| |done].
    cbn. apply equals_bool.
  - rewrite (not_in_chain_fold m t items _ (negb (equal (lp_eval m x)))); [done| |done].
    cbn. apply not_equals_bool.
Qed.
Lemma column_chain_eval items :
  lp_arguments m (column_chain items) = items ≫= λ x, if is_null x then [] else [lp_eval m x].
Proof. induction items as [|[] items IH]; cbn; by rewrite ?IH. Qed.
Lemma branch_chain_eval items :
  lp_branches m (branch_chain items) = (λ '(c, v), (lp_eval m c, lp_eval m v)) <$> items.
Proof. induction items as [|[] items IH]; cbn; by rewrite ?IH. Qed.
End chains.

Definition is_op (p : LogicalPlan) : bool := match p with Op _ _ _ => true | _ => false end.
Section chain_addresses.
Context (L : list ptr).
Lemma in_chain_addresses type t items :
  plan_addresses t ⊆ L → Forall (λ x, plan_addresses x ⊆ L) items → items ≠ [] →
  is_op (in_chain type t items) = true ∧ plan_addresses (in_chain type t items) ⊆ L.
Proof.
  intros Ht Hi Hn. unfold in_chain.
  cut (∀ ret, plan_addresses ret ⊆ L → is_op ret = true ∨ items ≠ [] →
    is_op (fold_left (λ ret item,
      let next := Op (if decide (type = LP_BOOLEAN_IN) then LP_BOOLEAN_EQUALS else LP_BOOLEAN_NOT_EQUALS) t item in
      if is_null ret then next
      else Op (if decide (type = LP_BOOLEAN_IN) then LP_BOOLEAN_OR else LP_BOOLEAN_AND) next ret) items ret) = true ∧
    plan_addresses (fold_left (λ ret item,
      let next := Op (if decide (type = LP_BOOLEAN_IN) then LP_BOOLEAN_EQUALS else LP_BOOLEAN_NOT_EQUALS) t item in
      if is_null ret then next
      else Op (if decide (type = LP_BOOLEAN_IN) then LP_BOOLEAN_OR else LP_BOOLEAN_AND) next ret) items ret) ⊆ L).
  { intros Hcut. apply Hcut; [cbn; set_solver|auto]. }
  clear Hn. induction Hi as [|x items Hx Hi IH]; intros ret Hr Hn; cbn [fold_left].
  - destruct Hn; [|done]. split; done.
  - apply IH; [|left; by destruct ret]. destruct (is_null ret); cbn [plan_addresses]; set_solver.
Qed.
Lemma column_chain_addresses items :
  Forall (λ x, plan_addresses x ⊆ L) items → plan_addresses (column_chain items) ⊆ L.
Proof. induction 1 as [|[] items ? ? IH]; cbn in *; set_solver. Qed.
Lemma branch_chain_addresses items :
  Forall (λ '(c, v), plan_addresses c ⊆ L ∧ plan_addresses v ⊆ L) items →
  plan_addresses (branch_chain items) ⊆ L.
Proof. induction 1 as [|[] items [] ? IH]; cbn in *; set_solver. Qed.
End chain_addresses.

(** ** The translation *)
Definition frame_values (l : list ptr) (m m' : values) : Prop := ∀ a, a ∉ l → m' !! a = m !! a.

Lemma frame_trans l l' m m1 m2 :
  frame_values l m m1 → frame_values l' m1 m2 → frame_values (l ++ l') m m2.
Proof. intros H1 H2 a Ha. rewrite H2, H1; set_solver. Qed.

Section result.
Context `{SqlLaws}.

(** [p] is a plan for [s], in the memory after. *)
Definition result (m : values) (s : SqlStatement) (m' : values) (p : LogicalPlan) : Prop :=
  is_null p = is_null_stmt s ∧ plan_addresses p ⊆ addresses s ∧
  (s ≠ null_STATEMENT → lp_eval m' p = eval m s) ∧
  (∀ a, p = Leaf LP_VALUE (VValue a) → ∃ x, pattern_of m s = Some x ∧ m' !! a = Some x).

Lemma result_later m s m1 m2 p l :
  result m s m1 p → frame_values l m1 m2 → addresses s ## l → result m s m2 p.
Proof.
  intros (Hn & Hp & He & Hl) Hf Hd. split_and!; [done..| |].
  - intros Hs. rewrite <- He by done. apply lp_eval_agree. intros a Ha. apply Hf. set_solver.
  - intros a ->. destruct (Hl a eq_refl) as (x & ? & ?). exists x. rewrite Hf; [done|].
    cbn in Hp. set_solver.
Qed.
Lemma translatable_later m m1 s l : frame_values l m m1 → l ## addresses s →
  s = null_STATEMENT ∨ translatable m s = true → s = null_STATEMENT ∨ translatable m1 s = true.
Proof.
  intros Hf Hd [?|Ht]; [by left|right]. apply (expression_agree m m1); [|done].
  intros a Ha. apply Hf. set_solver.
Qed.
Lemma result_from m m1 m2 s p l : frame_values l m m1 → l ## addresses s →
  s = null_STATEMENT ∨ translatable m s = true → result m1 s m2 p → result m s m2 p.
Proof.
  intros Hf Hd Ht (Hn & Hp & He & Hl). assert (agree (addresses s) m m1) as Ha.
  { intros a Ha. apply Hf. set_solver. }
  split_and!; [done..| |].
  - intros Hs. rewrite He by done. destruct Ht as [?|Ht]; [done|]. by apply (expression_agree m m1).
  - intros a Ea. rewrite <- (pattern_agree m m1) by done. by apply Hl.
Qed.

End result.

Lemma disjoint_ring_cons {A} (ad : A → list ptr) (l : list ptr) y ring :
  l ## ((y :: ring) ≫= ad) → l ## ad y ∧ l ## (ring ≫= ad).
Proof. cbn. set_solver. Qed.

(** A loop over a ring, for any kind of element: [ad] the addresses it reads, [ok] what
    it needs of the memory, [res] what it leaves. *)
Section each.
Context {A B : Type} (step : A → gen → outcome (B * gen)) (ad : A → list ptr)
  (ok : values → A → Prop) (res : values → A → values → B → Prop)
  (ok_later : ∀ m m1 x l, frame_values l m m1 → l ## ad x → ok m x → ok m1 x)
  (res_later : ∀ m x m1 m2 p l, res m x m1 p → frame_values l m1 m2 → ad x ## l → res m x m2 p)
  (res_from : ∀ m m1 m2 x p l, frame_values l m m1 → l ## ad x → ok m x →
     res m1 x m2 p → res m x m2 p).

Lemma ring_ok_later m m1 ring l : frame_values l m m1 → l ## (ring ≫= ad) →
  Forall (ok m) ring → Forall (ok m1) ring.
Proof using ok_later.
  intros F Hd Ht. induction Ht as [|y ring Hy Ht IH]; [constructor|].
  apply disjoint_ring_cons in Hd as [Hd Hd']. constructor; [by eapply ok_later|by apply IH].
Qed.
Lemma ring_res_from m m1 m2 ring ps l : frame_values l m m1 → l ## (ring ≫= ad) → Forall (ok m) ring →
  Forall2 (λ x p, res m1 x m2 p) ring ps → Forall2 (λ x p, res m x m2 p) ring ps.
Proof using res_from.
  intros F Hd Ht R. induction R as [|y q ring ps Hy _ IH]; [constructor|].
  apply Forall_cons_1 in Ht as [Hty Ht]. apply disjoint_ring_cons in Hd as [Hd Hd'].
  constructor; [by eapply res_from|by apply IH].
Qed.

Lemma each_spec ring g :
  Forall (λ x, ∀ g, ok (g_values g) x → NoDup (ad x) → ∃ p m', step x g = Ret (p, set_values m' g) ∧
     frame_values (ad x) (g_values g) m' ∧ res (g_values g) x m' p) ring →
  Forall (ok (g_values g)) ring → NoDup (ring ≫= ad) →
  ∃ ps m', each step ring g = Ret (ps, set_values m' g) ∧
    frame_values (ring ≫= ad) (g_values g) m' ∧ Forall2 (λ x p, res (g_values g) x m' p) ring ps.
Proof.
  intros Hs. revert g. induction Hs as [|x ring Hx Hs IH]; intros g Ht Hn.
  - exists [], (g_values g). split_and!; [by destruct g|done|constructor].
  - apply Forall_cons_1 in Ht as [Htx Ht]. cbn in Hn. apply list.NoDup_app in Hn as (Hnx & Hd & Hn).
    assert (ad x ## (ring ≫= ad)) as Hdis by (intros a; naive_solver).
    destruct (Hx g Htx Hnx) as (p & m1 & E & F & R).
    destruct (IH (set_values m1 g)) as (ps & m2 & E' & F' & R'); [|done|].
    { by eapply ring_ok_later. }
    exists (p :: ps), m2. cbn [each]. rewrite E. cbn [mbind outcome_bind]. rewrite E'.
    split_and!; [done|by apply (frame_trans _ _ _ m1)|]. constructor; [by eapply res_later|].
    by eapply ring_res_from.
Qed.
End each.

Section translation.
Context `{SqlLaws} (subquery : SqlStatement → gen → outcome (LogicalPlan * gen)).
Definition translated (s : SqlStatement) : Prop := ∀ g,
  s = null_STATEMENT ∨ translatable (g_values g) s = true → NoDup (addresses s) →
  ∃ p m', lp_generate_where subquery s g = Ret (p, set_values m' g) ∧
    frame_values (addresses s) (g_values g) m' ∧ result (g_values g) s m' p.

(** Two expressions one after the other. *)
Lemma translated_two a b g :
  translated a → translated b →
  a = null_STATEMENT ∨ translatable (g_values g) a = true →
  b = null_STATEMENT ∨ translatable (g_values g) b = true →
  NoDup (addresses a ++ addresses b) →
  ∃ p q m', ('(x, g) ← lp_generate_where subquery a g;
             '(y, g) ← lp_generate_where subquery b g; Ret ((x, y), g)) = Ret ((p, q), set_values m' g) ∧
    frame_values (addresses a ++ addresses b) (g_values g) m' ∧
    result (g_values g) a m' p ∧ result (g_values g) b m' q.
Proof.
  intros Ha Hb Hta Htb (Hna & Hd & Hnb)%list.NoDup_app.
  assert (addresses a ## addresses b) by (intros x; naive_solver).
  destruct (Ha g Hta Hna) as (p & m1 & Ea & Fa & Ra).
  destruct (Hb (set_values m1 g)) as (q & m2 & Eb & Fb & Rb);
    [by eapply translatable_later|done|].
  exists p, q, m2. rewrite Ea. cbn [mbind outcome_bind]. rewrite Eb.
  split_and!; [done|by eapply frame_trans| |].
  - by eapply result_later.
  - by eapply result_from.
Qed.

(** A ring of them. *)
Lemma translated_ring ring g :
  Forall translated ring →
  Forall (λ x, x = null_STATEMENT ∨ translatable (g_values g) x = true) ring →
  NoDup (ring ≫= addresses) →
  ∃ ps m', each (lp_generate_where subquery) ring g = Ret (ps, set_values m' g) ∧
    frame_values (ring ≫= addresses) (g_values g) m' ∧
    Forall2 (λ x p, result (g_values g) x m' p) ring ps.
Proof.
  apply (each_spec _ addresses (λ m x, x = null_STATEMENT ∨ translatable m x = true) result).
  - intros m m1 x l. apply translatable_later.
  - intros m x m1 m2 p l. apply result_later.
  - intros m m1 m2 x p l. apply result_from.
Qed.

(** The branches of a CASE. *)
Definition branch_addresses (b : SqlCaseBranchStatement) : list ptr :=
  match b with CaseBranch c v => addresses c ++ addresses v end.
Definition branch_ok (m : values) (b : SqlCaseBranchStatement) : Prop :=
  match b with CaseBranch c v => translatable m c = true ∧ translatable m v = true end.
Definition branch_result (m : values) (b : SqlCaseBranchStatement) (m' : values)
    (p : LogicalPlan * LogicalPlan) : Prop :=
  match b with CaseBranch c v => result m c m' p.1 ∧ result m v m' p.2 end.
Lemma branch_ok_later m m1 b l : frame_values l m m1 → l ## branch_addresses b → branch_ok m b → branch_ok m1 b.
Proof.
  destruct b as [c v]. intros Hf Hd [??]; cbn in *. split; (apply (expression_agree m m1); [|done]);
    intros a Ha; apply Hf; set_solver.
Qed.
Lemma branch_result_later m b m1 m2 p l :
  branch_result m b m1 p → frame_values l m1 m2 → branch_addresses b ## l → branch_result m b m2 p.
Proof.
  destruct b as [c v], p as [p q]. intros [??] Hf Hd; cbn in *.
  split; (eapply result_later; [done..|]; set_solver).
Qed.
Lemma branch_result_from m m1 m2 b p l : frame_values l m m1 → l ## branch_addresses b → branch_ok m b →
  branch_result m1 b m2 p → branch_result m b m2 p.
Proof.
  destruct b as [c v], p as [p q]. intros Hf Hd [??] [??]; cbn in *.
  split; (eapply result_from; [done| |by right|done]; set_solver).
Qed.
Lemma translated_branches ring g :
  Forall (λ b, Forall translated (branch_children b)) ring →
  Forall (branch_ok (g_values g)) ring → NoDup (ring ≫= branch_addresses) →
  ∃ ps m', each (λ '(CaseBranch condition value) g,
      '(c, g) ← lp_generate_where subquery condition g;
      '(v, g) ← lp_generate_where subquery value g; Ret ((c, v), g)) ring g = Ret (ps, set_values m' g) ∧
    frame_values (ring ≫= branch_addresses) (g_values g) m' ∧
    Forall2 (λ b p, branch_result (g_values g) b m' p) ring ps.
Proof.
  intros Hs. apply (each_spec _ branch_addresses branch_ok branch_result);
    [apply branch_ok_later|apply branch_result_later|apply branch_result_from|].
  - eapply Forall_impl; [|exact Hs]. intros [c v] [Hc [Hv _]%Forall_cons_1]%Forall_cons_1 g' [??] Hn.
    destruct (translated_two c v g') as (p & q & m' & E & F & R); [done..|by right|by right|done|].
    exists (p, q), m'. by rewrite E.
Qed.

Lemma result_ring m ring m' ps :
  Forall2 (λ x p, result m x m' p) ring ps →
  Forall (λ p, plan_addresses p ⊆ ring ≫= addresses) ps ∧
  (Forall (λ x, translatable m x = true) ring → lp_eval m' <$> ps = eval m <$> ring) ∧
  (ps ≫= λ p, if is_null p then [] else [lp_eval m' p]) =
  (ring ≫= λ x, if is_null_stmt x then [] else [eval m x]).
Proof.
  induction 1 as [|x p ring ps (Hn & Hp & He & _) _ (IH1 & IH2 & IH3)]; [done|]. split_and!.
  - constructor; [cbn; set_solver|]. eapply Forall_impl; [|exact IH1]. cbn. set_solver.
  - intros [Hx Hr]%Forall_cons_1. rewrite !fmap_cons, IH2 by done. rewrite He; [done|]. by intros ->.
  - cbn. rewrite Hn, IH3. destruct (is_null_stmt x) eqn:E; [done|]. rewrite He; [done|]. by intros ->.
Qed.

Lemma scan_plain c s : scan_pattern c = Some s → chr "^" ∉ s → c = s ++ [chr "$"] ∧ plain s.
Proof.
  revert s. induction c as [|x c IH]; intros s; [done|]. cbn [scan_pattern]. case_decide as Hx.
  { destruct c; [|done]. intros [= <-] _. split; [by subst|constructor]. }
  case_decide as Hs; [done|]. destruct (scan_pattern c) as [s'|]; [|done]. intros [= <-] Hn.
  destruct (IH s' eq_refl) as [-> Hp]; [set_solver|]. split; [done|]. constructor; [|done].
  intros Hm. assert (x ∈ chr "^" :: chr "$" :: scan_stops) as Hm'.
  { revert Hm. generalize x. clear. intros x. apply (forall_bytes (λ x, x ∈ metacharacters → x ∈ chr "^" :: chr "$" :: scan_stops)). vm_compute. done. }
  apply elem_of_cons in Hm' as [-> |[-> |?]%elem_of_cons]; [|done..]. apply Hn. left.
Qed.

Lemma literal_pattern_spec s t : literal_pattern s = Some t → chr "^" ∉ t → s = anchored t ∧ plain t.
Proof.
  destruct s as [|x c]; [done|]. cbn [literal_pattern]. case_decide as Hx; [|done]. intros Hs Hn.
  destruct (scan_plain _ _ Hs Hn) as [-> Hp]. by subst.
Qed.

(** The last step of a binary operation. *)
Lemma regex_to_equals_spec o a b g p q :
  o ≠ BOOLEAN_NULL → o ≠ BOOLEAN_NOT_NULL → (∀ ring, b ≠ column_list_STATEMENT ring) →
  addresses a ## addresses b → a ≠ null_STATEMENT → b ≠ null_STATEMENT →
  ∀ m, (o = BOOLEAN_REGEX_SENSITIVE → pattern_safe m b = true) →
  result m a (g_values g) p → result m b (g_values g) q →
  ∃ r m', regex_to_equals (Op (binary_type o) p q) g = Ret (r, set_values m' g) ∧
    frame_values (addresses b) (g_values g) m' ∧ result m (binary_STATEMENT o a b) m' r.
Proof.
  intros Ho Ho' Hb Hd Hna Hnb m Hsafe (_ & Hp & Ep & _) (Hqn & Hq & Eq & Hl).
  specialize (Ep Hna). specialize (Eq Hnb).
  assert (Hplain : result m (binary_STATEMENT o a b) (g_values g) (Op (binary_type o) p q)).
  { split_and!; [done|cbn; set_solver| |done]. intros _. rewrite eval_binary, <- Ep, <- Eq by done.
    by destruct o. }
  destruct (decide (o = BOOLEAN_REGEX_SENSITIVE)) as [-> |Hr].
  2: { exists (Op (binary_type o) p q), (g_values g). split_and!; [|done|done].
       destruct o; try done; by destruct g. }
  change (binary_type BOOLEAN_REGEX_SENSITIVE) with LP_BOOLEAN_REGEX_SENSITIVE in *.
  assert (Hkeep : ∃ r m', Ret (Op LP_BOOLEAN_REGEX_SENSITIVE p q, g) = Ret (r, set_values m' g) ∧
    frame_values (addresses b) (g_values g) m' ∧ result m (binary_STATEMENT BOOLEAN_REGEX_SENSITIVE a b) m' r).
  { exists (Op LP_BOOLEAN_REGEX_SENSITIVE p q), (g_values g). split_and!; [by destruct g|done|done]. }
  cbn [regex_to_equals]. destruct q as [|t c d|t v]; [by destruct b|done|].
  destruct t, v as [| |adr| | | |]; try done.
  destruct (Hl adr eq_refl) as (x & Hx & Ex). unfold value_at. rewrite Ex. cbn [mbind outcome_bind].
  case_decide; [done|]. destruct (literal_pattern (sv_literal x)) as [s|] eqn:Es; [|done].
  specialize (Hsafe eq_refl). unfold pattern_safe in Hsafe. rewrite Hx, Es in Hsafe.
  apply bool_decide_eq_true in Hsafe. destruct (literal_pattern_spec _ _ Es Hsafe) as [Hlit Hs].
  cbn in Hq. exists (Op LP_BOOLEAN_EQUALS p (Leaf LP_VALUE (VValue adr))), (<[adr := set_literal s x]> (g_values g)).
  split_and!; [done| |].
  { intros y Hy. rewrite lookup_insert_ne; [done|]. set_solver. }
  split_and!; [done|cbn; set_solver| |done]. intros _. rewrite eval_binary, <- Ep, <- Eq by done.
  cbn. rewrite Ex, lookup_insert_eq.
  destruct (lp_eval_agree (g_values g) (<[adr:=set_literal s x]> (g_values g)) p) as [-> _].
  { intros y Hy. rewrite lookup_insert_ne; [done|]. set_solver. }
  rewrite <- (regex_literal _ x s Hs). f_equal. f_equal. rewrite <- Hlit. by destruct x.
Qed.

Lemma translatable_not_null m s : translatable m s = true → s ≠ null_STATEMENT.
Proof. by intros Ht ->. Qed.
Lemma gen_binary o a b g : (∀ ring, b ≠ column_list_STATEMENT ring) → b ≠ null_STATEMENT →
  lp_generate_where subquery (binary_STATEMENT o a b) g =
    ('(x, g) ← lp_generate_where subquery a g; '(y, g) ← lp_generate_where subquery b g;
     regex_to_equals (Op (binary_type o) x y) g).
Proof.
  intros Hb Hn. cbn [lp_generate_where]. case_decide; [|done].
  destruct b; try done. by destruct (Hb ring).
Qed.
Lemma bind_pair {A B C} (oa : outcome (A * gen)) (f : gen → outcome (B * gen)) (k : A → B → gen → outcome C) :
  ('(x, g) ← oa; '(y, g) ← f g; k x y g) =
  ('(xy, g) ← ('(x, g) ← oa; '(y, g) ← f g; Ret ((x, y), g)); k xy.1 xy.2 g).
Proof. destruct oa as [[x g]| | |]; try done. cbn. by destruct (f g) as [[y g']| | |]. Qed.

Lemma each_cons_inv {A B} (f : A → gen → outcome (B * gen)) x l g y ys g' :
  each f (x :: l) g = Ret (y :: ys, g') → ∃ g1, f x g = Ret (y, g1) ∧ each f l g1 = Ret (ys, g').
Proof.
  cbn [each]. destruct (f x g) as [[y' g1]| | |]; try done. cbn [mbind outcome_bind].
  destruct (each f l g1) as [[ys' g2]| | |] eqn:E; try done. intros [= <- <- <-]. by exists g1.
Qed.
Lemma do_each_cons {A B} (f : A → gen → outcome (B * gen)) l g : l ≠ [] → do_each f l g = each f l g.
Proof. by destruct l. Qed.

Lemma translated_constant p v x g : g_values g !! p = Some x → sv_type x ≠ CALCULATED_VALUE →
  ∃ q m', lp_generate_where subquery (value_STATEMENT p v) g = Ret (q, set_values m' g) ∧
    frame_values (addresses (value_STATEMENT p v)) (g_values g) m' ∧
    result (g_values g) (value_STATEMENT p v) m' q.
Proof.
  intros E Hc. exists (Leaf LP_VALUE (VValue p)), (g_values g). cbn. unfold value_at. rewrite E. cbn.
  split_and!; [by destruct g, (sv_type x)|done|]. split_and!; cbn; [done|set_solver| |].
  - intros _. by rewrite E, decide_False.
  - intros a [= <-]. exists x. by rewrite E; cbn; rewrite decide_False.
Qed.

Lemma translated_calculated p v x g :
  translated v → g_values g !! p = Some x → sv_type x = CALCULATED_VALUE →
  translatable (g_values g) v = true → NoDup (addresses (value_STATEMENT p v)) →
  ∃ q m', lp_generate_where subquery (value_STATEMENT p v) g = Ret (q, set_values m' g) ∧
    frame_values (addresses (value_STATEMENT p v)) (g_values g) m' ∧
    result (g_values g) (value_STATEMENT p v) m' q.
Proof.
  intros IH E Hc Hv Hn. cbn [addresses] in Hn. apply list.NoDup_cons in Hn as [Hpn Hn].
  destruct (IH g) as (q & m' & Eq & F & Hqn & Hq & Ev & Hl); [by right|done|].
  exists q, m'. cbn. unfold value_at. rewrite E. cbn. rewrite Hc, Eq.
  split_and!; [done|intros a Ha; apply F; set_solver|]. split_and!; cbn.
  - rewrite Hqn. by destruct v.
  - set_solver.
  - intros _. rewrite E, decide_True by done. apply Ev. by eapply translatable_not_null.
  - intros a Ea. rewrite E. cbn. rewrite decide_True by done. by apply Hl.
Qed.

Lemma translated_in o a ring g : o = BOOLEAN_IN ∨ o = BOOLEAN_NOT_IN →
  translated a → Forall translated ring → translatable (g_values g) a = true → ring ≠ [] →
  Forall (λ x, translatable (g_values g) x = true) ring → NoDup (addresses a ++ (ring ≫= addresses)) →
  ∃ q m', lp_generate_where subquery (binary_STATEMENT o a (column_list_STATEMENT ring)) g =
      Ret (q, set_values m' g) ∧
    frame_values (addresses a ++ (ring ≫= addresses)) (g_values g) m' ∧
    result (g_values g) (binary_STATEMENT o a (column_list_STATEMENT ring)) m' q.
Proof.
  intros Ho Ha Hs Hta Hnr Hr Hn.
  destruct (translated_ring (a :: ring) g) as (ps & m' & E & F & R); [by constructor| |done|].
  { constructor; [by right|]. eapply Forall_impl; [|exact Hr]. by right. }
  apply Forall2_cons_inv_l in R as (p & ps' & Rp & R & ->).
  apply each_cons_inv in E as (g1 & E1 & E2).
  exists (in_chain (binary_type o) p ps'), m'. split_and!; [|done|].
  { cbn [lp_generate_where]. rewrite decide_True by (rewrite binary_type_in, binary_type_not_in; done).
    rewrite E1. cbn [mbind outcome_bind]. rewrite do_each_cons, E2 by done. done. }
  destruct (result_ring _ _ _ _ R) as (R1 & R2 & _). destruct Rp as (_ & Hp & Ep & _).
  destruct (in_chain_addresses (addresses a ++ (ring ≫= addresses)) (binary_type o) p ps') as [Hnull Hsub];
    [set_solver|eapply Forall_impl; [|exact R1]; set_solver|by intros ->; destruct ring; inversion R|].
  split_and!; [by destruct (in_chain _ _ _)|done| |].
  - intros _. rewrite in_chain_eval; [|done|by intros ->; destruct ring; inversion R].
    rewrite R2, Ep by (done || by eapply translatable_not_null). by destruct Ho as [-> | ->].
  - intros b Eb. by rewrite Eb in Hnull.
Qed.

Lemma translated_binary o a b g :
  translated a → translated b → (∀ ring, b ≠ column_list_STATEMENT ring) →
  o ≠ BOOLEAN_NULL → o ≠ BOOLEAN_NOT_NULL →
  translatable (g_values g) a = true → translatable (g_values g) b = true →
  (o = BOOLEAN_REGEX_SENSITIVE → pattern_safe (g_values g) b = true) →
  NoDup (addresses a ++ addresses b) →
  ∃ q m', lp_generate_where subquery (binary_STATEMENT o a b) g = Ret (q, set_values m' g) ∧
    frame_values (addresses a ++ addresses b) (g_values g) m' ∧
    result (g_values g) (binary_STATEMENT o a b) m' q.
Proof.
  intros Ha Hb Hl Ho Ho' Hta Htb Hp Hn.
  pose proof (translatable_not_null _ _ Hta). pose proof (translatable_not_null _ _ Htb).
  destruct (translated_two a b g) as (p & q & m1 & E & F & Ra & Rb); [done..|by right|by right|done|].
  apply list.NoDup_app in Hn as (_ & Hd & _).
  assert (addresses a ## addresses b) by (intros x; naive_solver).
  destruct (regex_to_equals_spec o a b (set_values m1 g) p q Ho Ho' Hl ltac:(done) ltac:(done) ltac:(done)
              (g_values g) Hp Ra Rb) as (r & m2 & Er & F2 & R).
  exists r, m2. rewrite gen_binary, bind_pair by done. rewrite E. cbn [mbind outcome_bind fst snd].
  rewrite Er. split_and!; [done| |done].
  intros x Hx. rewrite F2 by set_solver. apply F. done.
Qed.

Lemma translated_call f ring g : translated f → Forall translated ring →
  translatable (g_values g) f = true → ring ≠ [] →
  Forall (λ x, x = null_STATEMENT ∨ translatable (g_values g) x = true) ring →
  NoDup (addresses f ++ (ring ≫= addresses)) →
  ∃ q m', lp_generate_where subquery (function_call_STATEMENT f (column_list_STATEMENT ring)) g =
      Ret (q, set_values m' g) ∧
    frame_values (addresses f ++ (ring ≫= addresses)) (g_values g) m' ∧
    result (g_values g) (function_call_STATEMENT f (column_list_STATEMENT ring)) m' q.
Proof.
  intros Hf Hs Htf Hnr Hr Hn.
  destruct (translated_ring (f :: ring) g) as (ps & m' & E & F & R);
    [by constructor|constructor; [by right|done]|done|].
  apply Forall2_cons_inv_l in R as (p & ps' & Rp & R & ->).
  apply each_cons_inv in E as (g1 & E1 & E2).
  exists (Op LP_FUNCTION_CALL p (column_chain ps')), m'. split_and!; [|done|].
  { cbn [lp_generate_where]. rewrite E1. cbn [mbind outcome_bind]. by rewrite do_each_cons, E2. }
  destruct (result_ring _ _ _ _ R) as (R1 & _ & R2). destruct Rp as (_ & Hp & Ep & _).
  split_and!; [done| | |done].
  - cbn [plan_addresses addresses]. pose proof (column_chain_addresses (ring ≫= addresses) ps' R1). set_solver.
  - intros _. cbn [lp_eval]. rewrite column_chain_eval, R2, Ep by (by eapply translatable_not_null). done.
Qed.

Lemma result_branches m ring m' ps : Forall (branch_ok m) ring →
  Forall2 (λ b p, branch_result m b m' p) ring ps →
  Forall (λ '(c, v), plan_addresses c ⊆ ring ≫= branch_addresses ∧ plan_addresses v ⊆ ring ≫= branch_addresses) ps ∧
  (λ '(c, v), (lp_eval m' c, lp_eval m' v)) <$> ps = (λ '(CaseBranch c v), (eval m c, eval m v)) <$> ring.
Proof.
  intros Hok R. induction R as [|[c v] [p q] ring ps [(_ & Hp & Ep & _) (_ & Hq & Eq & _)] R IH]; [done|].
  apply Forall_cons_1 in Hok as [[Hc Hv] Hok]. destruct (IH Hok) as [IH1 IH2]. split.
  - constructor; [cbn in *; set_solver|]. eapply Forall_impl; [|exact IH1]. intros [??] [??]. cbn. set_solver.
  - rewrite !fmap_cons, IH2. cbn in *. by rewrite Ep, Eq by (by eapply translatable_not_null).
Qed.

Lemma translated_case v ring e g : translated v → translated e →
  Forall (λ b, Forall translated (branch_children b)) ring →
  v = null_STATEMENT ∨ translatable (g_values g) v = true →
  e = null_STATEMENT ∨ translatable (g_values g) e = true → ring ≠ [] →
  Forall (branch_ok (g_values g)) ring →
  NoDup ((addresses v ++ addresses e) ++ (ring ≫= branch_addresses)) →
  ∃ q m', lp_generate_where subquery (cas_STATEMENT v (cas_branch_STATEMENT ring) e) g =
      Ret (q, set_values m' g) ∧
    frame_values ((addresses v ++ addresses e) ++ (ring ≫= branch_addresses)) (g_values g) m' ∧
    result (g_values g) (cas_STATEMENT v (cas_branch_STATEMENT ring) e) m' q.
Proof.
  intros Hv He Hs Htv Hte Hnr Hr (Hn & Hd & Hnb)%list.NoDup_app.
  assert ((addresses v ++ addresses e) ## (ring ≫= branch_addresses)) as Hdis by (intros x; naive_solver).
  destruct (translated_two v e g) as (p & q & m1 & E & F & Rv & Re); [done..|].
  destruct (translated_branches ring (set_values m1 g)) as (ps & m2 & Eb & Fb & Rb); [done| |done|].
  { eapply (ring_ok_later branch_addresses branch_ok branch_ok_later); done. }
  eapply (ring_res_from branch_addresses branch_ok branch_result branch_result_from) in Rb; [|done..].
  exists (Op LP_CASE (Op LP_CASE_STATEMENT p q) (branch_chain ps)), m2.
  split_and!; [|by eapply frame_trans|].
  { cbn [lp_generate_where]. rewrite bind_pair, E. cbn [mbind outcome_bind fst snd].
    rewrite do_each_cons by done. by rewrite Eb. }
  destruct (result_branches _ _ _ _ Hr Rb) as [R1 R2].
  eapply result_later in Rv as (Nv & Pv & Ev & _); [|done|set_solver].
  eapply result_later in Re as (Ne & Pe & Ee & _); [|done|set_solver].
  split_and!; [done| | |done].
  - cbn [plan_addresses addresses]. pose proof (branch_chain_addresses _ ps R1). set_solver.
  - intros _. cbn [lp_eval eval]. rewrite branch_chain_eval, R2, Nv, Ne.
    f_equal; [destruct (is_null_stmt v) eqn:Z|destruct (is_null_stmt e) eqn:Z]; try done;
      f_equal; [apply Ev|apply Ee]; by intros ->.
Qed.

Lemma all_translated s : translated s.
Proof.
  induction s as [s IH] using statement_ind2. intros g [-> |Ht] Hn.
  { exists NULL, (g_values g). split_and!; [by destruct g|done|]. by split_and!. }
  destruct (translatable_expression _ _ Ht) as
    [p v x E Hc Ho|p v x E Hc Hv|o a ring Ho Hta Hnr Hr|o a b Hb Ho Ho' Hta Htb Hp|o a Hta
    |f ring Hf Hnr Hr|p c t|v ring e Hv He Hnr Hr]; cbn [children] in IH.
  - by eapply translated_constant.
  - apply Forall_cons_1 in IH as [[IH _] _]. by eapply translated_calculated.
  - apply Forall_cons_1 in IH as [[IHa _] [[_ IHr] _]%Forall_cons_1]. by apply translated_in.
  - apply Forall_cons_1 in IH as [[IHa _] [[IHb _] _]%Forall_cons_1]. by apply translated_binary.
  - apply Forall_cons_1 in IH as [[IHa _] _].
    destruct (IHa g) as (p & m' & E & F & Np & Hp & Ev & _); [by right|done|].
    exists (Op (unary_type o) p NULL), m'. cbn [lp_generate_where]. rewrite E. split_and!; [done|done|].
    split_and!; [done|cbn; set_solver| |done]. intros _. specialize (Ev (translatable_not_null _ _ Hta)).
    cbn [eval]. rewrite <- Ev. by destruct o.
  - apply Forall_cons_1 in IH as [[IHf _] [[_ IHr] _]%Forall_cons_1]. by apply translated_call.
  - exists (Leaf LP_COLUMN_ALIAS (VColumnAlias p)), (g_values g). by split_and!; [destruct g| |split_and!].
  - apply Forall_cons_1 in IH as [[IHv _] [[_ IHr] [[IHe _] _]%Forall_cons_1]%Forall_cons_1].
    cbn [children] in IHr. apply Forall_bind_children in IHr.
    change (addresses (cas_STATEMENT v (cas_branch_STATEMENT ring) e))
      with (addresses v ++ addresses e ++ (ring ≫= branch_addresses)) in *.
    rewrite app_assoc in *. by apply translated_case.
Qed.
End translation.

(** ** The normal form *)
#[export] Instance plan_conditions `{SqlLaws} (m : values) : Conditions.
Proof.
  refine {| test t a b := truth (lp_eval m (Op t a b)); test_leaf t v := truth (lp_eval m (Leaf t v)) |};
    intros a b; cbn.
  - by rewrite not_equals_bool, truth_of_bool.
  - apply greater_or_equals_not.
  - apply less_or_equals_not.
  - apply not_in_not.
Defined.
Definition plan_holds `{SqlLaws} (m : values) (p : LogicalPlan) : bool := @holds (plan_conditions m) p.

Lemma plan_holds_eval `{SqlLaws} m odd p : negatable odd p = true → plan_holds m p = truth (lp_eval m p).
Proof.
  unfold plan_holds. revert odd. induction p as [|t a IHa b IHb|t v]; intros odd Hp; [done| |done].
  destruct t; try done.
  - cbn in Hp |- *. apply andb_true_iff in Hp as [Ha Hb].
    by rewrite (IHa _ Ha), (IHb _ Hb), truth_of_bool.
  - cbn in Hp |- *. apply andb_true_iff in Hp as [Ha Hb].
    by rewrite (IHa _ Ha), (IHb _ Hb), truth_of_bool.
  - cbn in Hp |- *. rewrite truth_of_bool. f_equal. destruct (lp_type a) as [ta| | |] eqn:E; try done.
    destruct (protected ta) eqn:Epr; [|by eapply IHa].
    destruct a as [|t' c d|]; [done| |done]. injection E as ->. by destruct ta.
Qed.

(** C24: On a condition without subqueries whose values are each read once and whose
    patterns have no [^] inside, [lp_generate_where] returns a plan that has, in
    every row, the value of the condition: IN lists become comparisons, literal
    patterns equalities.  Only values of the condition are written to. *)
Theorem where_means `{SqlLaws} subquery s g :
  translatable (g_values g) s = true → NoDup (addresses s) →
  ∃ p m', lp_generate_where subquery s g = Ret (p, set_values m' g) ∧
    lp_eval m' p = eval (g_values g) s ∧
    ∀ a, a ∉ addresses s → m' !! a = g_values g !! a.
Proof.
  intros Ht Hn.
  destruct (all_translated subquery s g) as (p & m' & E & F & _ & _ & Ev & _); [by right|done|].
  exists p, m'. split_and!; [done| |done]. apply Ev. by eapply translatable_not_null.
Qed.

(** ... and when no regular expression is under a NOT, the disjunctive normal
    form the optimiser works on holds in exactly the rows the condition holds in. *)
Theorem where_normalised `{SqlLaws} subquery s g p m' :
  translatable (g_values g) s = true → NoDup (addresses s) →
  lp_generate_where subquery s g = Ret (p, set_values m' g) → negatable false p = true →
  ∃ q, lp_make_normal_disjunctive_form p = Ret q ∧ plan_holds m' q = truth (eval (g_values g) s).
Proof.
  intros Ht Hn E Hp.
  destruct (all_translated subquery s g) as (p' & m'' & E' & _ & _ & _ & Ev & _); [by right|done|].
  rewrite E in E'. injection E' as <- <-.
  destruct (dnf_spec (lp_size p) p (le_n _) Hp) as (q & Hq & _ & Hh).
  exists q. split; [done|]. unfold plan_holds. rewrite Hh.
  change (plan_holds m' p = truth (eval (g_values g) s)). rewrite (plan_holds_eval m' false p Hp).
  f_equal. apply Ev. by eapply translatable_not_null.
Qed.

(** ** An interpretation: values are strings, as in the database *)
Definition text_bool (b : bool) : list byte := if b then lit "1" else lit "0".
Fixpoint before (a b : list byte) : bool :=
  match a, b with
  | _, [] => false
  | [], _ => true
  | x :: a', y :: b' => if decide (x = y) then before a' b' else b2z x <? b2z y
  end.
Definition matches (a pattern : list byte) : bool :=
  match pattern with
  | x :: r =>
      bool_decide (x = chr "^") && bool_decide (List.last r nul = chr "$") &&
      regex_match (parse_regex (removelast r)) a
  | [] => false
  end.
Definition text_apply (o : BinaryOperations) (a b : list byte) : list byte :=
  match o with
  | BOOLEAN_EQUALS => text_bool (bool_decide (a = b))
  | BOOLEAN_NOT_EQUALS => text_bool (negb (bool_decide (a = b)))
  | BOOLEAN_LESS_THAN => text_bool (before a b)
  | BOOLEAN_GREATER_THAN_OR_EQUALS => text_bool (negb (before a b))
  | BOOLEAN_GREATER_THAN => text_bool (before b a)
  | BOOLEAN_LESS_THAN_OR_EQUALS => text_bool (negb (before b a))
  | BOOLEAN_REGEX_SENSITIVE => text_bool (matches a b)
  | BOOLEAN_IN => text_bool (bool_decide (a = b))
  | BOOLEAN_NOT_IN => text_bool (negb (bool_decide (a = b)))
  | _ => a ++ b
  end.
Definition text_meaning (row : ptr → list byte) : SqlMeaning :=
  {| sql_value := list byte; truth v := bool_decide (v = lit "1"); of_bool := text_bool;
     nul_value := []; column_value := row; constant := sv_literal; apply_binary := text_apply;
     apply_unary o a := a; call_function f args := f ++ concat args;
     choose v bs e := default [] e |}.

Lemma parse_plain s : plain s → ∀ a, regex_match (parse_regex s) a = bool_decide (a = s).
Proof.
  induction s as [|c s IH]; intros Hp a; [cbn; by apply bool_decide_ext|].
  destruct (plain_head _ _ Hp) as [Hd _]. pose proof Hp as [_ Hp']%Forall_cons_iff.
  assert (E : parse_regex (c :: s) = (Lit c, false) :: parse_regex s).
  { cbn [parse_regex]. unfold atom_of. rewrite decide_False by done. destruct s as [|d s]; [done|].
    rewrite decide_False; [done|]. by destruct (plain_head _ _ Hp'). }
  rewrite E. cbn [regex_match]. destruct a as [|x a]; [done|]. rewrite IH by done. cbn [atom_ok].
  destruct (decide (x = c)) as [-> |Hx].
  - rewrite bool_decide_true by done. cbn [andb]. apply bool_decide_ext. naive_solver.
  - rewrite (bool_decide_false (x = c)), (bool_decide_false (x :: a = c :: s)) by naive_solver. done.
Qed.
#[export] Instance text_laws row : @SqlLaws (text_meaning row).
Proof.
  split; cbn; try (intros; repeat case_bool_decide; cbn; done).
  - intros []; done.
  - intros a b. by destruct (before a b).
  - intros a b. by destruct (before b a).
  - intros a x s Hs. f_equal. rewrite (bool_decide_true (chr "^" = chr "^")) by done.
    rewrite List.last_last, removelast_last, bool_decide_true by done. cbn [andb]. by apply parse_plain.
Qed.

(** [name LIKE 'abc' AND NOT (id IN (1, 2))] *)
Definition text_value (t : SqlValueType) (s : list byte) : SqlValue :=
  {| sv_type := t; sv_coerced_type := UNKNOWN_SqlValueType; sv_data_type := UNKNOWN_SqlDataType;
     sv_literal := s |}.
Definition sample_state : gen :=
  {| pl_counter := 1; pl_next := 20; pl_keys := ∅; pl_keywords := ∅; pl_column_aliases := ∅; pl_table_aliases := ∅; pl_items := ∅;
     pl_values := list_to_map [(1, text_value STRING_LITERAL (lit "^abc$"));
                               (2, text_value NUMBER_LITERAL (lit "1"));
                               (3, text_value NUMBER_LITERAL (lit "2"))] |}.
Definition literal_value (p : ptr) : SqlStatement := value_STATEMENT p null_STATEMENT.
Definition column_ref (p : ptr) : SqlStatement := column_alias_STATEMENT p null_STATEMENT null_STATEMENT.
Definition sample_like : SqlStatement :=
  binary_STATEMENT BOOLEAN_REGEX_SENSITIVE (column_ref 10) (literal_value 1).
Definition sample_where : SqlStatement :=
  binary_STATEMENT BOOLEAN_AND sample_like
    (unary_STATEMENT BOOLEAN_NOT
       (binary_STATEMENT BOOLEAN_IN (column_ref 11)
          (column_list_STATEMENT [literal_value 2; literal_value 3]))).
Definition sample_row (p : ptr) : list byte := if p =? 10 then lit "abc" else lit "7".
Definition no_subquery (s : SqlStatement) (g : gen) : outcome (LogicalPlan * gen) := Halt FatalExit.
Definition generated (s : SqlStatement) (g : gen) : LogicalPlan * gen :=
  match lp_generate_where no_subquery s g with Ret r => r | _ => (NULL, g) end.

Lemma where_means_witness :
  ∃ p m', lp_generate_where no_subquery sample_where sample_state = Ret (p, set_values m' sample_state) ∧
    @lp_eval (text_meaning sample_row) m' p = @eval (text_meaning sample_row) (g_values sample_state) sample_where ∧
    ∀ a, a ∉ addresses sample_where → m' !! a = g_values sample_state !! a.
Proof.
  apply (@where_means (text_meaning sample_row) (text_laws sample_row) no_subquery sample_where sample_state).
  - vm_compute. reflexivity.
  - eval_decide.
Defined.
Lemma where_normalised_witness :
  ∃ q, lp_make_normal_disjunctive_form (generated sample_where sample_state).1 = Ret q ∧
    @plan_holds (text_meaning sample_row) (text_laws sample_row)
      (g_values (generated sample_where sample_state).2) q =
    @truth (text_meaning sample_row) (@eval (text_meaning sample_row) (g_values sample_state) sample_where).
Proof.
  apply (@where_normalised (text_meaning sample_row) (text_laws sample_row) no_subquery sample_where sample_state).
  - vm_compute. reflexivity.
  - eval_decide.
  - vm_compute. reflexivity.
  - vm_compute. reflexivity.
Defined.

(** The translation is not repeatable: planning [name LIKE 'abc'] strips the
    anchors of the shared pattern, and planning the same expression again (as ORDER
    BY over a selected expression does) yields the unanchored pattern 'abc'. *)
Theorem pattern_loses_anchors :
  let '(p, g) := generated sample_like sample_state in
  let '(q, g') := generated sample_like g in
  p = Op LP_BOOLEAN_EQUALS (Leaf LP_COLUMN_ALIAS (VColumnAlias 10)) (Leaf LP_VALUE (VValue 1)) ∧
  q = Op LP_BOOLEAN_REGEX_SENSITIVE (Leaf LP_COLUMN_ALIAS (VColumnAlias 10)) (Leaf LP_VALUE (VValue 1)) ∧
  sv_literal <$> g_values sample_state !! 1 = Some (lit "^abc$") ∧
  sv_literal <$> g_values g' !! 1 = Some (lit "abc").
Proof. vm_compute. done. Qed.
