(* ===== verification/GeneratePlan.v ===== *)
(** * From queries to logical plans

    [optimization_transforms/generate_logical_plan.c] with what it calls:
    [lp_generate_set_logical_plan.c], [lp_column_list_to_lp.c],
    [lp_columns_to_column_list.c], [lp_table_join_to_column_list.c],
    [lp_replace_derived_table_references.c] and [get_column_piece_number.c]; and the plans
    of subqueries in conditions, which are optimised at once.

    The state is the planner's ([Optimize.v]).  The functions write into the plan they have
    made so far; here it is put together when its parts are known.  The column aliases and
    table aliases of a statement are those at their addresses in the state.

    The rewriting of a query with an outer join into set operations (from the test of the
    join's type to the return, lines 55 to 220) is a parameter, [outer_join]. *)
From stdpp Require Import gmap strings.
From S2P Require Import Prelude CMem LogicalPlan SqlStatement Optimize GenerateWhere.

(** ** Lists of columns *)
Definition list_plan (t : LPActionType) (items : list LogicalPlan) : LogicalPlan := foldr (Op t) NULL items.

Section lists.
(** [lp_generate_where], with its subqueries. *)
Context (where_of : SqlStatement → P LogicalPlan).

(** The plan of an element and the alias it is called by, in a struct of its own. *)
Definition column_item (c : SqlColumnListAlias) : P LogicalPlan :=
  match c with
  | ColumnListAlias _ (column_list_STATEMENT (value :: _)) alias _ type =>
      w ← where_of value;
      p ← fresh;
      _ ← put (with_items (<[p := (alias, type)]>));
      mret (Op LP_WHERE w (Leaf LP_COLUMN_LIST_ALIAS (VColumnListAlias p)))
  | ColumnListAlias _ (column_list_STATEMENT []) _ _ _ => lift (Undef NullPointer)
  | ColumnListAlias _ column_list _ _ _ => lift (wrong_type column_list)
  end.
Definition lp_column_list_to_lp (ring : list SqlColumnListAlias) : P LogicalPlan :=
  match ring with
  | [] => lift (Halt AssertFailed)
  | _ => items ← (each column_item ring : P (list LogicalPlan)); mret (list_plan LP_COLUMN_LIST items)
  end.

(** A reference to each column, with the columns passed behind it in the ring. *)
Fixpoint columns_to_list (table_alias : SqlStatement) (passed ring : list SqlColumn) : P (list SqlColumnListAlias) :=
  match ring with
  | [] => mret []
  | (Column _ columnName _ _ _) as c :: ring' =>
      p ← fresh;
      let column := column_STATEMENT (ring ++ passed) in
      _ ← put (with_column_aliases (<[p := (column, table_alias)]>));
      q ← fresh;
      rest ← columns_to_list table_alias (passed ++ [c]) ring';
      mret (ColumnListAlias q (column_list_STATEMENT [column_alias_STATEMENT p column table_alias]) columnName
              null_STATEMENT UNKNOWN_SqlValueType :: rest)
  end.
Definition lp_columns_to_column_list (columns : list SqlColumn) (table_alias : SqlStatement) : P (list SqlColumnListAlias) :=
  columns_to_list table_alias [] columns.

(** The nodes of a list. *)
Fixpoint chain_length (list : LogicalPlan) : outcome nat :=
  match list with
  | NULL => Ret 0%nat
  | Op _ _ next => n ← chain_length next; Ret (S n)
  | Leaf _ _ => Undef WrongMember
  end.
(** [while(t->v.operand[1]) t = t->v.operand[1]; t->v.operand[1] = tail] *)
Fixpoint append_list (list tail : LogicalPlan) : outcome LogicalPlan :=
  match list with
  | NULL => Undef NullPointer
  | Op t a NULL => Ret (Op t a tail)
  | Op t a next => next ← append_list next tail; Ret (Op t a next)
  | Leaf _ _ => Undef WrongMember
  end.
Definition derived_column (key : ptr) (part : Z) : LogicalPlan :=
  Op LP_DERIVED_COLUMN (Leaf LP_KEY (VKey key)) (Leaf LP_PIECE_NUMBER (VPieceNumber part)).

Section table_join.
Context (cat : catalog).
(** The loop over the columns of a subquery puts each where the one before it was. *)
Fixpoint lp_table_join_to_column_list (table_join : LogicalPlan) : P LogicalPlan :=
  match table_join with
  | NULL => mret NULL
  | Op type t next =>
      _ ← lift (c_assert (bool_decide (type = LP_TABLE_JOIN)));
      _ ← lift (c_assert (negb (is_null t)));
      let append ret :=
        if is_null next then mret ret
        else tail ← lp_table_join_to_column_list next; lift (append_list ret tail) in
      match t with
      | Op LP_INSERT _ _ =>
          project ← lift (get_lp t false LP_PROJECT);
          columns ← lift (get_lp project false LP_COLUMN_LIST);
          out ← lift (lp_get_output_key t);
          key ← lift (lp_key out);
          part ← lift (chain_length columns);
          append (Op LP_COLUMN_LIST (derived_column key (Z.of_nat part)) NULL)
      | Leaf LP_TABLE (VTableAlias p) =>
          aliases ← gets pl_table_aliases;
          alias ← lift (found (aliases !! p));
          '(table, _, _) ← lift (unpack_table_alias alias);
          match table with
          | table_STATEMENT _ _ _ columns _ =>
              ring ← lift (found (cat_rings cat !! columns));
              columns ← lp_columns_to_column_list ring alias;
              ret ← lp_column_list_to_lp columns;
              append ret
          | select_STATEMENT _ _ _ _ _ _ => mret NULL
          | null_STATEMENT => lift (Undef NullPointer)
          | _ => lift (Halt AssertFailed)
          end
      | _ => lift (Halt FatalExit)
      end
  | Leaf type _ =>
      _ ← lift (c_assert (bool_decide (type = LP_TABLE_JOIN)));
      lift (Undef WrongMember)
  end.
End table_join.
End lists.

(** ** References to the columns of a subquery *)
(** [SqlTableAlias]: the id and the column list. *)
Definition alias_fields (s : SqlStatement) : outcome (Z * SqlStatement) :=
  match s with
  | null_STATEMENT => Undef NullPointer
  | table_alias_STATEMENT _ _ _ unique_id column_list => Ret (unique_id, column_list)
  | _ => Undef WrongMember
  end.
(** The position of the first column with the name. *)
Fixpoint find_piece (m : values) (name : list byte) (part : Z) (ring : list SqlColumnListAlias) : outcome Z :=
  match ring with
  | [] => Halt AssertFailed
  | ColumnListAlias _ _ alias _ _ :: ring' =>
      n ← name_of m alias;
      if decide (n = name) then Ret part else find_piece m name (part + 1) ring'
  end.
Definition get_column_piece_number (m : values) (column column_list : SqlStatement) : outcome Z :=
  let search name :=
    match column_list with
    | column_list_alias_STATEMENT [] => Undef NullPointer
    | column_list_alias_STATEMENT ring => find_piece m name 1 ring
    | _ => wrong_type column_list
    end in
  match column with
  | null_STATEMENT => Undef NullPointer
  | column_STATEMENT [] => Undef NullPointer
  | column_STATEMENT (Column _ columnName _ _ _ :: _) =>
      if is_null_stmt columnName then Ret 1 else name ← name_of m columnName; search name
  | column_list_alias_STATEMENT [] => Undef NullPointer
  | column_list_alias_STATEMENT (ColumnListAlias _ _ alias _ _ :: _) => name ← name_of m alias; search name
  | _ => Halt AssertFailed
  end.

(** [table_alias] is the id and the column list of the subquery's alias. *)
Fixpoint lp_replace_helper (where_ : LogicalPlan) (table_alias : Z * SqlStatement) (key : ptr) : P LogicalPlan :=
  match where_ with
  | NULL => mret NULL
  | Leaf LP_COLUMN_ALIAS (VColumnAlias p) =>
      '(column, owner) ← (aliases ← gets pl_column_aliases; lift (found (aliases !! p)));
      '(unique_id, _) ← lift (alias_fields owner);
      if decide (unique_id = table_alias.1) then
        m ← gets pl_values;
        part ← lift (get_column_piece_number m column table_alias.2);
        mret (derived_column key part)
      else mret where_
  | Leaf LP_VALUE _ | Leaf LP_DERIVED_COLUMN _ => mret where_
  | Leaf t _ =>
      if bool_decide (t = LP_COLUMN_ALIAS ∨ t = LP_COLUMN_LIST ∨ t = LP_FUNCTION_CALL ∨ t = LP_WHERE) then lift (Undef WrongMember)
      else _ ← lift (c_assert (negb (bool_decide (t = LP_SET_OPERATION)) && (lp_action_value LP_ADDITION <? lp_action_value t)));
           lift (Undef WrongMember)
  | Op t a b =>
      let both :=
        a ← lp_replace_helper a table_alias key;
        b ← lp_replace_helper b table_alias key;
        mret (Op t a b) in
      match t with
      | LP_COLUMN_ALIAS => lift (Undef NullPointer)
      | LP_COLUMN_LIST | LP_FUNCTION_CALL => both
      | LP_WHERE => a ← lp_replace_helper a table_alias key; mret (Op t a b)
      | LP_SET_OPERATION => lift (Halt AssertFailed)
      | LP_VALUE | LP_DERIVED_COLUMN => mret where_
      | _ => _ ← lift (c_assert (lp_action_value LP_ADDITION <? lp_action_value t)); both
      end
  end.
(** The columns of the projection, and of the first ORDER BY element, put back. *)
Definition set_projection (plan columns : LogicalPlan) : outcome LogicalPlan :=
  project ← lp_get_project plan;
  project ← set_operand project false columns;
  set_operand plan false project.
Definition lp_replace_derived_table_references (root new_plan : LogicalPlan) (table_alias : Z * SqlStatement) : P LogicalPlan :=
  out ← lift (lp_get_output_key new_plan);
  key ← lift (lp_key out);
  t ← lift (lp_get_select_where root);
  condition ← lift (operand t false);
  condition ← lp_replace_helper condition table_alias key;
  root ← lift (set_where root condition);
  t ← lift (lp_get_project root);
  columns ← lift (operand t false);
  columns ← lp_replace_helper columns table_alias key;
  root ← lift (set_projection root columns);
  output ← lift (operand root true);
  t ← lift (operand output true);
  if is_null t then mret root
  else
    order ← lift (operand t false);
    order ← lp_replace_helper order table_alias key;
    t ← lift (set_operand t false order);
    output ← lift (set_operand output true t);
    lift (set_operand root true output).

(** ** Set operations *)
Definition set_output (key_num unique_id : Z) (k : SqlKey) : SqlKey :=
  {| k_table := k_table k; k_column := k_column k; k_key_num := key_num; k_unique_id := unique_id;
     k_value := k_value k; k_insert := k_insert k; k_type := k_type k; k_owner := k_owner k;
     k_is_cross_reference_key := k_is_cross_reference_key k;
     k_cross_reference_output_key := k_cross_reference_output_key k;
     k_cross_reference_column_alias := k_cross_reference_column_alias k;
     k_cross_reference_filename := k_cross_reference_filename k |}.
(** [key] is read again for each plan; one of them is its own. *)
Fixpoint lp_update_plan_keys (plan : LogicalPlan) (key : ptr) : P () :=
  match plan with
  | NULL => lift (Undef NullPointer)
  | Op LP_SET_OPERATION _ plans =>
      match plans with
      | NULL => lift (Undef NullPointer)
      | Op t a b =>
          _ ← lift (c_assert (bool_decide (t = LP_PLANS)));
          _ ← lp_update_plan_keys a key;
          lp_update_plan_keys b key
      | Leaf t _ => _ ← lift (c_assert (bool_decide (t = LP_PLANS))); lift (Undef WrongMember)
      end
  | Op LP_INSERT _ _ | Leaf LP_INSERT _ =>
      out ← lift (lp_get_output_key plan);
      p ← lift (lp_key out);
      k ← key_at key;
      k' ← key_at p;
      put (with_keys (<[p := set_output (k_key_num k) (k_unique_id k) k']>))
  | Leaf LP_SET_OPERATION _ => lift (Undef WrongMember)
  | _ => lift (Halt AssertFailed)
  end.
Definition set_action (type : SqlSetOperationType) : LPActionType :=
  match type with
  | SET_UNION => LP_SET_UNION
  | SET_UNION_ALL => LP_SET_UNION_ALL
  | SET_EXCEPT => LP_SET_EXCEPT
  | SET_EXCEPT_ALL => LP_SET_EXCEPT_ALL
  | SET_INTERSECT => LP_SET_INTERSECT
  | SET_INTERSECT_ALL => LP_SET_INTERSECT_ALL
  end.

Section generate.
Context (cat : catalog) (optimize_fuel : nat).
Context (outer_join : SqlStatement → P LogicalPlan).

Section body.
Context (generate : SqlStatement → P LogicalPlan).

Definition lp_generate_set_logical_plan (type : SqlSetOperationType) (operand0 operand1 : SqlStatement) : P LogicalPlan :=
  a ← generate operand0;
  b ← generate operand1;
  cur_plan ← lift (lp_drill_to_insert a);
  out ← lift (lp_get_output_key cur_plan);
  key ← lift (lp_key out);
  _ ← lp_update_plan_keys a key;
  _ ← lp_update_plan_keys b key;
  mret (Op LP_SET_OPERATION (Op LP_SET_OPTION (malloc_lp (set_action type)) NULL) (Op LP_PLANS a b)).

(** A subquery in a condition. *)
Definition subquery (stmt : SqlStatement) : P LogicalPlan :=
  plan ← generate stmt; optimize_logical_plan cat optimize_fuel plan.
Definition generate_where : SqlStatement → P LogicalPlan := lp_generate_where subquery.

(** ORDER BY: every turn takes the first element of the list again. *)
Definition order_item (first : SqlColumnListAlias) : P LogicalPlan :=
  match first with
  | ColumnListAlias _ (column_list_STATEMENT ring) _ _ _ =>
      match ring with
      | [] => lift (Undef NullPointer)
      | [column_alias_STATEMENT _ (column_list_alias_STATEMENT cla) _] => lp_column_list_to_lp generate_where cla
      | [column_alias_STATEMENT _ null_STATEMENT _] | [null_STATEMENT] => lift (Undef NullPointer)
      | _ => lift (Halt AssertFailed)
      end
  | ColumnListAlias _ column_list _ _ _ => lift (wrong_type column_list)
  end.
Definition order_by (order_expression : SqlStatement) : P LogicalPlan :=
  match order_expression with
  | null_STATEMENT => mret NULL
  | column_list_alias_STATEMENT (first :: ring) =>
      items ← (each (λ _, order_item first) (first :: ring) : P (list LogicalPlan));
      mret (list_plan LP_COLUMN_LIST items)
  | column_list_alias_STATEMENT [] => lift (Undef NullPointer)
  | _ => lift (wrong_type order_expression)
  end.

(** The loop over the joins: their plans, and their conditions joined. *)
Definition is_outer (type : SqlJoinType) : bool :=
  match type with LEFT_JOIN | RIGHT_JOIN | FULL_JOIN => true | _ => false end.
Definition supported_join (type : SqlJoinType) : bool :=
  match type with INNER_JOIN | CROSS_JOIN | NO_JOIN | NATURAL_JOIN => true | _ => false end.
Definition join_source (value : SqlStatement) : P LogicalPlan :=
  match value with
  | table_alias_STATEMENT p table _ _ _ =>
      match table with
      | null_STATEMENT => lift (Undef NullPointer)
      | table_STATEMENT _ _ _ _ _ => mret (Leaf LP_TABLE (VTableAlias p))
      | _ => generate value
      end
  | _ => lift (wrong_type value)
  end.
Fixpoint plan_joins (joins : list SqlJoin) (start_join_condition : LogicalPlan) : P (list LogicalPlan * LogicalPlan) :=
  match joins with
  | [] => mret ([], start_join_condition)
  | Join value condition type :: joins' =>
      _ ← lift (if supported_join type then Ret () else Halt FatalExit);
      source ← join_source value;
      start_join_condition ←
        (if is_null_stmt condition then mret start_join_condition
         else w ← generate_where condition; lift (lp_join_where (Op LP_WHERE w NULL) start_join_condition));
      '(rest, c) ← plan_joins joins' start_join_condition;
      mret (source :: rest, c)
  end.

(** "Append the columns from any subqueries to the list": [at_] is where [select_right] is,
    counted from the head. *)
Fixpoint set_next (list : LogicalPlan) (at_ : nat) (next : LogicalPlan) : outcome LogicalPlan :=
  match at_, list with
  | O, _ => set_operand list true next
  | S at_', Op t a b => b ← set_next b at_' next; Ret (Op t a b)
  | S _, _ => Undef NullPointer
  end.
Fixpoint append_projects (temp : LogicalPlan) (at_ : nat) (join : LogicalPlan) : P LogicalPlan :=
  match join with
  | NULL => mret temp
  | Op _ join_left join_right =>
      t ← lift (lp_type join_left);
      if decide (t = LP_PROJECT) then
        columns ← lift (operand join_left false);
        copy ← lp_copy_plan columns;
        if is_null temp then append_projects copy 0 join_right
        else
          temp ← lift (set_next temp at_ copy);
          n ← lift (chain_length temp);
          append_projects temp (n - 1) join_right
      else append_projects temp at_ join_right
  | Leaf _ _ => lift (Undef WrongMember)
  end.
Definition select_columns (select_list : SqlStatement) (table_join : LogicalPlan) : P LogicalPlan :=
  match select_list with
  | column_list_alias_STATEMENT [] =>
      temp ← lp_table_join_to_column_list generate_where cat table_join;
      n ← lift (chain_length temp);
      append_projects temp (n - 1) table_join
  | column_list_alias_STATEMENT ring => lp_column_list_to_lp generate_where ring
  | _ => lift (wrong_type select_list)
  end.

(** "Handle factoring in derived columns" *)
Fixpoint derive_columns (insert : LogicalPlan) (joins : list SqlJoin) (sources : list LogicalPlan) : P LogicalPlan :=
  match joins, sources with
  | Join value _ _ :: joins', source :: sources' =>
      t ← lift (lp_type source);
      insert ←
        (if decide (t = LP_INSERT) then
           alias ← lift (alias_fields value);
           lp_replace_derived_table_references insert source alias
         else if decide (t = LP_SET_OPERATION) then
           alias ← lift (alias_fields value);
           plans ← lift (operand source true);
           t_left ← lift (operand plans false);
           insert ← lp_replace_derived_table_references insert t_left alias;
           t_right ← lift (operand plans true);
           lp_replace_derived_table_references insert t_right alias
         else mret insert);
      derive_columns insert joins' sources'
  | _, _ => mret insert
  end.
(** The keyword ring of the statement; it has its address from here on. *)
Definition keywords_leaf (optional_words : SqlStatement) : P LogicalPlan :=
  match optional_words with
  | keyword_STATEMENT [] => mret (Leaf LP_KEYWORDS (VKeywords null))
  | keyword_STATEMENT ring =>
      p ← fresh;
      _ ← put (with_keywords (<[p := (λ '(Keyword k _), k) <$> ring]>));
      mret (Leaf LP_KEYWORDS (VKeywords p))
  | _ => lift (wrong_type optional_words)
  end.
Definition set_keywords (plan keywords : LogicalPlan) : outcome LogicalPlan :=
  criteria ← lp_get_criteria plan;
  options ← get_lp criteria true LP_SELECT_OPTIONS;
  options ← set_operand options true keywords;
  criteria ← set_operand criteria true options;
  set_criteria plan criteria.
(** The key of the output, zeroed but for its identifier; its type is set further down. *)
Definition output_key_of (unique_id : Z) : SqlKey :=
  {| k_table := null; k_column := null; k_key_num := 0; k_unique_id := unique_id; k_value := NULL; k_insert := null;
     k_type := LP_KEY_ADVANCE; k_owner := NULL; k_is_cross_reference_key := false;
     k_cross_reference_output_key := null; k_cross_reference_column_alias := null; k_cross_reference_filename := null |}.

(** A SELECT without outer joins. *)
Definition generate_select (select_list where_expression order_expression optional_words : SqlStatement)
    (joins : list SqlJoin) : P LogicalPlan :=
  w ← generate_where where_expression;
  unique_id ← get_plan_unique_number;
  dst_key ← new_key (output_key_of unique_id);
  order ← order_by order_expression;
  '(sources, start_join_condition) ← plan_joins joins NULL;
  let table_join := list_plan LP_TABLE_JOIN sources in
  temp ← select_columns select_list table_join;
  where_ ← lift (if is_null start_join_condition then Ret (Op LP_WHERE w NULL)
                 else lp_join_where (Op LP_WHERE w NULL) start_join_condition);
  where_ ← lift (set_operand where_ true NULL);
  let insert :=
    Op LP_INSERT
      (Op LP_PROJECT temp
        (Op LP_SELECT table_join
          (Op LP_CRITERIA (malloc_lp LP_KEYS) (Op LP_SELECT_OPTIONS where_ NULL))))
      (Op LP_OUTPUT (Leaf LP_KEY (VKey dst_key)) order) in
  insert ← derive_columns insert joins sources;
  keywords ← keywords_leaf optional_words;
  lift (set_keywords insert keywords).

Definition generate_body (stmt : SqlStatement) : P LogicalPlan :=
  match stmt with
  | set_operation_STATEMENT type a b => lp_generate_set_logical_plan type a b
  | table_alias_STATEMENT _ table _ _ _ =>
      match table with
      | select_STATEMENT select_list table_list where_expression order_expression optional_words _ =>
          match table_list with
          | join_STATEMENT [] => lift (Undef NullPointer)
          | join_STATEMENT joins =>
              if existsb (λ '(Join _ _ type), is_outer type) joins then outer_join stmt
              else generate_select select_list where_expression order_expression optional_words joins
          | _ => lift (wrong_type table_list)
          end
      | _ => lift (wrong_type table)
      end
  | _ => lift (wrong_type stmt)
  end.
End body.

(** The calls for the subqueries of a query and the operands of a set operation: [fuel]
    bounds their nesting. *)
Fixpoint generate_logical_plan (fuel : nat) (stmt : SqlStatement) : P LogicalPlan :=
  match fuel with
  | O => lift NoFuel
  | S fuel' => generate_body (generate_logical_plan fuel') stmt
  end.
End generate.
