(* ===== verification/PlanTheorems.v ===== *)
(** * The plan of a SELECT means the SELECT

    [generate_logical_plan] on a SELECT over tables: the plan lists the tables in the order
    of the FROM clause, the condition holds in the rows in which the WHERE condition and
    every ON condition hold, and the columns are the values of the select list under their
    names.  With the optimiser's theorem: the plans a query is compiled to select exactly
    the rows the statement asks for. *)
From stdpp Require Import gmap strings.
From S2P Require Import Prelude CMem LogicalPlan LogicalPlanTheorems Dnf DnfTheorems DnfClauses SqlStatement Quoting Optimize OptimizeStore FixTheorems OptimizeTheorems OptimizeRows GenerateWhere GenerateTheorems GeneratePlan.

#[local] Set Warnings "-clear-no-such-hyp".

(** ** SELECT over tables *)
(** An element of the select list: its expression. *)
Definition item_of (c : SqlColumnListAlias) : SqlStatement :=
  match c with ColumnListAlias _ (column_list_STATEMENT (value :: _)) _ _ _ => value | _ => null_STATEMENT end.
Definition name_and_type (c : SqlColumnListAlias) : SqlStatement * SqlValueType :=
  match c with ColumnListAlias _ _ alias _ type => (alias, type) end.
Definition condition_of (j : SqlJoin) : SqlStatement := match j with Join _ condition _ => condition end.
Definition source_of (j : SqlJoin) : ptr :=
  match j with Join (table_alias_STATEMENT p _ _ _ _) _ _ => p | _ => null end.

Definition expressible (m : values) (s : SqlStatement) : Prop := s = null_STATEMENT ∨ translatable m s = true.
Definition item_ok (m : values) (c : SqlColumnListAlias) : Prop :=
  (∃ e rest p a k t, c = ColumnListAlias p (column_list_STATEMENT (e :: rest)) a k t) ∧ translatable m (item_of c) = true.
Definition join_ok (m : values) (j : SqlJoin) : Prop :=
  match j with
  | Join (table_alias_STATEMENT _ (table_STATEMENT _ _ _ _ _) _ _ _) condition type =>
      supported_join type = true ∧ expressible m condition
  | _ => False
  end.
(** The values the statement reads, in the order they are translated. *)
Definition read_by (select_list : list SqlColumnListAlias) (where_expression : SqlStatement) (joins : list SqlJoin) : list ptr :=
  addresses where_expression ++ (joins ≫= λ j, addresses (condition_of j)) ++ (select_list ≫= λ c, addresses (item_of c)).
Record select_ok (m : values) (select_list : list SqlColumnListAlias) (where_expression : SqlStatement) (joins : list SqlJoin) : Prop := {
  so_list : select_list ≠ [];
  so_items : Forall (item_ok m) select_list;
  so_where : expressible m where_expression;
  so_some : joins ≠ [];
  so_joins : Forall (join_ok m) joins;
  so_once : NoDup (read_by select_list where_expression joins);
}.

(** ** What the translation leaves alone *)
Record grows (l : list ptr) (s s' : planner) : Prop := {
  gw_values : frame_values l (pl_values s) (pl_values s');
  gw_next : pl_next s ≤ pl_next s';
  gw_columns : pl_column_aliases s' = pl_column_aliases s;
  gw_tables : pl_table_aliases s' = pl_table_aliases s;
  gw_keys p : p < pl_next s → pl_keys s' !! p = pl_keys s !! p;
  gw_keywords p : p < pl_next s → pl_keywords s' !! p = pl_keywords s !! p;
  gw_items p : p < pl_next s → pl_items s' !! p = pl_items s !! p;
}.
Lemma grows_trans l l' s s1 s2 : grows l s s1 → grows l' s1 s2 → grows (l ++ l') s s2.
Proof.
  intros [] []. split; [by eapply frame_trans|lia|congruence|congruence| | |]; intros p Hp;
    match goal with H : ∀ p, p < pl_next s1 → ?f s2 !! p = _ |- ?f s2 !! _ = _ => rewrite H by lia; auto end.
Qed.
Lemma grows_values s m l : frame_values l (pl_values s) m → grows l s (set_values m s).
Proof. intros F. by split. Qed.
Lemma grows_nil_l l s s1 s2 : grows [] s s1 → grows l s1 s2 → grows l s s2.
Proof. apply (grows_trans [] l). Qed.
Lemma grows_nil_r l s s1 s2 : grows l s s1 → grows [] s1 s2 → grows l s s2.
Proof. intros H1 H2. rewrite <- (app_nil_r l). by eapply grows_trans. Qed.

(** ** Conjunctions *)
Fixpoint and_plan (ws : list LogicalPlan) : LogicalPlan :=
  match ws with
  | [] => NULL
  | [w] => w
  | w :: ws' => Op LP_BOOLEAN_AND w (and_plan ws')
  end.
Definition where_node (c : LogicalPlan) : LogicalPlan := if is_null c then NULL else Op LP_WHERE c NULL.
Lemma and_plan_cons w ws : ws ≠ [] → and_plan (w :: ws) = Op LP_BOOLEAN_AND w (and_plan ws).
Proof. by destruct ws. Qed.
Lemma and_plan_not_null ws : ws ≠ [] → Forall (λ w, is_null w = false) ws → is_null (and_plan ws) = false.
Proof. destruct ws as [|w [|w' ws]]; [done| |done]. by intros _ [? _]%Forall_cons_1. Qed.
Lemma join_where_and w ws : is_null w = false → Forall (λ w, is_null w = false) ws →
  lp_join_where (Op LP_WHERE w NULL) (where_node (and_plan ws)) = Ret (Op LP_WHERE (and_plan (w :: ws)) NULL).
Proof.
  intros Hw HF. unfold where_node. destruct ws as [|w' ws]; [done|].
  pose proof (and_plan_not_null (w' :: ws) ltac:(done) HF) as Hn. rewrite Hn. unfold lp_join_where. cbn [is_null operand mbind outcome_bind].
  rewrite Hw, Hn. done.
Qed.

Section meaning.
Context `{SqlLaws}.
Lemma and_plan_eval m ws : ws ≠ [] → truth (lp_eval m (and_plan ws)) = forallb (λ w, truth (lp_eval m w)) ws.
Proof.
  induction ws as [|w ws IH]; [done|]. intros _. destruct ws as [|w' ws]; [cbn; by rewrite andb_true_r|].
  rewrite and_plan_cons by done. transitivity (truth (lp_eval m w) && forallb (λ w, truth (lp_eval m w)) (w' :: ws)); [|done].
  rewrite <- IH by done. cbn [lp_eval binary_of sql_binary]. apply truth_of_bool.
Qed.

(** ** The loops *)
Context (subquery : SqlStatement → gen → outcome (LogicalPlan * gen)).
Abbreviation where_p := (lp_generate_where subquery).

Lemma where_grows e s : expressible (pl_values s) e → NoDup (addresses e) →
  ∃ w s', where_p e s = Ret (w, s') ∧ grows (addresses e) s s' ∧ result (pl_values s) e (pl_values s') w ∧
    pl_counter s' = pl_counter s ∧ pl_next s' = pl_next s.
Proof.
  intros He Hn. destruct (all_translated subquery e s He Hn) as (w & m' & E & F & R).
  exists w, (set_values m' s). split_and!; [done|by apply grows_values|done..].
Qed.
(** One element of the select list, in the memory after all of it. *)
Definition planned_item (m : values) (s' : planner) (c : SqlColumnListAlias) (pl : LogicalPlan) : Prop :=
  ∃ w p, pl = Op LP_WHERE w (Leaf LP_COLUMN_LIST_ALIAS (VColumnListAlias p)) ∧
    result m (item_of c) (pl_values s') w ∧ pl_items s' !! p = Some (name_and_type c) ∧ p < pl_next s'.
Lemma planned_item_later m s1 s2 l c pl : grows l s1 s2 → addresses (item_of c) ## l → planned_item m s1 c pl → planned_item m s2 c pl.
Proof.
  intros G Hd (w & p & -> & R & E & Hp). exists w, p. split_and!; [done| | |pose proof (gw_next _ _ _ G); lia].
  - eapply result_later; [done|apply G|done].
  - by rewrite (gw_items _ _ _ G).
Qed.
Lemma planned_item_from m m1 s2 l c pl : frame_values l m m1 → l ## addresses (item_of c) → translatable m (item_of c) = true →
  planned_item m1 s2 c pl → planned_item m s2 c pl.
Proof.
  intros F Hd Ht (w & p & -> & R & E & Hp). exists w, p. split_and!; [done| |done..]. eapply result_from; eauto.
Qed.
Lemma column_item_spec c s : item_ok (pl_values s) c → NoDup (addresses (item_of c)) →
  ∃ pl s', column_item where_p c s = Ret (pl, s') ∧ grows (addresses (item_of c)) s s' ∧ planned_item (pl_values s) s' c pl ∧
    pl_counter s' = pl_counter s.
Proof.
  intros [(e & rest & p & a & k & t & ->) Ht] Hn. cbn [item_of] in *.
  destruct (where_grows e s (or_intror Ht) Hn) as (w & s1 & E & G & R & Hc & Hx).
  unfold column_item. rewrite (P_bind_run _ _ _ _ _ E). do 2 eexists. split; [done|]. split_and!.
  - destruct G. split; try done; cbn; [lia|]. intros q Hq. rewrite lookup_insert_ne by lia. auto.
  - exists w, (pl_next s1). split_and!; [done|done|cbn; by rewrite lookup_insert_eq|cbn; lia].
  - done.
Qed.
Lemma item_ok_later m m1 l c : frame_values l m m1 → l ## addresses (item_of c) → item_ok m c → item_ok m1 c.
Proof. intros F Hd [? Ht]. split; [done|]. destruct (translatable_later m m1 (item_of c) l F Hd (or_intror Ht)) as [E|?]; [|done]. by rewrite E in Ht. Qed.
Lemma each_item ring : ∀ s, Forall (item_ok (pl_values s)) ring → NoDup (ring ≫= λ c, addresses (item_of c)) →
  ∃ pls s', each (column_item where_p) ring s = Ret (pls, s') ∧ grows (ring ≫= λ c, addresses (item_of c)) s s' ∧
    Forall2 (planned_item (pl_values s) s') ring pls ∧ pl_counter s' = pl_counter s.
Proof.
  induction ring as [|c ring IH]; intros s HF Hn.
  { exists [], s. split_and!; [done|by split|constructor|done]. }
  apply Forall_cons_1 in HF as [Hc HF]. cbn in Hn. apply list.NoDup_app in Hn as (Hn & Hd & Hns).
  destruct (column_item_spec c s Hc Hn) as (pl & s1 & E1 & G1 & P1 & C1).
  assert (Hdis : Forall (λ c', addresses (item_of c) ## addresses (item_of c')) ring).
  { apply list.Forall_forall. intros c' Hc' x Hx Hx'. eapply Hd; [done|]. apply list_elem_of_bind. eauto. }
  destruct (IH s1) as (pls & s2 & E2 & G2 & P2 & C2); [|done|].
  { clear - H0 HF G1 Hdis. induction HF; inversion Hdis; subst; constructor; auto. eapply item_ok_later; [apply G1|done..]. }
  exists (pl :: pls), s2. split_and!; [| |constructor|congruence].
  - cbn [each]. unfold mbind in *. cbn in *. rewrite E1. cbn. by rewrite E2.
  - cbn. by eapply grows_trans.
  - eapply planned_item_later; [done| |done]. intros x Hx Hx'. by eapply Hd.
  - clear - H0 HF P2 Hdis G1. induction P2; inversion HF as [|? ? Hi]; inversion Hdis; subst; constructor; auto.
    eapply planned_item_from; [apply G1|done|apply Hi|done].
Qed.
End meaning.

(** ** The joins *)
Definition conditions_of (es : list SqlStatement) : list SqlStatement := List.filter (λ e, negb (is_null_stmt e)) es.
Definition nonnull (w : LogicalPlan) : Prop := is_null w = false.
Section joins.
Context `{SqlLaws}.
Definition planned (m m' : values) (e : SqlStatement) (w : LogicalPlan) : Prop := result m e m' w ∧ nonnull w.
Lemma planned_all_later m m1 m2 l es ws : frame_values l m1 m2 → Forall (λ e, addresses e ## l) es →
  Forall2 (planned m m1) es ws → Forall2 (planned m m2) es ws.
Proof.
  intros F Hd H2. induction H2 as [|e w es ws [R N] H2 IH]; inversion Hd; subst; constructor; [|auto].
  split; [|done]. by eapply result_later.
Qed.
Lemma planned_all_from m m1 m2 l es ws : frame_values l m m1 → Forall (λ e, addresses e ## l) es → Forall (expressible m) es →
  Forall2 (planned m1 m2) es ws → Forall2 (planned m m2) es ws.
Proof.
  intros F Hd HE H2. induction H2 as [|e w es ws [R N] H2 IH]; inversion Hd; inversion HE; subst; constructor; [|auto].
  split; [|done]. eapply result_from; eauto. set_solver.
Qed.
Lemma join_ok_later m m1 l j : frame_values l m m1 → l ## addresses (condition_of j) → join_ok m j → join_ok m1 j.
Proof.
  intros F Hd Hj. destruct j as [v c t]. destruct v; try done. destruct v1; try done. destruct Hj as [Hs He].
  split; [done|]. by eapply translatable_later.
Qed.
Lemma Forall_disjoint {A} (ad : A → list ptr) l ring : (∀ x, x ∈ l → x ∉ ring ≫= ad) → Forall (λ x, ad x ## l) ring.
Proof.
  intros Hd. apply list.Forall_forall. intros x Hx y Hy Hl. apply (Hd y Hl). apply list_elem_of_bind. eauto.
Qed.

(** What holds of the elements of a ring in a memory that only differs elsewhere. *)
Lemma ring_later {A} (ad : A → list ptr) (ok : values → A → Prop) m m1 l ring :
  (∀ x, l ## ad x → ok m x → ok m1 x) → (∀ x, x ∈ l → x ∉ ring ≫= ad) → Forall (ok m) ring → Forall (ok m1) ring.
Proof.
  intros Hok Hd%Forall_disjoint HF. induction HF; inversion Hd; subst; constructor; auto. apply Hok; [set_solver|done].
Qed.
Lemma joins_later m m1 l joins : frame_values l m m1 → (∀ x, x ∈ l → x ∉ joins ≫= λ j, addresses (condition_of j)) →
  Forall (join_ok m) joins → Forall (join_ok m1) joins.
Proof. intros F. apply (ring_later _ join_ok). intros j. by apply join_ok_later. Qed.

Context (cat : catalog) (fuel : nat) (generate : SqlStatement → P LogicalPlan).
Lemma joins_spec joins : ∀ s acc, Forall (join_ok (pl_values s)) joins → NoDup (joins ≫= λ j, addresses (condition_of j)) →
  Forall nonnull acc →
  ∃ ws s', plan_joins cat fuel generate joins (where_node (and_plan acc)) s =
      Ret (((λ j, Leaf LP_TABLE (VTableAlias (source_of j))) <$> joins, where_node (and_plan (rev ws ++ acc))), s') ∧
    grows (joins ≫= λ j, addresses (condition_of j)) s s' ∧
    Forall2 (planned (pl_values s) (pl_values s')) (conditions_of (condition_of <$> joins)) ws ∧ pl_counter s' = pl_counter s.
Proof.
  induction joins as [|j joins IH]; intros s acc HF Hn Hacc.
  { exists [], s. split_and!; [done|by split|constructor|done]. }
  apply Forall_cons_1 in HF as [Hj HF]. cbn in Hn. apply list.NoDup_app in Hn as (Hn & Hd & Hns).
  apply Forall_disjoint in Hd as Hd'.
  destruct j as [v c t]. destruct v as [| | | | | | | | | | | | | | | | | |p tb al u cl| | | | | | | | | |]; try done.
  destruct tb; try done. destruct Hj as [Hs He]. cbn [condition_of source_of] in *.
  cbn [plan_joins join_source]. rewrite Hs.
  assert (Hlater : ∀ s1, grows (addresses c) s s1 → Forall (join_ok (pl_values s1)) joins).
  { intros s1 G1. by eapply joins_later; [apply G1|..]. }
  assert (Hexp : Forall (expressible (pl_values s)) (conditions_of (condition_of <$> joins))).
  { clear - HF. induction HF as [|j joins Hj HF IH]; [constructor|]. cbn. destruct (negb _); [constructor|]; [|done..].
    destruct j as [v c t]. destruct v; try done. destruct v1; try done. by destruct Hj. }
  assert (Hdc : Forall (λ e, addresses e ## addresses c) (conditions_of (condition_of <$> joins))).
  { clear - Hd'. induction Hd' as [|j joins Hj Hd' IH]; [constructor|]. cbn. destruct (negb _); [by constructor|done]. }
  destruct (is_null_stmt c) eqn:Ec.
  - destruct c; try done. destruct (IH s acc) as (ws & s2 & E2 & G2 & P2 & C2); [by apply Hlater; split|done|done|].
    exists ws, s2. split_and!; [|done|done|done].
    unfold mbind, P_bind in *. cbn. by rewrite E2.
  - destruct (where_grows (subquery cat fuel generate) c s He Hn) as (w & s1 & E1 & G1 & R1 & C1 & _).
    assert (Nw : nonnull w) by (unfold nonnull; destruct R1 as [-> _]; done).
    destruct (IH s1 (w :: acc)) as (ws & s2 & E2 & G2 & P2 & C2); [by apply Hlater|done|by constructor|].
    exists (w :: ws), s2. split_and!; [|by eapply grows_trans| |congruence].
    + rewrite (P_bind_run _ _ s () s) by done. rewrite (P_bind_run _ _ s (Leaf LP_TABLE (VTableAlias p)) s) by done.
      unfold generate_where. rewrite (P_bind_run _ _ s (where_node (and_plan (w :: acc))) s1).
      * rewrite (P_bind_run _ _ _ _ _ E2). cbn. by rewrite <- app_assoc.
      * rewrite (P_bind_run _ _ _ _ _ E1). unfold lift. rewrite join_where_and by done.
        unfold where_node. by rewrite (and_plan_not_null (w :: acc) ltac:(done) ltac:(by constructor)).
    + unfold conditions_of. cbn [fmap list_fmap List.filter condition_of]. rewrite Ec. constructor.
      * split; [|done]. eapply result_later; [done|apply G2|]. intros x Hx. by apply Hd.
      * eapply planned_all_from; [apply G1|done|done|done].
Qed.
End joins.

(** ** The whole SELECT *)
Lemma table_join_plan (ts : list ptr) : list_plan LP_TABLE_JOIN ((λ p, Leaf LP_TABLE (VTableAlias p)) <$> ts) = tables_plan ts.
Proof. induction ts as [|p ts IH]; [done|]. cbn. by rewrite <- IH. Qed.
(** Nothing to derive from tables. *)
Lemma derive_tables insert joins s :
  derive_columns insert joins ((λ j, Leaf LP_TABLE (VTableAlias (source_of j))) <$> joins) s = Ret (insert, s).
Proof. induction joins as [|[v c t] joins IH]; [done|]. cbn. exact IH. Qed.

(** A condition that is not there is true. *)
Definition plan_true `{SqlLaws} (m : values) (w : LogicalPlan) : bool := is_null w || truth (lp_eval m w).
Definition stmt_true `{SqlLaws} (m : values) (e : SqlStatement) : bool := is_null_stmt e || truth (eval m e).
Definition words_of (optional_words : list SqlOptionalKeyword) : list OptionalKeyword := (λ '(Keyword k _), k) <$> optional_words.

(** The plan of a SELECT: everything but what its expressions mean. *)
Record select_plan (s s' : planner) (sel : list SqlColumnListAlias) (wh : SqlStatement) (words : list SqlOptionalKeyword)
    (joins : list SqlJoin) (q : query) : Prop := {
  sp_tables : q_tables q = tables_plan (source_of <$> joins);
  sp_keys : q_keys q = [];
  sp_rest : q_rest q = NULL;
  sp_output : ∃ k, q_output q = Op LP_OUTPUT (Leaf LP_KEY (VKey k)) NULL ∧ pl_keys s' !! k = Some (output_key_of (pl_counter s));
  sp_keywords : pl_keywords s' !! q_keywords q = Some (words_of words);
  sp_counter : pl_counter s' = s32 (pl_counter s + 1);
  sp_grows : grows (read_by sel wh joins) s s';
}.
(** ... and what they mean: [m] the values before. *)
Record select_meaning `{SqlLaws} (m : values) (s' : planner) (sel : list SqlColumnListAlias) (wh : SqlStatement)
    (joins : list SqlJoin) (q : query) : Prop := {
  sm_where : plan_true (pl_values s') (q_where q) = forallb (stmt_true m) (wh :: (condition_of <$> joins));
  sm_columns : ∃ items, q_columns q = list_plan LP_COLUMN_LIST items ∧
    Forall2 (λ c pl, ∃ w p, pl = Op LP_WHERE w (Leaf LP_COLUMN_LIST_ALIAS (VColumnListAlias p)) ∧
      lp_eval (pl_values s') w = eval m (item_of c) ∧ pl_items s' !! p = Some (name_and_type c)) sel items;
}.

Section select.
Context `{SqlLaws}.
Lemma conditions_true m es : forallb (stmt_true m) es = forallb (λ e, truth (eval m e)) (conditions_of es).
Proof.
  induction es as [|e es IH]; [done|]. unfold conditions_of. cbn. fold (conditions_of es). rewrite IH.
  unfold stmt_true. by destruct (is_null_stmt e).
Qed.
Lemma planned_true m m' es ws : Forall2 (planned m m') es ws → Forall (λ e, e ≠ null_STATEMENT) es →
  forallb (λ w, truth (lp_eval m' w)) ws = forallb (λ e, truth (eval m e)) es.
Proof.
  induction 1 as [|e w es ws [R N] H2 IH]; intros HF; [done|]. inversion HF; subst. cbn. rewrite IH by done.
  f_equal. f_equal. by apply R.
Qed.
Lemma forallb_rev {A} (f : A → bool) l : forallb f (rev l) = forallb f l.
Proof. induction l as [|x l IH]; [done|]. cbn. rewrite forallb_app, IH. cbn. rewrite andb_true_r. apply andb_comm. Qed.
Lemma and_plan_true m ws : Forall nonnull ws → plan_true m (and_plan ws) = forallb (λ w, truth (lp_eval m w)) ws.
Proof.
  intros HF. unfold plan_true. destruct ws as [|w ws]; [done|]. rewrite (and_plan_not_null (w :: ws)) by done.
  by rewrite and_plan_eval.
Qed.
Lemma conditions_not_null es : Forall (λ e, e ≠ null_STATEMENT) (conditions_of es).
Proof. induction es as [|e es IH]; [constructor|]. unfold conditions_of. cbn. destruct e; cbn; try constructor; done. Qed.
Lemma planned_nonnull m m' es ws : Forall2 (planned m m') es ws → Forall nonnull ws.
Proof. induction 1 as [|e w es ws [R N] H2 IH]; by constructor. Qed.

(** The conditions that are there. *)
Definition with_condition (w : LogicalPlan) (ws : list LogicalPlan) : list LogicalPlan := if is_null w then ws else w :: ws.
Lemma final_where w ws : Forall nonnull ws →
  (if is_null (where_node (and_plan ws)) then Ret (Op LP_WHERE w NULL)
   else lp_join_where (Op LP_WHERE w NULL) (where_node (and_plan ws))) = Ret (Op LP_WHERE (and_plan (with_condition w ws)) NULL).
Proof.
  intros HF. unfold with_condition. destruct ws as [|w' ws]; [by destruct w|].
  pose proof (and_plan_not_null (w' :: ws) ltac:(done) HF) as Hn.
  destruct (is_null w) eqn:Ew; [|rewrite join_where_and by done; unfold where_node; by rewrite Hn].
  unfold where_node. rewrite Hn. by destruct w.
Qed.
Lemma with_condition_true m m' wh w es ws : result m wh m' w → Forall2 (planned m m') (conditions_of es) ws →
  plan_true m' (and_plan (with_condition w (rev ws))) = forallb (stmt_true m) (wh :: es).
Proof.
  intros R P4. pose proof (planned_nonnull _ _ _ _ P4) as Hnn.
  assert (Hrev : Forall nonnull (rev ws)) by by apply Forall_rev.
  assert (Hes : forallb (λ w, truth (lp_eval m' w)) (rev ws) = forallb (stmt_true m) es).
  { rewrite forallb_rev, conditions_true. eapply planned_true; [done|apply conditions_not_null]. }
  cbn [forallb]. unfold with_condition. destruct R as (Hn & _ & He & _). rewrite Hn. unfold stmt_true at 1.
  destruct (is_null_stmt wh) eqn:Ew; cbn [orb andb]; [by rewrite and_plan_true|].
  rewrite and_plan_true by (constructor; [by unfold nonnull; rewrite Hn|done]). cbn [forallb]. rewrite Hes.
  by rewrite He by (by intros ->).
Qed.

(** The conditions of the joins: read after the WHERE condition and before the select list. *)
Abbreviation join_addresses joins := (joins ≫= λ j, addresses (condition_of j)).
Lemma condition_addresses joins e : e ∈ conditions_of (condition_of <$> joins) →
  addresses e ⊆ join_addresses joins ∧ ∃ j, j ∈ joins ∧ e = condition_of j.
Proof.
  intros He. unfold conditions_of in He. apply list_elem_of_In, filter_In in He as [He%list_elem_of_In _].
  apply list_elem_of_fmap in He as (j & -> & Hj). split; [|eauto]. intros x Hx. apply list_elem_of_bind. eauto.
Qed.
Lemma planned_conditions m m1 m2 m3 l l' joins ws : Forall (join_ok m) joins →
  frame_values l m m1 → (∀ x, x ∈ l → x ∉ join_addresses joins) →
  frame_values l' m2 m3 → (∀ x, x ∈ join_addresses joins → x ∉ l') →
  Forall2 (planned m1 m2) (conditions_of (condition_of <$> joins)) ws → Forall2 (planned m m3) (conditions_of (condition_of <$> joins)) ws.
Proof.
  intros HJ F1 D1 F2 D2 HP. eapply planned_all_later; [exact F2| |].
  { apply list.Forall_forall. intros e [He _]%condition_addresses x Hx Hx'. apply (D2 x); [by apply He|done]. }
  eapply planned_all_from; [exact F1| | |exact HP]; apply list.Forall_forall; intros e [He (j & Hj & ->)]%condition_addresses.
  - intros x Hx Hx'. apply (D1 x); [done|by apply He].
  - rewrite list.Forall_forall in HJ. specialize (HJ j Hj). destruct j as [v c t]. destruct v; try done. destruct v1; try done. apply HJ.
Qed.
Lemma planned_columns m s5 m4 l sel items : Forall (item_ok m) sel → frame_values l m m4 →
  (∀ x, x ∈ l → x ∉ sel ≫= λ c, addresses (item_of c)) → Forall2 (planned_item m4 s5) sel items →
  Forall2 (λ c pl, ∃ w p, pl = Op LP_WHERE w (Leaf LP_COLUMN_LIST_ALIAS (VColumnListAlias p)) ∧
      lp_eval (pl_values s5) w = eval m (item_of c) ∧ pl_items s5 !! p = Some (name_and_type c)) sel items.
Proof.
  intros Hit F Hd%(Forall_disjoint (λ c, addresses (item_of c))) P5.
  induction P5 as [|c pl sel items Hp P5 IH]; constructor; inversion Hit as [|? ? [_ Ht]]; inversion Hd; subst; [|auto].
  eapply planned_item_from in Hp as (w & p & -> & R & E & _); [|exact F|set_solver|done].
  exists w, p. split; [done|]. split; [|done]. apply R. by eapply translatable_not_null.
Qed.

Context (cat : catalog) (fuel : nat) (generate : SqlStatement → P LogicalPlan).
(** The state with the key of the output, and with the keyword ring. *)
Definition output_state (s : planner) : planner :=
  with_keys (<[pl_next s := output_key_of (pl_counter s)]>)
    {| pl_counter := s32 (pl_counter s + 1); pl_next := pl_next s + 1; pl_keys := pl_keys s; pl_values := pl_values s;
       pl_keywords := pl_keywords s; pl_column_aliases := pl_column_aliases s; pl_table_aliases := pl_table_aliases s;
       pl_items := pl_items s |}.
Definition keywords_state (s : planner) (words : list SqlOptionalKeyword) : planner :=
  with_keywords (<[pl_next s := words_of words]>)
    {| pl_counter := pl_counter s; pl_next := pl_next s + 1; pl_keys := pl_keys s; pl_values := pl_values s;
       pl_keywords := pl_keywords s; pl_column_aliases := pl_column_aliases s; pl_table_aliases := pl_table_aliases s;
       pl_items := pl_items s |}.
Lemma output_grows s : grows [] s (output_state s).
Proof. split; try done; [cbn; lia|]. intros p Hp. apply (lookup_insert_ne (pl_keys s)). lia. Qed.
Lemma keywords_grows s words : grows [] s (keywords_state s words).
Proof. split; try done; [cbn; lia|]. intros p Hp. apply (lookup_insert_ne (pl_keywords s)). lia. Qed.
Definition select_query (k kw : ptr) (items : list LogicalPlan) (w : LogicalPlan) (joins : list SqlJoin) : query :=
  Query (list_plan LP_COLUMN_LIST items) (tables_plan (source_of <$> joins)) [] w NULL kw (Op LP_OUTPUT (Leaf LP_KEY (VKey k)) NULL).
Lemma generate_select_run s sel wh words joins w s1 ws s4 items s5 :
  lp_generate_where (subquery cat fuel generate) wh s = Ret (w, s1) →
  plan_joins cat fuel generate joins (where_node (and_plan [])) (output_state s1) =
    Ret (((λ j, Leaf LP_TABLE (VTableAlias (source_of j))) <$> joins, where_node (and_plan (rev ws))), s4) →
  each (column_item (lp_generate_where (subquery cat fuel generate))) sel s4 = Ret (items, s5) →
  Forall nonnull ws → sel ≠ [] → words ≠ [] →
  generate_select cat fuel generate (column_list_alias_STATEMENT sel) wh null_STATEMENT (keyword_STATEMENT words) joins s =
    Ret (plan_of (select_query (pl_next s1) (pl_next s5) items (and_plan (with_condition w (rev ws))) joins), keywords_state s5 words).
Proof.
  intros E1 E4 E5 Hnn Hsl Hwords. unfold generate_select, generate_where. rewrite (P_bind_run _ _ _ _ _ E1).
  rewrite (P_bind_run get_plan_unique_number _ s1 _ _ eq_refl).
  rewrite (P_bind_run (new_key _) _ _ (pl_next s1) (output_state s1)) by done.
  rewrite (P_bind_run (order_by _ _ _ _) _ (output_state s1) NULL (output_state s1)) by done.
  rewrite (P_bind_run _ _ _ _ _ E4).
  rewrite (P_bind_run _ _ s4 (list_plan LP_COLUMN_LIST items) s5).
  2:{ unfold select_columns, lp_column_list_to_lp. destruct sel as [|c sel]; [done|].
      unfold generate_where. by rewrite (P_bind_run _ _ _ _ _ E5). }
  unfold lift. rewrite final_where by by apply Forall_rev.
  do 2 rewrite (P_bind_run _ _ s5 (Op LP_WHERE (and_plan (with_condition w (rev ws))) NULL) s5) by done.
  rewrite (P_bind_run _ _ _ _ _ (derive_tables _ _ _)).
  unfold select_query. rewrite <- table_join_plan, <- list_fmap_compose. by destruct words.
Qed.

Lemma generate_select_spec s sel wh words joins : select_ok (pl_values s) sel wh joins → words ≠ [] →
  ∃ q s', generate_select cat fuel generate (column_list_alias_STATEMENT sel) wh null_STATEMENT (keyword_STATEMENT words) joins s =
      Ret (plan_of q, s') ∧ select_plan s s' sel wh words joins q ∧ select_meaning (pl_values s) s' sel wh joins q.
Proof.
  intros [Hsl Hit Hw Hj HJ Hn] Hwords. unfold read_by in Hn.
  apply list.NoDup_app in Hn as (Hnw & Hdw & Hn). apply list.NoDup_app in Hn as (Hnj & Hdj & Hni).
  assert (Hdw1 : ∀ x, x ∈ addresses wh → x ∉ join_addresses joins) by set_solver.
  destruct (where_grows (subquery cat fuel generate) wh s Hw Hnw) as (w & s1 & E1 & G1 & R1 & C1 & X1).
  destruct (joins_spec cat fuel generate joins (output_state s1) []) as (ws & s4 & E4 & G4 & P4 & C4); [|done|constructor|].
  { by eapply joins_later; [exact (gw_values _ _ _ G1)|..]. }
  assert (G14 : grows (addresses wh ++ join_addresses joins) s s4).
  { eapply grows_trans; [done|]. eapply grows_nil_l; [apply output_grows|done]. }
  assert (Hdi : ∀ x, x ∈ addresses wh ++ join_addresses joins → x ∉ sel ≫= λ c, addresses (item_of c)).
  { intros x [Hx|Hx]%elem_of_app Hx'; [apply (Hdw x Hx)|apply (Hdj x Hx)]; set_solver. }
  destruct (each_item (subquery cat fuel generate) sel s4) as (items & s5 & E5 & G5 & P5 & C5); [|done|].
  { eapply (ring_later (λ c, addresses (item_of c)) item_ok); [|exact Hdi|done].
    intros c Hc. eapply item_ok_later; [apply G14|done]. }
  rewrite app_nil_r in E4. eexists _, _. split; [|split].
  - eapply generate_select_run; [exact E1|exact E4|exact E5|by eapply planned_nonnull|done|done].
  - split; try done.
    + exists (pl_next s1). split; [done|]. cbn [pl_keys keywords_state with_keywords].
      pose proof (gw_next _ _ _ G4) as Hx4. cbn in Hx4.
      rewrite (gw_keys _ _ _ G5), (gw_keys _ _ _ G4); [|cbn; lia|lia]. rewrite <- C1. apply (lookup_insert_eq (pl_keys s1)).
    + apply (lookup_insert_eq (pl_keywords s5)).
    + cbn [pl_counter keywords_state with_keywords]. rewrite C5, C4. cbn. by rewrite C1.
    + eapply grows_nil_r; [|apply keywords_grows]. unfold read_by. rewrite app_assoc. by eapply grows_trans.
  - split.
    + apply with_condition_true.
      * eapply result_later; [exact R1|apply (grows_trans _ _ _ _ _ (grows_nil_l _ _ _ _ (output_grows s1) G4) G5)|]. set_solver.
      * eapply planned_conditions; [exact HJ|exact (gw_values _ _ _ G1)|exact Hdw1|exact (gw_values _ _ _ G5)|exact Hdj|exact P4].
    + exists items. split; [done|]. by apply (planned_columns (pl_values s) s5 (pl_values s4) _ sel items Hit (gw_values _ _ _ G14)).
Qed.
End select.

Lemma no_outer_join m joins : Forall (join_ok m) joins → existsb (λ '(Join _ _ type), is_outer type) joins = false.
Proof.
  induction 1 as [|[v c t] joins Hj HF IH]; [done|]. cbn. rewrite IH, orb_false_r.
  destruct v; try done. destruct v1; try done. destruct Hj as [Hs _]. by destruct t.
Qed.
Lemma plan_of_inj q q' : q_keys q = q_keys q' → plan_of q = plan_of q' → q = q'.
Proof. destruct q, q'. cbn. intros -> E. by injection E as -> -> -> -> -> ->. Qed.

Section theorems.
Context (cat : catalog) (optimize_fuel : nat) (outer_join : SqlStatement → P LogicalPlan).
(** [SELECT sel FROM joins WHERE wh] as the parser wraps it. *)
Definition select_stmt (p : ptr) (sel : list SqlColumnListAlias) (wh : SqlStatement) (words : list SqlOptionalKeyword)
    (joins : list SqlJoin) (alias : SqlStatement) (unique_id : Z) : SqlStatement :=
  table_alias_STATEMENT p
    (select_STATEMENT (column_list_alias_STATEMENT sel) (join_STATEMENT joins) wh null_STATEMENT (keyword_STATEMENT words) null_STATEMENT)
    alias unique_id (column_list_alias_STATEMENT sel).
Lemma generate_select_planned fuel s p sel wh words joins alias unique_id :
  select_ok (pl_values s) sel wh joins → words ≠ [] →
  ∃ q s', generate_logical_plan cat optimize_fuel outer_join (S fuel) (select_stmt p sel wh words joins alias unique_id) s = Ret (plan_of q, s') ∧
    select_plan s s' sel wh words joins q ∧
    ∀ (M : SqlMeaning) (L : SqlLaws), select_meaning (pl_values s) s' sel wh joins q.
Proof.
  intros Hok Hwords.
  assert (Hgen : generate_logical_plan cat optimize_fuel outer_join (S fuel) (select_stmt p sel wh words joins alias unique_id) s =
    generate_select cat optimize_fuel (generate_logical_plan cat optimize_fuel outer_join fuel) (column_list_alias_STATEMENT sel) wh
      null_STATEMENT (keyword_STATEMENT words) joins s).
  { cbn [generate_logical_plan generate_body select_stmt]. destruct joins as [|j joins]; [by destruct (so_some _ _ _ _ Hok)|].
    by rewrite (no_outer_join _ _ (so_joins _ _ _ _ Hok)). }
  rewrite Hgen.
  destruct (@generate_select_spec _ (text_laws (λ _, [])) cat optimize_fuel (generate_logical_plan cat optimize_fuel outer_join fuel) s sel wh words joins Hok Hwords)
    as (q & s' & E & HP & _).
  exists q, s'. split; [done|]. split; [done|]. intros M L.
  destruct (@generate_select_spec M L cat optimize_fuel (generate_logical_plan cat optimize_fuel outer_join fuel) s sel wh words joins Hok Hwords)
    as (q' & s'' & E' & HP' & HM).
  assert ((plan_of q, s') = (plan_of q', s'')) as [Eq <-]%pair_equal_spec by congruence.
  assert (q = q') as ->; [|done]. apply plan_of_inj; [|done]. destruct HP as [_ -> _ _ _ _ _], HP' as [_ -> _ _ _ _ _]. done.
Qed.

(** The plan of a SELECT.  For a SELECT over tables joined by inner, cross or natural
    joins, whose expressions have no subqueries and whose values are each read once,
    [generate_logical_plan] returns a plan that reads the tables in the order of the FROM
    clause and has no keys yet; its output has the next number of the plan counter; its
    condition holds in exactly the rows in which WHERE and all the ON conditions hold; and
    its columns are the select list, in order: each has the value of the expression and
    the name and type of the element.  Column and table aliases, and all keys, keyword
    lists and values but those of the statement's expressions, stay what they were. *)
Theorem select_planned fuel s p sel wh words joins alias unique_id :
  select_ok (pl_values s) sel wh joins → words ≠ [] →
  ∃ q s', generate_logical_plan cat optimize_fuel outer_join (S fuel) (select_stmt p sel wh words joins alias unique_id) s = Ret (plan_of q, s') ∧
    select_plan s s' sel wh words joins q ∧
    ∀ (M : SqlMeaning) (L : SqlLaws), select_meaning (pl_values s) s' sel wh joins q.
Proof. apply generate_select_planned. Qed.

End theorems.

(** ** A sample *)
(** [SELECT a.ID FROM ORDERS a INNER JOIN ORDERS b ON a.NAME = b.ID WHERE a.ID = 42] *)
Definition alias_stmt (p : ptr) (c : SqlColumn) (owner : SqlStatement) : SqlStatement :=
  column_alias_STATEMENT p (column_STATEMENT [c]) owner.
Definition orders_select : list SqlColumnListAlias :=
  [ColumnListAlias 70 (column_list_STATEMENT [alias_stmt 60 col_id (orders_as 30 1)]) (OptimizeRows.named 2) null_STATEMENT NUMBER_LITERAL].
Definition orders_where : SqlStatement :=
  binary_STATEMENT BOOLEAN_EQUALS (alias_stmt 60 col_id (orders_as 30 1)) (OptimizeRows.named 6).
Definition orders_joins : list SqlJoin :=
  [Join (orders_as 30 1) null_STATEMENT NO_JOIN;
   Join (orders_as 31 2) (binary_STATEMENT BOOLEAN_EQUALS (alias_stmt 62 col_name (orders_as 30 1)) (alias_stmt 63 col_id (orders_as 31 2))) INNER_JOIN].
Definition orders_words : list SqlOptionalKeyword := [Keyword NO_KEYWORD null_STATEMENT].
Definition orders_stmt : SqlStatement := select_stmt 80 orders_select orders_where orders_words orders_joins null_STATEMENT 3.
Definition no_outer (s : SqlStatement) : P LogicalPlan := lift (Halt FatalExit).
Lemma orders_select_ok : select_ok (pl_values sample_store) orders_select orders_where orders_joins.
Proof.
  split; [done| |right; vm_compute; reflexivity|done| |].
  - constructor; [|constructor]. split; [do 6 eexists; reflexivity|vm_compute; reflexivity].
  - constructor; [split; [reflexivity|by left]|]. constructor; [split; [reflexivity|right; vm_compute; reflexivity]|constructor].
  - eval_decide.
Defined.
Lemma select_planned_witness :
  ∃ q s', generate_logical_plan sample_catalog 4 no_outer 1 orders_stmt sample_store = Ret (plan_of q, s') ∧
    select_plan sample_store s' orders_select orders_where orders_words orders_joins q ∧
    ∀ (M : SqlMeaning) (L : SqlLaws), select_meaning (pl_values sample_store) s' orders_select orders_where orders_joins q.
Proof.
  apply (select_planned sample_catalog 4 no_outer 0 sample_store 80 orders_select orders_where orders_words orders_joins null_STATEMENT 3);
    [exact orders_select_ok|done].
Defined.

(** The plan and the state, as they are computed. *)
Definition orders_planned : query :=
  Query (Op LP_COLUMN_LIST (Op LP_WHERE (OptimizeRows.column 60) (Leaf LP_COLUMN_LIST_ALIAS (VColumnListAlias 101))) NULL)
    (tables_plan [30; 31]) []
    (Op LP_BOOLEAN_AND (equal (OptimizeRows.column 60) (OptimizeRows.constant 6)) (equal (OptimizeRows.column 62) (OptimizeRows.column 63)))
    NULL 102 (Op LP_OUTPUT (Leaf LP_KEY (VKey 100)) NULL).
Definition orders_state : planner :=
  match generate_logical_plan sample_catalog 4 no_outer 1 orders_stmt sample_store with Ret (_, s) => s | _ => sample_store end.
Lemma orders_generated :
  generate_logical_plan sample_catalog 4 no_outer 1 orders_stmt sample_store = Ret (plan_of orders_planned, orders_state).
Proof. vm_compute. reflexivity. Defined.
Lemma orders_planned_ok : query_ok sample_catalog orders_state orders_planned [30; 31] orders_lists orders_keys.
Proof.
  split.
  - apply store_ok_check; vm_compute; reflexivity.
  - done.
  - done.
  - done.
  - vm_compute; reflexivity.
  - vm_compute. repeat constructor; done.
  - vm_compute; reflexivity.
  - vm_compute; reflexivity.
  - right. split; [reflexivity|]. split; (split; [done|]); intros _; vm_compute; reflexivity.
  - vm_compute. done.
  - vm_compute. repeat constructor; done.
Defined.
