(* ===== verification/PlanVerified.v ===== *)
(** * Generated plans pass the structure check

    [emit_select_statement.c] gives a query up when [lp_verify_structure] refuses its plan.
    The plan of a SELECT over tables is accepted when its expressions are [checked]: no
    comparison with [>=], no operator of one operand or CASE directly under another operator
    of one operand, and functions called by name. *)
From stdpp Require Import gmap strings.
From S2P Require Import Prelude CMem LogicalPlan LogicalPlanTheorems Dnf DnfTheorems SqlStatement Quoting Optimize OptimizeStore FixTheorems OptimizeTheorems OptimizeRows GenerateWhere GenerateTheorems GeneratePlan PlanTheorems.

(** ** Nodes that fit *)
Section fits.
Context (keys : key_store).
(** The node is absent or passes as what it is, one of the types. *)
Definition fits (ts : list LPActionType) (p : LogicalPlan) : Prop :=
  p = NULL ∨ ∃ t, lp_type p = Ret t ∧ t ∈ ts ∧ lp_verify_structure_helper keys p t = Ret true.
Lemma fits_any ts p : ts ≠ [] → fits ts p → any_of (lp_verify_structure_helper keys p) ts = Ret true.
Proof.
  intros Hne [->|(t & Ht & Hin & Hv)].
  - destruct ts as [|t ts]; [done|]. apply (any_of_intro _ _ t); [left|done|]. by eexists.
  - apply (any_of_intro _ _ t); [done..|]. intros t' _. destruct (decide (t = t')) as [->|Hn]; [by eexists|].
    eexists. by apply (verify_wrong_type _ _ _ t).
Qed.
Lemma fits_mono ts ts' p : ts ⊆ ts' → fits ts p → fits ts' p.
Proof. intros Hs [->|(t & ? & ? & ?)]; [by left|right]. exists t. split_and!; auto. Qed.
Lemma verify_operands_fit t l r a b : shape_of t = SOperands l r → l ≠ [] → r ≠ [] → fits l a → fits r b →
  lp_verify_structure_helper keys (Op t a b) t = Ret true.
Proof. intros E Hl Hr Ha Hb. rewrite (verify_op _ _ _ _ _ _ E). by rewrite (fits_any l a), (fits_any r b). Qed.
(** The same for the other shapes with two operands. *)
Lemma verify_both_fit t l r a b :
  shape_of t = SList l r ∧ a ≠ NULL ∨ shape_of t = SBoth l r ∧ a ≠ NULL ∧ b ≠ NULL ∨ shape_of t = SNeedFirst l r ∧ a ≠ NULL →
  l ≠ [] → r ≠ [] → fits l a → fits r b → lp_verify_structure_helper keys (Op t a b) t = Ret true.
Proof.
  intros E Hl Hr Ha Hb. cbn [lp_verify_structure_helper]. rewrite decide_False by auto.
  pose proof (fits_any l a Hl Ha) as Ha'. pose proof (fits_any r b Hr Hb) as Hb'.
  destruct E as [[-> Hna]|[(-> & Hna & Hnb)|[-> Hna]]]; rewrite Ha', Hb'; by destruct a, b.
Qed.
Lemma fits_op ts t l r a b : shape_of t = SOperands l r → l ≠ [] → r ≠ [] → t ∈ ts → fits l a → fits r b → fits ts (Op t a b).
Proof. intros. right. exists t. split_and!; [done..|]. by eapply verify_operands_fit. Qed.
End fits.

(** ** Expressions *)
(** Roots of plans: a value, an operand of any operator, an operand of a binary one. *)
Inductive root := RValue | ROperand | ROther.
Definition root_types (c : root) : list LPActionType :=
  match c with
  | RValue => [LP_VALUE]
  | ROperand => unary_operand_types
  | ROther => unary_operand_types ++ [LP_BOOLEAN_NOT; LP_NEGATIVE; LP_FORCE_NUM; LP_CASE]
  end.
Definition is_operand (c : option root) : bool := match c with Some RValue | Some ROperand => true | _ => false end.
(** [m]: the types of the values. *)
Definition kinds (m : values) : gmap ptr SqlValueType := sv_type <$> m.
Fixpoint checked (m : gmap ptr SqlValueType) (s : SqlStatement) : option root :=
  let ok x := bool_decide (is_Some (checked m x)) in
  match s with
  | value_STATEMENT p v =>
      t ← m !! p; if decide (t = CALCULATED_VALUE) then checked m v else Some RValue
  | column_alias_STATEMENT _ _ _ => Some ROperand
  | binary_STATEMENT o a b =>
      let right := match b with column_list_STATEMENT ring => bool_decide (ring ≠ []) && forallb ok ring | _ => ok b end in
      if bool_decide (o ≠ BOOLEAN_GREATER_THAN_OR_EQUALS ∧ o ≠ BOOLEAN_NULL ∧ o ≠ BOOLEAN_NOT_NULL) && ok a && right then Some ROperand else None
  | unary_STATEMENT _ a => if is_operand (checked m a) then Some ROther else None
  | function_call_STATEMENT f (column_list_STATEMENT ring) =>
      match checked m f with
      | Some RValue => if bool_decide (ring ≠ []) && forallb ok ring then Some ROperand else None
      | _ => None
      end
  | cas_STATEMENT v (cas_branch_STATEMENT ring) e =>
      if (is_null_stmt v || ok v) && (is_null_stmt e || ok e) && bool_decide (ring ≠ []) &&
         forallb (λ '(CaseBranch c w), ok c && ok w) ring
      then Some ROther else None
  | _ => None
  end.
Lemma root_left c : root_types c ⊆ left_operand_types.
Proof.
  assert (HF : Forall (λ t, t ∈ left_operand_types) (root_types c)) by (destruct c; apply (bool_decide_unpack _); vm_compute; exact I).
  intros t Ht. rewrite list.Forall_forall in HF. auto.
Qed.
Lemma root_right c : root_types c ⊆ right_operand_types.
Proof.
  assert (HF : Forall (λ t, t ∈ right_operand_types) (root_types c)) by (destruct c; apply (bool_decide_unpack _); vm_compute; exact I).
  intros t Ht. rewrite list.Forall_forall in HF. auto.
Qed.

Section checked.
Context (keys : key_store) (T : gmap ptr SqlValueType) (subquery : SqlStatement → gen → outcome (LogicalPlan * gen)).
Abbreviation where_p := (lp_generate_where subquery).
(** The plan of a statement, if there is one, fits; the types of the values stay. *)
Definition plan_fits (s : SqlStatement) : Prop := ∀ g p g' c,
  kinds (g_values g) = T → where_p s g = Ret (p, g') → checked T s = Some c →
  kinds (g_values g') = T ∧ fits keys (root_types c) p.
Definition left_fit := fits keys left_operand_types.
Definition right_fit := fits keys right_operand_types.
Lemma fits_both c p : fits keys (root_types c) p → left_fit p ∧ right_fit p.
Proof. intros Hf. split; (eapply fits_mono; [|done]); [apply root_left|apply root_right]. Qed.
Lemma kinds_set_literal m p x t : m !! p = Some x → kinds (<[p := set_literal t x]> m) = kinds m.
Proof. intros Hp. unfold kinds. rewrite fmap_insert. apply insert_id. by rewrite lookup_fmap, Hp. Qed.

(** A node with two operands of any kind. *)
Lemma two_fit ts t a b : shape_of t = SOperands left_operand_types right_operand_types → t ∈ ts → left_fit a → right_fit b → fits keys ts (Op t a b).
Proof. intros. by eapply fits_op. Qed.
Definition simple (t : LPActionType) : Prop :=
  t ∈ expression_types ∧ shape_of t = SOperands left_operand_types right_operand_types.
Lemma expression_operand : expression_types ⊆ unary_operand_types.
Proof. intros t Ht. apply elem_of_app. by left. Qed.
Lemma simple_fit ts t a b : simple t → expression_types ⊆ ts → left_fit a → right_fit b → fits keys ts (Op t a b).
Proof. intros [Hin Hs] Hsub Ha Hb. eapply fits_op; try done. by apply Hsub. Qed.
Lemma expression_right : expression_types ⊆ right_operand_types.
Proof. intros t Ht. apply elem_of_app. by left. Qed.
Lemma in_chain_fits type t items : left_fit t → Forall right_fit items → items ≠ [] → fits keys expression_types (in_chain type t items).
Proof.
  intros Ht HF Hne. unfold in_chain.
  set (eq := if decide (type = LP_BOOLEAN_IN) then LP_BOOLEAN_EQUALS else LP_BOOLEAN_NOT_EQUALS).
  set (join := if decide (type = LP_BOOLEAN_IN) then LP_BOOLEAN_OR else LP_BOOLEAN_AND).
  assert (He : simple eq) by (unfold eq; case_decide; split; [|done| |done]; apply (bool_decide_unpack _); vm_compute; exact I).
  assert (Hj : simple join) by (unfold join; case_decide; split; [|done| |done]; apply (bool_decide_unpack _); vm_compute; exact I).
  assert (Hc : ∀ ret, fits keys expression_types ret →
    fits keys expression_types (fold_left (λ ret item, let next := Op eq t item in if is_null ret then next else Op join next ret) items ret)).
  { clear Hne. induction HF as [|x items Hx HF IH]; intros ret Hr; cbn [fold_left]; [done|].
    assert (Hnext : ∀ ts, expression_types ⊆ ts → fits keys ts (Op eq t x)) by (intros; by apply simple_fit).
    apply IH. destruct (is_null ret); [by apply Hnext|]. apply simple_fit; [done|done| |].
    - apply Hnext. intros u Hu. apply elem_of_app. by left.
    - eapply fits_mono; [apply expression_right|done]. }
  apply Hc. by left.
Qed.
Lemma column_chain_fits items : Forall left_fit items → fits keys [LP_COLUMN_LIST] (column_chain items).
Proof.
  induction 1 as [|x items Hx HF IH]; [by left|]. cbn. destruct x; [done| |];
    (eapply fits_op; [done|done|done|left|done|]; eapply fits_mono; [|exact IH]; intros u ->%list_elem_of_singleton; apply (bool_decide_unpack _); vm_compute; exact I).
Qed.
Lemma branch_chain_fits items : Forall (λ '(c, v), left_fit c ∧ right_fit v) items → fits keys [LP_CASE_BRANCH] (branch_chain items).
Proof.
  induction 1 as [|[c v] items [Hc Hv] HF IH]; [by left|]. cbn. eapply fits_op; [done|done|done|left| |done].
  eapply fits_op; [done|done|done|left|done|done].
Qed.
Lemma binary_simple o : o ≠ BOOLEAN_GREATER_THAN_OR_EQUALS → o ≠ BOOLEAN_NULL → o ≠ BOOLEAN_NOT_NULL → simple (binary_type o).
Proof.
  intros. destruct o; try done; (split; [apply (bool_decide_unpack _); vm_compute; exact I|reflexivity]).
Qed.

(** ** The translation *)
Lemma ring_fits ring : Forall plan_fits ring → Forall (λ x, is_Some (checked T x)) ring → ∀ g ps g',
  kinds (g_values g) = T → each where_p ring g = Ret (ps, g') →
  kinds (g_values g') = T ∧ Forall left_fit ps ∧ Forall right_fit ps ∧ length ps = length ring.
Proof.
  intros HF HC. induction HF as [|x ring Hx HF IH]; intros g ps g' Hk E.
  { injection E as <- <-. by repeat split. }
  apply Forall_cons_1 in HC as [[c Hc] HC]. cbn [each] in E.
  apply bind_ret_inv in E as ([p g1] & E1 & E). apply bind_ret_inv in E as ([ps' g2] & E2 & [= <- <-]).
  destruct (Hx g p g1 c Hk E1 Hc) as [Hk1 [Hl Hr]%fits_both].
  destruct (IH HC g1 ps' g2 Hk1 E2) as (Hk2 & Hls & Hrs & Hlen).
  split_and!; [done|by constructor|by constructor|cbn; lia].
Qed.
Lemma regex_fits o a b g p g' : simple (binary_type o) → left_fit a → right_fit b → kinds (g_values g) = T →
  regex_to_equals (Op (binary_type o) a b) g = Ret (p, g') → kinds (g_values g') = T ∧ fits keys expression_types p.
Proof.
  intros Ho Ha Hb Hk E.
  assert (Hsame : Ret (Op (binary_type o) a b, g) = Ret (p, g') → kinds (g_values g') = T ∧ fits keys expression_types p).
  { intros [= <- <-]. split; [done|]. by apply simple_fit. }
  destruct (decide (binary_type o = LP_BOOLEAN_REGEX_SENSITIVE)) as [Er|Er].
  2: { apply Hsame. rewrite <- E. unfold regex_to_equals. by destruct (binary_type o). }
  rewrite Er in *. cbn [regex_to_equals] in E. destruct b as [| |t v]; [done|by apply Hsame|].
  destruct t; try by apply Hsame. destruct v; try by apply Hsame.
  apply bind_ret_inv in E as (x & Ex & E). case_decide; [by apply Hsame|].
  destruct (literal_pattern _) as [l|]; [|by apply Hsame]. injection E as <- <-.
  split; [|apply simple_fit; [split; [apply (bool_decide_unpack _); vm_compute; exact I|done]|done|done|done]].
  unfold value_at in Ex. destruct (g_values g !! p0) as [y|] eqn:Ey; [|done]. injection Ex as ->.
  change (kinds (<[p0 := set_literal l x]> (g_values g)) = T). by rewrite kinds_set_literal.
Qed.
Lemma ok_some (x : option root) : bool_decide (is_Some x) = true → ∃ c, x = Some c.
Proof. intros [c ->]%bool_decide_eq_true. by eexists. Qed.
Lemma ok_ring ring : forallb (λ x, bool_decide (is_Some (checked T x))) ring = true → Forall (λ x, is_Some (checked T x)) ring.
Proof. apply forallb_Forall. intros x. apply bool_decide_eq_true. Qed.
Lemma each_not_nil {A B} (f : A → gen → outcome (B * gen)) ring g ps g' : do_each f ring g = Ret (ps, g') → each f ring g = Ret (ps, g') ∧ ring ≠ [].
Proof. by destruct ring. Qed.
Lemma fits_value v a : fits keys [LP_VALUE] (Leaf LP_VALUE v) ∧ fits keys unary_operand_types (Leaf LP_COLUMN_ALIAS a).
Proof.
  split; right; [exists LP_VALUE|exists LP_COLUMN_ALIAS]; (split; [done|split; [|reflexivity]]); [left|].
  apply (bool_decide_unpack _). vm_compute. exact I.
Qed.
Lemma null_fits s : plan_fits s → ∀ g p g', kinds (g_values g) = T → where_p s g = Ret (p, g') →
  is_null_stmt s || bool_decide (is_Some (checked T s)) = true → kinds (g_values g') = T ∧ left_fit p ∧ right_fit p.
Proof.
  intros Hs g p g' Hk E Hn. destruct (is_null_stmt s) eqn:En.
  { destruct s; try done. injection E as <- <-. split_and!; [done|by left|by left]. }
  apply ok_some in Hn as [c Hc]. destruct (Hs g p g' c Hk E Hc) as [? ?%fits_both]. tauto.
Qed.

Lemma binary_fits o a b : plan_fits a → plan_fits b → Forall plan_fits (children b) → plan_fits (binary_STATEMENT o a b).
Proof.
  intros IHa IHb IHr g p g' c Hk E Hc. cbn [checked] in Hc.
  destruct (_ && _) eqn:Hok in Hc; [|done]. injection Hc as <-.
  apply andb_true_iff in Hok as [[(Ho1 & Ho2 & Ho3)%bool_decide_eq_true Hoa]%andb_true_iff Hright].
  apply ok_some in Hoa as [ca Hca]. pose proof (binary_simple o Ho1 Ho2 Ho3) as Hsimple.
  assert (Hgen : ∀ cb, checked T b = Some cb →
    ('(a, g) ← where_p a g; '(b, g) ← where_p b g; regex_to_equals (Op (binary_type o) a b) g) = Ret (p, g') →
    kinds (g_values g') = T ∧ fits keys (root_types ROperand) p).
  { intros cb Hcb E'. apply bind_ret_inv in E' as ([pa g1] & E1 & E'). apply bind_ret_inv in E' as ([pb g2] & E2 & E').
    destruct (IHa g pa g1 ca Hk E1 Hca) as [Hk1 [Hl _]%fits_both]. destruct (IHb g1 pb g2 cb Hk1 E2 Hcb) as [Hk2 [_ Hr]%fits_both].
    destruct (regex_fits o pa pb g2 p g' Hsimple Hl Hr Hk2 E') as [? Hf]. split; [done|].
    eapply fits_mono; [apply expression_operand|done]. }
  cbn [lp_generate_where] in E. destruct (list_or_not b) as [[ring ->]|Hb].
  - apply andb_true_iff in Hright as [Hne%bool_decide_eq_true Hr%ok_ring]. cbn [children] in IHr.
    case_decide as Hin; [|].
    + apply bind_ret_inv in E as ([pa g1] & E1 & E). apply bind_ret_inv in E as ([ps g2] & E2 & [= <- <-]).
      destruct (IHa g pa g1 ca Hk E1 Hca) as [Hk1 [Hl _]%fits_both]. apply each_not_nil in E2 as [E2 _].
      destruct (ring_fits ring IHr Hr g1 ps g2 Hk1 E2) as (Hk2 & _ & Hrs & Hlen). split; [done|].
      eapply fits_mono; [apply expression_operand|]. apply in_chain_fits; [done|done|]. destruct ring, ps; done.
    + apply bind_ret_inv in E as ([pa g1] & E1 & E). apply bind_ret_inv in E as ([pb g2] & E2 & E). done.
  - assert (Hokb : bool_decide (is_Some (checked T b)) = true) by (destruct b; try done; by destruct (Hb ring)).
    apply ok_some in Hokb as [cb Hcb]. apply (Hgen cb Hcb). revert E. case_decide; [|done].
    by destruct b.
Qed.
Lemma unary_fits o a : plan_fits a → plan_fits (unary_STATEMENT o a).
Proof.
  intros IHa g p g' c Hk E Hc. cbn [checked] in Hc. destruct (is_operand _) eqn:Ho in Hc; [|done]. injection Hc as <-.
  destruct (checked T a) as [ca|] eqn:Hca; [|done]. cbn [lp_generate_where] in E.
  apply bind_ret_inv in E as ([pa g1] & E1 & [= <- <-]). destruct (IHa g pa g1 ca Hk E1 Hca) as [Hk1 Hf]. split; [done|].
  assert (Hu : fits keys unary_operand_types pa).
  { eapply fits_mono; [|exact Hf]. destruct ca; [|done|done]. intros u ->%list_elem_of_singleton. apply (bool_decide_unpack _). vm_compute. exact I. }
  right. exists (unary_type o). split; [done|]. split; [destruct o; apply (bool_decide_unpack _); vm_compute; exact I|].
  assert (Hs : shape_of (unary_type o) = SUnary unary_operand_types) by by destruct o.
  cbn [lp_verify_structure_helper]. rewrite decide_False by auto. rewrite Hs, (fits_any keys unary_operand_types pa) by done. done.
Qed.
Lemma call_fits f ring : plan_fits f → Forall plan_fits ring → plan_fits (function_call_STATEMENT f (column_list_STATEMENT ring)).
Proof.
  intros IHf IHr g p g' c Hk E Hc. cbn [checked] in Hc. destruct (checked T f) as [[]|] eqn:Hcf; try done.
  destruct (_ && _) eqn:Hok in Hc; [|done]. injection Hc as <-. apply andb_true_iff in Hok as [_ Hr%ok_ring].
  cbn [lp_generate_where] in E. apply bind_ret_inv in E as ([pf g1] & E1 & E). apply bind_ret_inv in E as ([ps g2] & E2 & [= <- <-]).
  destruct (IHf g pf g1 _ Hk E1 Hcf) as [Hk1 Hf]. apply each_not_nil in E2 as [E2 _].
  destruct (ring_fits ring IHr Hr g1 ps g2 Hk1 E2) as (Hk2 & Hls & _ & _). split; [done|].
  eapply fits_op; [done|done|done| |exact Hf|by apply column_chain_fits]. apply (bool_decide_unpack _). vm_compute. exact I.
Qed.
Lemma branches_fit ring : Forall plan_fits (ring ≫= branch_children) →
  forallb (λ '(CaseBranch c w), bool_decide (is_Some (checked T c)) && bool_decide (is_Some (checked T w))) ring = true → ∀ g ps g',
  kinds (g_values g) = T →
  each (λ '(CaseBranch condition value) g, '(c, g) ← where_p condition g; '(v, g) ← where_p value g; Ret ((c, v), g)) ring g = Ret (ps, g') →
  kinds (g_values g') = T ∧ Forall (λ '(c, v), left_fit c ∧ right_fit v) ps.
Proof.
  induction ring as [|[cc vv] ring IH]; intros HF Hok g ps g' Hk E.
  { injection E as <- <-. by split. }
  cbn in HF, Hok. apply Forall_cons_1 in HF as [Hc [Hv HF]%Forall_cons_1].
  apply andb_true_iff in Hok as [[[c1 Hc1]%ok_some [c2 Hc2]%ok_some]%andb_true_iff Hok].
  cbn [each] in E. apply bind_ret_inv in E as ([[pc pv] g1] & E1 & E). apply bind_ret_inv in E as ([ps' g2] & E2 & [= <- <-]).
  apply bind_ret_inv in E1 as ([pc' g3] & Ec & E1). apply bind_ret_inv in E1 as ([pv' g4] & Ev & [= -> -> ->]).
  destruct (Hc g pc g3 c1 Hk Ec Hc1) as [Hk3 [Hl _]%fits_both]. destruct (Hv g3 pv g1 c2 Hk3 Ev Hc2) as [Hk1 [_ Hr]%fits_both].
  destruct (IH HF Hok g1 ps' g2 Hk1 E2) as [Hk2 Hps]. split; [done|]. by constructor.
Qed.
Lemma case_fits v ring e : plan_fits v → plan_fits e → Forall plan_fits (ring ≫= branch_children) → plan_fits (cas_STATEMENT v (cas_branch_STATEMENT ring) e).
Proof.
  intros IHv IHe IHr g p g' c Hk E Hc. cbn [checked] in Hc. destruct (_ && _) eqn:Hok in Hc; [|done]. injection Hc as <-.
  apply andb_true_iff in Hok as [[[Hv He]%andb_true_iff _]%andb_true_iff Hr].
  cbn [lp_generate_where] in E. apply bind_ret_inv in E as ([pv g1] & E1 & E). apply bind_ret_inv in E as ([pe g2] & E2 & E).
  apply bind_ret_inv in E as ([ps g3] & E3 & [= <- <-]). apply each_not_nil in E3 as [E3 _].
  destruct (null_fits v IHv g pv g1 Hk E1 Hv) as (Hk1 & Hl & _). destruct (null_fits e IHe g1 pe g2 Hk1 E2 He) as (Hk2 & _ & Hre).
  destruct (branches_fit ring IHr Hr g2 ps g3 Hk2 E3) as [Hk3 Hps]. split; [done|].
  eapply fits_op; [done|done|done| | |by apply branch_chain_fits]; [apply (bool_decide_unpack _); vm_compute; exact I|].
  eapply fits_op; [done|done|done|left|done|done].
Qed.
Lemma all_fit s : plan_fits s.
Proof.
  induction s as [s IH] using statement_ind2.
  destruct s as [| | | | |p v|f a|o a b|o a| | | | | | | | |p col t| | | | | |v b e| | | | |]; try (intros ? ? ? ? ? ? ?; done); cbn [children] in IH.
  - apply Forall_cons_1 in IH as [[IH _] _]. intros g q g' c Hk E Hc. cbn [checked lp_generate_where] in *.
    apply bind_ret_inv in E as (x & Ex & E). unfold value_at in Ex. destruct (g_values g !! p) as [y|] eqn:Ey; [|done]. injection Ex as ->.
    assert (Hp : T !! p = Some (sv_type x)) by (rewrite <- Hk; unfold kinds; by rewrite lookup_fmap, Ey).
    rewrite Hp in Hc. cbn in Hc. destruct (decide (sv_type x = CALCULATED_VALUE)) as [Et|Et].
    + rewrite Et in E. by eapply IH.
    + injection Hc as <-. assert (Ret (Leaf LP_VALUE (VValue p), g) = Ret (q, g')) as [= <- <-] by (rewrite <- E; by destruct (sv_type x)).
      split; [done|apply fits_value; exact (VValue p)].
  - apply Forall_cons_1 in IH as [[IHf _] [[_ IHr] _]%Forall_cons_1].
    destruct a; try (intros ? ? ? ? ? ? ?; done). by apply call_fits.
  - apply Forall_cons_1 in IH as [[IHa _] [[IHb IHr] _]%Forall_cons_1]. by apply binary_fits.
  - apply Forall_cons_1 in IH as [[IHa _] _]. by apply unary_fits.
  - intros g q g' c Hk E Hc. injection E as <- <-. injection Hc as <-. split; [done|]. apply (fits_value (VValue p)).
  - apply Forall_cons_1 in IH as [[IHv _] [[_ IHr] [[IHe _] _]%Forall_cons_1]%Forall_cons_1].
    destruct b; try (intros ? ? ? ? ? ? ?; done). by apply case_fits.
Qed.
End checked.

(** ** The whole plan *)
Lemma P_bind_inv {A B} (x : P A) (f : A → P B) s b s' : (x ≫= f) s = Ret (b, s') → ∃ a s1, x s = Ret (a, s1) ∧ f a s1 = Ret (b, s').
Proof. unfold mbind, P_bind. intros E. apply bind_ret_inv in E as ([a s1] & E1 & E2). eauto. Qed.
Lemma lift_inv {A} (o : outcome A) s a s' : lift o s = Ret (a, s') → o = Ret a ∧ s' = s.
Proof. unfold lift. intros E. apply bind_ret_inv in E as (x & -> & E). by injection E as <- <-. Qed.

Section select.
Context (keys : key_store) (T : gmap ptr SqlValueType) (subquery : SqlStatement → gen → outcome (LogicalPlan * gen)).
Abbreviation where_p := (lp_generate_where subquery).
Lemma item_fits c s pl s' : kinds (pl_values s) = T → is_Some (checked T (item_of c)) →
  column_item where_p c s = Ret (pl, s') → kinds (pl_values s') = T ∧ fits keys [LP_WHERE] pl.
Proof.
  intros Hk [r Hr] E. destruct c as [p l a k t]. destruct l as [| | | | | | | | |ring| | | | | | | | | | | | | | | | | | |]; try done.
  destruct ring as [|e ring]; [done|]. cbn [item_of column_item] in *. apply P_bind_inv in E as (w & s1 & E1 & [= <- <-]).
  destruct (all_fit keys T subquery e s w s1 r Hk E1 Hr) as [Hk1 [Hl _]%fits_both]. split; [done|].
  eapply fits_op; [done|done|done|left|done|]. right. exists LP_COLUMN_LIST_ALIAS. split; [done|]. split; [|reflexivity].
  apply (bool_decide_unpack _). vm_compute. exact I.
Qed.
Lemma items_fit ring : ∀ s pls s', kinds (pl_values s) = T → Forall (λ c, is_Some (checked T (item_of c))) ring →
  each (column_item where_p) ring s = Ret (pls, s') → kinds (pl_values s') = T ∧ Forall (fits keys [LP_WHERE]) pls.
Proof.
  induction ring as [|c ring IH]; intros s pls s' Hk HF E; [injection E as <- <-; by split|].
  apply Forall_cons_1 in HF as [Hc HF]. cbn [each] in E. apply bind_ret_inv in E as ([p s1] & E1 & E).
  apply bind_ret_inv in E as ([ps s2] & E2 & [= <- <-]).
  destruct (item_fits c s p s1 Hk Hc E1) as [Hk1 Hf]. destruct (IH s1 ps s2 Hk1 HF E2) as [Hk2 Hfs]. split; [done|by constructor].
Qed.
Lemma columns_fit pls : Forall (fits keys [LP_WHERE]) pls → fits keys [LP_COLUMN_LIST] (list_plan LP_COLUMN_LIST pls).
Proof.
  induction 1 as [|p pls Hp HF IH]; [by left|]. cbn. eapply fits_op; [done|done|done|left| |].
  - eapply fits_mono; [|exact Hp]. intros u ->%list_elem_of_singleton. apply (bool_decide_unpack _). vm_compute. exact I.
  - eapply fits_mono; [|exact IH]. intros u ->%list_elem_of_singleton. apply (bool_decide_unpack _). vm_compute. exact I.
Qed.
Lemma tables_fit ts : fits keys [LP_TABLE_JOIN] (tables_plan ts).
Proof.
  induction ts as [|p ts IH]; [by left|]. right. exists LP_TABLE_JOIN. split; [done|]. split; [left|].
  eapply verify_both_fit; [by left| | | |exact IH]; [done|done|]. right. exists LP_TABLE. split; [done|]. split; [left|reflexivity].
Qed.
(** Conditions, as they are joined. *)
Definition condition_fits (w : LogicalPlan) : Prop := left_fit keys w ∧ right_fit keys w.
Definition joined_fits (c : LogicalPlan) : Prop := c = NULL ∨ ∃ w, c = Op LP_WHERE w NULL ∧ condition_fits w.
Lemma and_fits a b : condition_fits a → condition_fits b → condition_fits (Op LP_BOOLEAN_AND a b).
Proof.
  intros [Ha _] [_ Hb]. split; (eapply simple_fit; [split; [apply (bool_decide_unpack _); vm_compute; exact I|done]| |done|done]);
    intros u Hu; apply elem_of_app; by left.
Qed.
Lemma join_where_fits w c c' : condition_fits w → joined_fits c → lp_join_where (Op LP_WHERE w NULL) c = Ret c' → joined_fits c'.
Proof.
  intros Hw Hc E. unfold lp_join_where in E. cbn [is_null] in E. destruct Hc as [->|(x & -> & Hx)].
  { injection E as <-. right. by exists w. }
  cbn [is_null operand mbind outcome_bind] in E. destruct (is_null w); [injection E as <-; right; by exists x|].
  destruct (is_null x); [injection E as <-; right; by exists w|]. injection E as <-. right. eexists. split; [done|]. by apply and_fits.
Qed.
Lemma where_fits e s w s' : kinds (pl_values s) = T → e = null_STATEMENT ∨ is_Some (checked T e) → where_p e s = Ret (w, s') →
  kinds (pl_values s') = T ∧ condition_fits w.
Proof.
  intros Hk [->|[c Hc]] E; [injection E as <- <-; split; [done|split; by left]|].
  destruct (all_fit keys T subquery e s w s' c Hk E Hc) as [? ?%fits_both]. done.
Qed.
End select.

Section verified.
Context (cat : catalog) (fuel : nat) (generate : SqlStatement → P LogicalPlan) (keys : key_store) (T : gmap ptr SqlValueType).
Definition join_checked (j : SqlJoin) : Prop := condition_of j = null_STATEMENT ∨ is_Some (checked T (condition_of j)).
Lemma joins_fit m joins : ∀ s c sources c' s', Forall (join_ok m) joins → Forall join_checked joins → kinds (pl_values s) = T →
  joined_fits keys c → plan_joins cat fuel generate joins c s = Ret ((sources, c'), s') →
  kinds (pl_values s') = T ∧ joined_fits keys c' ∧ sources = (λ j, Leaf LP_TABLE (VTableAlias (source_of j))) <$> joins.
Proof.
  induction joins as [|[v cond ty] joins IH]; intros s c sources c' s' Hj HF Hk Hc E; [by injection E as <- <- <-|].
  apply Forall_cons_1 in HF as [Hcond HF]. apply Forall_cons_1 in Hj as [Hok Hj].
  destruct v as [| | | | | | | | | | | | | | | | | |p tb al u cl| | | | | | | | | |]; try done. destruct tb; try done. destruct Hok as [Hs _].
  cbn [plan_joins join_source] in E. rewrite Hs in E. apply P_bind_inv in E as (? & s0 & [= <- <-] & E).
  apply P_bind_inv in E as (src & s0 & [= <- <-] & E). apply P_bind_inv in E as (c1 & s1 & E1 & E).
  apply P_bind_inv in E as ([rest c2] & s2 & E2 & [= <- <- <-]).
  assert (kinds (pl_values s1) = T ∧ joined_fits keys c1) as [Hk1 Hc1].
  { destruct (is_null_stmt cond); [by injection E1 as <- <-|]. apply P_bind_inv in E1 as (w & s3 & E3 & [E4 ->]%lift_inv).
    destruct (where_fits keys T (subquery cat fuel generate) cond s w s3 Hk Hcond E3) as [? Hw]. split; [done|]. by eapply join_where_fits. }
  destruct (IH s1 c1 rest c2 s2 Hj HF Hk1 Hc1 E2) as (? & ? & ->). done.
Qed.

(** The expressions of the statement are [checked]. *)
Definition statement_checked (sel : list SqlColumnListAlias) (wh : SqlStatement) (joins : list SqlJoin) : Prop :=
  Forall (λ c, is_Some (checked T (item_of c))) sel ∧ (wh = null_STATEMENT ∨ is_Some (checked T wh)) ∧ Forall join_checked joins.
Lemma whole_plan_fits k kw columns ts w : ts ≠ [] → fits keys [LP_COLUMN_LIST] columns → condition_fits keys w →
  lp_verify_structure keys
    (Op LP_INSERT
      (Op LP_PROJECT columns (Op LP_SELECT (tables_plan ts)
        (Op LP_CRITERIA (malloc_lp LP_KEYS) (Op LP_SELECT_OPTIONS (Op LP_WHERE w NULL) (Leaf LP_KEYWORDS (VKeywords kw))))))
      (Op LP_OUTPUT (Leaf LP_KEY (VKey k)) NULL)) = Ret true.
Proof.
  intros Hts Hcol [Hw _]. unfold lp_verify_structure. cbn [lp_type mbind outcome_bind]. rewrite decide_False by (by intros [? ?]).
  eapply verify_operands_fit; [done|done|done| |].
  - eapply fits_op; [done|done|done|left|done|]. right. exists LP_SELECT. split; [done|]. split; [left|].
    eapply verify_both_fit; [right; left; split_and!; [done|by destruct ts|done]|done|done|apply tables_fit|].
    right. exists LP_CRITERIA. split; [done|]. split; [left|].
    eapply verify_both_fit; [right; right; split; done|done|done|right; exists LP_KEYS; split; [done|]; split; [left|reflexivity]|].
    eapply fits_op; [done|done|done|left| |right; exists LP_KEYWORDS; split; [done|]; split; [left|reflexivity]].
    eapply fits_op; [done|done|done|left|done|by left].
  - right. exists LP_OUTPUT. split; [done|]. split; [left|reflexivity].
Qed.
Lemma generate_select_verified m s sel wh words joins plan s' : select_ok m sel wh joins → words ≠ [] →
  kinds (pl_values s) = T → statement_checked sel wh joins →
  generate_select cat fuel generate (column_list_alias_STATEMENT sel) wh null_STATEMENT (keyword_STATEMENT words) joins s = Ret (plan, s') →
  lp_verify_structure keys plan = Ret true.
Proof.
  intros Hok Hwords Hk (Hsel & Hwh & Hjoins) E. unfold generate_select, generate_where in E.
  apply P_bind_inv in E as (w & s1 & E1 & E).
  destruct (where_fits keys T (subquery cat fuel generate) wh s w s1 Hk Hwh E1) as [Hk1 Hw].
  apply P_bind_inv in E as (id & s2 & [= <- <-] & E). apply P_bind_inv in E as (k & s3 & [= <- <-] & E).
  apply P_bind_inv in E as (o & s4 & [= <- <-] & E). apply P_bind_inv in E as ([sources c] & s5 & E5 & E).
  apply (joins_fit m) in E5 as (Hk5 & Hc & ->); [|apply Hok|done|exact Hk1|by left].
  apply P_bind_inv in E as (temp & s6 & E6 & E).
  assert (fits keys [LP_COLUMN_LIST] temp) as Htemp.
  { destruct sel as [|x sel]; [by destruct (so_list _ _ _ _ Hok)|]. unfold select_columns, lp_column_list_to_lp in E6.
    apply P_bind_inv in E6 as (items & s7 & E7 & [= <- <-]). apply columns_fit.
    by destruct (items_fit keys T (subquery cat fuel generate) (x :: sel) s5 items s7 Hk5 Hsel E7). }
  apply P_bind_inv in E as (wh1 & s7 & [E7 ->]%lift_inv & E).
  assert (joined_fits keys wh1 ∧ wh1 ≠ NULL) as [[->|(x & -> & Hx)] Hn]; [|done|].
  { destruct (is_null c) eqn:Ec; [injection E7 as <-; split; [right; by exists w|done]|].
    split; [by eapply join_where_fits|]. destruct Hc as [->|(y & -> & _)]; [done|]. cbn in E7.
    destruct (is_null w); [by injection E7 as <-|]. destruct (is_null y); by injection E7 as <-. }
  apply P_bind_inv in E as (wh2 & s8 & [[= <-] ->]%lift_inv & E).
  rewrite (P_bind_run _ _ _ _ _ (derive_tables _ _ _)) in E. apply P_bind_inv in E as (kw & s9 & E9 & [E10 ->]%lift_inv).
  destruct words as [|word words]; [done|]. injection E9 as <- <-. injection E10 as <-.
  change (λ j, Leaf LP_TABLE (VTableAlias (source_of j))) with ((λ p, Leaf LP_TABLE (VTableAlias p)) ∘ source_of).
  rewrite list_fmap_compose, table_join_plan.
  apply whole_plan_fits; [|done|done]. pose proof (so_some _ _ _ _ Hok). by destruct joins.
Qed.
End verified.

(** C27: The check passes what the planner makes.  For a SELECT over tables whose expressions
    are [checked] - no comparison with [>=], no operator of one operand or CASE directly
    under an operator of one operand, functions called by name - [generate_logical_plan]
    returns a plan and [lp_verify_structure] accepts it, so the query is not given up as
    not well formed. *)
Theorem select_verified cat optimize_fuel outer_join fuel s p sel wh words joins alias unique_id :
  select_ok (pl_values s) sel wh joins → words ≠ [] → statement_checked (kinds (pl_values s)) sel wh joins →
  ∃ plan s', generate_logical_plan cat optimize_fuel outer_join (S fuel) (select_stmt p sel wh words joins alias unique_id) s = Ret (plan, s') ∧
    lp_verify_structure (pl_keys s') plan = Ret true.
Proof.
  intros Hok Hwords Hch.
  destruct (generate_select_planned cat optimize_fuel outer_join fuel s p sel wh words joins alias unique_id Hok Hwords) as (q & s' & E & _).
  exists (plan_of q), s'. split; [done|].
  eapply (generate_select_verified cat optimize_fuel (generate_logical_plan cat optimize_fuel outer_join fuel) (pl_keys s') _ _ s); [exact Hok|exact Hwords|done|exact Hch|].
  rewrite <- E. cbn [generate_logical_plan generate_body select_stmt]. destruct joins as [|j joins]; [by destruct (so_some _ _ _ _ Hok)|].
  by rewrite (no_outer_join _ _ (so_joins _ _ _ _ Hok)).
Qed.
Lemma select_verified_witness :
  ∃ plan s', generate_logical_plan sample_catalog 4 no_outer 1 orders_stmt sample_store = Ret (plan, s') ∧
    lp_verify_structure (pl_keys s') plan = Ret true.
Proof.
  apply (select_verified sample_catalog 4 no_outer 0 sample_store 80 orders_select orders_where orders_words orders_joins null_STATEMENT 3);
    [exact orders_select_ok|done|].
  split; [|split].
  - constructor; [by eexists|constructor].
  - right. eexists. vm_compute. reflexivity.
  - constructor; [by left|]. constructor; [right; eexists; vm_compute; reflexivity|constructor].
Defined.
