(* ===== verification/SetPlans.v ===== *)
(** * Set operations and subqueries in FROM

    The plans of a set operation share the number of their output; what happens to the
    expressions of a query over a subquery. *)
From stdpp Require Import gmap strings.
From S2P Require Import Prelude CMem LogicalPlan LogicalPlanTheorems Dnf SqlStatement Quoting Optimize OptimizeStore FixTheorems OptimizeTheorems OptimizeRows GenerateWhere GenerateTheorems GeneratePlan PlanTheorems PlanVerified.

(** ** The outputs of a plan *)
Fixpoint outputs (plan : LogicalPlan) : option (list ptr) :=
  match plan with
  | Op LP_INSERT _ (Op LP_OUTPUT (Leaf LP_KEY (VKey k)) _) => Some [k]
  | Op LP_SET_OPERATION _ (Op LP_PLANS a b) => ka ← outputs a; kb ← outputs b; Some (ka ++ kb)
  | _ => None
  end.
Lemma outputs_cases plan ks : outputs plan = Some ks →
  (∃ project k order, plan = Op LP_INSERT project (Op LP_OUTPUT (Leaf LP_KEY (VKey k)) order) ∧ ks = [k]) ∨
  (∃ option a b ka kb, plan = Op LP_SET_OPERATION option (Op LP_PLANS a b) ∧ outputs a = Some ka ∧ outputs b = Some kb ∧ ks = ka ++ kb).
Proof.
  destruct plan as [|t a b|]; [done| |done]. destruct t; try done.
  - destruct b as [|t c d|]; try done. destruct t; try done. destruct c as [| |t v]; try done. destruct t, v; try done.
    intros [= <-]. left. eauto.
  - destruct b as [|t c d|]; try done. destruct t; try done. cbn. destruct (outputs c) as [ka|] eqn:Ea; [|done].
    destruct (outputs d) as [kb|] eqn:Eb; [|done]. intros [= <-]. right. eauto 10.
Qed.
(** Induction on the operands of set operations. *)
Section induction.
Context (Q : LogicalPlan → list ptr → Prop).
Context (Hinsert : ∀ project k order, Q (Op LP_INSERT project (Op LP_OUTPUT (Leaf LP_KEY (VKey k)) order)) [k]).
Context (Hset : ∀ option a b ka kb, outputs a = Some ka → outputs b = Some kb → Q a ka → Q b kb →
  Q (Op LP_SET_OPERATION option (Op LP_PLANS a b)) (ka ++ kb)).
Lemma outputs_ind plan ks : outputs plan = Some ks → Q plan ks.
Proof using All.
  assert (Hn : ∀ n plan ks, (lp_size plan ≤ n)%nat → outputs plan = Some ks → Q plan ks); [|by apply (Hn (lp_size plan))].
  clear plan ks. induction n as [|n IH]; intros plan ks Hs E;
    apply outputs_cases in E as [(project & k & order & -> & ->)|(o & a & b & ka & kb & -> & Ea & Eb & ->)]; cbn in Hs; try done; [lia|].
  apply Hset; [done|done|apply IH; [lia|done]..].
Qed.
End induction.

(** The output that counts is the first. *)
Lemma first_output plan ks : outputs plan = Some ks → ∃ k rest insert, ks = k :: rest ∧
  lp_drill_to_insert plan = Ret insert ∧ lp_get_output_key insert = Ret (Leaf LP_KEY (VKey k)).
Proof.
  intros E. pattern plan, ks. revert plan ks E. apply outputs_ind.
  - intros project k order. eexists _, _, _. split; [done|]. split; reflexivity.
  - intros o a b ka kb _ _ (k & rest & insert & -> & Ed & Eo) _. exists k, (rest ++ kb), insert. split; [done|]. done.
Qed.

(** ** Renumbering *)
Definition renumber (num id : Z) (ks : list ptr) (m : gmap ptr SqlKey) : gmap ptr SqlKey := fold_left (λ m p, alter (set_output num id) p m) ks m.
Lemma lookup_renumber num id ks m p : renumber num id ks m !! p = (if decide (p ∈ ks) then set_output num id <$> m !! p else m !! p).
Proof.
  revert m. induction ks as [|q ks IH]; intros m; cbn [renumber fold_left]; [by rewrite decide_False by apply not_elem_of_nil|].
  unfold renumber in IH. rewrite IH. destruct (decide (p = q)) as [->|Hn].
  - rewrite (decide_True (P := q ∈ q :: ks)) by left. rewrite lookup_alter_eq. case_decide; [|done].
    destruct (m !! q); done.
  - rewrite lookup_alter_ne by done.
    destruct (decide (p ∈ ks)); [by rewrite decide_True by by right|by rewrite decide_False by set_solver].
Qed.
Lemma renumber_app num id ks ks' m : renumber num id (ks ++ ks') m = renumber num id ks' (renumber num id ks m).
Proof. apply fold_left_app. Qed.
Lemma insert_alter (f : SqlKey → SqlKey) (m : gmap ptr SqlKey) p k : m !! p = Some k → <[p := f k]> m = alter f p m.
Proof.
  intros Hp. apply map_eq. intros i. destruct (decide (i = p)) as [->|Hn].
  - by rewrite lookup_insert_eq, lookup_alter_eq, Hp.
  - by rewrite lookup_insert_ne, lookup_alter_ne by done.
Qed.
Lemma update_plan_keys_spec key plan ks : outputs plan = Some ks → ∀ s k0, pl_keys s !! key = Some k0 →
  Forall (λ p, is_Some (pl_keys s !! p)) ks →
  lp_update_plan_keys plan key s = Ret ((), with_keys (renumber (k_key_num k0) (k_unique_id k0) ks) s).
Proof.
  intros E. pattern plan, ks. revert plan ks E. apply outputs_ind.
  - intros project k order s k0 Hk [[k' Hk'] _]%Forall_cons_1. cbn [lp_update_plan_keys].
    rewrite (P_bind_run _ _ s (Leaf LP_KEY (VKey k)) s) by done. rewrite (P_bind_run _ _ s k s) by done.
    unfold key_at, gets. rewrite (P_bind_run _ _ s k0 s) by (unfold mbind, P_bind; cbn; by rewrite Hk).
    rewrite (P_bind_run _ _ s k' s) by (unfold mbind, P_bind; cbn; by rewrite Hk').
    unfold put, with_keys. cbn. do 4 f_equal. exact (insert_alter _ _ _ _ Hk').
  - intros o a b ka kb _ _ IHa IHb s k0 Hk [Ha Hb]%Forall_app. cbn [lp_update_plan_keys].
    rewrite (P_bind_run _ _ s () s) by done. rewrite (P_bind_run _ _ _ _ _ (IHa s k0 Hk Ha)).
    set (s1 := with_keys _ s). pose proof (lookup_renumber (k_key_num k0) (k_unique_id k0) ka (pl_keys s)) as Hl.
    assert (Hk1 : ∃ k1, pl_keys s1 !! key = Some k1 ∧ k_key_num k1 = k_key_num k0 ∧ k_unique_id k1 = k_unique_id k0).
    { specialize (Hl key). case_decide; [exists (set_output (k_key_num k0) (k_unique_id k0) k0)|exists k0]; (split; [|done]);
        (etransitivity; [exact Hl|]); [|exact Hk]. etransitivity; [apply (f_equal (fmap _)); exact Hk|done]. }
    destruct Hk1 as (k1 & Hk1 & En & Ei). rewrite (IHb s1 k1 Hk1), En, Ei.
    + unfold s1, with_keys. cbn. by rewrite renumber_app.
    + eapply Forall_impl; [|exact Hb]. intros p [x Hx]. specialize (Hl p). case_decide.
      * eexists. etransitivity; [exact Hl|]. etransitivity; [apply (f_equal (fmap _)); exact Hx|done].
      * eexists. etransitivity; [exact Hl|exact Hx].
Qed.

(** C28: The plans of a set operation share their output.  When both operands have plans, the
    plan of the set operation is the one with the operator of its type over them, and all
    the selects below it write to the output number of the first select of the first
    operand: their output keys get its numbers and keep the rest, and no other key and
    nothing else in the state changes. *)
Theorem set_operation_planned cat optimize_fuel outer_join fuel type a b s pa s1 pb s2 k ks ks' k0 :
  generate_logical_plan cat optimize_fuel outer_join fuel a s = Ret (pa, s1) →
  generate_logical_plan cat optimize_fuel outer_join fuel b s1 = Ret (pb, s2) →
  outputs pa = Some (k :: ks) → outputs pb = Some ks' →
  pl_keys s2 !! k = Some k0 → Forall (λ p, is_Some (pl_keys s2 !! p)) (ks ++ ks') →
  ∃ keys, generate_logical_plan cat optimize_fuel outer_join (S fuel) (set_operation_STATEMENT type a b) s =
      Ret (Op LP_SET_OPERATION (Op LP_SET_OPTION (malloc_lp (set_action type)) NULL) (Op LP_PLANS pa pb), with_keys (λ _, keys) s2) ∧
    outputs (Op LP_SET_OPERATION (Op LP_SET_OPTION (malloc_lp (set_action type)) NULL) (Op LP_PLANS pa pb)) = Some (k :: ks ++ ks') ∧
    ∀ p, keys !! p = if decide (p ∈ k :: ks ++ ks') then set_output (k_key_num k0) (k_unique_id k0) <$> pl_keys s2 !! p else pl_keys s2 !! p.
Proof.
  intros Ea Eb Oa Ob Hk [Hks Hks']%Forall_app.
  exists (renumber (k_key_num k0) (k_unique_id k0) (k :: ks ++ ks') (pl_keys s2)).
  split; [|split; [cbn; by rewrite Oa, Ob|intros p; apply (lookup_renumber _ _ (k :: ks ++ ks'))]].
  cbn [generate_logical_plan generate_body]. unfold lp_generate_set_logical_plan.
  rewrite (P_bind_run _ _ _ _ _ Ea), (P_bind_run _ _ _ _ _ Eb).
  destruct (first_output pa _ Oa) as (k' & rest & insert & [= <- <-] & Ed & Eo). unfold lift. rewrite Ed.
  rewrite (P_bind_run _ _ s2 insert s2) by done. rewrite Eo.
  rewrite (P_bind_run _ _ s2 (Leaf LP_KEY (VKey k)) s2) by done. rewrite (P_bind_run _ _ s2 k s2) by done.
  assert (Hu : lp_update_plan_keys (Op LP_SET_OPERATION NULL (Op LP_PLANS pa pb)) k s2 =
    Ret ((), with_keys (renumber (k_key_num k0) (k_unique_id k0) (k :: ks ++ ks')) s2)).
  { apply update_plan_keys_spec; [cbn; by rewrite Oa, Ob|done|]. constructor; [by eexists|]. by apply Forall_app. }
  cbn [lp_update_plan_keys] in Hu. rewrite (P_bind_run _ _ s2 () s2) in Hu by done.
  apply P_bind_inv in Hu as ([] & s3 & Hu1 & Hu2). rewrite (P_bind_run _ _ _ _ _ Hu1), (P_bind_run _ _ _ _ _ Hu2). done.
Qed.

(** ** Samples *)
(** The query of [PlanTheorems.v], planned once more behind itself, and united with itself. *)
Definition again_planned : query :=
  Query (Op LP_COLUMN_LIST (Op LP_WHERE (OptimizeRows.column 60) (Leaf LP_COLUMN_LIST_ALIAS (VColumnListAlias 104))) NULL)
    (q_tables orders_planned) [] (q_where orders_planned) NULL 105 (Op LP_OUTPUT (Leaf LP_KEY (VKey 103)) NULL).
Definition again_state : planner :=
  match generate_logical_plan sample_catalog 4 no_outer 1 orders_stmt orders_state with Ret (_, s) => s | _ => sample_store end.
Lemma again_generated :
  generate_logical_plan sample_catalog 4 no_outer 1 orders_stmt orders_state = Ret (plan_of again_planned, again_state).
Proof. vm_compute. reflexivity. Defined.
Lemma set_operation_planned_witness :
  ∃ keys, generate_logical_plan sample_catalog 4 no_outer 2 (set_operation_STATEMENT SET_UNION_ALL orders_stmt orders_stmt) sample_store =
      Ret (Op LP_SET_OPERATION (Op LP_SET_OPTION (malloc_lp LP_SET_UNION_ALL) NULL) (Op LP_PLANS (plan_of orders_planned) (plan_of again_planned)),
           with_keys (λ _, keys) again_state) ∧
    k_unique_id <$> keys !! 103 = Some 4.
Proof.
  assert (H100 : pl_keys again_state !! 100 = Some (output_key_of 4)) by (vm_compute; reflexivity).
  assert (H103 : pl_keys again_state !! 103 = Some (output_key_of 5)) by (vm_compute; reflexivity).
  destruct (set_operation_planned sample_catalog 4 no_outer 1 SET_UNION_ALL orders_stmt orders_stmt sample_store (plan_of orders_planned) orders_state
    (plan_of again_planned) again_state 100 [] [103] (output_key_of 4) orders_generated again_generated eq_refl eq_refl H100) as (keys & Eg & _ & Hk).
  { constructor; [|constructor]. eexists. exact H103. }
  exists keys. split; [exact Eg|]. rewrite Hk. vm_compute. reflexivity.
Defined.

(** ** References to a subquery *)
(** The name a column reference has in the select list of the subquery. *)
Definition reference_name (m : values) (column : SqlStatement) : outcome (list byte) :=
  match column with
  | column_STATEMENT (Column _ columnName _ _ _ :: _) => name_of m columnName
  | column_list_alias_STATEMENT (ColumnListAlias _ _ alias _ _ :: _) => name_of m alias
  | _ => Undef WrongMember
  end.
Definition element_name (m : values) (c : SqlColumnListAlias) : outcome (list byte) :=
  match c with ColumnListAlias _ _ alias _ _ => name_of m alias end.
(** [n] counts the elements up to the first with the name. *)
Definition position (m : values) (name : list byte) (ring : list SqlColumnListAlias) (n : Z) : Prop :=
  ∃ before c after, ring = before ++ c :: after ∧ n = zlen before + 1 ∧ element_name m c = Ret name ∧
    Forall (λ c', ∃ name', element_name m c' = Ret name' ∧ name' ≠ name) before.
Lemma find_piece_position m name ring : ∀ part n, find_piece m name part ring = Ret n ↔ position m name ring (n - part + 1).
Proof.
  induction ring as [|[p l a k t] ring IH]; intros part n; cbn [find_piece].
  { split; [done|]. intros (before & c & after & E & _). by destruct before. }
  split.
  - intros E. apply bind_ret_inv in E as (name' & En & E). case_decide as Hd.
    + injection E as <-. subst name'. exists [], (ColumnListAlias p l a k t), ring. split_and!; [done|rewrite zlen_nil; lia|done|constructor].
    + apply IH in E as (before & c & after & -> & Hn & Hc & HF). exists (ColumnListAlias p l a k t :: before), c, after.
      split_and!; [done|rewrite zlen_cons; lia|done|]. constructor; [by exists name'|done].
  - intros (before & c & after & E & Hn & Hc & HF). destruct before as [|c' before].
    + injection E as <- <-. cbn in Hc. rewrite Hc. cbn [mbind outcome_bind]. rewrite decide_True by done. f_equal. rewrite zlen_nil in Hn. lia.
    + injection E as <- ->. apply Forall_cons_1 in HF as [(name' & En & Hne) HF]. cbn in En. rewrite En. cbn [mbind outcome_bind].
      rewrite decide_False by done. apply IH. exists before, c, after. rewrite zlen_cons in Hn. split_and!; [done|lia|done|done].
Qed.

(** A plan in which the references of a subquery can be replaced: no subquery, no CASE and
    no sum in the places that are looked at. *)
Fixpoint replaceable (p : LogicalPlan) : bool :=
  match p with
  | NULL => true
  | Leaf LP_COLUMN_ALIAS (VColumnAlias _) | Leaf LP_VALUE _ => true
  | Leaf _ _ => false
  | Op LP_WHERE a _ => replaceable a
  | Op LP_DERIVED_COLUMN _ _ => true
  | Op LP_COLUMN_ALIAS _ _ | Op LP_VALUE _ _ | Op LP_SET_OPERATION _ _ => false
  | Op t a b =>
      (bool_decide (t = LP_COLUMN_LIST ∨ t = LP_FUNCTION_CALL) || (lp_action_value LP_ADDITION <? lp_action_value t)) &&
      replaceable a && replaceable b
  end.
(** The plan with each reference replaced by what [f] gives for it. *)
Fixpoint with_references (f : ptr → LogicalPlan) (p : LogicalPlan) : LogicalPlan :=
  match p with
  | Leaf LP_COLUMN_ALIAS (VColumnAlias q) => f q
  | Op LP_WHERE a b => Op LP_WHERE (with_references f a) b
  | Op LP_DERIVED_COLUMN a b => p
  | Op t a b => Op t (with_references f a) (with_references f b)
  | _ => p
  end.
Fixpoint references (p : LogicalPlan) : list ptr :=
  match p with
  | Leaf LP_COLUMN_ALIAS (VColumnAlias q) => [q]
  | Op LP_WHERE a _ => references a
  | Op LP_DERIVED_COLUMN _ _ => []
  | Op _ a b => references a ++ references b
  | _ => []
  end.
(** What becomes of a reference: a piece of the subquery's output if it is one of its
    columns, itself if not. *)
Definition replaces (s : planner) (id : Z) (ring : list SqlColumnListAlias) (key q : ptr) (r : LogicalPlan) : Prop :=
  ∃ column owner owner_id l, pl_column_aliases s !! q = Some (column, owner) ∧ alias_fields owner = Ret (owner_id, l) ∧
    (if decide (owner_id = id) then
       ∃ name n, reference_name (pl_values s) column = Ret name ∧ position (pl_values s) name ring n ∧ r = derived_column key n
     else r = Leaf LP_COLUMN_ALIAS (VColumnAlias q)).
Lemma piece_number m column ring name n : reference_name m column = Ret name → position m name ring n →
  get_column_piece_number m column (column_list_alias_STATEMENT ring) = Ret n.
Proof.
  intros Hr Hp. assert (Hf : find_piece m name 1 ring = Ret n) by (apply find_piece_position; by replace (n - 1 + 1) with n by lia).
  unfold get_column_piece_number. destruct ring as [|c0 ring]; [done|].
  destruct column as [| | | | | | | | | |cs| | | | | |cs| | | | | | | | | | | |]; try done; (destruct cs as [|[] cs]; [done|]); cbn in Hr.
  - destruct columnName; try done; cbn [is_null_stmt]; rewrite Hr; cbn [mbind outcome_bind]; exact Hf.
  - rewrite Hr. cbn [mbind outcome_bind]. exact Hf.
Qed.
Lemma replace_leaf s id ring key q r : replaces s id ring key q r →
  lp_replace_helper (Leaf LP_COLUMN_ALIAS (VColumnAlias q)) (id, column_list_alias_STATEMENT ring) key s = Ret (r, s).
Proof.
  intros (column & owner & owner_id & l & Hq & Ho & Hr). cbn [lp_replace_helper].
  rewrite (P_bind_run _ _ s (column, owner) s) by (unfold mbind, P_bind; cbn; by rewrite Hq).
  unfold lift. rewrite Ho. rewrite (P_bind_run _ _ s (owner_id, l) s) by done. cbn [fst snd]. case_decide.
  - destruct Hr as (name & n & Hn & Hp & ->). unfold gets. rewrite (P_bind_run _ _ s (pl_values s) s) by done.
    by rewrite (piece_number _ _ _ _ _ Hn Hp), (P_bind_run _ _ s n s).
  - by subst r.
Qed.

(** C29: References to a subquery.  In a plan without sums, CASE or subqueries where it is
    looked at, [lp_replace_helper] replaces each reference to a column of the subquery by
    the piece of the subquery's output at the position of the first element of its select
    list with that column's name, and leaves everything else, and the state, as it is. *)
Theorem derived_references s id ring key f p :
  replaceable p = true → Forall (λ q, replaces s id ring key q (f q)) (references p) →
  lp_replace_helper p (id, column_list_alias_STATEMENT ring) key s = Ret (with_references f p, s).
Proof.
  induction p as [|t a IHa b IHb|t v]; intros Hr HF; [done| |].
  - assert (Hboth : replaceable a = true → replaceable b = true → Forall (λ q, replaces s id ring key q (f q)) (references a ++ references b) →
      (x ← lp_replace_helper a (id, column_list_alias_STATEMENT ring) key; y ← lp_replace_helper b (id, column_list_alias_STATEMENT ring) key; mret (Op t x y)) s
        = Ret (Op t (with_references f a) (with_references f b), s)).
    { intros Ha Hb [Fa Fb]%Forall_app. by rewrite (P_bind_run _ _ _ _ _ (IHa Ha Fa)), (P_bind_run _ _ _ _ _ (IHb Hb Fb)). }
    destruct t; try done;
      try (cbn in Hr; apply andb_true_iff in Hr as [Ha Hb]; cbn [references] in HF; exact (Hboth Ha Hb HF)).
    cbn in Hr, HF |- *. by rewrite (P_bind_run _ _ _ _ _ (IHa Hr HF)).
  - destruct t; try done. destruct v; try done. apply Forall_cons_1 in HF as [Hq _]. by apply replace_leaf.
Qed.

(** [SELECT d.ID op d.ID FROM (the query above) d] *)
Definition derived_store : planner := with_column_aliases (<[66 := (column_list_alias_STATEMENT orders_select, orders_stmt)]>) sample_store.
Definition derived_ref : SqlStatement := column_alias_STATEMENT 66 (column_list_alias_STATEMENT orders_select) orders_stmt.
Definition derived_stmt (o : BinaryOperations) : SqlStatement :=
  select_stmt 81 [ColumnListAlias 71 (column_list_STATEMENT [binary_STATEMENT o derived_ref derived_ref]) (OptimizeRows.named 2) null_STATEMENT NUMBER_LITERAL]
    null_STATEMENT orders_words [Join orders_stmt null_STATEMENT NO_JOIN] null_STATEMENT 4.
Lemma derived_references_witness :
  lp_replace_helper (Op LP_SUBTRACTION (OptimizeRows.column 66) (OptimizeRows.column 60)) (3, column_list_alias_STATEMENT orders_select) 100 derived_store =
    Ret (Op LP_SUBTRACTION (derived_column 100 1) (OptimizeRows.column 60), derived_store).
Proof.
  apply (derived_references derived_store 3 orders_select 100 (λ q, if q =? 66 then derived_column 100 1 else OptimizeRows.column q)
    (Op LP_SUBTRACTION (OptimizeRows.column 66) (OptimizeRows.column 60))); [reflexivity|].
  constructor; [|constructor; [|constructor]].
  - exists (column_list_alias_STATEMENT orders_select), orders_stmt, 3, (column_list_alias_STATEMENT orders_select). split; [vm_compute; reflexivity|].
    split; [reflexivity|]. rewrite decide_True by reflexivity. exists (lit "ID"), 1. split; [vm_compute; reflexivity|]. split; [|reflexivity].
    exists [], (ColumnListAlias 70 (column_list_STATEMENT [alias_stmt 60 col_id (orders_as 30 1)]) (OptimizeRows.named 2) null_STATEMENT NUMBER_LITERAL), [].
    split; [reflexivity|]. split; [reflexivity|]. split; [vm_compute; reflexivity|constructor].
  - exists (column_STATEMENT [col_id]), (orders_as 30 1), 1, null_STATEMENT. split; [vm_compute; reflexivity|]. split; [reflexivity|].
    by rewrite decide_False by done.
Defined.
(** The check that every operator is greater than LP_ADDITION is one off: a sum over the
    columns of a subquery ends the process, a difference is planned. *)
Theorem sum_over_subquery_aborts :
  generate_logical_plan sample_catalog 4 no_outer 2 (derived_stmt ADDITION) derived_store = Halt AssertFailed ∧
  (∃ plan s', generate_logical_plan sample_catalog 4 no_outer 2 (derived_stmt SUBTRACTION) derived_store = Ret (plan, s') ∧
     lp_verify_structure (pl_keys s') plan = Ret true) ∧
  ∀ a b alias key s, lp_replace_helper (Op LP_ADDITION a b) alias key s = Halt AssertFailed.
Proof.
  split; [vm_compute; reflexivity|]. split; [|done].
  exists (match generate_logical_plan sample_catalog 4 no_outer 2 (derived_stmt SUBTRACTION) derived_store with Ret (p, _) => p | _ => NULL end),
    (match generate_logical_plan sample_catalog 4 no_outer 2 (derived_stmt SUBTRACTION) derived_store with Ret (_, s) => s | _ => sample_store end).
  split; vm_compute; reflexivity.
Qed.
