(* ===== verification/PhysicalPlan.v ===== *)
(** * Physical plans

    [physical/physical_plan.h] and [physical/generate_physical_plan.c]: a logical plan
    becomes a list of physical plans, one for each SELECT in it, in which a plan comes
    after those it reads.  The list is doubly linked and grows at its front: [last_plan]
    points to the plan made last.

    The logical plan is only read here, but for the subqueries of its conditions, which
    [walk_where_statement] replaces by the keys of their output; the keys, aliases and
    keywords it points to are those of the planner.  The plans are in a store of their own,
    by address.  The log message for an owner that is not found is counted.

    A logical plan is a tree here.  The optimiser shares the conditions common to the plans of
    an OR between them, and a subquery in such a condition is replaced in place: it is planned
    with the plan of the OR that is made first and runs last, and the others find its key.
    The model is of the plans in which no subquery is shared so ([subqueries]). *)
From stdpp Require Import gmap strings.
From S2P Require Import Prelude CMem LogicalPlan SqlStatement Optimize.

Inductive PPActionType := PP_PROJECT | PP_DELETE | PP_ADVANCE.
Inductive PPSetOperation := PP_NOT_SET | PP_UNION_SET | PP_EXCEPT_SET | PP_INTERSECT_SET.
#[export] Instance PPActionType_eq_dec : EqDecision PPActionType.
Proof. solve_decision. Defined.
#[export] Instance PPSetOperation_eq_dec : EqDecision PPSetOperation.
Proof. solve_decision. Defined.

(** [iterKeys] is an array of which the first [total_iter_keys] are set, the others NULL. *)
Definition MAX_KEY_COUNT : nat := 255.
Record PhysicalPlan := PP {
  plan_name : list byte;
  filename : list byte;
  prev : ptr;
  next : ptr;
  iterKeys : list ptr;
  outputKey : ptr;
  outputTable : ptr;
  where_ : LogicalPlan;
  projection : LogicalPlan;
  order_by : LogicalPlan;
  keywords : ptr;
  stash_columns_in_keys : bool;
  is_cross_reference_key : bool;
  maintain_columnwise_index : bool;
  distinct_values : bool;
  action_type : PPActionType;
  set_operation : PPSetOperation;
  deferred_plan : bool;
  parent_plan : ptr;
  emit_duplication_check : bool;
}.
Definition total_iter_keys (p : PhysicalPlan) : nat := length (iterKeys p).
(** [parent] and [stash_columns_in_keys]; all share one [last_plan]. *)
Record PhysicalPlanOptions := { parent : ptr; stash : bool }.

(** What [octo_cmalloc] returns, zeroed, with its first two assignments. *)
Definition new_plan (parent next : ptr) : PhysicalPlan :=
  PP [] [] null next [] null null NULL NULL NULL null false false false false PP_PROJECT PP_NOT_SET false parent false.

(** Assignments to the members of a plan. *)
Definition set_prev (q : ptr) '(PP nm f _ nx ik ok ot w pj ob kw st xr mi dv at_ so df pa du) :=
  PP nm f q nx ik ok ot w pj ob kw st xr mi dv at_ so df pa du.
Definition set_names (name file : list byte) '(PP _ _ pr nx ik ok ot w pj ob kw st xr mi dv at_ so df pa du) :=
  PP name file pr nx ik ok ot w pj ob kw st xr mi dv at_ so df pa du.
Definition set_output (key table : ptr) (xref : bool) '(PP nm f pr nx ik _ _ w pj ob kw st _ mi dv at_ so df pa du) :=
  PP nm f pr nx ik key table w pj ob kw st xref mi dv at_ so df pa du.
Definition set_order_by (order : LogicalPlan) '(PP nm f pr nx ik ok ot w pj _ kw st xr mi dv at_ so df pa du) :=
  PP nm f pr nx ik ok ot w pj order kw st xr mi dv at_ so df pa du.
Definition set_iterKeys (keys : list ptr) '(PP nm f pr nx _ ok ot w pj ob kw st xr mi dv at_ so df pa du) :=
  PP nm f pr nx keys ok ot w pj ob kw st xr mi dv at_ so df pa du.
Definition set_where (c : LogicalPlan) '(PP nm f pr nx ik ok ot _ pj ob kw st xr mi dv at_ so df pa du) :=
  PP nm f pr nx ik ok ot c pj ob kw st xr mi dv at_ so df pa du.
Definition set_projection (columns : LogicalPlan) '(PP nm f pr nx ik ok ot w _ ob kw st xr mi dv at_ so df pa du) :=
  PP nm f pr nx ik ok ot w columns ob kw st xr mi dv at_ so df pa du.
Definition set_keywords (ks : ptr) '(PP nm f pr nx ik ok ot w pj ob _ st xr mi dv at_ so df pa du) :=
  PP nm f pr nx ik ok ot w pj ob ks st xr mi dv at_ so df pa du.
Definition set_stash (b : bool) '(PP nm f pr nx ik ok ot w pj ob kw _ xr mi dv at_ so df pa du) :=
  PP nm f pr nx ik ok ot w pj ob kw b xr mi dv at_ so df pa du.
Definition set_distinct '(PP nm f pr nx ik ok ot w pj ob kw st xr _ _ at_ so df pa du) :=
  PP nm f pr nx ik ok ot w pj ob kw st xr true true at_ so df pa du.
Definition set_index '(PP nm f pr nx ik ok ot w pj ob kw st xr _ dv at_ so df pa du) :=
  PP nm f pr nx ik ok ot w pj ob kw st xr true dv at_ so df pa du.
Definition set_action (so : PPSetOperation) (a : PPActionType) '(PP nm f pr nx ik ok ot w pj ob kw st xr mi dv _ _ df pa du) :=
  PP nm f pr nx ik ok ot w pj ob kw st xr mi dv a so df pa du.
Definition set_deferred '(PP nm f pr nx ik ok ot w pj ob kw st xr mi dv at_ so _ pa du) :=
  PP nm f pr nx ik ok ot w pj ob kw st xr mi dv at_ so true pa du.
Definition set_duplication_check '(PP nm f pr nx ik ok ot w pj ob kw st xr mi dv at_ so df pa _) :=
  PP nm f pr nx ik ok ot w pj ob kw st xr mi dv at_ so df pa true.

(** ** State *)
Record phys := {
  ph_plans : gmap ptr PhysicalPlan;
  ph_next : ptr;                       (* the address [octo_cmalloc] gives next *)
  ph_last : ptr;                       (* [*last_plan] *)
  ph_warnings : nat;
}.
Definition G (A : Type) : Type := phys → outcome (A * phys).
#[export] Instance G_ret : MRet G := λ A x s, Ret (x, s).
#[export] Instance G_bind : MBind G := λ A B f x s, '(a, s) ← x s; f a s.
Definition glift {A} (o : outcome A) : G A := λ s, a ← o; Ret (a, s).
Definition ggets {A} (f : phys → A) : G A := λ s, Ret (f s, s).
Definition with_plans (f : gmap ptr PhysicalPlan → gmap ptr PhysicalPlan) (s : phys) : phys :=
  {| ph_plans := f (ph_plans s); ph_next := ph_next s; ph_last := ph_last s; ph_warnings := ph_warnings s |}.
Definition plan_at (p : ptr) : G PhysicalPlan := λ s, q ← found (ph_plans s !! p); Ret (q, s).
(** An assignment through a pointer to a plan. *)
Definition update (p : ptr) (f : PhysicalPlan → PhysicalPlan) : G () := λ s,
  q ← found (ph_plans s !! p);
  Ret ((), with_plans (<[p := f q]>) s).
Definition warning : G () := λ s,
  Ret ((), {| ph_plans := ph_plans s; ph_next := ph_next s; ph_last := ph_last s; ph_warnings := S (ph_warnings s) |}).
(** A plan is made and put in front of the list. *)
Definition push_plan (parent : ptr) : G ptr := λ s,
  let out := ph_next s in
  let last := ph_last s in
  plans ← (if decide (last = null) then Ret (ph_plans s)
           else l ← found (ph_plans s !! last); Ret (<[last := set_prev out l]> (ph_plans s)));
  Ret (out, {| ph_plans := <[out := new_plan parent last]> plans; ph_next := out + 1; ph_last := out; ph_warnings := ph_warnings s |}).

(** ** Operations *)
(** What the switches on the type of a set operation do to the second plan, and whether
    rows are kept unique. *)
Definition set_operation_action (t : LPActionType) : outcome (PPSetOperation * PPActionType * bool) :=
  match t with
  | LP_SET_UNION => Ret (PP_UNION_SET, PP_PROJECT, true)
  | LP_SET_UNION_ALL => Ret (PP_UNION_SET, PP_PROJECT, false)
  | LP_SET_EXCEPT => Ret (PP_EXCEPT_SET, PP_DELETE, true)
  | LP_SET_EXCEPT_ALL => Ret (PP_EXCEPT_SET, PP_DELETE, false)
  | LP_SET_INTERSECT => Ret (PP_INTERSECT_SET, PP_DELETE, true)
  | LP_SET_INTERSECT_ALL => Ret (PP_INTERSECT_SET, PP_DELETE, false)
  | _ => Halt AssertFailed
  end.
Definition mark_unique (distinct : bool) : PhysicalPlan → PhysicalPlan := if distinct then set_distinct else set_index.

(** [out->iterKeys[out->total_iter_keys] = key; out->total_iter_keys++] *)
Definition push_key (out key : ptr) : G () :=
  p ← plan_at out;
  if decide (total_iter_keys p < MAX_KEY_COUNT)%nat then update out (set_iterKeys (iterKeys p ++ [key]))
  else glift (Undef OutOfBounds).
Fixpoint iterate_keys (out : ptr) (plan : LogicalPlan) : G () :=
  _ ← glift (t ← lp_type plan; c_assert (bool_decide (t = LP_KEYS)));
  first ← glift (get_lp plan false LP_KEY);
  key ← glift (lp_key first);
  _ ← push_key out key;
  match plan with
  | Op _ _ NULL => mret ()
  | Op _ _ rest => _ ← glift (get_lp plan true LP_KEYS); iterate_keys out rest
  | _ => glift (Undef WrongMember)
  end.
Definition lp_keywords (p : LogicalPlan) : outcome ptr :=
  match p with
  | NULL => Undef NullPointer
  | Leaf _ (VKeywords k) => Ret k
  | Op _ NULL _ => Ret null
  | _ => Undef WrongMember
  end.
Definition lp_table_alias (p : LogicalPlan) : outcome ptr :=
  match p with
  | NULL => Undef NullPointer
  | Leaf _ (VTableAlias k) => Ret k
  | Op _ NULL _ => Ret null
  | _ => Undef WrongMember
  end.

Section physical.
Context (s : planner).

Definition pkey (p : ptr) : outcome SqlKey := found (pl_keys s !! p).
(** The loop over [cur->iterKeys], bounded by the keys of [out]. *)
Fixpoint key_index (bound : nat) (keys : list ptr) (unique_id : Z) : outcome nat :=
  match bound, keys with
  | O, _ => Ret O
  | S _, [] => Undef NullPointer
  | S bound', p :: keys' =>
      k ← pkey p;
      if decide (k_unique_id k = unique_id) then Ret O
      else i ← key_index bound' keys' unique_id; Ret (S i)
  end.
(** The loop from [cur] towards the root, marking the plans that do not own the column. *)
Fixpoint mark_deferred (fuel bound : nat) (cur : ptr) (unique_id : Z) : G () :=
  match fuel with
  | O => λ _, NoFuel
  | S fuel' =>
      if decide (cur = null) then warning
      else
        c ← plan_at cur;
        i ← glift (key_index bound (iterKeys c) unique_id);
        if decide (i ≠ total_iter_keys c) then mret ()
        else _ ← update cur set_deferred; mark_deferred fuel' bound (parent_plan c) unique_id
  end.
(** A column of a condition of [out]. *)
Definition walk_column (out column_alias : ptr) : G () :=
  '(_, owner) ← glift (found (pl_column_aliases s !! column_alias));
  unique_id ← glift (match owner with
    | null_STATEMENT => Undef NullPointer
    | table_alias_STATEMENT _ _ _ unique_id _ => Ret unique_id
    | _ => Halt AssertFailed
    end);
  plans ← ggets ph_plans;
  o ← plan_at out;
  mark_deferred (S (S (size plans))) (total_iter_keys o) out unique_id.

Section body.
Context (generate : LogicalPlan → PhysicalPlanOptions → G ptr).

(** LP_ADDITION to LP_BOOLEAN_NOT_IN, and LP_FORCE_NUM to LP_BOOLEAN_NOT. *)
Definition binary_type (t : LPActionType) : bool :=
  (lp_action_value LP_ADDITION <=? lp_action_value t) && (lp_action_value t <=? lp_action_value LP_BOOLEAN_NOT_IN).
Definition unary_type (t : LPActionType) : bool :=
  (lp_action_value LP_FORCE_NUM <=? lp_action_value t) && (lp_action_value t <=? lp_action_value LP_BOOLEAN_NOT).
(** A subquery is planned, and its output key takes its place. *)
Definition walk_subquery (options : PhysicalPlanOptions) (stmt : LogicalPlan) : G LogicalPlan :=
  new_plan ← generate stmt {| parent := parent options; stash := true |};
  p ← plan_at new_plan;
  mret (Leaf LP_KEY (VKey (outputKey p))).
Fixpoint walk_where_statement (options : PhysicalPlanOptions) (stmt : LogicalPlan) : G LogicalPlan :=
  match stmt with
  | NULL => mret NULL
  | Op t a b =>
      let first := a ← walk_where_statement options a; mret (Op t a b) in
      let both := a ← walk_where_statement options a; b ← walk_where_statement options b; mret (Op t a b) in
      if binary_type t then both
      else if unary_type t then first
      else match t with
      | LP_KEY | LP_DERIVED_COLUMN | LP_VALUE => mret stmt
      | LP_WHERE => first
      | LP_COLUMN_ALIAS => glift (Undef NullPointer)
      | LP_INSERT | LP_SET_OPERATION => walk_subquery options stmt
      | LP_FUNCTION_CALL | LP_COLUMN_LIST | LP_CASE | LP_CASE_STATEMENT | LP_CASE_BRANCH
      | LP_CASE_BRANCH_STATEMENT => both
      | _ => glift (Halt FatalExit)
      end
  | Leaf t v =>
      if binary_type t || unary_type t then glift (Undef WrongMember)
      else match t with
      | LP_KEY | LP_DERIVED_COLUMN | LP_VALUE => mret stmt
      | LP_COLUMN_ALIAS =>
          match v with
          | VColumnAlias p => _ ← walk_column (parent options) p; mret stmt
          | _ => glift (Undef WrongMember)
          end
      | LP_INSERT | LP_SET_OPERATION => walk_subquery options stmt
      | LP_WHERE | LP_FUNCTION_CALL | LP_COLUMN_LIST | LP_CASE | LP_CASE_STATEMENT
      | LP_CASE_BRANCH | LP_CASE_BRANCH_STATEMENT => glift (Undef WrongMember)
      | _ => glift (Halt FatalExit)
      end
  end.

(** The plans of the subqueries in FROM. *)
Fixpoint join_plans (options : PhysicalPlanOptions) (table_joins : LogicalPlan) : G () :=
  match table_joins with
  | NULL => mret ()
  | Leaf _ _ => glift (Undef WrongMember)
  | Op _ NULL _ => mret ()
  | Op _ source rest =>
      t ← glift (lp_type source);
      _ ← (if decide (t = LP_INSERT ∨ t = LP_SET_OPERATION) then _ ← generate source options; mret ()
           else mret () : G ());
      join_plans options rest
  end.

Definition generate_set (plan : LogicalPlan) (options : PhysicalPlanOptions) : G ptr :=
  plans ← glift (operand plan true);
  b ← glift (operand plans true);
  out ← generate b options;
  a ← glift (operand plans false);
  prev ← generate a options;
  option ← glift (operand plan false);
  t ← glift (operand option false);
  t ← glift (lp_type t);
  '(op, action, distinct) ← glift (set_operation_action t);
  _ ← update out (set_action op action);
  _ ← update out (mark_unique distinct);
  _ ← update prev (mark_unique distinct);
  mret prev.

(** The key, or the table, the rows go to. *)
Definition plan_output (out : ptr) (output : LogicalPlan) : G () :=
  first ← glift (operand output false);
  t ← glift (lp_type first);
  _ ← (if decide (t = LP_KEY) then
         k ← glift (lp_key first);
         key ← glift (pkey k);
         update out (set_output k null (k_is_cross_reference_key key))
       else if decide (t = LP_TABLE) then
         table ← glift (b ← operand output true; lp_table_alias b);
         update out (set_output null table false)
       else glift (Halt AssertFailed) : G ());
  order ← glift (operand output true);
  if is_null order then mret ()
  else order ← glift (get_lp output true LP_COLUMN_LIST); update out (set_order_by order).
Definition plan_keys (out : ptr) (plan : LogicalPlan) : G () :=
  keys ← glift (lp_get_keys plan);
  first ← glift (operand keys false);
  o ← plan_at out;
  _ ← glift (c_assert (bool_decide (0 < total_iter_keys o)%nat || negb (is_null first)));
  if is_null first then mret () else iterate_keys out keys.
(** Only the first column of the select list is walked.  It is changed in place, so the
    list read afterwards has it; were it a subquery, the list would keep it. *)
Definition plan_projection (options : PhysicalPlanOptions) (out : ptr) (plan : LogicalPlan) : G () :=
  project ← glift (lp_get_project plan);
  columns ← glift (operand project false);
  column ← glift (operand columns false);
  walked ← walk_where_statement options column;
  _ ← update out (set_projection walked);
  ks ← glift (k ← lp_get_select_keywords plan; lp_keywords k);
  _ ← update out (set_keywords ks);
  columns ← glift (lp_get_projection_columns plan);
  columns ← (match column with
             | Op LP_INSERT _ _ | Op LP_SET_OPERATION _ _ | Leaf _ _ => mret columns
             | _ => glift (set_operand columns false walked)
             end : G LogicalPlan);
  update out (set_projection columns).
Definition plan_keywords (out : ptr) (plan : LogicalPlan) : G () :=
  ks ← glift (k ← lp_get_select_keywords plan; lp_keywords k);
  ring ← glift (found (pl_keywords s !! ks));
  _ ← (if decide (OPTIONAL_DISTINCT ∈ ring) then update out set_distinct else mret () : G ());
  if decide (OPTIONAL_PART_OF_EXPANSION ∈ ring) then update out set_duplication_check else mret ().

Definition generate_insert (plan : LogicalPlan) (options : PhysicalPlanOptions) : G ptr :=
  ok ← glift (lp_verify_structure (pl_keys s) plan);
  if negb ok then glift (Halt FatalExit)
  else
    out ← push_plan (parent options);
    let curr_plan := {| parent := out; stash := stash options |} in
    output ← glift (get_lp plan true LP_OUTPUT);
    _ ← plan_output out output;
    select ← glift (lp_get_select plan);
    table_joins ← glift (get_lp select false LP_TABLE_JOIN);
    _ ← join_plans curr_plan table_joins;
    _ ← plan_keys out plan;
    w ← glift (lp_get_select_where plan);
    w ← walk_where_statement curr_plan w;
    _ ← update out (set_where w);
    _ ← plan_projection curr_plan out plan;
    _ ← plan_keywords out plan;
    _ ← update out (set_stash (stash options));
    mret out.

Definition generate_physical_body (plan : LogicalPlan) (options : PhysicalPlanOptions) : G ptr :=
  t ← glift (lp_type plan);
  if decide (t = LP_SET_OPERATION) then generate_set plan options else generate_insert plan options.
End body.

(** [fuel]: how deep plans are nested in [plan]. *)
Fixpoint generate_physical_plan (fuel : nat) (plan : LogicalPlan) (options : PhysicalPlanOptions) : G ptr :=
  match fuel with
  | O => λ _, NoFuel
  | S fuel' => generate_physical_body (generate_physical_plan fuel') plan options
  end.
End physical.

(** The subqueries in the conditions and columns of a plan, those in each other included.  Where
    the optimiser shared one, it is in this list more than once. *)
Fixpoint subqueries (inside : bool) (p : LogicalPlan) : list LogicalPlan :=
  match p with
  | Op t a b =>
      let plan := bool_decide (t = LP_INSERT ∨ t = LP_SET_OPERATION) in
      let inside' := bool_decide (t = LP_WHERE) || inside && negb plan in
      (if inside && plan then [p] else []) ++ subqueries inside' a ++ subqueries inside' b
  | _ => []
  end.

(** The list before a query, and the options it is planned with ([emit_select_statement]). *)
Definition phys0 (next : ptr) : phys := {| ph_plans := ∅; ph_next := next; ph_last := null; ph_warnings := 0 |}.
Definition options0 : PhysicalPlanOptions := {| parent := null; stash := false |}.
