(* ===== verification/PlanRun.v ===== *)
(** * What a physical plan does when it runs

    [m_templates/tmpl_physical_plan.ctemplate] turns a physical plan into an M routine: loops
    over the keys, the condition, and lines that store, remove or mark the row at hand in the
    cursor.  Here are those lines, as a function of the plan and of the cursor, for the plans
    that put their rows below an output key: [run_plan] is undefined for the plan of a cross
    reference, one with an ORDER BY and one whose columns become keys.

    The rows the loops and the condition let through, each with the values of the plan's keys,
    are a parameter ([rows]); a plan with a LIMIT, whose loops look at the cursor, has none such.
    The rows of one query have as many columns each, so the index of one row is not below that
    of another. *)
From stdpp Require Import gmap strings.
From S2P Require Import Prelude CMem LogicalPlan SqlStatement Optimize PhysicalPlan.

Section run.
Context {Key Row : Type} `{Countable Key} `{Countable Row}.
Context (rows : list ptr → LogicalPlan → LogicalPlan → list (Key * Row)).
(** The order of the database over the subscripts, and the number, if any, that the last column
    of a row is. *)
Context (collate : gmap Row (Z * list Z) → list (Row * (Z * list Z))) (last_column : Row → option Z).

(** What is below a cursor: the rows at the output key by number, and the value of the key
    itself, which counts them; "index", by row: a count, and the numbers below it; "dupl". *)
Record cursor := {
  c_rows : gmap Z Row;
  c_counter : Z;
  c_index : gmap Row (Z * list Z);
  c_seen : gset Key;
}.
Definition empty_cursor : cursor := {| c_rows := ∅; c_counter := 0; c_index := ∅; c_seen := ∅ |}.

(** The conditions after that of the query: [$DATA(...("index",row))=0] and
    [$DATA(...("dupl",keys))=0]. *)
Definition passes (pp : PhysicalPlan) (k : Key) (r : Row) (c : cursor) : bool :=
  negb (distinct_values pp && bool_decide (set_operation pp ≠ PP_EXCEPT_SET) && bool_decide (set_operation pp ≠ PP_INTERSECT_SET)
        && bool_decide (is_Some (c_index c !! r))) &&
  negb (emit_duplication_check pp && bool_decide (k ∈ c_seen c)).
(** [SET v=$ORDER(index(row,"")) KILL:v'="" output(v),index(row,v)] for EXCEPT; otherwise
    [$INCREMENT(output)], and unless this is an INTERSECT the row is stored. *)
Definition output_row (pp : PhysicalPlan) (r : Row) (c : cursor) : cursor :=
  match set_operation pp with
  | PP_EXCEPT_SET =>
      match c_index c !! r with
      | Some (count, v :: vs) =>
          {| c_rows := delete v (c_rows c); c_counter := c_counter c; c_index := <[r := (count, vs)]> (c_index c); c_seen := c_seen c |}
      | _ => c
      end
  | PP_INTERSECT_SET =>
      {| c_rows := c_rows c; c_counter := c_counter c + 1; c_index := c_index c; c_seen := c_seen c |}
  | _ =>
      {| c_rows := <[c_counter c + 1 := r]> (c_rows c); c_counter := c_counter c + 1; c_index := c_index c; c_seen := c_seen c |}
  end.
Definition mark_seen (pp : PhysicalPlan) (k : Key) (c : cursor) : cursor :=
  if emit_duplication_check pp
  then {| c_rows := c_rows c; c_counter := c_counter c; c_index := c_index c; c_seen := {[k]} ∪ c_seen c |}
  else c.
(** [KILL index(row)] for INTERSECT; [SET index(row,output)=""] and [$INCREMENT(index(row))]. *)
Definition maintain_index (pp : PhysicalPlan) (r : Row) (c : cursor) : cursor :=
  if maintain_columnwise_index pp && bool_decide (set_operation pp ≠ PP_EXCEPT_SET) then
    let index := if decide (set_operation pp = PP_INTERSECT_SET) then delete r (c_index c)
                 else let '(count, vs) := default (0, []) (c_index c !! r) in <[r := (count + 1, vs ++ [c_counter c])]> (c_index c) in
    {| c_rows := c_rows c; c_counter := c_counter c; c_index := index; c_seen := c_seen c |}
  else c.
Definition run_row (pp : PhysicalPlan) (c : cursor) (kr : Key * Row) : cursor :=
  let '(k, r) := kr in
  if passes pp k r c then maintain_index pp r (mark_seen pp k (output_row pp r c)) else c.

(** After an INTERSECT: [$QUERY] walks the index two nodes at a time, and the last subscript of
    every second node is removed from the output. *)
Inductive index_node := CountNode (r : Row) | NumberNode (r : Row) (v : Z).
Definition index_nodes (index : gmap Row (Z * list Z)) : list index_node :=
  collate index ≫= λ '(r, (_, vs)), CountNode r :: (NumberNode r <$> vs).
Definition last_subscript (n : index_node) : option Z :=
  match n with NumberNode _ v => Some v | CountNode r => last_column r end.
Fixpoint sweep (nodes : list index_node) (out : gmap Z Row) : gmap Z Row :=
  match nodes with
  | _ :: n :: nodes' => sweep nodes' (match last_subscript n with Some v => delete v out | None => out end)
  | _ => out
  end.

Definition run_plan (pp : PhysicalPlan) (c : cursor) : option cursor :=
  if is_null (order_by pp) && negb (stash_columns_in_keys pp) && negb (is_cross_reference_key pp) then
    let c := if decide (set_operation pp = PP_NOT_SET)
             then {| c_rows := ∅; c_counter := 0; c_index := c_index c; c_seen := c_seen c |} else c in
    let c := fold_left (run_row pp) (rows (iterKeys pp) (where_ pp) (projection pp)) c in
    Some (if decide (set_operation pp = PP_INTERSECT_SET)
          then {| c_rows := sweep (index_nodes (c_index c)) (c_rows c); c_counter := c_counter c; c_index := c_index c; c_seen := c_seen c |}
          else c)
  else None.
(** Each plan calls the next. *)
Fixpoint run_plans (plans : list PhysicalPlan) (c : cursor) : option cursor :=
  match plans with
  | [] => Some c
  | pp :: plans' => c ← run_plan pp c; run_plans plans' c
  end.
Lemma run_plans_app l l' c : run_plans (l ++ l') c = c ← run_plans l c; run_plans l' c.
Proof. revert c. induction l as [|pp l IH]; intros c; [done|]. cbn. destruct (run_plan pp c); [apply IH|done]. Qed.

(** ** Plans that keep their rows unique *)
(** Such a plan over the rows of [q]. *)
Record marked (distinct : bool) (pp : PhysicalPlan) : Prop := {
  mk_shape : is_null (order_by pp) && negb (stash_columns_in_keys pp) && negb (is_cross_reference_key pp) = true;
  mk_distinct : distinct_values pp = distinct;
  mk_index : maintain_columnwise_index pp = true;
  mk_seen : emit_duplication_check pp = false;
}.
Definition plan_rows (pp : PhysicalPlan) : list (Key * Row) := rows (iterKeys pp) (where_ pp) (projection pp).
Definition set_rows (pp : PhysicalPlan) : gset Row := list_to_set (plan_rows pp).*2.

(** The cursor shows each row of [live] once and no other; the index has a number for these
    and none for the others of [seen]. *)
Record holding (seen live : gset Row) (c : cursor) : Prop := {
  hd_index : ∀ r, is_Some (c_index c !! r) ↔ r ∈ seen;
  hd_live : ∀ r n vs, c_index c !! r = Some (n, vs) → r ∈ live → ∃ v, vs = [v] ∧ c_rows c !! v = Some r;
  hd_dead : ∀ r n vs, c_index c !! r = Some (n, vs) → r ∉ live → vs = [];
  hd_rows : ∀ v r, c_rows c !! v = Some r → v ≤ c_counter c ∧ r ∈ live ∧ ∃ n, c_index c !! r = Some (n, [v]);
  hd_sub : live ⊆ seen;
}.
(** What the client is sent: every row of the set, once. *)
Definition shows (c : cursor) (l : gset Row) : Prop :=
  (∀ r, r ∈ l ↔ ∃ v, c_rows c !! v = Some r) ∧
  ∀ v v' r, c_rows c !! v = Some r → c_rows c !! v' = Some r → v = v'.
Lemma holding_shows seen live c : holding seen live c → shows c live.
Proof.
  intros [H1 H2 H3 H4 H5]. split.
  - intros r. split.
    + intros Hr. destruct (proj2 (H1 r) (H5 r Hr)) as [[n vs] E]. destruct (H2 _ _ _ E Hr) as (v & -> & Hv). eauto.
    + intros (v & Hv). by apply H4 in Hv as (_ & ? & _).
  - intros v v' r (_ & _ & n & E)%H4 (_ & _ & n' & E')%H4. rewrite E in E'. by injection E'.
Qed.
Lemma holding_empty n : holding ∅ ∅ {| c_rows := ∅; c_counter := n; c_index := ∅; c_seen := ∅ |}.
Proof.
  split; cbn; try done.
  - intros r. rewrite lookup_empty. split; [by intros []|set_solver].
Qed.

Lemma run_row_add pp seen live c k r : marked true pp → set_operation pp = PP_NOT_SET ∨ set_operation pp = PP_UNION_SET →
  holding seen live c → holding ({[r]} ∪ seen) (live ∪ ({[r]} ∖ seen)) (run_row pp c (k, r)).
Proof.
  intros [_ Hd Hi Hs] Hop [H1 H2 H3 H4 H5]. unfold run_row, passes. rewrite Hd, Hs. cbn [andb negb].
  rewrite !bool_decide_eq_true_2 by (by destruct Hop as [->| ->]). cbn [andb]. rewrite andb_true_r.
  destruct (decide (r ∈ seen)) as [Hr|Hr].
  { rewrite (bool_decide_eq_true_2 (is_Some _)) by (by apply H1). cbn [negb].
    replace ({[r]} ∪ seen) with seen by set_solver. replace (live ∪ ({[r]} ∖ seen)) with live by set_solver. by split. }
  assert (En : c_index c !! r = None) by (apply eq_None_not_Some; by rewrite H1).
  rewrite (bool_decide_eq_false_2 (is_Some _)) by (by rewrite En). cbn [negb].
  replace (live ∪ ({[r]} ∖ seen)) with ({[r]} ∪ live) by set_solver.
  unfold maintain_index, mark_seen. rewrite Hi, Hs, (bool_decide_eq_true_2 (set_operation pp ≠ PP_EXCEPT_SET)) by (by destruct Hop as [->| ->]).
  cbn [andb]. rewrite decide_False by (by destruct Hop as [->| ->]).
  assert (Eo : output_row pp r c = {| c_rows := <[c_counter c + 1 := r]> (c_rows c); c_counter := c_counter c + 1; c_index := c_index c; c_seen := c_seen c |})
    by (unfold output_row; by destruct Hop as [->| ->]).
  rewrite Eo. cbn [c_index c_rows c_counter c_seen]. rewrite En. cbn [default from_option id app].
  split; cbn [c_index c_rows c_counter c_seen].
  - intros x. rewrite lookup_insert_is_Some', elem_of_union, elem_of_singleton, H1. naive_solver.
  - intros x n vs E Hx. destruct (decide (x = r)) as [->|Hne].
    + rewrite lookup_insert_eq in E. injection E as <- <-. eexists. split; [done|]. by rewrite lookup_insert_eq.
    + rewrite lookup_insert_ne in E by done. destruct (H2 x n vs E) as (v & -> & Hv); [set_solver|]. exists v. split; [done|].
      rewrite lookup_insert_ne; [done|]. apply H4 in Hv as [? _]. lia.
  - intros x n vs E Hx. destruct (decide (x = r)) as [->|Hne]; [set_solver|]. rewrite lookup_insert_ne in E by done.
    apply (H3 x n vs E). set_solver.
  - intros v x E. destruct (decide (v = c_counter c + 1)) as [->|Hne].
    + rewrite lookup_insert_eq in E. injection E as ->. split; [lia|]. split; [set_solver|]. eexists. by rewrite lookup_insert_eq.
    + rewrite lookup_insert_ne in E by done. apply H4 in E as (? & ? & n & E). split; [lia|]. split; [set_solver|]. exists n.
      rewrite lookup_insert_ne; [done|]. intros <-. congruence.
  - set_solver.
Qed.
Lemma run_rows_add pp : marked true pp → set_operation pp = PP_NOT_SET ∨ set_operation pp = PP_UNION_SET →
  ∀ l seen live c, holding seen live c →
  holding (list_to_set l.*2 ∪ seen) (live ∪ (list_to_set l.*2 ∖ seen)) (fold_left (run_row pp) l c).
Proof.
  intros Hm Hop. induction l as [|[k r] l IH]; intros seen live c Hc; cbn [fold_left fmap list_fmap list_to_set snd].
  - replace (∅ ∪ seen) with seen by set_solver. by replace (live ∪ (∅ ∖ seen)) with live by set_solver.
  - apply (run_row_add pp _ _ _ k r Hm Hop) in Hc. apply IH in Hc.
    replace ({[r]} ∪ list_to_set l.*2 ∪ seen) with (list_to_set l.*2 ∪ ({[r]} ∪ seen)) by set_solver.
    replace (live ∪ (({[r]} ∪ list_to_set l.*2) ∖ seen)) with (live ∪ ({[r]} ∖ seen) ∪ (list_to_set l.*2 ∖ ({[r]} ∪ seen))); [done|].
    apply set_eq. intros x. destruct (decide (x = r)), (decide (x ∈ seen)); set_solver.
Qed.

Lemma run_row_except pp seen live c k r : marked true pp → set_operation pp = PP_EXCEPT_SET →
  holding seen live c → holding seen (live ∖ {[r]}) (run_row pp c (k, r)).
Proof.
  intros [_ Hd Hi Hs] Hop [H1 H2 H3 H4 H5]. unfold run_row, passes, maintain_index, mark_seen, output_row. rewrite Hd, Hs, Hi, Hop.
  rewrite (bool_decide_eq_false_2 (PP_EXCEPT_SET ≠ PP_EXCEPT_SET)) by naive_solver. cbn [andb negb].
  destruct (c_index c !! r) as [[n [|v vs]]|] eqn:E.
  - replace (live ∖ {[r]}) with live; [by split|]. assert (r ∉ live); [|set_solver].
    intros Hr. by destruct (H2 _ _ _ E Hr) as (v & ? & _).
  - assert (Hr : r ∈ live) by (destruct (decide (r ∈ live)) as [|Hr]; [done|by apply (H3 _ _ _ E) in Hr]).
    destruct (H2 _ _ _ E Hr) as (v' & [= -> ->] & Hv).
    split; cbn.
    + intros x. rewrite lookup_insert_is_Some', H1. assert (r ∈ seen) by set_solver. naive_solver.
    + intros x m vs Ex Hx. assert (x ≠ r) by set_solver. rewrite lookup_insert_ne in Ex by done.
      destruct (H2 _ _ _ Ex) as (w & -> & Hw); [set_solver|]. exists w. split; [done|]. rewrite lookup_delete_ne; [done|].
      intros <-. congruence.
    + intros x m vs Ex Hx. destruct (decide (x = r)) as [->|Hne]; [rewrite lookup_insert_eq in Ex; by injection Ex|].
      rewrite lookup_insert_ne in Ex by done. apply (H3 _ _ _ Ex). set_solver.
    + intros w x (Hne & Hw)%lookup_delete_Some. destruct (H4 _ _ Hw) as (? & ? & m & Em).
      assert (x ≠ r) by (intros ->; rewrite E in Em; by injection Em). split; [done|]. split; [set_solver|]. exists m.
      by rewrite lookup_insert_ne.
    + set_solver.
  - replace (live ∖ {[r]}) with live; [by split|]. assert (r ∉ live); [|set_solver].
    intros Hr. destruct (proj2 (H1 r) (H5 r Hr)). congruence.
Qed.
Lemma run_rows_except pp : marked true pp → set_operation pp = PP_EXCEPT_SET →
  ∀ l seen live c, holding seen live c → holding seen (live ∖ list_to_set l.*2) (fold_left (run_row pp) l c).
Proof.
  intros Hm Hop. induction l as [|[k r] l IH]; intros seen live c Hc; cbn [fold_left fmap list_fmap list_to_set snd].
  - by replace (live ∖ ∅) with live by set_solver.
  - apply (run_row_except pp _ _ _ k r Hm Hop) in Hc. apply IH in Hc.
    by replace (live ∖ ({[r]} ∪ list_to_set l.*2)) with (live ∖ {[r]} ∖ list_to_set l.*2) by set_solver.
Qed.

(** *** INTERSECT *)
(** While the rows of the second operand are met, [gone] are those met: the rows shown stay,
    and the index loses what it has of [gone]. *)
Record crossing (all gone : gset Row) (c : cursor) : Prop := {
  cr_index : ∀ r, is_Some (c_index c !! r) ↔ r ∈ all ∖ gone;
  cr_entry : ∀ r n vs, c_index c !! r = Some (n, vs) → ∃ v, vs = [v] ∧ c_rows c !! v = Some r;
  cr_rows : ∀ r, r ∈ all ↔ ∃ v, c_rows c !! v = Some r;
  cr_once : ∀ v v' r, c_rows c !! v = Some r → c_rows c !! v' = Some r → v = v';
}.
Lemma holding_crossing all c : holding all all c → crossing all ∅ c.
Proof.
  intros Hc. destruct (holding_shows _ _ _ Hc) as [Hs1 Hs2]. destruct Hc as [H1 H2 H3 H4 H5]. split; try done.
  - intros r. rewrite H1. set_solver.
  - intros r n vs E. apply (H2 _ _ _ E), H1. by eexists.
Qed.
Lemma run_row_cross pp all gone c k r : marked true pp → set_operation pp = PP_INTERSECT_SET →
  crossing all gone c → crossing all ({[r]} ∪ gone) (run_row pp c (k, r)).
Proof.
  intros [_ Hd Hi Hs] Hop [H1 H2 H3 H4]. unfold run_row, passes, maintain_index, mark_seen, output_row. rewrite Hd, Hs, Hi, Hop.
  rewrite (bool_decide_eq_false_2 (PP_INTERSECT_SET ≠ PP_INTERSECT_SET)) by naive_solver.
  rewrite (bool_decide_eq_true_2 (PP_INTERSECT_SET ≠ PP_EXCEPT_SET)) by done. cbn [andb negb]. rewrite decide_True by done.
  split; cbn; try done.
  - intros x. rewrite lookup_delete_is_Some, H1. set_solver.
  - intros x n vs [_ E]%lookup_delete_Some. by apply (H2 x n).
Qed.
Lemma run_rows_cross pp : marked true pp → set_operation pp = PP_INTERSECT_SET →
  ∀ l all gone c, crossing all gone c → crossing all (list_to_set l.*2 ∪ gone) (fold_left (run_row pp) l c).
Proof.
  intros Hm Hop. induction l as [|[k r] l IH]; intros all gone c Hc; cbn [fold_left fmap list_fmap list_to_set snd].
  - by replace (∅ ∪ gone) with gone by set_solver.
  - apply (run_row_cross pp _ _ _ k r Hm Hop) in Hc. apply IH in Hc.
    by replace ({[r]} ∪ list_to_set l.*2 ∪ gone) with (list_to_set l.*2 ∪ ({[r]} ∪ gone)) by set_solver.
Qed.
(** The walk is in step when every row has one number: then it removes just these. *)
Definition swept (l : list (Row * (Z * list Z))) (v : Z) : Prop := [v] ∈ l.*2.*2.
#[local] Instance swept_dec l v : Decision (swept l v).
Proof. unfold swept. apply _. Defined.
Lemma swept_In l v : swept l v ↔ ∃ r n, (r, (n, [v])) ∈ l.
Proof.
  unfold swept. rewrite list_elem_of_fmap. split.
  - intros ([n vs] & E & ([r [n' vs']] & E' & Hin)%list_elem_of_fmap). cbn in *. simplify_eq. eauto.
  - intros (r & n & Hin). exists (n, [v]). split; [done|]. apply list_elem_of_fmap. by exists (r, (n, [v])).
Qed.
Lemma sweep_spec (l : list (Row * (Z * list Z))) : (∀ r n vs, (r, (n, vs)) ∈ l → ∃ v, vs = [v]) → ∀ out v,
  sweep (l ≫= λ '(r, (_, vs)), CountNode r :: (NumberNode r <$> vs)) out !! v = if decide (swept l v) then None else out !! v.
Proof.
  induction l as [|[r [n vs]] l IH]; intros Hl out v.
  - cbn. rewrite decide_False; [done|]. by intros (r & n & Hin%not_elem_of_nil)%swept_In.
  - destruct (Hl r n vs) as (w & ->); [by left|]. change (sweep (CountNode r :: NumberNode r w :: (l ≫= λ '(r, (_, vs)), CountNode r :: (NumberNode r <$> vs))) out !! v =
      if decide (swept ((r, (n, [w])) :: l) v) then None else out !! v). cbn [sweep last_subscript].
    rewrite IH by (intros; eapply Hl; by right). destruct (decide (swept l v)) as [Hin|Hno].
    + rewrite decide_True; [done|]. by right.
    + destruct (decide (v = w)) as [->|Hne].
      * rewrite lookup_delete_eq, decide_True; [done|]. by left.
      * rewrite lookup_delete_ne by done. rewrite decide_False; [done|].
        by intros [[= ->]|Hin]%elem_of_cons.
Qed.
(** After it, the numbers left in the index are not those of rows that are shown. *)
Definition stale (c : cursor) : Prop := ∀ r n vs v, c_index c !! r = Some (n, vs) → v ∈ vs → c_rows c !! v = None.
Definition in_database_order : Prop := ∀ index, collate index ≡ₚ map_to_list index.
Lemma crossing_swept all gone c : in_database_order → crossing all gone c →
  let c' := {| c_rows := sweep (index_nodes (c_index c)) (c_rows c); c_counter := c_counter c; c_index := c_index c; c_seen := c_seen c |} in
  shows c' (all ∩ gone) ∧ stale c'.
Proof.
  intros Hcollate [H1 H2 H3 H4] c'.
  assert (Hin : ∀ r e, (r, e) ∈ collate (c_index c) ↔ c_index c !! r = Some e) by (intros r e; by rewrite (Hcollate (c_index c)), elem_of_map_to_list).
  assert (Hs : ∀ v, c_rows c' !! v = if decide (swept (collate (c_index c)) v) then None else c_rows c !! v).
  { intros v. apply sweep_spec. intros r n vs E%Hin. destruct (H2 _ _ _ E) as (w & -> & _). by exists w. }
  assert (Hkept : ∀ v r, c_rows c' !! v = Some r ↔ c_rows c !! v = Some r ∧ r ∈ gone).
  { intros v r. rewrite Hs. destruct (decide _) as [(x & n & Hx%Hin)%swept_In|Hno].
    - split; [done|]. intros [Hv Hr]. destruct (H2 _ _ _ Hx) as (w & [= <-] & Hw). rewrite Hw in Hv. injection Hv as ->.
      assert (r ∈ all ∖ gone) by (apply H1; by eexists). set_solver.
    - split; [|by intros [? _]]. intros Hv. split; [done|]. destruct (decide (r ∈ gone)) as [|Hr]; [done|]. destruct Hno.
      assert (Ha : r ∈ all) by (apply H3; eauto). destruct (proj2 (H1 r)) as [[n vs] E]; [set_solver|].
      destruct (H2 _ _ _ E) as (w & -> & Hw). rewrite (H4 v w r Hv Hw). apply swept_In. exists r, n. by apply Hin. }
  split; [split|].
  - intros r. rewrite elem_of_intersection, H3. split.
    + intros [(v & Hv) Hr]. exists v. by apply Hkept.
    + intros (v & [Hv Hr]%Hkept). eauto.
  - intros v v' r [Hv _]%Hkept [Hv' _]%Hkept. by eapply H4.
  - intros r n vs v E Hv. change (c_index c !! r = Some (n, vs)) in E. rewrite Hs. destruct (H2 _ _ _ E) as (w & -> & _).
    apply list_elem_of_singleton in Hv as ->. rewrite decide_True; [done|]. apply swept_In. exists r, n. by apply Hin.
Qed.
(** An EXCEPT then finds no row to remove. *)
Lemma run_rows_stale pp : marked true pp → set_operation pp = PP_EXCEPT_SET →
  ∀ l c, stale c → c_rows (fold_left (run_row pp) l c) = c_rows c.
Proof.
  intros [_ Hd Hi Hs] Hop. induction l as [|[k r] l IH]; intros c Hc; [done|]. cbn [fold_left].
  assert (Hrow : stale (run_row pp c (k, r)) ∧ c_rows (run_row pp c (k, r)) = c_rows c) by
   (unfold run_row, passes, maintain_index, mark_seen, output_row; rewrite Hd, Hs, Hi, Hop;
    rewrite (bool_decide_eq_false_2 (PP_EXCEPT_SET ≠ PP_EXCEPT_SET)) by naive_solver; cbn [andb negb];
    destruct (c_index c !! r) as [[n [|v vs]]|] eqn:E; [done| |done];
    assert (Hv : c_rows c !! v = None) by (apply (Hc r n (v :: vs)); [done|by left]); cbn; rewrite delete_id by done; split; [|done];
    intros x m ws w; cbn; destruct (decide (x = r)) as [->|Hne];
    [rewrite lookup_insert_eq; intros [= <- <-] Hw; apply (Hc r n (v :: vs)); [done|by right]|rewrite lookup_insert_ne by done; apply Hc]).
  destruct Hrow as [H1 H2]. by rewrite IH, H2.
Qed.

(** ** What a plan of a set operation does to the rows shown *)
Lemma run_plan_first pp c : marked true pp → set_operation pp = PP_NOT_SET → c_index c = ∅ → c_seen c = ∅ →
  ∃ c', run_plan pp c = Some c' ∧ holding (set_rows pp) (set_rows pp) c'.
Proof.
  intros Hm Hop Hi Hs. unfold run_plan. rewrite (mk_shape _ _ Hm), (decide_True _ _ Hop), decide_False by (by rewrite Hop). eexists. split; [done|].
  rewrite Hi, Hs. pose proof (run_rows_add pp Hm (or_introl Hop) (plan_rows pp) ∅ ∅ _ (holding_empty 0)) as Hc.
  unfold set_rows, plan_rows in *. set (X := list_to_set _) in *. replace (X ∪ ∅) with X in Hc by set_solver.
  by replace (∅ ∪ (X ∖ ∅)) with X in Hc by set_solver.
Qed.
Lemma run_plan_union pp seen live c : marked true pp → set_operation pp = PP_UNION_SET → holding seen live c →
  ∃ c', run_plan pp c = Some c' ∧ holding (set_rows pp ∪ seen) (live ∪ (set_rows pp ∖ seen)) c'.
Proof.
  intros Hm Hop Hc. unfold run_plan. rewrite (mk_shape _ _ Hm), !decide_False by (by rewrite Hop). eexists. split; [done|].
  apply (run_rows_add pp Hm (or_intror Hop)), Hc.
Qed.
Lemma run_plan_except pp seen live c : marked true pp → set_operation pp = PP_EXCEPT_SET → holding seen live c →
  ∃ c', run_plan pp c = Some c' ∧ holding seen (live ∖ set_rows pp) c'.
Proof.
  intros Hm Hop Hc. unfold run_plan. rewrite (mk_shape _ _ Hm), !decide_False by (by rewrite Hop). eexists. split; [done|].
  apply (run_rows_except pp Hm Hop), Hc.
Qed.
Lemma run_plan_intersect pp all c : in_database_order → marked true pp → set_operation pp = PP_INTERSECT_SET → holding all all c →
  ∃ c', run_plan pp c = Some c' ∧ shows c' (all ∩ set_rows pp) ∧ stale c'.
Proof.
  intros Hcollate Hm Hop Hc%holding_crossing. unfold run_plan. rewrite (mk_shape _ _ Hm), (decide_True (P := _ = PP_INTERSECT_SET) _ _ Hop), decide_False by (by rewrite Hop).
  eexists. split; [done|]. apply (run_rows_cross pp Hm Hop (plan_rows pp)) in Hc. apply crossing_swept in Hc; [|done].
  unfold set_rows. by replace (list_to_set (plan_rows pp).*2 ∪ ∅) with (list_to_set (plan_rows pp).*2 : gset Row) in Hc by set_solver.
Qed.
Lemma run_plan_stale pp c : marked true pp → set_operation pp = PP_EXCEPT_SET → stale c →
  ∃ c', run_plan pp c = Some c' ∧ c_rows c' = c_rows c.
Proof.
  intros Hm Hop Hc. unfold run_plan. rewrite (mk_shape _ _ Hm), !decide_False by (by rewrite Hop). eexists. split; [done|].
  by apply (run_rows_stale pp Hm Hop).
Qed.

(** ** UNION ALL *)
(** The rows shown, in the order of their numbers. *)
Definition lists (c : cursor) (l : list Row) : Prop :=
  c_counter c = Z.of_nat (length l) ∧ ∀ v r, c_rows c !! v = Some r ↔ 1 ≤ v ∧ l !! Z.to_nat (v - 1) = Some r.
Lemma run_row_append pp c k r l : marked false pp → set_operation pp = PP_NOT_SET ∨ set_operation pp = PP_UNION_SET →
  lists c l → lists (run_row pp c (k, r)) (l ++ [r]).
Proof.
  intros [_ Hd Hi Hs] Hop [H1 H2]. unfold run_row, passes, mark_seen, maintain_index. rewrite Hd, Hs, Hi. cbn [andb negb].
  rewrite (bool_decide_eq_true_2 (set_operation pp ≠ PP_EXCEPT_SET)) by (by destruct Hop as [->| ->]).
  rewrite decide_False by (by destruct Hop as [->| ->]).
  assert (Eo : output_row pp r c = {| c_rows := <[c_counter c + 1 := r]> (c_rows c); c_counter := c_counter c + 1; c_index := c_index c; c_seen := c_seen c |})
    by (unfold output_row; by destruct Hop as [->| ->]).
  rewrite Eo. cbn. split; cbn; [rewrite length_app; cbn; lia|]. intros v x. destruct (decide (v = c_counter c + 1)) as [->|Hne].
  - rewrite lookup_insert_eq. replace (Z.to_nat (c_counter c + 1 - 1)) with (length l) by lia.
    rewrite lookup_app_r, Nat.sub_diag by done. cbn. split; [intros [= ->]; split; [lia|done]|by intros [_ [= ->]]].
  - rewrite lookup_insert_ne by done. rewrite H2. split; intros [Hv Hx]; (split; [done|]).
    + by apply lookup_app_l_Some.
    + apply lookup_app_Some in Hx as [?|[Hl Hx]]; [done|]. apply lookup_lt_Some in Hx. cbn in Hx. lia.
Qed.
Lemma run_plan_append pp c l : marked false pp → set_operation pp = PP_NOT_SET ∧ l = [] ∨ set_operation pp = PP_UNION_SET ∧ lists c l →
  ∃ c', run_plan pp c = Some c' ∧ lists c' (l ++ (plan_rows pp).*2).
Proof.
  intros Hm Hop.
  assert (Hrows : ∀ rs c l, set_operation pp = PP_NOT_SET ∨ set_operation pp = PP_UNION_SET → lists c l →
    lists (fold_left (run_row pp) rs c) (l ++ rs.*2)).
  { induction rs as [|[k r] rs IH]; intros c0 l0 Ho Hc; [by rewrite app_nil_r|]. cbn [fold_left fmap list_fmap snd].
    rewrite cons_middle, app_assoc. apply IH; [done|]. by apply run_row_append. }
  unfold run_plan. rewrite (mk_shape _ _ Hm). destruct Hop as [[Ho ->]|[Ho Hc]].
  - rewrite (decide_True _ _ Ho), decide_False by (by rewrite Ho). eexists. split; [done|]. apply Hrows; [by left|].
    split; [done|]. intros v r. cbn. rewrite lookup_empty. split; [done|]. by intros [_ ?].
  - rewrite !decide_False by (by rewrite Ho). eexists. split; [done|]. apply Hrows; [by right|done].
Qed.
End run.
Arguments cursor Key Row {_ _ _ _}.
