(* ===== verification/PhysicalTheorems.v ===== *)
(** * The list of physical plans

    Whatever [generate_physical_plan] is given, when it returns the plans it made are linked
    in both directions in front of those that were there, each before the plan that reads
    it, and the plans that were there have changed only in that some are deferred. *)
From stdpp Require Import gmap strings.
From S2P Require Import Prelude CMem LogicalPlan SqlStatement Optimize PhysicalPlan.

(** ** Computations that return *)
Lemma gbind_inv {A B} (x : G A) (f : A → G B) st b st' : (x ≫= f) st = Ret (b, st') →
  ∃ a st1, x st = Ret (a, st1) ∧ f a st1 = Ret (b, st').
Proof. intros E. apply bind_ret_inv in E as ([a st1] & E1 & E2). by exists a, st1. Qed.
Lemma glift_inv {A} (o : outcome A) st a st' : glift o st = Ret (a, st') → o = Ret a ∧ st' = st.
Proof. intros E. apply bind_ret_inv in E as (b & -> & [= -> ->]). done. Qed.
Lemma found_inv {A} (o : option A) a : found o = Ret a → o = Some a.
Proof. destruct o; naive_solver. Qed.
Lemma update_inv p f st a st' : update p f st = Ret (a, st') →
  ∃ q, ph_plans st !! p = Some q ∧ st' = with_plans (<[p := f q]>) st.
Proof. intros E. apply bind_ret_inv in E as (q & E%found_inv & [= _ <-]). by exists q. Qed.
Lemma plan_at_inv p st q st' : plan_at p st = Ret (q, st') → ph_plans st !! p = Some q ∧ st' = st.
Proof. intros E. apply bind_ret_inv in E as (q' & E%found_inv & [= -> ->]). done. Qed.
Lemma gret_inv {A} (a b : A) st st' : (mret a : G A) st = Ret (b, st') → b = a ∧ st' = st.
Proof. by intros [= -> ->]. Qed.
(** One step of an inversion along a computation. *)
Ltac gstep H :=
  match type of H with
  | (_ ≫= _) ?st = Ret _ => let a := fresh "a" in let st1 := fresh "st" in let E := fresh "E" in
      apply gbind_inv in H as (a & st1 & E & H)
  | glift _ _ = Ret _ => let Hl := fresh "Hl" in apply glift_inv in H as [Hl ->]
  | plan_at _ _ = Ret _ => let Hp := fresh "Hp" in apply plan_at_inv in H as [Hp ->]
  end.

(** ** The list *)
Fixpoint links (plans : gmap ptr PhysicalPlan) (before : ptr) (c : list ptr) : Prop :=
  match c with
  | [] => True
  | p :: c' => ∃ q, plans !! p = Some q ∧ prev q = before ∧ next q = default null (head c') ∧ links plans p c'
  end.
Record linked (st : phys) (c : list ptr) : Prop := {
  linked_last : ph_last st = default null (head c);
  linked_links : links (ph_plans st) null c;
  linked_nodup : NoDup c;
}.
(** The addresses given so far. *)
Definition bounded (st : phys) : Prop :=
  0 < ph_next st ∧ ∀ p : ptr, is_Some (ph_plans st !! p) → 0 < p < ph_next st.
(** What stays of a plan another one is made after: all but [prev] and [deferred_plan]. *)
Definition core '(PP nm f _ nx ik ok ot w pj ob kw st xr mi dv at_ so _ pa du) :=
  PP nm f null nx ik ok ot w pj ob kw st xr mi dv at_ so false pa du.

(** From [st] to [st'] the plans [new] came in front; [own] is the plan whose function is
    at work, if it is an older one, and [root] the parent the new plans have, unless it is
    one of them that comes after. *)
Definition parents_after (root : ptr) (plans : gmap ptr PhysicalPlan) (new : list ptr) : Prop :=
  ∀ i p q, new !! i = Some p → plans !! p = Some q → parent_plan q = root ∨ ∃ j, (i < j)%nat ∧ new !! j = Some (parent_plan q).
Record kept (own : option ptr) (p : ptr) (q q' : PhysicalPlan) : Prop := {
  kept_next : next q' = next q;
  kept_parent : parent_plan q' = parent_plan q;
  kept_deferred : deferred_plan q = true → deferred_plan q' = true;
  kept_core : own ≠ Some p → core q' = core q;
}.
Record grown (own : option ptr) (root : ptr) (st st' : phys) (new : list ptr) : Prop := {
  grown_bounded : bounded st';
  grown_next : ph_next st ≤ ph_next st';
  grown_linked : ∀ c, linked st c → linked st' (new ++ c);
  grown_kept : ∀ p q, ph_plans st !! p = Some q → ∃ q', ph_plans st' !! p = Some q' ∧ kept own p q q';
  grown_new : ∀ p, p ∈ new → ph_next st ≤ p < ph_next st' ∧ is_Some (ph_plans st' !! p);
  grown_parents : parents_after root (ph_plans st') new;
  grown_all : ∀ p, is_Some (ph_plans st' !! p) → is_Some (ph_plans st !! p) ∨ p ∈ new;
}.

Lemma kept_refl own p q : kept own p q q.
Proof. by split. Qed.
Lemma kept_trans own p q q' q'' : kept own p q q' → kept own p q' q'' → kept own p q q''.
Proof.
  intros [H1 H2 H3 H4] [K1 K2 K3 K4]. split; [congruence|congruence|auto|].
  intros Hn. by rewrite K4, H4.
Qed.
Lemma grown_refl own root st : bounded st → grown own root st st [].
Proof. intros Hb. split; try done. - intros p q Hq. exists q. split; [done|apply kept_refl]. - set_solver. - by left. Qed.
Lemma grown_trans own root st st1 st2 n1 n2 :
  grown own root st st1 n1 → grown own root st1 st2 n2 → grown own root st st2 (n2 ++ n1).
Proof.
  intros H K. split.
  - apply K.
  - pose proof (grown_next _ _ _ _ _ H). pose proof (grown_next _ _ _ _ _ K). lia.
  - intros c Hc. rewrite <- app_assoc. by apply K, H.
  - intros p q Hq. destruct (grown_kept _ _ _ _ _ H p q Hq) as (q1 & Hq1 & Hk).
    destruct (grown_kept _ _ _ _ _ K p q1 Hq1) as (q2 & Hq2 & Hk2). exists q2. split; [done|by eapply kept_trans].
  - pose proof (grown_next _ _ _ _ _ H). pose proof (grown_next _ _ _ _ _ K).
    intros p [Hp|Hp]%elem_of_app.
    + destruct (grown_new _ _ _ _ _ K p Hp). split; [lia|done].
    + destruct (grown_new _ _ _ _ _ H p Hp) as [? [q Hq]].
      destruct (grown_kept _ _ _ _ _ K p q Hq) as (q2 & Hq2 & _). split; [lia|by eexists].
  - intros i p q Hi Hq. apply lookup_app_Some in Hi as [Hi|[Hle Hi]].
    + destruct (grown_parents _ _ _ _ _ K i p q Hi Hq) as [?|(j & ? & Hj)]; [by left|].
      right. exists j. split; [done|]. by apply lookup_app_l_Some.
    + destruct (grown_new _ _ _ _ _ H p) as [_ [q1 Hq1]]; [by eapply list_elem_of_lookup_2|].
      destruct (grown_kept _ _ _ _ _ K p q1 Hq1) as (q' & Hq' & Hk). simplify_eq.
      rewrite (kept_parent _ _ _ _ Hk).
      destruct (grown_parents _ _ _ _ _ H _ p q1 Hi Hq1) as [?|(j & ? & Hj)]; [by left|].
      right. exists (length n2 + j)%nat. split; [lia|]. rewrite lookup_app_r by lia.
      by replace (length n2 + j - length n2)%nat with j by lia.
  - intros p Hp. rewrite elem_of_app. destruct (grown_all _ _ _ _ _ K p Hp) as [Hp1|]; [|by auto].
    destruct (grown_all _ _ _ _ _ H p Hp1); auto.
Qed.

(** ** What the steps do to the list *)
(** An assignment that leaves the links, the parent and the deferral alone. *)
Definition same_links (f : PhysicalPlan → PhysicalPlan) : Prop := ∀ q,
  prev (f q) = prev q ∧ next (f q) = next q ∧ parent_plan (f q) = parent_plan q ∧
  (deferred_plan q = true → deferred_plan (f q) = true).
Lemma links_insert plans p f q before c : same_links f → plans !! p = Some q →
  links plans before c → links (<[p := f q]> plans) before c.
Proof.
  intros Hf Hq. revert before. induction c as [|r c IH]; [done|]. intros before (q' & Hr & Hp & Hn & Hc).
  destruct (Hf q) as (Fp & Fn & _). destruct (decide (r = p)) as [->|Hne].
  - simplify_eq. exists (f q). rewrite lookup_insert_eq, Fp, Fn. auto.
  - exists q'. rewrite lookup_insert_ne by done. auto.
Qed.
Lemma linked_update st c p f q : same_links f → ph_plans st !! p = Some q →
  linked st c → linked (with_plans (<[p := f q]>) st) c.
Proof. intros Hf Hq [H1 H2 H3]. split; cbn; auto using links_insert. Qed.
Lemma bounded_update st p f q : ph_plans st !! p = Some q → bounded st → bounded (with_plans (<[p := f q]>) st).
Proof.
  intros Hq [H1 H2]. split; [done|]. cbn. intros r [? [[<- _]|[_ ?]]%lookup_insert_Some]; apply H2; by eexists.
Qed.
Lemma parents_update root plans new p f q : same_links f → plans !! p = Some q →
  parents_after root plans new → parents_after root (<[p := f q]> plans) new.
Proof.
  intros Hf Hq H i r qr Hi [[-> <-]|[_ Hr]]%lookup_insert_Some; [|by eapply H].
  destruct (Hf q) as (_ & _ & -> & _). by eapply H.
Qed.
(** Only the plans made since, and the one at work, are assigned to; of the others a flag. *)
Lemma grown_assign own root st st' new p f a st'' : grown own root st st' new → same_links f →
  (ph_next st ≤ p ∨ own = Some p ∨ ∀ q, core (f q) = core q) → bounded st →
  update p f st' = Ret (a, st'') → grown own root st st'' new.
Proof.
  intros H Hf Hp Hb (q & Hq & ->)%update_inv. destruct (Hf q) as (Fp & Fn & Fpa & Fd). split; cbn.
  - apply bounded_update; [done|apply H].
  - apply H.
  - intros c Hc. by apply linked_update, H.
  - intros r qr Hr. destruct (grown_kept _ _ _ _ _ H r qr Hr) as (q1 & Hq1 & [K1 K2 K3 K4]).
    destruct (decide (r = p)) as [->|Hne]; [|exists q1; by rewrite lookup_insert_ne].
    simplify_eq. exists (f q). rewrite lookup_insert_eq. split; [done|].
    split; [congruence|congruence|auto|]. intros Hown. destruct Hp as [Hp|[?|Hp]]; [|done|by rewrite Hp, K4].
    destruct (proj2 Hb p); [by eexists|lia].
  - intros r Hr. destruct (grown_new _ _ _ _ _ H r Hr) as [? ?]. split; [done|]. apply lookup_insert_is_Some'. by right.
  - apply parents_update; [done|done|apply H].
  - intros r [<-|Hr]%lookup_insert_is_Some'; apply H; [by eexists|done].
Qed.

(** *** Making a plan *)
Lemma links_older plans before c p q : p ∉ c → links plans before c → links (<[p := q]> plans) before c.
Proof.
  revert before. induction c as [|r c IH]; [done|]. intros before Hn (q' & Hr & Hp & Hx & Hc).
  apply not_elem_of_cons in Hn as [Hn1 Hn2]. exists q'. rewrite lookup_insert_ne by done. auto.
Qed.
Lemma links_lookup plans before c p : links plans before c → p ∈ c → is_Some (plans !! p).
Proof.
  revert before. induction c as [|r c IH]; intros before; [by intros _ ?%not_elem_of_nil|].
  intros (q & Hr & _ & _ & Hc) [->|Hp]%elem_of_cons; [by eexists|by eapply IH].
Qed.
Lemma push_plan_grows root st out st' : bounded st → push_plan root st = Ret (out, st') →
  out = ph_next st ∧ grown None root st st' [out] ∧ ph_plans st' !! out = Some (new_plan root (ph_last st)).
Proof.
  intros Hb E. unfold push_plan in E. apply bind_ret_inv in E as (plans & Eplans & [= <- <-]).
  split; [done|]. destruct Hb as [Hpos Hb].
  assert (Hold : ∀ p q, ph_plans st !! p = Some q → ∃ q', plans !! p = Some q' ∧ kept None p q q').
  { intros p q Hq. case_decide; [simplify_eq; exists q; split; [done|apply kept_refl]|].
    apply bind_ret_inv in Eplans as (l & Hl%found_inv & [= <-]). destruct (decide (p = ph_last st)) as [->|Hne].
    - simplify_eq. eexists. rewrite lookup_insert_eq. split; [done|]. by destruct l.
    - exists q. rewrite lookup_insert_ne by done. split; [done|apply kept_refl]. }
  assert (Hbnd : ∀ p, is_Some (plans !! p) → 0 < p < ph_next st).
  { intros p Hp. case_decide; [simplify_eq; by apply Hb|].
    apply bind_ret_inv in Eplans as (l & Hl%found_inv & [= <-]). apply Hb.
    apply lookup_insert_is_Some' in Hp as [<-|?]; [by eexists|done]. }
  assert (Hfresh : ph_plans st !! ph_next st = None).
  { destruct (ph_plans st !! ph_next st) eqn:Ex; [|done]. destruct (Hb (ph_next st)); [by eexists|lia]. }
  split; [split; cbn|by cbn; rewrite lookup_insert_eq].
  - split; cbn; [lia|]. intros p [<-|Hp]%lookup_insert_is_Some'; [lia|]. specialize (Hbnd p Hp). lia.
  - lia.
  - intros c [Hl Hk Hd]. assert (Hnc : ph_next st ∉ c).
    { intros Hin. pose proof (links_lookup _ _ _ _ Hk Hin) as [? ?]. congruence. }
    split; cbn; [done| |by apply NoDup_cons_2].
    eexists. rewrite lookup_insert_eq. split; [done|]. cbn. split; [done|]. split; [done|]. apply links_older; [done|].
    destruct c as [|p c]; cbn in Hl; rewrite Hl in Eplans; [by rewrite decide_True in Eplans by done|].
    destruct Hk as (q & Hq & Hprev & Hnext & Hk). rewrite decide_False in Eplans.
    + rewrite Hq in Eplans. cbn in Eplans. simplify_eq. exists (set_prev (ph_next st) q). rewrite lookup_insert_eq.
      apply NoDup_cons_1_1 in Hd. split; [done|]. destruct q; cbn in *. split; [done|]. split; [done|]. by apply links_older.
    + destruct (Hb p); [by eexists|]. unfold null. lia.
  - intros p q Hq. destruct (Hold p q Hq) as (q' & Hq' & Hk). exists q'. rewrite lookup_insert_ne; [done|].
    intros <-. congruence.
  - intros p ->%list_elem_of_singleton. split; [lia|]. rewrite lookup_insert_eq. by eexists.
  - intros [|i] p q Hi Hq; [|done]. cbn in Hi. simplify_eq. rewrite lookup_insert_eq in Hq. simplify_eq. by left.
  - intros p [<-|Hp]%lookup_insert_is_Some'; [right; by left|]. left. case_decide; [by simplify_eq|].
    apply bind_ret_inv in Eplans as (l & Hl%found_inv & [= <-]). apply lookup_insert_is_Some' in Hp as [<-|?]; [by eexists|done].
Qed.

(** ** Computations that only let the list grow *)
Definition grows {A} (own : option ptr) (root : ptr) (m : G A) : Prop := ∀ st a st',
  bounded st → m st = Ret (a, st') → ∃ new, grown own root st st' new.
Lemma grows_bind {A B} own root (m : G A) (f : A → G B) :
  grows own root m → (∀ a, grows own root (f a)) → grows own root (m ≫= f).
Proof.
  intros Hm Hf st b st' Hb E. gstep E. destruct (Hm _ _ _ Hb E0) as (n1 & H1).
  destruct (Hf a _ _ _ (grown_bounded _ _ _ _ _ H1) E) as (n2 & H2). exists (n2 ++ n1). by eapply grown_trans.
Qed.
Lemma grows_ret {A} own root (a : A) : grows own root (mret a : G A).
Proof. intros st b st' Hb [_ ->]%gret_inv. exists []. by apply grown_refl. Qed.
Lemma grows_glift {A} own root (o : outcome A) : grows own root (glift o).
Proof. intros st a st' Hb [_ ->]%glift_inv. exists []. by apply grown_refl. Qed.
Lemma grows_plan_at own root p : grows own root (plan_at p).
Proof. intros st a st' Hb [_ ->]%plan_at_inv. exists []. by apply grown_refl. Qed.
Lemma grows_update own root p f : same_links f → own = Some p ∨ (∀ q, core (f q) = core q) → grows own root (update p f).
Proof. intros Hf Hp st a st' Hb E. exists []. eapply grown_assign; [by apply grown_refl|done|by right|done|done]. Qed.
Lemma grows_warning own root : grows own root warning.
Proof.
  intros st a st' Hb [= _ <-]. exists []. split; try done.
  - intros c [H1 H2 H3]. by split.
  - intros p q Hq. exists q. split; [done|apply kept_refl].
  - set_solver.
  - by left.
Qed.
Lemma grows_ggets {A} own root (f : phys → A) : grows own root (ggets f).
Proof. intros st a st' Hb [= _ <-]. exists []. by apply grown_refl. Qed.
Lemma grown_own own root st st' new : grown None root st st' new → grown own root st st' new.
Proof.
  intros [H1 H2 H3 H4 H5 H6 H7]. split; try done. intros p q Hq. destruct (H4 p q Hq) as (q' & Hq' & [K1 K2 K3 K4]).
  exists q'. split; [done|]. split; try done. intros _. by apply K4.
Qed.
Lemma grows_own {A} own root (m : G A) : grows None root m → grows own root m.
Proof. intros H st a st' Hb E. destruct (H _ _ _ Hb E) as (new & Hn). exists new. by apply grown_own. Qed.

Create HintDb plans discriminated.
#[export] Hint Resolve grows_bind grows_ret grows_glift grows_plan_at grows_warning grows_ggets : plans.
Ltac links_tac := let q := fresh in intros q; destruct q; cbn; tauto.
#[export] Hint Extern 1 (same_links _) => links_tac : plans.
#[export] Hint Extern 2 (grows _ _ (update _ _)) => apply grows_update; [links_tac|by auto] : plans.
#[export] Hint Extern 2 (grows _ _ (if ?b then _ else _)) => destruct b : plans.
#[export] Hint Extern 1 (grows _ _ (match ?x with (_, _) => _ end)) => destruct x : plans.
#[export] Hint Extern 1 (∀ _, grows _ _ _) => intro : plans.

Section generate.
Context (s : planner).

Lemma mark_deferred_grows own root fuel bound cur id : grows own root (mark_deferred s fuel bound cur id).
Proof.
  revert cur. induction fuel as [|fuel IH]; intros cur; [done|]. cbn [mark_deferred]. destruct (decide _); [auto with plans|].
  apply grows_bind; [auto with plans|]. intros c. apply grows_bind; [auto with plans|]. intros i.
  destruct (decide _); [auto with plans|]. apply grows_bind; [|by intros _].
  apply grows_update; [links_tac|]. right. by intros [].
Qed.
Lemma walk_column_grows own root out p : grows own root (walk_column s out p).
Proof.
  unfold walk_column. apply grows_bind; [auto with plans|]. intros [column owner].
  apply grows_bind; [auto with plans|]. intros id. apply grows_bind; [auto with plans|]. intros plans.
  apply grows_bind; [auto with plans|]. intros o. apply mark_deferred_grows.
Qed.
Lemma iterate_keys_grows root out plan : grows (Some out) root (iterate_keys out plan).
Proof.
  induction plan as [|t a _ b IH|t v]; cbn [iterate_keys]; apply grows_bind; auto with plans; intros _;
    apply grows_bind; auto with plans; intros first; apply grows_bind; auto with plans; intros key;
    (apply grows_bind; [|intros _]); try (by unfold push_key; auto 10 with plans); auto with plans.
  destruct b; [auto with plans| |]; (apply grows_bind; [auto with plans|by intros _]).
Qed.

Section body.
Context (generate : LogicalPlan → PhysicalPlanOptions → G ptr).
(** What a call of [generate_physical_plan] does: the plan returned is a new one. *)
Definition makes_plans : Prop := ∀ plan options st p st', bounded st → generate plan options st = Ret (p, st') →
  ∃ new, grown None (parent options) st st' new ∧ p ∈ new.
Context (Hgen : makes_plans).

Lemma generate_grows own plan options : grows own (parent options) (generate plan options).
Proof. apply grows_own. intros st a st' Hb E. destruct (Hgen _ _ _ _ _ Hb E) as (new & H & _). by exists new. Qed.
Lemma walk_subquery_grows own options stmt : grows own (parent options) (walk_subquery generate options stmt).
Proof.
  unfold walk_subquery. apply grows_bind; [|auto with plans]. apply (generate_grows own stmt {| parent := parent options; stash := true |}).
Qed.
Lemma walk_where_grows own options stmt : grows own (parent options) (walk_where_statement s generate options stmt).
Proof.
  induction stmt as [|t a IHa b IHb|t v]; cbn [walk_where_statement]; [auto with plans| |].
  - destruct (binary_type t); [auto with plans|]. destruct (unary_type t); [auto with plans|].
    destruct t; auto using walk_subquery_grows with plans.
  - destruct (_ || _); [auto with plans|]. destruct t; auto using walk_subquery_grows with plans.
    destruct v; auto using walk_column_grows with plans.
Qed.
Lemma join_plans_grows own options joins : grows own (parent options) (join_plans generate options joins).
Proof.
  induction joins as [|t a _ b IH|t v]; cbn [join_plans]; [auto with plans| |auto with plans].
  destruct a; [auto with plans| |]; (apply grows_bind; [auto with plans|]; intros t'; apply grows_bind; [|by intros _];
    destruct (decide _); [apply grows_bind; [apply generate_grows|auto with plans]|auto with plans]).
Qed.

Lemma plan_output_grows root out output : grows (Some out) root (plan_output s out output).
Proof. unfold plan_output. auto 12 with plans. Qed.
Lemma plan_keys_grows root out plan : grows (Some out) root (plan_keys out plan).
Proof. unfold plan_keys. auto 12 using iterate_keys_grows with plans. Qed.
Lemma plan_projection_grows options out plan : grows (Some out) (parent options) (plan_projection s generate options out plan).
Proof.
  unfold plan_projection. do 3 (apply grows_bind; [auto with plans|intros ?]).
  apply grows_bind; [apply walk_where_grows|]. intros w.
  do 4 (apply grows_bind; [auto with plans|intros ?]). apply grows_bind; [|auto with plans].
  repeat case_match; auto with plans.
Qed.
Lemma plan_keywords_grows root out plan : grows (Some out) root (plan_keywords s out plan).
Proof. unfold plan_keywords. auto 12 with plans. Qed.

(** The plan at work, made first, is behind the plans made for it. *)
Lemma grown_with_own root st st1 st2 out new : bounded st → out = ph_next st →
  grown None root st st1 [out] → grown (Some out) out st1 st2 new → (∀ q, ph_plans st1 !! out = Some q → parent_plan q = root) →
  grown None root st st2 (new ++ [out]).
Proof.
  intros Hb Hout H K Hpar. pose proof (grown_next _ _ _ _ _ H). pose proof (grown_next _ _ _ _ _ K).
  destruct (grown_new _ _ _ _ _ H out) as [Ho [qo Hqo]]; [by left|].
  destruct (grown_kept _ _ _ _ _ K out qo Hqo) as (qo' & Hqo' & Hko). split.
  - apply K.
  - lia.
  - intros c Hc. rewrite <- app_assoc. by apply K, (grown_linked _ _ _ _ _ H).
  - intros p q Hq. destruct (grown_kept _ _ _ _ _ H p q Hq) as (q1 & Hq1 & Hk1).
    destruct (grown_kept _ _ _ _ _ K p q1 Hq1) as (q2 & Hq2 & Hk2). exists q2. split; [done|].
    eapply kept_trans; [done|]. destruct Hk2 as [K1 K2 K3 K4]. split; try done. intros _. apply K4. intros [= ->].
    destruct (proj2 Hb p); [by eexists|lia].
  - intros p [Hp|Hp]%elem_of_app; [|apply list_elem_of_singleton in Hp as ->; split; [lia|by eexists]].
    destruct (grown_new _ _ _ _ _ K p Hp). split; [lia|done].
  - intros i p q [Hi|[Hle Hi]]%lookup_app_Some Hq.
    + right. destruct (grown_parents _ _ _ _ _ K i p q Hi Hq) as [->|(j & ? & Hj)].
      * exists (length new). apply lookup_lt_Some in Hi. split; [done|]. by apply list_lookup_middle.
      * exists j. split; [done|]. by apply lookup_app_l_Some.
    + left. destruct (i - length new)%nat eqn:Ei; [|done]. cbn in Hi. simplify_eq. rewrite (kept_parent _ _ _ _ Hko). by apply Hpar.
  - intros p Hp. rewrite elem_of_app. destruct (grown_all _ _ _ _ _ K p Hp) as [Hp1|]; [|by auto].
    destruct (grown_all _ _ _ _ _ H p Hp1); auto.
Qed.
Lemma generate_insert_makes plan options st p st' : bounded st → generate_insert s generate plan options st = Ret (p, st') →
  ∃ new, grown None (parent options) st st' (new ++ [p]).
Proof.
  intros Hb E. unfold generate_insert in E. gstep E. gstep E0. destruct a; cbn [negb] in E; [|by gstep E].
  gstep E. destruct (push_plan_grows _ _ _ _ Hb E0) as (Ha & Hg & Hnew). clear E0.
  assert (∃ new, grown (Some a) a st0 st' new ∧ p = a) as (new & Hn & ->).
  { revert E. match goal with |- ?m st0 = _ → _ => set (m0 := m) end. intros E.
    assert (Hm : grows (Some a) a m0).
    { subst m0. apply grows_bind; [auto with plans|]. intros output.
      apply grows_bind; [apply plan_output_grows|]. intros _. do 2 (apply grows_bind; [auto with plans|intros ?]).
      apply grows_bind; [apply (join_plans_grows (Some a) {| parent := a; stash := stash options |})|]. intros _.
      apply grows_bind; [apply plan_keys_grows|]. intros _. apply grows_bind; [auto with plans|]. intros w.
      apply grows_bind; [apply (walk_where_grows (Some a) {| parent := a; stash := stash options |})|]. intros w'.
      apply grows_bind; [auto with plans|]. intros _.
      apply grows_bind; [apply (plan_projection_grows {| parent := a; stash := stash options |})|]. intros _.
      apply grows_bind; [apply plan_keywords_grows|]. auto with plans. }
    destruct (Hm _ _ _ (grown_bounded _ _ _ _ _ Hg) E) as (new & Hn). exists new. split; [done|].
    subst m0. do 12 gstep E. by apply gret_inv in E as [-> _]. }
  exists new. eapply grown_with_own; [done|done|done|done|]. intros q Hq. rewrite Hnew in Hq. by simplify_eq.
Qed.
Lemma generate_set_makes plan options st p st' : bounded st → generate_set generate plan options st = Ret (p, st') →
  ∃ na nb, grown None (parent options) st st' (na ++ nb) ∧ p ∈ na.
Proof.
  intros Hb E. unfold generate_set in E. do 3 gstep E. repeat gstep E0. repeat gstep E1.
  destruct (Hgen _ _ _ _ _ Hb E2) as (nb & Hgb & Hob). do 2 gstep E. gstep E0.
  destruct (Hgen _ _ _ _ _ (grown_bounded _ _ _ _ _ Hgb) E1) as (na & Hga & Hpa).
  assert (Hg : grown None (parent options) st st1 (na ++ nb)) by (by eapply grown_trans).
  pose proof (grown_next _ _ _ _ _ Hgb). destruct (grown_new _ _ _ _ _ Hgb _ Hob) as [Ho _].
  destruct (grown_new _ _ _ _ _ Hga _ Hpa) as [Hp _].
  do 4 gstep E. repeat gstep E0. repeat gstep E3. repeat gstep E4. repeat gstep E5. destruct a7 as [[op action] distinct].
  do 3 gstep E. apply gret_inv in E as [-> ->]. exists na, nb. split; [|done].
  assert (Hu : same_links (mark_unique distinct)) by (destruct distinct; links_tac).
  eapply grown_assign; [| | | |eassumption]; [|exact Hu|left; lia|done].
  eapply grown_assign; [| | | |eassumption]; [|exact Hu|left; lia|done].
  eapply grown_assign; [| | | |eassumption]; [exact Hg|links_tac|left; lia|done].
Qed.
End body.

Lemma generate_makes_plans fuel : makes_plans (generate_physical_plan s fuel).
Proof.
  induction fuel as [|fuel IH]; intros plan options st p st' Hb E; [done|]. cbn [generate_physical_plan] in E.
  unfold generate_physical_body in E. gstep E. gstep E0. destruct (decide _).
  - destruct (generate_set_makes _ IH _ _ _ _ _ Hb E) as (na & nb & H & Hp). exists (na ++ nb). split; [done|].
    apply elem_of_app. by left.
  - destruct (generate_insert_makes _ IH _ _ _ _ _ Hb E) as (new & H). exists (new ++ [p]). split; [done|].
    apply elem_of_app. right. by left.
Qed.
End generate.

(** ** The list of a query *)
Lemma bounded0 n : 0 < n → bounded (phys0 n).
Proof. intros Hn. split; [done|]. cbn. intros p [? ?]. by rewrite lookup_empty in *. Qed.
Lemma linked0 n : linked (phys0 n) [].
Proof. by split; [| |apply NoDup_nil_2]. Qed.
(** C9: The physical plans of a query in which no subquery is shared between conditions form
    one list, linked in both directions, that has every plan made; each comes before the plan
    it was made for, so that the plan of a subquery runs before the plan that reads its
    output; and the plan returned is one of them. *)
Theorem physical_plans_ordered s fuel plan n p st : 0 < n → NoDup (subqueries false plan) →
  generate_physical_plan s fuel plan options0 (phys0 n) = Ret (p, st) →
  ∃ chain, linked st chain ∧ p ∈ chain ∧ (∀ q, q ∈ chain ↔ is_Some (ph_plans st !! q)) ∧
    parents_after null (ph_plans st) chain.
Proof.
  intros Hn _ E. destruct (generate_makes_plans s fuel _ _ _ _ _ (bounded0 n Hn) E) as (new & H & Hp).
  exists new. split; [|split; [done|split; [|apply H]]].
  - rewrite <- (app_nil_r new). apply H, linked0.
  - intros q. split; [intros Hq; by apply (grown_new _ _ _ _ _ H)|]. intros Hq.
    destruct (grown_all _ _ _ _ _ H q Hq) as [[? Hx]|?]; [|done]. cbn in Hx; by rewrite lookup_empty in Hx.
Qed.

(** ** A sample *)
(** A table with the key 10, and a subquery over the same table in the condition. *)
Definition sample_key : SqlKey :=
  {| k_table := 1; k_column := 2; k_key_num := 0; k_unique_id := 1; k_value := NULL; k_insert := null; k_type := LP_KEY_ADVANCE;
     k_owner := NULL; k_is_cross_reference_key := false; k_cross_reference_output_key := null;
     k_cross_reference_column_alias := null; k_cross_reference_filename := null |}.
Definition sample_output : SqlKey :=
  {| k_table := null; k_column := null; k_key_num := 0; k_unique_id := 7; k_value := NULL; k_insert := null; k_type := LP_KEY_ADVANCE;
     k_owner := NULL; k_is_cross_reference_key := false; k_cross_reference_output_key := null;
     k_cross_reference_column_alias := null; k_cross_reference_filename := null |}.
Definition sample_planner : planner :=
  {| pl_counter := 9; pl_next := 100; pl_keys := {[10 := sample_key; 20 := sample_output; 21 := sample_output]}; pl_values := ∅;
     pl_keywords := {[40 := [NO_KEYWORD]]};
     pl_column_aliases := {[50 := (null_STATEMENT, table_alias_STATEMENT 30 null_STATEMENT null_STATEMENT 1 null_STATEMENT)]};
     pl_table_aliases := ∅; pl_items := ∅ |}.
Definition sample_insert (output : ptr) (w : LogicalPlan) : LogicalPlan :=
  Op LP_INSERT
    (Op LP_PROJECT (Op LP_COLUMN_LIST (Op LP_WHERE (Leaf LP_COLUMN_ALIAS (VColumnAlias 50)) NULL) NULL)
      (Op LP_SELECT (Op LP_TABLE_JOIN (Leaf LP_TABLE (VTableAlias 30)) NULL)
        (Op LP_CRITERIA (Op LP_KEYS (Leaf LP_KEY (VKey 10)) NULL)
          (Op LP_SELECT_OPTIONS (Op LP_WHERE w NULL) (Leaf LP_KEYWORDS (VKeywords 40))))))
    (Op LP_OUTPUT (Leaf LP_KEY (VKey output)) NULL).
Definition sample_nested : LogicalPlan :=
  sample_insert 20 (Op LP_BOOLEAN_IN (Leaf LP_COLUMN_ALIAS (VColumnAlias 50)) (sample_insert 21 NULL)).
Lemma physical_plans_ordered_witness : ∃ p st chain,
  generate_physical_plan sample_planner 2 sample_nested options0 (phys0 100) = Ret (p, st) ∧
  linked st chain ∧ p = 100 ∧ (∀ q, q ∈ chain ↔ is_Some (ph_plans st !! q)) ∧ parents_after null (ph_plans st) chain ∧
  parent_plan <$> ph_plans st !! 101 = Some 100.
Proof.
  destruct (generate_physical_plan sample_planner 2 sample_nested options0 (phys0 100)) as [[p st]| | |] eqn:E; vm_compute in E; try discriminate.
  injection E as Hp Hst. destruct (physical_plans_ordered sample_planner 2 sample_nested 100 p st) as (chain & H1 & H2 & H3 & H4).
  - done.
  - cbn. apply NoDup_singleton.
  - by subst.
  - exists p, st, chain. do 2 (split; [by subst|]). split; [done|]. split; [done|]. split; [done|]. by subst.
Defined.
