(* ===== verification/PhysicalEnds.v ===== *)
(** * Making physical plans ends

    The recursion into subqueries, and the search for the owner of a column along the
    parents of a plan. *)
From stdpp Require Import gmap strings.
From S2P Require Import Prelude CMem LogicalPlan LogicalPlanTheorems Dnf SqlStatement Optimize PhysicalPlan PhysicalTheorems.

(** A plan is younger than its parent. *)
Record younger (st : phys) : Prop := {
  younger_bounded : bounded st;
  younger_parent : ∀ (p : ptr) q, ph_plans st !! p = Some q → parent_plan q < p;
}.
Lemma younger_pos st : younger st → 0 < ph_next st.
Proof. intros [[H _] _]. done. Qed.
(** A computation for a plan whose parent is older than [st]: it ends, and keeps this. *)
Definition ends {A} (root : ptr) (m : G A) : Prop := ∀ st, younger st → root < ph_next st →
  m st ≠ NoFuel ∧ ∀ a st', m st = Ret (a, st') → younger st' ∧ ph_next st ≤ ph_next st'.

Lemma ends_bind {A B} root (m : G A) (f : A → G B) : ends root m → (∀ a, ends root (f a)) → ends root (m ≫= f).
Proof.
  intros Hm Hf st Hy Hr. destruct (Hm st Hy Hr) as [H1 H2]. unfold mbind, G_bind. destruct (m st) as [[a st1]| | |] eqn:E; try done.
  cbn. destruct (H2 a st1 eq_refl) as [Hy1 Hl]. destruct (Hf a st1 Hy1) as [H3 H4]; [lia|]. split; [done|].
  intros b st' E'. destruct (H4 b st' E'). split; [done|lia].
Qed.
Lemma ends_ret {A} root (a : A) : ends root (mret a : G A).
Proof. intros st Hy Hr. split; [done|]. intros b st' [= <- <-]. done. Qed.
Lemma ends_glift {A} root (o : outcome A) : o ≠ NoFuel → ends root (glift o).
Proof.
  intros Ho st Hy Hr. split; [by destruct o|]. intros a st' [_ ->]%glift_inv. done.
Qed.
Lemma ends_plan_at root p : ends root (plan_at p).
Proof.
  intros st Hy Hr. split; [unfold plan_at; by destruct (_ !! p)|]. intros a st' [_ ->]%plan_at_inv. done.
Qed.
Lemma ends_ggets {A} root (f : phys → A) : ends root (ggets f).
Proof. intros st Hy Hr. split; [done|]. by intros a st' [= _ <-]. Qed.
Lemma ends_warning root : ends root warning.
Proof. intros st [Hb Hy] Hr. split; [done|]. intros a st' [= _ <-]. split; [|done]. by split. Qed.
Lemma ends_update root p f : same_links f → ends root (update p f).
Proof.
  intros Hf st [Hb Hy] Hr. split; [unfold update; by destruct (_ !! p)|].
  intros a st' (q & Hq & ->)%update_inv. split; [|done]. split; [by apply bounded_update|]. cbn.
  intros r qr [[-> <-]|[_ Hrq]]%lookup_insert_Some; [|by apply Hy]. destruct (Hf q) as (_ & _ & -> & _). by apply Hy.
Qed.
Lemma found_fuel {A} (o : option A) : found o ≠ NoFuel.
Proof. by destruct o. Qed.
Lemma bind_fuel {A B} (x : outcome A) (f : A → outcome B) : x ≠ NoFuel → (∀ a, f a ≠ NoFuel) → (x ≫= f) ≠ NoFuel.
Proof. destruct x; naive_solver. Qed.
Lemma get_lp_fuel p side t : get_lp p side t ≠ NoFuel.
Proof. destruct p as [|t' a b|t' v]; [done| |done]. destruct side; cbn; [destruct b|destruct a]; try done; cbn; by case_bool_decide. Qed.

Create HintDb ends discriminated.
#[export] Hint Resolve ends_bind ends_ret ends_plan_at ends_ggets ends_warning found_fuel get_lp_fuel : ends.
#[export] Hint Extern 1 (ends _ (update _ _)) => apply ends_update; links_tac : ends.
#[export] Hint Extern 1 (ends _ (glift _)) => apply ends_glift : ends.
#[export] Hint Extern 1 (∀ _, ends _ _) => intro : ends.
#[export] Hint Extern 1 (∀ _, _ ≠ NoFuel) => intro : ends.
#[export] Hint Extern 2 (_ ≫= _ ≠ NoFuel) => apply bind_fuel : ends.
#[export] Hint Extern 3 (ends _ (if ?b then _ else _)) => destruct b : ends.
#[export] Hint Extern 2 (ends _ (match ?x with (_, _) => _ end)) => destruct x : ends.
#[export] Hint Extern 4 (lp_type ?p ≠ NoFuel) => by destruct p : ends.
#[export] Hint Extern 4 (operand ?p _ ≠ NoFuel) => by destruct p : ends.
#[export] Hint Extern 4 (lp_key ?p ≠ NoFuel) => by destruct p as [|? []|? []] : ends.
#[export] Hint Extern 4 (Ret _ ≠ NoFuel) => done : ends.
#[export] Hint Extern 4 (Undef _ ≠ NoFuel) => done : ends.
#[export] Hint Extern 4 (Halt _ ≠ NoFuel) => done : ends.
#[export] Hint Extern 4 (c_assert ?b ≠ NoFuel) => by destruct b : ends.

Section ends.
Context (s : planner).

Lemma key_index_fuel bound keys id : key_index s bound keys id ≠ NoFuel.
Proof.
  revert keys. induction bound as [|bound IH]; intros [|p keys]; try done. cbn [key_index].
  apply bind_fuel; [apply found_fuel|]. intros k. destruct (decide _); [done|]. apply bind_fuel; [apply IH|done].
Qed.
(** The plans not younger than [cur]: the search visits each once at most. *)
Definition left_to_visit (plans : gmap ptr PhysicalPlan) (cur : ptr) : nat :=
  size (filter (λ p, p ≤ cur) (dom plans : gset ptr)).
Lemma visit_parent plans cur par : is_Some (plans !! cur) → par < cur → (left_to_visit plans par < left_to_visit plans cur)%nat.
Proof.
  intros Hc Hlt. apply subset_size, strict_spec_alt. split.
  - intros p. rewrite !elem_of_filter. intros [? ?]. split; [lia|done].
  - intros E. assert (Hin : cur ∈ filter (λ p, p ≤ cur) (dom plans : gset ptr)) by (apply elem_of_filter; split; [lia|by apply elem_of_dom]).
    rewrite <- E, elem_of_filter in Hin. lia.
Qed.
(** One turn of the search. *)
Lemma mark_deferred_turn fuel bound cur id st : mark_deferred s (S fuel) bound cur id st =
  if decide (cur = null) then warning st
  else match ph_plans st !! cur with
  | None => Undef NullPointer
  | Some c =>
      match key_index s bound (iterKeys c) id with
      | Ret i =>
          if decide (i ≠ total_iter_keys c) then Ret ((), st)
          else mark_deferred s fuel bound (parent_plan c) id (with_plans (<[cur := set_deferred c]>) st)
      | Undef u => Undef u
      | Halt h => Halt h
      | NoFuel => NoFuel
      end
  end.
Proof.
  cbn [mark_deferred]. destruct (decide (cur = null)); [done|]. unfold mbind, G_bind, plan_at, glift, update.
  destruct (ph_plans st !! cur) as [c|] eqn:Hc; [|done]. cbn. destruct (key_index _ _ _ _); try done. cbn.
  destruct (decide _); [done|]. cbn. by rewrite Hc.
Qed.
Lemma mark_deferred_ends fuel bound cur id st : younger st → (left_to_visit (ph_plans st) cur < fuel)%nat →
  mark_deferred s fuel bound cur id st ≠ NoFuel ∧
  ∀ a st', mark_deferred s fuel bound cur id st = Ret (a, st') → younger st' ∧ ph_next st ≤ ph_next st'.
Proof.
  revert cur st. induction fuel as [|fuel IH]; intros cur st Hy Hlt; [lia|]. rewrite mark_deferred_turn.
  destruct (decide (cur = null)); [apply (ends_warning 0 st Hy), younger_pos, Hy|].
  destruct (ph_plans st !! cur) as [c|] eqn:Hc; [|split; [congruence|intros; congruence]].
  destruct (key_index s bound (iterKeys c) id) as [i| | |] eqn:Hk; 
    [|split; [congruence|intros; congruence]|split; [congruence|intros; congruence]|by destruct (key_index_fuel bound (iterKeys c) id)].
  destruct (decide _); [apply (ends_ret 0 () st Hy), younger_pos, Hy|]. set (st1 := with_plans _ st).
  assert (Hy1 : younger st1).
  { apply (ends_update 0 cur set_deferred ltac:(links_tac) st Hy) with (a := ()); [by apply younger_pos|]. unfold update. by rewrite Hc. }
  destruct (IH (parent_plan c) st1 Hy1) as [H1 H2]; [|split; [done|intros a st' E; by destruct (H2 a st' E)]].
  subst st1. unfold left_to_visit. cbn [ph_plans with_plans]. rewrite dom_insert_lookup_L by by eexists.
  fold (left_to_visit (ph_plans st) (parent_plan c)). pose proof (younger_parent _ Hy _ _ Hc).
  pose proof (visit_parent (ph_plans st) cur (parent_plan c) ltac:(by eexists) ltac:(done)). lia.
Qed.
Lemma walk_column_ends root out p : ends root (walk_column s out p).
Proof.
  unfold walk_column. apply ends_bind; [auto with ends|]. intros [column owner]. apply ends_bind; [apply ends_glift; by destruct owner|].
  intros id st Hy Hr. set (m := mbind _ _).
  assert (Em : m st = match ph_plans st !! out with
    | None => Undef NullPointer
    | Some o => mark_deferred s (S (S (size (ph_plans st)))) (total_iter_keys o) out id st
    end).
  { subst m. unfold mbind, G_bind, ggets, plan_at. cbn. by destruct (ph_plans st !! out). }
  rewrite Em. destruct (ph_plans st !! out) as [o|]; [|split; [congruence|intros; congruence]].
  apply mark_deferred_ends; [done|].
  unfold left_to_visit. rewrite <- size_dom. apply le_n_S, Nat.le_le_succ_r, subseteq_size.
  intros x [_ Hx]%elem_of_filter. done.
Qed.
Lemma iterate_keys_ends root out plan : ends root (iterate_keys out plan).
Proof.
  induction plan as [|t a _ b IH|t v]; cbn [iterate_keys]; (apply ends_bind; [auto with ends|]); intros _;
    (apply ends_bind; [auto with ends|]); intros first; (apply ends_bind; [auto with ends|]); intros key;
    (apply ends_bind; [unfold push_key; auto 10 with ends|]); intros _; auto with ends.
  destruct b; [auto with ends| |]; (apply ends_bind; [auto with ends|by intros _]).
Qed.

(** *** Sizes of what the accessors return *)
Lemma operand_size p side c : operand p side = Ret c → (lp_size c < lp_size p)%nat.
Proof. destruct p as [|t a b|t v]; try done. intros [= <-]. cbn. destruct side; lia. Qed.
Lemma get_lp_size p side t c : get_lp p side t = Ret c → (lp_size c < lp_size p)%nat.
Proof.
  unfold get_lp. intros E. apply bind_ret_inv in E as (c' & E1 & E). apply bind_ret_inv in E as (t' & _ & E).
  apply bind_ret_inv in E as (u & _ & [= <-]). by eapply operand_size.
Qed.
Lemma lp_get_select_size p c : lp_get_select p = Ret c → (lp_size c < lp_size p)%nat.
Proof.
  unfold lp_get_select. intros E. apply bind_ret_inv in E as (c' & E1%get_lp_size & E%get_lp_size). lia.
Qed.
Lemma lp_get_select_where_size p c : lp_get_select_where p = Ret c → (lp_size c < lp_size p)%nat.
Proof.
  unfold lp_get_select_where. intros E. apply bind_ret_inv in E as (c1 & E1%lp_get_select_size & E).
  apply bind_ret_inv in E as (c2 & E2%get_lp_size & E). apply bind_ret_inv in E as (c3 & E3%get_lp_size & E%get_lp_size). lia.
Qed.
Lemma lp_get_project_size p c : lp_get_project p = Ret c → (lp_size c < lp_size p)%nat.
Proof.
  unfold lp_get_project. intros E. apply bind_ret_inv in E as (t & _ & E). apply bind_ret_inv in E as (u & _ & E%get_lp_size). lia.
Qed.

(** A step whose result the next one needs. *)
Lemma ends_glift_bind {A B} root (o : outcome A) (f : A → G B) : o ≠ NoFuel →
  (∀ a, o = Ret a → ends root (f a)) → ends root (glift o ≫= f).
Proof.
  intros Ho Hf. destruct o as [a|u|h|] eqn:E; try done. intros st Hy Hr. by apply (Hf a eq_refl).
Qed.
Lemma verify_fuel keys p : (∀ t, lp_verify_structure_helper keys p t ≠ NoFuel).
Proof.
  assert (Hany : ∀ f ts, (∀ t, f t ≠ NoFuel) → any_of f ts ≠ NoFuel).
  { intros f ts Hf. induction ts as [|t ts IH]; [done|]. cbn. auto with ends. }
  assert (Hkey : ∀ fixed a b, check_key keys fixed a b ≠ NoFuel).
  { intros fixed a b. unfold check_key. destruct (is_null a); [done|]. destruct (negb (is_null b)); [done|].
    apply bind_fuel; [by destruct a as [|? []|? []]|]. intros k. repeat case_match; done. }
  induction p as [|t a IHa b IHb|t v]; intros e; cbn [lp_verify_structure_helper]; [done| |].
  - destruct (decide _); [done|]. destruct (shape_of e); repeat (case_match; try done); auto 6 with ends.
  - destruct (decide _); [done|]. by destruct (shape_of e).
Qed.

Section body.
Context (generate : LogicalPlan → PhysicalPlanOptions → G ptr) (n : nat).
Context (Hgen : ∀ plan options, (lp_size plan < n)%nat → ends (parent options) (generate plan options)).

Lemma walk_where_ends options stmt : (lp_size stmt < n)%nat → ends (parent options) (walk_where_statement s generate options stmt).
Proof.
  assert (Hsub : ∀ stmt, (lp_size stmt < n)%nat → ends (parent options) (walk_subquery generate options stmt)).
  { intros stmt' H. unfold walk_subquery. apply ends_bind; [|auto with ends].
    by apply (Hgen stmt' {| parent := parent options; stash := true |}). }
  induction stmt as [|t a IHa b IHb|t v]; intros Hn; cbn [walk_where_statement]; [auto with ends| |].
  - assert (Ha : ends (parent options) (walk_where_statement s generate options a)) by (apply IHa; cbn in Hn; lia).
    assert (Hb : ends (parent options) (walk_where_statement s generate options b)) by (apply IHb; cbn in Hn; lia).
    destruct (binary_type t); [auto with ends|]. destruct (unary_type t); [auto with ends|]. destruct t; auto with ends.
  - destruct (_ || _); [auto with ends|]. destruct t; auto with ends. destruct v; auto using walk_column_ends with ends.
Qed.
Lemma join_plans_ends options joins : (lp_size joins ≤ n)%nat → ends (parent options) (join_plans generate options joins).
Proof.
  induction joins as [|t a _ b IH|t v]; intros Hn; cbn [join_plans]; [auto with ends| |auto with ends].
  assert (Hb : ends (parent options) (join_plans generate options b)) by (apply IH; cbn in Hn; lia).
  assert (Ha : ends (parent options) (generate a options)) by (apply Hgen; cbn in Hn; lia).
  destruct a; auto 8 with ends.
Qed.
Lemma generate_set_ends plan options : (lp_size plan ≤ n)%nat → ends (parent options) (generate_set generate plan options).
Proof.
  intros Hn. unfold generate_set. apply ends_glift_bind; [auto with ends|]. intros plans H1%operand_size.
  apply ends_glift_bind; [auto with ends|]. intros b H2%operand_size. apply ends_bind; [apply Hgen; lia|]. intros out.
  apply ends_glift_bind; [auto with ends|]. intros a H3%operand_size. apply ends_bind; [apply Hgen; lia|]. intros prev.
  do 2 (apply ends_bind; [auto with ends|intros ?]). apply ends_bind; [auto with ends|]. intros t.
  apply ends_bind; [apply ends_glift; by destruct t|]. intros [[op action] distinct].
  assert (Hu : same_links (mark_unique distinct)) by (destruct distinct; links_tac).
  auto 8 using ends_update with ends.
Qed.
Lemma plan_output_ends root out output : ends root (plan_output s out output).
Proof.
  unfold plan_output. apply ends_bind; [auto with ends|]. intros first. apply ends_bind; [auto with ends|]. intros t.
  apply ends_bind; [|auto 8 with ends]. destruct (decide _); [unfold pkey; auto 8 with ends|]. destruct (decide _); [|auto with ends].
  apply ends_bind; [|auto with ends]. apply ends_glift, bind_fuel; [auto with ends|]. intros b. by destruct b as [|? []|? []].
Qed.
Lemma accessor_fuel p : lp_get_select p ≠ NoFuel ∧ lp_get_keys p ≠ NoFuel ∧ lp_get_select_where p ≠ NoFuel ∧
  lp_get_project p ≠ NoFuel ∧ lp_get_projection_columns p ≠ NoFuel ∧ (k ← lp_get_select_keywords p; lp_keywords k) ≠ NoFuel.
Proof.
  assert (Hs : lp_get_select p ≠ NoFuel) by (unfold lp_get_select; auto with ends).
  split; [done|]. split; [unfold lp_get_keys; auto 8 with ends|]. split; [unfold lp_get_select_where; auto 8 with ends|].
  split; [unfold lp_get_project; auto 8 with ends|]. split; [unfold lp_get_projection_columns; auto 8 with ends|].
  apply bind_fuel; [unfold lp_get_select_keywords; auto 8 with ends|]. intros k. by destruct k as [|? []|? []].
Qed.
Lemma plan_projection_ends options out plan : (lp_size plan ≤ n)%nat → ends (parent options) (plan_projection s generate options out plan).
Proof.
  intros Hn. destruct (accessor_fuel plan) as (F1 & F2 & F3 & F4 & F5 & F6). unfold plan_projection.
  apply ends_glift_bind; [done|]. intros project H1%lp_get_project_size.
  apply ends_glift_bind; [auto with ends|]. intros columns H2%operand_size.
  apply ends_glift_bind; [auto with ends|]. intros column H3%operand_size.
  apply ends_bind; [apply walk_where_ends; lia|]. intros walked. apply ends_bind; [auto with ends|]. intros _.
  apply ends_glift_bind; [done|]. intros ks _. apply ends_bind; [auto with ends|]. intros _.
  apply ends_glift_bind; [done|]. intros columns' _. apply ends_bind; [|auto with ends].
  assert (Hset : ends (parent options) (glift (set_operand columns' false walked))) by (apply ends_glift; by destruct columns').
  repeat case_match; auto with ends.
Qed.
(** A new plan is younger than its parent and the parent of what is made for it. *)
Lemma ends_push {B} root (f : ptr → G B) : (∀ out, ends out (f out)) → ends root (push_plan root ≫= f).
Proof.
  intros Hf st Hy Hr. destruct (push_plan root st) as [[out st1]|u|h|] eqn:Ep.
  - destruct (push_plan_grows _ _ _ _ (younger_bounded _ Hy) Ep) as (Hout & Hg & Hnew).
    pose proof (grown_next _ _ _ _ _ Hg). destruct (grown_new _ _ _ _ _ Hg out) as [Hlt _]; [by left|].
    assert (Hy1 : younger st1).
    { split; [apply Hg|]. intros p q Hq. destruct (grown_all _ _ _ _ _ Hg p) as [[q0 Hq0]|Hin]; [by eexists| |apply list_elem_of_singleton in Hin as ->].
      - destruct (grown_kept _ _ _ _ _ Hg p q0 Hq0) as (q' & Hq' & Hk). rewrite Hq' in Hq. injection Hq as ->. rewrite (kept_parent _ _ _ _ Hk).
        by eapply younger_parent.
      - rewrite Hnew in Hq. simplify_eq. cbn. lia. }
    unfold mbind, G_bind. rewrite Ep. cbn. destruct (Hf out st1 Hy1) as [H1 H2]; [lia|]. split; [done|].
    intros b st' E. destruct (H2 b st' E). split; [done|lia].
  - unfold mbind, G_bind. rewrite Ep. cbn. split; [congruence|intros; congruence].
  - unfold mbind, G_bind. rewrite Ep. cbn. split; [congruence|intros; congruence].
  - exfalso. unfold push_plan in Ep. destruct (decide _); [done|]. by destruct (_ !! _).
Qed.
Lemma generate_insert_ends plan options : (lp_size plan ≤ n)%nat → ends (parent options) (generate_insert s generate plan options).
Proof.
  intros Hn. destruct (accessor_fuel plan) as (F1 & F2 & F3 & F4 & F5 & F6). unfold generate_insert.
  apply ends_glift_bind; [unfold lp_verify_structure; apply bind_fuel; [by destruct plan|intros t; destruct (decide _); [done|apply verify_fuel]]|].
  intros ok _. destruct (negb ok); [auto with ends|]. apply ends_push. intros out.
  apply ends_bind; [auto with ends|]. intros output. apply ends_bind; [apply plan_output_ends|]. intros _.
  apply ends_glift_bind; [done|]. intros select H1%lp_get_select_size.
  apply ends_glift_bind; [auto with ends|]. intros joins H2%get_lp_size.
  apply ends_bind; [apply (join_plans_ends {| parent := out; stash := stash options |}); lia|]. intros _.
  apply ends_bind; [unfold plan_keys; auto 8 using iterate_keys_ends with ends|]. intros _.
  apply ends_glift_bind; [done|]. intros w H3%lp_get_select_where_size.
  apply ends_bind; [apply (walk_where_ends {| parent := out; stash := stash options |}); lia|]. intros w'.
  apply ends_bind; [auto with ends|]. intros _.
  apply ends_bind; [apply (plan_projection_ends {| parent := out; stash := stash options |}); lia|]. intros _.
  apply ends_bind; [|auto with ends]. unfold plan_keywords. auto 8 with ends.
Qed.
End body.

Lemma generate_physical_ends fuel plan options : (lp_size plan ≤ fuel)%nat → ends (parent options) (generate_physical_plan s fuel plan options).
Proof.
  revert plan options. induction fuel as [|fuel IH]; intros plan options Hn; [by destruct plan; cbn in Hn; lia|].
  cbn [generate_physical_plan]. unfold generate_physical_body. apply ends_bind; [auto with ends|]. intros t.
  destruct (decide _); [apply (generate_set_ends _ (S fuel))|apply (generate_insert_ends _ (S fuel))]; try done;
    intros plan' options' H'; apply IH; lia.
Qed.
End ends.

(** C10: Making the physical plans of a query ends: with the size of the logical plan as fuel
    [generate_physical_plan] never runs out of it, whatever the plan - neither the recursion
    into subqueries nor the search for the owner of a column, which visits each plan once. *)
Theorem physical_plan_ends s plan n : 0 < n →
  generate_physical_plan s (lp_size plan) plan options0 (phys0 n) ≠ NoFuel.
Proof.
  intros Hn. apply (generate_physical_ends s (lp_size plan) plan options0); [done| |done].
  split; [by apply bounded0|]. cbn. intros p q Hq. by rewrite lookup_empty in Hq.
Qed.
Lemma physical_plan_ends_witness : 0 < 100 ∧ generate_physical_plan sample_planner (lp_size sample_nested) sample_nested options0 (phys0 100) ≠ NoFuel.
Proof. split; [lia|]. apply (physical_plan_ends sample_planner sample_nested 100). lia. Defined.
