(* ===== verification/PhysicalSelect.v ===== *)
(** * The physical plans of set operations

    A SELECT over tables becomes one physical plan; the plans of a set operation become a
    sequence of plans that work on one output, each with what it does to the rows that are
    there.  Where the sequence has the value of the set operation, and where it has not. *)
From stdpp Require Import gmap strings.
From S2P Require Import Prelude CMem LogicalPlan LogicalPlanTheorems Dnf DnfTheorems DnfClauses SqlStatement Optimize OptimizeStore FixTheorems OptimizeTheorems PhysicalPlan PhysicalTheorems PhysicalEnds.

(** ** Running *)
Lemma gbind_run {A B} (x : G A) (f : A → G B) st a st1 : x st = Ret (a, st1) → (x ≫= f) st = f a st1.
Proof. intros E. unfold mbind, G_bind. by rewrite E. Qed.
Lemma glift_run {A B} (o : outcome A) (f : A → G B) st a : o = Ret a → (glift o ≫= f) st = f a st.
Proof. by intros ->. Qed.
Lemma plan_at_run {B} p (f : PhysicalPlan → G B) st q : ph_plans st !! p = Some q → (plan_at p ≫= f) st = f q st.
Proof. intros E. apply gbind_run. unfold plan_at. by rewrite E. Qed.
Lemma update_run {B} p g (f : () → G B) st q : ph_plans st !! p = Some q →
  (update p g ≫= f) st = f () (with_plans (<[p := g q]>) st).
Proof. intros E. apply gbind_run. unfold update. by rewrite E. Qed.

(** ** SELECT over tables *)
Fixpoint tables_only (joins : LogicalPlan) : Prop :=
  match joins with
  | NULL => True
  | Op _ a b => a = NULL ∨ (∃ t, lp_type a = Ret t ∧ t ≠ LP_INSERT ∧ t ≠ LP_SET_OPERATION) ∧ tables_only b
  | Leaf _ _ => False
  end.
Section select.
Context (s : planner).

(** A column of a table that the plan with these keys reads. *)
Definition own_column (keys : list ptr) (p : ptr) : Prop :=
  ∃ column q table alias id list, pl_column_aliases s !! p = Some (column, table_alias_STATEMENT q table alias id list) ∧
    ∃ key k, key ∈ keys ∧ pl_keys s !! key = Some k ∧ k_unique_id k = id.
(** An expression without subqueries over such columns. *)
Fixpoint own_expression (keys : list ptr) (stmt : LogicalPlan) : Prop :=
  match stmt with
  | NULL => True
  | Op t a b =>
      if binary_type t then own_expression keys a ∧ own_expression keys b
      else if unary_type t then own_expression keys a
      else match t with
      | LP_KEY | LP_DERIVED_COLUMN | LP_VALUE => True
      | LP_WHERE => own_expression keys a
      | LP_FUNCTION_CALL | LP_COLUMN_LIST | LP_CASE | LP_CASE_STATEMENT | LP_CASE_BRANCH
      | LP_CASE_BRANCH_STATEMENT => own_expression keys a ∧ own_expression keys b
      | _ => False
      end
  | Leaf LP_KEY _ | Leaf LP_DERIVED_COLUMN _ | Leaf LP_VALUE _ => True
  | Leaf LP_COLUMN_ALIAS (VColumnAlias p) => own_column keys p
  | Leaf _ _ => False
  end.
Lemma key_index_own keys id : Forall (λ p, is_Some (pl_keys s !! p)) keys →
  (∃ key k, key ∈ keys ∧ pl_keys s !! key = Some k ∧ k_unique_id k = id) →
  ∃ i, key_index s (length keys) keys id = Ret i ∧ (i < length keys)%nat.
Proof.
  intros Hk (key & k & Hin & Hkk & Hid). induction keys as [|p keys IH]; [by apply not_elem_of_nil in Hin|].
  apply list.Forall_cons in Hk as [[kp Hp] Hk]. cbn [key_index length]. unfold pkey. rewrite Hp. cbn [found mbind outcome_bind].
  destruct (decide (k_unique_id kp = id)) as [|Hne]; [exists O; split; [done|lia]|].
  apply elem_of_cons in Hin as [->|Hin]; [congruence|]. destruct (IH Hk Hin) as (i & -> & Hi). exists (S i). split; [done|lia].
Qed.
Section walk.
Context (generate : LogicalPlan → PhysicalPlanOptions → G ptr) (out : ptr) (o : PhysicalPlan) (st : phys) (b : bool).
Context (Hout : out ≠ null) (Ho : ph_plans st !! out = Some o).
Context (Hkeys : Forall (λ p, is_Some (pl_keys s !! p)) (iterKeys o)).

Lemma walk_column_own p : own_column (iterKeys o) p → walk_column s out p st = Ret ((), st).
Proof.
  intros (column & q & table & alias & id & list & Ha & Hk). unfold walk_column.
  rewrite (glift_run _ _ _ (column, table_alias_STATEMENT q table alias id list)) by (by rewrite Ha).
  rewrite (glift_run _ _ _ id) by done. rewrite (gbind_run (ggets ph_plans) _ st (ph_plans st) st) by done.
  rewrite (plan_at_run _ _ _ o) by done. rewrite mark_deferred_turn, decide_False, Ho by done.
  destruct (key_index_own (iterKeys o) id Hkeys Hk) as (i & Hi & Hlt).
  unfold total_iter_keys. rewrite Hi. by rewrite decide_True by lia.
Qed.
Lemma walk_own stmt : own_expression (iterKeys o) stmt →
  walk_where_statement s generate {| parent := out; stash := b |} stmt st = Ret (stmt, st).
Proof.
  induction stmt as [|t x IHx y IHy|t v]; [done| |].
  - cbn [walk_where_statement own_expression].
    assert (Hfirst : own_expression (iterKeys o) x →
      ((a ← walk_where_statement s generate {| parent := out; stash := b |} x; mret (Op t a y)) : G _) st = Ret (Op t x y, st)).
    { intros H. by rewrite (gbind_run _ _ _ _ _ (IHx H)). }
    assert (Hboth : own_expression (iterKeys o) x ∧ own_expression (iterKeys o) y →
      ((a ← walk_where_statement s generate {| parent := out; stash := b |} x;
        c ← walk_where_statement s generate {| parent := out; stash := b |} y; mret (Op t a c)) : G _) st = Ret (Op t x y, st)).
    { intros [H1 H2]. rewrite (gbind_run _ _ _ _ _ (IHx H1)). by rewrite (gbind_run _ _ _ _ _ (IHy H2)). }
    destruct (binary_type t); [done|]. destruct (unary_type t); [done|]. by destruct t.
  - destruct t; try done. destruct v; try done. cbn [walk_where_statement own_expression parent]. intros H.
    unfold mbind, G_bind. cbn -[walk_column]. by rewrite (walk_column_own p H).
Qed.
Lemma join_plans_tables options joins : tables_only joins → join_plans generate options joins st = Ret ((), st).
Proof.
  induction joins as [|t x _ y IH|t v]; [done| |done]. cbn [tables_only join_plans]. intros [->|[(t' & Ht & H1 & H2) H]]; [done|].
  destruct x; [done| |]; (rewrite (glift_run _ _ _ t') by done; rewrite decide_False by tauto; rewrite (gbind_run _ _ _ () st) by done; by apply IH).
Qed.
End walk.

(** The list of keys, one after the other. *)
Lemma iterate_keys_chain ks : ∀ out st o, ph_plans st !! out = Some o → ks ≠ [] → (total_iter_keys o + length ks ≤ MAX_KEY_COUNT)%nat →
  iterate_keys out (chain_of ks) st = Ret ((), with_plans (<[out := set_iterKeys (iterKeys o ++ ks) o]>) st).
Proof.
  induction ks as [|k ks IH]; intros out st o Ho Hne Hlen; [done|]. destruct (chain_of_cons k ks) as (rest & -> & Er).
  cbn [iterate_keys]. rewrite (glift_run _ _ _ ()) by done. rewrite (glift_run _ _ _ (Leaf LP_KEY (VKey k))) by done.
  rewrite (glift_run _ _ _ k) by done.
  assert (Ep : push_key out k st = Ret ((), with_plans (<[out := set_iterKeys (iterKeys o ++ [k]) o]>) st)).
  { unfold push_key. rewrite (plan_at_run _ _ _ o) by done. rewrite decide_True by (cbn in Hlen; lia). unfold update. by rewrite Ho. }
  rewrite (gbind_run _ _ _ _ _ Ep). destruct ks as [|k' ks]; subst rest; [done|].
  destruct (chain_of_cons k' ks) as (rest' & E' & _). rewrite E'. cbn iota.
  rewrite (glift_run _ _ _ (Op LP_KEYS (Leaf LP_KEY (VKey k')) rest')) by done. rewrite <- E'.
  rewrite (IH out _ (set_iterKeys (iterKeys o ++ [k]) o)).
  - unfold with_plans. cbn. rewrite insert_insert_eq. do 3 f_equal. destruct o; cbn. by rewrite <- app_assoc.
  - cbn. by rewrite lookup_insert_eq.
  - done.
  - destruct o. unfold total_iter_keys in *. cbn in *. rewrite length_app. cbn. lia.
Qed.

(** A query whose plan is one physical plan. *)
Record plain (q : query) (k : ptr) (key : SqlKey) (ring : list OptionalKeyword) (first rest : LogicalPlan) : Prop := {
  pl_verified : lp_verify_structure (pl_keys s) (plan_of q) = Ret true;
  pl_output : q_output q = Op LP_OUTPUT (Leaf LP_KEY (VKey k)) NULL;
  pl_output_key : pl_keys s !! k = Some key;
  pl_columns : q_columns q = Op LP_COLUMN_LIST first rest;
  pl_tables : lp_type (q_tables q) = Ret LP_TABLE_JOIN ∧ tables_only (q_tables q);
  pl_iter_keys : q_keys q ≠ [] ∧ (length (q_keys q) ≤ MAX_KEY_COUNT)%nat ∧ Forall (λ p, is_Some (pl_keys s !! p)) (q_keys q);
  pl_condition : own_expression (q_keys q) (q_where q);
  pl_first : own_expression (q_keys q) first;
  pl_ring : pl_keywords s !! q_keywords q = Some ring;
}.
(** ... and what it is. *)
Definition physical_of (q : query) (k : ptr) (key : SqlKey) (ring : list OptionalKeyword) (options : PhysicalPlanOptions) (next : ptr) : PhysicalPlan :=
  let distinct := bool_decide (OPTIONAL_DISTINCT ∈ ring) in
  PP [] [] null next (q_keys q) k null (Op LP_WHERE (q_where q) (q_rest q)) (q_columns q) NULL (q_keywords q) (stash options)
     (k_is_cross_reference_key key) distinct distinct PP_PROJECT PP_NOT_SET false (parent options)
     (bool_decide (OPTIONAL_PART_OF_EXPANSION ∈ ring)).

(** The states in which the plan at work is [o]. *)
Section steps.
Context (fuel : nat) (options : PhysicalPlanOptions) (out : ptr) (st1 : phys).
Context (q : query) (k : ptr) (key : SqlKey) (ring : list OptionalKeyword) (first rest : LogicalPlan).
Context (Hout : out ≠ null) (Hp : plain q k key ring first rest).
Definition working (o : PhysicalPlan) : phys := with_plans (<[out := o]>) st1.

Lemma working_at o : ph_plans (working o) !! out = Some o.
Proof. unfold working. cbn. by rewrite lookup_insert_eq. Qed.
Lemma update_working g o : update out g (working o) = Ret ((), working (g o)).
Proof. unfold update, working, with_plans. cbn. rewrite lookup_insert_eq. cbn. by rewrite insert_insert_eq. Qed.
Lemma update_working_bind {B} g o (f : () → G B) : (update out g ≫= f) (working o) = f () (working (g o)).
Proof. apply gbind_run, update_working. Qed.
Lemma output_run o : plan_output s out (q_output q) (working o) = Ret ((), working (set_output k null (k_is_cross_reference_key key) o)).
Proof.
  unfold plan_output. rewrite (pl_output _ _ _ _ _ _ Hp). rewrite (glift_run _ _ _ (Leaf LP_KEY (VKey k))) by done.
  rewrite (glift_run _ _ _ LP_KEY) by done. rewrite decide_True by done. erewrite gbind_run; [by rewrite (glift_run _ _ _ NULL)|].
  rewrite (glift_run _ _ _ k) by done. rewrite (glift_run _ _ _ key) by (unfold pkey; by rewrite (pl_output_key _ _ _ _ _ _ Hp)).
  apply update_working.
Qed.
Lemma keys_run o : iterKeys o = [] → plan_keys out (plan_of q) (working o) = Ret ((), working (set_iterKeys (q_keys q) o)).
Proof.
  destruct (pl_iter_keys _ _ _ _ _ _ Hp) as (H1 & H2 & _). intros Ho.
  unfold plan_keys. rewrite (glift_run _ _ _ _ (keys_of q)). destruct (q_keys q) as [|k0 ks]; [done|].
  destruct (chain_of_cons k0 ks) as (rest' & E' & _). rewrite (glift_run _ _ _ (Leaf LP_KEY (VKey k0))) by (by rewrite E').
  rewrite (plan_at_run _ _ _ o) by apply working_at.
  rewrite (glift_run _ _ _ ()) by (by rewrite orb_true_r). cbn [is_null].
  rewrite (iterate_keys_chain (k0 :: ks) out _ o); [|apply working_at|done|unfold total_iter_keys; by rewrite Ho].
  unfold working, with_plans. cbn. by rewrite insert_insert_eq, Ho.
Qed.
Lemma walk_run x o : iterKeys o = q_keys q → own_expression (q_keys q) x →
  walk_where_statement s (generate_physical_plan s fuel) {| parent := out; stash := stash options |} x (working o) = Ret (x, working o).
Proof.
  intros Ek Hx. apply (walk_own _ _ o); [done|apply working_at|rewrite Ek; apply (pl_iter_keys _ _ _ _ _ _ Hp)|by rewrite Ek].
Qed.
Lemma projection_run o : iterKeys o = q_keys q →
  plan_projection s (generate_physical_plan s fuel) {| parent := out; stash := stash options |} out (plan_of q) (working o) =
    Ret ((), working (set_projection (q_columns q) (set_keywords (q_keywords q) (set_projection first o)))).
Proof.
  intros Ek. pose proof (pl_columns _ _ _ _ _ _ Hp) as Hc. unfold plan_projection.
  rewrite (glift_run _ _ _ (Op LP_PROJECT (q_columns q) _)) by done. rewrite (glift_run _ _ _ (q_columns q)) by done.
  rewrite (glift_run _ _ _ first) by (by rewrite Hc).
  rewrite (gbind_run _ _ _ _ _ (walk_run first o Ek (pl_first _ _ _ _ _ _ Hp))), update_working_bind.
  rewrite (glift_run _ _ _ (q_keywords q)) by done. rewrite update_working_bind.
  rewrite (glift_run _ _ _ (q_columns q)) by (unfold lp_get_projection_columns; cbn; by rewrite Hc).
  erewrite gbind_run; [apply update_working|]. by destruct first as [|[] ? ?|]; rewrite ?Hc.
Qed.
Lemma keywords_run o : plan_keywords s out (plan_of q) (working o) = Ret ((), working
  ((if decide (OPTIONAL_PART_OF_EXPANSION ∈ ring) then set_duplication_check else id)
   ((if decide (OPTIONAL_DISTINCT ∈ ring) then set_distinct else id) o))).
Proof.
  unfold plan_keywords. rewrite (glift_run _ _ _ (q_keywords q)) by done.
  rewrite (glift_run _ _ _ ring) by (by rewrite (pl_ring _ _ _ _ _ _ Hp)). erewrite gbind_run.
  - destruct (decide (OPTIONAL_PART_OF_EXPANSION ∈ ring)); [apply update_working|done].
  - destruct (decide (OPTIONAL_DISTINCT ∈ ring)); [apply update_working|done].
Qed.
End steps.

Lemma physical_select fuel q k key ring first rest options st out st1 : plain q k key ring first rest → bounded st →
  push_plan (parent options) st = Ret (out, st1) →
  generate_physical_plan s (S fuel) (plan_of q) options st =
    Ret (out, working out st1 (physical_of q k key ring options (ph_last st))).
Proof.
  intros Hp Hb Ep. destruct (push_plan_grows _ _ _ _ Hb Ep) as (Hout & Hg & Hnew).
  destruct (grown_new _ _ _ _ _ Hg out) as [Hlt _]; [by left|]. destruct Hb as [Hpos _].
  assert (Hnull : out ≠ null) by (unfold null; lia). destruct (pl_tables _ _ _ _ _ _ Hp) as [Ht1 Ht2].
  cbn [generate_physical_plan]. unfold generate_physical_body. rewrite (glift_run _ _ _ LP_INSERT) by done. rewrite decide_False by done.
  unfold generate_insert. rewrite (glift_run _ _ _ true) by apply Hp. cbn [negb]. rewrite (gbind_run _ _ _ _ _ Ep).
  rewrite (glift_run _ _ _ (q_output q)) by (apply get_lp_op; by rewrite (pl_output _ _ _ _ _ _ Hp)).
  assert (E0 : st1 = working out st1 (new_plan (parent options) (ph_last st))).
  { unfold working, with_plans. destruct st1; cbn in *. by rewrite insert_id. }
  rewrite E0 at 1. rewrite (gbind_run _ _ _ _ _ (output_run out st1 q k key ring first rest Hp _)).
  rewrite (glift_run _ _ _ _ (select_of q)). rewrite (glift_run _ _ _ (q_tables q)) by (by apply get_lp_op).
  rewrite (gbind_run _ _ _ () _ (join_plans_tables _ _ _ _ Ht2)).
  erewrite gbind_run by (eapply keys_run; done). rewrite (glift_run _ _ _ _ (where_of q)).
  erewrite gbind_run by (eapply walk_run; [done|done|done|apply (pl_condition _ _ _ _ _ _ Hp)]). rewrite update_working_bind.
  erewrite gbind_run by (eapply projection_run; done).
  rewrite (gbind_run _ _ _ _ _ (keywords_run out st1 q k key ring first rest Hp _)), update_working_bind. unfold physical_of. cbn.
  by destruct (decide (OPTIONAL_PART_OF_EXPANSION ∈ ring)), (decide (OPTIONAL_DISTINCT ∈ ring));
    rewrite ?(bool_decide_eq_true_2 (OPTIONAL_PART_OF_EXPANSION ∈ ring)), ?(bool_decide_eq_false_2 (OPTIONAL_PART_OF_EXPANSION ∈ ring)),
      ?(bool_decide_eq_true_2 (OPTIONAL_DISTINCT ∈ ring)), ?(bool_decide_eq_false_2 (OPTIONAL_DISTINCT ∈ ring)) by done.
Qed.
End select.
