(* ===== verification/PhysicalSets.v ===== *)
(** * Set operations as sequences of plans

    The physical plans of UNION, EXCEPT and INTERSECT over SELECTs, which plan does what with
    its rows, what running them in order leaves in the cursor ([PlanRun]), and for which
    statements that is what was asked for. *)
From stdpp Require Import gmap strings.
From S2P Require Import Prelude CMem LogicalPlan LogicalPlanTheorems Dnf SqlStatement Optimize OptimizeStore FixTheorems OptimizeTheorems PhysicalPlan PlanRun PhysicalTheorems PhysicalEnds PhysicalSelect.

(** ** Plans of set operations over SELECTs *)
Inductive set_tree :=
  | SetSelect (q : query)
  | SetOf (t : LPActionType) (a b : set_tree).
Fixpoint tree_plan (t : set_tree) : LogicalPlan :=
  match t with
  | SetSelect q => plan_of q
  | SetOf t a b => Op LP_SET_OPERATION (Op LP_SET_OPTION (malloc_lp t) NULL) (Op LP_PLANS (tree_plan a) (tree_plan b))
  end.
Fixpoint tree_depth (t : set_tree) : nat :=
  match t with SetSelect _ => 1 | SetOf _ a b => S (Nat.max (tree_depth a) (tree_depth b)) end.
(** What the second plan of the operation does; the operations that keep rows unique, and
    the union that does not. *)
Definition operation_of (t : LPActionType) : option PPSetOperation :=
  match t with
  | LP_SET_UNION | LP_SET_UNION_ALL => Some PP_UNION_SET
  | LP_SET_EXCEPT => Some PP_EXCEPT_SET
  | LP_SET_INTERSECT => Some PP_INTERSECT_SET
  | _ => None
  end.
(** The plans in the order they run, each with its operation; the first has [op]. *)
Fixpoint actions (op : PPSetOperation) (t : set_tree) : list (PPSetOperation * query) :=
  match t with
  | SetSelect q => [(op, q)]
  | SetOf t a b => actions op a ++ actions (default PP_NOT_SET (operation_of t)) b
  end.
Lemma actions_head op t : ∃ q rest, ∀ op', actions op' t = (op', q) :: rest op' ∧ rest op' = rest op.
Proof.
  induction t as [q|t a (qa & ra & Ha) b _]; [exists q, (λ _, []); by intros op'|].
  exists qa, (λ op', ra op' ++ actions (default PP_NOT_SET (operation_of t)) b). intros op'.
  destruct (Ha op') as [E1 E2]. cbn. rewrite E1, E2. done.
Qed.

Section sets.
Context (s : planner).
Definition leaf_ok (q : query) : Prop := ∃ k key ring first rest, plain s q k key ring first rest.
Fixpoint tree_ok (t : set_tree) : Prop :=
  match t with
  | SetSelect q => leaf_ok q
  | SetOf t a b => is_Some (operation_of t) ∧ tree_ok a ∧ tree_ok b
  end.
(** The plan at [p] reads the rows of the query, and does this with them. *)
Record does (st : phys) (p : ptr) (a : PPSetOperation * query) : Prop := {
  does_at : ∃ pp, ph_plans st !! p = Some pp ∧ set_operation pp = a.1 ∧ iterKeys pp = q_keys a.2 ∧
    where_ pp = Op LP_WHERE (q_where a.2) (q_rest a.2) ∧ projection pp = q_columns a.2 ∧
    q_output a.2 = Op LP_OUTPUT (Leaf LP_KEY (VKey (outputKey pp))) NULL;
}.
Lemma does_kept st st' root new p a : grown None root st st' new → does st p a → does st' p a.
Proof.
  intros H [(pp & Hp & H1 & H2 & H3 & H4 & H5)]. destruct (grown_kept _ _ _ _ _ H p pp Hp) as (pp' & Hp' & Hk).
  pose proof (kept_core _ _ _ _ Hk ltac:(done)) as Hc. split. exists pp'. split; [done|]. destruct pp, pp'; cbn in *. by injection Hc; intros; subst.
Qed.
Lemma does_update st st' p f a u : update p f st = Ret (u, st') → ∀ r,
  (r = p → ∀ pp, set_operation (f pp) = set_operation pp ∧ iterKeys (f pp) = iterKeys pp ∧ where_ (f pp) = where_ pp ∧ projection (f pp) = projection pp ∧ outputKey (f pp) = outputKey pp) →
  does st r a → does st' r a.
Proof.
  intros (q & Hq & ->)%update_inv r Hf [(pp & Hp & H1 & H2 & H3 & H4 & H5)]. split. cbn. destruct (decide (r = p)) as [->|Hne].
  - rewrite lookup_insert_eq. exists (f q). rewrite Hq in Hp. injection Hp as ->. destruct (Hf eq_refl pp) as (-> & -> & -> & -> & ->). done.
  - rewrite lookup_insert_ne by done. by exists pp.
Qed.
Lemma does_action st st' p op action op0 q u : update p (set_action op action) st = Ret (u, st') →
  does st p (op0, q) → does st' p (op, q).
Proof.
  intros (q' & Hq & ->)%update_inv [(pp & Hp & H1 & H2 & H3 & H4 & H5)]. split. cbn. rewrite lookup_insert_eq.
  eexists. split; [done|]. rewrite Hq in Hp. injection Hp as ->. by destruct pp.
Qed.
Lemma update_returns st p f : is_Some (ph_plans st !! p) → ∃ st', update p f st = Ret ((), st').
Proof. intros [q Hq]. unfold update. rewrite Hq. by eexists. Qed.
Lemma push_returns st c root : linked st c → ∃ out st1, push_plan root st = Ret (out, st1).
Proof.
  intros [Hl Hk _]. unfold push_plan. destruct (decide _) as [|Hne]; [by eexists _, _|]. destruct c as [|p c]; [done|].
  destruct Hk as (q & Hq & _). cbn in Hl. rewrite Hl, Hq. by eexists _, _.
Qed.

(** *** The marks a plan has when its rows are kept unique, or all kept *)
(** A SELECT whose rows go below the key [o], with no LIMIT, and not part of a split OR;
    without DISTINCT where duplicates are to be kept. *)
Definition simple (unique : bool) (o : LogicalPlan) (q : query) : Prop :=
  q_output q = o ∧ ∃ k key ring, o = Op LP_OUTPUT (Leaf LP_KEY (VKey k)) NULL ∧ pl_keys s !! k = Some key ∧ k_is_cross_reference_key key = false ∧
    pl_keywords s !! q_keywords q = Some ring ∧ OPTIONAL_LIMIT ∉ ring ∧ OPTIONAL_PART_OF_EXPANSION ∉ ring ∧
    (unique = false → OPTIONAL_DISTINCT ∉ ring).
Definition keeps_unique (t : LPActionType) : option bool :=
  match t with
  | LP_SET_UNION | LP_SET_EXCEPT | LP_SET_INTERSECT => Some true
  | LP_SET_UNION_ALL => Some false
  | _ => None
  end.
Fixpoint uniform (unique : bool) (o : LogicalPlan) (t : set_tree) : Prop :=
  match t with
  | SetSelect q => simple unique o q
  | SetOf t a b => keeps_unique t = Some unique ∧ uniform unique o a ∧ uniform unique o b
  end.
Record unmarked (unique : bool) (pp : PhysicalPlan) : Prop := {
  um_shape : is_null (order_by pp) && negb (stash_columns_in_keys pp) && negb (PhysicalPlan.is_cross_reference_key pp) = true;
  um_distinct : unique = false → distinct_values pp = false;
  um_seen : emit_duplication_check pp = false;
}.
Definition marks (unique : bool) (t : set_tree) : PhysicalPlan → Prop :=
  match t with SetSelect _ => unmarked unique | SetOf _ _ _ => marked unique end.
Definition holds (F : PhysicalPlan → Prop) (st : phys) (p : ptr) : Prop := ∃ pp, ph_plans st !! p = Some pp ∧ F pp.
Lemma marked_unmarked u pp : marked u pp → unmarked u pp.
Proof. intros [H1 H2 H3 H4]. split; [done|by intros ->|done]. Qed.
Lemma marks_unmarked u t pp : marks u t pp → unmarked u pp.
Proof. destruct t; [done|apply marked_unmarked]. Qed.
Lemma mark_marks u pp : unmarked u pp → marked u (mark_unique u pp).
Proof. intros [H1 H2 H3]. destruct pp. cbn in *. destruct u; split; cbn; try done. by apply H2. Qed.
Lemma marked_core u pp pp' : core pp' = core pp → marked u pp → marked u pp'.
Proof. intros E [H1 H2 H3 H4]. destruct pp, pp'. cbn in *. injection E; intros; subst. by split. Qed.
Lemma unmarked_core u pp pp' : core pp' = core pp → unmarked u pp → unmarked u pp'.
Proof. intros E [H1 H2 H3]. destruct pp, pp'. cbn in *. injection E; intros; subst. by split. Qed.
Lemma marks_core u t pp pp' : core pp' = core pp → marks u t pp → marks u t pp'.
Proof. destruct t; [apply unmarked_core|apply marked_core]. Qed.
Lemma holds_kept (F : PhysicalPlan → Prop) st st' root new p : (∀ pp pp', core pp' = core pp → F pp → F pp') →
  grown None root st st' new → holds F st p → holds F st' p.
Proof.
  intros HF Hg (pp & Hp & Hf). destruct (grown_kept _ _ _ _ _ Hg p pp Hp) as (pp' & Hp' & Hk). exists pp'. split; [done|].
  eapply HF; [|done]. by apply (kept_core _ _ _ _ Hk).
Qed.
Lemma holds_update (F G : PhysicalPlan → Prop) st st' p f u r : update p f st = Ret (u, st') →
  (∀ pp, F pp → G pp) → (r = p → ∀ pp, F pp → G (f pp)) → holds F st r → holds G st' r.
Proof.
  intros (q & Hq & ->)%update_inv HFG Hf (pp & Hp & HF). unfold holds. cbn. destruct (decide (r = p)) as [->|Hne].
  - rewrite lookup_insert_eq. exists (f q). rewrite Hq in Hp. injection Hp as ->. auto.
  - rewrite lookup_insert_ne by done. eauto.
Qed.
Lemma action_marked u so a pp : marked u pp → marked u (set_action so a pp).
Proof. intros [H1 H2 H3 H4]. destruct pp. by split. Qed.
Lemma action_unmarked u so a pp : unmarked u pp → unmarked u (set_action so a pp).
Proof. intros [H1 H2 H3]. destruct pp. by split. Qed.
(** The assignments at the end of a set operation mark both plans and leave other marks. *)
Lemma holds_marked u st st1 st2 st3 pa pb op action u1 u2 u3 :
  update pb (set_action op action) st = Ret (u1, st1) → update pb (mark_unique u) st1 = Ret (u2, st2) →
  update pa (mark_unique u) st2 = Ret (u3, st3) →
  (∀ r, holds (marked u) st r → holds (marked u) st3 r) ∧
  (holds (unmarked u) st pb → pa ≠ pb → holds (marked u) st3 pb) ∧ (holds (unmarked u) st pa → pa ≠ pb → holds (marked u) st3 pa).
Proof.
  intros E1 E2 E3. assert (Hm : ∀ pp, marked u pp → marked u (mark_unique u pp)) by (intros; by apply mark_marks, marked_unmarked).
  split_and!.
  - intros r Hr. eapply (holds_update (marked u) _ _ _ _ _ _ _ E3); [done|auto|]. eapply (holds_update (marked u) _ _ _ _ _ _ _ E2); [done|auto|].
    eapply (holds_update (marked u) _ _ _ _ _ _ _ E1); [done|intros _ ?; apply action_marked|done].
  - intros Hb Hne. eapply (holds_update (marked u) _ _ _ _ _ _ _ E3); [done|auto|].
    apply (holds_update (unmarked u) (unmarked u) _ _ _ _ _ _ E1) in Hb; [|done|intros _ ?; apply action_unmarked].
    destruct Hb as (pp & Hp & Hb). apply update_inv in E2 as (q & Hq & ->). exists (mark_unique u q). cbn. rewrite lookup_insert_eq. split; [done|].
    rewrite Hq in Hp. injection Hp as ->. by apply mark_marks.
  - intros Ha Hne. apply (holds_update (unmarked u) (unmarked u) _ _ _ _ _ _ E1) in Ha; [|done|by intros ->].
    apply (holds_update (unmarked u) (unmarked u) _ _ _ _ _ _ E2) in Ha; [|done|by intros ->].
    destruct Ha as (pp & Hp & Ha). apply update_inv in E3 as (q & Hq & ->). exists (mark_unique u q). cbn. rewrite lookup_insert_eq. split; [done|].
    rewrite Hq in Hp. injection Hp as ->. by apply mark_marks.
Qed.

(** A SELECT is one plan. *)
Lemma physical_leaf fuel q options st c : leaf_ok q → bounded st → linked st c →
  ∃ p st', generate_physical_plan s (S fuel) (plan_of q) options st = Ret (p, st') ∧
    grown None (parent options) st st' [p] ∧ does st' p (PP_NOT_SET, q) ∧
    (∀ u o, simple u o q → stash options = false → holds (unmarked u) st' p).
Proof.
  intros (k & key & ring & first & rest & Hp) Hb Hc. destruct (push_returns st c (parent options) Hc) as (out & st1 & Ep).
  pose proof (physical_select s fuel q k key ring first rest options st out st1 Hp Hb Ep) as E.
  destruct (push_plan_grows _ _ _ _ Hb Ep) as (Hout & Hg & Hnew).
  exists out, (working out st1 (physical_of q k key ring options (ph_last st))). split; [done|]. split_and!.
  - destruct (generate_makes_plans s (S fuel) _ _ _ _ _ Hb E) as (new & H & Hin). enough (new = [out]) as <- by done.
    assert (Hall : ∀ p, p ∈ new → p = out).
    { intros p Hpn. destruct (grown_new _ _ _ _ _ H p Hpn) as [[Hle _] Hs]. unfold working in Hs. cbn in Hs.
      apply lookup_insert_is_Some' in Hs as [->|Hs]; [done|]. destruct (grown_all _ _ _ _ _ Hg p Hs) as [Ho|Ho]; [|by apply list_elem_of_singleton in Ho].
      destruct (proj2 Hb p Ho). lia. }
    pose proof (linked_nodup _ _ (grown_linked _ _ _ _ _ H c Hc)) as Hd. apply list.NoDup_app in Hd as [Hd _].
    destruct new as [|a [|b new]]; [by apply not_elem_of_nil in Hin| |].
    + f_equal. apply Hall. by left.
    + apply NoDup_cons_1_1 in Hd. destruct Hd. rewrite (Hall a) by left. rewrite (Hall b) by (right; left). by left.
  - split. unfold working. cbn. rewrite lookup_insert_eq. eexists. do 5 (split; [done|]). apply (pl_output _ _ _ _ _ _ _ Hp).
  - intros u o (Ho & k' & key' & ring' & Ek & Hkey & Hx & Hring & _ & Hexp & Hdist) Hst. exists (physical_of q k key ring options (ph_last st)).
    unfold working. cbn. rewrite lookup_insert_eq. split; [done|]. rewrite (pl_ring _ _ _ _ _ _ _ Hp) in Hring. injection Hring as <-.
    rewrite (pl_output _ _ _ _ _ _ _ Hp), Ek in Ho. injection Ho as ->. rewrite (pl_output_key _ _ _ _ _ _ _ Hp) in Hkey. injection Hkey as ->.
    split; cbn.
    + by rewrite Hst, Hx.
    + intros Hu. apply bool_decide_eq_false_2. auto.
    + by apply bool_decide_eq_false_2.
Qed.
Lemma operation_action t op : operation_of t = Some op → ∃ action distinct, set_operation_action t = Ret (op, action, distinct) ∧
  keeps_unique t = Some distinct.
Proof. destruct t; try done; intros [= <-]; by eexists _, _. Qed.

(** What the assignments at the end of a set operation leave. *)
Lemma does_marked st st1 st2 st3 pa pb op action distinct u1 u2 u3 r a :
  update pb (set_action op action) st = Ret (u1, st1) → update pb (mark_unique distinct) st1 = Ret (u2, st2) →
  update pa (mark_unique distinct) st2 = Ret (u3, st3) →
  (r ≠ pb → does st r a → does st3 r a) ∧ (∀ op0 q, does st pb (op0, q) → does st3 pb (op, q)).
Proof.
  intros E1 E2 E3.
  assert (Hm : ∀ pp, set_operation (mark_unique distinct pp) = set_operation pp ∧ iterKeys (mark_unique distinct pp) = iterKeys pp ∧
    where_ (mark_unique distinct pp) = where_ pp ∧ projection (mark_unique distinct pp) = projection pp ∧
    outputKey (mark_unique distinct pp) = outputKey pp).
  { intros []. by destruct distinct. }
  split.
  - intros Hne H. apply (does_update _ _ _ _ _ _ E3); [by intros _|]. apply (does_update _ _ _ _ _ _ E2); [by intros _|].
    by apply (does_update _ _ _ _ _ _ E1).
  - intros op0 q H. apply (does_update _ _ _ _ _ _ E3); [by intros _|]. apply (does_update _ _ _ _ _ _ E2); [by intros _|].
    by apply (does_action _ _ _ _ _ _ _ _ E1) in H.
Qed.
Lemma generate_set_run (generate : LogicalPlan → PhysicalPlanOptions → G ptr) t a b options st pb st1 pa st2 op action distinct :
  generate b options st = Ret (pb, st1) → generate a options st1 = Ret (pa, st2) → set_operation_action t = Ret (op, action, distinct) →
  is_Some (ph_plans st2 !! pa) → is_Some (ph_plans st2 !! pb) →
  ∃ st3 st4 st5, update pb (set_action op action) st2 = Ret ((), st3) ∧ update pb (mark_unique distinct) st3 = Ret ((), st4) ∧
    update pa (mark_unique distinct) st4 = Ret ((), st5) ∧
    generate_set generate (Op LP_SET_OPERATION (Op LP_SET_OPTION (malloc_lp t) NULL) (Op LP_PLANS a b)) options st = Ret (pa, st5).
Proof.
  intros Eb Ea Eop Hpa Hpb.
  assert (Hkeep : ∀ p f x y, update p f x = Ret ((), y) → ∀ r, is_Some (ph_plans x !! r) → is_Some (ph_plans y !! r)).
  { intros p f x y (q & Hq & ->)%update_inv r Hr. cbn. apply lookup_insert_is_Some'. by right. }
  destruct (update_returns st2 pb (set_action op action) Hpb) as (st3 & E3).
  destruct (update_returns st3 pb (mark_unique distinct)) as (st4 & E4); [by eapply Hkeep|].
  destruct (update_returns st4 pa (mark_unique distinct)) as (st5 & E5); [by do 2 (eapply Hkeep; [done|])|].
  exists st3, st4, st5. do 3 (split; [done|]). unfold generate_set. do 2 (erewrite glift_run by done). rewrite (gbind_run _ _ _ _ _ Eb).
  erewrite glift_run by done. rewrite (gbind_run _ _ _ _ _ Ea). do 3 (erewrite glift_run by done). erewrite glift_run by exact Eop.
  cbn iota beta. by rewrite (gbind_run _ _ _ _ _ E3), (gbind_run _ _ _ _ _ E4), (gbind_run _ _ _ _ _ E5).
Qed.
Lemma physical_tree t : tree_ok t → ∀ fuel options st c, (tree_depth t ≤ fuel)%nat → bounded st → linked st c →
  ∃ p st' new, generate_physical_plan s fuel (tree_plan t) options st = Ret (p, st') ∧
    grown None (parent options) st st' (p :: new) ∧ Forall2 (does st') (p :: new) (actions PP_NOT_SET t) ∧
    ∀ u o, uniform u o t → stash options = false → holds (marks u t) st' p ∧ Forall (holds (marked u) st') new.
Proof.
  induction t as [q|t a IHa b IHb]; intros Hok fuel options st c Hf Hb Hc; (destruct fuel as [|fuel]; [cbn in Hf; lia|]).
  { destruct (physical_leaf fuel q options st c Hok Hb Hc) as (p & st' & E & Hg & Hd & Hm). exists p, st', [].
    split; [done|]. split; [done|]. split; [by apply Forall2_cons|]. intros u o Hu Hst. split; [by eapply Hm|constructor]. }
  destruct Hok as ([op Hop] & Ha & Hbk). cbn in Hf.
  destruct (IHb Hbk fuel options st c ltac:(lia) Hb Hc) as (pb & st1 & nb & Eb & Gb & Db & Mb).
  pose proof (grown_linked _ _ _ _ _ Gb c Hc) as Hc1.
  destruct (IHa Ha fuel options st1 _ ltac:(lia) (grown_bounded _ _ _ _ _ Gb) Hc1) as (pa & st2 & na & Ea & Ga & Da & Ma).
  destruct (operation_action t op Hop) as (action & distinct & Eop & Eu).
  destruct (grown_new _ _ _ _ _ Gb pb ltac:(by left)) as [Lb [qb Hqb]].
  destruct (grown_kept _ _ _ _ _ Ga pb qb Hqb) as (qb' & Hqb' & _). destruct (grown_new _ _ _ _ _ Ga pa ltac:(by left)) as [La Hpa].
  destruct (generate_set_run _ t _ _ _ _ _ _ _ _ _ _ _ Eb Ea Eop Hpa ltac:(by eexists)) as (st3 & st4 & st5 & E3 & E4 & E5 & E).
  exists pa, st5, (na ++ pb :: nb). split; [exact E|]. change (pa :: na ++ pb :: nb) with ((pa :: na) ++ pb :: nb).
  pose proof (grown_next _ _ _ _ _ Gb). assert (Hu : same_links (mark_unique distinct)) by (destruct distinct; links_tac).
  split.
  { eapply grown_assign; [| | | |exact E5]; [|exact Hu|left; lia|done]. eapply grown_assign; [| | | |exact E4]; [|exact Hu|left; lia|done].
    eapply grown_assign; [| | | |exact E3]; [|links_tac|left; lia|done]. by eapply grown_trans. }
  pose proof (linked_nodup _ _ (grown_linked _ _ _ _ _ Ga _ Hc1)) as Hd. apply list.NoDup_app in Hd as (_ & Hab & Hd).
  cbn [app] in Hd. apply NoDup_cons_1_1 in Hd. rewrite elem_of_app in Hd.
  split.
  2: { intros u o (Hun & Hua & Hub) Hst. rewrite Eu in Hun. injection Hun as ->. destruct (Ma u o Hua Hst) as [Ma1 Ma2], (Mb u o Hub Hst) as [Mb1 Mb2].
    destruct (holds_marked u _ _ _ _ _ _ _ _ _ _ _ E3 E4 E5) as (M1 & M2 & M3).
    assert (Hne : pa ≠ pb) by (intros ->; apply (Hab pb); by left). split; cbn [marks].
    - apply M3; [|done]. destruct Ma1 as (pp & Hp & Hm). exists pp. split; [done|]. by eapply marks_unmarked.
    - apply Forall_app. split; [by eapply Forall_impl|]. apply list.Forall_cons. split.
      + apply M2; [|done]. eapply holds_kept; [|exact Ga|]; [apply unmarked_core|]. destruct Mb1 as (pp & Hp & Hm). exists pp. split; [done|].
        by eapply marks_unmarked.
      + eapply Forall_impl; [|exact Mb2]. intros r Hr. apply M1. eapply holds_kept; [|exact Ga|exact Hr]. apply marked_core. }
  cbn [actions]. rewrite Hop. change (default PP_NOT_SET (Some op)) with op. apply Forall2_app.
  - apply Forall2_same_length_lookup_2; [by eapply Forall2_length|]. intros i r x Hr Hx.
    apply (does_marked _ _ _ _ _ _ _ _ _ _ _ _ r x E3 E4 E5); [|by eapply Forall2_lookup_lr].
    intros ->. apply (Hab pb); [by eapply list_elem_of_lookup_2|by left].
  - destruct (actions_head PP_NOT_SET b) as (q0 & rest & Hact). destruct (Hact PP_NOT_SET) as [R1 _], (Hact op) as [R2 R3].
    rewrite R2, R3. rewrite R1 in Db. apply list.Forall2_cons in Db as [D1 D2]. apply list.Forall2_cons. split.
    + apply (does_marked _ _ _ _ _ _ _ _ _ _ _ _ pb (op, q0) E3 E4 E5) with (op0 := PP_NOT_SET). by eapply does_kept.
    + apply Forall2_same_length_lookup_2; [by eapply Forall2_length|]. intros i r x Hr Hx.
      apply (does_marked _ _ _ _ _ _ _ _ _ _ _ _ r x E3 E4 E5); [|eapply does_kept; [done|by eapply Forall2_lookup_lr]].
      intros ->. apply Hd. left. by eapply list_elem_of_lookup_2.
Qed.

(** ** What the plans compute

    [rows]: the rows a plan finds, by its keys, condition and columns, with the values of its
    keys. *)
Section rows.
Context {Key Row : Type} `{Countable Key} `{Countable Row} (rows : list ptr → LogicalPlan → LogicalPlan → list (Key * Row)).
Context (collate : gmap Row (Z * list Z) → list (Row * (Z * list Z))) (last_column : Row → option Z).
Context (collate_perm : in_database_order collate).

(** The plans of the list [chain], run in this order on a new cursor. *)
Definition run_chain (st : phys) (chain : list ptr) : option (cursor Key Row) :=
  pps ← mapM (λ p, ph_plans st !! p) chain;
  run_plans rows collate last_column pps empty_cursor.
(** What the statement asks for: with UNION, EXCEPT and INTERSECT a set of rows, with
    UNION ALL a list. *)
Definition select_list (q : query) : list Row := (rows (q_keys q) (Op LP_WHERE (q_where q) (q_rest q)) (q_columns q)).*2.
Definition select_rows_of (q : query) : gset Row := list_to_set (select_list q).
Definition set_op (t : LPActionType) (a b : gset Row) : gset Row :=
  match t with
  | LP_SET_UNION | LP_SET_UNION_ALL => a ∪ b
  | LP_SET_EXCEPT | LP_SET_EXCEPT_ALL => a ∖ b
  | LP_SET_INTERSECT | LP_SET_INTERSECT_ALL => a ∩ b
  | _ => ∅
  end.
Fixpoint tree_rows (t : set_tree) : gset Row :=
  match t with SetSelect q => select_rows_of q | SetOf t a b => set_op t (tree_rows a) (tree_rows b) end.
Fixpoint tree_list (t : set_tree) : list Row :=
  match t with SetSelect q => select_list q | SetOf _ a b => tree_list a ++ tree_list b end.
(** The statements this is true of: unions, nested in any way, from which SELECTs are
    subtracted one after the other, or which are intersected with one SELECT. *)
Fixpoint unions (t : set_tree) : Prop :=
  match t with SetSelect _ => True | SetOf t a b => operation_of t = Some PP_UNION_SET ∧ unions a ∧ unions b end.
Inductive differences : set_tree → Prop :=
  | df_union t : unions t → differences t
  | df_except a q : differences a → differences (SetOf LP_SET_EXCEPT a (SetSelect q)).
Inductive computable : set_tree → Prop :=
  | cp_difference t : differences t → computable t
  | cp_intersect a q : unions a → computable (SetOf LP_SET_INTERSECT a (SetSelect q)).
Definition is_set (t : set_tree) : Prop := match t with SetSelect _ => False | SetOf _ _ _ => True end.

(** A plan for an operand. *)
Record runs (u : bool) (pp : PhysicalPlan) (a : PPSetOperation * query) : Prop := {
  rn_marked : marked u pp;
  rn_op : set_operation pp = a.1;
  rn_rows : (plan_rows rows pp).*2 = select_list a.2;
}.
Lemma rn_set u pp a : runs u pp a → set_rows rows pp = select_rows_of a.2.
Proof. intros [_ _ E]. unfold set_rows, select_rows_of. by rewrite E. Qed.
Lemma chain_runs u st chain l : Forall2 (does st) chain l → Forall (holds (marked u) st) chain →
  ∃ pps, mapM (λ p, ph_plans st !! p) chain = Some pps ∧ Forall2 (runs u) pps l.
Proof.
  intros HF. induction HF as [|p a chain l [(pp & Hp & H1 & H2 & H3 & H4 & H5)] HF IH]; intros Hm.
  - exists []. by split.
  - apply list.Forall_cons in Hm as [(pp' & Hp' & Hm) Hms]. rewrite Hp in Hp'. injection Hp' as <-. destruct (IH Hms) as (pps & E & Hr).
    exists (pp :: pps). cbn. rewrite Hp. cbn. rewrite E. split; [done|]. constructor; [|done]. split; [done|done|].
    unfold plan_rows, select_list. by rewrite H2, H3, H4.
Qed.
Abbreviation running := (run_plans rows collate last_column).
Lemma run_seq l l' c c1 : running l c = Some c1 → running (l ++ l') c = running l' c1.
Proof. intros E. by rewrite run_plans_app, E. Qed.
Lemma running_one pp c c1 : run_plan rows collate last_column pp c = Some c1 → running [pp] c = Some c1.
Proof. intros E. cbn. by rewrite E. Qed.

Lemma run_unions t : unions t → ∀ pps seen live c, Forall2 (runs true) pps (actions PP_UNION_SET t) → holding seen live c →
  ∃ c', running pps c = Some c' ∧ holding (tree_rows t ∪ seen) (live ∪ (tree_rows t ∖ seen)) c'.
Proof.
  induction t as [q|t a IHa b IHb]; intros Hu pps seen live c HF Hc.
  - apply list.Forall2_cons_inv_r in HF as (pp & ? & Hr & ->%list.Forall2_nil_inv_r & ->).
    destruct (run_plan_union rows collate last_column pp seen live c (rn_marked _ _ _ Hr) (rn_op _ _ _ Hr) Hc) as (c' & E & Hc').
    rewrite (rn_set _ _ _ Hr) in Hc'. exists c'. split; [by apply running_one|done].
  - destruct Hu as (Ht & Ha & Hb). cbn [actions tree_rows] in *. rewrite Ht in HF. cbn [default from_option id] in HF.
    apply Forall2_app_inv_r in HF as (la & lb & HFa & HFb & ->). destruct (IHa Ha _ _ _ _ HFa Hc) as (c1 & E1 & H1).
    destruct (IHb Hb _ _ _ _ HFb H1) as (c2 & E2 & H2). exists c2. rewrite (run_seq _ _ _ _ E1). split; [done|].
    replace (set_op t (tree_rows a) (tree_rows b)) with (tree_rows a ∪ tree_rows b) by (by destruct t).
    set (A := tree_rows a) in *. set (B := tree_rows b) in *.
    replace (A ∪ B ∪ seen) with (B ∪ (A ∪ seen)) by set_solver.
    replace (live ∪ ((A ∪ B) ∖ seen)) with (live ∪ (A ∖ seen) ∪ (B ∖ (A ∪ seen))); [done|].
    apply set_eq. intros x. destruct (decide (x ∈ A)), (decide (x ∈ seen)); set_solver.
Qed.
Lemma run_first t : unions t → ∀ pps, Forall2 (runs true) pps (actions PP_NOT_SET t) →
  ∃ c', running pps empty_cursor = Some c' ∧ holding (tree_rows t) (tree_rows t) c'.
Proof.
  induction t as [q|t a IHa b IHb]; intros Hu pps HF.
  - apply list.Forall2_cons_inv_r in HF as (pp & ? & Hr & ->%list.Forall2_nil_inv_r & ->).
    destruct (run_plan_first rows collate last_column pp empty_cursor (rn_marked _ _ _ Hr) (rn_op _ _ _ Hr)) as (c' & E & Hc'); [done..|].
    rewrite (rn_set _ _ _ Hr) in Hc'. exists c'. split; [by apply running_one|done].
  - destruct Hu as (Ht & Ha & Hb). cbn [actions tree_rows] in *. rewrite Ht in HF. cbn [default from_option id] in HF.
    apply Forall2_app_inv_r in HF as (la & lb & HFa & HFb & ->). destruct (IHa Ha _ HFa) as (c1 & E1 & H1).
    destruct (run_unions b Hb _ _ _ _ HFb H1) as (c2 & E2 & H2). exists c2. rewrite (run_seq _ _ _ _ E1). split; [done|].
    replace (set_op t (tree_rows a) (tree_rows b)) with (tree_rows a ∪ tree_rows b) by (by destruct t).
    replace (tree_rows b ∪ tree_rows a) with (tree_rows a ∪ tree_rows b) in H2 by set_solver.
    replace (tree_rows a ∪ (tree_rows b ∖ tree_rows a)) with (tree_rows a ∪ tree_rows b) in H2; [done|].
    apply set_eq. intros x. destruct (decide (x ∈ tree_rows a)); set_solver.
Qed.
Lemma run_differences t : differences t → ∀ pps, Forall2 (runs true) pps (actions PP_NOT_SET t) →
  ∃ c' seen, running pps empty_cursor = Some c' ∧ holding seen (tree_rows t) c'.
Proof.
  induction 1 as [t Ht|a q Ha IH]; intros pps HF.
  - destruct (run_first t Ht pps HF) as (c' & E & Hc). eauto.
  - cbn [actions operation_of default from_option id] in HF. apply Forall2_app_inv_r in HF as (la & lb & HFa & HFb & ->).
    apply list.Forall2_cons_inv_r in HFb as (pp & ? & Hr & ->%list.Forall2_nil_inv_r & ->).
    destruct (IH _ HFa) as (c1 & seen & E1 & H1).
    destruct (run_plan_except rows collate last_column pp seen _ c1 (rn_marked _ _ _ Hr) (rn_op _ _ _ Hr) H1) as (c2 & E2 & H2).
    rewrite (rn_set _ _ _ Hr) in H2. exists c2, seen. rewrite (run_seq _ _ _ _ E1). split; [by apply running_one|done].
Qed.
Lemma run_intersect a q pps : unions a → Forall2 (runs true) pps (actions PP_NOT_SET (SetOf LP_SET_INTERSECT a (SetSelect q))) →
  ∃ c', running pps empty_cursor = Some c' ∧ shows c' (tree_rows a ∩ select_rows_of q) ∧ stale c'.
Proof.
  intros Ha HF. cbn [actions operation_of default from_option id] in HF. apply Forall2_app_inv_r in HF as (la & lb & HFa & HFb & ->).
  apply list.Forall2_cons_inv_r in HFb as (pp & ? & Hr & ->%list.Forall2_nil_inv_r & ->).
  destruct (run_first a Ha _ HFa) as (c1 & E1 & H1).
  destruct (run_plan_intersect rows collate last_column pp _ c1 collate_perm (rn_marked _ _ _ Hr) (rn_op _ _ _ Hr) H1) as (c2 & E2 & H2 & H3).
  rewrite (rn_set _ _ _ Hr) in H2. exists c2. rewrite (run_seq _ _ _ _ E1). split; [by apply running_one|done].
Qed.
Lemma run_computable t : computable t → ∀ pps, Forall2 (runs true) pps (actions PP_NOT_SET t) →
  ∃ c', running pps empty_cursor = Some c' ∧ shows c' (tree_rows t).
Proof.
  intros [t' Ht|a q Ha] pps HF.
  - destruct (run_differences t' Ht pps HF) as (c' & seen & E & Hc). exists c'. split; [done|]. by eapply holding_shows.
  - destruct (run_intersect a q pps Ha HF) as (c' & E & Hc & _). eauto.
Qed.
Lemma run_all t : unions t → ∀ pps op c l, Forall2 (runs false) pps (actions op t) →
  op = PP_NOT_SET ∧ l = [] ∨ op = PP_UNION_SET ∧ lists c l → ∃ c', running pps c = Some c' ∧ lists c' (l ++ tree_list t).
Proof.
  induction t as [q|t a IHa b IHb]; intros Hu pps op c l HF Hop.
  - apply list.Forall2_cons_inv_r in HF as (pp & ? & Hr & ->%list.Forall2_nil_inv_r & ->).
    destruct (run_plan_append rows collate last_column pp c l (rn_marked _ _ _ Hr)) as (c' & E & Hc').
    { rewrite (rn_op _ _ _ Hr). done. }
    rewrite (rn_rows _ _ _ Hr) in Hc'. exists c'. split; [by apply running_one|done].
  - destruct Hu as (Ht & Ha & Hb). cbn [actions tree_list] in *. rewrite Ht in HF. cbn [default from_option id] in HF.
    apply Forall2_app_inv_r in HF as (la & lb & HFa & HFb & ->). destruct (IHa Ha _ _ _ _ HFa Hop) as (c1 & E1 & H1).
    destruct (IHb Hb _ _ _ _ HFb (or_intror (conj eq_refl H1))) as (c2 & E2 & H2). exists c2. rewrite (run_seq _ _ _ _ E1), app_assoc. done.
Qed.
Lemma tree_runs u o t n : tree_ok t → is_set t → uniform u o t → 0 < n →
  ∃ p st chain pps, generate_physical_plan s (tree_depth t) (tree_plan t) options0 (phys0 n) = Ret (p, st) ∧ linked st chain ∧
    mapM (λ p, ph_plans st !! p) chain = Some pps ∧ Forall2 (runs u) pps (actions PP_NOT_SET t).
Proof.
  intros Hok Hset Hu Hn. destruct (physical_tree t Hok _ options0 _ [] (le_n _) (bounded0 n Hn) (linked0 n)) as (p & st & new & E & Hg & HF & Hm).
  destruct (Hm u o Hu eq_refl) as [Hm1 Hm2]. destruct t as [|t a b]; [done|].
  destruct (chain_runs u st _ _ HF) as (pps & Epps & Hr); [by constructor|].
  exists p, st, (p :: new), pps. split; [done|]. split; [rewrite <- (app_nil_r (p :: new)); apply Hg, linked0|done].
Qed.

(** C7: Set operations.  For a set operation over SELECTs on tables whose rows go to one key,
    without LIMIT and without split ORs, the physical plans are made, and run in the order of
    their list on a new cursor they leave there: for UNIONs nested in any way, from which
    SELECTs are then subtracted with EXCEPT one after the other, or which are then
    intersected with one SELECT, each row of the set the statement asks for, once, and no
    other; for UNION ALLs nested in any way over SELECTs without DISTINCT, the rows of the
    SELECTs, one after the other, with their duplicates. *)
Theorem set_plans_compute u o t n : tree_ok t → is_set t → uniform u o t → 0 < n →
  (if u then computable t else unions t) →
  ∃ p st chain c, generate_physical_plan s (tree_depth t) (tree_plan t) options0 (phys0 n) = Ret (p, st) ∧
    linked st chain ∧ run_chain st chain = Some c ∧
    (if u then shows c (tree_rows t) else lists c (tree_list t)).
Proof.
  intros Hok Hset Hu Hn Hc. destruct (tree_runs u o t n Hok Hset Hu Hn) as (p & st & chain & pps & E & Hl & Em & Hr).
  exists p, st, chain. unfold run_chain. rewrite Em. change (Some pps ≫= λ l, running l empty_cursor) with (running pps empty_cursor).
  destruct u.
  - destruct (run_computable t Hc pps Hr) as (c & Ec & Hs). by exists c.
  - destruct (run_all t Hc pps _ empty_cursor [] Hr) as (c & Ec & Hs); [by left|]. by exists c.
Qed.

(** C39: Where the index misleads the plans of a set operation.  Of the statements that mix the
    operations otherwise, three: [A EXCEPT (B UNION C)] and [(A EXCEPT B) UNION C] are planned
    alike, and leave the rows of [A] that are not in [B] and those of [C] that are not in
    [A] - the parentheses are lost, and since an EXCEPT leaves the counts of the index
    where they are, no row of [A] is added again; and [(A INTERSECT B) EXCEPT C] leaves
    [A INTERSECT B], since the INTERSECT removed the index of just the rows it kept. *)
Theorem set_index_misleads o qa qb qc n :
  Forall leaf_ok [qa; qb; qc] → Forall (simple true o) [qa; qb; qc] → 0 < n →
  let A := SetSelect qa in let B := SetSelect qb in let C := SetSelect qc in
  Forall (λ '(t, result), ∃ p st chain c, generate_physical_plan s 3 (tree_plan t) options0 (phys0 n) = Ret (p, st) ∧
      linked st chain ∧ run_chain st chain = Some c ∧ shows c result)
    [(SetOf LP_SET_EXCEPT A (SetOf LP_SET_UNION B C), (tree_rows A ∖ tree_rows B) ∪ (tree_rows C ∖ tree_rows A));
     (SetOf LP_SET_UNION (SetOf LP_SET_EXCEPT A B) C, (tree_rows A ∖ tree_rows B) ∪ (tree_rows C ∖ tree_rows A));
     (SetOf LP_SET_EXCEPT (SetOf LP_SET_INTERSECT A B) C, tree_rows A ∩ tree_rows B)].
Proof.
  intros Hl Hs Hn A B C. repeat rewrite list.Forall_cons in Hl, Hs. destruct Hl as (La & Lb & Lc & _), Hs as (Sa & Sb & Sc & _).
  assert (Hmixed : ∀ pps, Forall2 (runs true) pps [(PP_NOT_SET, qa); (PP_EXCEPT_SET, qb); (PP_UNION_SET, qc)] →
    ∃ c, running pps empty_cursor = Some c ∧ shows c ((tree_rows A ∖ tree_rows B) ∪ (tree_rows C ∖ tree_rows A))).
  { intros pps HF. change [(PP_NOT_SET, qa); (PP_EXCEPT_SET, qb); (PP_UNION_SET, qc)] with
      (actions PP_NOT_SET (SetSelect qa) ++ (PP_EXCEPT_SET, qb) :: actions PP_UNION_SET (SetSelect qc)) in HF.
    apply Forall2_app_inv_r in HF as (la & lb & HFa & (pp & lc & Hb & HFc & ->)%list.Forall2_cons_inv_r & ->).
    destruct (run_first A I _ HFa) as (c1 & E1 & H1).
    destruct (run_plan_except rows collate last_column pp _ _ c1 (rn_marked _ _ _ Hb) (rn_op _ _ _ Hb) H1) as (c2 & E2 & H2).
    destruct (run_unions C I _ _ _ _ HFc H2) as (c3 & E3 & H3). exists c3. rewrite (run_seq _ _ _ _ E1). cbn [run_plans].
    rewrite E2. split; [exact E3|]. rewrite (rn_set _ _ _ Hb) in H3. by eapply holding_shows. }
  assert (Hstale : ∀ pps, Forall2 (runs true) pps [(PP_NOT_SET, qa); (PP_INTERSECT_SET, qb); (PP_EXCEPT_SET, qc)] →
    ∃ c, running pps empty_cursor = Some c ∧ shows c (tree_rows A ∩ tree_rows B)).
  { intros pps HF. change [(PP_NOT_SET, qa); (PP_INTERSECT_SET, qb); (PP_EXCEPT_SET, qc)] with
      (actions PP_NOT_SET (SetOf LP_SET_INTERSECT A B) ++ [(PP_EXCEPT_SET, qc)]) in HF.
    apply Forall2_app_inv_r in HF as (la & lb & HFa & (pp & ? & Hc & ->%list.Forall2_nil_inv_r & ->)%list.Forall2_cons_inv_r & ->).
    destruct (run_intersect A qb la I HFa) as (c1 & E1 & [H1 H1'] & H2).
    destruct (run_plan_stale rows collate last_column pp c1 (rn_marked _ _ _ Hc) (rn_op _ _ _ Hc) H2) as (c2 & E2 & H3).
    exists c2. rewrite (run_seq _ _ _ _ E1). split; [by apply running_one|]. unfold shows. by rewrite H3. }
  assert (Hall : ∀ t result, tree_ok t → is_set t → uniform true o t → tree_depth t = 3%nat →
    (∀ pps, Forall2 (runs true) pps (actions PP_NOT_SET t) → ∃ c, running pps empty_cursor = Some c ∧ shows c result) →
    ∃ p st chain c, generate_physical_plan s 3 (tree_plan t) options0 (phys0 n) = Ret (p, st) ∧
      linked st chain ∧ run_chain st chain = Some c ∧ shows c result).
  { intros t result Hok Hset Hu Hd Hrun. destruct (tree_runs true o t n Hok Hset Hu Hn) as (p & st & chain & pps & E & Hli & Em & Hr).
    rewrite Hd in E. destruct (Hrun pps Hr) as (c & Ec & Hc). exists p, st, chain, c. unfold run_chain. by rewrite Em. }
  do 3 (apply list.Forall_cons; split; [apply Hall; [cbn; split_and!; try done; by eexists|done|cbn; split_and!; done|done|done]|]). constructor.
Qed.
End rows.
End sets.

(** ** A sample *)
(** Three SELECTs over one table, each with the condition that its key is a value. *)
Definition sample_query (key output : ptr) (v : Z) : query :=
  {| q_columns := Op LP_COLUMN_LIST (Op LP_WHERE (Leaf LP_COLUMN_ALIAS (VColumnAlias 50)) NULL) NULL;
     q_tables := Op LP_TABLE_JOIN (Leaf LP_TABLE (VTableAlias 30)) NULL; q_keys := [key];
     q_where := Op LP_BOOLEAN_EQUALS (Leaf LP_COLUMN_ALIAS (VColumnAlias 50)) (Leaf LP_VALUE (VValue v));
     q_rest := NULL; q_keywords := 40; q_output := Op LP_OUTPUT (Leaf LP_KEY (VKey output)) NULL |}.
Definition sample_rows (keys : list ptr) (w columns : LogicalPlan) : list (list ptr * Z) :=
  match w with Op LP_WHERE (Op _ _ (Leaf _ (VValue v))) _ => [(keys, v)] | _ => [] end.
Lemma sample_leaf v : leaf_ok sample_planner (sample_query 10 20 v).
Proof.
  exists 20, sample_output, [NO_KEYWORD], (Op LP_WHERE (Leaf LP_COLUMN_ALIAS (VColumnAlias 50)) NULL), NULL.
  assert (Hc : own_column sample_planner [10] 50).
  { eexists null_STATEMENT, 30, null_STATEMENT, null_STATEMENT, 1, null_STATEMENT. split; [reflexivity|]. exists 10, sample_key.
    split; [by left|]. by split. }
  split; try reflexivity.
  - split; [done|]. right. split; [by exists LP_TABLE|done].
  - split; [done|]. split; [cbn; unfold MAX_KEY_COUNT; lia|]. apply list.Forall_singleton. by exists sample_key.
  - by split.
  - done.
Qed.
Definition sample_out : LogicalPlan := Op LP_OUTPUT (Leaf LP_KEY (VKey 20)) NULL.
Lemma sample_simple v : simple sample_planner true sample_out (sample_query 10 20 v).
Proof.
  split; [done|]. exists 20, sample_output, [NO_KEYWORD]. split_and!; try reflexivity; try done;
    intros ?%list_elem_of_singleton; discriminate.
Qed.
Lemma set_plans_compute_witness :
  let t := SetOf LP_SET_EXCEPT (SetOf LP_SET_UNION (SetSelect (sample_query 10 20 1)) (SetSelect (sample_query 10 20 2))) (SetSelect (sample_query 10 20 1)) in
  ∃ p st chain c, generate_physical_plan sample_planner 3 (tree_plan t) options0 (phys0 100) = Ret (p, st) ∧ linked st chain ∧
    run_chain sample_rows map_to_list (λ _, None) st chain = Some c ∧ shows c (tree_rows sample_rows t) ∧ tree_rows sample_rows t = {[2]}.
Proof.
  intros t. destruct (set_plans_compute sample_planner sample_rows map_to_list (λ _, None) ltac:(by intros ?) true sample_out t 100) as (p & st & chain & c & E & Hl & Hr & Hs).
  - repeat split; (apply sample_leaf || by eexists).
  - exact I.
  - split; [done|split; [|apply sample_simple]]. split; [done|split; apply sample_simple].
  - lia.
  - apply cp_difference, df_except, df_union. by split.
  - exists p, st, chain, c. do 4 (split; [done|]). by vm_compute.
Defined.
Lemma set_index_misleads_witness :
  let t := SetOf LP_SET_EXCEPT (SetSelect (sample_query 10 20 1)) (SetOf LP_SET_UNION (SetSelect (sample_query 10 20 2)) (SetSelect (sample_query 10 20 3))) in
  ∃ p st chain c, generate_physical_plan sample_planner 3 (tree_plan t) options0 (phys0 100) = Ret (p, st) ∧ linked st chain ∧
    run_chain sample_rows map_to_list (λ _, None) st chain = Some c ∧ shows c {[1; 3]} ∧ tree_rows sample_rows t = {[1]}.
Proof.
  intros t. pose proof (set_index_misleads sample_planner sample_rows map_to_list (λ _, None) ltac:(by intros ?) sample_out
    (sample_query 10 20 1) (sample_query 10 20 2) (sample_query 10 20 3) 100) as HF.
  apply list.Forall_cons in HF as [(p & st & chain & c & E & Hl & Hr & Hs) _].
  - exists p, st, chain, c. do 3 (split; [done|]). split; [|by vm_compute].
    assert (Eq : (tree_rows sample_rows (SetSelect (sample_query 10 20 1)) ∖ tree_rows sample_rows (SetSelect (sample_query 10 20 2))) ∪
      (tree_rows sample_rows (SetSelect (sample_query 10 20 3)) ∖ tree_rows sample_rows (SetSelect (sample_query 10 20 1))) = {[1; 3]}) by (by vm_compute).
    by rewrite Eq in Hs.
  - repeat constructor; apply sample_leaf.
  - repeat constructor; apply sample_simple.
  - lia.
Defined.
