(* ===== verification/PhysicalOwners.v ===== *)
(** * Columns of outer queries

    A condition that refers to a column of a query further out makes the plans in between
    depend on the row that query is at: they are deferred, that is, run from its loop and
    not before it.  [walk_where_statement] finds them by following the parents up to the plan
    that has a key of the column's table; the loop over the keys of each is bounded by the
    number of keys of the plan the search started from. *)
From stdpp Require Import gmap strings.
From S2P Require Import Prelude CMem LogicalPlan LogicalPlanTheorems Dnf SqlStatement Optimize PhysicalPlan PhysicalTheorems PhysicalEnds PhysicalSelect.

Section owners.
Context (s : planner).

(** The plans from [cur] outwards, up to and without the plan at the end. *)
Fixpoint path (plans : gmap ptr PhysicalPlan) (cur : ptr) (l : list ptr) (owner : ptr) : Prop :=
  match l with
  | [] => cur = owner
  | p :: l' => cur = p ∧ p ≠ null ∧ ∃ q, plans !! p = Some q ∧ path plans (parent_plan q) l' owner
  end.
Definition key_ids (q : PhysicalPlan) : option (list Z) := mapM (λ p, fmap k_unique_id (pl_keys s !! p)) (iterKeys q).
(** A plan with [n] keys, none of them of the table. *)
Definition passes (plans : gmap ptr PhysicalPlan) (n : nat) (id : Z) (p : ptr) : Prop :=
  ∃ q ids, plans !! p = Some q ∧ key_ids q = Some ids ∧ id ∉ ids ∧ total_iter_keys q = n.
Definition defer (l : list ptr) (plans : gmap ptr PhysicalPlan) : gmap ptr PhysicalPlan :=
  fold_left (λ m p, alter set_deferred p m) l plans.

Lemma key_index_none keys ids id n : mapM (λ p, fmap k_unique_id (pl_keys s !! p)) keys = Some ids → id ∉ ids →
  (n ≤ length keys)%nat → key_index s n keys id = Ret n.
Proof.
  revert keys ids. induction n as [|n IH]; intros [|p keys] ids Hm Hid Hn; cbn in Hn; try lia; try done.
  cbn in Hm. destruct (pl_keys s !! p) as [k|] eqn:Hp; [|done]. cbn in Hm. destruct (mapM _ keys) as [ids'|] eqn:Hm'; [|done].
  cbn in Hm. injection Hm as <-. apply not_elem_of_cons in Hid as [Hid1 Hid2]. cbn [key_index]. unfold pkey. rewrite Hp. cbn.
  rewrite decide_False by congruence. by rewrite (IH keys ids' Hm' Hid2) by lia.
Qed.
Lemma key_index_short keys ids id n : mapM (λ p, fmap k_unique_id (pl_keys s !! p)) keys = Some ids → id ∉ ids →
  (length keys < n)%nat → key_index s n keys id = Undef NullPointer.
Proof.
  revert n ids. induction keys as [|p keys IH]; intros [|n] ids Hm Hid Hn; cbn in Hn; try lia; try done.
  cbn in Hm. destruct (pl_keys s !! p) as [k|] eqn:Hp; [|done]. cbn in Hm. destruct (mapM _ keys) as [ids'|] eqn:Hm'; [|done].
  cbn in Hm. injection Hm as <-. apply not_elem_of_cons in Hid as [Hid1 Hid2]. cbn [key_index]. unfold pkey. rewrite Hp. cbn.
  rewrite decide_False by congruence. by rewrite (IH n ids' eq_refl Hid2) by lia.
Qed.
Lemma key_index_some keys ids id n i : mapM (λ p, fmap k_unique_id (pl_keys s !! p)) keys = Some ids →
  ids !! i = Some id → (i < n)%nat → ∃ j, key_index s n keys id = Ret j ∧ (j ≤ i)%nat.
Proof.
  revert n ids i. induction keys as [|p keys IH]; intros [|n] ids i Hm Hi Hn; try lia.
  - cbn in Hm. injection Hm as <-. done.
  - cbn in Hm. destruct (pl_keys s !! p) as [k|] eqn:Hp; [|done]. cbn in Hm. destruct (mapM _ keys) as [ids'|] eqn:Hm'; [|done].
    cbn in Hm. injection Hm as <-. cbn [key_index]. unfold pkey. rewrite Hp. cbn.
    destruct (decide (k_unique_id k = id)); [exists O; split; [done|lia]|]. destruct i as [|i]; [cbn in Hi; congruence|].
    destruct (IH n ids' i eq_refl Hi ltac:(lia)) as (j & -> & Hj). exists (S j). split; [done|lia].
Qed.

Lemma mark_passes st n id p : passes (ph_plans st) n id p → p ≠ null →
  ∃ q, ph_plans st !! p = Some q ∧ ∀ fuel,
    mark_deferred s (S fuel) n p id st = mark_deferred s fuel n (parent_plan q) id (with_plans (alter set_deferred p) st).
Proof.
  intros (q & ids & Hq & Hids & Hid & Hn) Hp. exists q. split; [done|]. intros fuel.
  rewrite mark_deferred_turn, decide_False, Hq by done. rewrite (key_index_none _ ids) by (done || unfold total_iter_keys in Hn; lia).
  rewrite decide_False by (rewrite Hn; tauto). f_equal. unfold with_plans. f_equal. apply map_eq. intros r.
  destruct (decide (r = p)) as [->|Hne]; [by rewrite lookup_insert_eq, lookup_alter_eq, Hq|by rewrite lookup_insert_ne, lookup_alter_ne].
Qed.
Lemma alter_passes plans n id p r : passes plans n id r → passes (alter set_deferred p plans) n id r.
Proof.
  intros (q & ids & Hq & H1 & H2 & H3). destruct (decide (r = p)) as [->|Hne].
  - exists (set_deferred q), ids. rewrite lookup_alter_eq, Hq. by destruct q.
  - exists q, ids. by rewrite lookup_alter_ne.
Qed.
Lemma alter_path plans p cur l owner : path plans cur l owner → path (alter set_deferred p plans) cur l owner.
Proof.
  revert cur. induction l as [|r l IH]; intros cur; [done|]. intros (-> & Hr & q & Hq & Hl). split; [done|]. split; [done|].
  destruct (decide (r = p)) as [->|Hne].
  - exists (set_deferred q). rewrite lookup_alter_eq, Hq. split; [done|]. destruct q; cbn in *. by apply IH.
  - exists q. rewrite lookup_alter_ne by done. split; [done|]. by apply IH.
Qed.
(** The plans on the way are deferred, and the search goes on from the owner. *)
Lemma mark_path l : ∀ fuel n id st cur owner, path (ph_plans st) cur l owner → Forall (passes (ph_plans st) n id) l →
  mark_deferred s (length l + fuel) n cur id st = mark_deferred s fuel n owner id (with_plans (defer l) st).
Proof.
  induction l as [|p l IH]; intros fuel n id st cur owner Hp HF.
  - cbn in Hp. subst. by destruct st.
  - destruct Hp as (-> & Hne & q & Hq & Hp). apply list.Forall_cons in HF as [H1 HF].
    destruct (mark_passes st n id p H1 Hne) as (q' & Hq' & E). rewrite Hq in Hq'. injection Hq' as <-.
    cbn [length plus]. rewrite E. rewrite (IH fuel n id (with_plans (alter set_deferred p) st) _ owner); cbn [ph_plans with_plans].
    + by destruct st.
    + by apply alter_path.
    + eapply list.Forall_impl; [exact HF|]. intros r. apply alter_passes.
Qed.
Lemma path_defer l plans p q : plans !! p = Some q → p ∉ l → defer l plans !! p = Some q.
Proof.
  revert plans. induction l as [|r l IH]; intros plans Hp Hn; [done|]. apply not_elem_of_cons in Hn as [H1 H2].
  cbn. apply IH; [by rewrite lookup_alter_ne|done].
Qed.

Lemma path_below st cur l owner : younger st → path (ph_plans st) cur l owner → Forall (λ r, r ≤ cur) l ∧ NoDup l ∧
  Forall (λ r, is_Some (ph_plans st !! r)) l ∧ (l ≠ [] → owner < cur).
Proof.
  intros Hy. revert cur. induction l as [|p l IH]; intros cur; [intros _; by repeat split; try apply NoDup_nil_2|].
  intros (-> & _ & q & Hq & Hp). destruct (IH _ Hp) as (H1 & H2 & H3 & H4). pose proof (younger_parent _ Hy _ _ Hq) as Hlt.
  split; [|split; [|split]].
  - constructor; [lia|]. eapply list.Forall_impl; [exact H1|]. cbn. intros; lia.
  - apply NoDup_cons_2; [|done]. intros Hin. rewrite list.Forall_forall in H1. specialize (H1 p Hin). cbn in H1. lia.
  - constructor; [by eexists|done].
  - intros _. destruct l; [by cbn in Hp; subst|]. specialize (H4 ltac:(done)). lia.
Qed.
Lemma path_length st cur l owner : younger st → path (ph_plans st) cur l owner → (length l ≤ size (ph_plans st))%nat.
Proof.
  intros Hy Hp. destruct (path_below _ _ _ _ Hy Hp) as (_ & Hd & Hs & _). rewrite <- size_dom.
  rewrite <- (size_list_to_set (C := gset ptr) l) by done. apply subseteq_size. intros r Hr%elem_of_list_to_set.
  apply elem_of_dom. rewrite list.Forall_forall in Hs. by apply Hs.
Qed.
(** A column of the alias [id] in the condition of [out]. *)
Definition column_of (p : ptr) (id : Z) : Prop :=
  ∃ column q table alias list, pl_column_aliases s !! p = Some (column, table_alias_STATEMENT q table alias id list).
Lemma walk_path st out o l owner p id : younger st → ph_plans st !! out = Some o → column_of p id →
  path (ph_plans st) out l owner → Forall (passes (ph_plans st) (total_iter_keys o) id) l →
  ∃ fuel, walk_column s out p st = mark_deferred s (S fuel) (total_iter_keys o) owner id (with_plans (defer l) st).
Proof.
  intros Hy Ho (column & q & table & alias & list & Ha) Hp HF. pose proof (path_length _ _ _ _ Hy Hp) as Hl.
  exists (S (size (ph_plans st)) - length l)%nat. unfold walk_column.
  rewrite (glift_run _ _ _ (column, table_alias_STATEMENT q table alias id list)) by (by rewrite Ha).
  rewrite (glift_run _ _ _ id) by done. rewrite (gbind_run (ggets ph_plans) _ st (ph_plans st) st) by done.
  rewrite (plan_at_run _ _ _ o) by done. rewrite <- (mark_path l _ _ _ _ _ _ Hp HF). f_equal. lia.
Qed.
Lemma owner_kept st out l owner w : younger st → path (ph_plans st) out l owner → ph_plans st !! owner = Some w →
  ph_plans (with_plans (defer l) st) !! owner = Some w.
Proof.
  intros Hy Hp Hw. cbn. apply path_defer; [done|]. revert Hp. generalize out. clear Hw. induction l as [|p l IH]; intros cur Hp; [set_solver|].
  pose proof (path_below _ _ _ _ Hy Hp) as (_ & _ & _ & H4). destruct Hp as (-> & _ & q & Hq & Hp).
  apply not_elem_of_cons. split; [|by eapply IH]. specialize (H4 ltac:(done)). lia.
Qed.

(** C30: A column of an outer query.  The plans between the one whose condition has the column
    and the one that has a key of its table are deferred, and nothing else changes - if each
    of them has as many keys as the plan with the condition, and the key of the owner is not
    behind that number. *)
Theorem column_owner_found st out o l owner w p id ids i : younger st → ph_plans st !! out = Some o → column_of p id →
  path (ph_plans st) out l owner → Forall (passes (ph_plans st) (total_iter_keys o) id) l →
  ph_plans st !! owner = Some w → owner ≠ null → key_ids w = Some ids → ids !! i = Some id → (i < total_iter_keys o)%nat →
  walk_column s out p st = Ret ((), with_plans (defer l) st).
Proof.
  intros Hy Ho Hc Hp HF Hw Hn Hids Hi Hlt. destruct (walk_path st out o l owner p id Hy Ho Hc Hp HF) as (fuel & ->).
  rewrite mark_deferred_turn, decide_False, (owner_kept _ _ _ _ w Hy Hp Hw) by done.
  destruct (key_index_some _ ids id (total_iter_keys o) i Hids Hi Hlt) as (j & -> & Hj). rewrite decide_True; [done|].
  apply length_mapM in Hids. apply lookup_lt_Some in Hi. unfold total_iter_keys. lia.
Qed.
(** The bound of the inner loop is that of the wrong plan.  If a plan on the way to the
    owner has fewer keys than the plan with the condition, the search goes through a NULL
    pointer; if it has more, the search takes it for the owner, and it is not deferred
    although it depends on the row of a query further out. *)
Theorem column_owner_missed st out o l mid m p id ids : younger st → ph_plans st !! out = Some o → column_of p id →
  path (ph_plans st) out l mid → Forall (passes (ph_plans st) (total_iter_keys o) id) l →
  ph_plans st !! mid = Some m → mid ≠ null → key_ids m = Some ids → id ∉ ids →
  ((total_iter_keys m < total_iter_keys o)%nat → walk_column s out p st = Undef NullPointer) ∧
  ((total_iter_keys o < total_iter_keys m)%nat → walk_column s out p st = Ret ((), with_plans (defer l) st) ∧ defer l (ph_plans st) !! mid = Some m).
Proof.
  intros Hy Ho Hc Hp HF Hm Hn Hids Hid. destruct (walk_path st out o l mid p id Hy Ho Hc Hp HF) as (fuel & ->).
  pose proof (owner_kept _ _ _ _ m Hy Hp Hm) as Hk. rewrite mark_deferred_turn, decide_False, Hk by done. split; intros Hlt.
  - by rewrite (key_index_short _ ids) by (done || unfold total_iter_keys in *; lia).
  - rewrite (key_index_none _ ids) by (done || unfold total_iter_keys in *; lia). by rewrite decide_True by lia.
Qed.
End owners.

(** ** A sample *)
(** Three nested queries, each over one table; the innermost refers to the outermost. *)
Definition owner_key (id : Z) : SqlKey :=
  {| k_table := 1; k_column := 2; k_key_num := 0; k_unique_id := id; k_value := NULL; k_insert := null; k_type := LP_KEY_ADVANCE;
     k_owner := NULL; k_is_cross_reference_key := false; k_cross_reference_output_key := null;
     k_cross_reference_column_alias := null; k_cross_reference_filename := null |}.
Definition owner_planner : planner :=
  {| pl_counter := 9; pl_next := 100; pl_keys := {[10 := owner_key 1; 11 := owner_key 2; 12 := owner_key 3; 13 := owner_key 4]};
     pl_values := ∅; pl_keywords := ∅;
     pl_column_aliases := {[50 := (null_STATEMENT, table_alias_STATEMENT 30 null_STATEMENT null_STATEMENT 1 null_STATEMENT)]};
     pl_table_aliases := ∅; pl_items := ∅ |}.
Definition owner_plan (parent : ptr) (keys : list ptr) : PhysicalPlan := set_iterKeys keys (new_plan parent null).
Definition owner_state (mid inner : list ptr) : phys :=
  {| ph_plans := {[100 := owner_plan null [10]; 101 := owner_plan 100 mid; 102 := owner_plan 101 inner]};
     ph_next := 103; ph_last := 102; ph_warnings := 0 |}.
Lemma owner_state_younger mid inner : younger (owner_state mid inner).
Proof.
  assert (H : ∀ (p : ptr) q, ph_plans (owner_state mid inner) !! p = Some q → 0 < p < 103 ∧ parent_plan q < p).
  { intros p q. cbn. rewrite !lookup_insert_Some, lookup_singleton_Some. intros H. decompose [and or] H; subst; by cbn. }
  split; [split; [done|intros p [q Hq]; by apply (H p q)]|intros p q Hq; by apply (H p q)].
Qed.
Lemma owner_column : column_of owner_planner 50 1.
Proof. by exists null_STATEMENT, 30, null_STATEMENT, null_STATEMENT, null_STATEMENT. Qed.
Lemma column_owner_found_witness :
  walk_column owner_planner 102 50 (owner_state [11] [12]) = Ret ((), with_plans (defer [102; 101]) (owner_state [11] [12])) ∧
  deferred_plan <$> defer [102; 101] (ph_plans (owner_state [11] [12])) !! 101 = Some true.
Proof.
  split; [|done]. apply (column_owner_found owner_planner _ 102 (owner_plan 101 [12]) [102; 101] 100 (owner_plan null [10]) 50 1 [1] 0);
    [apply owner_state_younger|done|apply owner_column| | |done|done|done|done|cbn; lia].
  - split; [done|]. split; [done|]. eexists. split; [done|]. split; [done|]. split; [done|]. by eexists.
  - repeat constructor; (eexists _, _; split; [done|]; split; [done|]; split; [|done]; by rewrite list_elem_of_singleton).
Defined.
Lemma column_owner_missed_witness :
  walk_column owner_planner 102 50 (owner_state [11] [12; 13]) = Undef NullPointer ∧
  walk_column owner_planner 102 50 (owner_state [11; 13] [12]) = Ret ((), with_plans (defer [102]) (owner_state [11; 13] [12])).
Proof.
  split.
  - apply (column_owner_missed owner_planner _ 102 (owner_plan 101 [12; 13]) [102] 101 (owner_plan 100 [11]) 50 1 [2]);
      [apply owner_state_younger|done|apply owner_column| | |done|done|done|by rewrite list_elem_of_singleton|cbn; lia].
    + split; [done|]. split; [done|]. by eexists.
    + repeat constructor. eexists _, _. split; [done|]. split; [done|]. split; [|done]. set_solver.
  - apply (column_owner_missed owner_planner _ 102 (owner_plan 101 [12]) [102] 101 (owner_plan 100 [11; 13]) 50 1 [2; 4]);
      [apply owner_state_younger|done|apply owner_column| | |done|done|done|set_solver|cbn; lia].
    + split; [done|]. split; [done|]. by eexists.
    + repeat constructor. eexists _, _. split; [done|]. split; [done|]. split; [|done]. by rewrite list_elem_of_singleton.
Defined.
