(* ===== verification/RoutineName.v ===== *)
(** * Names of generated routines

    [ydb_hash_to_string.c] and [generate_routine_name.c]: the 128-bit hash of a
    plan becomes the name of the M routine that runs it.  The hash itself comes
    from YottaDB's [ydb_mmrhash_128_result]; its two words are arguments here. *)
From stdpp Require Import strings.
From S2P Require Import Prelude CMem.

Definition MAX_ROUTINE_LEN : Z := 31.
Definition base62_chars : list byte :=
  lit "0123456789ABCDEFGHIJKLMNOPQRSTUVWXYZabcdefghijklmnopqrstuvwxyz".
Record ydb_uint16 := { one : Z; two : Z }.
Definition hash_ok (h : ydb_uint16) : Prop := 0 ≤ one h < 2 ^ 64 ∧ 0 ≤ two h < 2 ^ 64.

(** Each turn of the loop writes two characters; [n] turns are enough for a buffer
    of [2 * n]. *)
Fixpoint hash_loop (fuel : nat) (buffer : list byte) (i buf_len hashone hashtwo : Z)
    : outcome (list byte) :=
  match fuel with
  | O => NoFuel
  | S fuel' =>
      if i <? buf_len then
        c ← load8 base62_chars (hashone mod 62);
        buffer ← store8 buffer i c;
        d ← load8 base62_chars (hashtwo mod 62);
        buffer ← store8 buffer (i + 1) d;
        hash_loop fuel' buffer (i + 2) buf_len (hashone / 62) (hashtwo / 62)
      else Ret buffer
  end.
Definition ydb_hash_to_string (hash : ydb_uint16) (buffer : list byte) (buf_len : Z)
    : outcome (list byte) :=
  hash_loop (S (Z.to_nat buf_len)) buffer 0 buf_len (one hash) (two hash).

Inductive FileType := CrossReference | OutputPlan | OtherFile.
Definition xref_prefix : list byte := lit "%ydboctoX".
Definition output_plan_prefix : list byte := lit "%ydboctoP".

(** [hash_str] is uninitialised before the call; [routine_name] is the caller's
    buffer, [routine_len] its size. *)
Definition generate_routine_name (hash : ydb_uint16) (hash_str routine_name : list byte)
    (routine_len : Z) (file_type : FileType) : outcome (list byte * Z) :=
  _ ← c_assert (MAX_ROUTINE_LEN <=? routine_len);
  let prefix_len := zlen xref_prefix in
  let hash_len := MAX_ROUTINE_LEN - prefix_len in
  hash_str ← ydb_hash_to_string hash hash_str hash_len;
  let finish prefix :=
    name ← store_bytes routine_name 0 prefix;
    h ← load_bytes hash_str 0 hash_len;
    name ← store_bytes name prefix_len h;
    name ← store8 name (prefix_len + hash_len) nul;
    Ret (name, MAX_ROUTINE_LEN) in
  match file_type with
  | CrossReference => finish xref_prefix
  | OutputPlan => finish output_plan_prefix
  | OtherFile => Ret (routine_name, 0)
  end.

(** ** Base 62, least significant digit first, the two words interleaved *)
Definition char62 (d : Z) : byte := default x00 (base62_chars !! Z.to_nat d).
Fixpoint digits62 (n : nat) (a b : Z) : list byte :=
  match n with
  | O => []
  | S n' => char62 (a mod 62) :: char62 (b mod 62) :: digits62 n' (a / 62) (b / 62)
  end.

Lemma load_char62 d : 0 ≤ d < 62 → load8 base62_chars d = Ret (char62 d).
Proof.
  intros Hd. unfold load8, char62. destruct (Z.ltb_spec d 0); [lia|].
  destruct (lookup_lt_is_Some_2 base62_chars (Z.to_nat d)) as [x ->]; [|done].
  change (length base62_chars) with 62%nat. lia.
Qed.

Lemma char62_inj c d : 0 ≤ c < 62 → 0 ≤ d < 62 → char62 c = char62 d → c = d.
Proof.
  intros Hc Hd E.
  assert (Hall : forallb (λ i, forallb (λ j, bool_decide (char62 i = char62 j → i = j)) (seqZ 0 62))
    (seqZ 0 62) = true) by (vm_compute; reflexivity).
  rewrite forallb_forall in Hall. specialize (Hall c).
  rewrite <- list_elem_of_In, elem_of_seqZ in Hall. specialize (Hall ltac:(lia)).
  rewrite forallb_forall in Hall. specialize (Hall d).
  rewrite <- list_elem_of_In, elem_of_seqZ in Hall. specialize (Hall ltac:(lia)).
  by apply bool_decide_eq_true_1 in Hall; apply Hall.
Qed.

Lemma length_digits62 n a b : length (digits62 n a b) = (2 * n)%nat.
Proof. revert a b. induction n as [|n IH]; intros; cbn [digits62 length]; [done|]. rewrite IH. lia. Qed.

Lemma hash_loop_spec n fuel w mid post a b buf_len :
  length mid = (2 * n)%nat → buf_len = zlen w + zlen mid → (n < fuel)%nat →
  hash_loop fuel (w ++ mid ++ post) (zlen w) buf_len a b = Ret (w ++ digits62 n a b ++ post).
Proof.
  revert fuel w mid a b. induction n as [|n IH]; intros [|fuel] w mid a b Hm Hl Hf; try lia.
  - destruct mid; [|cbn in Hm; lia]. cbn [hash_loop digits62 app].
    destruct (Z.ltb_spec (zlen w) buf_len); [zlia|done].
  - destruct mid as [|x [|y mid]]; cbn in Hm; try lia. cbn [hash_loop digits62].
    destruct (Z.ltb_spec (zlen w) buf_len); [|zlia].
    rewrite (load_char62 (a mod 62)) by (apply Z.mod_pos_bound; lia). cbn [mbind outcome_bind].
    rewrite (store8_app_eq _ _ w x _ (y :: mid ++ post)) by done. cbn [mbind outcome_bind].
    rewrite (load_char62 (b mod 62)) by (apply Z.mod_pos_bound; lia). cbn [mbind outcome_bind].
    rewrite (store8_app_eq _ _ (w ++ [char62 (a mod 62)]) y _ (mid ++ post));
      [|by rewrite <- app_assoc|zlia]. cbn [mbind outcome_bind].
    replace ((w ++ [char62 (a mod 62)]) ++ char62 (b mod 62) :: mid ++ post)
      with ((w ++ [char62 (a mod 62); char62 (b mod 62)]) ++ mid ++ post) by (by rewrite <- !app_assoc).
    replace (zlen w + 2) with (zlen (w ++ [char62 (a mod 62); char62 (b mod 62)])) by zlia.
    rewrite (IH fuel); [by rewrite <- app_assoc|lia|zlia|lia].
Qed.

(** Equal digits, equal words: 62^11 > 2^64. *)
Lemma digits62_inj n a b a' b' :
  0 ≤ a < 62 ^ Z.of_nat n → 0 ≤ b < 62 ^ Z.of_nat n →
  0 ≤ a' < 62 ^ Z.of_nat n → 0 ≤ b' < 62 ^ Z.of_nat n →
  digits62 n a b = digits62 n a' b' → a = a' ∧ b = b'.
Proof.
  revert a b a' b'. induction n as [|n IH]; intros a b a' b' Ha Hb Ha' Hb' E.
  - change (62 ^ Z.of_nat 0) with 1 in *. lia.
  - cbn [digits62] in E. injection E as E1 E2 E.
    apply char62_inj in E1, E2; try (apply Z.mod_pos_bound; lia).
    rewrite Nat2Z.inj_succ, Z.pow_succ_r in * by lia.
    assert (Hdiv : ∀ x, 0 ≤ x < 62 * 62 ^ Z.of_nat n → 0 ≤ x / 62 < 62 ^ Z.of_nat n).
    { intros x Hx. split; [apply Z.div_pos; lia|]. apply Z.div_lt_upper_bound; lia. }
    destruct (IH (a / 62) (b / 62) (a' / 62) (b' / 62)); try (by apply Hdiv); [done|].
    rewrite (Z.div_mod a 62), (Z.div_mod a' 62), (Z.div_mod b 62), (Z.div_mod b' 62) by lia. lia.
Qed.

Definition routine_prefix (t : FileType) : list byte :=
  match t with CrossReference => xref_prefix | _ => output_plan_prefix end.
Definition routine_name_text (t : FileType) (h : ydb_uint16) : list byte :=
  routine_prefix t ++ digits62 11 (one h) (two h).

Lemma zlen_routine_name t h : zlen (routine_name_text t h) = 31.
Proof. unfold routine_name_text. rewrite zlen_app. unfold zlen at 2. rewrite length_digits62. by destruct t. Qed.
Lemma char62_elem d : 0 ≤ d < 62 → char62 d ∈ base62_chars.
Proof.
  intros Hd. unfold char62.
  destruct (lookup_lt_is_Some_2 base62_chars (Z.to_nat d)) as [x Hx]; [change (length base62_chars) with 62%nat; lia|].
  rewrite Hx. by apply (list_elem_of_lookup_2 _ _ _ Hx).
Qed.
Lemma digits62_chars n : ∀ a b, Forall (λ c, c ∈ base62_chars) (digits62 n a b).
Proof.
  induction n as [|n IH]; intros a b; cbn [digits62]; [constructor|].
  rewrite !Forall_cons_iff. split_and!; [apply char62_elem, Z.mod_pos_bound; lia..|apply IH].
Qed.
Lemma routine_name_no_nul t h : no_nul (routine_name_text t h).
Proof.
  unfold routine_name_text. apply no_nul_app. split; [destruct t; eval_decide|].
  intros Hin. pose proof (proj1 (Forall_forall _ _) (digits62_chars 11%nat (one h) (two h)) nul) as Hf.
  rewrite <- list_elem_of_In in Hf. apply Hf in Hin. revert Hin.
  apply (bool_decide_unpack (_ ∉ _)). vm_compute. exact I.
Qed.

Lemma routine_hash_spec h hash_str : zlen hash_str = 31 →
  ydb_hash_to_string h hash_str 22 = Ret (digits62 11 (one h) (two h) ++ drop 22 hash_str).
Proof.
  intros Hh. set (m := take 22 hash_str).
  assert (Hm : length m = 22%nat) by (unfold m, zlen in *; rewrite length_take; lia).
  pose proof (hash_loop_spec 11 (S (Z.to_nat 22)) [] m (drop 22 hash_str) (one h) (two h) 22 Hm) as E.
  cbn [app] in E. unfold m in E. rewrite take_drop in E. apply E; [|lia].
  fold m. unfold zlen. rewrite Hm. done.
Qed.
(** Whatever size the caller gives for the buffer, from 31 on. *)
Lemma generate_routine_name_len h hash_str name routine_len t :
  t ≠ OtherFile → zlen hash_str = MAX_ROUTINE_LEN → MAX_ROUTINE_LEN < zlen name → MAX_ROUTINE_LEN ≤ routine_len →
  generate_routine_name h hash_str name routine_len t =
    Ret (routine_name_text t h ++ nul :: drop 32 name, MAX_ROUTINE_LEN).
Proof.
  intros Ht Hh Hn Hrl. unfold generate_routine_name. apply Z.leb_le in Hrl. rewrite Hrl. unfold MAX_ROUTINE_LEN in Hh, Hn.
  cbn [c_assert mbind outcome_bind]. change (zlen xref_prefix) with 9.
  change (MAX_ROUTINE_LEN - 9) with 22.
  set (r := drop 22 hash_str).
  pose proof (routine_hash_spec h hash_str Hh) as Hs. fold r in Hs.
  rewrite Hs. cbn [mbind outcome_bind]. set (d := digits62 11 (one h) (two h)).
  assert (Hd : zlen d = 22) by (unfold zlen, d; rewrite length_digits62; done).
  rewrite (load_bytes_app_eq (d ++ r) 0 22 [] d r) by done. cbn [mbind outcome_bind].
  assert (Hp : ∀ p, zlen p = 9 →
    (name0 ← store_bytes name 0 p; name1 ← store_bytes name0 9 d; name2 ← store8 name1 (9 + 22) nul;
     Ret (name2, MAX_ROUTINE_LEN)) = Ret (p ++ d ++ nul :: drop 32 name, MAX_ROUTINE_LEN)).
  { intros p Hp. set (n0 := take 9 name). set (n1 := take 22 (drop 9 name)).
    set (tl := drop 32 name).
    destruct (drop 31 name) as [|x tl'] eqn:Etl;
      [apply (f_equal length) in Etl; rewrite length_drop in Etl; unfold zlen in *; cbn in Etl; lia|].
    assert (Htl : tl = tl') by (unfold tl; change 32%nat with (31 + 1)%nat; by rewrite <- drop_drop, Etl).
    assert (Hn0 : zlen n0 = 9) by (unfold n0, zlen in *; rewrite length_take; lia).
    assert (Hn1 : zlen n1 = 22) by (unfold n1, zlen in *; rewrite length_take, length_drop; lia).
    assert (Hname : name = n0 ++ n1 ++ x :: tl).
    { rewrite Htl, <- Etl. change 31%nat with (9 + 22)%nat.
      unfold n0, n1. by rewrite <- drop_drop, !take_drop. }
    rewrite (store_bytes_app_eq name 0 [] n0 (n1 ++ x :: tl) p); [|done|done|lia].
    cbn [mbind outcome_bind app].
    rewrite (store_bytes_app_eq _ 9 p n1 (x :: tl) d); [|done|lia|lia]. cbn [mbind outcome_bind].
    rewrite (store8_app_eq _ _ (p ++ d) x nul tl); [|by rewrite <- app_assoc|rewrite zlen_app; lia].
    cbn [mbind outcome_bind]. by rewrite <- app_assoc. }
  unfold routine_name_text. destruct t; [| |done]; cbn [routine_prefix];
    rewrite Hp by done; by rewrite <- app_assoc.
Qed.
Lemma generate_routine_name_spec h hash_str name t :
  t ≠ OtherFile → zlen hash_str = MAX_ROUTINE_LEN → MAX_ROUTINE_LEN < zlen name →
  generate_routine_name h hash_str name (zlen name) t =
    Ret (routine_name_text t h ++ nul :: drop 32 name, MAX_ROUTINE_LEN).
Proof. intros Ht Hh Hn. apply generate_routine_name_len; [done..|lia]. Qed.

(** [generate_routine_name] returns a 31-character name (a legal M routine
    name: the prefix, then letters and digits only) terminated inside the buffer,
    and two plans get the same name only when their 128-bit hashes and their kinds
    are the same: eleven base-62 digits hold all of each 64-bit word. *)
Theorem generate_routine_name_injective h h' hash_str name t t' :
  hash_ok h → hash_ok h' → t ≠ OtherFile → t' ≠ OtherFile →
  zlen hash_str = MAX_ROUTINE_LEN → MAX_ROUTINE_LEN < zlen name →
  ∃ r r', generate_routine_name h hash_str name (zlen name) t = Ret (r, MAX_ROUTINE_LEN) ∧
    generate_routine_name h' hash_str name (zlen name) t' = Ret (r', MAX_ROUTINE_LEN) ∧
    zlen r = zlen name ∧ cstr r = routine_name_text t h ∧ zlen (cstr r) = MAX_ROUTINE_LEN ∧
    Forall (λ c, c ∈ base62_chars) (digits62 11 (one h) (two h)) ∧
    (cstr r = cstr r' → h = h' ∧ t = t').
Proof.
  intros [Ha Hb] [Ha' Hb'] Ht Ht' Hh Hn.
  do 2 eexists. split; [by apply generate_routine_name_spec|].
  split; [by apply generate_routine_name_spec|].
  rewrite !cstr_app_nul by apply routine_name_no_nul. split.
  { rewrite zlen_app, zlen_routine_name, zlen_cons, zlen_drop. unfold MAX_ROUTINE_LEN in *. lia. }
  split; [done|]. split; [apply zlen_routine_name|]. split; [apply digits62_chars|]. intros E.
  unfold routine_name_text in E.
  assert (Hpl : ∀ t0, length (routine_prefix t0) = 9%nat) by (by intros []).
  apply app_inj_1 in E as [E1 E2]; [|by rewrite !Hpl].
  assert (2 ^ 64 < 62 ^ Z.of_nat 11) by (vm_compute; reflexivity).
  apply digits62_inj in E2 as [E2 E3]; try lia.
  split; [destruct h, h'; cbn [one two] in E2, E3; congruence|]. clear -E1 Ht Ht'. destruct t, t'; try reflexivity; try (by destruct Ht); try (by destruct Ht'); vm_compute in E1; discriminate E1.
Qed.

Lemma generate_routine_name_injective_witness :
  ∃ r r', generate_routine_name {| one := 5; two := 7 |} (replicate 31 nul) (replicate 40 nul) 40 OutputPlan =
            Ret (r, 31) ∧
    generate_routine_name {| one := 5; two := 8 |} (replicate 31 nul) (replicate 40 nul) 40 OutputPlan =
            Ret (r', 31) ∧
    zlen r = 40 ∧ cstr r = routine_name_text OutputPlan {| one := 5; two := 7 |} ∧ zlen (cstr r) = 31 ∧
    Forall (λ c, c ∈ base62_chars) (digits62 11 5 7) ∧
    (cstr r = cstr r' → {| one := 5; two := 7 |} = {| one := 5; two := 8 |} ∧ OutputPlan = OutputPlan).
Proof.
  apply (generate_routine_name_injective {| one := 5; two := 7 |} {| one := 5; two := 8 |}
    (replicate 31 nul) (replicate 40 nul) OutputPlan OutputPlan);
    [by vm_compute|by vm_compute|done|done|done|done].
Defined.
