(* ===== verification/MemoryChunk.v ===== *)
(** * The chunked allocator

    [memory_chunk.c] and the queue macros of [double_list.h]: [octo_cmalloc] hands
    out pieces of large zeroed chunks kept in a circular doubly linked list,
    [octo_cfree] releases them all.  The heap maps the address of a chunk's header
    to it; addresses are never reused while a chunk is live.  A piece is the chunk
    and the offset in its [value] array. *)
From stdpp Require Import gmap.
From S2P Require Import Prelude.

Definition MEMORY_CHUNK_SIZE : Z := 33554432.

Record MemoryChunk := { mc_next : Z; mc_prev : Z; mc_offset : Z; mc_max_size : Z }.
Record heap := { chunks : gmap Z MemoryChunk; next_address : Z }.

Definition chunk (h : heap) (p : Z) : outcome MemoryChunk :=
  match chunks h !! p with Some c => Ret c | None => Undef NullPointer end.
Definition update (h : heap) (p : Z) (f : MemoryChunk → MemoryChunk) : outcome heap :=
  c ← chunk h p; Ret {| chunks := <[p := f c]> (chunks h); next_address := next_address h |}.
Definition set_next (h : heap) (p q : Z) : outcome heap :=
  update h p (λ c, {| mc_next := q; mc_prev := mc_prev c; mc_offset := mc_offset c;
                      mc_max_size := mc_max_size c |}).
Definition set_prev (h : heap) (p q : Z) : outcome heap :=
  update h p (λ c, {| mc_next := mc_next c; mc_prev := q; mc_offset := mc_offset c;
                      mc_max_size := mc_max_size c |}).

(** [dqinsert(self, new_elem, temp)], statement by statement. *)
Definition dqinsert (h : heap) (self new_elem : Z) : outcome heap :=
  s ← chunk h self;
  let temp := mc_prev s in
  h ← set_next h (mc_prev s) new_elem;
  n ← chunk h new_elem;
  h ← set_prev h self (mc_prev n);
  n ← chunk h new_elem;
  h ← set_next h (mc_prev n) self;
  set_prev h new_elem temp.

(** A zeroed header with [dqinit] applied, and a [calloc]ed value. *)
Definition alloc_chunk (h : heap) (size : Z) : Z * heap :=
  let ret := next_address h in
  let alloc_size := if MEMORY_CHUNK_SIZE <? size then size else MEMORY_CHUNK_SIZE in
  (ret, {| chunks := <[ret := {| mc_next := ret; mc_prev := ret; mc_offset := 0;
                                 mc_max_size := alloc_size |}]> (chunks h);
           next_address := ret + 1 |}).

(** [cur->offset += size]. *)
Definition bump (size : Z) (c : MemoryChunk) : MemoryChunk :=
  {| mc_next := mc_next c; mc_prev := mc_prev c; mc_offset := u64 (mc_offset c + size);
     mc_max_size := mc_max_size c |}.

Definition octo_cmalloc (h : heap) (root size : Z) : outcome (Z * Z * heap) :=
  r ← chunk h root;
  let cur := mc_prev r in
  c ← chunk h cur;
  '(cur, h) ← (if mc_max_size c <? u64 (mc_offset c + size) then
      let '(new, h) := alloc_chunk h size in
      h ← dqinsert h root new;
      r ← chunk h root;
      n ← chunk h new;
      _ ← c_assert ((mc_prev r =? new) && (mc_next n =? root));
      Ret (mc_prev r, h)
    else Ret (cur, h));
  c ← chunk h cur;
  h ← update h cur (bump size);
  Ret (cur, mc_offset c, h).

(** [free(cur->value); free(cur);] *)
Definition free_chunk (h : heap) (p : Z) : outcome heap :=
  match chunks h !! p with
  | Some _ => Ret {| chunks := delete p (chunks h); next_address := next_address h |}
  | None => Undef BadFree
  end.
Fixpoint cfree_loop (fuel : nat) (h : heap) (root cur : Z) : outcome heap :=
  match fuel with
  | O => NoFuel
  | S fuel' =>
      c ← chunk h cur;
      let next := mc_next c in
      if next =? root then free_chunk h cur
      else h ← free_chunk h cur; cfree_loop fuel' h root next
  end.
Definition octo_cfree (h : heap) (root : Z) : outcome heap :=
  cfree_loop (S (size (chunks h))) h root root.

(** ** The ring *)
(** [p] is followed by [q] for neighbours in the list; after the last comes [last_next]. *)
Fixpoint linked (h : heap) (prev : Z) (l : list Z) (end_ : Z) : Prop :=
  match l with
  | [] => True
  | p :: l' => ∃ c, chunks h !! p = Some c ∧ mc_prev c = prev ∧
                 mc_next c = default end_ (head l') ∧ linked h p l' end_
  end.
(** The chunks of the ring in order, the root first. *)
Definition ring (h : heap) (root : Z) (l : list Z) : Prop :=
  NoDup (root :: l) ∧ linked h (List.last l root) (root :: l) root ∧
  Forall (λ p, p < next_address h) (root :: l).
Definition sane (h : heap) : Prop :=
  map_Forall (λ p c, 0 ≤ mc_offset c ≤ mc_max_size c ∧ mc_max_size c < 2 ^ 63 ∧ p < next_address h)
    (chunks h).

Lemma linked_app h prev l1 l2 e :
  linked h prev (l1 ++ l2) e ↔
  linked h prev l1 (default e (head l2)) ∧ linked h (List.last l1 prev) l2 e.
Proof.
  revert prev. induction l1 as [|p l1 IH]; intros prev; cbn [app linked].
  { split; [intros H; by split|by intros [_ H]]. }
  assert (Hh : default e (head (l1 ++ l2)) = default (default e (head l2)) (head l1)) by (by destruct l1).
  assert (Hl : List.last (p :: l1) prev = List.last l1 p).
  { clear. revert p prev. induction l1 as [|q l1 IH]; intros p prev; [done|].
    change (List.last (p :: q :: l1) prev) with (List.last (q :: l1) prev). by rewrite !IH. }
  rewrite Hh, Hl. split.
  - intros (c & Hc & Hp & Hn & [H1 H2]%IH). split; [by exists c|done].
  - intros [(c & Hc & Hp & Hn & H1) H2]. exists c. split_and!; try done. by apply IH.
Qed.

Lemma linked_frame h h' prev l e :
  (∀ p, p ∈ l → chunks h' !! p = chunks h !! p) → linked h prev l e → linked h' prev l e.
Proof.
  revert prev. induction l as [|p l IH]; intros prev Hf; cbn [linked]; [done|].
  intros (c & Hc & Hp & Hn & Hl). exists c. split; [rewrite Hf; [done|left]|].
  split; [done|]. split; [done|]. apply IH; [|done]. intros q Hq. apply Hf. by right.
Qed.

(** What a chunk's links do not change. *)
Definition space (c : MemoryChunk) : Z * Z := (mc_offset c, mc_max_size c).

(** [dqinsert] of a fresh element: only the links of the ends change. *)
Lemma dqinsert_spec h root l new c :
  ring h root l → chunks h !! new = Some c → mc_next c = new → mc_prev c = new →
  new ∉ root :: l → new < next_address h →
  ∃ h', dqinsert h root new = Ret h' ∧ ring h' root (l ++ [new]) ∧
    next_address h' = next_address h ∧
    ∀ p, space <$> chunks h' !! p = space <$> chunks h !! p.
Proof.
  intros (Hnd & Hl & Ha) Hc Hcn Hcp Hnew Hlt.
  assert (Hnr : new ≠ root) by (intros ->; apply Hnew; left).
  assert (Hring : ∀ h', next_address h' = next_address h →
    linked h' new (root :: l ++ [new]) root → ring h' root (l ++ [new])).
  { intros h' Hn Hl'. split; [|split].
    - change (root :: l ++ [new]) with ((root :: l) ++ [new]).
      apply list.NoDup_app. split; [done|]. split; [|apply NoDup_singleton].
      intros x Hx Hx'. apply list_elem_of_singleton in Hx' as ->. done.
    - by rewrite last_last.
    - rewrite Hn. change (root :: l ++ [new]) with ((root :: l) ++ [new]). apply Forall_app. by split; [|constructor]. }
  unfold dqinsert, set_next, set_prev, update, chunk.
  destruct l as [|z l0 _] using rev_ind.
  - destruct Hl as (r & Hr & Hrp & Hrn & _). cbn in Hrp, Hrn.
    rewrite Hr. cbn [mbind outcome_bind]. rewrite Hrp, Hr. cbn [mbind outcome_bind chunks].
    rewrite (lookup_insert_ne _ root new), Hc by done. cbn [mbind outcome_bind]. rewrite Hcp.
    rewrite lookup_insert_eq. cbn [mbind outcome_bind chunks].
    rewrite !(lookup_insert_ne _ root new), Hc by done. cbn [mbind outcome_bind]. rewrite Hcp.
    rewrite !(lookup_insert_ne _ root new), Hc by done. cbn [mbind outcome_bind chunks].
    rewrite lookup_insert_eq. cbn [mbind outcome_bind]. eexists. split; [done|].
    split; [apply Hring; [done|]|split; [done|]].
    + cbn [linked app chunks]. eexists. split; [by rewrite !(lookup_insert_ne _ new root), lookup_insert_eq by done|].
      split; [done|]. split; [done|]. eexists. split; [by rewrite lookup_insert_eq|]. done.
    + intros p. cbn [chunks]. destruct (decide (p = new)) as [->|Hpn].
      * by rewrite lookup_insert_eq, Hc.
      * rewrite !(lookup_insert_ne _ new p) by done. destruct (decide (p = root)) as [->|Hpr].
        -- by rewrite lookup_insert_eq, Hr.
        -- by rewrite !lookup_insert_ne by done.
  - assert (Hlast : List.last (l0 ++ [z]) root = z) by apply last_last. rewrite Hlast in Hl.
    cbn [linked] in Hl. destruct Hl as (r & Hr & Hrp & Hrn & Hl).
    apply linked_app in Hl as [Hl0 (zc & Hz & Hzp & Hzn & _)]. cbn in Hzn.
    assert (Hzr : z ≠ root) by (intros ->; apply list.NoDup_cons in Hnd as [Hnd _]; apply Hnd; set_solver).
    assert (Hnz : new ≠ z) by (intros ->; apply Hnew; set_solver).
    rewrite Hr. cbn [mbind outcome_bind]. rewrite Hrp, Hz. cbn [mbind outcome_bind chunks].
    rewrite (lookup_insert_ne _ z new), Hc by done. cbn [mbind outcome_bind]. rewrite Hcp.
    rewrite (lookup_insert_ne _ z root), Hr by done. cbn [mbind outcome_bind chunks].
    rewrite (lookup_insert_ne _ root new), (lookup_insert_ne _ z new), Hc by done.
    cbn [mbind outcome_bind]. rewrite Hcp.
    rewrite (lookup_insert_ne _ root new), (lookup_insert_ne _ z new), Hc by done.
    cbn [mbind outcome_bind chunks]. rewrite lookup_insert_eq. cbn [mbind outcome_bind].
    eexists. split; [done|]. split; [apply Hring; [done|]|split; [done|]].
    + change (root :: (l0 ++ [z]) ++ [new]) with ((root :: l0 ++ [z]) ++ [new]).
      cbn [linked app chunks]. eexists.
      split; [by rewrite !(lookup_insert_ne _ new root), lookup_insert_eq by done|].
      cbn [mc_prev mc_next]. split; [done|].
      split; [rewrite Hrn; by destruct l0|]. rewrite <- app_assoc. apply linked_app. split.
      * eapply linked_frame; [|exact Hl0]. intros p Hp. cbn [chunks].
        assert (p ≠ new) by (intros ->; apply Hnew; set_solver).
        assert (p ≠ root) by (intros ->; apply list.NoDup_cons in Hnd as [Hnd _]; apply Hnd; set_solver).
        assert (p ≠ z).
        { intros ->. apply list.NoDup_cons in Hnd as [_ Hnd]. apply list.NoDup_app in Hnd as (_ & Hd & _).
          apply (Hd z); [done|left]. }
        by rewrite !lookup_insert_ne by done.
      * cbn [linked app chunks]. eexists.
        split; [by rewrite !(lookup_insert_ne _ new z), (lookup_insert_ne _ root z), lookup_insert_eq by done|].
        cbn [mc_prev mc_next]. split; [done|]. split; [done|].
        eexists. split; [by rewrite lookup_insert_eq|]. done.
    + intros p. cbn [chunks]. destruct (decide (p = new)) as [->|Hpn].
      * by rewrite lookup_insert_eq, Hc.
      * rewrite !(lookup_insert_ne _ new p) by done. destruct (decide (p = root)) as [->|Hpr].
        -- by rewrite lookup_insert_eq, Hr.
        -- rewrite (lookup_insert_ne _ root p) by done. destruct (decide (p = z)) as [->|Hpz].
           ++ by rewrite lookup_insert_eq, Hz.
           ++ by rewrite lookup_insert_ne by done.
Qed.

(** ** One allocation *)

Lemma linked_bump h p c size prev l e :
  chunks h !! p = Some c → linked h prev l e →
  linked {| chunks := <[p := bump size c]> (chunks h); next_address := next_address h |} prev l e.
Proof.
  intros Hp. revert prev. induction l as [|q l IH]; intros prev; [done|].
  intros (d & Hd & H1 & H2 & H3). cbn [linked chunks]. destruct (decide (q = p)) as [->|Hq].
  - exists (bump size c). rewrite lookup_insert_eq. simplify_map_eq. eauto.
  - exists d. rewrite lookup_insert_ne by done. eauto.
Qed.

(** The space allocation needs: what was there stays, the piece is new. *)
Definition grown (h h' : heap) (c off size : Z) : Prop :=
  (∃ d, chunks h' !! c = Some d ∧ 0 ≤ off ∧ off + size = mc_offset d ∧ mc_offset d ≤ mc_max_size d) ∧
  ∀ p d, chunks h !! p = Some d → ∃ d', chunks h' !! p = Some d' ∧ mc_offset d ≤ mc_offset d' ∧
    mc_max_size d' = mc_max_size d ∧ (p = c → mc_offset d ≤ off).

Lemma bump_spec h root l c d size :
  ring h root l → sane h → chunks h !! c = Some d → 0 ≤ size → mc_offset d + size ≤ mc_max_size d →
  let h' := {| chunks := <[c := bump size d]> (chunks h); next_address := next_address h |} in
  ring h' root l ∧ sane h' ∧ grown h h' c (mc_offset d) size.
Proof.
  intros (Hnd & Hl & Ha) Hs Hc Hz Hf h'. pose proof (Hs c d Hc) as ([Ho1 Ho2] & Hm & Hlt).
  assert (Hu : u64 (mc_offset d + size) = mc_offset d + size) by (apply Z.mod_small; lia).
  subst h'. split; [split; [done|split; [by apply linked_bump|done]]|]. split.
  - intros p x Hx. cbn [chunks next_address] in *. destruct (decide (p = c)) as [->|Hp].
    + rewrite lookup_insert_eq in Hx. injection Hx as <-. cbn. rewrite Hu. lia.
    + rewrite lookup_insert_ne in Hx by done. by apply Hs.
  - split.
    + exists (bump size d). cbn [chunks]. rewrite lookup_insert_eq. cbn. rewrite Hu. split; [done|]. lia.
    + intros p x Hx. cbn [chunks]. destruct (decide (p = c)) as [->|Hp].
      * rewrite lookup_insert_eq. exists (bump size d). cbn. rewrite Hu. simplify_map_eq.
        split; [done|]. split; [lia|]. split; [done|]. intros _. lia.
      * rewrite lookup_insert_ne by done. exists x. split; [done|]. split; [lia|]. by split.
Qed.

Lemma chunk_ok h p c : chunks h !! p = Some c → chunk h p = Ret c.
Proof. unfold chunk. by intros ->. Qed.
Lemma update_ok h p c f : chunks h !! p = Some c →
  update h p f = Ret {| chunks := <[p := f c]> (chunks h); next_address := next_address h |}.
Proof. intros H. unfold update. by rewrite (chunk_ok h p c H). Qed.

(** The links at the end of the ring. *)
Lemma ring_ends h root l : ring h root l →
  ∃ r z, chunks h !! root = Some r ∧ mc_prev r = List.last l root ∧
         chunks h !! List.last l root = Some z ∧ mc_next z = root.
Proof.
  intros (_ & Hl & _). destruct l as [|z l0 _] using rev_ind.
  - destruct Hl as (r & Hr & Hp & Hn & _). by exists r, r.
  - rewrite last_last in *. destruct Hl as (r & Hr & Hp & Hn & Hl).
    apply linked_app in Hl as [_ (zc & Hz & Hzp & Hzn & _)]. by exists r, zc.
Qed.

Lemma octo_cmalloc_spec h root l size :
  ring h root l → sane h → 0 ≤ size < 2 ^ 63 →
  ∃ c off h' l', octo_cmalloc h root size = Ret (c, off, h') ∧ ring h' root l' ∧ sane h' ∧
    grown h h' c off size.
Proof.
  intros Hr Hs Hz. pose proof Hr as (Hnd & Hl & Ha).
  destruct (ring_ends h root l Hr) as (r & c & Hroot & Hrp & Hc & _). rewrite <- Hrp in Hc.
  pose proof (Hs _ _ Hc) as ([Ho1 Ho2] & Hm & Hlt).
  unfold octo_cmalloc. rewrite (chunk_ok h root r Hroot). cbn [mbind outcome_bind].
  rewrite (chunk_ok h _ c Hc). cbn [mbind outcome_bind].
  assert (Hu : u64 (mc_offset c + size) = mc_offset c + size) by (apply Z.mod_small; lia).
  rewrite Hu. destruct (Z.ltb_spec (mc_max_size c) (mc_offset c + size)) as [Hfull|Hfits].
  - unfold alloc_chunk. set (new := next_address h).
    set (sz := if MEMORY_CHUNK_SIZE <? size then size else MEMORY_CHUNK_SIZE).
    assert (Hsz : size ≤ sz < 2 ^ 63).
    { unfold sz, MEMORY_CHUNK_SIZE. destruct (Z.ltb_spec 33554432 size); lia. }
    set (nc := {| mc_next := new; mc_prev := new; mc_offset := 0; mc_max_size := sz |}).
    set (h1 := {| chunks := <[new := nc]> (chunks h); next_address := new + 1 |}).
    assert (Hfresh : chunks h !! new = None).
    { destruct (chunks h !! new) as [x|] eqn:E; [|done]. pose proof (Hs _ _ E) as (_ & _ & ?). unfold new in *. lia. }
    assert (Hnew : new ∉ root :: l).
    { intros Hin. pose proof (proj1 (Forall_forall _ _) Ha new) as Hf. rewrite <- list_elem_of_In in Hf.
      specialize (Hf Hin). unfold new in Hf. lia. }
    assert (Hr1 : ring h1 root l).
    { split; [done|]. split.
      - eapply (linked_frame h); [|apply Hr]. intros p Hp. cbn [chunks h1].
        rewrite lookup_insert_ne; [done|]. by intros ->.
      - eapply Forall_impl; [|exact Ha]. intros p Hp. cbn in *. unfold new. lia. }
    destruct (dqinsert_spec h1 root l new nc Hr1) as (h2 & Hq & Hr2 & Hn2 & Hk2);
      [apply lookup_insert_eq|done|done|done|cbn; lia|].
    rewrite Hq. cbn [mbind outcome_bind].
    destruct (ring_ends h2 root (l ++ [new]) Hr2) as (r2 & n2 & Hroot2 & Hrp2 & Hn2' & Hnn).
    rewrite last_last in Hrp2, Hn2'.
    rewrite (chunk_ok h2 root r2 Hroot2). cbn [mbind outcome_bind].
    rewrite (chunk_ok h2 new n2 Hn2'). cbn [mbind outcome_bind].
    rewrite Hrp2, Hnn, !Z.eqb_refl. cbn [andb c_assert mbind outcome_bind].
    rewrite (chunk_ok h2 new n2 Hn2'). cbn [mbind outcome_bind].
    rewrite (update_ok h2 new n2 (bump size) Hn2'). cbn [mbind outcome_bind].
    assert (Esp : ∀ p x, chunks h2 !! p = Some x → ∃ y, chunks h1 !! p = Some y ∧ space x = space y).
    { intros p x Hx. specialize (Hk2 p). rewrite Hx in Hk2. symmetry in Hk2.
      apply fmap_Some in Hk2 as (y & Ey & Es). by exists y. }
    destruct (Esp new n2 Hn2') as (y & Ey & En). cbn [chunks h1] in Ey. rewrite lookup_insert_eq in Ey.
    injection Ey as <-. injection En as Eo Em.
    assert (Hs2 : sane h2).
    { intros p x Hx. rewrite Hn2. cbn [next_address h1]. destruct (Esp p x Hx) as (y & Ey & Exy).
      injection Exy as Eo' Em'. rewrite Eo', Em'. cbn [chunks h1] in Ey.
      destruct (decide (p = new)) as [->|Hp].
      - rewrite lookup_insert_eq in Ey. injection Ey as <-. cbn. lia.
      - rewrite lookup_insert_ne in Ey by done. pose proof (Hs _ _ Ey) as (? & ? & ?). unfold new. lia. }
    destruct (bump_spec h2 root (l ++ [new]) new n2 size Hr2 Hs2 Hn2') as (Hr3 & Hs3 & Hg1 & Hg2); [lia|lia|].
    exists new, (mc_offset n2). eexists _, (l ++ [new]). split; [done|]. split; [done|]. split; [done|].
    split; [done|]. intros p d Hd.
    destruct (decide (p = new)) as [->|Hp]; [by rewrite Hfresh in Hd|].
    specialize (Hk2 p). cbn [chunks h1] in Hk2. rewrite lookup_insert_ne, Hd in Hk2 by done.
    apply fmap_Some in Hk2 as (d2 & Ed2 & Es). injection Es as Ho Hmx.
    destruct (Hg2 p d2 Ed2) as (d3 & Hd3 & H1 & H2 & H3). exists d3. split; [done|]. split; [lia|]. split; [congruence|done].
  - cbn [mbind outcome_bind]. rewrite (chunk_ok h _ c Hc). cbn [mbind outcome_bind].
    rewrite (update_ok h _ c (bump size) Hc). cbn [mbind outcome_bind].
    destruct (bump_spec h root l (mc_prev r) c size Hr Hs Hc) as (Hr3 & Hs3 & Hg); [lia|lia|].
    exists (mc_prev r), (mc_offset c). eexists _, l. split_and!; done.
Qed.

(** ** Runs of allocations *)
Fixpoint alloc_all (h : heap) (root : Z) (sizes : list Z) : outcome (list (Z * Z * Z) * heap) :=
  match sizes with
  | [] => Ret ([], h)
  | n :: sizes' =>
      '(c, off, h) ← octo_cmalloc h root n;
      '(rs, h) ← alloc_all h root sizes';
      Ret ((c, off, n) :: rs, h)
  end.
(** A piece: its chunk, its offset, its size. *)
Definition inside (h : heap) (r : Z * Z * Z) : Prop :=
  ∃ d, chunks h !! r.1.1 = Some d ∧ 0 ≤ r.1.2 ∧ r.1.2 + r.2 ≤ mc_offset d ∧ mc_offset d ≤ mc_max_size d.
Definition apart (r s : Z * Z * Z) : Prop :=
  r.1.1 ≠ s.1.1 ∨ r.1.2 + r.2 ≤ s.1.2 ∨ s.1.2 + s.2 ≤ r.1.2.

Lemma alloc_all_spec h root l sizes :
  ring h root l → sane h → Forall (λ n, 0 ≤ n < 2 ^ 63) sizes →
  ∃ rs h' l', alloc_all h root sizes = Ret (rs, h') ∧ ring h' root l' ∧ sane h' ∧
    rs.*2 = sizes ∧ Forall (inside h') rs ∧ ForallOrdPairs apart rs ∧
    (∀ r, inside h r → inside h' r ∧ Forall (apart r) rs).
Proof.
  intros Hr Hs Hz. revert h l Hr Hs. induction Hz as [|n sizes Hn Hz IH]; intros h l Hr Hs.
  { exists [], h, l. split_and!; try done; try constructor. }
  destruct (octo_cmalloc_spec h root l n Hr Hs Hn) as (c & off & h1 & l1 & E & Hr1 & Hs1 & (d & Hd & Ho & He & Hm) & Hg).
  destruct (IH h1 l1 Hr1 Hs1) as (rs & h2 & l2 & E2 & Hr2 & Hs2 & Hf & Hi & Hp & Hk).
  assert (Hin : inside h1 (c, off, n)) by (exists d; cbn; split; [done|]; lia).
  destruct (Hk _ Hin) as [Hin2 Hap].
  exists ((c, off, n) :: rs), h2, l2. cbn [alloc_all]. rewrite E. cbn [mbind outcome_bind]. rewrite E2.
  split; [done|]. split; [done|]. split; [done|]. split; [cbn; by rewrite Hf|].
  split; [by constructor|]. split; [by constructor|].
  intros r (x & Hx & Hr0 & Hrx & Hxm). destruct (Hg _ _ Hx) as (x' & Hx' & Hxo & Hxs & Hc).
  assert (Hin1 : inside h1 r) by (exists x'; split; [done|]; destruct (Hs1 _ _ Hx') as (? & ? & ?); cbn in *; lia).
  destruct (Hk r Hin1) as [Hr2' Hap']. split; [done|]. constructor; [|done].
  unfold apart. cbn [fst snd]. destruct (decide (r.1.1 = c)) as [Heq|]; [|by left].
  right. left. specialize (Hc Heq). lia.
Qed.

(** C33: [octo_cmalloc] hands out memory that is its own: any run of allocations
    succeeds, every piece lies inside the chunk it points into, no two pieces
    overlap, pieces handed out before stay valid and apart from the new ones, and
    the chunks stay linked in a ring. *)
Theorem octo_cmalloc_disjoint h root l sizes :
  ring h root l → sane h → Forall (λ n, 0 ≤ n < 2 ^ 63) sizes →
  ∃ rs h' l', alloc_all h root sizes = Ret (rs, h') ∧ ring h' root l' ∧
    rs.*2 = sizes ∧ Forall (inside h') rs ∧ ForallOrdPairs apart rs ∧
    (∀ r, inside h r → inside h' r ∧ Forall (apart r) rs).
Proof.
  intros Hr Hs Hz. destruct (alloc_all_spec h root l sizes Hr Hs Hz) as (rs & h' & l' & ? & ? & ? & ? & ? & ? & ?).
  by exists rs, h', l'.
Qed.

(** ** Releasing the ring *)
Lemma linked_present h prev l e p : linked h prev l e → p ∈ l → ∃ c, chunks h !! p = Some c.
Proof.
  revert prev. induction l as [|q l IH]; intros prev Hl Hp; [by apply elem_of_nil in Hp|].
  destruct Hl as (c & Hc & _ & _ & Hl). apply elem_of_cons in Hp as [->|Hp]; eauto.
Qed.

Lemma ring_size h root l : ring h root l → (length (root :: l) ≤ size (chunks h))%nat.
Proof.
  intros (Hnd & Hl & _). rewrite <- size_dom, <- (size_list_to_set (C := gset Z)) by exact Hnd.
  apply subseteq_size. intros p Hp. apply elem_of_list_to_set in Hp.
  destruct (linked_present _ _ _ _ _ Hl Hp) as [c Hc]. apply elem_of_dom. by exists c.
Qed.

Lemma cfree_loop_spec fuel h root prev p l :
  linked h prev (p :: l) root → NoDup (p :: l) → root ∉ l → (length l < fuel)%nat →
  ∃ h', cfree_loop fuel h root p = Ret h' ∧
    ∀ q, chunks h' !! q = if decide (q ∈ p :: l) then None else chunks h !! q.
Proof.
  revert fuel h prev p. induction l as [|p' l IH]; intros fuel h prev p (c & Hc & _ & Hn & Hl) Hnd Hr Hf;
    (destruct fuel as [|fuel]; [lia|]); cbn [cfree_loop]; rewrite (chunk_ok h p c Hc); cbn [mbind outcome_bind];
    rewrite Hn; cbn [head default]; unfold free_chunk.
  - unfold id. rewrite Z.eqb_refl, Hc. eexists. split; [done|]. intros q. cbn [chunks]. case_decide as Hq.
    + apply list_elem_of_singleton in Hq as ->. apply lookup_delete_eq.
    + apply lookup_delete_ne. intros <-. apply Hq. left.
  - unfold id. destruct (Z.eqb_spec p' root) as [->|Hne]; [exfalso; apply Hr; left|]. rewrite Hc. cbn [mbind outcome_bind].
    apply list.NoDup_cons in Hnd as [Hp Hnd].
    destruct (IH fuel {| chunks := delete p (chunks h); next_address := next_address h |} p p') as (h' & E & Hh').
    { eapply linked_frame; [|exact Hl]. intros q Hq. cbn [chunks]. apply lookup_delete_ne. by intros <-. }
    { done. } { intros Hin. apply Hr. by right. } { cbn in Hf. lia. }
    exists h'. split; [exact E|]. intros q. rewrite Hh'. cbn [chunks].
    destruct (decide (q = p)) as [->|Hq].
    + rewrite lookup_delete_eq. rewrite (decide_True (P := p ∈ p :: p' :: l)) by left. by destruct (decide _).
    + rewrite lookup_delete_ne by done. apply decide_ext. rewrite (elem_of_cons (p' :: l) q p). tauto.
Qed.

(** [octo_cfree] releases every chunk of the ring exactly once and nothing else:
    it terminates, never frees or reads a chunk that is already released, and a
    heap location is gone afterwards if and only if it was a chunk of the ring. *)
Theorem octo_cfree_releases h root l :
  ring h root l →
  ∃ h', octo_cfree h root = Ret h' ∧
    ∀ q, chunks h' !! q = if decide (q ∈ root :: l) then None else chunks h !! q.
Proof.
  intros Hr. pose proof (ring_size h root l Hr) as Hs. destruct Hr as (Hnd & Hl & _).
  apply (cfree_loop_spec _ h root (List.last l root)); [done|done| |cbn in Hs; lia].
  by apply list.NoDup_cons in Hnd as [].
Qed.

(** The allocator right after [memory_chunks = alloc_chunk(MEMORY_CHUNK_SIZE)]. *)
Definition initial_heap : heap := (alloc_chunk {| chunks := ∅; next_address := 1 |} MEMORY_CHUNK_SIZE).2.
Lemma initial_ring : ring initial_heap 1 [].
Proof.
  split; [apply NoDup_singleton|]. split; [|by repeat constructor].
  eexists. split; [reflexivity|]. done.
Defined.
Lemma initial_sane : sane initial_heap.
Proof.
  intros p c Hc. unfold initial_heap, alloc_chunk in Hc. cbn in Hc.
  apply lookup_insert_Some in Hc as [[<- <-]|[_ Hc]]; [|by rewrite lookup_empty in Hc].
  cbn. unfold MEMORY_CHUNK_SIZE. lia.
Defined.

Lemma octo_cmalloc_disjoint_witness :
  ∃ rs h' l', alloc_all initial_heap 1 [10; 33554430; 7] = Ret (rs, h') ∧ ring h' 1 l' ∧
    rs.*2 = [10; 33554430; 7] ∧ Forall (inside h') rs ∧ ForallOrdPairs apart rs ∧
    (∀ r, inside initial_heap r → inside h' r ∧ Forall (apart r) rs).
Proof.
  apply (octo_cmalloc_disjoint initial_heap 1 [] [10; 33554430; 7] initial_ring initial_sane).
  repeat constructor; done.
Defined.

Lemma octo_cfree_releases_witness :
  ∃ h', octo_cfree initial_heap 1 = Ret h' ∧
    ∀ q, chunks h' !! q = if decide (q ∈ [1]) then None else chunks initial_heap !! q.
Proof. apply (octo_cfree_releases initial_heap 1 [] initial_ring). Defined.
