(* ===== verification/Deserialize.v ===== *)
(** * Binary values and bind parameters

    [rocto/deserialize.c] and [rocto/copy_bind_parameter.c]: turning the binary
    values of a Bind message into text, and pasting a parameter into the query
    that [handle_bind] builds.  A buffer that is written through a moving pointer
    is the pair of its bytes and the offset of the pointer, as in [CMem]. *)
From stdpp Require Import strings.
From S2P Require Import Prelude CMem Errors Frontend FrontendSpec.

(** ** [byte_to_hex], [md5_to_hex] *)
(** [if (n < 10) n += 48; else n += 87;] on an [unsigned char]. *)
Definition hex_char (n : Z) : Z := if n <? 10 then u8 (n + 48) else u8 (n + 87).
Definition byte_to_hex (c : byte) (hex : list byte) (at_ : Z) : outcome (list byte) :=
  let high := Z.shiftr (b2z c) 4 in
  let low := Z.shiftr (u8 (Z.shiftl (s8 (b2z c)) 4)) 4 in
  hex ← store8 hex at_ (z2b (hex_char high));
  hex ← store8 hex (at_ + 1) (z2b (hex_char low));
  store8 hex (at_ + 2) nul.

Fixpoint md5_loop (n : nat) (md5_hash : list byte) (i : Z) (hex : list byte) (j : Z)
    : outcome (list byte * Z) :=
  match n with
  | O => Ret (hex, j)
  | S n' =>
      c ← load8 md5_hash i;
      hex ← byte_to_hex c hex j;
      md5_loop n' md5_hash (i + 1) hex (j + 2)
  end.
(** The result and the buffer [hex], which holds [hex_len] bytes for every caller. *)
Definition md5_to_hex (md5_hash hex : list byte) (hex_len : Z) : outcome (Z * list byte) :=
  if hex_len <? 33 then Ret (1, hex)
  else
    '(hex, j) ← md5_loop 16 md5_hash 0 hex 0;
    hex ← store8 hex j nul;
    Ret (0, hex).

(** ** Integers *)
(** [char] is signed on the target. *)
Definition bin_to_bool (bin : list byte) (at_ : Z) : outcome Z := c ← load8 bin at_; Ret (s8 (b2z c)).
Definition bin_to_char (bin : list byte) (at_ : Z) : outcome Z := c ← load8 bin at_; Ret (s8 (b2z c)).
(** [ntohs] and [ntohl] return unsigned values, which the assignment keeps. *)
Definition bin_to_int16 (bin : list byte) (at_ : Z) : outcome Z := v ← load16 bin at_; Ret (ntohs v).
Definition bin_to_int32 (bin : list byte) (at_ : Z) : outcome Z := v ← load32 bin at_; Ret (ntohl v).
Definition bin_to_int64 (bin : list byte) (at_ : Z) : outcome Z :=
  v ← load64 bin at_; Ret (s64 (be64toh v)).
Definition bin_to_oid (bin : list byte) (at_ : Z) : outcome Z := v ← load32 bin at_; Ret (ntohl v).
Definition bin_to_bytea (bin : list byte) : list byte := bin.

(** ** [bin_to_uuid] *)
(** What [strncpy(dest, src, n)] writes. *)
Definition strncpy (src : list byte) (n : nat) : list byte :=
  let s := cstr (take n src) in s ++ replicate (n - length s) nul.

(** [while (j < offset) ...]: each turn moves [j] up by two. *)
Fixpoint uuid_field (fuel : nat) (bin : list byte) (at_ i : Z) (temp_16 buffer : list byte)
    (j offset : Z) : outcome (list byte * list byte * Z * Z) :=
  match fuel with
  | O => NoFuel
  | S fuel' =>
      if j <? offset then
        c ← load8 bin (at_ + i);
        temp_16 ← byte_to_hex c temp_16 0;
        buffer ← store_bytes buffer j (strncpy temp_16 2);
        uuid_field fuel' bin at_ (i + 1) temp_16 buffer (j + 2) offset
      else Ret (temp_16, buffer, i, j)
  end.
Definition UUID_TIME_LOW : Z := 8.
Definition UUID_TIME_MID : Z := 4.
Definition UUID_TIME_HI_AND_VERSION : Z := 4.
Definition UUID_CLOCK_SEQ : Z := 4.
Definition UUID_NODE : Z := 12.
Definition uuid_fuel : nat := 20.
(** A field and [buffer[j] = '-'; j++;]. *)
Definition uuid_dashed (bin : list byte) (at_ i : Z) (temp buffer : list byte) (j offset : Z)
    : outcome (list byte * list byte * Z * Z) :=
  '(temp, buffer, i, j) ← uuid_field uuid_fuel bin at_ i temp buffer j offset;
  buffer ← store8 buffer j (chr "-");
  Ret (temp, buffer, i, j + 1).
(** [temp] is the uninitialised [temp_16]. *)
Definition bin_to_uuid (temp bin : list byte) (at_ : Z) (buffer : list byte) (buf_len : Z)
    : outcome (list byte) :=
  let uuid_len := 36 in
  _ ← c_assert (uuid_len <? buf_len);
  let offset := UUID_TIME_LOW in
  '(temp, buffer, i, j) ← uuid_dashed bin at_ 0 temp buffer 0 offset;
  let offset := offset + (UUID_TIME_MID + 1) in
  '(temp, buffer, i, j) ← uuid_dashed bin at_ i temp buffer j offset;
  let offset := offset + (UUID_TIME_HI_AND_VERSION + 1) in
  '(temp, buffer, i, j) ← uuid_dashed bin at_ i temp buffer j offset;
  let offset := offset + (UUID_CLOCK_SEQ + 1) in
  '(temp, buffer, i, j) ← uuid_dashed bin at_ i temp buffer j offset;
  let offset := offset + (UUID_NODE + 1) in
  '(temp, buffer, i, j) ← uuid_field uuid_fuel bin at_ i temp buffer j offset;
  _ ← c_assert (j =? uuid_len);
  store8 buffer j nul.

(** ** Pasting a parameter into the query *)
(** The query under construction: its buffer and the write pointer; [None] is the
    NULL the functions return after sending the error.  The second component
    lists the messages given to [send_message]. *)
Definition copied : Type := (option (list byte * Z) * list (list byte))%type.
(** [err = make_error_response(PSQL_Error_ERROR, code, text, 0); send_message(session, err);] *)
Definition send_error (code : PSQL_SQLSTATECode) (text : string) : outcome (list (list byte)) :=
  err ← make_error_response PSQL_Error_ERROR code (lit text) [];
  Ret [error_wire err].
Definition refuse (text : string) : outcome copied :=
  sent ← send_error PSQL_Code_Syntax_Error text; Ret (None, sent).

Fixpoint copy_text (n : nat) (block : list byte) (src : Z) (query : list byte) (pos end_query : Z)
    : outcome copied :=
  match n with
  | O => Ret (Some (query, pos), [])
  | S n' =>
      c ← load8 block src;
      query ← store8 query pos c;
      let pos := pos + 1 in
      if end_query <=? pos + 1 then refuse "expression exceeds maximum buffer length"
      else copy_text n' block (src + 1) query pos end_query
  end.
Definition bind_parm_at (bind : Bind) (cur_parm : Z) : outcome BindParm :=
  if cur_parm <? 0 then Undef OutOfBounds
  else match b_parms bind !! Z.to_nat cur_parm with Some p => Ret p | None => Undef OutOfBounds end.
Definition copy_text_parameter (bind : Bind) (cur_parm : Z) (query : list byte) (pos end_query : Z)
    : outcome copied :=
  p ← bind_parm_at bind cur_parm;
  copy_text (Z.to_nat (bp_length p)) (b_block bind) (bp_value p) query pos end_query.

(** [mem] is the contents of the uninitialised locals. *)
Definition binary_text (mem : nat → byte) (bind : Bind) (p : BindParm) : outcome (option (list byte)) :=
  let bin := b_block bind in
  if bp_length p =? 1 then v ← bin_to_char bin (bp_value p); Ret (Some (dec v))
  else if bp_length p =? 2 then v ← bin_to_int16 bin (bp_value p); Ret (Some (dec v))
  else if bp_length p =? 4 then v ← bin_to_int32 bin (bp_value p); Ret (Some (dec v))
  else if bp_length p =? 8 then v ← bin_to_int64 bin (bp_value p); Ret (Some (dec v))
  else if bp_length p =? 16 then
    uuid ← bin_to_uuid (malloc mem 3) bin (bp_value p) (malloc mem MAX_STR_CONST) MAX_STR_CONST;
    Ret (Some (cstr uuid))
  else Ret None.
Definition copy_binary_parameter (mem : nat → byte) (bind : Bind) (cur_parm : Z) (query : list byte)
    (pos end_query : Z) : outcome copied :=
  p ← bind_parm_at bind cur_parm;
  t ← binary_text mem bind p;
  match t with
  | None => refuse "unsupported bind parameter type received"
  | Some str_value =>
      let copied := zlen str_value in
      if end_query <? pos + copied then refuse "failed to decode binary bind parameter"
      else
        query ← store_bytes query pos str_value;
        Ret (Some (query, pos + copied), [])
  end.

(** ** What they compute *)
Definition hex2 (c : byte) : list byte := [digit (b2z c / 16); digit (b2z c mod 16)].
Definition hex_text (bs : list byte) : list byte := bs ≫= hex2.

Lemma byte_to_hex_app c hex at_ pre x y z post :
  hex = pre ++ x :: y :: z :: post → at_ = zlen pre →
  byte_to_hex c hex at_ = Ret (pre ++ hex2 c ++ nul :: post).
Proof.
  intros Hh Ha. unfold byte_to_hex.
  set (h := z2b (hex_char (Z.shiftr (b2z c) 4))).
  set (l := z2b (hex_char (Z.shiftr (u8 (Z.shiftl (s8 (b2z c)) 4)) 4))).
  rewrite (store8_app_eq _ _ _ _ _ _ Hh Ha). cbn [mbind outcome_bind].
  rewrite (store8_app_eq _ (at_ + 1) (pre ++ [h]) y _ (z :: post)); [|by rewrite <- app_assoc|zlia].
  cbn [mbind outcome_bind].
  rewrite (store8_app_eq _ (at_ + 2) (pre ++ [h; l]) z _ post); [|by rewrite <- !app_assoc|zlia].
  assert (E : h = digit (b2z c / 16) ∧ l = digit (b2z c mod 16)).
  { unfold h, l. clear. revert c. apply (forall_bytes _). vm_compute. reflexivity. }
  destruct E as [-> ->]. by rewrite <- app_assoc.
Qed.

Lemma zlen_hex_text bs : zlen (hex_text bs) = 2 * zlen bs.
Proof. induction bs as [|c bs IH]; [done|]. unfold hex_text in *. cbn. rewrite !zlen_cons, IH. lia. Qed.
Lemma hex_text_app a b : hex_text (a ++ b) = hex_text a ++ hex_text b.
Proof. apply bind_app. Qed.

(** Room for three bytes, taken apart. *)
Lemma room3 (r : list byte) : 3 ≤ zlen r → ∃ x y z r', r = x :: y :: z :: r'.
Proof. destruct r as [|x [|y [|z r']]]; intros H; [zlia..|]. by exists x, y, z, r'. Qed.

Lemma md5_loop_spec bs md5 pre post i w r j hex :
  md5 = pre ++ bs ++ post → i = zlen pre → hex = w ++ r → j = zlen w → 2 * zlen bs + 1 ≤ zlen r →
  ∃ r', md5_loop (length bs) md5 i hex j = Ret (w ++ hex_text bs ++ r', j + 2 * zlen bs) ∧
        zlen r' = zlen r - 2 * zlen bs ∧ drop 1 r' = drop (length (hex_text bs) + 1) r.
Proof.
  revert md5 pre i w r j hex. induction bs as [|c bs IH]; intros md5 pre i w r j hex Hm Hi Hh Hj Hr.
  { exists r. subst. cbn [length md5_loop]. change (hex_text []) with (@nil byte). autorewrite with zlen.
    split; [f_equal; f_equal; lia|]. split; [lia|done]. }
  cbn [length md5_loop]. rewrite (load8_app_eq md5 i pre c (bs ++ post)) by done.
  cbn [mbind outcome_bind]. destruct (room3 r) as (x & y & z & r0 & ->); [zlia|].
  rewrite (byte_to_hex_app c hex j w x y z r0) by done. cbn [mbind outcome_bind].
  destruct (IH md5 (pre ++ [c]) (i + 1) (w ++ hex2 c) (nul :: r0) (j + 2) (w ++ hex2 c ++ nul :: r0))
    as (r' & E & Hz & Hd); [by rewrite <- app_assoc|zlia|by rewrite <- app_assoc|unfold hex2; zlia|zlia|].
  exists r'. rewrite E. split.
  { change (hex_text (c :: bs)) with (hex2 c ++ hex_text bs). rewrite <- !app_assoc. do 2 f_equal. zlia. }
  split; [zlia|]. rewrite Hd. change (hex_text (c :: bs)) with (hex2 c ++ hex_text bs).
  rewrite length_app. cbn [length hex2 Nat.add drop]. rewrite Nat.add_comm. by cbn [Nat.add drop].
Qed.

Lemma md5_to_hex_spec md5 rest hex hex_len :
  length md5 = 16%nat → 33 ≤ hex_len → zlen hex = hex_len →
  md5_to_hex (md5 ++ rest) hex hex_len = Ret (0, hex_text md5 ++ nul :: drop 33 hex).
Proof.
  intros Hm Hl Hh. unfold md5_to_hex. zdec.
  assert (Hz : zlen md5 = 16) by (unfold zlen; lia). rewrite <- Hm at 1.
  destruct (md5_loop_spec md5 (md5 ++ rest) [] rest 0 [] hex 0 hex) as (r' & E & Hr & Hd); [done..|lia|].
  rewrite E. cbn [mbind outcome_bind app]. destruct r' as [|x r']; [zlia|].
  rewrite (store8_app_eq _ _ (hex_text md5) x nul r'); [|done|rewrite zlen_hex_text; lia].
  cbn [mbind outcome_bind]. do 4 f_equal. change (drop 1 (x :: r')) with r' in Hd. rewrite Hd. f_equal.
  pose proof (zlen_hex_text md5). unfold zlen in *. lia.
Qed.

(** The text determines the bytes. *)
Definition nibble_of (c : byte) : Z := if b2z c <? 97 then b2z c - 48 else b2z c - 87.
Fixpoint unhex (t : list byte) : list byte :=
  match t with h :: l :: t' => z2b (16 * nibble_of h + nibble_of l) :: unhex t' | _ => [] end.
Lemma unhex_hex_text bs : unhex (hex_text bs) = bs.
Proof.
  induction bs as [|c bs IH]; [done|]. change (hex_text (c :: bs)) with (hex2 c ++ hex_text bs).
  cbn [hex2 app unhex]. rewrite IH. f_equal. clear. revert c. apply (forall_bytes _). vm_compute. reflexivity.
Qed.
#[export] Instance hex_text_inj : Inj (=) (=) hex_text.
Proof. intros a b H. by rewrite <- (unhex_hex_text a), H, unhex_hex_text. Qed.
Lemma hex2_no_nul c : no_nul (hex2 c).
Proof. revert c. apply (forall_bytes _). vm_compute. reflexivity. Qed.
Lemma hex_text_no_nul bs : no_nul (hex_text bs).
Proof.
  induction bs as [|c bs IH]; [apply not_elem_of_nil|].
  change (hex_text (c :: bs)) with (hex2 c ++ hex_text bs). apply no_nul_app. split; [apply hex2_no_nul|done].
Qed.

(** ** UUIDs *)
Definition uuid_text (a b c d e : list byte) : list byte :=
  hex_text a ++ lit "-" ++ hex_text b ++ lit "-" ++ hex_text c ++ lit "-" ++ hex_text d ++ lit "-" ++ hex_text e.

Lemma uuid_field_spec bs fuel bin pre post at_ i w r j offset temp buffer :
  bin = pre ++ bs ++ post → at_ + i = zlen pre → buffer = w ++ r → j = zlen w →
  offset = j + 2 * zlen bs → 2 * zlen bs ≤ zlen r → 3 ≤ zlen temp → (length bs < fuel)%nat →
  ∃ temp', 3 ≤ zlen temp' ∧
    uuid_field fuel bin at_ i temp buffer j offset =
    Ret (temp', (w ++ hex_text bs) ++ drop (length (hex_text bs)) r, i + zlen bs, zlen (w ++ hex_text bs)).
Proof.
  revert fuel pre i w r j temp buffer.
  induction bs as [|c bs IH]; intros fuel pre i w r j temp buffer Hb Hi Hbuf Hj Ho Hr Ht Hf;
    (destruct fuel as [|fuel]; [cbn in Hf; lia|]); cbn [uuid_field].
  { exists temp. split; [done|]. change (hex_text []) with (@nil byte). cbn [length]. rewrite drop_0, app_nil_r, <- Hbuf, <- Hj.
    autorewrite with zlen in *. zdec. do 2 f_equal. f_equal. lia. }
  zdec. rewrite (load8_app_eq bin (at_ + i) pre c (bs ++ post)) by done. cbn [mbind outcome_bind].
  destruct (room3 temp) as (t1 & t2 & t3 & t' & ->); [done|].
  rewrite (byte_to_hex_app c _ 0 [] t1 t2 t3 t') by done. cbn [mbind outcome_bind app].
  assert (Hs : strncpy (hex2 c ++ nul :: t') 2 = hex2 c).
  { unfold strncpy. cbn [hex2 app take]. rewrite cstr_id by apply hex2_no_nul. done. }
  rewrite Hs. destruct r as [|x [|y r]]; [zlia..|].
  rewrite (store_bytes_app_eq buffer j w [x; y] r (hex2 c)) by done. cbn [mbind outcome_bind].
  destruct (IH fuel (pre ++ [c]) (i + 1) (w ++ hex2 c) r (j + 2) (hex2 c ++ nul :: t') (w ++ hex2 c ++ r))
    as (temp' & Ht' & E).
  { by rewrite <- app_assoc. } { zlia. } { by rewrite <- app_assoc. } { unfold hex2. zlia. } { zlia. }
  { zlia. } { unfold hex2. zlia. } { cbn in Hf. lia. }
  exists temp'. split; [done|]. rewrite E. change (hex_text (c :: bs)) with (hex2 c ++ hex_text bs).
  rewrite <- !app_assoc. cbn [hex2 app length drop]. do 2 f_equal. f_equal. zlia.
Qed.

Lemma drop_more (n : nat) (r : list byte) : (n < length r)%nat → ∃ x, drop n r = x :: drop (S n) r.
Proof. intros H. destruct (lookup_lt_is_Some_2 r n H) as [x Hx]. exists x. by apply drop_S. Qed.

Lemma uuid_dashed_spec bs bin pre post at_ i w r j offset temp buffer :
  bin = pre ++ bs ++ post → at_ + i = zlen pre → buffer = w ++ r → j = zlen w →
  offset = j + 2 * zlen bs → 2 * zlen bs < zlen r → 3 ≤ zlen temp → (length bs < uuid_fuel)%nat →
  ∃ temp', 3 ≤ zlen temp' ∧
    uuid_dashed bin at_ i temp buffer j offset =
    Ret (temp', (w ++ hex_text bs ++ lit "-") ++ drop (S (length (hex_text bs))) r,
         i + zlen bs, zlen (w ++ hex_text bs ++ lit "-")).
Proof.
  intros Hb Hi Hbuf Hj Ho Hr Ht Hf. unfold uuid_dashed.
  destruct (uuid_field_spec bs uuid_fuel bin pre post at_ i w r j offset temp buffer) as (temp' & Ht' & E); try done; [lia|].
  exists temp'. split; [done|]. rewrite E. cbn [mbind outcome_bind].
  destruct (drop_more (length (hex_text bs)) r) as [x Hx].
  { pose proof (zlen_hex_text bs). unfold zlen in *. lia. }
  rewrite Hx, (store8_app_eq _ _ (w ++ hex_text bs) x _ (drop (S (length (hex_text bs))) r)) by done.
  cbn [mbind outcome_bind]. rewrite <- !app_assoc. do 2 f_equal. change (lit "-") with [chr "-"]. zlia.
Qed.

Lemma bin_to_uuid_spec temp pre a b c d e post at_ buffer buf_len :
  zlen a = 4 → zlen b = 2 → zlen c = 2 → zlen d = 2 → zlen e = 6 → at_ = zlen pre →
  3 ≤ zlen temp → 36 < buf_len → zlen buffer = buf_len →
  bin_to_uuid temp (pre ++ a ++ b ++ c ++ d ++ e ++ post) at_ buffer buf_len =
  Ret (uuid_text a b c d e ++ nul :: drop 37 buffer).
Proof.
  intros Ha Hb Hc Hd He Hat Ht Hl Hbuf. set (bin := pre ++ a ++ b ++ c ++ d ++ e ++ post).
  assert (Hlen : ∀ x (n : nat), zlen x = Z.of_nat n → length x = n ∧ length (hex_text x) = (2 * n)%nat).
  { intros x n Hx. pose proof (zlen_hex_text x). unfold zlen in *. lia. }
  destruct (Hlen a 4%nat Ha) as [La La'], (Hlen b 2%nat Hb) as [Lb Lb'], (Hlen c 2%nat Hc) as [Lc Lc'],
    (Hlen d 2%nat Hd) as [Ld Ld'], (Hlen e 6%nat He) as [Le Le'].
  assert (Hdrop : ∀ n, zlen (drop n buffer) = zlen buffer - Z.min (Z.of_nat n) (zlen buffer)).
  { intros n. unfold zlen. rewrite length_drop. lia. }
  unfold bin_to_uuid, UUID_TIME_LOW, UUID_TIME_MID, UUID_TIME_HI_AND_VERSION, UUID_CLOCK_SEQ, UUID_NODE.
  zdec. cbn [c_assert mbind outcome_bind].
  set (w1 := [] ++ hex_text a ++ lit "-"). set (w2 := w1 ++ hex_text b ++ lit "-").
  set (w3 := w2 ++ hex_text c ++ lit "-"). set (w4 := w3 ++ hex_text d ++ lit "-").
  assert (L1 : zlen w1 = 9) by (unfold w1; rewrite !zlen_app, zlen_hex_text, Ha; done).
  assert (L2 : zlen w2 = 14) by (unfold w2; rewrite !zlen_app, zlen_hex_text, Hb, L1; done).
  assert (L3 : zlen w3 = 19) by (unfold w3; rewrite !zlen_app, zlen_hex_text, Hc, L2; done).
  assert (L4 : zlen w4 = 24) by (unfold w4; rewrite !zlen_app, zlen_hex_text, Hd, L3; done).
  assert (L5 : zlen (w4 ++ hex_text e) = 36) by (rewrite !zlen_app, zlen_hex_text, He, L4; done).
  destruct (uuid_dashed_spec a bin pre (b ++ c ++ d ++ e ++ post) at_ 0 [] buffer 0 8 temp buffer)
    as (t1 & Ht1 & E); [done|lia|done|done|lia|lia|lia|unfold uuid_fuel; lia|].
  fold w1 in E. rewrite E, La', L1, Ha. clear E. cbn [mbind outcome_bind].
  destruct (uuid_dashed_spec b bin (pre ++ a) (c ++ d ++ e ++ post) at_ 4 w1 (drop 9 buffer) 9 13 t1 (w1 ++ drop 9 buffer))
    as (t2 & Ht2 & E); [by rewrite <- app_assoc|rewrite zlen_app; lia|done|lia|lia|rewrite Hdrop; lia|lia|unfold uuid_fuel; lia|].
  fold w2 in E. rewrite Lb', L2, Hb, drop_drop in E. etransitivity; [exact (f_equal (mbind _) E)|]. clear E. cbn [mbind outcome_bind].
  destruct (uuid_dashed_spec c bin (pre ++ a ++ b) (d ++ e ++ post) at_ 6 w2 (drop 14 buffer) 14 18 t2 (w2 ++ drop 14 buffer))
    as (t3 & Ht3 & E); [by rewrite <- !app_assoc|rewrite !zlen_app; lia|done|lia|lia|rewrite Hdrop; lia|lia|unfold uuid_fuel; lia|].
  fold w3 in E. rewrite Lc', L3, Hc, drop_drop in E. etransitivity; [exact (f_equal (mbind _) E)|]. clear E. cbn [mbind outcome_bind].
  destruct (uuid_dashed_spec d bin (pre ++ a ++ b ++ c) (e ++ post) at_ 8 w3 (drop 19 buffer) 19 23 t3 (w3 ++ drop 19 buffer))
    as (t4 & Ht4 & E); [by rewrite <- !app_assoc|rewrite !zlen_app; lia|done|lia|lia|rewrite Hdrop; lia|lia|unfold uuid_fuel; lia|].
  fold w4 in E. rewrite Ld', L4, Hd, drop_drop in E. etransitivity; [exact (f_equal (mbind _) E)|]. clear E. cbn [mbind outcome_bind].
  destruct (uuid_field_spec e uuid_fuel bin (pre ++ a ++ b ++ c ++ d) post at_ 10 w4 (drop 24 buffer) 24 36 t4 (w4 ++ drop 24 buffer))
    as (t5 & Ht5 & E); [by rewrite <- !app_assoc|rewrite !zlen_app; lia|done|lia|lia|rewrite Hdrop; lia|lia|unfold uuid_fuel; lia|].
  rewrite Le', L5, drop_drop in E. etransitivity; [exact (f_equal (mbind _) E)|]. clear E. cbn [mbind outcome_bind c_assert Z.eqb Pos.eqb].
  destruct (drop_more (24 + 12) buffer) as [x Hx]; [unfold zlen in *; lia|].
  rewrite (store8_app_eq _ 36 (w4 ++ hex_text e) x nul (drop 37 buffer)); [|f_equal; exact Hx|lia].
  unfold w4, w3, w2, w1, uuid_text. by rewrite <- !app_assoc.
Qed.

(** ** Integers on the wire *)
Definition be64 (z : Z) : list byte := be32 (z / 2 ^ 32) ++ be32 z.

Lemma swap64_pair x y : 0 ≤ x < 2 ^ 32 → 0 ≤ y < 2 ^ 32 →
  swap64 (x + 2 ^ 32 * y) = swap32 y + 2 ^ 32 * swap32 x.
Proof.
  intros. unfold swap64. rewrite (Z.mul_comm (2 ^ 32) y), Z.div_add, Z.mod_add by lia.
  rewrite Z.div_small, Z.mod_small by lia. by rewrite Z.add_0_l.
Qed.

Lemma be32_quad z : ∃ a b c d, be32 z = [a; b; c; d].
Proof. unfold be32, be16. cbn [app]. eauto. Qed.

(** The host value of four network bytes, and of eight. *)
Lemma load32_be32 pre z post : load32 (pre ++ be32 z ++ post) (zlen pre) = Ret (htonl z).
Proof.
  destruct (be32_quad z) as (a & b & c & d & E). rewrite E. cbn [app].
  rewrite (load32_app_eq _ _ pre a b c d post) by done. f_equal.
  pose proof (be_be32 z) as Hz. rewrite E in Hz. unfold htonl. rewrite <- Hz.
  replace (be [a; b; c; d]) with (b2z d + 2 ^ 8 * b2z c + 2 ^ 16 * (b2z b + 2 ^ 8 * b2z a)) by (unfold be; simpl; lia).
  rewrite swap32_pair, !swap16_pair by (byte_ranges; lia). lia.
Qed.

Lemma htonl_range z : 0 ≤ htonl z < 2 ^ 32.
Proof. apply swap32_range, u32_range. Qed.

Lemma bin_to_int64_words pre x y post :
  bin_to_int64 (pre ++ be32 x ++ be32 y ++ post) (zlen pre) = Ret (s64 (u32 y + 2 ^ 32 * u32 x)).
Proof.
  unfold bin_to_int64, load64. rewrite load32_be32. cbn [mbind outcome_bind].
  assert (E : zlen pre + 4 = zlen (pre ++ be32 x)) by (rewrite zlen_app; done).
  rewrite E, app_assoc, load32_be32. cbn [mbind outcome_bind]. do 2 f_equal.
  unfold be64toh, u64. pose proof (htonl_range x). pose proof (htonl_range y).
  rewrite Z.mod_small, swap64_pair by lia.
  assert (Hs : ∀ x, swap32 (htonl x) = u32 x).
  { intros v. rewrite <- ntohl_htonl. unfold ntohl. by rewrite u32_small by apply htonl_range. }
  by rewrite !Hs.
Qed.

Lemma bin_to_int64_be64 pre z post : - 2 ^ 63 ≤ z < 2 ^ 63 →
  bin_to_int64 (pre ++ be64 z ++ post) (zlen pre) = Ret z.
Proof.
  intros Hz. unfold be64. rewrite <- app_assoc, bin_to_int64_words. f_equal.
  replace (u32 z + 2 ^ 32 * u32 (z / 2 ^ 32)) with (z mod 2 ^ 64); [by apply (signed_mod 64)|].
  unfold u32. change (2 ^ 64) with (2 ^ 32 * 2 ^ 32). rewrite Z.rem_mul_r by lia. lia.
Qed.

(** Decoding binary integers.  Eight-byte integers decode to their value; two-
    and four-byte ones decode to their unsigned value, so a negative parameter is
    off by 2^16 or 2^32 (-1 arrives as 65535 or 4294967295). *)
Theorem binary_integers pre post z :
  (- 2 ^ 15 ≤ z < 2 ^ 15 →
   bin_to_int16 (pre ++ be16 z ++ post) (zlen pre) = Ret (if z <? 0 then z + 2 ^ 16 else z)) ∧
  (- 2 ^ 31 ≤ z < 2 ^ 31 →
   bin_to_int32 (pre ++ be32 z ++ post) (zlen pre) = Ret (if z <? 0 then z + 2 ^ 32 else z)) ∧
  (- 2 ^ 63 ≤ z < 2 ^ 63 → bin_to_int64 (pre ++ be64 z ++ post) (zlen pre) = Ret z).
Proof.
  assert (Hm : ∀ w, 0 < w → - 2 ^ w ≤ z < 2 ^ w → z mod 2 ^ w = if z <? 0 then z + 2 ^ w else z).
  { intros w Hw Hz. destruct (Z.ltb_spec z 0); [|apply Z.mod_small; lia].
    symmetry. apply (Z.mod_unique z (2 ^ w) (-1)); lia. }
  split; [|split; [|apply bin_to_int64_be64]]; intros Hz.
  - unfold bin_to_int16. destruct (be16 z) as [|x [|y [|??]]] eqn:Eb; try done. cbn [app].
    rewrite (load16_be _ _ pre x y post) by done. rewrite <- Eb, be_be16. unfold u16. rewrite (Hm 16) by lia. done.
  - unfold bin_to_int32. rewrite load32_be32. cbn [mbind outcome_bind]. rewrite ntohl_htonl.
    unfold u32. rewrite (Hm 32) by lia. done.
Qed.
Lemma binary_integers_witness :
  bin_to_int16 (be16 (-1)) 0 = Ret 65535 ∧ bin_to_int32 (be32 (-1)) 0 = Ret 4294967295 ∧
  bin_to_int64 (be64 (-1)) 0 = Ret (-1).
Proof. destruct (binary_integers [] [] (-1)) as (H1 & H2 & H3). split; [apply H1|split; [apply H2|apply H3]]; lia. Defined.

(** ** Parameters *)
(** The text a parameter is replaced by: its bytes, or the decoded binary value. *)
Definition binary_value (v : list byte) : option (list byte) :=
  match length v with
  | 1%nat => Some (dec (s8 (be v)))
  | 2%nat | 4%nat => Some (dec (be v))
  | 8%nat => Some (dec (s64 (be v)))
  | 16%nat => Some (uuid_text (take 4 v) (take 2 (drop 4 v)) (take 2 (drop 6 v)) (take 2 (drop 8 v)) (drop 10 v))
  | _ => None
  end.
Lemma parm_in_split bind p : parm_in (b_block bind) p →
  ∃ pre post, b_block bind = pre ++ view_parm (b_block bind) p ++ post ∧ zlen pre = bp_value p ∧
    zlen (view_parm (b_block bind) p) = bp_length p.
Proof.
  intros (H1 & H2 & H3). exists (take (Z.to_nat (bp_value p)) (b_block bind)).
  exists (drop (Z.to_nat (bp_length p)) (drop (Z.to_nat (bp_value p)) (b_block bind))).
  unfold view_parm. rewrite !take_drop. split; [done|].
  unfold zlen in *. rewrite !length_take, length_drop. lia.
Qed.

Lemma copy_text_spec v block pre post src w r query pos end_query :
  block = pre ++ v ++ post → src = zlen pre → query = w ++ r → pos = zlen w →
  end_query = zlen query → pos + zlen v + 1 < end_query →
  copy_text (length v) block src query pos end_query =
  Ret (Some (w ++ v ++ drop (length v) r, pos + zlen v), []).
Proof.
  revert pre src w r query pos. induction v as [|c v IH]; intros pre src w r query pos Hb Hs Hq Hp He Hf; cbn [length copy_text].
  { rewrite drop_0, zlen_nil, Z.add_0_r. by subst query. }
  rewrite (load8_app_eq block src pre c (v ++ post)) by done. cbn [mbind outcome_bind].
  destruct r as [|x r]; [subst query; zlia|].
  rewrite (store8_app_eq query pos w x c r) by done. cbn [mbind outcome_bind].
  rewrite zlen_cons in Hf. pose proof (zlen_nonneg v). zdec.
  rewrite (IH (pre ++ [c]) (src + 1) (w ++ [c]) r); [|by rewrite <- app_assoc|zlia|by rewrite <- app_assoc|zlia|subst; zlia|lia].
  cbn [drop]. rewrite <- app_assoc. do 4 f_equal. zlia.
Qed.

Lemma length16 (v : list byte) : length v = 16%nat →
  v = take 4 v ++ take 2 (drop 4 v) ++ take 2 (drop 6 v) ++ take 2 (drop 8 v) ++ drop 10 v.
Proof. intros H. do 17 (destruct v as [|? v]; [try done|]). done. Qed.

(** Eight bytes as two words. *)
Lemma be_words8 a b c d e f g h :
  be [a; b; c; d; e; f; g; h] = u32 (be [e; f; g; h]) + 2 ^ 32 * u32 (be [a; b; c; d]).
Proof.
  rewrite !u32_small by apply be_range4. unfold be. cbn [be_value]. lia.
Qed.

Lemma binary_text_spec mem bind p t :
  parm_in (b_block bind) p → binary_value (view_parm (b_block bind) p) = Some t →
  binary_text mem bind p = Ret (Some t).
Proof.
  intros Hin. destruct (parm_in_split bind p Hin) as (pre & post & Hb & Hpre & Hl).
  set (v := view_parm (b_block bind) p) in *. clearbody v.
  unfold binary_text. rewrite Hb, <- Hl, <- Hpre. clear. unfold binary_value, zlen at 1 3 5 7 9.
  destruct v as [|b [|b0 [|b1 [|b2 [|b3 [|b4 [|b5 [|b6 [|b7 [|b8 [|b9 [|b10 [|b11 [|b12 [|b13 [|b14 [|b15 v]]]]]]]]]]]]]]]]];
    cbn [length]; try done; intros [= <-].
  - unfold bin_to_char. rewrite (load8_app_eq _ _ pre b post) by done. done.
  - unfold bin_to_int16. cbn [app]. rewrite (load16_be _ _ pre b b0 post) by done. done.
  - unfold bin_to_int32. cbn [app]. rewrite (load32_be _ _ pre b b0 b1 b2 post) by done. done.
  - pose proof (bin_to_int64_words pre (be [b; b0; b1; b2]) (be [b3; b4; b5; b6]) post) as E.
    rewrite !be32_be in E. cbn [Z.of_nat Pos.of_succ_nat Pos.succ Z.eqb Pos.eqb app] in *. rewrite E.
    cbn [mbind outcome_bind]. do 4 f_equal. by rewrite be_words8.
  - cbn [take drop].
    pose proof (bin_to_uuid_spec (malloc mem 3) pre [b; b0; b1; b2] [b3; b4] [b5; b6] [b7; b8]
      [b9; b10; b11; b12; b13; b14] post (zlen pre) (malloc mem MAX_STR_CONST) MAX_STR_CONST) as E.
    change (Z.of_nat 16) with 16. cbn [Z.eqb Pos.eqb app] in *. rewrite E; try done; try (rewrite zlen_malloc; unfold MAX_STR_CONST; lia).
    cbn [mbind outcome_bind]. do 2 f_equal. apply cstr_app_nul. unfold uuid_text. rewrite !no_nul_app.
    repeat split; try apply hex_text_no_nul; eval_decide.
Qed.
