(* ===== verification/Session.v ===== *)
(** * Prepared and bound statements

    [rocto/handle_parse.c] and [rocto/handle_bind.c]: the statements a client
    prepares and binds live in the YottaDB global ^session(id, kind, name).  The
    database is libyottadb, which the sources only call: [YottaDB] is its
    interface and [YottaDBLaws] what its documentation promises; the handlers'
    theorems are proved against the interface. *)
From stdpp Require Import strings gmap.
From S2P Require Import Prelude CMem Errors Frontend FrontendSpec Backend Deserialize.

(** ** libyottadb *)
Inductive ydb_status :=
  | YDB_OK | YDB_ERR_GVUNDEF | YDB_ERR_LVUNDEF | YDB_ERR_NODEEND | YDB_ERR_OTHER.
#[export] Instance ydb_status_eq_dec : EqDecision ydb_status.
Proof. solve_decision. Defined.

(** A node is a global name and its subscripts; [ydb_get_s] is given the size of
    the buffer the value is put in. *)
Class YottaDB := {
  db : Type;
  ydb_get_s : db → list (list byte) → Z → ydb_status * list byte;
  ydb_set_s : db → list (list byte) → list byte → ydb_status * db;
}.
(** What is set under a subscript leaves the other nodes alone; a set of an intrinsic variable, which has
    no subscript, may not ($ZGBLDIR says where the globals are). *)
Class YottaDBLaws `{YottaDB} : Prop := {
  get_set_same d k v d' n :
    ydb_set_s d k v = (YDB_OK, d') → zlen v ≤ n → ydb_get_s d' k n = (YDB_OK, v);
  get_set_other d k k' v d' n :
    ydb_set_s d k v = (YDB_OK, d') → (1 < length k)%nat → k ≠ k' → ydb_get_s d' k' n = ydb_get_s d k' n;
  get_fits d k n v : ydb_get_s d k n = (YDB_OK, v) → zlen v ≤ n;
}.

(** [YDB_ERROR_CHECK]: logs at level FATAL, which ends the process. *)
Definition ydb_error_check (status : ydb_status) : outcome unit :=
  if decide (status = YDB_OK) then Ret () else Halt FatalExit.

(** [YDB_COPY_STRING_TO_BUFFER] to a new buffer of [MAX_STR_CONST] bytes: a longer string is not
    copied and leaves it empty. *)
Definition ydb_buffer (s : list byte) : list byte := if zlen s <=? MAX_STR_CONST then s else [].

(** [config->global_names.session] and [session->session_id]. *)
Record RoctoSession := { session_global : list byte; session_id : list byte }.

Section handlers.
Context `{YottaDB} (session : RoctoSession) (mem : nat → byte).

(** [make_buffers(config->global_names.session, 3, session_id, kind, name)]. *)
Definition session_node (kind : string) (name : list byte) : list (list byte) :=
  [session_global session; session_id session; lit kind; name].

(** The code returned, the database, and the messages given to [send_message]. *)
Definition handler_result : Type := (Z * db * list (list byte))%type.

Definition handle_parse (parse : Parse) (d : db) : outcome handler_result :=
  dest ← string_at (p_block parse) (p_dest parse);
  sql_expression ← string_at (p_block parse) (p_query parse);
  let '(status, d) := ydb_set_s d (session_node "prepared" dest) sql_expression in
  _ ← ydb_error_check status;
  response ← wire make_parse_complete;
  Ret (0, d, [response]).

(** [while(ptr < end_ptr && *ptr >= 48 && *ptr <= 57) ptr++;] *)
Definition is_digit (c : byte) : bool := (48 <=? b2z c) && (b2z c <=? 57).
Fixpoint span_digits (s : list byte) : list byte * list byte :=
  match s with
  | c :: s' => if is_digit c then let '(ds, r) := span_digits s' in (c :: ds, r) else ([], s)
  | [] => ([], [])
  end.
(** [atoi] of a run of digits: [strtol] saturates and the result is cut to [int]. *)
Definition digits_value (ds : list byte) : Z := fold_left (λ a c, 10 * a + (b2z c - 48)) ds 0.
Definition atoi (ds : list byte) : Z := s32 (Z.min (2 ^ 63 - 1) (digits_value ds)).

(** Which of the two copies a parameter takes; the codes are host-order shorts now. *)
Definition is_text (bind : Bind) (bind_parm : Z) : outcome bool :=
  let num := b_num_parm_format_codes bind in
  if num =? 0 then Ret true
  else match b_parm_format_codes bind with
  | None => Undef NullPointer
  | Some codes =>
      v ← load16 (b_block bind) (codes + 2 * (if num =? 1 then 0 else bind_parm));
      Ret (s16 v =? 0)
  end.
Definition copy_parameter (bind : Bind) (bind_parm : Z) (new_query : list byte) (pos end_ : Z)
    : outcome copied :=
  t ← is_text bind bind_parm;
  if t : bool then copy_text_parameter bind bind_parm new_query pos end_
  else copy_binary_parameter mem bind bind_parm new_query pos end_.

Definition double_quote : byte := x22.
Definition dollar : byte := chr "$".

(** [$<n>] at the read pointer.  When the number is out of range the code sends an
    error and then frees [z_status_value.buf_addr], which nothing has set. *)
Definition paste_parameter (bind : Bind) (bind_parm : Z) (new_query : list byte) (pos : Z)
    : outcome copied :=
  if bind_parm =? -1 then
    new_query ← store8 new_query pos double_quote;
    new_query ← store8 new_query (pos + 1) double_quote;
    Ret (Some (new_query, pos + 2), [])
  else if (b_num_parms bind <=? bind_parm) || (bind_parm <? 0) then
    _ ← send_error PSQL_Code_Syntax_Error "wrong number of parameters for prepared statement";
    Undef Uninitialised
  else
    new_query ← store8 new_query pos double_quote;
    '(q, sent) ← copy_parameter bind bind_parm new_query (pos + 1) MAX_STR_CONST;
    match q with
    | None => Ret (None, sent)
    | Some (new_query, pos) =>
        new_query ← store8 new_query pos double_quote;
        Ret (Some (new_query, pos + 1), sent)
    end.

(** The substitution loop over what is left of the statement; each turn takes at
    least one byte of it. *)
Fixpoint bind_loop (fuel : nat) (bind : Bind) (text new_query : list byte) (pos : Z)
    : outcome copied :=
  match fuel with
  | O => NoFuel
  | S fuel' =>
      match text with
      | [] => Ret (Some (new_query, pos), [])
      | c :: rest =>
          '(rest, (q, sent)) ← (if decide (c = dollar) then
              let '(ds, rest') := span_digits rest in
              r ← paste_parameter bind (atoi ds) new_query pos; Ret (rest', r)
            else
              new_query ← store8 new_query pos c; Ret (rest, (Some (new_query, pos + 1), [])));
          match q with
          | None => Ret (None, sent)
          | Some (new_query, pos) =>
              _ ← c_assert (pos <? MAX_STR_CONST);
              bind_loop fuel' bind rest new_query pos
          end
      end
  end.

Definition handle_bind (bind : Bind) (d : db) : outcome handler_result :=
  source ← string_at (b_block bind) (b_source bind);
  let '(status, sql_expression) := ydb_get_s d (session_node "prepared" source) (MAX_STR_CONST - 1) in
  if decide (status = YDB_ERR_GVUNDEF) then
    sent ← send_error PSQL_Code_Invalid_Sql_Statement_Name "Bind to unknown query attempted";
    Ret (-1, d, sent)
  else
  _ ← ydb_error_check status;
  '(q, sent) ← bind_loop (S (length sql_expression)) bind sql_expression (malloc mem MAX_STR_CONST) 0;
  match q with
  | None => Ret (-1, d, sent)
  | Some (new_query, pos) =>
      dest ← string_at (b_block bind) (b_dest bind);
      text ← load_bytes new_query 0 pos;
      let '(status, d) := ydb_set_s d (session_node "bound" dest) text in
      _ ← ydb_error_check status;
      response ← wire make_bind_complete;
      Ret (0, d, [response])
  end.
End handlers.
