(* ===== verification/SessionTheorems.v ===== *)
(** * What preparing and binding a statement does

    [handle_bind] replaces every [$n] of the prepared text by the quoted text of
    parameter [n] and files the result; together with the readers of [Frontend]
    and the database interface this gives the meaning of a Parse followed by a
    Bind. *)
From stdpp Require Import strings gmap.
From S2P Require Import Prelude CMem Errors Frontend FrontendSpec Backend BackendTheorems Deserialize Session.

(** ** The expansion of a statement *)
(** The text of parameter [i] of a Bind message: one format code stands for all. *)
Definition parm_format (m : BindMsg) (i : nat) : Z :=
  match bm_codes m with [] => 0 | [c] => c | cs => default 0 (cs !! i) end.
Definition parm_text (m : BindMsg) (i : Z) : option (list byte) :=
  v ← bm_parms m !! Z.to_nat i;
  if parm_format m (Z.to_nat i) =? 0 then Some v else binary_value v.

Definition no_digit_first (s : list byte) : Prop :=
  match s with c :: _ => is_digit c = false | [] => True end.
(** [expands m s t]: [t] is [s] with each [$<digits>] replaced; no digits is 0. *)
Inductive expands (m : BindMsg) : list byte → list byte → Prop :=
  | expands_nil : expands m [] []
  | expands_char c s t : c ≠ dollar → expands m s t → expands m (c :: s) (c :: t)
  | expands_parm ds s v t :
      forallb is_digit ds = true → no_digit_first s →
      digits_value ds < zlen (bm_parms m) → parm_text m (digits_value ds) = Some v →
      expands m s t →
      expands m (dollar :: ds ++ s) (double_quote :: v ++ double_quote :: t).

(** ** Numbers and format codes *)
Lemma span_digits_app ds s :
  forallb is_digit ds = true → no_digit_first s → span_digits (ds ++ s) = (ds, s).
Proof.
  induction ds as [|c ds IH]; cbn [forallb app span_digits]; intros Hd Hs.
  - destruct s as [|c s]; [done|]. cbn in Hs |- *. by rewrite Hs.
  - apply andb_true_iff in Hd as [Hc Hd]. by rewrite Hc, IH.
Qed.

Lemma digits_value_nonneg ds : forallb is_digit ds = true → 0 ≤ digits_value ds.
Proof.
  unfold digits_value. assert (H : ∀ a, 0 ≤ a → forallb is_digit ds = true →
    0 ≤ fold_left (λ a c, 10 * a + (b2z c - 48)) ds a); [|intros; apply H; [lia|done]].
  induction ds as [|c ds IH]; cbn [fold_left forallb]; intros a Ha Hd; [done|].
  apply andb_true_iff in Hd as [Hc Hd]. apply IH; [|done].
  unfold is_digit in Hc. apply andb_true_iff in Hc as [Hc _]. apply Z.leb_le in Hc. lia.
Qed.

Lemma atoi_small ds : forallb is_digit ds = true → digits_value ds < 2 ^ 31 → atoi ds = digits_value ds.
Proof.
  intros Hd Hv. pose proof (digits_value_nonneg ds Hd). unfold atoi. rewrite Z.min_r by lia. by apply s32_small.
Qed.

Lemma get_shorts_load pre l n i :
  (i < n)%nat → (2 * n ≤ length l)%nat →
  ∃ v, load16 (pre ++ l) (zlen pre + 2 * Z.of_nat i) = Ret v ∧ get_shorts n l !! i = Some (s16 v).
Proof.
  revert pre l i. induction n as [|n IH]; intros pre l i Hi Hl; [lia|].
  destruct l as [|x [|y l]]; [cbn in Hl; lia..|]. destruct i as [|i].
  - exists (b2z x + 2 ^ 8 * b2z y). split; [|done]. apply (load16_app_eq _ _ pre x y l); [done|lia].
  - destruct (IH (pre ++ [x; y]) l i) as (v & Hv & Hg); [lia|cbn in Hl; lia|].
    exists v. split; [|done]. rewrite <- Hv, <- app_assoc. cbn [app]. f_equal. zlia.
Qed.
Lemma length_get_shorts n l : (2 * n ≤ length l)%nat → length (get_shorts n l) = n.
Proof.
  revert l. induction n as [|n IH]; intros l Hl; [done|].
  destruct l as [|x [|y l]]; [cbn in Hl; lia..|]. cbn [get_shorts length]. rewrite IH; cbn in Hl; lia.
Qed.

Lemma is_text_spec bd i :
  bind_ok bd → 0 ≤ i < b_num_parms bd →
  is_text bd i = Ret (parm_format (view_bind bd) (Z.to_nat i) =? 0).
Proof.
  intros Hok Hi. destruct (ok_num bd Hok) as [Hn _]. pose proof (ok_codes bd Hok) as Hc.
  pose proof (ok_count bd Hok) as Hcnt. unfold is_text, parm_format. cbn [bm_codes view_bind].
  set (num := b_num_parm_format_codes bd) in *.
  destruct (b_parm_format_codes bd) as [p|]; cbn [codes_in view_codes] in *; [|by rewrite Hc].
  destruct Hc as (Hp & Hnum & Hb). zdec.
  set (pre := take (Z.to_nat p) (b_block bd)). set (l := drop (Z.to_nat p) (b_block bd)).
  assert (Hblk : b_block bd = pre ++ l) by (symmetry; apply take_drop).
  assert (Hpre : zlen pre = p) by (unfold pre, zlen in *; rewrite length_take; lia).
  assert (Hl : (2 * Z.to_nat num ≤ length l)%nat) by (unfold l, zlen in *; rewrite length_drop; lia).
  pose proof (length_get_shorts _ l Hl) as Hlen.
  set (j := if num =? 1 then 0 else i).
  assert (Hj : 0 ≤ j < num).
  { unfold j. destruct (Z.eqb_spec num 1); [lia|]. destruct Hcnt; [lia|]. lia. }
  destruct (get_shorts_load pre l (Z.to_nat num) (Z.to_nat j)) as (v & Hv & Hg); [lia|done|].
  rewrite Hpre, Z2Nat.id, <- Hblk in Hv by lia. rewrite Hv. cbn [mbind outcome_bind]. do 2 f_equal.
  unfold j in Hg. destruct (get_shorts (Z.to_nat num) l) as [|c [|c' cs]]; cbn [length] in Hlen.
  - lia.
  - destruct (Z.eqb_spec num 1); [|lia]. injection Hg as <-. done.
  - destruct (Z.eqb_spec num 1); [lia|]. by rewrite Hg.
Qed.

(** ** Pasting one parameter *)
Lemma copy_parameter_spec mem bd i v w r :
  bind_ok bd → 0 ≤ i < b_num_parms bd → parm_text (view_bind bd) i = Some v →
  zlen (w ++ r) = MAX_STR_CONST → zlen w + zlen v + 1 < MAX_STR_CONST →
  copy_parameter mem bd i (w ++ r) (zlen w) MAX_STR_CONST =
  Ret (Some (w ++ v ++ drop (length v) r, zlen w + zlen v), []).
Proof.
  intros Hok Hi Hv Hz Hfit. unfold copy_parameter. rewrite (is_text_spec bd i Hok Hi). cbn [mbind outcome_bind].
  unfold parm_text in Hv. cbn [bm_parms view_bind] in Hv. destruct (ok_num bd Hok) as [Hn _].
  destruct (lookup_lt_is_Some_2 (b_parms bd) (Z.to_nat i)) as [p Hp]; [unfold zlen in *; lia|].
  rewrite list_lookup_fmap, Hp in Hv. cbn [fmap option_fmap option_map mbind option_bind] in Hv.
  assert (Hpi : parm_in (b_block bd) p).
  { pose proof (ok_parms bd Hok) as Hf. rewrite Forall_lookup in Hf. by apply (Hf (Z.to_nat i)). }
  assert (Hat : bind_parm_at bd i = Ret p) by (unfold bind_parm_at; zdec; by rewrite Hp).
  destruct (_ =? 0).
  - injection Hv as <-. unfold copy_text_parameter. rewrite Hat. cbn [mbind outcome_bind].
    destruct (parm_in_split bd p Hpi) as (pre & post & Hb & Hpre & Hl).
    set (x := view_parm (b_block bd) p) in *. rewrite <- Hl. rewrite zlen_to_nat.
    by apply (copy_text_spec x (b_block bd) pre post).
  - unfold copy_binary_parameter. rewrite Hat. cbn [mbind outcome_bind].
    rewrite (binary_text_spec mem bd p v Hpi Hv). cbn [mbind outcome_bind]. zdec.
    assert (Hr : zlen v ≤ zlen r) by (rewrite zlen_app in Hz; lia).
    pose proof (put_over w r v Hr) as Hput. unfold put in Hput. cbn [fst snd] in Hput.
    destruct (store_bytes (w ++ r) (zlen w) v) as [q| | |]; cbn [mbind outcome_bind] in *; try done.
    injection Hput as ->. rewrite <- app_assoc. done.
Qed.

Definition quoted (v : list byte) : list byte := double_quote :: v ++ [double_quote].

Lemma paste_parameter_spec mem bd i v w r :
  bind_ok bd → 0 ≤ i < b_num_parms bd → parm_text (view_bind bd) i = Some v →
  zlen (w ++ r) = MAX_STR_CONST → zlen w + zlen (quoted v) < MAX_STR_CONST →
  paste_parameter mem bd i (w ++ r) (zlen w) =
  Ret (Some ((w ++ quoted v) ++ drop (length (quoted v)) r, zlen (w ++ quoted v)), []).
Proof.
  intros Hok Hi Hv Hz Hfit. unfold paste_parameter, quoted in *. autorewrite with zlen in Hfit. zdec.
  destruct r as [|x r]; [zlia|].
  rewrite (store8_app_eq (w ++ x :: r) (zlen w) w x double_quote r) by done. cbn [mbind outcome_bind].
  assert (E : w ++ double_quote :: r = (w ++ [double_quote]) ++ r) by (by rewrite <- app_assoc).
  assert (E1 : zlen w + 1 = zlen (w ++ [double_quote])) by zlia. rewrite E, E1.
  rewrite (copy_parameter_spec mem bd i v) by (done || zlia). cbn [mbind outcome_bind].
  destruct (drop_more (length v) r) as [y Hy]; [unfold zlen in *; rewrite length_app in Hz; cbn in Hz; lia|].
  rewrite Hy. rewrite (store8_app_eq _ _ ((w ++ [double_quote]) ++ v) y _ (drop (S (length v)) r));
    [|by rewrite <- !app_assoc|zlia]. cbn [mbind outcome_bind].
  cbn [length drop]. rewrite length_app. cbn [length]. rewrite Nat.add_1_r.
  do 3 f_equal. apply (f_equal2 pair); [|zlia]. by repeat (rewrite <- app_assoc; cbn [app]).
Qed.

(** ** The substitution loop *)
Lemma bind_loop_spec mem bd text t fuel w r :
  bind_ok bd → expands (view_bind bd) text t → zlen (w ++ r) = MAX_STR_CONST →
  zlen w + zlen t < MAX_STR_CONST → (length text < fuel)%nat →
  bind_loop mem fuel bd text (w ++ r) (zlen w) =
  Ret (Some ((w ++ t) ++ drop (length t) r, zlen (w ++ t)), []).
Proof.
  intros Hok He. revert fuel w r.
  induction He as [|c s t Hc He IH|ds s v t Hd Hs Hn Hv He IH]; intros fuel w r Hz Hfit Hf;
    (destruct fuel as [|fuel]; [cbn in Hf; lia|]); cbn [bind_loop].
  - by rewrite app_nil_r, drop_0.
  - rewrite decide_False by done. rewrite zlen_cons in Hfit. pose proof (zlen_nonneg t).
    destruct r as [|x r]; [zlia|].
    rewrite (store8_app_eq (w ++ x :: r) (zlen w) w x c r) by done. cbn [mbind outcome_bind]. zdec.
    cbn [c_assert mbind outcome_bind].
    replace (w ++ c :: r) with ((w ++ [c]) ++ r) by (by rewrite <- app_assoc).
    replace (zlen w + 1) with (zlen (w ++ [c])) by zlia.
    rewrite (IH fuel (w ++ [c]) r) by (zlia || (cbn in Hf; lia)). by rewrite <- !app_assoc.
  - rewrite decide_True by done. rewrite (span_digits_app ds s Hd Hs).
    destruct (ok_num bd Hok) as [Hnum Hmax]. cbn [bm_parms view_bind] in Hn. rewrite zlen_fmap in Hn.
    pose proof (digits_value_nonneg ds Hd). rewrite (atoi_small ds Hd) by lia.
    assert (Hq : double_quote :: v ++ double_quote :: t = quoted v ++ t) by (unfold quoted; cbn [app]; by rewrite <- app_assoc).
    rewrite Hq, zlen_app in Hfit. pose proof (zlen_nonneg t).
    rewrite (paste_parameter_spec mem bd _ v w r Hok) by (done || lia). cbn [mbind outcome_bind].
    replace (zlen (w ++ quoted v) <? MAX_STR_CONST) with true by (symmetry; apply Z.ltb_lt; zlia).
    cbn [c_assert mbind outcome_bind].
    rewrite (IH fuel (w ++ quoted v) (drop (length (quoted v)) r)).
    + rewrite Hq, drop_drop, length_app, <- !app_assoc. done.
    + rewrite <- Hz, !zlen_app. unfold zlen at 3. rewrite length_drop.
      assert (zlen w + zlen r = MAX_STR_CONST) by (rewrite <- Hz; zlia). unfold zlen in *. lia.
    + zlia.
    + cbn [length] in Hf. rewrite length_app in Hf. lia.
Qed.

(** ** The handlers *)
Section session.
Context `{YottaDB} (session : RoctoSession) (mem : nat → byte).

Lemma handle_parse_stores p d d' :
  parse_ok p →
  ydb_set_s d (session_node session "prepared" (pm_dest (view_parse p))) (pm_query (view_parse p)) = (YDB_OK, d') →
  handle_parse session p d = Ret (0, d', [frame (chr "1") [] []]).
Proof.
  intros [Hd Hq] Hset. unfold handle_parse. rewrite Hd. cbn [mbind outcome_bind]. rewrite Hq. cbn [mbind outcome_bind].
  by rewrite Hset.
Qed.

Lemma bind_text_stored bd d text t :
  bind_ok bd →
  ydb_get_s d (session_node session "prepared" (bm_source (view_bind bd))) (MAX_STR_CONST - 1) = (YDB_OK, text) →
  expands (view_bind bd) text t → zlen t < MAX_STR_CONST →
  handle_bind session mem bd d =
    (let '(status, d) := ydb_set_s d (session_node session "bound" (bm_dest (view_bind bd))) t in
     _ ← ydb_error_check status; Ret (0, d, [frame (chr "2") [] []])).
Proof.
  intros Hok Hget Hexp Ht. unfold handle_bind. rewrite (ok_source bd Hok). cbn [mbind outcome_bind].
  rewrite Hget. rewrite decide_False by done. change (ydb_error_check YDB_OK) with (Ret ()).
  cbn [mbind outcome_bind].
  assert (Hm : zlen (malloc mem MAX_STR_CONST) = MAX_STR_CONST) by (apply zlen_malloc; unfold MAX_STR_CONST; lia).
  revert Hm. generalize (malloc mem MAX_STR_CONST). intros buf Hm.
  pose proof (bind_loop_spec mem bd text t (S (length text)) [] buf Hok Hexp Hm Ht ltac:(lia)) as El.
  cbn [app] in El. change (zlen []) with 0 in El. rewrite El. clear El. cbn [mbind outcome_bind].
  rewrite (ok_dest bd Hok). cbn [mbind outcome_bind].
  rewrite (load_bytes_app_eq (t ++ drop (length t) buf) 0 (zlen t) [] t _ eq_refl eq_refl eq_refl).
  reflexivity.
Qed.
End session.

(** C20: Binding expands the statement.  When the source statement exists and every
    [$n] in it names a parameter that has a text, [handle_bind] files the statement
    with each [$n] replaced by that text in double quotes under the destination
    name and answers BindComplete, whatever its uninitialised buffers hold. *)
Theorem handle_bind_expands `{YottaDB} session mem bd d d' text t :
  bind_ok bd →
  ydb_get_s d (session_node session "prepared" (bm_source (view_bind bd))) (MAX_STR_CONST - 1) = (YDB_OK, text) →
  expands (view_bind bd) text t → zlen t < MAX_STR_CONST →
  ydb_set_s d (session_node session "bound" (bm_dest (view_bind bd))) t = (YDB_OK, d') →
  handle_bind session mem bd d = Ret (0, d', [frame (chr "2") [] []]).
Proof. intros Hok Hget Hexp Ht Hset. rewrite (bind_text_stored session mem bd d text t) by done. by rewrite Hset. Qed.

(** The refusals of [handle_bind].  An unknown statement is answered with an
    error, the code -1 and the database as it was; but a parameter number the
    message does not have reaches [free] of a pointer that was never set. *)
Theorem handle_bind_refuses `{YottaDB} session mem bd d :
  bind_ok bd →
  (ydb_get_s d (session_node session "prepared" (bm_source (view_bind bd))) (MAX_STR_CONST - 1)
     = (YDB_ERR_GVUNDEF, []) →
   ∃ err, make_error_response PSQL_Error_ERROR PSQL_Code_Invalid_Sql_Statement_Name
            (lit "Bind to unknown query attempted") [] = Ret err ∧
          handle_bind session mem bd d = Ret (-1, d, [error_wire err])) ∧
  (∀ ds s, forallb is_digit ds = true → no_digit_first s →
     zlen (bm_parms (view_bind bd)) ≤ digits_value ds < 2 ^ 31 →
     ydb_get_s d (session_node session "prepared" (bm_source (view_bind bd))) (MAX_STR_CONST - 1)
       = (YDB_OK, dollar :: ds ++ s) →
     handle_bind session mem bd d = Undef Uninitialised).
Proof.
  intros Hok. split.
  - intros Hget. destruct (make_error_response_spec PSQL_Error_ERROR PSQL_Code_Invalid_Sql_Statement_Name
      (lit "Bind to unknown query attempted") []) as (err & E & _); [vm_compute; reflexivity|].
    exists err. split; [done|]. unfold handle_bind. rewrite (ok_source bd Hok). cbn [mbind outcome_bind].
    rewrite Hget, decide_True by done. unfold send_error. by rewrite E.
  - intros ds s Hd Hs [Hn Hm] Hget. unfold handle_bind. rewrite (ok_source bd Hok). cbn [mbind outcome_bind].
    rewrite Hget, decide_False by done. change (ydb_error_check YDB_OK) with (Ret ()). cbn [mbind outcome_bind].
    cbn [bind_loop]. rewrite decide_True, (span_digits_app ds s), (atoi_small ds) by done.
    destruct (ok_num bd Hok) as [Hnum _]. cbn [bm_parms view_bind] in Hn. rewrite zlen_fmap in Hn.
    pose proof (zlen_nonneg (b_parms bd)). unfold paste_parameter. zdec. unfold send_error.
    destruct (make_error_response_spec PSQL_Error_ERROR PSQL_Code_Syntax_Error
      (lit "wrong number of parameters for prepared statement") []) as (err & E & _); [vm_compute; reflexivity|].
    by rewrite E.
Qed.

Lemma parse_bind_steps `{YottaDBLaws} session mem pm bm d d1 d2 t rest rest' n :
  wf_parse pm → small (encode_parse pm) → wf_bind bm → small (encode_bind bm) →
  bm_source bm = pm_dest pm → zlen (pm_query pm) < MAX_STR_CONST →
  expands bm (pm_query pm) t → zlen t < MAX_STR_CONST → zlen t ≤ n →
  ydb_set_s d (session_node session "prepared" (pm_dest pm)) (pm_query pm) = (YDB_OK, d1) →
  ydb_set_s d1 (session_node session "bound" (bm_dest bm)) t = (YDB_OK, d2) →
  ∃ p b, read_parse (frame PSQL_Parse (encode_parse pm) rest) = Ret (Some p, None) ∧
    handle_parse session p d = Ret (0, d1, [frame (chr "1") [] []]) ∧
    read_bind (frame PSQL_Bind (encode_bind bm) rest') = Ret (Some b, None) ∧
    handle_bind session mem b d1 = Ret (0, d2, [frame (chr "2") [] []]) ∧
    ydb_get_s d2 (session_node session "bound" (bm_dest bm)) n = (YDB_OK, t).
Proof.
  intros Hp Hps Hb Hbs Hname Hlen Hexp Ht Hn Hset1 Hset2.
  pose proof (read_parse_spec (encode_parse pm) rest Hps) as Hrp. rewrite parse_parse_encode in Hrp by done.
  destruct Hrp as (p & Ep & Vp & Okp).
  pose proof (read_bind_spec (encode_bind bm) rest' Hbs) as Hrb. rewrite parse_bind_encode in Hrb by done.
  destruct Hrb as (b & err & Eb & Vb & Okb & ->).
  exists p, b. split; [done|]. split; [by apply handle_parse_stores; rewrite ?Vp|]. split; [done|].
  split; [|by apply (get_set_same _ _ _ _ _ Hset2)].
  rewrite (bind_text_stored session mem b d1 (pm_query pm) t) by
    (rewrite ?Vb, ?Hname; try done; by apply (get_set_same _ _ _ _ _ Hset1); lia).
  rewrite Vb. by rewrite Hset2.
Qed.

(** Preparing and binding, end to end.  Over a database that keeps its promises,
    the wire bytes of a Parse followed by those of a Bind to the same statement
    leave exactly the expanded statement under the bound name, and both are
    answered with their completion messages. *)
Theorem parse_then_bind `{YottaDBLaws} session mem pm bm d d1 d2 t rest rest' n :
  wf_parse pm → small (encode_parse pm) → wf_bind bm → small (encode_bind bm) →
  bm_source bm = pm_dest pm → zlen (pm_query pm) < MAX_STR_CONST →
  expands bm (pm_query pm) t → zlen t < MAX_STR_CONST → zlen t ≤ n →
  ydb_set_s d (session_node session "prepared" (pm_dest pm)) (pm_query pm) = (YDB_OK, d1) →
  ydb_set_s d1 (session_node session "bound" (bm_dest bm)) t = (YDB_OK, d2) →
  ∃ p b, read_parse (frame PSQL_Parse (encode_parse pm) rest) = Ret (Some p, None) ∧
    handle_parse session p d = Ret (0, d1, [frame (chr "1") [] []]) ∧
    read_bind (frame PSQL_Bind (encode_bind bm) rest') = Ret (Some b, None) ∧
    handle_bind session mem b d1 = Ret (0, d2, [frame (chr "2") [] []]) ∧
    ydb_get_s d2 (session_node session "bound" (bm_dest bm)) n = (YDB_OK, t).
Proof. apply parse_bind_steps. Qed.

(** ** A database and a session to try them on *)
Definition map_get (d : gmap (list (list byte)) (list byte)) (k : list (list byte)) (n : Z)
    : ydb_status * list byte :=
  match d !! k with
  | None => (YDB_ERR_GVUNDEF, [])
  | Some v => if zlen v <=? n then (YDB_OK, v) else (YDB_ERR_OTHER, [])
  end.
#[local] Instance map_db : YottaDB :=
  {| db := gmap (list (list byte)) (list byte); ydb_get_s := map_get;
     ydb_set_s d k v := (YDB_OK, <[k := v]> d) |}.
#[local] Instance map_db_laws : YottaDBLaws.
Proof.
  split; cbn [ydb_get_s ydb_set_s map_db]; unfold map_get.
  - intros d k v d' n [= <-] Hn. rewrite lookup_insert_eq. apply Z.leb_le in Hn. by rewrite Hn.
  - intros d k k' v d' n [= <-] _ Hk. by rewrite lookup_insert_ne.
  - intros d k n v Hg. case_match; [|done]. case_match eqn:E; [|done]. injection Hg as <-. by apply Z.leb_le.
Defined.

Definition sample_session : RoctoSession := {| session_global := lit "^s"; session_id := lit "1" |}.
Definition sample_parse_msg : ParseMsg :=
  {| pm_dest := lit "s"; pm_query := lit "select $0"; pm_types := [] |}.
Definition sample_bind_msg : BindMsg :=
  {| bm_dest := lit "p"; bm_source := lit "s"; bm_codes := []; bm_parms := [lit "7"]; bm_result_codes := [] |}.
Definition sample_expansion : list byte := lit "select " ++ [double_quote; chr "7"; double_quote].
Definition sample_bound : Bind :=
  {| b_dest := 0; b_source := 2; b_num_parm_format_codes := 0; b_parm_format_codes := None;
     b_num_parms := 1; b_parms := [{| bp_length := 1; bp_value := 4 |}];
     b_num_result_col_format_codes := 0; b_result_col_format_codes := None;
     b_block := lit "p" ++ [nul] ++ lit "s" ++ [nul] ++ lit "7" |}.

Lemma sample_expands : expands sample_bind_msg (lit "select $0") sample_expansion.
Proof.
  do 7 (apply expands_char; [discriminate|]).
  apply (expands_parm _ (lit "0") [] (lit "7") []); [vm_compute; reflexivity|exact I|vm_compute; reflexivity|vm_compute; reflexivity|apply expands_nil].
Defined.
Lemma sample_bound_view : view_bind sample_bound = sample_bind_msg.
Proof. reflexivity. Defined.
Lemma sample_bound_ok : bind_ok sample_bound.
Proof.
  split; [done|done|done|by left|done|]. constructor; [|constructor]. unfold parm_in. cbn. zlia.
Defined.

Lemma handle_bind_expands_witness :
  let d := {[ session_node sample_session "prepared" (lit "s") := lit "select $0" ]} in
  handle_bind sample_session (λ _, xff) sample_bound d =
  Ret (0, <[session_node sample_session "bound" (lit "p") := sample_expansion]> d, [frame (chr "2") [] []]).
Proof.
  intros d. apply (handle_bind_expands sample_session (λ _, xff) sample_bound d _ (lit "select $0") sample_expansion).
  - exact sample_bound_ok.
  - vm_compute. reflexivity.
  - exact sample_expands.
  - vm_compute. reflexivity.
  - reflexivity.
Defined.

Lemma handle_bind_refuses_witness :
  handle_bind sample_session (λ _, xff) sample_bound
    {[ session_node sample_session "prepared" (lit "s") := lit "$1" ]} = Undef Uninitialised.
Proof.
  apply (proj2 (handle_bind_refuses sample_session (λ _, xff) sample_bound
    {[ session_node sample_session "prepared" (lit "s") := lit "$1" ]} sample_bound_ok) (lit "1") []); try done; vm_compute; done.
Defined.

Lemma parse_then_bind_witness :
  ∃ p b, read_parse (frame PSQL_Parse (encode_parse sample_parse_msg) []) = Ret (Some p, None) ∧
    handle_parse sample_session p (∅ : gmap _ _) =
      Ret (0, {[ session_node sample_session "prepared" (lit "s") := lit "select $0" ]}, [frame (chr "1") [] []]) ∧
    read_bind (frame PSQL_Bind (encode_bind sample_bind_msg) []) = Ret (Some b, None) ∧
    handle_bind sample_session (λ _, x00) b {[ session_node sample_session "prepared" (lit "s") := lit "select $0" ]} =
      Ret (0, <[session_node sample_session "bound" (lit "p") := sample_expansion]>
                {[ session_node sample_session "prepared" (lit "s") := lit "select $0" ]}, [frame (chr "2") [] []]) ∧
    ydb_get_s (<[session_node sample_session "bound" (lit "p") := sample_expansion]>
                 {[ session_node sample_session "prepared" (lit "s") := lit "select $0" ]} : gmap _ _)
      (session_node sample_session "bound" (lit "p")) 100 = (YDB_OK, sample_expansion).
Proof.
  apply (parse_then_bind sample_session (λ _, x00) sample_parse_msg sample_bind_msg ∅ _ _ sample_expansion [] [] 100);
    try reflexivity; try (split; unfold wf_codes, codes_ok; eval_decide); try exact sample_expands; vm_compute; done.
Defined.
