(* ===== verification/EmitPlan.v ===== *)
(** * From a statement to the files of its plan

    [emit_select_statement.c] and [physical/emit_physical_plan.c]: a SELECT is planned, the
    plan checked, optimised and made physical; the M code of the physical plans is written to
    files, a file of its own for each cross reference; and the columns of the result are
    noted in the database, where [get_plan_row_description] reads them.

    The templates that print M code are generated from the ctemplate files: the text for a
    plan is a parameter, [tmpl_physical_plan], as are the hash and whether a file can be
    opened.  The printing of plans at log level DEBUG is left out. *)
From stdpp Require Import gmap strings.
From S2P Require Import Prelude CMem Errors LogicalPlan Dnf SqlStatement Optimize GenerateWhere GeneratePlan PhysicalPlan RoutineName Session.

(** What the files are made from, and the files by name.  [em_strings]: the routine names,
    where the keys of cross references point to; [em_filename]: the array [filename]. *)
Record emitted := {
  em_keys : key_store;
  em_plans : gmap ptr PhysicalPlan;
  em_strings : gmap ptr (list byte);
  em_next : ptr;
  em_filename : list byte;
  em_files : gmap (list byte) (list byte);
}.
Definition E (A : Type) : Type := emitted → outcome (A * emitted).
#[export] Instance E_ret : MRet E := λ A x s, Ret (x, s).
#[export] Instance E_bind : MBind E := λ A B f x s, '(a, s) ← x s; f a s.
Definition elift {A} (o : outcome A) : E A := λ s, a ← o; Ret (a, s).
Definition egets {A} (f : emitted → A) : E A := λ s, Ret (f s, s).
Definition eput (f : emitted → emitted) : E () := λ s, Ret ((), f s).
Definition with_em_plans (f : gmap ptr PhysicalPlan → gmap ptr PhysicalPlan) (s : emitted) : emitted :=
  {| em_keys := em_keys s; em_plans := f (em_plans s); em_strings := em_strings s; em_next := em_next s;
     em_filename := em_filename s; em_files := em_files s |}.
Definition with_files (f : gmap (list byte) (list byte) → gmap (list byte) (list byte)) (s : emitted) : emitted :=
  {| em_keys := em_keys s; em_plans := em_plans s; em_strings := em_strings s; em_next := em_next s;
     em_filename := em_filename s; em_files := f (em_files s) |}.
Definition eplan (p : ptr) : E PhysicalPlan := s ← egets em_plans; elift (found (s !! p)).
Definition eassign (p : ptr) (f : PhysicalPlan → PhysicalPlan) : E () := q ← eplan p; eput (with_em_plans (<[p := f q]>)).
(** [snprintf(buffer, MAX_STR_CONST, "%s", ...)] *)
Definition cut_text (text : list byte) : list byte := take (Z.to_nat (MAX_STR_CONST - 1)) text.

(** The list of plans from [p] on: [p->next], and so on to NULL. *)
Fixpoint plans_from (fuel : nat) (plans : gmap ptr PhysicalPlan) (p : ptr) : outcome (list ptr) :=
  match fuel with
  | O => NoFuel
  | S fuel' =>
      if decide (p = null) then Ret []
      else q ← found (plans !! p); rest ← plans_from fuel' plans (next q); Ret (p :: rest)
  end.
(** "Walk the plans back to the first" *)
Fixpoint first_plan (fuel : nat) (plans : gmap ptr PhysicalPlan) (p : ptr) : outcome ptr :=
  match fuel with
  | O => NoFuel
  | S fuel' =>
      q ← found (plans !! p);
      if decide (prev q = null) then Ret p else first_plan fuel' plans (prev q)
  end.
Fixpoint last_plan (fuel : nat) (plans : gmap ptr PhysicalPlan) (p : ptr) : outcome ptr :=
  match fuel with
  | O => NoFuel
  | S fuel' =>
      q ← found (plans !! p);
      if decide (next q = null) then Ret p else last_plan fuel' plans (next q)
  end.

Section emit.
Context `{YottaDB} (cat : catalog) (s : planner) (mem : nat → byte).
Context (tmp_dir octo : list byte) (digest : list byte → ydb_uint16) (fopen : list byte → bool).
Context (tmpl_physical_plan : emitted → ptr → list byte) (routine_name_room : Z).

(** [cur_plan->outputKey && cur_plan->outputKey->is_cross_reference_key] *)
Definition is_xref (p : ptr) : E bool :=
  q ← eplan p;
  if decide (outputKey q = null) then mret false
  else keys ← egets em_keys; k ← elift (found (keys !! outputKey q)); mret (k_is_cross_reference_key k).
(** The string a value statement holds. *)
Definition name_text (stmt : SqlStatement) : outcome (list byte) :=
  match stmt with
  | null_STATEMENT => Undef NullPointer
  | value_STATEMENT p _ => v ← value_at (pl_values s) p; Ret (cstr (sv_literal v))
  | _ => Halt AssertFailed
  end.
Definition table_text (p : ptr) : outcome (list byte) :=
  t ← found (cat_tables cat !! p);
  match t with table_STATEMENT _ tableName _ _ _ => name_text tableName | _ => Undef WrongMember end.
Definition column_text (p : ptr) : outcome (list byte) :=
  c ← found (cat_columns cat !! p);
  match c with Column _ columnName _ _ _ => name_text columnName end.
(** What the name of a cross reference is hashed from: of the column as many bytes as the
    table's name has. *)
Definition xref_hashed (tableName columnName : list byte) : outcome (list byte) :=
  c ← load_bytes (columnName ++ [nul]) 0 (zlen tableName);
  Ret (tableName ++ c).
Definition xref_name (tableName columnName : list byte) : outcome (list byte) :=
  hashed ← xref_hashed tableName columnName;
  '(name, len) ← generate_routine_name (digest hashed) (malloc mem MAX_ROUTINE_LEN) (replicate (Z.to_nat routine_name_room) nul)
                   MAX_ROUTINE_LEN CrossReference;
  if len =? 0 then Halt FatalExit else Ret name.
Definition set_xref_filename (r : ptr) (k : SqlKey) : SqlKey :=
  {| k_table := k_table k; k_column := k_column k; k_key_num := k_key_num k; k_unique_id := k_unique_id k; k_value := k_value k;
     k_insert := k_insert k; k_type := k_type k; k_owner := k_owner k; k_is_cross_reference_key := k_is_cross_reference_key k;
     k_cross_reference_output_key := k_cross_reference_output_key k; k_cross_reference_column_alias := k_cross_reference_column_alias k;
     k_cross_reference_filename := r |}.
Definition set_plan_name (name : list byte) (q : PhysicalPlan) : PhysicalPlan := set_names name (filename q) q.
Definition set_filename (file : list byte) (q : PhysicalPlan) : PhysicalPlan := set_names (plan_name q) file q.
(** Opening a file for writing ends the process when it fails. *)
Definition open_file (name : list byte) : outcome () := if fopen name then Ret () else Halt FatalExit.
Definition newline : byte := x0a.

(** "Output the cross reference plans": one plan. *)
Definition emit_xref (p : ptr) : E () :=
  q ← eplan p;
  keys ← egets em_keys;
  key ← elift (found (keys !! outputKey q));
  tableName ← elift (table_text (k_table key));
  columnName ← elift (column_text (k_column key));
  _ ← eassign p (set_plan_name (lit "plan0"));
  name ← elift (xref_name tableName columnName);
  rest ← elift (string_at name 1);
  let file := cut_text (cstr tmp_dir ++ lit "/_" ++ rest ++ lit ".m") in
  _ ← eput (λ em, {| em_keys := <[outputKey q := set_xref_filename (em_next em) key]> (em_keys em); em_plans := em_plans em;
                     em_strings := <[em_next em := name]> (em_strings em); em_next := em_next em + 1;
                     em_filename := file; em_files := em_files em |});
  _ ← elift (open_file file);
  _ ← eassign p (set_filename (cstr name));
  text ← egets (λ em, tmpl_physical_plan em p);
  eput (with_files (<[file := text ++ [newline]]>)).
Fixpoint emit_xrefs (chain : list ptr) : E () :=
  match chain with
  | [] => mret ()
  | p :: chain' =>
      xref ← is_xref p;
      _ ← (if xref : bool then emit_xref p else mret () : E ());
      emit_xrefs chain'
  end.

(** The names octoPlan1, octoPlan2, ... *)
Fixpoint name_plans (plan_id : Z) (chain : list ptr) : E () :=
  match chain with
  | [] => mret ()
  | p :: chain' =>
      xref ← is_xref p;
      if xref : bool then name_plans plan_id chain'
      else
        _ ← eassign p (set_plan_name (lit "octoPlan" ++ dec (plan_id + 1)));
        name_plans (plan_id + 1) chain'
  end.

(** One of the two passes over the plans: it skips cross references, then plans that are
    ([deferred] is false) or are not (it is true) deferred, and prints the plan it comes to.
    [second]: whether it is in the second of these loops. *)
Fixpoint emit_pass (deferred second : bool) (chain : list ptr) : E (list byte) :=
  match chain with
  | [] => mret []
  | p :: chain' =>
      xref ← (if second then mret false else is_xref p : E bool);
      if xref : bool then emit_pass deferred false chain'
      else
        q ← eplan p;
        if eqb (deferred_plan q) deferred then
          file ← egets em_filename;
          _ ← eassign p (set_filename file);
          text ← egets (λ em, tmpl_physical_plan em p);
          rest ← emit_pass deferred false chain';
          mret (text ++ [newline] ++ rest)
        else emit_pass deferred true chain'
  end.

Definition emit_physical_plan (pplan : ptr) (plan_filename : list byte) : E () :=
  plans ← egets em_plans;
  first ← elift (first_plan (S (size plans)) plans pplan);
  chain ← elift (plans_from (S (size plans)) plans first);
  _ ← emit_xrefs chain;
  _ ← name_plans 0 chain;
  let name := cstr plan_filename in
  tmp_plan_filename ← elift (store8 (name ++ [nul]) (zlen name - 1) (chr "t"));
  let tmp := cstr tmp_plan_filename in
  _ ← elift (open_file tmp);
  most ← emit_pass false false chain;
  deferred ← emit_pass true false chain;
  (* the file is written, closed and renamed *)
  eput (with_files (λ files, <[name := most ++ deferred]> (delete tmp files))).

(** ** The columns of the result *)
Definition metadata (plan_filename : list byte) (rest : list (list byte)) : list (list byte) :=
  [octo; lit "plan_metadata"; plan_filename] ++ rest.
Definition set_db (node : list (list byte)) (v : list byte) (d : db) : outcome db :=
  let '(status, d) := ydb_set_s d node v in _ ← ydb_error_check status; Ret d.
(** The name of a column of the projection. *)
Definition output_name (column : LogicalPlan) : outcome (list byte) :=
  w ← get_lp column false LP_WHERE;
  second ← operand w true;
  if negb (is_null second) then
    alias ← get_lp w true LP_COLUMN_LIST_ALIAS;
    p ← (match alias with Leaf _ (VColumnListAlias p) => Ret p | NULL => Undef NullPointer | Op _ NULL _ => Undef NullPointer | _ => Undef WrongMember end);
    '(name, _) ← found (pl_items s !! p);
    name_text name
  else
    alias ← get_lp w false LP_COLUMN_ALIAS;
    p ← column_alias_of alias;
    '(column, _) ← found (pl_column_aliases s !! p);
    match column with
    | null_STATEMENT => Undef NullPointer
    | column_STATEMENT (Column _ columnName _ _ _ :: _) => name_text columnName
    | column_STATEMENT [] => Undef NullPointer
    | _ => Halt AssertFailed
    end.
Definition column_fields (name : list byte) : list (list byte * list byte) :=
  [(lit "name", name); (lit "table_id", lit "0"); (lit "column_id", lit "0"); (lit "data_type", lit "25");
   (lit "data_type_size", lit "-1"); (lit "type_modifier", lit "-1"); (lit "format_code", lit "0")].
Fixpoint set_fields (plan_filename column : list byte) (fields : list (list byte * list byte)) (d : db) : outcome db :=
  match fields with
  | [] => Ret d
  | (field, v) :: fields' =>
      d ← set_db (metadata plan_filename [lit "output_columns"; column; field]) v d;
      set_fields plan_filename column fields' d
  end.
Fixpoint set_columns (plan_filename : list byte) (num_columns : Z) (cur_plan : LogicalPlan) (d : db) : outcome db :=
  t ← lp_type cur_plan;
  _ ← c_assert (bool_decide (t = LP_COLUMN_LIST));
  name ← output_name cur_plan;
  d ← set_fields plan_filename (dec (num_columns + 1)) (column_fields name) d;
  match cur_plan with
  | Op _ _ NULL => Ret d
  | Op _ _ rest => set_columns plan_filename (num_columns + 1) rest d
  | _ => Undef WrongMember
  end.
End emit.

(** ** [emit_select_statement] *)
Section statement.
Context `{YottaDB} (cat : catalog) (mem : nat → byte) (optimize_fuel : nat) (outer_join : SqlStatement → P LogicalPlan) (fuel : nat).
Context (tmp_dir octo : list byte) (digest : list byte → ydb_uint16) (fopen : list byte → bool).
Context (tmpl_physical_plan : emitted → ptr → list byte) (routine_name_room : Z).

Definition em0 (s : planner) (ph : phys) (files : gmap (list byte) (list byte)) : emitted :=
  {| em_keys := pl_keys s; em_plans := ph_plans ph; em_strings := ∅; em_next := ph_next ph;
     em_filename := cstr (malloc mem MAX_STR_CONST); em_files := files |}.
(** The logical plans, before and after the optimiser; none when the plan is not well formed. *)
Definition plan_statement (stmt : SqlStatement) (s : planner) : outcome (option (LogicalPlan * planner)) :=
  _ ← c_assert (match stmt with table_alias_STATEMENT _ _ _ _ _ | set_operation_STATEMENT _ _ _ => true | _ => false end);
  '(plan, s) ← generate_logical_plan cat optimize_fuel outer_join fuel stmt s;
  ok ← lp_verify_structure (pl_keys s) plan;
  if negb ok then Ret None
  else '(plan, s) ← optimize_logical_plan cat optimize_fuel plan s; Ret (Some (plan, s)).
(** The last plan of the list, the files and the database; or none, with the warning. *)
Definition emit_select_statement (stmt : SqlStatement) (plan_filename : list byte) (s : planner)
    (files : gmap (list byte) (list byte)) (d : db) : outcome (option ptr * gmap (list byte) (list byte) * db) :=
  planned ← plan_statement stmt s;
  match planned with
  | None => Ret (None, files, d)
  | Some (plan, s) =>
      '(pplan, ph) ← generate_physical_plan s (lp_size plan) plan options0 (phys0 (pl_next s));
      '(_, em) ← emit_physical_plan cat s mem tmp_dir digest fopen tmpl_physical_plan routine_name_room pplan plan_filename (em0 s ph files);
      last ← last_plan (S (size (em_plans em))) (em_plans em) pplan;
      q ← found (em_plans em !! last);
      key ← found (em_keys em !! outputKey q);
      d ← set_db (metadata octo (cstr plan_filename) [lit "output_key"]) (dec (k_unique_id key)) d;
      d ← set_columns s octo (cstr plan_filename) 0 (projection q) d;
      Ret (Some last, em_files em, d)
  end.
End statement.
