(* ===== verification/MExpression.v ===== *)
(** * Expressions in M

    [m_templates/tmpl_print_expression.ctemplate] and [tmpl_key.ctemplate]: the M text of the
    expressions of a plan.  What is printed for a column ([tmpl_column_reference], from the
    physical plan and the definition of the table) is a parameter; the buffer is taken to be
    large enough.

    M has no precedence among binary operators - an expression is evaluated from left to
    right - so what the text means depends on its parentheses.  The second part is the
    grammar of M expressions as far as they are printed, as a parser. *)
From stdpp Require Import gmap strings.
From S2P Require Import Prelude CMem Errors LogicalPlan SqlStatement Optimize PhysicalPlan Session EmitPlan.

(** ** Printing *)
Section print.
Context (cat : catalog) (s : planner) (global_directory raw_cursor : list byte) (column_reference : ptr → outcome (list byte)).

Definition tmpl_key (k : ptr) : outcome (list byte) :=
  key ← found (pl_keys s !! k);
  tableName ← (if decide (k_table key = null) then Ret [] else table_text cat s (k_table key));
  columnName ← (if decide (k_column key = null) then Ret [] else column_text cat s (k_column key));
  Ret (lit "^|" ++ [double_quote] ++ cstr global_directory ++ [double_quote] ++ lit "|" ++ cstr raw_cursor ++ lit "(cursorId," ++
       [double_quote] ++ lit "keys" ++ [double_quote] ++ lit "," ++ dec (k_unique_id key) ++ lit "," ++
       [double_quote] ++ tableName ++ [double_quote] ++ lit "," ++ [double_quote] ++ columnName ++ [double_quote] ++ lit ")").
(** The key without its closing parenthesis: [buff_ptr -= 1]. *)
Definition open_key (p : LogicalPlan) : outcome (list byte) :=
  k ← lp_key p; text ← tmpl_key k; Ret (removelast text).
Definition quoted (text : list byte) : list byte := [double_quote] ++ text ++ [double_quote].

Definition print_value (p : ptr) : outcome (list byte) :=
  v ← value_at (pl_values s) p;
  let text := cstr (sv_literal v) in
  match sv_type v with
  | NUMBER_LITERAL | STRING_LITERAL | DATE_TIME | UNKNOWN_SqlValueType | BOOLEAN_VALUE => Ret (quoted text)
  | COLUMN_REFERENCE => Halt AssertFailed
  | FUNCTION_NAME => Ret text
  | PARAMETER_VALUE => rest ← string_at (sv_literal v ++ [nul]) 1; Ret (lit "parm" ++ rest)
  | NUL_VALUE => Ret (quoted [])
  | _ => Halt FatalExit
  end.
(** Whether a comparison is one of strings: the type of the leftmost operand. *)
Fixpoint string_comparison (plan : LogicalPlan) : outcome bool :=
  match plan with
  | NULL => Halt AssertFailed
  | Op t a NULL => Halt AssertFailed
  | Op _ a _ => string_comparison a
  | Leaf LP_VALUE (VValue p) => v ← value_at (pl_values s) p; Ret (bool_decide (sv_type v = STRING_LITERAL))
  | Leaf LP_COLUMN_ALIAS (VColumnAlias p) =>
      '(column, _) ← found (pl_column_aliases s !! p);
      match column with
      | null_STATEMENT => Undef NullPointer
      | column_STATEMENT (Column _ _ type _ _ :: _) => Ret (bool_decide (type = CHARACTER_STRING_TYPE))
      | column_list_alias_STATEMENT (ColumnListAlias _ _ _ _ type :: _) => Ret (bool_decide (type = STRING_LITERAL))
      | column_STATEMENT [] | column_list_alias_STATEMENT [] => Undef NullPointer
      | _ => Halt AssertFailed
      end
  | Leaf _ _ => Halt AssertFailed
  end.
(** [mid], where it depends on the type alone. *)
Definition operator (t : LPActionType) : option (list byte) :=
  match t with
  | LP_ADDITION => Some (lit "+")
  | LP_SUBTRACTION => Some (lit "-")
  | LP_DIVISION => Some (lit "/")
  | LP_MULTIPLICATION => Some (lit "*")
  | LP_CONCAT => Some (lit "_")
  | LP_BOOLEAN_OR => Some (lit "!")
  | LP_BOOLEAN_AND => Some (lit "&")
  | LP_BOOLEAN_IS | LP_BOOLEAN_EQUALS => Some (lit "=")
  | LP_BOOLEAN_NOT_EQUALS => Some (lit "'=")
  | LP_BOOLEAN_LESS_THAN_OR_EQUALS => Some (lit "'>")
  | LP_BOOLEAN_GREATER_THAN_OR_EQUALS => Some (lit "'<")
  | _ => None
  end.
Definition binary (op a b : list byte) : list byte := lit "(" ++ a ++ op ++ b ++ lit ")".

Fixpoint print_expression (plan : LogicalPlan) : outcome (list byte) :=
  match plan with
  | NULL => Halt AssertFailed
  | Leaf t v =>
      match t, v with
      | LP_VALUE, VValue p => print_value p
      | LP_COLUMN_ALIAS, VColumnAlias p => column_reference p
      | LP_KEY, VKey k => tmpl_key k
      | (LP_TABLE | LP_COLUMN_LIST_ALIAS | LP_PIECE_NUMBER | LP_KEYWORDS), _ => Halt FatalExit
      | _, _ => Undef WrongMember
      end
  | Op t a b =>
      match operator t with
      | Some op => x ← print_expression a; y ← print_expression b; Ret (binary op x y)
      | None =>
          match t with
          | LP_WHERE => print_expression a
          | LP_DERIVED_COLUMN =>
              key ← get_lp plan false LP_KEY;
              piece ← get_lp plan true LP_PIECE_NUMBER;
              n ← (match piece with Leaf _ (VPieceNumber n) => Ret n | _ => Undef WrongMember end);
              outer ← open_key key;
              inner ← (k ← lp_key key; tmpl_key k);
              Ret (lit "($P(" ++ outer ++ lit "," ++ inner ++ lit ")," ++ quoted (lit "|") ++ lit "," ++ dec n ++ lit "))")
          | LP_BOOLEAN_LESS_THAN | LP_BOOLEAN_GREATER_THAN =>
              strings ← string_comparison plan;
              x ← print_expression a;
              y ← print_expression b;
              Ret (if strings : bool then (if decide (t = LP_BOOLEAN_LESS_THAN) then binary (lit "]]") y x else binary (lit "]]") x y)
                   else binary (if decide (t = LP_BOOLEAN_LESS_THAN) then lit "<" else lit ">") x y)
          | LP_BOOLEAN_REGEX_SENSITIVE | LP_BOOLEAN_REGEX_INSENSITIVE =>
              x ← print_expression a;
              y ← print_expression b;
              Ret (lit "$$regmatch^%ydbposix(" ++ x ++ lit "," ++ y ++ (if decide (t = LP_BOOLEAN_REGEX_INSENSITIVE) then lit ",3)" else lit ")"))
          | LP_BOOLEAN_IN | LP_BOOLEAN_NOT_IN =>
              key ← get_lp plan true LP_KEY;
              k ← open_key key;
              x ← print_expression a;
              Ret (lit "($D(" ++ k ++ lit "," ++ x ++ (if decide (t = LP_BOOLEAN_IN) then lit "))'=0)" else lit "))=0)"))
          | LP_FORCE_NUM => x ← print_expression a; Ret (lit "+" ++ x)
          | LP_NEGATIVE => x ← print_expression a; Ret (lit "-" ++ x)
          | LP_BOOLEAN_NOT => x ← print_expression a; Ret (lit "'" ++ x)
          | LP_FUNCTION_CALL =>
              name ← print_expression a;
              args ← print_arguments b;
              Ret (name ++ lit "(" ++ args ++ lit ")")
          | LP_INSERT =>
              key ← lp_get_output_key plan;
              k ← open_key key;
              Ret (lit "$O(" ++ k ++ lit "," ++ quoted [] ++ lit "))")
          | LP_CASE =>
              _ ← get_lp plan false LP_CASE_STATEMENT;
              _ ← get_lp plan true LP_CASE_BRANCH;
              value ← (match a with
                       | Op _ NULL _ => Ret (None : option (list byte))
                       | Op _ v _ => text ← print_expression v; Ret (Some text)
                       | _ => Undef WrongMember
                       end);
              branches ← print_branches (default (lit "1") value) b;
              Ret (lit "$S(" ++ branches ++ lit "1:" ++ default (quoted []) value ++ lit ")")
          | LP_VALUE | LP_COLUMN_ALIAS | LP_KEY => Undef WrongMember
          | _ => Halt FatalExit
          end
      end
  end
(** The parameters of a function: the columns of a list. *)
with print_arguments (columns : LogicalPlan) : outcome (list byte) :=
  match columns with
  | NULL => Ret []
  | Op _ a NULL => print_expression a
  | Op _ a rest => x ← print_expression a; xs ← print_arguments rest; Ret (x ++ lit "," ++ xs)
  | Leaf _ _ => Undef WrongMember
  end
(** The branches of a CASE; [value]: the text they are compared with. *)
with print_branches (value : list byte) (branches : LogicalPlan) : outcome (list byte) :=
  match branches with
  | NULL => Ret []
  | Op _ branch rest =>
      match branch with
      | Op LP_CASE_BRANCH_STATEMENT condition result =>
          c ← print_expression condition;
          r ← print_expression result;
          xs ← print_branches value rest;
          Ret (lit "(" ++ c ++ lit ")=(" ++ value ++ lit "):(" ++ r ++ lit ")," ++ xs)
      | NULL => Undef NullPointer
      | _ => Halt AssertFailed
      end
  | Leaf _ _ => Undef WrongMember
  end.
End print.

(** ** M expressions *)
#[local] Set Warnings "-register-all".
Inductive mexpr :=
  | MString (text : list byte)
  | MUnary (op : byte) (e : mexpr)
  | MBinary (op : list byte) (a b : mexpr)
  | MName (name : list byte)                                     (* a variable or a number *)
  | MCall (name : list byte) (args : list (mexpr * option mexpr)).
(** [MCall]: a function, or a variable with subscripts; an argument of $SELECT has two parts. *)

(** The text of a string, where a quote is doubled, up to the quote that ends it. *)
Fixpoint parse_string (t : list byte) : option (list byte * list byte) :=
  match t with
  | [] => None
  | c :: t' =>
      if decide (c = double_quote) then
        match t' with
        | c' :: t'' => if decide (c' = double_quote) then '(s, r) ← parse_string t''; Some (double_quote :: s, r) else Some ([], t')
        | [] => Some ([], [])
        end
      else '(s, r) ← parse_string t'; Some (c :: s, r)
  end.
Definition alphanumeric (c : byte) : bool :=
  let z := b2z c in ((48 <=? z) && (z <=? 57)) || ((65 <=? z) && (z <=? 90)) || ((97 <=? z) && (z <=? 122)).
Definition name_char (c : byte) : bool := alphanumeric c || bool_decide (c ∈ lit "$^%").
Fixpoint span_name (t : list byte) : list byte * list byte :=
  match t with
  | c :: t' => if name_char c then let '(n, r) := span_name t' in (c :: n, r) else ([], t)
  | [] => ([], [])
  end.
(** A name, with a global directory before it if there is one. *)
Definition parse_name (t : list byte) : option (list byte * list byte) :=
  match t with
  | c1 :: c2 :: c3 :: t' =>
      if decide (c1 = chr "^" ∧ c2 = chr "|" ∧ c3 = double_quote) then
        '(dir, r) ← parse_string t';
        match r with
        | c :: r' => if decide (c = chr "|") then let '(n, r) := span_name r' in Some (lit "^|" ++ dir ++ lit "|" ++ n, r) else None
        | [] => None
        end
      else match span_name t with ([], _) => None | x => Some x end
  | _ => match span_name t with ([], _) => None | x => Some x end
  end.
Definition parse_operator (t : list byte) : option (list byte * list byte) :=
  match t with
  | c :: t' =>
      if decide (c ∈ lit "+-/*_!&=<>") then Some ([c], t')
      else if decide (c = chr "'") then
        match t' with
        | c' :: t'' => if decide (c' ∈ lit "=><") then Some ([c; c'], t'') else None
        | [] => None
        end
      else if decide (c = chr "]") then
        match t' with
        | c' :: t'' => if decide (c' = chr "]") then Some ([c; c'], t'') else None
        | [] => None
        end
      else None
  | [] => None
  end.

(** An argument: an expression, and in $SELECT another one behind a colon. *)
Definition parse_argument (parse : list byte → option (mexpr * list byte)) (t : list byte) : option (mexpr * option mexpr * list byte) :=
  '(e, r) ← parse t;
  match r with
  | c :: r' => if decide (c = chr ":") then '(v, r) ← parse r'; Some ((e, Some v), r) else Some ((e, None), r)
  | [] => None
  end.
(** An atom has its unary operators before it; an expression is worked off from the left. *)
Fixpoint parse_atom (n : nat) (t : list byte) : option (mexpr * list byte) :=
  match n with
  | O => None
  | S n =>
      match t with
      | [] => None
      | c :: t' =>
          if decide (c ∈ lit "+-'") then '(e, r) ← parse_atom n t'; Some (MUnary c e, r)
          else if decide (c = chr "(") then
            '(e, r) ← parse_expression n t';
            match r with c' :: r' => if decide (c' = chr ")") then Some (e, r') else None | [] => None end
          else if decide (c = double_quote) then '(text, r) ← parse_string t'; Some (MString text, r)
          else
            '(name, r) ← parse_name t;
            match r with
            | c' :: r' => if decide (c' = chr "(") then '(args, r) ← parse_arguments n r'; Some (MCall name args, r) else Some (MName name, r)
            | [] => Some (MName name, [])
            end
      end
  end
with parse_expression (n : nat) (t : list byte) : option (mexpr * list byte) :=
  match n with
  | O => None
  | S n => '(a, r) ← parse_atom n t; parse_operations n a r
  end
with parse_operations (n : nat) (a : mexpr) (t : list byte) : option (mexpr * list byte) :=
  match n with
  | O => None
  | S n =>
      match parse_operator t with
      | None => Some (a, t)
      | Some (op, r) => '(b, r) ← parse_atom n r; parse_operations n (MBinary op a b) r
      end
  end
(** The arguments up to the closing parenthesis. *)
with parse_arguments (n : nat) (t : list byte) : option (list (mexpr * option mexpr) * list byte) :=
  match n with
  | O => None
  | S n =>
      match t with
      | [] => None
      | c :: t' =>
          if decide (c = chr ")") then Some ([], t')
          else
            '(arg, r) ← parse_argument (parse_expression n) t;
            match r with
            | c' :: r' =>
                if decide (c' = chr ",") then '(rest, r) ← parse_arguments n r'; Some (arg :: rest, r)
                else if decide (c' = chr ")") then Some ([arg], r')
                else None
            | [] => None
            end
      end
  end.
(** A whole text. *)
Definition m_parse (t : list byte) : option mexpr :=
  match parse_expression (4 * S (length t)) t with Some (e, []) => Some e | _ => None end.
