(* ===== verification/EmitTheorems.v ===== *)
(** * What is written for a plan

    Which plans are printed into the file of a query and in which order; the files of
    cross references. *)
From stdpp Require Import gmap strings.
From S2P Require Import Prelude CMem Errors LogicalPlan Dnf SqlStatement Optimize GenerateWhere GeneratePlan PhysicalPlan PhysicalTheorems RoutineName Session EmitPlan.

(** ** Walking the list *)
Lemma links_split plans before c1 p c2 : links plans before (c1 ++ p :: c2) →
  ∃ q, plans !! p = Some q ∧ prev q = default before (list.last c1) ∧ next q = default null (head c2).
Proof.
  revert before. induction c1 as [|r c1 IH]; intros before.
  - intros (q & Hq & Hp & Hn & _). by exists q.
  - intros (q & Hq & Hp & Hn & Hl). destruct (IH r Hl) as (q' & Hq' & Hp' & Hn'). exists q'. split; [done|]. split; [|done].
    rewrite Hp'. destruct c1 as [|r' c1]; [done|]. rewrite last_cons_cons. by destruct (last_is_Some (r' :: c1)) as [_ [? ->]].
Qed.
Lemma plans_from_links plans before c fuel : links plans before c → null ∉ c → (length c < fuel)%nat →
  plans_from fuel plans (default null (head c)) = Ret c.
Proof.
  revert before fuel. induction c as [|p c IH]; intros before [|fuel] Hl Hn Hf; try (cbn in Hf; lia); [done|].
  destruct Hl as (q & Hq & _ & Hnx & Hl). apply not_elem_of_cons in Hn as [Hn1 Hn2]. cbn [plans_from head default from_option id].
  rewrite decide_False by done. rewrite Hq. cbn [found mbind outcome_bind]. rewrite Hnx, (IH p fuel) by (done || cbn in Hf; lia). done.
Qed.
Lemma first_plan_links plans c1 p c2 fuel : links plans null (c1 ++ p :: c2) → null ∉ c1 → (length c1 < fuel)%nat →
  first_plan fuel plans p = Ret (default p (head c1)).
Proof.
  revert p c2 fuel. induction c1 as [|r c1 IH] using rev_ind; intros p c2 fuel Hl Hn Hf; (destruct fuel as [|fuel]; [lia|]); cbn [first_plan].
  - destruct (links_split _ _ [] p c2 Hl) as (q & -> & Hp & _). cbn [found mbind outcome_bind]. by rewrite decide_True.
  - destruct (links_split _ _ _ _ _ Hl) as (q & -> & Hp & _). rewrite last_snoc in Hp. cbn [found mbind outcome_bind].
    apply not_elem_of_app in Hn as [Hn1 Hn2]. rewrite not_elem_of_cons in Hn2. rewrite decide_False by (rewrite Hp; cbn; intros E; by apply (proj1 Hn2)).
    rewrite Hp. cbn [default from_option id]. rewrite <- app_assoc in Hl. rewrite length_app in Hf. cbn in Hf.
    rewrite (IH r (p :: c2) fuel Hl Hn1) by lia. by destruct c1.
Qed.
Lemma last_plan_links plans before c1 p c2 fuel : links plans before (c1 ++ p :: c2) → null ∉ c2 → (length c2 < fuel)%nat →
  last_plan fuel plans p = Ret (default p (list.last c2)).
Proof.
  revert c1 p fuel. induction c2 as [|r c2 IH]; intros c1 p fuel Hl Hn Hf; (destruct fuel as [|fuel]; [lia|]); cbn [last_plan];
    destruct (links_split _ _ _ _ _ Hl) as (q & -> & _ & Hx); cbn [found mbind outcome_bind]; rewrite Hx; [by rewrite decide_True|].
  apply not_elem_of_cons in Hn as [Hn1 Hn2]. cbn [head default from_option id]. rewrite decide_False by (intros E; by apply Hn1).
  rewrite (IH (c1 ++ [p]) r fuel) by (done || (cbn in Hf; lia) || by rewrite <- app_assoc). rewrite last_cons. by destruct (list.last c2).
Qed.

(** ** Which plans are printed *)
Lemma ebind_run {A B} (x : E A) (f : A → E B) em a em1 : x em = Ret (a, em1) → (x ≫= f) em = f a em1.
Proof. intros H. unfold mbind, E_bind. by rewrite H. Qed.
Lemma eplan_run {B} p (f : PhysicalPlan → E B) em q : em_plans em !! p = Some q → (eplan p ≫= f) em = f q em.
Proof. intros H. apply ebind_run. unfold eplan, mbind, E_bind, egets, elift. cbn. by rewrite H. Qed.
Lemma eassign_run p f em q : em_plans em !! p = Some q → eassign p f em = Ret ((), with_em_plans (<[p := f q]>) em).
Proof. intros H. unfold eassign. by rewrite (eplan_run _ _ _ q). Qed.

(** Whether a plan is a cross reference, and whether it is deferred. *)
Record flags (em : emitted) (p : ptr) (xref deferred : bool) : Prop := {
  flags_plan : ∃ q, em_plans em !! p = Some q ∧ deferred_plan q = deferred ∧
    if decide (outputKey q = null) then xref = false else k_is_cross_reference_key <$> em_keys em !! outputKey q = Some xref;
}.
Definition same_flags (em em' : emitted) : Prop := ∀ p x d, flags em p x d → flags em' p x d.
Lemma same_flags_assign em p f q : em_plans em !! p = Some q → outputKey (f q) = outputKey q → deferred_plan (f q) = deferred_plan q →
  same_flags em (with_em_plans (<[p := f q]>) em).
Proof.
  intros Hq H1 H2 r x d [(qr & Hr & Hd & Hx)]. split. cbn. destruct (decide (r = p)) as [->|Hne].
  - rewrite lookup_insert_eq. rewrite Hq in Hr. injection Hr as ->. exists (f qr). rewrite H1, H2. done.
  - rewrite lookup_insert_ne by done. by exists qr.
Qed.
Lemma is_xref_run {B} p (f : bool → E B) em x d : flags em p x d → (is_xref p ≫= f) em = f x em.
Proof.
  intros [(q & Hq & _ & Hx)]. apply ebind_run. unfold is_xref. rewrite (eplan_run _ _ _ q) by done.
  destruct (decide (outputKey q = null)); [by subst|]. unfold mbind, E_bind, egets, elift. cbn.
  destruct (em_keys em !! outputKey q) as [k|]; [|done]. cbn in Hx. by simplify_eq.
Qed.

(** A plan in which only the names have changed. *)
Definition renamed (q q' : PhysicalPlan) : Prop := ∃ name file, q' = set_names name file q.
Lemma renamed_refl q : renamed q q.
Proof. exists (plan_name q), (filename q). by destruct q. Qed.
Lemma renamed_trans q q' q'' : renamed q q' → renamed q' q'' → renamed q q''.
Proof. intros (n & f & ->) (n' & f' & ->). exists n', f'. by destruct q. Qed.

Section passes.
Context (tmpl_physical_plan : emitted → ptr → list byte).
Context (xref deferred : ptr → bool).
(** The plans a pass prints. *)
Fixpoint printed (want second : bool) (chain : list ptr) : list ptr :=
  match chain with
  | [] => []
  | p :: chain' =>
      if negb second && xref p then printed want false chain'
      else if eqb (deferred p) want then p :: printed want false chain' else printed want true chain'
  end.
Definition lines (texts : list (list byte)) : list byte := concat ((λ t, t ++ [newline]) <$> texts).
(** A text is what the template gives for the plan, at the time. *)
Definition texts_of (ps : list ptr) (texts : list (list byte)) : Prop := Forall2 (λ p t, ∃ em, t = tmpl_physical_plan em p) ps texts.
Lemma emit_pass_prints want chain : ∀ second em, Forall (λ p, flags em p (xref p) (deferred p)) chain →
  ∃ texts em', emit_pass tmpl_physical_plan want second chain em = Ret (lines texts, em') ∧
    texts_of (printed want second chain) texts ∧ same_flags em em' ∧ (em_files em' = em_files em ∧ em_keys em' = em_keys em) ∧
    ∀ p q, em_plans em !! p = Some q → ∃ q', em_plans em' !! p = Some q' ∧ plan_name q' = plan_name q ∧ renamed q q'.
Proof.
  induction chain as [|p chain IH]; intros second em HF.
  { exists [], em. split; [done|]. split; [constructor|]. split; [by intros ???|]. split; [done|]. by eauto using renamed_refl. }
  apply list.Forall_cons in HF as [Hp HF]. cbn [emit_pass printed].
  assert (Hx : ∀ (f : bool → E (list byte)), ((if second then mret false else is_xref p : E bool) ≫= f) em = f (negb second && xref p) em).
  { intros f. destruct second; [done|]. by rewrite (is_xref_run p f em _ _ Hp). }
  rewrite Hx. destruct (negb second && xref p); [by apply IH|].
  destruct Hp as [(q & Hq & Hd & Hk)]. rewrite (eplan_run _ _ _ q) by done. rewrite Hd. destruct (eqb (deferred p) want); [|by apply IH].
  rewrite (ebind_run _ _ em (em_filename em) em) by done. rewrite (ebind_run _ _ _ _ _ (eassign_run p _ em q Hq)).
  set (em1 := with_em_plans _ em). rewrite (ebind_run _ _ em1 (tmpl_physical_plan em1 p) em1) by done.
  assert (Hs : same_flags em em1) by (apply same_flags_assign; [done|by destruct q..]).
  destruct (IH false em1) as (texts & em' & E1 & E2 & E3 & E4 & E5); [eapply list.Forall_impl; [exact HF|]; intros r; apply Hs|].
  rewrite (ebind_run _ _ _ _ _ E1). exists (tmpl_physical_plan em1 p :: texts), em'. split; [by unfold lines; cbn; rewrite <- app_assoc|].
  split; [constructor; [by eexists|done]|]. split; [intros r x d Hr; by apply E3, Hs|]. split; [done|].
  intros r qr Hr. subst em1. cbn in E5. destruct (decide (r = p)) as [->|Hne].
  - destruct (E5 p (set_filename (em_filename em) q)) as (q' & Hq' & En & Er); [by rewrite lookup_insert_eq|]. exists q'. split; [done|].
    rewrite Hq in Hr. injection Hr as ->. split; [rewrite En; by destruct qr|]. eapply renamed_trans; [|exact Er]. by eexists _, _.
  - apply (E5 r qr). by rewrite lookup_insert_ne.
Qed.
(** A cross reference is passed over unless the pass has just skipped a plan. *)
Lemma printed_filter want chain second : Forall (λ p, xref p = false) chain → printed want second chain = filter (λ p, deferred p = want) chain.
Proof.
  revert second. induction chain as [|p chain IH]; intros second HF; [done|]. apply list.Forall_cons in HF as [Hp HF].
  cbn [printed]. rewrite Hp, andb_false_r, filter_cons. destruct (eqb (deferred p) want) eqn:Ed.
  - apply eqb_prop in Ed. rewrite decide_True by done. by rewrite IH.
  - rewrite decide_False by (intros Ed'; by rewrite Ed', eqb_reflx in Ed). by apply IH.
Qed.
End passes.

Lemma elift_run {A B} (o : outcome A) (f : A → E B) em a : o = Ret a → (elift o ≫= f) em = f a em.
Proof. by intros ->. Qed.
(** ** The file of a query without cross references *)
Lemma name_plans_spec chain : ∀ plan_id em, Forall (λ p, ∃ d, flags em p false d) chain → NoDup chain →
  ∃ em', name_plans plan_id chain em = Ret ((), em') ∧ same_flags em em' ∧ (em_files em' = em_files em ∧ em_keys em' = em_keys em) ∧
    (∀ p q, em_plans em !! p = Some q → ∃ q', em_plans em' !! p = Some q' ∧ (p ∉ chain → plan_name q' = plan_name q) ∧ renamed q q') ∧
    ∀ i p, chain !! i = Some p → ∃ q', em_plans em' !! p = Some q' ∧ plan_name q' = lit "octoPlan" ++ dec (plan_id + Z.of_nat i + 1).
Proof.
  induction chain as [|p chain IH]; intros plan_id em HF Hd.
  { exists em. split; [done|]. split; [by intros ???|]. split; [done|]. split; [by eauto using renamed_refl|done]. }
  apply list.Forall_cons in HF as [[d Hp] HF]. apply list.NoDup_cons in Hd as [Hn Hd]. cbn [name_plans].
  rewrite (is_xref_run p _ em _ _ Hp). destruct Hp as [(q & Hq & _)].
  rewrite (ebind_run _ _ _ _ _ (eassign_run p _ em q Hq)). set (em1 := with_em_plans _ em).
  assert (Hs : same_flags em em1) by (apply same_flags_assign; [done|by destruct q..]).
  destruct (IH (plan_id + 1) em1) as (em' & E1 & E2 & E3 & E4 & E5).
  { eapply list.Forall_impl; [exact HF|]. intros r [d' Hr]. exists d'. by apply Hs. }
  { done. }
  exists em'. split; [done|]. split; [intros r x d' Hr; by apply E2, Hs|]. split; [done|]. split.
  - intros r qr Hr. destruct (decide (r = p)) as [->|Hne].
    + destruct (E4 p (set_plan_name (lit "octoPlan" ++ dec (plan_id + 1)) q)) as (q' & Hq' & _ & Er); [subst em1; cbn; by rewrite lookup_insert_eq|].
      exists q'. split; [done|]. split; [intros Hc; destruct Hc; by left|]. rewrite Hq in Hr. injection Hr as ->.
      eapply renamed_trans; [|exact Er]. by eexists _, _.
    + destruct (E4 r qr) as (q' & Hq' & Hk & Er); [subst em1; cbn; by rewrite lookup_insert_ne|]. exists q'. split; [done|]. split; [|done].
      intros Hc. apply Hk. intros Hin. apply Hc. by right.
  - intros [|i] r Hi; cbn in Hi.
    + simplify_eq. destruct (E4 r (set_plan_name (lit "octoPlan" ++ dec (plan_id + 1)) q)) as (q' & Hq' & Hk & _); [subst em1; cbn; by rewrite lookup_insert_eq|].
      exists q'. split; [done|]. rewrite (Hk Hn). replace (plan_id + Z.of_nat 0 + 1) with (plan_id + 1) by lia. by destruct q.
    + destruct (E5 i r Hi) as (q' & Hq' & En). exists q'. split; [done|]. rewrite En. by replace (plan_id + 1 + Z.of_nat i + 1) with (plan_id + Z.of_nat (S i) + 1) by lia.
Qed.

Section file.
Context `{YottaDB} (cat : catalog) (s : planner) (mem : nat → byte).
Context (tmp_dir : list byte) (digest : list byte → ydb_uint16) (fopen : list byte → bool).
Context (tmpl_physical_plan : emitted → ptr → list byte) (room : Z).

Lemma emit_xrefs_none chain em : Forall (λ p, ∃ d, flags em p false d) chain →
  emit_xrefs cat s mem tmp_dir digest fopen tmpl_physical_plan room chain em = Ret ((), em).
Proof.
  induction chain as [|p chain IH]; [done|]. intros [[d Hp] HF]%list.Forall_cons. cbn [emit_xrefs].
  rewrite (is_xref_run p _ em _ _ Hp). rewrite (ebind_run _ _ _ () em) by done. by apply IH.
Qed.
Definition deferred_in (plans : gmap ptr PhysicalPlan) (p : ptr) : bool := default false (deferred_plan <$> plans !! p).
(** The name of the file while it is written: the last character is a t. *)
Definition tmp_name (name : list byte) : list byte := <[Z.to_nat (zlen name - 1) := chr "t"]> name.
Lemma tmp_name_cstr name : name ≠ [] → nul ∉ name →
  store8 (name ++ [nul]) (zlen name - 1) (chr "t") = Ret (tmp_name name ++ [nul]) ∧ cstr (tmp_name name ++ [nul]) = tmp_name name.
Proof.
  intros Hne Hn. assert (Hl : 0 < zlen name) by (destruct name; [done|]; rewrite zlen_cons; pose proof (zlen_nonneg name); lia).
  split.
  - unfold store8. rewrite zlen_app. change (zlen [nul]) with 1. destruct (_ || _) eqn:Eb; [lia|].
    unfold tmp_name. rewrite insert_app_l; [done|]. unfold zlen in *. lia.
  - apply cstr_app_nul. unfold tmp_name. intros Hin. apply list_elem_of_lookup_1 in Hin as [i Hi].
    apply list_lookup_insert_Some in Hi as [(_ & Hc & _)|[_ Hi]]; [by vm_compute in Hc|]. apply Hn. by eapply list_elem_of_lookup_2.
Qed.

Lemma emit_plan_file ph chain p files f : linked ph chain → bounded ph → p ∈ chain →
  (∀ q pq, ph_plans ph !! q = Some pq → outputKey pq = null ∨ k_is_cross_reference_key <$> pl_keys s !! outputKey pq = Some false) →
  cstr f ≠ [] → fopen (tmp_name (cstr f)) = true →
  ∃ em texts, emit_physical_plan cat s mem tmp_dir digest fopen tmpl_physical_plan room p f (em0 mem s ph files) = Ret ((), em) ∧
    em_files em = <[cstr f := lines texts]> (delete (tmp_name (cstr f)) files) ∧
    texts_of tmpl_physical_plan (filter (λ q, deferred_in (ph_plans ph) q = false) chain ++ filter (λ q, deferred_in (ph_plans ph) q = true) chain) texts ∧
    (∀ i q, chain !! i = Some q → plan_name <$> em_plans em !! q = Some (lit "octoPlan" ++ dec (Z.of_nat i + 1))) ∧
    em_keys em = pl_keys s ∧ ∀ q pq, ph_plans ph !! q = Some pq → ∃ pq', em_plans em !! q = Some pq' ∧ renamed pq pq'.
Proof.
  intros Hl Hb Hp Hx Hf Hopen. set (em := em0 mem s ph files). set (d := deferred_in (ph_plans ph)).
  assert (Hnull : null ∉ chain).
  { intros Hin. destruct (proj2 Hb null); [by eapply links_lookup; [apply Hl|]|]. unfold null in *. lia. }
  assert (Hflags : Forall (λ q, flags em q false (d q)) chain).
  { apply list.Forall_forall. intros q Hq. destruct (links_lookup _ _ _ q (linked_links _ _ Hl) Hq) as [pq Hpq]. split. exists pq.
    split; [done|]. split; [unfold d, deferred_in; by rewrite Hpq|]. destruct (Hx q pq Hpq) as [->|Hk]; [by rewrite decide_True|].
    destruct (decide _); [done|exact Hk]. }
  assert (Hsize : (length chain ≤ size (em_plans em))%nat).
  { rewrite <- size_dom, <- (size_list_to_set (C := gset ptr) chain) by apply Hl. apply subseteq_size.
    intros q Hq%elem_of_list_to_set. apply elem_of_dom. by eapply links_lookup; [apply Hl|]. }
  apply list_elem_of_split in Hp as (c1 & c2 & ->). pose proof (linked_links _ _ Hl) as Hlinks. cbn in Hsize.
  unfold emit_physical_plan. rewrite (ebind_run _ _ em (em_plans em) em) by done.
  rewrite length_app in Hsize. cbn in Hsize.
  assert (Hfirst : first_plan (S (size (em_plans em))) (em_plans em) p = Ret (default null (head (c1 ++ p :: c2)))).
  { rewrite (first_plan_links _ c1 p c2); [by destruct c1|done| |cbn; lia]. intros Hin. apply Hnull, elem_of_app. by left. }
  rewrite (elift_run _ _ _ _ Hfirst).
  rewrite (elift_run _ _ _ (c1 ++ p :: c2)) by (apply (plans_from_links _ null); [done|done|rewrite length_app; cbn; lia]).
  set (chain := c1 ++ p :: c2) in *.
  assert (HF : Forall (λ q, ∃ d, flags em q false d) chain) by (eapply list.Forall_impl; [exact Hflags|]; by eexists).
  rewrite (ebind_run _ _ _ () em) by (by apply emit_xrefs_none).
  destruct (name_plans_spec chain 0 em HF (linked_nodup _ _ Hl)) as (em1 & E1 & S1 & [F1 K1] & R1 & N1).
  rewrite (ebind_run _ _ _ _ _ E1). destruct (tmp_name_cstr (cstr f) Hf (cstr_no_nul f)) as [E2 E3].
  rewrite (elift_run _ _ _ _ E2). cbv zeta. rewrite E3. rewrite (elift_run _ _ _ ()) by (unfold open_file; by rewrite Hopen).
  destruct (emit_pass_prints tmpl_physical_plan (λ _, false) d false chain false em1) as (t1 & em2 & E4 & T1 & S2 & [F2 K2] & N2).
  { eapply list.Forall_impl; [exact Hflags|]. intros q. apply S1. }
  rewrite (ebind_run _ _ _ _ _ E4).
  destruct (emit_pass_prints tmpl_physical_plan (λ _, false) d true chain false em2) as (t2 & em3 & E5 & T2 & S3 & [F3 K3] & N3).
  { eapply list.Forall_impl; [exact Hflags|]. intros q Hq. by apply S2, S1. }
  rewrite (ebind_run _ _ _ _ _ E5). eexists _, (t1 ++ t2). split; [done|]. cbn [with_files em_files em_plans].
  rewrite F3, F2, F1. split; [unfold lines; by rewrite fmap_app, concat_app|].
  assert (Hnone : Forall (λ _ : ptr, false = false) chain) by (by apply Forall_true).
  rewrite printed_filter in T1, T2 by done. split; [by apply Forall2_app|]. split; [|split; [cbn [with_files em_keys]; by rewrite K3, K2, K1|]].
  - intros i q Hi. destruct (N1 i q Hi) as (q1 & Hq1 & En). destruct (N2 q q1 Hq1) as (q2 & Hq2 & En2 & _).
    destruct (N3 q q2 Hq2) as (q3 & Hq3 & En3 & _). rewrite Hq3. cbn. by rewrite En3, En2, En.
  - intros q pq Hq. destruct (R1 q pq Hq) as (q1 & Hq1 & _ & Er1). destruct (N2 q q1 Hq1) as (q2 & Hq2 & _ & Er2).
    destruct (N3 q q2 Hq2) as (q3 & Hq3 & _ & Er3). exists q3. split; [done|]. by do 2 (eapply renamed_trans; [done|]).
Qed.

(** The file of a query.  For a list of plans without cross references
    [emit_physical_plan] returns; the plans have the names octoPlan1, octoPlan2, ... in the
    order of the list; and the file has the text of every plan once: of the plans that are
    not deferred in the order of the list, so that a plan comes after those it reads, and
    then of the deferred ones.  The file appears under its name only when it is complete. *)
Theorem plan_file_written ph chain p files f : linked ph chain → bounded ph → p ∈ chain →
  (∀ q pq, ph_plans ph !! q = Some pq → outputKey pq = null ∨ k_is_cross_reference_key <$> pl_keys s !! outputKey pq = Some false) →
  cstr f ≠ [] → fopen (tmp_name (cstr f)) = true →
  ∃ em texts, emit_physical_plan cat s mem tmp_dir digest fopen tmpl_physical_plan room p f (em0 mem s ph files) = Ret ((), em) ∧
    em_files em = <[cstr f := lines texts]> (delete (tmp_name (cstr f)) files) ∧
    texts_of tmpl_physical_plan (filter (λ q, deferred_in (ph_plans ph) q = false) chain ++ filter (λ q, deferred_in (ph_plans ph) q = true) chain) texts ∧
    ∀ i q, chain !! i = Some q → plan_name <$> em_plans em !! q = Some (lit "octoPlan" ++ dec (Z.of_nat i + 1)).
Proof.
  intros Hl Hb Hp Hx Hf Hopen. destruct (emit_plan_file ph chain p files f Hl Hb Hp Hx Hf Hopen) as (em & texts & E1 & E2 & E3 & E4 & _).
  by exists em, texts.
Qed.
End file.

(** ** Cross references *)
Lemma ebind_inv {A B} (x : E A) (f : A → E B) em b em' : (x ≫= f) em = Ret (b, em') →
  ∃ a em1, x em = Ret (a, em1) ∧ f a em1 = Ret (b, em').
Proof. intros H. apply bind_ret_inv in H as ([a em1] & H1 & H2). by exists a, em1. Qed.
Lemma elift_inv {A} (o : outcome A) em a em' : elift o em = Ret (a, em') → o = Ret a ∧ em' = em.
Proof. intros H. apply bind_ret_inv in H as (b & -> & [= -> ->]). done. Qed.
Lemma eplan_inv p em q em' : eplan p em = Ret (q, em') → em_plans em !! p = Some q ∧ em' = em.
Proof. intros H. apply ebind_inv in H as (m & em1 & [= <- <-] & [H ->]%elift_inv). by apply found_inv in H. Qed.
Lemma eassign_inv p f em u em' : eassign p f em = Ret (u, em') → ∃ q, em_plans em !! p = Some q ∧ em' = with_em_plans (<[p := f q]>) em.
Proof. intros H. apply ebind_inv in H as (q & em1 & [Hq ->]%eplan_inv & [= _ <-]). by exists q. Qed.

Section xrefs.
Context `{YottaDB} (cat : catalog) (s : planner) (mem : nat → byte).
Context (tmp_dir : list byte) (digest : list byte → ydb_uint16) (fopen : list byte → bool).
Context (tmpl_physical_plan : emitted → ptr → list byte) (room : Z).
Abbreviation emit_xref := (emit_xref cat s mem tmp_dir digest fopen tmpl_physical_plan room).

(** The table and the column of the cross reference a plan makes. *)
Definition xref_of (em : emitted) (p : ptr) (tableName columnName : list byte) : Prop :=
  ∃ q key, em_plans em !! p = Some q ∧ em_keys em !! outputKey q = Some key ∧
    table_text cat s (k_table key) = Ret tableName ∧ column_text cat s (k_column key) = Ret columnName.
Lemma emit_xref_writes p em em' t c : xref_of em p t c → emit_xref p em = Ret ((), em') →
  ∃ name rest text, xref_name mem digest room t c = Ret name ∧ string_at name 1 = Ret rest ∧
    em_filename em' = cut_text (cstr tmp_dir ++ lit "/_" ++ rest ++ lit ".m") ∧
    em_files em' = <[em_filename em' := text ++ [newline]]> (em_files em).
Proof.
  intros (q & key & Hq & Hk & Ht & Hc) H1. unfold EmitPlan.emit_xref in H1.
  rewrite (eplan_run _ _ _ q), (ebind_run _ _ em (em_keys em) em), (elift_run _ _ _ key), (elift_run _ _ _ t), (elift_run _ _ _ c) in H1
    by (done || by rewrite Hk).
  apply ebind_inv in H1 as (u1 & em1 & (q1 & _ & ->)%eassign_inv & H1). apply ebind_inv in H1 as (name & em2 & [Hn ->]%elift_inv & H1).
  apply ebind_inv in H1 as (rest & em3 & [Hr ->]%elift_inv & H1). apply ebind_inv in H1 as (u2 & em4 & [= _ <-] & H1).
  apply ebind_inv in H1 as (u3 & em5 & [_ ->]%elift_inv & H1). apply ebind_inv in H1 as (u4 & em6 & (q2 & _ & ->)%eassign_inv & H1).
  apply ebind_inv in H1 as (text & em7 & [= <- <-] & [= <-]). by eexists name, rest, _.
Qed.
Lemma xref_name_prefix t c c' : zlen t ≤ zlen c → zlen t ≤ zlen c' → take (length t) c = take (length t) c' →
  xref_name mem digest room t c = xref_name mem digest room t c'.
Proof.
  intros Hc Hc' Hp.
  assert (Hl : ∀ x, zlen t ≤ zlen x → load_bytes (x ++ [nul]) 0 (zlen t) = Ret (take (length t) x)).
  { intros x Hx. unfold load_bytes. rewrite zlen_app. change (zlen [nul]) with 1. pose proof (zlen_nonneg t).
    destruct (_ || _) eqn:Eb; [lia|]. unfold zlen in *. change (Z.to_nat 0) with O. rewrite drop_0, Nat2Z.id. by rewrite take_app_le by lia. }
  unfold xref_name, xref_hashed. by rewrite !Hl, Hp by done.
Qed.

(** The file of a cross reference is named after the table and the beginning of the
    column's name only - as much of it as the table's name has characters.  Two columns of a
    table that begin alike share one file: what was written for the first is lost. *)
Theorem xrefs_share_a_file em em1 em2 p p' t c c' : xref_of em p t c → xref_of em1 p' t c' →
  zlen t ≤ zlen c → zlen t ≤ zlen c' → take (length t) c = take (length t) c' →
  emit_xref p em = Ret ((), em1) → emit_xref p' em1 = Ret ((), em2) →
  em_filename em2 = em_filename em1 ∧ ∃ text, em_files em2 = <[em_filename em1 := text]> (em_files em).
Proof.
  intros X1 X2 Hc Hc' Hp E1 E2. destruct (emit_xref_writes _ _ _ _ _ X1 E1) as (n1 & r1 & t1 & N1 & R1 & F1 & W1).
  destruct (emit_xref_writes _ _ _ _ _ X2 E2) as (n2 & r2 & t2 & N2 & R2 & F2 & W2).
  rewrite <- (xref_name_prefix t c c' Hc Hc' Hp), N1 in N2. injection N2 as <-. rewrite R1 in R2. injection R2 as <-.
  assert (Ef : em_filename em2 = em_filename em1) by (by rewrite F1, F2). split; [done|]. exists (t2 ++ [newline]).
  rewrite W2, W1, Ef. apply insert_insert_eq.
Qed.
End xrefs.

(** ** A sample *)
Definition sample_phys : phys :=
  match generate_physical_plan sample_planner 2 sample_nested options0 (phys0 100) with Ret (_, st) => st | _ => phys0 100 end.
(** A template that prints the name of the plan. *)
Definition sample_tmpl (em : emitted) (p : ptr) : list byte := default [] (plan_name <$> em_plans em !! p).
Definition sample_digest (text : list byte) : ydb_uint16 := {| one := 7 + zlen text; two := 9 |}.
Definition sample_mem : nat → byte := λ _, nul.
Definition sample_emit : outcome (() * emitted) :=
  emit_physical_plan {| cat_tables := ∅; cat_columns := ∅; cat_rings := ∅ |} sample_planner sample_mem (lit "/tmp") sample_digest (λ _, true) sample_tmpl 32 100 (lit "/tmp/_x.m")
    (em0 sample_mem sample_planner sample_phys ∅).
Lemma plan_file_written_witness : ∃ em texts, sample_emit = Ret ((), em) ∧
  em_files em = {[lit "/tmp/_x.m" := lines texts]} ∧ lines texts = lines [lit "octoPlan1"; lit "octoPlan2"] ∧
  plan_name <$> em_plans em !! 101 = Some (lit "octoPlan1").
Proof.
  destruct (plan_file_written {| cat_tables := ∅; cat_columns := ∅; cat_rings := ∅ |} sample_planner sample_mem (lit "/tmp") sample_digest (λ _, true) sample_tmpl 32 sample_phys [101; 100] 100 ∅ (lit "/tmp/_x.m"))
    as (em & texts & E & F & T & N).
  - split; [vm_compute; reflexivity| |eval_decide]. cbn [links]. eexists. split; [vm_compute; reflexivity|]. repeat (split; [reflexivity|]).
    eexists. split; [vm_compute; reflexivity|]. by repeat (split; [reflexivity|]).
  - split; [done|]. intros p [q Hq]. assert (Hall : map_Forall (λ p _, 0 < p < ph_next sample_phys) (ph_plans sample_phys)) by eval_decide.
    exact (Hall p q Hq).
  - right. by left.
  - intros q pq Hq. right.
    assert (Hall : map_Forall (λ _ q, k_is_cross_reference_key <$> pl_keys sample_planner !! outputKey q = Some false) (ph_plans sample_phys)) by eval_decide.
    exact (Hall q pq Hq).
  - done.
  - done.
  - exists em, texts. split; [exact E|]. split; [exact F|]. split; [|exact (N 0%nat 101 eq_refl)].
    assert (Hf : em_files em !! lit "/tmp/_x.m" = Some (lines texts)) by (rewrite F; by rewrite lookup_insert_eq).
    assert (Hc : match sample_emit with Ret (_, em) => em_files em !! lit "/tmp/_x.m" | _ => None end = Some (lines [lit "octoPlan1"; lit "octoPlan2"]))
      by (vm_compute; reflexivity).
    unfold sample_emit in Hc. rewrite E in Hc. rewrite Hf in Hc. by injection Hc.
Defined.

(** Two cross references of a table T, for the columns XA and XB. *)
Definition text_value (s : string) : SqlValue :=
  {| sv_type := STRING_LITERAL; sv_coerced_type := UNKNOWN_SqlValueType; sv_data_type := UNKNOWN_SqlDataType; sv_literal := lit s |}.
Definition xref_key (column : ptr) : SqlKey :=
  {| k_table := 1; k_column := column; k_key_num := 0; k_unique_id := 1; k_value := NULL; k_insert := null; k_type := LP_KEY_ADVANCE;
     k_owner := NULL; k_is_cross_reference_key := true; k_cross_reference_output_key := null;
     k_cross_reference_column_alias := null; k_cross_reference_filename := null |}.
Definition xref_column (p name : ptr) : SqlColumn := Column p (value_STATEMENT name null_STATEMENT) INTEGER_TYPE null_STATEMENT null_STATEMENT.
Definition xref_catalog : catalog :=
  {| cat_tables := {[1 := table_STATEMENT 1 (value_STATEMENT 60 null_STATEMENT) null_STATEMENT 20 null_STATEMENT]};
     cat_columns := {[2 := xref_column 2 61; 3 := xref_column 3 62]}; cat_rings := ∅ |}.
Definition xref_planner : planner :=
  {| pl_counter := 9; pl_next := 100; pl_keys := {[10 := xref_key 2; 11 := xref_key 3]};
     pl_values := {[60 := text_value "T"; 61 := text_value "XA"; 62 := text_value "XB"]};
     pl_keywords := ∅; pl_column_aliases := ∅; pl_table_aliases := ∅; pl_items := ∅ |}.
Definition xref_plan (key : ptr) : PhysicalPlan := set_output key null true (new_plan null null).
Definition xref_state : emitted :=
  em0 sample_mem xref_planner {| ph_plans := {[100 := xref_plan 10; 101 := xref_plan 11]}; ph_last := 100; ph_next := 102; ph_warnings := 0 |} ∅.
Definition xref_emit (p : ptr) (em : emitted) : outcome (() * emitted) :=
  emit_xref xref_catalog xref_planner sample_mem (lit "/tmp") sample_digest (λ _, true) sample_tmpl 32 p em.
Definition ran (o : outcome (() * emitted)) : emitted := match o with Ret (_, em) => em | _ => xref_state end.
Definition xref_once : emitted := ran (xref_emit 100 xref_state).
Definition xref_twice : emitted := ran (xref_emit 101 xref_once).
Lemma xref_once_ran : xref_emit 100 xref_state = Ret ((), xref_once).
Proof. vm_compute. reflexivity. Qed.
Lemma xref_twice_ran : xref_emit 101 xref_once = Ret ((), xref_twice).
Proof. vm_compute. reflexivity. Qed.
Lemma xrefs_share_a_file_witness : xref_emit 100 xref_state = Ret ((), xref_once) ∧ xref_emit 101 xref_once = Ret ((), xref_twice) ∧
  em_filename xref_twice = em_filename xref_once ∧ size (em_files xref_twice) = 1%nat.
Proof.
  split; [exact xref_once_ran|]. split; [exact xref_twice_ran|].
  destruct (xrefs_share_a_file xref_catalog xref_planner sample_mem (lit "/tmp") sample_digest (λ _, true) sample_tmpl 32 xref_state xref_once xref_twice 100 101 (lit "T") (lit "XA") (lit "XB"))
    as [Hf [text Hw]].
  - exists (xref_plan 10), (xref_key 2). repeat (split; [vm_compute; reflexivity|]). vm_compute; reflexivity.
  - exists (xref_plan 11), (xref_key 3). repeat (split; [vm_compute; reflexivity|]). vm_compute; reflexivity.
  - by vm_compute.
  - by vm_compute.
  - done.
  - exact xref_once_ran.
  - exact xref_twice_ran.
  - split; [done|]. rewrite Hw. by rewrite map_size_insert_None.
Defined.
