(* ===== verification/Qualify.v ===== *)
(** * Resolving column names

    [qualify_query.c], [qualify_statement.c], [qualify_column_name.c],
    [match_column_in_table.c], [qualify_column_list.c] and [qualify_function_name.c]: after a
    query is parsed, each column reference in it is replaced by the column of the table it
    means, and each function name by the routine that implements it.

    The code rewrites the statement in place.  Here a statement that is rewritten is
    returned; the trees under a resolved column are what its two pointers led to when it was
    resolved, and are the same structs as those with their addresses elsewhere.  The column
    list of a query's alias is the select list of the query itself (parser/select.y), so it is
    rewritten with it.

    A ring of joins is the list of its elements from the one pointed to: splicing the ring of
    the parent query behind the query's own is appending the lists. *)
From stdpp Require Import gmap strings.
From S2P Require Import Prelude CMem Errors LogicalPlan SqlStatement Session.

(** What changes besides the statement: the values (a function's name is one), the next
    address [octo_cmalloc] gives, and the warnings, with their argument. *)
Record qualifier := { qf_values : values; qf_next : ptr; qf_warnings : list (ERROR * list byte) }.
Definition N (A : Type) : Type := qualifier → outcome (A * qualifier).
#[export] Instance N_ret : MRet N := λ A x s, Ret (x, s).
#[export] Instance N_bind : MBind N := λ A B f x s, '(a, s) ← x s; f a s.
Definition lift_n {A} (o : outcome A) : N A := λ s, a ← o; Ret (a, s).
Definition values_n : N values := λ s, Ret (qf_values s, s).
Definition warn (e : ERROR) (arg : list byte) : N () := λ s,
  Ret ((), {| qf_values := qf_values s; qf_next := qf_next s; qf_warnings := qf_warnings s ++ [(e, arg)] |}).
Definition new_ptr : N ptr := λ s,
  Ret (qf_next s, {| qf_values := qf_values s; qf_next := qf_next s + 1; qf_warnings := qf_warnings s |}).
Definition set_value (p : ptr) (v : SqlValue) : N () := λ s,
  Ret ((), {| qf_values := <[p := v]> (qf_values s); qf_next := qf_next s; qf_warnings := qf_warnings s |}).

(** [UNPACK_SQL_STATEMENT(value, stmt, value)], and the string of the value. *)
Definition text_of (m : values) (stmt : SqlStatement) : outcome (list byte) :=
  match stmt with
  | null_STATEMENT => Undef NullPointer
  | value_STATEMENT p _ => v ← value_at m p; Ret (cstr (sv_literal v))
  | _ => Halt AssertFailed
  end.
(** [UNPACK_SQL_STATEMENT(x, stmt, table_alias)]: the alias and the column list. *)
Definition unpack_table_alias (stmt : SqlStatement) : outcome (SqlStatement * SqlStatement) :=
  match stmt with
  | null_STATEMENT => Undef NullPointer
  | table_alias_STATEMENT _ _ alias _ column_list => Ret (alias, column_list)
  | _ => Halt AssertFailed
  end.
Definition unpack_column_list_alias (stmt : SqlStatement) : outcome (list SqlColumnListAlias) :=
  match stmt with
  | null_STATEMENT | column_list_alias_STATEMENT [] => Undef NullPointer
  | column_list_alias_STATEMENT ring => Ret ring
  | _ => Halt AssertFailed
  end.

(** ** [match_column_in_table] *)
(** The loop, with the elements passed behind it: a match is the ring from the element on. *)
Fixpoint match_columns (m : values) (column_name : list byte) (passed ring : list SqlColumnListAlias)
    : outcome SqlStatement :=
  match ring with
  | [] => Ret null_STATEMENT
  | (ColumnListAlias _ _ alias _ _) as c :: ring' =>
      matched ← (if is_null_stmt alias then Ret false
                 else t ← text_of m alias; Ret (bool_decide (t = column_name)));
      if matched : bool then Ret (column_list_alias_STATEMENT (ring ++ passed))
      else match_columns m column_name (passed ++ [c]) ring'
  end.
Definition match_column_in_table (m : values) (column_list : SqlStatement) (column_name : list byte)
    : outcome SqlStatement :=
  if is_null_stmt column_list then Ret null_STATEMENT
  else ring ← unpack_column_list_alias column_list; match_columns m column_name [] ring.

(** ** [qualify_column_name] *)
(** The name up to the first period and what is behind it. *)
Definition period : byte := chr ".".
Fixpoint split_period (s : list byte) : option (list byte * list byte) :=
  match s with
  | [] => None
  | c :: s' =>
      if decide (c = period) then Some ([], s')
      else '(a, b) ← split_period s'; Some (c :: a, b)
  end.
(** The loop over the tables.  [column] is what was found, with the alias it was found in;
    the first table with the name asked for ends the loop. *)
Fixpoint search_tables (table_name : option (list byte)) (column_name : list byte)
    (column : option (SqlStatement * SqlStatement)) (tables : list SqlJoin)
    : N (option (SqlStatement * SqlStatement)) :=
  match tables with
  | [] => mret column
  | Join value _ _ :: tables' =>
      '(alias, column_list) ← lift_n (unpack_table_alias value);
      m ← values_n;
      match table_name with
      | Some table_name' =>
          mine ← lift_n (if is_null_stmt alias then Ret false
                         else t ← text_of m alias; Ret (bool_decide (t = table_name')));
          if mine : bool then
            c ← lift_n (match_column_in_table m column_list column_name);
            mret (if is_null_stmt c then None else Some (c, value))
          else search_tables table_name column_name column tables'
      | None =>
          c ← lift_n (match_column_in_table m column_list column_name);
          if is_null_stmt c then search_tables table_name column_name column tables'
          else match column with
            | Some _ => _ ← warn ERR_AMBIGUOUS_COLUMN_NAME column_name; search_tables table_name column_name column tables'
            | None => search_tables table_name column_name (Some (c, value)) tables'
            end
      end
  end.
(** The loop over the select list: [memcmp] over the length of the name only. *)
Fixpoint search_select_list (column_name : list byte) (table_alias : SqlStatement)
    (column : option (SqlStatement * SqlStatement)) (passed ring : list SqlColumnListAlias)
    : N (option (SqlStatement * SqlStatement)) :=
  match ring with
  | [] => mret column
  | (ColumnListAlias _ _ alias _ _) as c :: ring' =>
      m ← values_n;
      matched ← lift_n (if is_null_stmt alias then Ret false
                        else t ← text_of m alias; Ret (bool_decide (take (length column_name) t = column_name)));
      if matched : bool then
        match column with
        | Some _ => _ ← warn ERR_AMBIGUOUS_COLUMN_NAME column_name;
                    search_select_list column_name table_alias column (passed ++ [c]) ring'
        | None => search_select_list column_name table_alias
                    (Some (column_list_alias_STATEMENT (ring ++ passed), table_alias)) (passed ++ [c]) ring'
        end
      else search_select_list column_name table_alias column (passed ++ [c]) ring'
  end.
Definition qualify_column_name (column_value : SqlValue) (tables : list SqlJoin) (table_alias_stmt : SqlStatement)
    : N (option SqlStatement) :=
  _ ← lift_n (c_assert (bool_decide (sv_type column_value = COLUMN_REFERENCE)));
  let name := cstr (sv_literal column_value) in
  let '(table_name, column_name) :=
    match split_period name with Some (t, c) => (Some t, c) | None => (None, name) end in
  column ← search_tables table_name column_name None tables;
  column ← (match column, table_name with
    | None, None =>
        if is_null_stmt table_alias_stmt then mret None
        else
          '(_, column_list) ← lift_n (unpack_table_alias table_alias_stmt);
          ring ← lift_n (unpack_column_list_alias column_list);
          search_select_list column_name table_alias_stmt None [] ring
    | _, _ => mret column
    end);
  match column with
  | None => _ ← warn ERR_UNKNOWN_COLUMN_NAME column_name; mret None
  | Some (c, a) => p ← new_ptr; mret (Some (column_alias_STATEMENT p c a))
  end.

(** ** [qualify_function_name] *)
Section qualify.
Context `{YottaDB} (octo_global : list byte) (d : db).

(** The routine for a function's name replaces the name; a name that starts with two
    dollars is left alone. *)
Definition qualify_function_name (p : ptr) : N bool :=
  m ← values_n;
  value ← lift_n (value_at m p);
  let name := cstr (sv_literal value) in
  if (2 <? zlen name) && bool_decide (take 2 name = [dollar; dollar]) then mret false
  else
    let '(status, new_name) := ydb_get_s d [octo_global; lit "functions"; name] MAX_STR_CONST in
    if decide (status = YDB_ERR_GVUNDEF) then
      _ ← warn CUSTOM_ERROR name; mret true
    else
      _ ← lift_n (ydb_error_check status);
      _ ← lift_n (if zlen new_name <? MAX_STR_CONST then Ret () else Undef OutOfBounds);
      _ ← set_value p {| sv_type := sv_type value; sv_coerced_type := sv_coerced_type value;
                         sv_data_type := sv_data_type value; sv_literal := cstr new_name |};
      mret false.

(** ** [qualify_statement] and [qualify_query]

    Each returns whether anything could not be resolved, and the statement. *)
Definition rewrite_ring {A} (f : A → N (bool * A)) : list A → N (bool * list A) :=
  fix go l := match l with
  | [] => mret (false, [])
  | x :: l' => '(r, x) ← f x; '(r', l') ← go l'; mret (r || r', x :: l')
  end.
(** A [do ... while] over a ring, which is dereferenced first. *)
Definition rewrite_do_ring {A} (f : A → N (bool * A)) (l : list A) : N (bool * list A) :=
  match l with [] => lift_n (Undef NullPointer) | _ => rewrite_ring f l end.

Section step.
(** The recursive calls; the alias is the one of the query around the statement. *)
Context (statement : list SqlJoin → SqlStatement → SqlStatement → N (bool * SqlStatement)).
Context (query : list SqlJoin → SqlStatement → N (bool * SqlStatement)).

Definition qualify_value (tables : list SqlJoin) (alias : SqlStatement) (p : ptr) (v : SqlStatement) : N (bool * SqlStatement) :=
  m ← values_n;
  value ← lift_n (value_at m p);
  match sv_type value with
  | COLUMN_REFERENCE =>
      c ← qualify_column_name value tables alias;
      mret (match c with
        | Some c => (false, c)
        | None => (true, column_alias_STATEMENT null null_STATEMENT null_STATEMENT)
        end)
  | CALCULATED_VALUE | COERCE_TYPE => '(r, v) ← statement tables alias v; mret (r, value_STATEMENT p v)
  | FUNCTION_NAME => r ← qualify_function_name p; mret (r, value_STATEMENT p v)
  | _ => mret (false, value_STATEMENT p v)
  end.
(** The ELSE of a CASE is not visited. *)
Definition qualify_body (tables : list SqlJoin) (alias stmt : SqlStatement) : N (bool * SqlStatement) :=
  let go := statement tables alias in
  match stmt with
  | null_STATEMENT | column_alias_STATEMENT _ _ _ | table_STATEMENT _ _ _ _ _ => mret (false, stmt)
  | select_STATEMENT _ _ _ _ _ _ => lift_n (Halt AssertFailed)
  | value_STATEMENT p v => qualify_value tables alias p v
  | binary_STATEMENT operation a b =>
      '(r, a) ← go a; '(r', b) ← go b; mret (r || r', binary_STATEMENT operation a b)
  | unary_STATEMENT operation a => '(r, a) ← go a; mret (r, unary_STATEMENT operation a)
  | function_call_STATEMENT function_name parameters =>
      match parameters with
      | column_list_STATEMENT ring =>
          '(r, function_name) ← go function_name;
          '(r', ring) ← rewrite_ring go ring;
          mret (r || r', function_call_STATEMENT function_name (column_list_STATEMENT ring))
      | null_STATEMENT => lift_n (Undef NullPointer)
      | _ => lift_n (Halt AssertFailed)
      end
  | cas_STATEMENT value branches optional_else =>
      '(r, value) ← go value; '(r', branches) ← go branches;
      mret (r || r', cas_STATEMENT value branches optional_else)
  | cas_branch_STATEMENT ring =>
      '(r, ring) ← rewrite_do_ring (λ '(CaseBranch condition value),
        '(r, condition) ← go condition; '(r', value) ← go value; mret (r || r', CaseBranch condition value)) ring;
      mret (r, cas_branch_STATEMENT ring)
  | column_list_STATEMENT ring => '(r, ring) ← rewrite_do_ring go ring; mret (r, column_list_STATEMENT ring)
  | table_alias_STATEMENT _ _ _ _ _ | set_operation_STATEMENT _ _ _ => query tables stmt
  | column_list_alias_STATEMENT ring =>
      '(r, ring) ← rewrite_do_ring (λ '(ColumnListAlias p column_list a keywords type),
        '(r, column_list) ← go column_list; mret (r, ColumnListAlias p column_list a keywords type)) ring;
      mret (r, column_list_alias_STATEMENT ring)
  | _ => lift_n (Halt FatalExit)
  end.

(** "First qualify subqueries": the joins of the query itself; behind them in the ring are
    those of the parent. *)
Fixpoint qualify_joins (parent : list SqlJoin) (alias : SqlStatement) (done_ joins : list SqlJoin) : N (bool * list SqlJoin) :=
  match joins with
  | [] => mret (false, done_)
  | Join value condition type :: joins' =>
      '(r1, value) ← query (done_ ++ joins ++ parent) value;
      '(r2, condition) ← statement (done_ ++ Join value condition type :: joins' ++ parent) alias condition;
      '(r3, all) ← qualify_joins parent alias (done_ ++ [Join value condition type]) joins';
      mret (r1 || r2 || r3, all)
  end.
Definition qualify_query_body (parent : list SqlJoin) (stmt : SqlStatement) : N (bool * SqlStatement) :=
  match stmt with
  | null_STATEMENT => lift_n (Undef NullPointer)
  | table_alias_STATEMENT p table alias unique_id column_list =>
      match table with
      | table_STATEMENT _ _ _ _ _ => mret (false, stmt)
      | select_STATEMENT select_list table_list where_expression order_expression optional_words set_operation =>
          match table_list with
          | join_STATEMENT (j :: joins) =>
              '(r1, joins) ← qualify_joins parent stmt [] (j :: joins);
              let tables := joins ++ parent in
              '(r2, select_list) ← statement tables stmt select_list;
              '(r3, where_expression) ← statement tables stmt where_expression;
              '(r4, order_expression) ← statement tables stmt order_expression;
              mret (r1 || r2 || r3 || r4,
                table_alias_STATEMENT p
                  (select_STATEMENT select_list (join_STATEMENT joins) where_expression order_expression optional_words set_operation)
                  alias unique_id select_list)
          | join_STATEMENT [] | null_STATEMENT => lift_n (Undef NullPointer)
          | _ => lift_n (Halt AssertFailed)
          end
      | null_STATEMENT => lift_n (Undef NullPointer)
      | _ => lift_n (Halt AssertFailed)
      end
  | set_operation_STATEMENT type a b =>
      '(r, a) ← query parent a; '(r', b) ← query parent b; mret (r || r', set_operation_STATEMENT type a b)
  | _ => lift_n (Halt AssertFailed)
  end.
End step.

Fixpoint qualify_statement (fuel : nat) (tables : list SqlJoin) (alias stmt : SqlStatement) : N (bool * SqlStatement) :=
  match fuel with
  | O => λ _, NoFuel
  | S fuel' => qualify_body (qualify_statement fuel') (qualify_query fuel') tables alias stmt
  end
with qualify_query (fuel : nat) (parent : list SqlJoin) (stmt : SqlStatement) : N (bool * SqlStatement) :=
  match fuel with
  | O => λ _, NoFuel
  | S fuel' => qualify_query_body (qualify_statement fuel') (qualify_query fuel') parent stmt
  end.
End qualify.
