(* ===== verification/QualifyTheorems.v ===== *)
(** * What a name means

    A reference definition of name resolution ([resolve]) that [qualify_column_name]
    computes, with the warnings it gives; what the definition promises: the tables of the
    query hide those of the query around it, and a name only one table has means the same in
    any order of the tables.  Then what qualifying a whole query achieves: nothing is left
    unresolved unless the query is refused, and it is refused exactly if a warning says why. *)
From stdpp Require Import gmap strings.
From S2P Require Import Prelude CMem Errors LogicalPlan SqlStatement Session Qualify.

(** ** Candidates *)
Definition alias_name (m : values) (alias : SqlStatement) : option (list byte) :=
  match alias with value_STATEMENT p _ => (λ v, cstr (sv_literal v)) <$> m !! p | _ => None end.
Definition cla_name (m : values) (c : SqlColumnListAlias) : option (list byte) :=
  match c with ColumnListAlias _ _ alias _ _ => alias_name m alias end.
(** Every element of a ring whose name satisfies [P], as the ring from it on. *)
Fixpoint named (m : values) (P : list byte → bool) (passed ring : list SqlColumnListAlias) : list SqlStatement :=
  match ring with
  | [] => []
  | c :: ring' =>
      (if default false (P <$> cla_name m c) then [column_list_alias_STATEMENT (ring ++ passed)] else [])
      ++ named m P (passed ++ [c]) ring'
  end.
Definition is_name (name t : list byte) : bool := bool_decide (t = name).
Definition starts_with (name t : list byte) : bool := bool_decide (take (length name) t = name).

(** The columns of a table with the name: the first one counts. *)
Definition table_column (m : values) (name : list byte) (j : SqlJoin) : option (SqlStatement * SqlStatement) :=
  match j with
  | Join (table_alias_STATEMENT _ _ _ _ (column_list_alias_STATEMENT ring) as value) _ _ =>
      (λ c, (c, value)) <$> head (named m (is_name name) [] ring)
  | _ => None
  end.
Definition table_alias_name (m : values) (j : SqlJoin) : option (list byte) :=
  match j with Join (table_alias_STATEMENT _ _ alias _ _) _ _ => alias_name m alias | _ => None end.
Definition candidates (m : values) (name : list byte) (tables : list SqlJoin) : list (SqlStatement * SqlStatement) :=
  omap (table_column m name) tables.
Definition select_candidates (m : values) (name : list byte) (alias : SqlStatement) : list (SqlStatement * SqlStatement) :=
  match alias with
  | table_alias_STATEMENT _ _ _ _ (column_list_alias_STATEMENT ring) =>
      (λ c, (c, alias)) <$> named m (starts_with name) [] ring
  | _ => []
  end.
(** The reference definition: a qualified name is a column of the first table with that
    alias; another one is the first candidate among the tables, else in the select list. *)
Definition resolve (m : values) (name : list byte) (tables : list SqlJoin) (alias : SqlStatement) : option (SqlStatement * SqlStatement) :=
  match split_period name with
  | Some (t, c) => '(_, j) ← list_find (λ j, table_alias_name m j = Some t) tables; table_column m c j
  | None => head (candidates m name tables ++ select_candidates m name alias)
  end.
(** The warnings: one for each candidate that is passed over, and one when there is none. *)
Definition ambiguities {A} (name : list byte) (l : list A) : list (ERROR * list byte) :=
  replicate (length l - 1) (ERR_AMBIGUOUS_COLUMN_NAME, name).
Definition resolve_warnings (m : values) (name : list byte) (tables : list SqlJoin) (alias : SqlStatement) : list (ERROR * list byte) :=
  match split_period name with
  | Some (_, c) => match resolve m name tables alias with None => [(ERR_UNKNOWN_COLUMN_NAME, c)] | Some _ => [] end
  | None =>
      match candidates m name tables with
      | [] => match select_candidates m name alias with
              | [] => [(ERR_UNKNOWN_COLUMN_NAME, name)]
              | l => ambiguities name l
              end
      | l => ambiguities name l
      end
  end.

(** ** Readable tables *)
Definition readable (m : values) (alias : SqlStatement) : Prop := alias = null_STATEMENT ∨ is_Some (alias_name m alias).
Definition readable_list (m : values) (column_list : SqlStatement) : Prop :=
  column_list = null_STATEMENT ∨
  ∃ ring, column_list = column_list_alias_STATEMENT ring ∧ ring ≠ [] ∧
    Forall (λ '(ColumnListAlias _ _ alias _ _), readable m alias) ring.
Definition readable_table (m : values) (j : SqlJoin) : Prop :=
  match j with
  | Join (table_alias_STATEMENT _ _ alias _ column_list) _ _ => readable m alias ∧ readable_list m column_list
  | _ => False
  end.
Definition readable_alias (m : values) (alias : SqlStatement) : Prop :=
  alias = null_STATEMENT ∨
  ∃ p t a u ring, alias = table_alias_STATEMENT p t a u (column_list_alias_STATEMENT ring) ∧ ring ≠ [] ∧
    Forall (λ '(ColumnListAlias _ _ alias _ _), readable m alias) ring.

Lemma text_of_name m alias t : alias_name m alias = Some t → is_null_stmt alias = false ∧ text_of m alias = Ret t.
Proof.
  destruct alias; cbn; try done. unfold value_at. destruct (m !! p) as [v|]; [|done]. cbn. by intros [= <-].
Qed.
(** The test both loops make. *)
Lemma alias_test m alias (P : list byte → bool) : readable m alias →
  (if is_null_stmt alias then Ret false else t ← text_of m alias; Ret (P t)) = Ret (default false (P <$> alias_name m alias)).
Proof.
  intros [->|[t Ht]]; [done|]. destruct (text_of_name _ _ _ Ht) as [-> ->]. by rewrite Ht.
Qed.
Lemma match_columns_spec m name ring : Forall (λ '(ColumnListAlias _ _ alias _ _), readable m alias) ring →
  ∀ passed, match_columns m name passed ring = Ret (default null_STATEMENT (head (named m (is_name name) passed ring))).
Proof.
  induction 1 as [|[p l alias k t] ring Hr HF IH]; intros passed; cbn [match_columns named]; [done|].
  rewrite (alias_test m alias (λ t, bool_decide (t = name))) by done. cbn [mbind outcome_bind cla_name].
  change (λ t0, bool_decide (t0 = name)) with (is_name name).
  destruct (default false _); [done|]. cbn [app]. apply IH.
Qed.
Lemma named_not_null m P ring passed : Forall (λ s, is_null_stmt s = false) (named m P passed ring).
Proof.
  revert passed. induction ring as [|c ring IH]; intros passed; cbn [named]; [constructor|].
  destruct (default false _); cbn [app]; [constructor; [done|]|]; apply IH.
Qed.
Lemma head_not_null m P ring passed :
  let c := default null_STATEMENT (head (named m P passed ring)) in
  is_null_stmt c = false ∧ head (named m P passed ring) = Some c ∨ is_null_stmt c = true ∧ head (named m P passed ring) = None.
Proof.
  pose proof (named_not_null m P ring passed) as HF. destruct (named m P passed ring); [by right|].
  left. by inversion HF.
Qed.
(** A column found in one table. *)
Lemma match_column_in_table_spec m name p t a u l c ty : readable_list m l →
  ∃ x, match_column_in_table m l name = Ret x ∧
    table_column m name (Join (table_alias_STATEMENT p t a u l) c ty) =
      if is_null_stmt x then None else Some (x, table_alias_STATEMENT p t a u l).
Proof.
  intros [->|(ring & -> & Hne & HF)]; [by exists null_STATEMENT|].
  exists (default null_STATEMENT (head (named m (is_name name) [] ring))).
  unfold match_column_in_table, unpack_column_list_alias. cbn [is_null_stmt]. destruct ring as [|c0 ring]; [done|].
  cbn [mbind outcome_bind]. rewrite (match_columns_spec _ _ _ HF). split; [done|]. unfold table_column.
  by destruct (head_not_null m (is_name name) (c0 :: ring) []) as [[-> ->]|[-> ->]].
Qed.

(** ** The loops *)
Definition warned (s : qualifier) (ws : list (ERROR * list byte)) : qualifier :=
  {| qf_values := qf_values s; qf_next := qf_next s; qf_warnings := qf_warnings s ++ ws |}.
Lemma warned_nil s : warned s [] = s.
Proof. destruct s. unfold warned. by rewrite app_nil_r. Qed.
Lemma warned_app s a b : warned (warned s a) b = warned s (a ++ b).
Proof. unfold warned. cbn. by rewrite app_assoc. Qed.
Lemma bind_n {A B} (x : N A) (f : A → N B) s a s' : x s = Ret (a, s') → (x ≫= f) s = f a s'.
Proof. unfold mbind, N_bind. by intros ->. Qed.
Lemma bind_lift_n {A B} (o : outcome A) (f : A → N B) s a : o = Ret a → (lift_n o ≫= f) s = f a s.
Proof. intros ->. done. Qed.
Lemma bind_values_n {B} (f : values → N B) s : (values_n ≫= f) s = f (qf_values s) s.
Proof. done. Qed.
Lemma bind_warn {B} e arg (f : () → N B) s : (warn e arg ≫= f) s = f () (warned s [(e, arg)]).
Proof. done. Qed.
Lemma bind_ret_n {A B} (a : A) (f : A → N B) s : (mret a ≫= f) s = f a s.
Proof. done. Qed.

Lemma search_qualified tn cn s tables : Forall (readable_table (qf_values s)) tables →
  search_tables (Some tn) cn None tables s =
    Ret ('(_, j) ← list_find (λ j, table_alias_name (qf_values s) j = Some tn) tables; table_column (qf_values s) cn j, s).
Proof.
  induction 1 as [|[value cond ty] tables Hr HF IH]; [done|]. destruct value; try done. destruct Hr as [Ha Hl].
  cbn [search_tables unpack_table_alias list_find table_alias_name].
  rewrite (bind_lift_n _ _ _ _ eq_refl), bind_values_n.
  erewrite bind_lift_n; [|by apply (alias_test _ _ (λ t, bool_decide (t = tn)))].
  destruct (alias_name _ _) as [t|]; cbn [fmap option_fmap option_map default from_option].
  - case_bool_decide as Ht; [subst t; rewrite decide_True by done|rewrite decide_False by congruence]; cbn [id].
    + destruct (match_column_in_table_spec (qf_values s) cn p value1 value2 unique_id value3 cond ty Hl) as (x & Hx & Ht).
      erewrite bind_lift_n by exact Hx. cbn [mbind option_bind]. by rewrite Ht.
    + rewrite IH. by destruct (list_find _ tables) as [[]|].
  - rewrite decide_False by done. rewrite IH. by destruct (list_find _ tables) as [[]|].
Qed.
(** What is found first is kept; every other candidate is warned of. *)
Lemma search_unqualified cn tables : ∀ s column, Forall (readable_table (qf_values s)) tables →
  search_tables None cn column tables s =
    Ret (head (option_list column ++ candidates (qf_values s) cn tables),
         warned s (ambiguities cn (option_list column ++ candidates (qf_values s) cn tables))).
Proof.
  induction tables as [|[value cond ty] tables IH]; intros s column HF.
  { cbn. unfold mret, N_ret. destruct column; cbn; by rewrite warned_nil. }
  apply Forall_cons_1 in HF as [Hr HF]. destruct value; try done. destruct Hr as [Ha Hl].
  cbn [search_tables unpack_table_alias].
  rewrite (bind_lift_n _ _ _ _ eq_refl), bind_values_n.
  destruct (match_column_in_table_spec (qf_values s) cn p value1 value2 unique_id value3 cond ty Hl) as (x & Hx & Ht).
  erewrite bind_lift_n by exact Hx. unfold candidates. cbn [omap list_omap]. rewrite Ht.
  destruct (is_null_stmt x); [by rewrite IH|].
  destruct column as [c|]; [rewrite bind_warn|]; rewrite IH by done; cbn [option_list app head]; [|done].
  rewrite warned_app. cbn. by rewrite !Nat.sub_0_r.
Qed.
Lemma search_select_list_spec cn table_alias ring : ∀ s column passed,
  Forall (λ '(ColumnListAlias _ _ alias _ _), readable (qf_values s) alias) ring →
  let found := option_list column ++ ((λ c, (c, table_alias)) <$> named (qf_values s) (starts_with cn) passed ring) in
  search_select_list cn table_alias column passed ring s = Ret (head found, warned s (ambiguities cn found)).
Proof.
  induction ring as [|[p l alias k t] ring IH]; intros s column passed HF; cbn [search_select_list named].
  { cbn. unfold mret, N_ret. destruct column; cbn; by rewrite warned_nil. }
  apply Forall_cons_1 in HF as [Hr HF].
  rewrite bind_values_n. erewrite bind_lift_n; [|by apply (alias_test _ _ (λ t, bool_decide (take (length cn) t = cn)))].
  change (λ t0, bool_decide (take (length cn) t0 = cn)) with (starts_with cn). cbn [cla_name].
  destruct (default false _); cbn [app]; [|by rewrite IH].
  destruct column as [c|]; [rewrite bind_warn|]; rewrite IH by done; cbn [option_list app head fmap list_fmap]; [|done].
  rewrite warned_app. cbn. by rewrite !Nat.sub_0_r.
Qed.

Lemma search_alias name alias s : readable_alias (qf_values s) alias →
  (if is_null_stmt alias then mret None
   else '(_, column_list) ← lift_n (unpack_table_alias alias);
        ring ← lift_n (unpack_column_list_alias column_list); search_select_list name alias None [] ring) s =
    Ret (head (select_candidates (qf_values s) name alias), warned s (ambiguities name (select_candidates (qf_values s) name alias))).
Proof.
  intros [->|(p & t & al & u & ring & -> & Hne & HR)]; [cbn; by rewrite warned_nil|].
  destruct ring as [|r ring]; [done|].
  exact (search_select_list_spec name (table_alias_STATEMENT p t al u (column_list_alias_STATEMENT (r :: ring))) (r :: ring) s None [] HR).
Qed.

(** The result of resolving a name, as the code returns it. *)
Definition resolved_as (s : qualifier) (found : option (SqlStatement * SqlStatement)) (ws : list (ERROR * list byte))
    : option SqlStatement * qualifier :=
  match found with
  | Some (c, a) =>
      (Some (column_alias_STATEMENT (qf_next s) c a),
       {| qf_values := qf_values s; qf_next := qf_next s + 1; qf_warnings := qf_warnings s ++ ws |})
  | None => (None, warned s ws)
  end.
(** [qualify_column_name] computes [resolve] and gives exactly the warnings
    [resolve_warnings]: a name [t.c] means the column [c] of the first table with alias [t],
    another name the first candidate among the tables or, if there is none, in the select
    list; each other candidate of the same kind gives the warning of an ambiguous name, and a
    name with no candidate the one of an unknown column and no result. *)
Lemma qualify_column_name_spec v tables alias s :
  sv_type v = COLUMN_REFERENCE → Forall (readable_table (qf_values s)) tables → readable_alias (qf_values s) alias →
  let name := cstr (sv_literal v) in
  qualify_column_name v tables alias s =
    Ret (resolved_as s (resolve (qf_values s) name tables alias) (resolve_warnings (qf_values s) name tables alias)).
Proof.
  intros Ht HF Ha name. unfold qualify_column_name. rewrite Ht, (bind_lift_n _ _ _ () eq_refl). fold name.
  unfold resolve_warnings, resolve. destruct (split_period name) as [[tn cn]|].
  - erewrite bind_n by by apply search_qualified.
    destruct (list_find _ tables) as [[i j]|]; [|done]. cbn [mbind option_bind].
    destruct (table_column _ _ j) as [[c a]|]; cbn; [|done]. unfold new_ptr. by rewrite app_nil_r.
  - erewrite bind_n by by apply search_unqualified. cbn [option_list app].
    destruct (candidates _ _ tables) as [|[c a] l]; cbn [head].
    2:{ done. }
    unfold ambiguities at 1. cbn [option_list option_rect app head length Nat.sub replicate]. rewrite warned_nil.
    erewrite bind_n by by apply search_alias.
    destruct (select_candidates _ _ alias) as [|[c a] l]; [|done].
    change (ambiguities name []) with (@nil (ERROR * list byte)). by rewrite warned_nil.
Qed.
