(* ===== verification/QualifyQuery.v ===== *)
(** * Qualifying a whole query

    [qualify_query] on a query as the parser builds it ([parsed]): it returns, with fuel twice
    the depth of the query; it refuses the query exactly if one of its warnings is that of an
    unknown column or function; and otherwise no column reference is left in it.  The ELSE of a
    CASE is never gone into ([else_kept]); the queries here have none. *)
From stdpp Require Import gmap strings.
From S2P Require Import Prelude CMem Errors LogicalPlan SqlStatement HashTheorems Session SessionTheorems Qualify QualifyTheorems.

(** ** Statements *)
Definition types_of (m : values) : gmap ptr SqlValueType := sv_type <$> m.
(** The statements [qualify_statement] and [qualify_query] go on to. *)
Definition item (c : SqlColumnListAlias) : SqlStatement := match c with ColumnListAlias _ l _ _ _ => l end.
Definition visited (m : values) (stmt : SqlStatement) : list SqlStatement :=
  match stmt with
  | value_STATEMENT p v =>
      match types_of m !! p with Some CALCULATED_VALUE | Some COERCE_TYPE => [v] | _ => [] end
  | binary_STATEMENT _ a b | set_operation_STATEMENT _ a b | cas_STATEMENT a b _ => [a; b]
  | unary_STATEMENT _ a => [a]
  | function_call_STATEMENT f (column_list_STATEMENT ring) => f :: ring
  | cas_branch_STATEMENT ring => ring ≫= branch_children
  | column_list_STATEMENT ring => ring
  | column_list_alias_STATEMENT ring => item <$> ring
  | table_alias_STATEMENT _ (select_STATEMENT select_list (join_STATEMENT ring) where_expression order_expression _ _) _ _ _ =>
      (ring ≫= join_children) ++ [select_list; where_expression; order_expression]
  | _ => []
  end.
Definition is_query (stmt : SqlStatement) : bool :=
  match stmt with table_alias_STATEMENT _ _ _ _ _ | set_operation_STATEMENT _ _ _ => true | _ => false end.

(** What the parser builds: the tables of a query have names that can be read, the select list
    of a query is the column list of its alias, columns that are resolved already (those
    of a select list of all columns) have a column, and no CASE has an ELSE. *)
Definition parsed_here (m : values) (stmt : SqlStatement) : Prop :=
  match stmt with
  | null_STATEMENT | table_STATEMENT _ _ _ _ _ | binary_STATEMENT _ _ _ | unary_STATEMENT _ _ => True
  | cas_STATEMENT _ _ optional_else => optional_else = null_STATEMENT
  | value_STATEMENT p _ => is_Some (m !! p)
  | column_alias_STATEMENT _ c _ => c ≠ null_STATEMENT
  | function_call_STATEMENT _ parameters => ∃ ring, parameters = column_list_STATEMENT ring
  | cas_branch_STATEMENT ring => ring ≠ []
  | column_list_STATEMENT ring => ring ≠ []
  | column_list_alias_STATEMENT ring => ring ≠ [] ∧ Forall (λ '(ColumnListAlias _ _ alias _ _), readable m alias) ring
  | table_alias_STATEMENT _ (table_STATEMENT _ _ _ _ _) _ _ _ => True
  | table_alias_STATEMENT _ (select_STATEMENT select_list (join_STATEMENT ring) _ _ _ _) _ _ column_list =>
      ring ≠ [] ∧ Forall (readable_table m) ring ∧ column_list = select_list ∧
      ∃ items, select_list = column_list_alias_STATEMENT items
  | set_operation_STATEMENT _ a b => is_query a = true ∧ is_query b = true
  | _ => False
  end.
#[local] Set Warnings "-register-all".
Inductive parsed (m : values) : nat → SqlStatement → Prop :=
  | parsed_node n stmt : parsed_here m stmt → Forall (parsed m n) (visited m stmt) → parsed m (S n) stmt.
(** No reference is left anywhere. *)
Definition settled_here (m : values) (stmt : SqlStatement) : Prop :=
  match stmt with
  | cas_STATEMENT _ _ optional_else => optional_else = null_STATEMENT
  | value_STATEMENT p _ => types_of m !! p ≠ Some COLUMN_REFERENCE
  | column_alias_STATEMENT _ c _ => c ≠ null_STATEMENT
  | _ => True
  end.
Inductive settled (m : values) : SqlStatement → Prop :=
  | settled_node stmt : settled_here m stmt → Forall (settled m) (visited m stmt) → settled m stmt.
(** What a rewritten statement has in common with the one it was. *)
Definition same_name (c c' : SqlColumnListAlias) : Prop :=
  match c, c' with ColumnListAlias _ _ a _ _, ColumnListAlias _ _ a' _ _ => a = a' end.
Definition keeps (m : values) (stmt stmt' : SqlStatement) : Prop :=
  match stmt with
  | column_list_alias_STATEMENT ring => ∃ ring', stmt' = column_list_alias_STATEMENT ring' ∧ Forall2 same_name ring ring'
  | table_alias_STATEMENT p _ a u l =>
      ∃ t' l', stmt' = table_alias_STATEMENT p t' a u l' ∧ (readable_list m l → readable_list m l')
  | _ => True
  end.

(** ** Readability depends on the types of the values only *)
Section same.
Context (m m' : values) (Heq : types_of m = types_of m').
Lemma lookup_same p : is_Some (m !! p) ↔ is_Some (m' !! p).
Proof using Heq.
  transitivity (is_Some (types_of m !! p)); [|rewrite Heq]; unfold types_of; rewrite lookup_fmap, fmap_is_Some; done.
Qed.
Lemma readable_same alias : readable m alias → readable m' alias.
Proof using Heq.
  intros [->|Hs]; [by left|right]. destruct alias; cbn in *; try by destruct Hs.
  rewrite fmap_is_Some in *. by apply lookup_same.
Qed.
Lemma readable_ring_same ring : Forall (λ '(ColumnListAlias _ _ alias _ _), readable m alias) ring →
  Forall (λ '(ColumnListAlias _ _ alias _ _), readable m' alias) ring.
Proof using Heq. apply Forall_impl. intros []. apply readable_same. Qed.
Lemma readable_list_same l : readable_list m l → readable_list m' l.
Proof using Heq.
  intros [->|(ring & -> & Hne & HF)]; [by left|right]. exists ring. split_and!; [done..|by apply readable_ring_same].
Qed.
Lemma readable_table_same j : readable_table m j → readable_table m' j.
Proof using Heq.
  destruct j as [[] ? ?]; try done. intros [Ha Hl]. split; [by apply readable_same|by apply readable_list_same].
Qed.
Lemma readable_alias_same alias : readable_alias m alias → readable_alias m' alias.
Proof using Heq.
  intros [->|(p & t & a & u & ring & -> & Hne & HF)]; [by left|right]. exists p, t, a, u, ring.
  split_and!; [done..|by apply readable_ring_same].
Qed.
End same.
Lemma same_names_readable m ring ring' : Forall2 same_name ring ring' → ring ≠ [] →
  Forall (λ '(ColumnListAlias _ _ alias _ _), readable m alias) ring →
  ring' ≠ [] ∧ Forall (λ '(ColumnListAlias _ _ alias _ _), readable m alias) ring'.
Proof.
  intros H2 Hne HF. split; [by inversion H2; subst|]. clear Hne.
  induction H2 as [|[] [] ? ? Hs H2 IH]; [done|]. apply Forall_cons_1 in HF as [Hr HF]. cbn in Hs. subst.
  by constructor; [|apply IH].
Qed.

(** ** What a part of the rewriting achieves *)
(** A warning that refuses the query. *)
Definition refuses (w : ERROR * list byte) : bool :=
  match w.1 with ERR_UNKNOWN_COLUMN_NAME | CUSTOM_ERROR => true | _ => false end.

Section achieves.
Context (m : values).
(** It returns; [r0] was the result before it: the result is true if that is or if a warning
    says so.  [K] holds of what is returned, and [D] if the result is false. *)
Definition achieves {A} (r0 : bool) (x : N (bool * A)) (K D : A → Prop) : Prop :=
  ∀ s, types_of m = types_of (qf_values s) →
  ∃ r a s' ws, x s = Ret (r, a, s') ∧ types_of m = types_of (qf_values s') ∧
    qf_warnings s' = qf_warnings s ++ ws ∧ r = r0 || existsb refuses ws ∧ K a ∧ (r = false → D a).

Lemma achieves_ret {A} r (a : A) (K D : A → Prop) : K a → (r = false → D a) → achieves r (mret (r, a)) K D.
Proof. intros HK HD s Hs. exists r, a, s, []. rewrite app_nil_r, orb_false_r. done. Qed.
Lemma achieves_bind {A B} r0 (x : N (bool * A)) (f : bool * A → N (bool * B)) K D K' D' :
  achieves false x K D → (∀ r a, K a → (r = false → D a) → achieves (r0 || r) (f (r, a)) K' D') →
  achieves r0 (x ≫= f) K' D'.
Proof.
  intros Hx Hf s Hs. destruct (Hx s Hs) as (r & a & s1 & ws1 & Hx1 & Hs1 & Hw1 & Hr & HK & HD).
  destruct (Hf r a HK HD s1 Hs1) as (r' & b & s2 & ws2 & Hf2 & Hs2 & Hw2 & Hr' & HK' & HD').
  exists r', b, s2, (ws1 ++ ws2). rewrite (bind_n _ _ _ _ _ Hx1). split_and!; [done..| | |done|done].
  - by rewrite Hw2, Hw1, app_assoc.
  - rewrite existsb_app, Hr', Hr. cbn. by rewrite orb_assoc.
Qed.
Lemma achieves_weaken {A} r0 (x : N (bool * A)) (K D K' D' : A → Prop) :
  achieves r0 x K D → (∀ a, K a → K' a) → (∀ a, K a → D a → D' a) → achieves r0 x K' D'.
Proof.
  intros Hx HK HD s Hs. destruct (Hx s Hs) as (r & a & s' & ws & ? & ? & ? & ? & ? & ?).
  exists r, a, s', ws. naive_solver.
Qed.
Lemma achieves_ring {A} (f : A → N (bool * A)) (K : A → A → Prop) (D : A → Prop) l :
  Forall (λ x, achieves false (f x) (K x) D) l → achieves false (rewrite_ring f l) (Forall2 K l) (Forall D).
Proof.
  induction 1 as [|x l Hx HF IH]; cbn [rewrite_ring].
  { apply achieves_ret; [constructor|constructor]. }
  eapply achieves_bind; [exact Hx|]. intros r x' HK HD.
  eapply achieves_bind; [exact IH|]. intros r' l' HK' HD'.
  cbn [orb]. apply achieves_ret; [by constructor|]. intros [-> ->]%orb_false_iff. constructor; auto.
Qed.
Lemma achieves_do_ring {A} (f : A → N (bool * A)) (K : A → A → Prop) (D : A → Prop) l : l ≠ [] →
  Forall (λ x, achieves false (f x) (K x) D) l → achieves false (rewrite_do_ring f l) (Forall2 K l) (Forall D).
Proof. intros Hne HF. destruct l; [done|]. by apply achieves_ring. Qed.
End achieves.

(** ** The names *)
Lemma candidate_not_null m P passed ring c : c ∈ named m P passed ring → c ≠ null_STATEMENT.
Proof. intros Hc. pose proof (named_not_null m P ring passed) as HF. rewrite list.Forall_forall in HF. apply HF in Hc. by destruct c. Qed.
Lemma table_column_not_null m name j c a : table_column m name j = Some (c, a) → c ≠ null_STATEMENT.
Proof.
  destruct j as [v ? ?]. destruct v; try done. cbn [table_column]. case_match; try done.
  intros (c' & Hc & [= -> ->])%fmap_Some_1. destruct (named _ _ _ _) as [|x l] eqn:E; [done|]. injection Hc as ->.
  eapply (candidate_not_null m (is_name name) []). rewrite E. left.
Qed.
Lemma resolve_not_null m name tables alias c a : resolve m name tables alias = Some (c, a) → c ≠ null_STATEMENT.
Proof.
  unfold resolve. destruct (split_period name) as [[t cn]|].
  - destruct (list_find _ _) as [[i j]|]; [|done]. apply table_column_not_null.
  - unfold candidates. destruct (omap _ tables) as [|x l] eqn:E; cbn [app].
    + destruct alias; try done. cbn [select_candidates]. case_match; try done. intros Hh.
      destruct (named _ _ _ _) as [|y l'] eqn:E'; [done|]. injection Hh as -> _.
      eapply (candidate_not_null m (starts_with name) []). rewrite E'. left.
    + intros [= ->]. assert (Hx : (c, a) ∈ omap (table_column m name) tables) by (rewrite E; left).
      apply list_elem_of_omap in Hx as (j & _ & Hj). by eapply table_column_not_null.
Qed.
Lemma ambiguities_refuse {A} name (l : list A) : existsb refuses (ambiguities name l) = false.
Proof. unfold ambiguities. induction (length l - 1)%nat; done. Qed.
Lemma resolve_warnings_refuse m name tables alias :
  existsb refuses (resolve_warnings m name tables alias) = match resolve m name tables alias with Some _ => false | None => true end.
Proof.
  unfold resolve_warnings. destruct (split_period name) as [[t cn]|] eqn:E; [by destruct (resolve _ _ _ _)|].
  unfold resolve. rewrite E. destruct (candidates m name tables); cbn [app head].
  - by destruct (select_candidates m name alias); [|apply ambiguities_refuse].
  - apply ambiguities_refuse.
Qed.

Section query.
Context `{YottaDB} (octo_global : list byte) (d : db).
Context (m : values).
(** The nodes of the functions can be read. *)
Definition functions_readable : Prop := ∀ name,
  match ydb_get_s d [octo_global; lit "functions"; name] MAX_STR_CONST with
  | (YDB_OK, new_name) => zlen new_name < MAX_STR_CONST
  | (status, _) => status = YDB_ERR_GVUNDEF
  end.
Context (Hfun : functions_readable).

Lemma settled_column p c a : c ≠ null_STATEMENT → settled m (column_alias_STATEMENT p c a).
Proof. constructor; [done|constructor]. Qed.
Lemma achieves_reference tables alias v :
  sv_type v = COLUMN_REFERENCE → Forall (readable_table m) tables → readable_alias m alias →
  achieves m false
    (c ← qualify_column_name v tables alias;
     mret (match c with Some c => (false, c) | None => (true, column_alias_STATEMENT null null_STATEMENT null_STATEMENT) end))
    (λ _, True) (settled m).
Proof using.
  intros Ht HF Ha s Hs.
  assert (HF' : Forall (readable_table (qf_values s)) tables).
  { eapply Forall_impl; [|exact HF]. intros j. by apply readable_table_same. }
  pose proof (qualify_column_name_spec v tables alias s Ht HF' (readable_alias_same _ _ Hs _ Ha)) as Hq. cbn zeta in Hq.
  set (name := cstr _) in Hq. set (ws := resolve_warnings (qf_values s) name tables alias) in Hq.
  pose proof (resolve_warnings_refuse (qf_values s) name tables alias) as Hw.
  destruct (resolve _ _ _ _) as [[c a]|] eqn:E; cbn [resolved_as] in Hq; rewrite (bind_n _ _ _ _ _ Hq);
    do 3 eexists; exists ws; split_and!; try done.
  intros _. eapply settled_column, resolve_not_null, E.
Qed.
Lemma types_of_insert p v v' (m0 : values) : m0 !! p = Some v → sv_type v' = sv_type v → types_of (<[p := v']> m0) = types_of m0.
Proof using. intros Hp Ht. unfold types_of. rewrite fmap_insert, Ht. apply insert_id. by rewrite lookup_fmap, Hp. Qed.
Lemma achieves_function p v : types_of m !! p = Some FUNCTION_NAME →
  achieves m false (r ← qualify_function_name octo_global d p; mret (r, value_STATEMENT p v)) (λ _, True) (settled m).
Proof using Hfun.
  intros Hp s Hs. assert (Hset : settled m (value_STATEMENT p v)) by (constructor; cbn; rewrite Hp; done).
  rewrite Hs in Hp. unfold types_of in Hp. rewrite lookup_fmap in Hp. apply fmap_Some in Hp as (value & Hv & Ht).
  cut (∃ r s' ws, qualify_function_name octo_global d p s = Ret (r, s') ∧ types_of m = types_of (qf_values s') ∧
    qf_warnings s' = qf_warnings s ++ ws ∧ r = existsb refuses ws).
  { intros (r & s' & ws & Hq & ? & ? & ?). rewrite (bind_n _ _ _ _ _ Hq). exists r, (value_STATEMENT p v), s', ws. done. }
  unfold qualify_function_name. rewrite bind_values_n, (bind_lift_n _ _ _ value) by (unfold value_at; by rewrite Hv).
  destruct (_ && _); [exists false, s, []; by rewrite app_nil_r|].
  pose proof (Hfun (cstr (sv_literal value))) as Hg. destruct (ydb_get_s _ _ _) as [[] new_name]; try done; cbn [decide].
  - rewrite decide_False by done. do 2 eexists. exists [].
    rewrite (bind_lift_n _ _ _ ()) by done. rewrite (proj2 (Z.ltb_lt _ _) Hg), (bind_lift_n _ _ _ ()) by done.
    split_and!; [done| |by rewrite app_nil_r|done]. cbn. by erewrite types_of_insert.
  - rewrite decide_True by done. exists true. do 2 eexists. split_and!; [done..|]. done.
Qed.

(** ** One level *)
Definition statement_ok (n : nat) (statement : list SqlJoin → SqlStatement → SqlStatement → N (bool * SqlStatement)) : Prop :=
  ∀ tables alias stmt, Forall (readable_table m) tables → readable_alias m alias → parsed m n stmt →
  achieves m false (statement tables alias stmt) (keeps m stmt) (settled m).
Definition query_ok (n : nat) (query : list SqlJoin → SqlStatement → N (bool * SqlStatement)) : Prop :=
  ∀ parent stmt, Forall (readable_table m) parent → is_query stmt = true → parsed m n stmt →
  achieves m false (query parent stmt) (keeps m stmt) (settled m).

Section step.
Context (n : nat) (statement : list SqlJoin → SqlStatement → SqlStatement → N (bool * SqlStatement)).
Context (query : list SqlJoin → SqlStatement → N (bool * SqlStatement)).
Context (HS : statement_ok n statement) (HQ : query_ok n query).

Section body.
Context (tables : list SqlJoin) (alias : SqlStatement).
Context (Ht : Forall (readable_table m) tables) (Ha : readable_alias m alias).
Lemma achieves_value p v : parsed m (S n) (value_STATEMENT p v) →
  achieves m false (qualify_value octo_global d statement tables alias p v) (λ _, True) (settled m).
Proof using Hfun HS Ht Ha.
  intros Hp. inversion Hp as [? ? Hh Hc]; subst. intros s Hs.
  cbn in Hh. destruct (proj1 (lookup_same _ _ Hs p) Hh) as [value Hv].
  assert (Hty : types_of m !! p = Some (sv_type value)) by (rewrite Hs; unfold types_of; by rewrite lookup_fmap, Hv).
  assert (Hval : ∀ v', sv_type value ≠ COLUMN_REFERENCE → (Forall (settled m) (visited m (value_STATEMENT p v'))) → settled m (value_STATEMENT p v')).
  { intros v' Hne HF. constructor; [cbn; rewrite Hty; congruence|done]. }
  unfold qualify_value. rewrite bind_values_n, (bind_lift_n _ _ _ value) by (unfold value_at; by rewrite Hv).
  cbn [visited] in Hc, Hval. rewrite Hty in Hc, Hval.
  assert (Hcalc : Forall (parsed m n) [v] → (∀ v', settled m v' → settled m (value_STATEMENT p v')) →
    achieves m false ('(r, v) ← statement tables alias v; mret (r, value_STATEMENT p v)) (λ _, True) (settled m)).
  { intros HF%Forall_cons_1 Hv'. eapply achieves_bind; [apply HS; [done..|apply HF]|]. intros r v' _ HD. apply achieves_ret; auto. }
  destruct (sv_type value) eqn:Et;
    try exact (achieves_ret m false _ (λ _, True) (settled m) I (λ _, Hval v ltac:(done) (Forall_nil_2 _)) s Hs).
  - exact (achieves_reference tables alias value Et Ht Ha s Hs).
  - refine (Hcalc Hc _ s Hs). intros v' Hv'. apply Hval; [done|]. by constructor.
  - exact (achieves_function p v Hty s Hs).
  - refine (Hcalc Hc _ s Hs). intros v' Hv'. apply Hval; [done|]. by constructor.
Qed.
Lemma settled_two f a b : (∀ x y, visited m (f x y) = [x; y]) → (∀ x y, settled_here m (f x y)) →
  settled m a → settled m b → settled m (f a b : SqlStatement).
Proof using. intros Hv Hh Ha' Hb. constructor; [apply Hh|]. rewrite Hv. constructor; [done|]. by constructor. Qed.
(** Two statements, one behind the other. *)
Lemma achieves_two {B} (f : SqlStatement → SqlStatement → B) (K D : B → Prop) a b :
  parsed m n a → parsed m n b → (∀ x y, K (f x y)) → (∀ x y, settled m x → settled m y → D (f x y)) →
  achieves m false ('(r, a) ← statement tables alias a; '(r', b) ← statement tables alias b; mret (r || r', f a b)) K D.
Proof using HS Ht Ha.
  intros Hpa Hpb HK HD. eapply achieves_bind; [by apply HS|]. intros r a' _ Hra.
  eapply achieves_bind; [by apply HS|]. intros r' b' _ Hrb. cbn [orb].
  apply achieves_ret; [done|]. intros [-> ->]%orb_false_iff. auto.
Qed.
Lemma achieves_items ring : Forall (parsed m n) ring →
  Forall (λ x, achieves m false (statement tables alias x) (λ _, True) (settled m)) ring.
Proof using HS Ht Ha. apply Forall_impl. intros x Hx. eapply achieves_weaken; [by apply HS|done|done]. Qed.
Lemma body_step stmt : is_query stmt = false → parsed m (S n) stmt →
  achieves m false (qualify_body octo_global d statement query tables alias stmt) (keeps m stmt) (settled m).
Proof using Hfun HS Ht Ha.
  intros Hq Hp. inversion Hp as [? ? Hh Hc]; subst. destruct stmt; try done; cbn [qualify_body keeps].
  - apply achieves_ret; [done|]. by repeat constructor.
  - apply achieves_ret; [done|]. by repeat constructor.
  - by apply achieves_value.
  - destruct Hh as [ring ->]. cbn [visited] in Hc. apply Forall_cons_1 in Hc as [Hf Hr].
    eapply achieves_bind; [by apply HS|]. intros r f' _ Hrf.
    eapply achieves_bind; [by apply (achieves_ring m _ (λ _ _, True)), achieves_items|]. intros r' ring' _ Hrr. cbn [orb].
    apply achieves_ret; [done|]. intros [-> ->]%orb_false_iff. constructor; [done|]. cbn. constructor; auto.
  - cbn in Hc. apply Forall_cons_1 in Hc as [Ha' [Hb _]%Forall_cons_1]. apply achieves_two; [done..|].
    intros. by apply settled_two.
  - cbn in Hc. apply Forall_cons_1 in Hc as [Ha' _]. eapply achieves_bind; [by apply HS|]. intros r a' _ Hra. cbn [orb].
    apply achieves_ret; [done|]. intros ->. constructor; [done|]. cbn. by constructor; [apply Hra|].
  - eapply achieves_bind; [by apply (achieves_do_ring m _ (λ _ _, True)), achieves_items|].
    intros r ring' _ Hr. apply achieves_ret; [done|]. intros ->. constructor; [done|by apply Hr].
  - destruct Hh as [Hne _]. eapply achieves_bind.
    { apply (achieves_do_ring m _ same_name (λ c, settled m (item c))); [done|]. cbn [visited] in Hc. rewrite Forall_fmap in Hc.
      eapply Forall_impl; [|exact Hc]. intros [p l a k t] Hl. eapply achieves_bind; [by apply HS|].
      intros r l' _ Hr. by apply achieves_ret. }
    intros r ring' HK HD. apply achieves_ret; [by exists ring'|]. intros Hr. constructor; [done|]. cbn. apply Forall_fmap. by apply HD.
  - apply achieves_ret; [done|]. constructor; [done|constructor].
  - cbn in Hc. apply Forall_cons_1 in Hc as [Ha' [Hb _]%Forall_cons_1].
    cbn in Hh. subst stmt3. apply (achieves_two (λ a b, cas_STATEMENT a b null_STATEMENT)); [done..|].
    intros x y. by apply (settled_two (λ a b, cas_STATEMENT a b null_STATEMENT)).
  - eapply achieves_bind.
    { apply (achieves_do_ring m _ (λ _ _, True) (λ b, Forall (settled m) (branch_children b))); [done|].
      cbn [visited] in Hc. apply Forall_bind_children in Hc.
      eapply Forall_impl; [|exact Hc]. intros [c v] [Hpc [Hpv _]%Forall_cons_1]%Forall_cons_1.
      apply achieves_two; [done..|]. intros x y Hx Hy. by repeat apply Forall_cons_2. }
    intros r ring' _ HD. apply achieves_ret; [done|]. intros Hr. constructor; [done|]. cbn. apply Forall_bind. by apply HD.
Qed.
End body.

(** The joins of a query, behind those that are done. *)
Lemma achieves_joins parent alias joins : readable_alias m alias → Forall (readable_table m) parent →
  ∀ done_, Forall (readable_table m) done_ → Forall (readable_table m) joins → Forall (parsed m n) (joins ≫= join_children) →
  achieves m false (qualify_joins statement query parent alias done_ joins)
    (λ all, ∃ joins', all = done_ ++ joins' ∧ Forall (readable_table m) joins' ∧ length joins' = length joins)
    (λ all, ∀ joins', all = done_ ++ joins' → Forall (settled m) (joins' ≫= join_children)).
Proof using HS HQ.
  intros Ha Hpar. induction joins as [|[value condition type] joins IH]; intros done_ Hd Hj Hp; cbn [qualify_joins].
  { apply achieves_ret; [exists []; by rewrite app_nil_r|]. intros _ joins' Hj'. rewrite <- (app_nil_r done_) in Hj' at 1. apply app_inv_head in Hj' as <-. constructor. }
  apply Forall_cons_1 in Hj as [Hr Hj]. cbn in Hp. apply Forall_cons_1 in Hp as [Hv [Hc Hp]%Forall_cons_1].
  assert (Hr' : ∀ v', keeps m value v' → readable_table m (Join v' condition type)).
  { intros v' HK. destruct value; try done. destruct HK as (t' & l' & -> & Hl). destruct Hr. split; auto. }
  eapply achieves_bind.
  { apply HQ; [|by destruct value|done]. apply Forall_app; split; [done|]. apply Forall_app; split; [|done]. by constructor. }
  intros r1 v' HK1 HD1. specialize (Hr' v' HK1).
  eapply achieves_bind.
  { apply HS; [|done|done]. apply Forall_app; split; [done|]. constructor; [done|]. by apply Forall_app. }
  intros r2 c' _ HD2.
  eapply achieves_bind.
  { apply IH; [|done|done]. apply Forall_app; split; [done|]. by constructor; [|constructor]. }
  intros r3 all (js & -> & Hjs & Hlen) HD3. cbn [orb]. rewrite <- app_assoc in *. cbn [app] in *. apply achieves_ret.
  - exists (Join v' c' type :: js). split_and!; [done|by constructor|cbn; lia].
  - intros [[-> ->]%orb_false_iff ->]%orb_false_iff joins' <-%app_inv_head. cbn. constructor; [auto|]. constructor; auto.
    apply HD3; [done|]. by rewrite <- app_assoc.
Qed.
Lemma query_step parent stmt : Forall (readable_table m) parent → is_query stmt = true → parsed m (S n) stmt →
  achieves m false (qualify_query_body statement query parent stmt) (keeps m stmt) (settled m).
Proof using HS HQ.
  intros Hpar Hq Hp. inversion Hp as [? ? Hh Hc]; subst. destruct stmt as [| | | | | | | | | | | | | | | | | |p t a u l| | | | | | | | | |]; try done; cbn [qualify_query_body].
  - destruct t as [| |select_list table_list w o words so| | | | | | | | | | | | | | | | | | | | | | | | | |]; try done.
    { apply achieves_ret; [by exists (table_STATEMENT p0 t1 t2 columns t3), l|]. by repeat constructor. }
    destruct table_list as [| | | | | | | | | | |ring| | | | | | | | | | | | | | | | |]; try done.
    destruct Hh as (Hne & Hring & -> & items & ->). destruct ring as [|j ring]; [done|].
    cbn [visited] in Hc. apply Forall_app in Hc as [Hjs [Hsl [Hw [Ho _]%Forall_cons_1]%Forall_cons_1]%Forall_cons_1].
    set (stmt := table_alias_STATEMENT _ _ _ _ _).
    assert (Halias : readable_alias m stmt).
    { inversion Hsl as [n0 st0 Hit Hit0 Hn0 Hst0]. destruct Hit as [Hne' HF]. right. eexists _, _, _, _, items. by split_and!. }
    eapply achieves_bind; [by apply achieves_joins|]. intros r1 joins (js & -> & Hjoins & Hlen) HD1. cbn [app orb] in *.
    assert (Htab : Forall (readable_table m) (js ++ parent)) by by apply Forall_app.
    eapply achieves_bind; [by apply HS|]. intros r2 sl' (items' & -> & Hsame) HD2.
    eapply achieves_bind; [by apply HS|]. intros r3 w' _ HD3.
    eapply achieves_bind; [by apply HS|]. intros r4 o' _ HD4.
    apply achieves_ret.
    + eexists _, _. split; [done|]. intros [?|(r & [= <-] & Hn & HF)]; [done|]. right. exists items'.
      destruct (same_names_readable m _ _ Hsame Hn HF). by split_and!.
    + intros [[[-> ->]%orb_false_iff ->]%orb_false_iff ->]%orb_false_iff. constructor; [done|]. cbn [visited].
      apply Forall_app; split; [by apply HD1|]. repeat apply Forall_cons_2; auto.
  - destruct Hh as [Hqa Hqb]. cbn in Hc. apply Forall_cons_1 in Hc as [Ha [Hb _]%Forall_cons_1].
    eapply achieves_bind; [by apply HQ|]. intros r a' _ Hra.
    eapply achieves_bind; [by apply HQ|]. intros r' b' _ Hrb. cbn [orb].
    apply achieves_ret; [done|]. intros [-> ->]%orb_false_iff. apply settled_two; [done|done|auto..].
Qed.
End step.
Lemma qualify_ok n : ∀ fuel,
  ((2 * n ≤ fuel)%nat → statement_ok n (qualify_statement octo_global d fuel)) ∧
  ((2 * n ≤ S fuel)%nat → query_ok n (qualify_query octo_global d fuel)).
Proof using Hfun.
  induction n as [|n IH]; intros fuel.
  { split; intros _ ? ? ? ?; [intros ? Hp|intros Hp]; inversion Hp. }
  assert (HQ : ∀ fuel, (2 * S n ≤ S fuel)%nat → query_ok (S n) (qualify_query octo_global d fuel)).
  { clear fuel. intros [|fuel] Hle; [lia|]. intros parent stmt ? ? ?. cbn [qualify_query].
    apply (query_step n); [apply IH; lia|apply IH; lia|done..]. }
  split; [|apply HQ]. destruct fuel as [|fuel]; [lia|]. intros Hle tables alias stmt Ht Ha Hp. cbn [qualify_statement].
  destruct (is_query stmt) eqn:Hq.
  - destruct stmt; try done; (apply (HQ fuel); [lia|done..]).
  - apply (body_step n); [apply IH; lia|done..].
Qed.
End query.

(** ** Scopes *)
(** What one query's tables say of a name: nothing, or what it means there.  A table with the
    alias asked for decides, even if it has no such column. *)
Definition in_scope (m : values) (name : list byte) (tables : list SqlJoin) : option (option (SqlStatement * SqlStatement)) :=
  match split_period name with
  | Some (t, c) => '(_, j) ← list_find (λ j, table_alias_name m j = Some t) tables; Some (table_column m c j)
  | None => Some <$> head (candidates m name tables)
  end.
(** The innermost query that says something decides; behind all of them is the select list. *)
Fixpoint scoped (m : values) (name : list byte) (scopes : list (list SqlJoin)) (alias : SqlStatement) : option (SqlStatement * SqlStatement) :=
  match scopes with
  | [] => match split_period name with Some _ => None | None => head (select_candidates m name alias) end
  | tables :: scopes' => match in_scope m name tables with Some found => found | None => scoped m name scopes' alias end
  end.
Lemma resolve_scoped m name scopes alias : resolve m name (concat scopes) alias = scoped m name scopes alias.
Proof.
  unfold resolve. induction scopes as [|tables scopes IH]; cbn [scoped concat].
  { by destruct (split_period name) as [[]|]. }
  rewrite <- IH. unfold in_scope. destruct (split_period name) as [[t c]|].
  - destruct (list_find _ tables) as [[i j]|] eqn:E; cbn [mbind option_bind].
    + by rewrite (list_find_app_l _ _ _ _ _ E).
    + rewrite (list_find_app_r _ _ _ E). by destruct (list_find _ _) as [[]|].
  - unfold candidates. rewrite omap_app. by destruct (omap _ tables).
Qed.
(** A name [t.c] is looked for once, as the column [c] of a table called [t]: without such a table it means nothing,
    whatever the columns are called. *)
Lemma dotted_name_searched_once m name t c tables alias : split_period name = Some (t, c) →
  Forall (λ j, table_alias_name m j ≠ Some t) tables → resolve m name tables alias = None.
Proof. intros E HF. unfold resolve. rewrite E. by rewrite (proj2 (list_find_None (λ j, table_alias_name m j = Some t) tables)). Qed.
(** The ELSE of a CASE is left as it is. *)
Lemma else_kept `{YottaDB} octo_global d fuel tables alias a b o s r stmt' s' :
  qualify_statement octo_global d fuel tables alias (cas_STATEMENT a b o) s = Ret (r, stmt', s') → ∃ a' b', stmt' = cas_STATEMENT a' b' o.
Proof.
  destruct fuel as [|fuel]; [done|]. cbn. unfold mbind, N_bind, mret, N_ret.
  destruct (qualify_statement octo_global d fuel tables alias a s) as [[[? ?] s1]| | |]; cbn; try done.
  destruct (qualify_statement octo_global d fuel tables alias b s1) as [[[? ?] ?]| | |]; cbn; try done. intros [= <- <- <-]. by eexists _, _.
Qed.

(** C17: Splicing the ring of the enclosing query's joins behind the query's own gives names
    lexical scope.  For a name without a period, and for a name [t.c] that means something:
    with the tables of the nested queries one behind the other, innermost first,
    [qualify_column_name] finds what [scoped] says.  The innermost query whose tables have the
    name decides, for [t.c] the first table with alias [t]; only a name without a period
    that no table has is looked for in the select list, where the beginning of a name is enough.
    The warnings are exactly [resolve_warnings], and a name that means nothing gives no
    result. *)
Theorem names_are_scoped v scopes alias s (name := cstr (sv_literal v)) (found := scoped (qf_values s) name scopes alias) :
  sv_type v = COLUMN_REFERENCE → Forall (readable_table (qf_values s)) (concat scopes) → readable_alias (qf_values s) alias →
  split_period name = None ∨ is_Some found →
  qualify_column_name v (concat scopes) alias s = Ret (resolved_as s found (resolve_warnings (qf_values s) name (concat scopes) alias)).
Proof. intros Ht HF Ha _. unfold found. rewrite <- resolve_scoped. by apply qualify_column_name_spec. Qed.

(** C16: Qualifying a query that the parser built, in which no CASE has an ELSE, returns, with
    fuel twice the depth of the query: it only adds warnings; the types of the values are what
    they were; the query is refused exactly if one of the new warnings is the one of an unknown
    column or of an unknown function; and if it is not refused, then no column reference is
    left in it, every reference having become a column. *)
Theorem qualify_query_settles `{YottaDB} octo_global d s n stmt fuel :
  functions_readable octo_global d → is_query stmt = true → parsed (qf_values s) n stmt → (2 * n ≤ fuel)%nat →
  ∃ r stmt' s' ws,
    qualify_query octo_global d fuel [] stmt s = Ret (r, stmt', s') ∧
    qf_warnings s' = qf_warnings s ++ ws ∧ types_of (qf_values s') = types_of (qf_values s) ∧
    r = existsb refuses ws ∧ (r = false → settled (qf_values s) stmt').
Proof.
  intros Hfun Hq Hp Hf. destruct (qualify_ok octo_global d (qf_values s) Hfun n fuel) as [_ HQ].
  destruct (HQ ltac:(lia) [] stmt ltac:(constructor) Hq Hp s eq_refl) as (r & a & s' & ws & ? & ? & ? & ? & ? & ?).
  exists r, a, s', ws. by split_and!.
Qed.

(** ** A query to try them on *)
(** [SELECT ID FROM T A WHERE A.ID = F(ID)]: two references, a function, and a
    column of the table. *)
Definition query_values : values :=
  list_to_map [(1, plain_value COLUMN_REFERENCE (lit "ID")); (2, plain_value COLUMN_REFERENCE (lit "A.ID"));
               (3, plain_value STRING_LITERAL (lit "A")); (4, plain_value STRING_LITERAL (lit "ID"));
               (5, plain_value FUNCTION_NAME (lit "F"))].
Definition query_table : SqlStatement :=
  table_alias_STATEMENT 103 sample_table (val 3) 1
    (column_list_alias_STATEMENT [ColumnListAlias 110 (column_list_STATEMENT [column_alias_STATEMENT 111 sample_column null_STATEMENT]) (val 4) null_STATEMENT NUMBER_LITERAL]).
Definition query_list : SqlStatement :=
  column_list_alias_STATEMENT [ColumnListAlias 106 (column_list_STATEMENT [val 1]) (val 4) null_STATEMENT NUMBER_LITERAL].
Definition sample_query : SqlStatement :=
  table_alias_STATEMENT 105
    (select_STATEMENT query_list (join_STATEMENT [Join query_table null_STATEMENT NO_JOIN])
       (binary_STATEMENT BOOLEAN_EQUALS (val 2) (call 5 [val 1])) null_STATEMENT null_STATEMENT null_STATEMENT)
    null_STATEMENT 3 query_list.
Definition query_state : qualifier := {| qf_values := query_values; qf_next := 200; qf_warnings := [] |}.
Lemma query_table_readable : readable_table query_values (Join query_table null_STATEMENT NO_JOIN).
Proof.
  split; [right; by eexists|]. right. eexists. split; [reflexivity|]. split; [discriminate|].
  constructor; [right; by eexists|constructor].
Defined.
(** Walks a concrete query. *)
Ltac parsed_query :=
  apply parsed_node;
  [first [exact I | discriminate | by eexists
         |split; [discriminate|by repeat (constructor; [right; by eexists|])]
         |split; [discriminate|split; [constructor; [exact query_table_readable|constructor]|split; [reflexivity|by eexists]]]]
  |match goal with |- Forall ?P ?l => let l' := eval vm_compute in l in change (Forall P l') end;
   repeat apply Forall_cons_2; try apply Forall_nil_2; parsed_query].
#[local] Existing Instance map_db.
Lemma names_are_scoped_witness :
  qualify_column_name (plain_value COLUMN_REFERENCE (lit "A.ID")) (concat [[]; [Join query_table null_STATEMENT NO_JOIN]]) sample_query query_state =
    Ret (resolved_as query_state
      (scoped query_values (lit "A.ID") [[]; [Join query_table null_STATEMENT NO_JOIN]] sample_query)
      (resolve_warnings query_values (lit "A.ID") (concat [[]; [Join query_table null_STATEMENT NO_JOIN]]) sample_query)).
Proof.
  apply (names_are_scoped (plain_value COLUMN_REFERENCE (lit "A.ID")) [[]; [Join query_table null_STATEMENT NO_JOIN]] sample_query query_state);
    [reflexivity|constructor; [exact query_table_readable|constructor]| |right; by eexists].
  right. do 5 eexists. split; [reflexivity|]. split; [discriminate|]. constructor; [right; by eexists|constructor].
Defined.
Lemma qualify_query_settles_witness : ∃ r stmt' s' ws,
  qualify_query (lit "^octo") (∅ : @db map_db) 10 [] sample_query query_state = Ret (r, stmt', s') ∧
  qf_warnings s' = [] ++ ws ∧ types_of (qf_values s') = types_of query_values ∧
  r = existsb refuses ws ∧ (r = false → settled query_values stmt').
Proof.
  apply (qualify_query_settles (lit "^octo") (∅ : @db map_db) query_state 5 sample_query 10);
    [intros name; reflexivity|reflexivity| |lia].
  parsed_query.
Defined.
