(* ===== verification/QueryInput.v ===== *)
(** * What the parser reads

    [get_input] and [no_more] feed the lexer from [input_buffer_combined], one character
    per call; [parse_line.c] runs the parser on it.  The parser itself is generated from
    the grammar: it is a parameter, as the calls it makes ([parser]) - it asks for
    characters, it may declare the end of the input, and it ends with a status, a
    statement, what it wrote to [err_buffer] and what it logged (the [WARNING] and [ERROR]
    calls of the rules and of the functions they call). *)
From stdpp Require Import gmap strings.
From S2P Require Import Prelude CMem Errors FrontendSpec Logging LogicalPlan SqlStatement Session.

(** [input_buffer_combined], [cur_input_index] and [eof_hit]. *)
Record input := { in_buffer : list byte; in_index : Z; in_eof : bool }.

(** [cur_input_more], which the server always points at [no_more]. *)
Definition no_more (i : input) : Z * input :=
  (0, {| in_buffer := in_buffer i; in_index := in_index i; in_eof := true |}).
(** [YY_INPUT] over [get_input]: a character, or none at the end.  Its loop goes around
    while [get_input] answers -1, which needs a [cur_input_more] that finds more. *)
Definition get_input (i : input) : outcome (option byte * input) :=
  if in_eof i then Ret (None, i)
  else
    c ← load8 (in_buffer i) (in_index i);
    if decide (c = nul) then Ret (None, (no_more i).2)
    else Ret (Some c, {| in_buffer := in_buffer i; in_index := in_index i + 1; in_eof := in_eof i |}).

(** A statement with what its pointers lead to. *)
Record parsed := { ps_statement : SqlStatement; ps_values : values; ps_rings : gmap ptr (list SqlColumn) }.

Inductive parser {D : Type} :=
  | Input (k : option byte → parser)                       (* [YY_INPUT] *)
  | EndOfFile (k : parser)                                 (* [eof_hit = TRUE], in the rule for an empty line *)
  | Finished (status : Z) (result : parsed) (written : list byte) (logged : list log_entry) (d : D).
Arguments parser : clear implicits.

Fixpoint yyparse_on {D} (p : parser D) (i : input) : outcome (Z * parsed * list byte * list log_entry * D * input) :=
  match p with
  | Input k => '(c, i) ← get_input i; yyparse_on (k c) i
  | EndOfFile k => yyparse_on k {| in_buffer := in_buffer i; in_index := in_index i; in_eof := true |}
  | Finished status result written logged d => Ret (status, result, written, logged, d, i)
  end.

(** The generated parser; it looks tables up, so it sees the database and may change it. *)
Class SqlParser `{YottaDB} := { yyparse : db → parser db }.

(** [parse_line(input_buffer_combined)]: the statement ([None] for NULL), what was written
    to [err_buffer], what was logged, and the state it leaves. *)
Definition parsing_failed (line : list byte) : log_entry :=
  {| log_level := ERROR_; log_error := ERR_PARSING_COMMAND; log_args := [AStr line] |}.
Definition parse_line `{SqlParser} (i : input) (d : db) : outcome (option parsed * list byte * list log_entry * db * input) :=
  '(status, result, written, logged, d, i) ← yyparse_on (yyparse d) i;
  if negb (status =? 0) then
    line ← string_at (in_buffer i) 0;
    Ret (None, written, logged ++ [parsing_failed line], d, i)
  else
    let index := if 0 <? in_index i then in_index i - 1 else in_index i in
    let i := {| in_buffer := in_buffer i; in_index := index; in_eof := in_eof i |} in
    Ret (if is_null_stmt (ps_statement result) then None else Some result, written, logged, d, i).

(** ** What reading does to the input *)
(** The text from the place the lexer is at to the end of the buffer's string. *)
Definition pending (i : input) (text : list byte) : Prop :=
  0 ≤ in_index i ∧ string_at (in_buffer i) (in_index i) = Ret text.

Lemma string_at_step b p c s : string_at b p = Ret (c :: s) → load8 b p = Ret c ∧ c ≠ nul ∧ string_at b (p + 1) = Ret s.
Proof.
  unfold string_at. destruct (Z.ltb_spec p 0); [done|]. destruct (Z.ltb_spec (p + 1) 0); [lia|].
  destruct (split_nul (drop (Z.to_nat p) b)) as [[x r]|] eqn:E; [|done]. intros [= ->].
  apply split_nul_Some in E as [E Hs]. apply not_elem_of_cons in Hs as [Hc Hs].
  assert (Hb : b !! Z.to_nat p = Some c).
  { rewrite <- (Nat.add_0_r (Z.to_nat p)), <- lookup_drop, E. done. }
  split; [|split; [done|]].
  - unfold load8. destruct (Z.ltb_spec p 0); [lia|]. by rewrite Hb.
  - replace (Z.to_nat (p + 1)) with (Z.to_nat p + 1)%nat by lia. rewrite <- drop_drop, E.
    change (drop 1 ((c :: s) ++ nul :: r)) with (s ++ nul :: r). by rewrite split_nul_app.
Qed.
Lemma string_at_end b p : string_at b p = Ret [] → load8 b p = Ret nul.
Proof.
  unfold string_at. destruct (Z.ltb_spec p 0); [done|].
  destruct (split_nul (drop (Z.to_nat p) b)) as [[x r]|] eqn:E; [|done]. intros [= ->].
  apply split_nul_Some in E as [E _]. unfold load8. destruct (Z.ltb_spec p 0); [lia|].
  by rewrite <- (Nat.add_0_r (Z.to_nat p)), <- lookup_drop, E.
Qed.

(** How many characters a parser takes from a text, and whether it sees its end. *)
Fixpoint takes {D} (p : parser D) (text : list byte) (eof : bool) : nat * bool * (Z * parsed * list byte * list log_entry * D) :=
  match p with
  | Finished status result written logged d => (0%nat, eof, (status, result, written, logged, d))
  | EndOfFile k => takes k text true
  | Input k =>
      if eof then takes (k None) text true
      else match text with
      | [] => takes (k None) [] true
      | c :: text' => let '(n, e, r) := takes (k (Some c)) text' eof in (S n, e, r)
      end
  end.

Lemma yyparse_on_takes {D} (p : parser D) : ∀ i text, pending i text →
  let '(n, e, (status, result, written, logged, d)) := takes p text (in_eof i) in
  ∃ i', yyparse_on p i = Ret (status, result, written, logged, d, i') ∧ in_buffer i' = in_buffer i ∧
    in_index i' = in_index i + Z.of_nat n ∧ in_eof i' = e ∧ pending i' (drop n text) ∧ (n ≤ length text)%nat.
Proof.
  induction p as [k IH|k IH|status result written logged d]; intros i text [Hi Ht]; cbn [takes yyparse_on].
  - unfold get_input. destruct (in_eof i) eqn:Eeof.
    + cbn [mbind outcome_bind]. specialize (IH None i text (conj Hi Ht)). by rewrite Eeof in IH.
    + destruct text as [|c text].
      * rewrite (string_at_end _ _ Ht). cbn [mbind outcome_bind]. rewrite decide_True by done. cbn [mbind outcome_bind].
        apply (IH None (no_more i).2 []). done.
      * destruct (string_at_step _ _ _ _ Ht) as (Hl & Hc & Hs). rewrite Hl. cbn [mbind outcome_bind].
        rewrite decide_False by done. cbn [mbind outcome_bind].
        set (i1 := {| in_buffer := in_buffer i; in_index := in_index i + 1; in_eof := false |}).
        pose proof (IH (Some c) i1 text) as H1. cbn [in_eof i1] in H1.
        destruct (takes (k (Some c)) text false) as [[n e] [[[[st r] w] lg] d]].
        destruct H1 as (i' & E & Hb & Hx & He & Hp & Hn); [split; [cbn; lia|done]|].
        exists i'. cbn [in_buffer in_index i1] in *. split_and!; try done; [lia|cbn [length]; lia].
  - apply (IH {| in_buffer := in_buffer i; in_index := in_index i; in_eof := true |} text). done.
  - exists i. cbn. split_and!; try done; lia.
Qed.
