(* ===== verification/Auth.v ===== *)
(** * Password authentication

    [rocto/get_user_column_value.c], [rocto/handle_password_message.c] and the
    client side used in its tests, [rocto/make_password_message.c].  The MD5
    function is OpenSSL's: it is a parameter ([MD5Hash]) of which only the length
    of the digest is assumed.  The row of a user comes from the database interface
    of [Session]. *)
From stdpp Require Import strings gmap.
From S2P Require Import Prelude CMem Errors Frontend FrontendSpec Deserialize SocketIO Session.

Class MD5Hash := {
  MD5 : list byte → list byte;
  MD5_length s : length (MD5 s) = 16%nat;
}.

(** ** [get_user_column_value] *)
Definition UserColumn_ROLPASSWORD : Z := 10.
Definition UserColumn_ROLVALIDUNTIL : Z := 11.
Definition column_delimiter : byte := chr "|".

(** [while (c < row_end && col_num < column) { if (delimiter[0] == *c) col_num++; c++; }] *)
Fixpoint find_column (fuel : nat) (row : list byte) (c row_end col_num column : Z) : outcome Z :=
  match fuel with
  | O => NoFuel
  | S fuel' =>
      if (c <? row_end) && (col_num <? column) then
        x ← load8 row c;
        find_column fuel' row (c + 1) row_end
          (if decide (x = column_delimiter) then col_num + 1 else col_num) column
      else Ret c
  end.
(** [while (delimiter[0] != *c) { value_len++; c++; }]: the row's end is not looked at. *)
Fixpoint column_length (fuel : nat) (row : list byte) (c value_len : Z) : outcome Z :=
  match fuel with
  | O => NoFuel
  | S fuel' =>
      x ← load8 row c;
      if decide (x = column_delimiter) then Ret value_len
      else column_length fuel' row (c + 1) (u32 (value_len + 1))
  end.
(** [row] is the whole block the row stands in, [row_len] the part that is the row. *)
Definition get_user_column_value (buffer : list byte) (buf_len : Z) (row : list byte)
    (row_len column : Z) : outcome (Z * list byte) :=
  if UserColumn_ROLVALIDUNTIL <? column then Ret (0, buffer)
  else
    col_start ← find_column (S (Z.to_nat row_len)) row 0 row_len 0 column;
    value_len ← column_length (scan_fuel row) row col_start 0;
    if buf_len <? value_len then Ret (0, buffer)
    else
      value ← load_bytes row col_start value_len;
      buffer ← store_bytes buffer 0 (strncpy value (Z.to_nat value_len));
      buffer ← store8 buffer value_len nul;
      Ret (value_len, buffer).

(** ** [handle_password_message] *)
(** [strncmp(a, b, n) == 0]. *)
Definition strncmp_eq (a b : list byte) (n : nat) : bool :=
  bool_decide (take n (cstr a) = take n (cstr b)).

(** The value of the first parameter named "user": what is copied into [username]. *)
Fixpoint find_user (data : list byte) (parms : list (Z * Z)) : outcome (option (list byte)) :=
  match parms with
  | [] => Ret None
  | (name, value) :: parms' =>
      n ← string_at data name;
      if decide (n = lit "user") then v ← string_at data value; Ret (Some v)
      else find_user data parms'
  end.

Definition md5_hex_len : Z := 33.

Section auth.
Context `{YottaDB} `{MD5Hash} (octo_global : list byte) (mem : nat → byte).

Definition auth_error (e : ERROR) (args : list printf_arg) : outcome (Z * option ErrorResponse) :=
  err ← error_of PSQL_Error_ERROR PSQL_Code_Syntax_Error e (str "handle_password_message" :: args);
  Ret (1, Some err).

Definition handle_password_message (password_message : PasswordMessage) (startup_message : StartupMessage)
    (salt : list byte) (d : db) : outcome (Z * option ErrorResponse) :=
  password ← string_at (pw_data password_message) (pw_password password_message);
  if negb (strncmp_eq password (lit "md5") 3) then auth_error ERR_ROCTO_PASSWORD_TYPE [str "md5"]
  else
  user ← find_user (sm_data startup_message) (sm_parameters startup_message);
  match user with
  | None => Undef Uninitialised     (* [username] is read without having been set *)
  | Some value =>
  username ← string_at (strncpy value (Z.to_nat MAX_STR_CONST)) 0;
  let '(status, user_info) := ydb_get_s d [octo_global; lit "users"; username] MAX_STR_CONST in
  if decide (status = YDB_ERR_GVUNDEF ∨ status = YDB_ERR_LVUNDEF) then
    auth_error ERR_ROCTO_DB_LOOKUP [str "user info"]
  else
  _ ← ydb_error_check status;
  '(buf_len, buffer) ← get_user_column_value (malloc mem MAX_STR_CONST) MAX_STR_CONST
      (user_info ++ malloc mem (MAX_STR_CONST - zlen user_info)) (zlen user_info) UserColumn_ROLPASSWORD;
  if buf_len =? 0 then auth_error ERR_ROCTO_COLUMN_VALUE [str "rolpassword (hashed password)"]
  else
  let n := u32 (buf_len - 3) in
  stored ← load_bytes buffer 3 n;
  hash_buf ← store_bytes (malloc mem MAX_STR_CONST) 0 stored;
  s ← load_bytes salt 0 4;
  hash_buf ← store_bytes hash_buf n s;
  text ← load_bytes hash_buf 0 (u32 (n + 4));
  hash_buf ← store_bytes hash_buf 0 (MD5 text);
  '(result, md5_hex) ← md5_to_hex hash_buf (malloc mem md5_hex_len) md5_hex_len;
  if negb (result =? 0) then
    auth_error ERR_ROCTO_HASH_CONVERSION [str "md5 hash"; str "hexidecimal string"]
  else if negb (strncmp_eq md5_hex (drop 3 password) (Z.to_nat md5_hex_len)) then
    auth_error ERR_ROCTO_BAD_PASSWORD []
  else Ret (0, None)
  end.

(** ** [make_password_message]

    [user], [password] and [salt] are C strings; [hash_buf] holds [MAX_STR_CONST]
    bytes.  The result is the C string the message carries. *)
Definition hash_hex (text : list byte) : outcome (list byte) :=
  hash_buf ← store_bytes (malloc mem MAX_STR_CONST) 0 (text ++ [nul]);
  s ← string_at hash_buf 0;
  hash_buf ← store_bytes hash_buf 0 (MD5 s);
  '(result, hex) ← md5_to_hex hash_buf (malloc mem md5_hex_len) md5_hex_len;
  Ret (cstr hex).
Definition make_password_message (user password salt : list byte) : outcome PasswordMessage :=
  hex_hash ← hash_hex (cstr password ++ cstr user);
  hex_hash ← hash_hex (take 36 (hex_hash ++ cstr salt));
  let md5_password := lit "md5" ++ hex_hash ++ [nul] in
  Ret {| pw_password := 0; pw_type := PSQL_PasswordMessage; pw_length := htonl (4 + (md5_hex_len + 3));
         pw_data := md5_password |}.
End auth.
