(* ===== verification/AuthTheorems.v ===== *)
(** * Who is let in

    What [get_user_column_value] returns, the exact condition under which
    [handle_password_message] accepts, and that a client which knows the password
    is accepted. *)
From stdpp Require Import strings gmap.
From S2P Require Import Prelude CMem Errors Frontend FrontendSpec Deserialize SocketIO Session SessionTheorems Auth.

(** ** Columns of a row *)
Definition no_bar (s : list byte) : Prop := column_delimiter ∉ s.
(** Columns, each with the delimiter after it. *)
Definition columns (fs : list (list byte)) : list byte := fs ≫= λ f, f ++ [column_delimiter].

Lemma find_column_skip f fuel row w rest row_end col_num column :
  row = w ++ f ++ rest → no_bar f → zlen w + zlen f ≤ row_end → col_num < column →
  find_column (length f + fuel) row (zlen w) row_end col_num column =
  find_column fuel row (zlen (w ++ f)) row_end col_num column.
Proof.
  revert w. induction f as [|x f IH]; intros w Hr Hf He Hc; [by rewrite app_nil_r|].
  apply not_elem_of_cons in Hf as [Hx Hf]. rewrite zlen_cons in He. pose proof (zlen_nonneg f).
  cbn [length Nat.add find_column]. zdec.
  rewrite (load8_app_eq row (zlen w) w x (f ++ rest)) by done. cbn [mbind outcome_bind].
  rewrite decide_False by (by intros ->). replace (zlen w + 1) with (zlen (w ++ [x])) by zlia.
  rewrite (IH (w ++ [x])); [by rewrite <- app_assoc|by rewrite <- app_assoc|done|zlia|done].
Qed.

Lemma find_column_spec fs fuel row w rest row_end col_num column :
  row = w ++ columns fs ++ rest → Forall no_bar fs → zlen w + zlen (columns fs) ≤ row_end →
  column = col_num + zlen fs →
  find_column (S (length (columns fs) + fuel)) row (zlen w) row_end col_num column = Ret (zlen (w ++ columns fs)).
Proof.
  intros Hr Hf. revert w col_num Hr. induction Hf as [|f fs Hf Hfs IH]; intros w col_num Hr He Hc.
  { rewrite app_nil_r. change (zlen []) with 0 in Hc. cbn [columns length Nat.add find_column mbind list_bind].
    replace (col_num <? column) with false by (symmetry; apply Z.ltb_ge; lia). by rewrite andb_false_r. }
  rewrite zlen_cons in Hc. pose proof (zlen_nonneg fs).
  change (columns (f :: fs)) with ((f ++ [column_delimiter]) ++ columns fs) in *.
  rewrite !zlen_app in He. change (zlen [column_delimiter]) with 1 in He. pose proof (zlen_nonneg (columns fs)).
  rewrite !length_app. cbn [length].
  replace (S (length f + 1 + length (columns fs) + fuel))
    with (length f + S (S (length (columns fs) + fuel)))%nat by lia.
  rewrite (find_column_skip f _ row w ([column_delimiter] ++ columns fs ++ rest));
    [|rewrite Hr; by app_norm|done|lia|lia].
  set (fu := S (length (columns fs) + fuel)). cbn [find_column]. rewrite zlen_app. zdec. subst fu.
  rewrite (load8_app_eq row (zlen w + zlen f) (w ++ f) column_delimiter (columns fs ++ rest));
    [|rewrite Hr; by app_norm|by rewrite zlen_app]. cbn [mbind outcome_bind].
  rewrite decide_True by done.
  replace (zlen w + zlen f + 1) with (zlen (w ++ f ++ [column_delimiter])) by zlia.
  rewrite (IH (w ++ f ++ [column_delimiter])); [by rewrite <- !app_assoc|rewrite Hr; by app_norm|zlia|lia].
Qed.

Lemma column_length_spec v fuel row w rest n :
  row = w ++ v ++ column_delimiter :: rest → no_bar v → 0 ≤ n → n + zlen v < 2 ^ 32 → (length v < fuel)%nat →
  column_length fuel row (zlen w) n = Ret (n + zlen v).
Proof.
  revert w n fuel. induction v as [|x v IH]; intros w n fuel Hr Hv Hn Hz Hf; (destruct fuel as [|fuel]; [cbn in Hf; lia|]);
    cbn [column_length].
  - rewrite (load8_app_eq row (zlen w) w column_delimiter rest) by done. cbn [mbind outcome_bind].
    rewrite decide_True by done. f_equal. zlia.
  - apply not_elem_of_cons in Hv as [Hx Hv]. rewrite zlen_cons in Hz. pose proof (zlen_nonneg v).
    rewrite (load8_app_eq row (zlen w) w x (v ++ column_delimiter :: rest)) by done. cbn [mbind outcome_bind].
    rewrite decide_False by (by intros ->). rewrite u32_small by lia.
    replace (zlen w + 1) with (zlen (w ++ [x])) by zlia.
    rewrite (IH (w ++ [x])); [f_equal; zlia|by rewrite <- app_assoc|done|lia|lia|cbn in Hf; lia].
Qed.

(** Without a delimiter the scan leaves the block. *)
Lemma column_length_runs_off v fuel row w n :
  row = w ++ v → no_bar v → (length v < fuel)%nat → column_length fuel row (zlen w) n = Undef OutOfBounds.
Proof.
  revert w n fuel. induction v as [|x v IH]; intros w n fuel Hr Hv Hf; (destruct fuel as [|fuel]; [cbn in Hf; lia|]);
    cbn [column_length].
  - rewrite load8_Undef; [done|]. right. subst. zlia.
  - apply not_elem_of_cons in Hv as [Hx Hv].
    rewrite (load8_app_eq row (zlen w) w x v) by done. cbn [mbind outcome_bind].
    rewrite decide_False by (by intros ->). replace (zlen w + 1) with (zlen (w ++ [x])) by zlia.
    apply IH; [by rewrite <- app_assoc|done|cbn in Hf; lia].
Qed.

Lemma strncpy_exact v : no_nul v → strncpy v (length v) = v.
Proof.
  intros Hv. unfold strncpy. rewrite take_ge by lia. rewrite cstr_id by done.
  by rewrite Nat.sub_diag, app_nil_r.
Qed.

Lemma get_user_column_value_spec fs v rest garbage buffer buf_len column row_len :
  Forall no_bar fs → no_bar v → no_nul v → column = zlen fs → column ≤ 11 →
  row_len = zlen (columns fs ++ v ++ column_delimiter :: rest) →
  zlen buffer = buf_len → zlen v < buf_len → buf_len < 2 ^ 32 →
  get_user_column_value buffer buf_len ((columns fs ++ v ++ column_delimiter :: rest) ++ garbage) row_len column =
  Ret (zlen v, v ++ nul :: drop (S (length v)) buffer).
Proof.
  intros Hfs Hv Hn Hc H11 Hr Hb Hz Hm. unfold get_user_column_value, UserColumn_ROLVALIDUNTIL. zdec.
  set (row := (columns fs ++ v ++ column_delimiter :: rest) ++ garbage).
  assert (Hrow : row = columns fs ++ v ++ column_delimiter :: (rest ++ garbage))
    by (unfold row; by app_norm).
  pose proof (find_column_spec fs (Z.to_nat row_len - length (columns fs)) row [] (v ++ column_delimiter :: rest ++ garbage)
    row_len 0 column Hrow Hfs) as E. change (zlen []) with 0 in E. cbn [app] in E.
  assert (Hle : (length (columns fs) ≤ Z.to_nat row_len)%nat)
    by (rewrite Hr; unfold zlen; rewrite !length_app; lia).
  replace (S (length (columns fs) + (Z.to_nat row_len - length (columns fs)))) with (S (Z.to_nat row_len)) in E by lia.
  rewrite E; [|rewrite Hr; zlia|lia]. cbn [mbind outcome_bind].
  rewrite (column_length_spec v _ row (columns fs) (rest ++ garbage) 0);
    [|done|done|lia|lia|unfold scan_fuel; rewrite Hrow, !length_app; lia].
  cbn [mbind outcome_bind]. rewrite Z.add_0_l. zdec.
  rewrite (load_bytes_app_eq row _ _ (columns fs) v (column_delimiter :: rest ++ garbage)) by done.
  cbn [mbind outcome_bind]. rewrite zlen_to_nat, strncpy_exact by done.
  rewrite (store_front buffer v) by lia. cbn [mbind outcome_bind].
  destruct (drop_more (length v) buffer) as [x Hx]; [unfold zlen in *; lia|].
  rewrite (store8_app_eq _ _ v x nul (drop (S (length v)) buffer)) by (done || by rewrite Hx). done.
Qed.

(** ** Accepting a password *)
Lemma strncpy_fits v n : no_nul v → (length v < n)%nat → string_at (strncpy v n) 0 = Ret v.
Proof.
  intros Hv Hn. unfold strncpy. rewrite take_ge by lia. rewrite cstr_id by done.
  destruct (n - length v)%nat as [|k] eqn:E; [lia|]. cbn [replicate].
  by apply (string_at_app _ [] v (replicate k nul)).
Qed.

Lemma hex_text_no_bar bs : no_bar (hex_text bs).
Proof.
  induction bs as [|c bs IH]; [apply not_elem_of_nil|].
  change (hex_text (c :: bs)) with (hex2 c ++ hex_text bs). intros [Hc|Hc]%elem_of_app; [|done].
  revert c Hc. apply (forall_bytes (λ c, column_delimiter ∉ hex2 c)). vm_compute. reflexivity.
Qed.

Section auth.
Context `{YottaDB} `{MD5Hash} (octo_global : list byte) (mem : nat → byte).
#[local] Opaque MAX_STR_CONST malloc.

Lemma auth_error_returns e args : ∃ err, auth_error e args = Ret (1, Some err).
Proof.
  unfold auth_error.
  destruct (error_of_returns PSQL_Error_ERROR PSQL_Code_Syntax_Error e (str "handle_password_message" :: args)) as [err ->].
  by exists err.
Qed.

(** The digest the server computes from the stored hash. *)
Definition server_hash (h salt : list byte) : list byte := hex_text (MD5 (h ++ take 4 salt)).

Lemma length_server_hash h salt : length (server_hash h salt) = 32%nat.
Proof.
  unfold server_hash. pose proof (zlen_hex_text (MD5 (h ++ take 4 salt))) as E.
  unfold zlen in E. rewrite MD5_length in E. lia.
Qed.

Lemma strncmp_hash h salt r p :
  no_nul p → strncmp_eq (server_hash h salt ++ nul :: r) p (Z.to_nat md5_hex_len) = bool_decide (p = server_hash h salt).
Proof.
  intros Hp. unfold strncmp_eq. pose proof (length_server_hash h salt) as Hl. change (Z.to_nat md5_hex_len) with 33%nat.
  rewrite cstr_app_nul by apply hex_text_no_nul. rewrite cstr_id by done. rewrite (take_ge (server_hash h salt)) by lia.
  apply bool_decide_ext. split; [|intros ->; rewrite take_ge by lia; done].
  intros E. destruct (decide (length p ≤ 33)%nat) as [Hle|Hgt]; [by rewrite take_ge in E|].
  apply (f_equal length) in E. rewrite length_take in E. lia.
Qed.

Definition user_row (fs : list (list byte)) (h rest : list byte) : list byte :=
  columns fs ++ (lit "md5" ++ h) ++ column_delimiter :: rest.

Lemma handle_password_spec pm sm salt d user fs h rest password :
  string_at (pw_data pm) (pw_password pm) = Ret password →
  find_user (sm_data sm) (sm_parameters sm) = Ret (Some user) → no_nul user → zlen user < MAX_STR_CONST →
  ydb_get_s d [octo_global; lit "users"; user] MAX_STR_CONST = (YDB_OK, user_row fs h rest) →
  Forall no_bar fs → zlen fs = 10 → no_bar h → no_nul h → zlen (user_row fs h rest) ≤ MAX_STR_CONST → 4 ≤ zlen salt →
  handle_password_message octo_global mem pm sm salt d =
    if decide (password = lit "md5" ++ server_hash h salt) then Ret (0, None)
    else if decide (take 3 password = lit "md5") then auth_error ERR_ROCTO_BAD_PASSWORD []
    else auth_error ERR_ROCTO_PASSWORD_TYPE [str "md5"].
Proof.
  intros Hpw Hu Hun Hul Hget Hfs H10 Hbar Hnul Hrow Hsalt.
  pose proof (string_at_no_nul _ _ _ Hpw) as Hpn.
  assert (Hlen : zlen (lit "md5" ++ h) + 11 ≤ zlen (user_row fs h rest)).
  { unfold user_row. rewrite !zlen_app, zlen_cons. pose proof (zlen_nonneg rest).
    assert (zlen fs ≤ zlen (columns fs)); [|lia]. clear. induction fs as [|f fs IH]; [done|].
    change (columns (f :: fs)) with ((f ++ [column_delimiter]) ++ columns fs). zlia. }
  rewrite zlen_app in Hlen. change (zlen (lit "md5")) with 3 in Hlen. pose proof (zlen_nonneg h).
  unfold handle_password_message. rewrite Hpw. cbn [mbind outcome_bind].
  assert (HM : MAX_STR_CONST = 32768) by reflexivity.
  revert HM Hul Hget Hrow. generalize MAX_STR_CONST. intros M HM Hul Hget Hrow.
  assert (Hbuf : zlen (malloc mem M) = M) by (apply zlen_malloc; lia).
  revert Hbuf. generalize (malloc mem M). intros buf Hbuf.
  assert (Hhex : zlen (malloc mem md5_hex_len) = md5_hex_len) by (by apply zlen_malloc).
  revert Hhex. generalize (malloc mem md5_hex_len). intros hexbuf Hhex.
  assert (Emd5 : strncmp_eq password (lit "md5") 3 = bool_decide (take 3 password = lit "md5")).
  { unfold strncmp_eq. by rewrite cstr_id. }
  rewrite Emd5. destruct (decide (take 3 password = lit "md5")) as [Hp3|Hp3].
  2:{ rewrite bool_decide_false by done. cbn [negb]. rewrite decide_False; [done|]. intros ->. by apply Hp3. }
  rewrite bool_decide_true by done. cbn [negb].
  rewrite Hu. cbn [mbind outcome_bind]. rewrite strncpy_fits by (try done; unfold zlen in *; lia). cbn [mbind outcome_bind].
  rewrite Hget. rewrite decide_False by (by intros [?|?]). change (ydb_error_check YDB_OK) with (Ret ()). cbn [mbind outcome_bind].
  unfold user_row at 1. generalize (malloc mem (M - zlen (user_row fs h rest))). intros garbage.
  rewrite (get_user_column_value_spec fs (lit "md5" ++ h) rest garbage buf);
    try done; try (rewrite ?zlen_app; change (zlen (lit "md5")) with 3; unfold UserColumn_ROLPASSWORD; lia).
  2:{ intros Hin. apply elem_of_app in Hin as [Hin|Hin]; [|done]. revert Hin. by apply (bool_decide_unpack _). }
  2:{ apply no_nul_app. split; [eval_decide|done]. }
  cbn [mbind outcome_bind]. rewrite zlen_app. change (zlen (lit "md5")) with 3. zdec.
  replace (3 + zlen h - 3) with (zlen h) by lia. rewrite !(u32_small (zlen h)) by lia.
  match goal with |- context [load_bytes ((lit "md5" ++ h) ++ ?tail) 3 _] =>
    rewrite (load_bytes_app_eq ((lit "md5" ++ h) ++ tail) 3 (zlen h) (lit "md5") h tail) by (done || by rewrite <- app_assoc)
  end.
  cbn [mbind outcome_bind].
  rewrite (store_front buf h) by lia. cbn [mbind outcome_bind].
  assert (Hs4 : zlen (take 4 salt) = 4) by (unfold zlen in *; rewrite length_take; lia).
  rewrite (load_bytes_app_eq salt 0 4 [] (take 4 salt) (drop 4 salt)) by (done || by rewrite take_drop). cbn [mbind outcome_bind].
  assert (Hd : zlen (drop (length h) buf) = M - zlen h).
  { unfold zlen in *. rewrite length_drop. lia. }
  rewrite (store_over h _ (take 4 salt) (zlen h) eq_refl) by lia. cbn [mbind outcome_bind].
  rewrite u32_small by lia.
  match goal with |- context [load_bytes (h ++ take 4 salt ++ ?tail) 0 _] =>
    rewrite (load_bytes_app_eq (h ++ take 4 salt ++ tail) 0 (zlen h + 4) [] (h ++ take 4 salt) tail);
      [|by rewrite <- app_assoc|done|rewrite zlen_app; lia];
    assert (Ht : zlen (h ++ take 4 salt ++ tail) = M)
      by (rewrite !zlen_app, Hs4; unfold zlen in *; rewrite length_drop; lia);
    set (hb := h ++ take 4 salt ++ tail) in *
  end.
  cbn [mbind outcome_bind].
  rewrite (store_front hb) by (unfold zlen at 1; rewrite MD5_length; lia). cbn [mbind outcome_bind].
  rewrite md5_to_hex_spec by (apply MD5_length || done).
  cbn [mbind outcome_bind]. cbn [Z.eqb negb]. fold (server_hash h salt).
  assert (Hsplit : password = lit "md5" ++ drop 3 password) by (rewrite <- Hp3; symmetry; apply take_drop).
  rewrite strncmp_hash by (rewrite Hsplit in Hpn; by apply no_nul_app in Hpn as [_ ?]).
  destruct (decide (password = lit "md5" ++ server_hash h salt)) as [E|E].
  - rewrite bool_decide_true by (by rewrite E). done.
  - rewrite bool_decide_false; [done|]. intros E'. apply E. by rewrite Hsplit, E'.
Qed.

Lemma hash_hex_spec text :
  no_nul text → zlen text < MAX_STR_CONST → hash_hex mem text = Ret (hex_text (MD5 text)).
Proof.
  intros Hn Hz. unfold hash_hex.
  assert (HM : MAX_STR_CONST = 32768) by reflexivity.
  revert HM Hz. generalize MAX_STR_CONST. intros M HM Hz.
  assert (Hbuf : zlen (malloc mem M) = M) by (apply zlen_malloc; lia).
  revert Hbuf. generalize (malloc mem M). intros buf Hbuf.
  assert (Hhex : zlen (malloc mem md5_hex_len) = md5_hex_len) by (by apply zlen_malloc).
  revert Hhex. generalize (malloc mem md5_hex_len). intros hexbuf Hhex.
  rewrite store_front by (rewrite zlen_app; change (zlen [nul]) with 1; lia). cbn [mbind outcome_bind].
  rewrite (string_at_app _ [] text (drop (length (text ++ [nul])) buf)) by (done || by rewrite <- app_assoc).
  cbn [mbind outcome_bind].
  assert (Hr : zlen ((text ++ [nul]) ++ drop (length (text ++ [nul])) buf) = M).
  { rewrite zlen_app. unfold zlen in *. rewrite length_drop, length_app. cbn. lia. }
  revert Hr. generalize ((text ++ [nul]) ++ drop (length (text ++ [nul])) buf). intros hb Hr.
  rewrite store_front by (unfold zlen at 1; rewrite MD5_length; lia). cbn [mbind outcome_bind].
  rewrite md5_to_hex_spec by (apply MD5_length || done). cbn [mbind outcome_bind].
  f_equal. apply cstr_app_nul, hex_text_no_nul.
Qed.

Lemma make_password_spec user password salt :
  no_nul user → no_nul password → no_nul salt → zlen salt = 4 → zlen password + zlen user < MAX_STR_CONST →
  ∃ pm, make_password_message mem user password salt = Ret pm ∧
    string_at (pw_data pm) (pw_password pm) = Ret (lit "md5" ++ server_hash (hex_text (MD5 (password ++ user))) salt).
Proof.
  intros Hu Hp Hs Hz Hl. unfold make_password_message. rewrite !cstr_id by done.
  rewrite (hash_hex_spec (password ++ user)) by (rewrite ?no_nul_app, ?zlen_app; (by split) || lia). rewrite bind_ret_l.
  set (h := hex_text (MD5 (password ++ user))).
  assert (Hh : length h = 32%nat).
  { pose proof (zlen_hex_text (MD5 (password ++ user))) as E. unfold zlen in E. rewrite MD5_length in E. unfold h. lia. }
  rewrite take_ge by (rewrite length_app; unfold zlen in Hz; lia).
  rewrite hash_hex_spec.
  - rewrite bind_ret_l. eexists. split; [reflexivity|]. cbn [pw_data pw_password].
    unfold server_hash. rewrite (take_ge salt) by (unfold zlen in Hz; lia). set (x := hex_text (MD5 (h ++ salt))).
    apply (string_at_app _ [] (lit "md5" ++ x) []); [by rewrite <- !app_assoc|done|].
    apply no_nul_app. split; [eval_decide|apply hex_text_no_nul].
  - apply no_nul_app. split; [apply hex_text_no_nul|done].
  - rewrite zlen_app, Hz. assert (HM : MAX_STR_CONST = 32768) by reflexivity. unfold zlen. rewrite Hh. lia.
Qed.
End auth.

(** Reading a column of a user's row.  A column that has a delimiter after it is
    copied out exactly, with its terminator, whatever follows the row in memory; the
    scan for that delimiter does not look at the end of the row, so for the last
    column it runs on, and leaves the block when no delimiter follows. *)
Theorem user_column_value fs v rest garbage buffer column :
  Forall no_bar fs → no_bar v → no_nul v → column = zlen fs → column ≤ 11 →
  zlen v < zlen buffer < 2 ^ 32 →
  get_user_column_value buffer (zlen buffer) ((columns fs ++ v ++ column_delimiter :: rest) ++ garbage)
    (zlen (columns fs ++ v ++ column_delimiter :: rest)) column =
    Ret (zlen v, v ++ nul :: drop (S (length v)) buffer) ∧
  (no_bar garbage →
   get_user_column_value buffer (zlen buffer) ((columns fs ++ v) ++ garbage) (zlen (columns fs ++ v)) column =
     Undef OutOfBounds).
Proof.
  intros Hfs Hv Hn Hc H11 Hz. split; [apply get_user_column_value_spec; done || lia|].
  intros Hg. unfold get_user_column_value, UserColumn_ROLVALIDUNTIL. zdec. rewrite <- app_assoc.
  set (row_len := zlen (columns fs ++ v)).
  assert (Hle : (length (columns fs) ≤ Z.to_nat row_len)%nat) by (unfold row_len; rewrite zlen_to_nat, length_app; lia).
  pose proof (find_column_spec fs (Z.to_nat row_len - length (columns fs)) _ [] (v ++ garbage)
    row_len 0 column eq_refl Hfs) as E. change (zlen []) with 0 in E. cbn [app] in E.
  replace (S (length (columns fs) + (Z.to_nat row_len - length (columns fs)))) with (S (Z.to_nat row_len)) in E by lia.
  rewrite E by (unfold row_len; rewrite ?zlen_app; pose proof (zlen_nonneg v); lia). cbn [mbind outcome_bind].
  rewrite (column_length_runs_off (v ++ garbage)); [done|done| |unfold scan_fuel; rewrite !length_app; lia].
  unfold no_bar. rewrite elem_of_app. by intros [?|?].
Qed.
Lemma user_column_value_witness :
  get_user_column_value (lit "........") 8 (lit "1|bob|md5|x" ++ []) 11 2 = Ret (3, lit "md5" ++ nul :: lit "....").
Proof.
  apply (proj1 (user_column_value [lit "1"; lit "bob"] (lit "md5") (lit "x") [] (lit "........") 2
    ltac:(unfold no_bar; eval_decide) ltac:(unfold no_bar; eval_decide) ltac:(eval_decide) eq_refl ltac:(done) ltac:(done))).
Defined.

(** Who is let in.  For a user whose row holds the column "md5" followed by the
    stored hash, [handle_password_message] accepts exactly the password string that
    is "md5" and the hexadecimal MD5 of that hash followed by the four salt bytes;
    every other string is answered with an error. *)
Theorem password_accepted_iff `{YottaDB} `{MD5Hash} octo_global mem pm sm salt d user fs h rest password :
  string_at (pw_data pm) (pw_password pm) = Ret password →
  find_user (sm_data sm) (sm_parameters sm) = Ret (Some user) → no_nul user → zlen user < MAX_STR_CONST →
  ydb_get_s d [octo_global; lit "users"; user] MAX_STR_CONST = (YDB_OK, user_row fs h rest) →
  Forall no_bar fs → zlen fs = 10 → no_bar h → no_nul h → zlen (user_row fs h rest) ≤ MAX_STR_CONST → 4 ≤ zlen salt →
  (handle_password_message octo_global mem pm sm salt d = Ret (0, None) ↔
     password = lit "md5" ++ server_hash h salt) ∧
  (password ≠ lit "md5" ++ server_hash h salt →
     ∃ err, handle_password_message octo_global mem pm sm salt d = Ret (1, Some err)).
Proof.
  intros Hpw Hu Hun Hul Hget Hfs H10 Hb Hn Hr Hs.
  rewrite (handle_password_spec octo_global mem pm sm salt d user fs h rest password) by done.
  destruct (decide (password = _)) as [E|E]; [by split|].
  assert (Herr : ∃ err, (if decide (take 3 password = lit "md5") then auth_error ERR_ROCTO_BAD_PASSWORD []
    else auth_error ERR_ROCTO_PASSWORD_TYPE [str "md5"]) = Ret (1, Some err))
    by (destruct (decide _); apply auth_error_returns).
  split; [|done]. destruct Herr as [err ->]. by split.
Qed.

(** A client that knows the password gets in: the message
    [make_password_message] builds from the user name, the password and the salt is
    accepted when the stored hash is the hexadecimal MD5 of password and user name
    (and the salt has no NUL byte, which the client would take for its end). *)
Theorem client_authenticates `{YottaDB} `{MD5Hash} octo_global mem sm salt d user password fs rest :
  find_user (sm_data sm) (sm_parameters sm) = Ret (Some user) → no_nul user → no_nul password →
  zlen password + zlen user < MAX_STR_CONST → zlen salt = 4 → no_nul salt →
  let h := hex_text (MD5 (password ++ user)) in
  ydb_get_s d [octo_global; lit "users"; user] MAX_STR_CONST = (YDB_OK, user_row fs h rest) →
  Forall no_bar fs → zlen fs = 10 → zlen (user_row fs h rest) ≤ MAX_STR_CONST →
  ∃ pm, make_password_message mem user password salt = Ret pm ∧
    handle_password_message octo_global mem pm sm salt d = Ret (0, None).
Proof.
  intros Hu Hun Hpn Hz Hs Hsn h Hget Hfs H10 Hr.
  destruct (make_password_spec mem user password salt) as (pm & E & Hpw); [done..|].
  exists pm. split; [done|].
  rewrite (handle_password_spec octo_global mem pm sm salt d user fs h rest _ Hpw); try done;
    [by rewrite decide_True|pose proof (zlen_nonneg password); lia|apply hex_text_no_bar|apply hex_text_no_nul|lia].
Qed.

(** ** A user to let in *)
Definition toy_hash (s : list byte) : list byte := take 16 (s ++ replicate 16 x00).
Lemma toy_hash_length s : length (toy_hash s) = 16%nat.
Proof. unfold toy_hash. rewrite length_take, length_app, length_replicate. lia. Defined.
#[local] Instance toy_md5 : MD5Hash := {| MD5 := toy_hash; MD5_length := toy_hash_length |}.
#[local] Existing Instance map_db.

Definition sample_startup : StartupMessage :=
  {| sm_parameters := [(0, 5)]; sm_num_parameters := 1; sm_data := lit "user" ++ [nul] ++ lit "bob" ++ [nul; nul] |}.
Definition sample_columns : list (list byte) := replicate 10 (lit "x").
Definition sample_hash : list byte := hex_text (MD5 (lit "secret" ++ lit "bob")).
Definition sample_users : @db map_db :=
  ({[ [lit "^octo"; lit "users"; lit "bob"] := user_row sample_columns sample_hash [] ]} : gmap (list (list byte)) (list byte)).
Definition wrong_password : PasswordMessage :=
  {| pw_password := 0; pw_type := PSQL_PasswordMessage; pw_length := 11; pw_data := lit "md5abc" ++ [nul] |}.

Lemma password_accepted_iff_witness :
  (handle_password_message (lit "^octo") (λ _, xff) wrong_password sample_startup (lit "salt") sample_users = Ret (0, None) ↔
     lit "md5abc" = lit "md5" ++ server_hash sample_hash (lit "salt")) ∧
  (lit "md5abc" ≠ lit "md5" ++ server_hash sample_hash (lit "salt") →
     ∃ err, handle_password_message (lit "^octo") (λ _, xff) wrong_password sample_startup (lit "salt") sample_users =
       Ret (1, Some err)).
Proof.
  apply (password_accepted_iff (lit "^octo") (λ _, xff) wrong_password sample_startup (lit "salt") sample_users
    (lit "bob") sample_columns sample_hash [] (lit "md5abc")).
  - vm_compute. reflexivity.
  - vm_compute. reflexivity.
  - eval_decide.
  - vm_compute. reflexivity.
  - vm_compute. reflexivity.
  - unfold no_bar. eval_decide.
  - vm_compute. reflexivity.
  - unfold no_bar. eval_decide.
  - eval_decide.
  - vm_compute. discriminate.
  - vm_compute. discriminate.
Defined.

Lemma client_authenticates_witness :
  ∃ pm, make_password_message (λ _, xff) (lit "bob") (lit "secret") (lit "salt") = Ret pm ∧
    handle_password_message (lit "^octo") (λ _, xff) pm sample_startup (lit "salt") sample_users = Ret (0, None).
Proof.
  apply (client_authenticates (lit "^octo") (λ _, xff) sample_startup (lit "salt") sample_users
    (lit "bob") (lit "secret") sample_columns []).
  - vm_compute. reflexivity.
  - eval_decide.
  - eval_decide.
  - vm_compute. reflexivity.
  - vm_compute. reflexivity.
  - eval_decide.
  - vm_compute. reflexivity.
  - unfold no_bar. eval_decide.
  - vm_compute. reflexivity.
  - vm_compute. discriminate.
Defined.
