(* ===== verification/MainLoop.v ===== *)
(** * The session loop

    [rocto/rocto_main_loop.c]: wait, announce ReadyForQuery when nothing is pending,
    read a message, hand it to its reader and its handler.  [handle_parse] and
    [handle_bind] are those of [Session]; the three handlers that run a query
    ([handle_query], [handle_execute], [handle_describe]) reach the SQL compiler and
    the M runtime, so the loop is written against an interface, [QueryHandlers], and
    what is proved of it holds for any handlers. *)
From stdpp Require Import strings.
From S2P Require Import Prelude CMem Errors Frontend FrontendSpec FrontendTheorems Backend BackendTheorems SocketIO SocketTheorems Deserialize Session.

Class QueryHandlers `{YottaDB} := {
  handle_query : Query → db → outcome handler_result;
  handle_execute : Execute → db → outcome handler_result;
  handle_describe : Describe → db → outcome handler_result;
}.

(** What [select] answers: input is pending; it timed out, and then what the kernel
    will answer to the sends of a ReadyForQuery; -1 with EINTR; -1 with another errno. *)
Inductive select_event :=
  | Pending
  | Idle (sends : list send_event)
  | SelectInterrupted
  | SelectFailed.

Section main_loop.
Context `{QueryHandlers} (session : RoctoSession) (mem : nat → byte).

Record loop_state := {
  ls_db : db;
  ls_sent : list (list byte);   (* messages given to [send_message], in order *)
  ls_net : network;
  ls_buffer : list byte;        (* [buffer], which every message is read into *)
  ls_ready : bool;              (* [send_ready_for_query] *)
}.
(** How a turn ends: the next one, [return 0], or [break] (which also disables sending). *)
Inductive turn := Continue (s : loop_state) | Return (s : loop_state) | Break (s : loop_state).

Definition sending (s : loop_state) (d : db) (msgs : list (list byte)) (ready : bool) : loop_state :=
  {| ls_db := d; ls_sent := ls_sent s ++ msgs; ls_net := ls_net s; ls_buffer := ls_buffer s;
     ls_ready := ready |}.

(** One case of the switch: read, answer a rejection with its error, or handle. *)
Definition read_and_handle {A} (read : list byte → outcome (reader_result A))
    (handle : A → db → outcome handler_result) (ready_after : bool) (message : list byte)
    (s : loop_state) : outcome turn :=
  '(r, err) ← read message;
  match r with
  | None =>
      match err with
      | Some err => Ret (Continue (sending s (ls_db s) [error_wire err] true))
      | None => Undef Uninitialised
      end
  | Some x =>
      '(result, d, sent) ← handle x (ls_db s);
      if result =? 1 then Ret (Return (sending s d sent true))
      else Ret (Continue (sending s d sent ready_after))
  end.

Definition dispatch (message : list byte) (s : loop_state) : outcome turn :=
  type ← load8 message 0;
  if decide (type = PSQL_Bind) then read_and_handle read_bind (handle_bind session mem) true message s
  else if decide (type = PSQL_Query) then read_and_handle read_query handle_query true message s
  else if decide (type = PSQL_Execute) then read_and_handle read_execute handle_execute false message s
  else if decide (type = PSQL_Parse) then read_and_handle read_parse (handle_parse session) true message s
  else if decide (type = PSQL_Sync) then Ret (Continue (sending s (ls_db s) [] true))
  else if decide (type = PSQL_Describe) then read_and_handle read_describe handle_describe true message s
  else if decide (type = PSQL_Terminate) then Ret (Continue (sending s (ls_db s) [] true))
  else Ret (Continue (sending s (ls_db s) [] true)).

(** After [select]: the pending ReadyForQuery is out, a message is read and dispatched. *)
Definition take_message (s : loop_state) : outcome turn :=
  '(m, _, net) ← read_message (ls_net s) (ls_buffer s) MAX_STR_CONST;
  match m with
  | None => Ret (Break {| ls_db := ls_db s; ls_sent := ls_sent s; ls_net := net;
                          ls_buffer := ls_buffer s; ls_ready := true |})
  | Some buffer =>
      dispatch buffer {| ls_db := ls_db s; ls_sent := ls_sent s; ls_net := net;
                         ls_buffer := buffer; ls_ready := true |}
  end.
Definition loop_turn (e : select_event) (s : loop_state) : outcome turn :=
  match e with
  | SelectInterrupted => Ret (Continue s)
  | SelectFailed => Halt FatalExit
  | Pending => take_message s
  | Idle sends =>
      if ls_ready s then
        '(result, bytes) ← send_message sends (object (make_ready_for_query PSQL_TransactionStatus_IDLE));
        let s := sending s (ls_db s) [bytes] (ls_ready s) in
        if negb (result =? 0) then Ret (Break s) else take_message s
      else take_message s
  end.

(** The state at the end and whether [rocto_session.sending_message] was set; the
    value returned is 0 either way. *)
Fixpoint rocto_main_loop (events : list select_event) (s : loop_state) : outcome (loop_state * bool) :=
  match events with
  | [] => NoFuel
  | e :: events' =>
      t ← loop_turn e s;
      match t with
      | Continue s => rocto_main_loop events' s
      | Return s => Ret (s, false)
      | Break s => Ret (s, true)
      end
  end.

(** ** The protocol the loop serves

    What a message does to the session, read off its own bytes alone: the messages
    sent, the database, and whether a ReadyForQuery follows; [None] in the first
    place ends the session. *)
Definition ready_frame : list byte := frame PSQL_ReadyForQuery [chr "I"] [].
Definition react (t : byte) (payload : list byte) (d : db)
    : outcome (option bool * db * list (list byte)) :=
  r ← dispatch (frame t payload [])
        {| ls_db := d; ls_sent := []; ls_net := []; ls_buffer := []; ls_ready := true |};
  match r with
  | Continue s => Ret (Some (ls_ready s), ls_db s, ls_sent s)
  | Return s | Break s => Ret (None, ls_db s, ls_sent s)
  end.
(** A session: the client's messages, and for each wait whether it was idle. *)
Fixpoint serve (idle : list bool) (ms : list (byte * list byte)) (d : db) (ready : bool)
    : outcome (db * list (list byte)) :=
  match idle with
  | [] => NoFuel
  | i :: idle' =>
      let out := if i && ready then [ready_frame] else [] in
      match ms with
      | [] => Ret (d, out)
      | (t, p) :: ms' =>
          '(next, d, sent) ← react t p d;
          match next with
          | None => Ret (d, out ++ sent)
          | Some ready => '(d, rest) ← serve idle' ms' d ready; Ret (d, out ++ sent ++ rest)
          end
      end
  end.

End main_loop.
