(* ===== verification/MainLoopTheorems.v ===== *)
(** * What a session does

    The loop of [MainLoop] refines [serve]: however the network cuts the client's
    messages into pieces, whatever an earlier message left in the buffer and however
    often the waits are interrupted, each message is handled once, in order. *)
From stdpp Require Import strings gmap.
From S2P Require Import Prelude CMem Errors Frontend FrontendSpec FrontendTheorems Backend BackendTheorems SocketIO SocketTheorems Deserialize Session SessionTheorems MainLoop.

(** ** A reader sees only its frame *)
Ltac reader_rest :=
  intros Hs;
  first [ prologue; symmetry; prologue; reflexivity
        | rewrite !message_length_frame, !load8_frame by done; cbn [mbind outcome_bind];
          rewrite !Z.add_simpl_r, !load_data_frame; reflexivity ].

Section readers.
Context (t : byte) (p rest : list byte).
Lemma read_bind_rest : small p → read_bind (frame t p rest) = read_bind (frame t p []).
Proof. unfold read_bind. reader_rest. Qed.
Lemma read_parse_rest : small p → read_parse (frame t p rest) = read_parse (frame t p []).
Proof. unfold read_parse. reader_rest. Qed.
Lemma read_execute_rest : small p → read_execute (frame t p rest) = read_execute (frame t p []).
Proof. unfold read_execute. reader_rest. Qed.
Lemma read_describe_rest : small p → read_describe (frame t p rest) = read_describe (frame t p []).
Proof. unfold read_describe. reader_rest. Qed.
Lemma read_query_rest : small p → read_query (frame t p rest) = read_query (frame t p []).
Proof. unfold read_query. reader_rest. Qed.
End readers.

Section session_loop.
Context `{QueryHandlers} (session : RoctoSession) (mem : nat → byte).

Definition blank (d : db) : loop_state :=
  {| ls_db := d; ls_sent := []; ls_net := []; ls_buffer := []; ls_ready := true |}.
(** A turn of the blank session, replayed in [s]. *)
Definition replay (s : loop_state) (r : turn) : turn :=
  match r with
  | Continue b => Continue (sending s (ls_db b) (ls_sent b) (ls_ready b))
  | Return b => Return (sending s (ls_db b) (ls_sent b) (ls_ready b))
  | Break b => Break (sending s (ls_db b) (ls_sent b) (ls_ready b))
  end.

Lemma read_and_handle_replay {A} (read : list byte → outcome (reader_result A)) handle ra m m' s :
  read m = read m' →
  read_and_handle read handle ra m s =
  (r ← read_and_handle read handle ra m' (blank (ls_db s)); Ret (replay s r)).
Proof.
  intros E. unfold read_and_handle. rewrite E.
  destruct (read m') as [[[x|] [err|]]| | |]; cbn [mbind outcome_bind]; try done;
    destruct (handle x (ls_db s)) as [[[z d] sent]| | |] eqn:Eh; cbn [mbind outcome_bind ls_db blank];
    rewrite ?Eh; cbn [mbind outcome_bind]; try done; by destruct (z =? 1).
Qed.

Lemma dispatch_replay t p rest s :
  small p →
  dispatch session mem (frame t p rest) s =
  (r ← dispatch session mem (frame t p []) (blank (ls_db s)); Ret (replay s r)).
Proof.
  intros Hs. unfold dispatch. rewrite !load8_frame. cbn [mbind outcome_bind].
  repeat (case_decide; [first [apply read_and_handle_replay;
    first [by apply read_bind_rest | by apply read_query_rest | by apply read_execute_rest
          | by apply read_parse_rest | by apply read_describe_rest] | done]|]). done.
Qed.

(** ** One turn *)
Lemma read_message_end net buf :
  stream net = [] → 5 ≤ zlen buf → ∃ e net', read_message net buf (zlen buf) = Ret (None, e, net').
Proof.
  intros Hn Hb. unfold read_message.
  destruct (split_block buf 0 5) as (pre & mid & Hbuf & _ & Hp & Hm); [lia..|].
  assert (pre = []) as -> by (destruct pre; [done|zlia]). cbn [app] in Hbuf. rewrite Z.add_0_l in Hbuf.
  pose proof (read_bytes_spec net [] mid (drop (Z.to_nat 5) buf) 0 (zlen buf) 5 eq_refl ltac:(done) ltac:(lia)) as Hr.
  cbn [app] in Hr. rewrite <- Hbuf, Hn in Hr. change (5 <=? zlen []) with false in Hr. cbn iota in Hr.
  destruct Hr as (b & net' & -> & _). cbn [mbind outcome_bind].
  assert (He : ending net = -1 ∨ ending net = -2) by (clear; induction net as [|[| |] net IH]; cbn; auto).
  destruct He as [-> | ->]; by do 2 eexists.
Qed.

(** The buffer is large enough for every message and is never resized. *)
Definition steady (s : loop_state) : Prop := zlen (ls_buffer s) = MAX_STR_CONST.
Definition fits (m : byte * list byte) : Prop := small m.2 ∧ 5 + zlen m.2 ≤ MAX_STR_CONST.
Definition frames (ms : list (byte * list byte)) : list byte := ms ≫= λ m, frame m.1 m.2 [].

Lemma take_message_end s :
  steady s → stream (ls_net s) = [] →
  ∃ s', take_message session mem s = Ret (Break s') ∧ ls_db s' = ls_db s ∧ ls_sent s' = ls_sent s.
Proof.
  unfold steady. intros Hb Hn. unfold take_message. rewrite <- Hb.
  destruct (read_message_end (ls_net s) (ls_buffer s) Hn) as (e & net' & ->);
    [rewrite Hb; unfold MAX_STR_CONST; lia|]. cbn [mbind outcome_bind]. by eexists.
Qed.

Lemma take_message_frame s t p rest :
  steady s → fits (t, p) → stream (ls_net s) = frame t p [] ++ rest →
  ∃ net buf, take_message session mem s =
      (r ← dispatch session mem (frame t p []) (blank (ls_db s));
       Ret (replay {| ls_db := ls_db s; ls_sent := ls_sent s; ls_net := net; ls_buffer := buf; ls_ready := true |} r)) ∧
    stream net = rest ∧ zlen buf = MAX_STR_CONST.
Proof.
  unfold steady. intros Hb [Hs Hf] Hn. cbn [snd] in *. unfold take_message.
  destruct (read_message_spec (ls_net s) (ls_buffer s) t p rest Hn Hs) as (net & E & Hr & _); [lia|].
  rewrite Hb in E. rewrite E. cbn [mbind outcome_bind]. rewrite <- frame_app.
  set (buf := frame t p (drop (Z.to_nat (5 + zlen p)) (ls_buffer s))). exists net, buf.
  split; [unfold buf; by rewrite dispatch_replay|]. split; [done|].
  unfold buf, frame. rewrite !zlen_app, zlen_header, zlen_drop. pose proof (zlen_nonneg p). lia.
Qed.

(** ** The loop and the session it serves *)
(** What the waits of a run look like to the session: idle or not, interruptions
    left out; an idle wait comes with room for the ReadyForQuery. *)
Inductive waits : list select_event → list bool → Prop :=
  | waits_nil : waits [] []
  | waits_interrupted es is_ : waits es is_ → waits (SelectInterrupted :: es) is_
  | waits_pending es is_ : waits es is_ → waits (Pending :: es) (false :: is_)
  | waits_idle sends es is_ :
      Forall positive_event sends → 6 ≤ capacity sends → waits es is_ → waits (Idle sends :: es) (true :: is_).

Definition serve_message (idle : list bool) (ms : list (byte * list byte)) (d : db)
    : outcome (db * list (list byte)) :=
  match ms with
  | [] => Ret (d, [])
  | (t, p) :: ms' =>
      '(next, d, sent) ← react session mem t p d;
      match next with
      | None => Ret (d, sent)
      | Some ready => '(d, rest) ← serve session mem idle ms' d ready; Ret (d, sent ++ rest)
      end
  end.
Lemma serve_cons i idle ms d ready :
  serve session mem (i :: idle) ms d ready =
  ('(d, out) ← serve_message idle ms d; Ret (d, (if i && ready then [ready_frame] else []) ++ out)).
Proof.
  cbn [serve]. destruct ms as [|[t p] ms]; cbn [serve_message]; [cbn; by rewrite app_nil_r|].
  destruct (react session mem t p d) as [[[[r|] d'] sent]| | |]; cbn [mbind outcome_bind]; try done.
  by destruct (serve session mem idle ms d' r) as [[d2 rest]| | |].
Qed.

Definition finishes (o : outcome (loop_state * bool)) (d : db) (sent : list (list byte)) : Prop :=
  ∃ s b, o = Ret (s, b) ∧ ls_db s = d ∧ ls_sent s = sent.
Definition loop_from (events : list select_event) (r : outcome turn) : outcome (loop_state * bool) :=
  r ≫= λ t, match t with
    | Continue s => rocto_main_loop session mem events s
    | Return s => Ret (s, false)
    | Break s => Ret (s, true)
    end.

Lemma loop_body events idle s ms d out :
  (∀ s ms d out, steady s → Forall fits ms → stream (ls_net s) = frames ms →
     serve session mem idle ms (ls_db s) (ls_ready s) = Ret (d, out) →
     finishes (rocto_main_loop session mem events s) d (ls_sent s ++ out)) →
  steady s → Forall fits ms → stream (ls_net s) = frames ms →
  serve_message idle ms (ls_db s) = Ret (d, out) →
  finishes (loop_from events (take_message session mem s)) d (ls_sent s ++ out).
Proof.
  intros IH Hb Hf Hn Hsv. destruct ms as [|[t p] ms]; cbn [serve_message] in Hsv.
  - injection Hsv as <- <-. destruct (take_message_end s Hb Hn) as (s' & -> & Hd & Hs).
    exists s', true. rewrite app_nil_r. by split.
  - apply Forall_cons_iff in Hf as [Hf Hfs]. change (frames ((t, p) :: ms)) with (frame t p [] ++ frames ms) in Hn.
    destruct (take_message_frame s t p (frames ms) Hb Hf Hn) as (net & buf & -> & Hr & Hbuf).
    unfold react in Hsv. fold (blank (ls_db s)) in Hsv.
    destruct (dispatch session mem (frame t p []) (blank (ls_db s))) as [r| | |]; cbn [mbind outcome_bind] in Hsv; try done.
    cbn [loop_from mbind outcome_bind]. destruct r as [b|b|b]; cbn [mbind outcome_bind replay] in *.
    + destruct (serve session mem idle ms (ls_db b) (ls_ready b)) as [[d' rest]| | |] eqn:E; cbn [mbind outcome_bind] in Hsv; try done.
      injection Hsv as <- <-. rewrite app_assoc. by eapply IH.
    + injection Hsv as <- <-. by eexists _, false.
    + injection Hsv as <- <-. by eexists _, true.
Qed.

Lemma main_loop_spec events idle :
  waits events idle → ∀ s ms d out,
  steady s → Forall fits ms → stream (ls_net s) = frames ms →
  serve session mem idle ms (ls_db s) (ls_ready s) = Ret (d, out) →
  finishes (rocto_main_loop session mem events s) d (ls_sent s ++ out).
Proof.
  induction 1 as [|es is_ _ IH|es is_ _ IH|sends es is_ Hp Hc _ IH]; intros s ms d out Hb Hf Hn Hsv; [done| | |].
  - by apply (IH s ms).
  - rewrite serve_cons in Hsv.
    destruct (serve_message is_ ms (ls_db s)) as [[d' o]| | |] eqn:E; cbn [mbind outcome_bind] in Hsv; try done.
    injection Hsv as <- <-. by apply (loop_body es is_ s ms d' o IH).
  - rewrite serve_cons in Hsv.
    destruct (serve_message is_ ms (ls_db s)) as [[d' o]| | |] eqn:E; cbn [mbind outcome_bind] in Hsv; try done.
    injection Hsv as <- <-. cbn [rocto_main_loop loop_turn]. destruct (ls_ready s) eqn:Er.
    + assert (Esend : send_message sends (object (make_ready_for_query PSQL_TransactionStatus_IDLE)) = Ret (0, ready_frame)).
      { set (rq := object _). unfold send_message. change (message_length rq) with (Ret 5). cbn [mbind outcome_bind].
        pose proof (send_loop_spec sends rq [] rq [] [] ltac:(by rewrite app_nil_r) eq_refl Hp) as [Hl _].
        by apply Hl. }
      rewrite Esend. cbn [mbind outcome_bind].
      change (negb (0 =? 0)) with false. cbn iota. rewrite app_assoc.
      by apply (loop_body es is_ (sending s (ls_db s) [ready_frame] true) ms d' o IH).
    + by apply (loop_body es is_ s ms d' o IH).
Qed.
End session_loop.

(** C18: The session loop refines [serve].  For any way the network cuts the client's
    messages into pieces, any state of the reused buffer and any interruptions, when
    the session [serve]s the messages the loop does: it ends, the database is the one
    the handlers leave, and exactly the replies of [serve] were sent, in order, with a
    ReadyForQuery at every idle wait that follows anything but an Execute. *)
Theorem main_loop_serves `{QueryHandlers} session mem events idle s ms d out :
  waits events idle → steady s → Forall fits ms → stream (ls_net s) = frames ms →
  serve session mem idle ms (ls_db s) (ls_ready s) = Ret (d, out) →
  finishes (rocto_main_loop session mem events s) d (ls_sent s ++ out).
Proof. intros Hw. by apply main_loop_spec. Qed.

(** What a rejected message does: the error goes out and the session goes on. *)
Lemma rejected_continues `{QueryHandlers} {A} (read : list byte → outcome (reader_result A)) handle ra m d sev code e args :
  read m = reject sev code e args →
  ∃ err, error_of sev code e args = Ret err ∧
    read_and_handle read handle ra m (blank d) = Ret (Continue (sending (blank d) d [error_wire err] true)).
Proof.
  intros E. unfold read_and_handle. rewrite E. unfold reject.
  destruct (error_of_returns sev code e args) as [err ->]. by exists err.
Qed.

(** C34: A message its reader refuses costs the client an error, not its session: whatever
    the reader of a Bind, Parse, Execute, Query or Describe refuses a payload for, the loop
    answers with the error the reader names, leaves the database alone and waits for the next
    message with a ReadyForQuery due.  A Bind with a negative parameter length, or with bytes
    missing or left over behind its parameters, is not one its reader refuses. *)
Theorem malformed_keeps_session `{QueryHandlers} session mem p d :
  small p →
  (∀ e args, parse_bind p = BRefuse e args → ∃ err,
     error_of PSQL_Error_ERROR PSQL_Code_Protocol_Violation e args = Ret err ∧
     react session mem PSQL_Bind p d = Ret (Some true, d, [error_wire err])) ∧
  (∀ e args, parse_parse p = Refuse e args → ∃ err,
     error_of PSQL_Error_ERROR PSQL_Code_Protocol_Violation e args = Ret err ∧
     react session mem PSQL_Parse p d = Ret (Some true, d, [error_wire err])) ∧
  (∀ e args, parse_execute p = Refuse e args → ∃ err,
     error_of PSQL_Error_ERROR PSQL_Code_Protocol_Violation e args = Ret err ∧
     react session mem PSQL_Execute p d = Ret (Some true, d, [error_wire err])) ∧
  (∀ e args, parse_text "Query" "query" p = Refuse e args → ∃ err,
     error_of PSQL_Error_ERROR PSQL_Code_Syntax_Error e args = Ret err ∧
     react session mem PSQL_Query p d = Ret (Some true, d, [error_wire err])) ∧
  (∀ e args, parse_target "Describe" "name" p = Refuse e args → ∃ err,
     error_of PSQL_Error_WARNING PSQL_Code_Protocol_Violation e args = Ret err ∧
     react session mem PSQL_Describe p d = Ret (Some true, d, [error_wire err])).
Proof.
  intros Hs.
  pose proof (read_bind_spec p [] Hs) as Hb. pose proof (read_parse_refines p [] Hs) as Hp.
  pose proof (read_execute_refines p [] Hs) as Hx. pose proof (read_query_refines p [] Hs) as Hq.
  pose proof (read_describe_refines p [] Hs) as Hd.
  split_and!; intros e args E; rewrite E in *; cbn [bind_answer] in Hb; unfold react, dispatch;
    rewrite load8_frame; cbn [mbind outcome_bind]; fold (blank d).
  - destruct (rejected_continues read_bind (handle_bind session mem) true _ d _ _ _ _ Hb) as (err & He & Hr).
    exists err. split; [done|]. rewrite decide_True by done. by rewrite Hr.
  - destruct (rejected_continues read_parse (handle_parse session) true _ d _ _ _ _ Hp) as (err & He & Hr).
    exists err. split; [done|]. rewrite !decide_False, decide_True by done. by rewrite Hr.
  - destruct (rejected_continues read_execute handle_execute false _ d _ _ _ _ Hx) as (err & He & Hr).
    exists err. split; [done|]. rewrite !decide_False, decide_True by done. by rewrite Hr.
  - destruct (rejected_continues read_query handle_query true _ d _ _ _ _ Hq) as (err & He & Hr).
    exists err. split; [done|]. rewrite !decide_False, decide_True by done. by rewrite Hr.
  - destruct (rejected_continues read_describe handle_describe true _ d _ _ _ _ Hd) as (err & He & Hr).
    exists err. split; [done|]. rewrite !decide_False, decide_True by done. by rewrite Hr.
Qed.

(** ** Prepare and bind over the wire *)
Definition announce (i : bool) : list (list byte) := if i then [ready_frame] else [].

Lemma react_parse `{QueryHandlers} session mem p pr d d' sent :
  read_parse (frame PSQL_Parse p []) = Ret (Some pr, None) →
  handle_parse session pr d = Ret (0, d', sent) → react session mem PSQL_Parse p d = Ret (Some true, d', sent).
Proof.
  intros Er Eh. unfold react, dispatch. rewrite load8_frame. cbn [mbind outcome_bind].
  rewrite !decide_False, decide_True by done. unfold read_and_handle. rewrite Er. cbn [mbind outcome_bind ls_db].
  by rewrite Eh.
Qed.
Lemma react_bind `{QueryHandlers} session mem p b d d' sent :
  read_bind (frame PSQL_Bind p []) = Ret (Some b, None) →
  handle_bind session mem b d = Ret (0, d', sent) → react session mem PSQL_Bind p d = Ret (Some true, d', sent).
Proof.
  intros Er Eh. unfold react, dispatch. rewrite load8_frame. cbn [mbind outcome_bind].
  rewrite decide_True by done. unfold read_and_handle. rewrite Er. cbn [mbind outcome_bind ls_db].
  by rewrite Eh.
Qed.

Lemma serve_react `{QueryHandlers} session mem i idle t p ms d ready r d1 sent d2 rest :
  react session mem t p d = Ret (Some r, d1, sent) → serve session mem idle ms d1 r = Ret (d2, rest) →
  serve session mem (i :: idle) ((t, p) :: ms) d ready =
  Ret (d2, (if i && ready then [ready_frame] else []) ++ sent ++ rest).
Proof. intros Er Es. cbn [serve]. rewrite Er, bind_ret_l, Es, bind_ret_l. done. Qed.

(** From bytes on the network to a bound statement.  A client that sends a Parse
    and a Bind to it and closes leaves the expanded statement in the database; it
    got ParseComplete and BindComplete, and a ReadyForQuery at each idle wait. *)
Theorem session_parse_bind `{QueryHandlers} `{!YottaDBLaws} session mem events i1 i2 i3 s pm bm d1 d2 t n :
  waits events [i1; i2; i3] → steady s → ls_ready s = true →
  wf_parse pm → fits (PSQL_Parse, encode_parse pm) → wf_bind bm → fits (PSQL_Bind, encode_bind bm) →
  stream (ls_net s) = frames [(PSQL_Parse, encode_parse pm); (PSQL_Bind, encode_bind bm)] →
  bm_source bm = pm_dest pm → expands bm (pm_query pm) t → zlen t < MAX_STR_CONST → zlen t ≤ n →
  ydb_set_s (ls_db s) (session_node session "prepared" (pm_dest pm)) (pm_query pm) = (YDB_OK, d1) →
  ydb_set_s d1 (session_node session "bound" (bm_dest bm)) t = (YDB_OK, d2) →
  finishes (rocto_main_loop session mem events s) d2
    (ls_sent s ++ announce i1 ++ [frame (chr "1") [] []] ++ announce i2 ++ [frame (chr "2") [] []] ++ announce i3) ∧
  ydb_get_s d2 (session_node session "bound" (bm_dest bm)) n = (YDB_OK, t).
Proof.
  intros Hw Hst Hrd Hp Hpf Hb Hbf Hn Hname Hexp Ht Htn Hset1 Hset2.
  assert (Hq : zlen (pm_query pm) < MAX_STR_CONST).
  { destruct Hpf as [_ Hl]. cbn [snd] in Hl. unfold encode_parse in Hl. rewrite !zlen_app, !zlen_cons, !zlen_app in Hl.
    pose proof (zlen_nonneg (pm_dest pm)). rewrite zlen_cons, zlen_app in Hl. zlen_pos. lia. }
  destruct (parse_bind_steps session mem pm bm (ls_db s) d1 d2 t [] [] n Hp (proj1 Hpf) Hb (proj1 Hbf) Hname Hq Hexp
    Ht Htn Hset1 Hset2) as (p & b & Rp & Hhp & Rb & Hhb & Hget).
  split; [|done]. eapply (main_loop_spec session mem events [i1; i2; i3] Hw s); [done| |exact Hn|].
  - constructor; [exact Hpf|]. constructor; [exact Hbf|constructor].
  - rewrite Hrd.
    assert (E3 : serve session mem [i3] [] d2 true = Ret (d2, announce i3)) by (unfold announce; by destruct i3).
    pose proof (serve_react session mem i2 [i3] _ _ [] d1 true true d2 _ d2 _ (react_bind session mem _ b _ d2 _ Rb Hhb) E3) as E2.
    rewrite (serve_react session mem i1 _ _ _ _ _ true true d1 _ d2 _ (react_parse session mem _ p _ d1 _ Rp Hhp) E2).
    unfold announce. by destruct i1, i2.
Qed.

(** ** A session to try them on *)
#[local] Existing Instance map_db.
#[local] Existing Instance map_db_laws.
#[local] Instance quiet_handlers : QueryHandlers :=
  {| handle_query _ d := Ret (0, d, []); handle_execute _ d := Ret (0, d, []); handle_describe _ d := Ret (0, d, []) |}.

Definition sample_messages : list (byte * list byte) :=
  [(PSQL_Parse, encode_parse sample_parse_msg); (PSQL_Bind, encode_bind sample_bind_msg)].
Definition sample_events : list select_event :=
  [Idle [Accepts 4; SendInterrupted; Accepts 2]; SelectInterrupted; Pending; Idle [Accepts 6]].
Lemma sample_waits : waits sample_events [true; false; true].
Proof. repeat constructor; done. Defined.
(** The two messages in one piece, after an interruption. *)
Definition sample_network : network :=
  match frames sample_messages with b :: bs => [Interrupted; Data b bs] | [] => [] end.
Definition sample_state : loop_state :=
  {| ls_db := (∅ : gmap (list (list byte)) (list byte)) : @db map_db; ls_sent := []; ls_net := sample_network;
     ls_buffer := malloc (λ _, xff) MAX_STR_CONST; ls_ready := true |}.
Lemma sample_steady : steady sample_state.
Proof. unfold steady, sample_state. cbn [ls_buffer]. apply zlen_malloc. unfold MAX_STR_CONST. lia. Defined.
Definition sample_prepared : @db map_db :=
  ({[ session_node sample_session "prepared" (lit "s") := lit "select $0" ]} : gmap (list (list byte)) (list byte)).
Definition sample_db : @db map_db :=
  (<[session_node sample_session "bound" (lit "p") := sample_expansion]> (sample_prepared : gmap _ _)
     : gmap (list (list byte)) (list byte)).
Lemma sample_wf_parse : wf_parse sample_parse_msg.
Proof. split; eval_decide. Defined.
Lemma sample_wf_bind : wf_bind sample_bind_msg.
Proof. split; unfold wf_codes, codes_ok; eval_decide. Defined.

Lemma session_parse_bind_witness :
  finishes (rocto_main_loop sample_session (λ _, x00) sample_events sample_state) sample_db
    ([] ++ [ready_frame] ++ [frame (chr "1") [] []] ++ [] ++ [frame (chr "2") [] []] ++ [ready_frame]) ∧
  ydb_get_s sample_db (session_node sample_session "bound" (lit "p")) 100 = (YDB_OK, sample_expansion).
Proof.
  apply (session_parse_bind sample_session (λ _, x00) sample_events true false true sample_state
    sample_parse_msg sample_bind_msg sample_prepared sample_db sample_expansion 100 sample_waits sample_steady eq_refl
    sample_wf_parse).
  - split; vm_compute; done.
  - exact sample_wf_bind.
  - split; vm_compute; done.
  - vm_compute. reflexivity.
  - reflexivity.
  - exact sample_expands.
  - vm_compute. reflexivity.
  - vm_compute. discriminate.
  - reflexivity.
  - reflexivity.
Defined.

Definition empty_db : @db map_db := (∅ : gmap (list (list byte)) (list byte)).
Definition sync_state : loop_state :=
  {| ls_db := empty_db; ls_sent := []; ls_net := [Data PSQL_Sync (be32 4)];
     ls_buffer := malloc (λ _, xff) MAX_STR_CONST; ls_ready := true |}.
Lemma main_loop_serves_witness :
  finishes (rocto_main_loop sample_session (λ _, x00) [Pending; Pending] sync_state) empty_db (ls_sent sync_state ++ []).
Proof.
  apply (main_loop_serves sample_session (λ _, x00) [Pending; Pending] [false; false] sync_state [(PSQL_Sync, [])] empty_db []).
  - repeat constructor.
  - exact sample_steady.
  - constructor; [|constructor]. split; vm_compute; done.
  - vm_compute. reflexivity.
  - vm_compute. reflexivity.
Defined.

Lemma malformed_keeps_session_witness :
  ∃ err, error_of PSQL_Error_ERROR PSQL_Code_Syntax_Error ERR_ROCTO_MISSING_DATA [str "Query"; str "query"] = Ret err ∧
    react sample_session (λ _, x00) PSQL_Query [] sample_db = Ret (Some true, sample_db, [error_wire err]).
Proof.
  destruct (malformed_keeps_session sample_session (λ _, x00) [] sample_db) as (_ & _ & _ & Hq & _); [vm_compute; reflexivity|].
  exact (Hq _ _ eq_refl).
Defined.
