(* ===== verification/Connection.v ===== *)
(** * A client connection

    What the process forked for a client does in [rocto.c]: the SSL refusal, the
    startup message, the password exchange, the session's number and variables, the
    parameter reports, and then the session loop.

    The build is one without TLS, where a client that asks for it gets an N unless
    the configuration turns SSL on (and then gets nothing).  [salt] is what the
    getrandom system call returns.  The lists of [send_event] are the kernel's
    answers to the sends whose result the code looks at; a message whose result is
    dropped is recorded as given to [send_message]. *)
From stdpp Require Import strings.
From S2P Require Import Prelude CMem Errors Frontend FrontendSpec FrontendTheorems Backend BackendTheorems SocketIO SocketTheorems Deserialize Session Auth MainLoop.

(** The rest of libyottadb the connection uses: the new value of an increment, and
    the subscript after a given one under a node ([YDB_ERR_NODEEND] after the last). *)
Class YottaDBNodes `{YottaDB} := {
  ydb_incr_s : db → list (list byte) → ydb_status * db * list byte;
  ydb_subscript_next_s : db → list (list byte) → list byte → ydb_status * list byte;
}.

(** The members of [config] used here. *)
Record OctoConfig := { ssl_on : bool; octo_global_name : list byte; session_global_name : list byte }.

Section connection.
Context `{QueryHandlers} `{!YottaDBNodes} `{MD5Hash} (config : OctoConfig) (mem : nat → byte).

(** ** Login *)
Inductive login :=
  | Refused (sent : list (list byte))
  | Accepted (startup_message : StartupMessage) (sent : list (list byte)) (net : network).

Definition server_error (e : ERROR) (text : string) : outcome (list byte) :=
  err ← error_of PSQL_Error_ERROR PSQL_Code_Protocol_Violation e [str text];
  Ret (error_wire err).
(** [send_message(&rocto_session, (BaseMessage* )(&err->type)); free(err); break;] *)
Definition refuse (sent : list (list byte)) (err : option ErrorResponse) : outcome login :=
  match err with
  | Some err => Ret (Refused (sent ++ [error_wire err]))
  | None => Undef Uninitialised
  end.

(** "Validate user credentials", from the message in the buffer. *)
Definition check_password (salt : list byte) (startup_message : StartupMessage) (d : db)
    (sent : list (list byte)) (buffer : list byte) (net : network) : outcome login :=
  '(password_message, err) ← read_password_message buffer;
  match password_message with
  | None => refuse sent err
  | Some password_message =>
      '(result, err) ← handle_password_message (octo_global_name config) mem password_message
                         startup_message salt d;
      if negb (result =? 0) then refuse sent err
      else
        authok ← wire make_authentication_ok;
        Ret (Accepted startup_message (sent ++ [authok]) net)
  end.

(** "Require md5 authentication" *)
Definition require_password (salt : list byte) (sends : list send_event)
    (startup_message : StartupMessage) (d : db) (sent : list (list byte)) (buffer : list byte)
    (net : network) : outcome login :=
  md5auth ← make_authentication_md5_password salt;
  '(result, bytes) ← send_message sends (object md5auth);
  let sent := sent ++ [bytes] in
  if negb (result =? 0) then
    e ← server_error ERR_ROCTO_SEND_FAILED "failed to send MD5 authentication required";
    Ret (Refused (sent ++ [e]))
  else
  '(base_message, rocto_err, net) ← read_message net buffer MAX_STR_CONST;
  match base_message with
  | None =>
      if negb (rocto_err =? -2) then
        e ← server_error ERR_ROCTO_READ_FAILED "failed to read MD5 password";
        Ret (Refused (sent ++ [e]))
      else Ret (Refused sent)
  | Some buffer => check_password salt startup_message d sent buffer net
  end.

(** [refusal]: the kernel's answers to the N; its result is assigned and not used. *)
Definition rocto_login (salt : list byte) (refusal sends : list send_event) (net : network) (d : db)
    : outcome login :=
  '(_, buffer, net) ← read_bytes net (malloc mem MAX_STR_CONST) 0 MAX_STR_CONST 8;
  '(ssl_request, _) ← read_ssl_request buffer;
  '(sent, buffer, net) ←
    (match ssl_request with
     | Some _ =>
         if ssl_on config then Ret ([], buffer, net)
         else
           '(_, bytes) ← send_bytes refusal (lit "N") 1;
           '(_, buffer, net) ← read_bytes net buffer 0 MAX_STR_CONST 8;
           Ret ([bytes], buffer, net)
     | None => Ret ([], buffer, net)
     end);
  '((startup_message, err), net) ← read_startup_message mem net (take 8 buffer);
  match startup_message with
  | None => refuse sent err
  | Some startup_message => require_password salt sends startup_message d sent buffer net
  end.

(** ** The session's variables *)
Definition variable_node (id name : list byte) : list (list byte) :=
  [session_global_name config; id; lit "variables"; name].

(** "Populate default parameters": the result of the set is not looked at. *)
Fixpoint populate_defaults (fuel : nat) (id cur : list byte) (d : db) : outcome db :=
  match fuel with
  | O => NoFuel
  | S fuel' =>
      let '(status, name) := ydb_subscript_next_s d [octo_global_name config; lit "variables"] cur in
      if decide (status = YDB_ERR_NODEEND) then Ret d
      else
        _ ← ydb_error_check status;
        let '(status, value) :=
          ydb_get_s d [octo_global_name config; lit "variables"; name] MAX_STR_CONST in
        _ ← ydb_error_check status;
        let '(_, d) := ydb_set_s d (variable_node id name) value in
        populate_defaults fuel' id name d
  end.

(** [helpers/set.c] *)
Definition set (new_value : list byte) (node : list (list byte)) (d : db) : outcome db :=
  let '(status, d) := ydb_set_s d node (ydb_buffer new_value) in
  _ ← ydb_error_check status; Ret d.
(** "Set parameters" *)
Fixpoint set_parameters (data : list byte) (id : list byte) (parms : list (Z * Z)) (d : db) : outcome db :=
  match parms with
  | [] => Ret d
  | (name, value) :: parms' =>
      name ← string_at data name;
      value ← string_at data value;
      d ← set value (variable_node id name) d;
      set_parameters data id parms' d
  end.

(** [buf.buf_addr[buf.len_used] = '\0'] in a buffer of [MAX_STR_CONST] bytes. *)
Definition terminate (s : list byte) : outcome unit :=
  if zlen s <? MAX_STR_CONST then Ret () else Undef OutOfBounds.
(** The ParameterStatus loop; [sends] has the kernel's answers for each message.  The
    flag says whether the loop came to the end, else the process returns. *)
Fixpoint report_parameters (sends : list (list send_event)) (id cur : list byte) (d : db)
    (sent : list (list byte)) : outcome (bool * list (list byte)) :=
  let '(status, name) :=
    ydb_subscript_next_s d [session_global_name config; id; lit "variables"] cur in
  if decide (status = YDB_ERR_NODEEND) then Ret (true, sent)
  else
    _ ← ydb_error_check status;
    _ ← terminate name;
    let '(status, value) := ydb_get_s d (variable_node id name) MAX_STR_CONST in
    _ ← ydb_error_check status;
    _ ← terminate value;
    m ← make_parameter_status mem (Some (name, value));
    match m, sends with
    | None, _ => Undef NullPointer
    | _, [] => NoFuel
    | Some m, s :: sends' =>
        '(result, bytes) ← send_message s (object m);
        if negb (result =? 0) then Ret (false, sent ++ [bytes])
        else report_parameters sends' id name d (sent ++ [bytes])
    end.

(** The session: its number, its variables, the reports, the loop. *)
Definition rocto_session (fuel : nat) (reports : list (list send_event)) (events : list select_event)
    (startup_message : StartupMessage) (sent : list (list byte)) (net : network) (d : db)
    : outcome (db * list (list byte)) :=
  let '(status, d, id) := ydb_incr_s d [session_global_name config] in
  _ ← ydb_error_check status;
  _ ← terminate id;
  d ← populate_defaults fuel id [] d;
  d ← set_parameters (sm_data startup_message) id (sm_parameters startup_message) d;
  '(all, sent) ← report_parameters reports id [] d sent;
  if negb all then Ret (d, sent)
  else
    '(s, _) ← rocto_main_loop {| session_global := session_global_name config; session_id := id |} mem
                events {| ls_db := d; ls_sent := sent; ls_net := net;
                          ls_buffer := malloc mem MAX_STR_CONST; ls_ready := true |};
    Ret (ls_db s, ls_sent s).

Definition rocto_client (salt : list byte) (refusal sends : list send_event) (fuel : nat)
    (reports : list (list send_event)) (events : list select_event) (net : network) (d : db)
    : outcome (db * list (list byte)) :=
  l ← rocto_login salt refusal sends net d;
  match l with
  | Refused sent => Ret (d, sent)
  | Accepted startup_message sent net => rocto_session fuel reports events startup_message sent net d
  end.
End connection.
