(* ===== verification/ConnectionTheorems.v ===== *)
(** * From the first byte of a connection to its session

    Who gets in, and what a client that got in finds: a session whose variables are
    the defaults overridden by its startup parameters, a report of each, and the
    session loop. *)
From stdpp Require Import strings gmap.
From S2P Require Import Prelude CMem Errors Frontend FrontendSpec FrontendTheorems Backend BackendTheorems SocketIO SocketTheorems Deserialize Session SessionTheorems Auth AuthTheorems MainLoop MainLoopTheorems Connection.

(** ** Login *)
Fixpoint user_of (ps : list (list byte * list byte)) : option (list byte) :=
  match ps with
  | [] => None
  | (name, value) :: ps' => if decide (name = lit "user") then Some value else user_of ps'
  end.
Lemma find_user_spec data offs ps :
  Forall2 (parm_at data) offs ps → find_user data offs = Ret (user_of ps).
Proof.
  induction 1 as [|[o1 o2] [n v] offs ps [Hn Hv] _ IH]; [done|]. cbn [fst snd] in *.
  cbn [find_user user_of]. rewrite Hn. cbn [mbind outcome_bind].
  destruct (decide _); [|exact IH]. by rewrite Hv.
Qed.
Lemma user_of_no_nul ps user : Forall startup_parm_ok ps → user_of ps = Some user → no_nul user.
Proof.
  induction 1 as [|[n v] ps (_ & _ & Hv) _ IH]; [done|]. cbn [user_of]. destruct (decide _); [|exact IH].
  by intros [= <-].
Qed.

Definition ssl_request_wire : list byte := be32 8 ++ be32 80877103.
Definition md5_request (salt : list byte) : list byte := frame (chr "R") (be32 5 ++ take 4 salt) [].
Definition auth_ok : list byte := frame (chr "R") (be32 0) [].

(** Eight bytes into the front of the buffer. *)
Lemma read_eight net buf h rest :
  stream net = h ++ rest → zlen h = 8 → zlen buf = MAX_STR_CONST →
  ∃ net', read_bytes net buf 0 MAX_STR_CONST 8 = Ret (0, h ++ drop 8 buf, net') ∧ stream net' = rest.
Proof.
  intros Hs Hh Hb. assert (HM : MAX_STR_CONST = 32768) by reflexivity.
  revert HM Hb. generalize MAX_STR_CONST. intros M HM Hb.
  destruct (split_block buf 0 8) as (pre & mid & Hbuf & _ & Hp & Hm); [lia..|].
  assert (pre = []) as -> by (destruct pre; [done|zlia]). cbn [app] in Hbuf. rewrite Z.add_0_l in Hbuf.
  pose proof (read_bytes_spec net [] mid (drop (Z.to_nat 8) buf) 0 M 8 eq_refl ltac:(done) ltac:(lia)) as H.
  cbn [app] in H. rewrite <- Hbuf, Hs in H. zlen_pos.
  assert (Hl : length mid = length h) by (unfold zlen in *; lia).
  destruct (Z.leb_spec 8 (zlen (h ++ rest))); [|rewrite zlen_app in *; zlia].
  rewrite Hl, take_app_length, drop_app_length in H. destruct H as (net' & -> & Hs' & _). by exists net'.
Qed.

Lemma zlen_buffer mem : zlen (malloc mem MAX_STR_CONST) = MAX_STR_CONST.
Proof. apply zlen_malloc. unfold MAX_STR_CONST. lia. Qed.
Lemma zlen_drop_eight (b : list byte) : zlen b = MAX_STR_CONST → zlen (drop 8 b) = MAX_STR_CONST - 8.
Proof.
  unfold zlen. rewrite length_drop. assert (HM : MAX_STR_CONST = 32768) by reflexivity. lia.
Qed.

Lemma zlen_startup_header p : zlen (startup_header p) = 8.
Proof. unfold startup_header. by rewrite zlen_app, !zlen_be32. Qed.
Lemma zlen_ssl_request_wire : zlen ssl_request_wire = 8.
Proof. unfold ssl_request_wire. by rewrite zlen_app, !zlen_be32. Qed.
Lemma take_startup_header p r : take 8 (startup_header p ++ r) = startup_header p.
Proof. apply take_app_length'. pose proof (zlen_startup_header p) as H. unfold zlen in H. lia. Qed.

Lemma read_ssl_request_yes buf : ∃ q, read_ssl_request (ssl_request_wire ++ buf) = Ret (Some q, None).
Proof.
  unfold read_ssl_request. rewrite (load_bytes_app_eq _ 0 8 [] ssl_request_wire buf) by done.
  by eexists.
Qed.
Lemma read_ssl_request_no payload buf :
  0 < zlen payload → zlen payload + 8 < 2 ^ 31 →
  ∃ err, read_ssl_request (startup_header payload ++ buf) = Ret (None, err).
Proof.
  intros Hp Hs. unfold read_ssl_request.
  rewrite (load_bytes_app_eq _ 0 8 [] (startup_header payload) buf) by done. cbn [mbind outcome_bind].
  unfold startup_header. rewrite (load_be32_at _ 0 [] (zlen payload + 8) (be32 196608)) by done.
  cbn [mbind outcome_bind]. rewrite (load_be32_at _ 4 (be32 (zlen payload + 8)) 196608 []);
    [|by rewrite app_nil_r|done]. cbn [mbind outcome_bind].
  rewrite u32_small by lia. destruct (Z.eqb_spec (zlen payload + 8) 8); [lia|]. cbn [negb].
  unfold fatal_error, reject.
  edestruct error_of_returns as [err ->]. by eexists.
Qed.

Lemma send_n refusal :
  Forall positive_event refusal → 1 ≤ capacity refusal → send_bytes refusal (lit "N") 1 = Ret (0, lit "N").
Proof.
  intros Hp Hc. unfold send_bytes.
  exact (proj1 (send_loop_spec refusal (lit "N") [] (lit "N") [] [] eq_refl eq_refl Hp) Hc).
Qed.
Lemma send_md5_request salt sends :
  4 ≤ zlen salt → Forall positive_event sends → 13 ≤ capacity sends →
  ∃ m, make_authentication_md5_password salt = Ret m ∧
    send_message sends (object m) = Ret (0, md5_request salt).
Proof.
  intros Hs Hp Hc. destruct salt as [|a [|b [|c [|d salt]]]]; try zlia.
  unfold make_authentication_md5_password.
  rewrite (load_bytes_app_eq _ 0 4 [] [a; b; c; d] salt) by done. cbn [mbind outcome_bind].
  eexists. split; [done|]. change (md5_request _) with (frame (chr "R") (be32 5 ++ [a; b; c; d]) []).
  set (m := {| msg_type := _ |}).
  apply (send_message_spec m (be32 5 ++ [a; b; c; d])); done.
Qed.

Section login.
Context `{QueryHandlers} `{!YottaDBNodes} `{MD5Hash} (config : OctoConfig) (mem : nat → byte).

Lemma check_password_spec salt sm d sent password tl net user fs h rest :
  no_nul password → small (password ++ [nul]) →
  find_user (sm_data sm) (sm_parameters sm) = Ret (Some user) → no_nul user → zlen user < MAX_STR_CONST →
  ydb_get_s d [octo_global_name config; lit "users"; user] MAX_STR_CONST = (YDB_OK, user_row fs h rest) →
  Forall no_bar fs → zlen fs = 10 → no_bar h → no_nul h → zlen (user_row fs h rest) ≤ MAX_STR_CONST → 4 ≤ zlen salt →
  if decide (password = lit "md5" ++ server_hash h salt) then
    check_password config mem salt sm d sent (frame PSQL_PasswordMessage (password ++ [nul]) [] ++ tl) net =
      Ret (Accepted sm (sent ++ [auth_ok]) net)
  else ∃ err, check_password config mem salt sm d sent (frame PSQL_PasswordMessage (password ++ [nul]) [] ++ tl) net =
      Ret (Refused (sent ++ [error_wire err])).
Proof.
  intros Hp Hs Hu Hun Hul Hget Hfs H10 Hbar Hnul Hrow Hsalt. unfold check_password. rewrite <- frame_app.
  pose proof (read_password_message_spec (password ++ [nul]) tl Hs) as Hr.
  unfold parse_text in Hr. rewrite (split_nul_app password []) in Hr by done.
  destruct Hr as (q & -> & Hq). cbn [mbind outcome_bind].
  rewrite (handle_password_spec _ mem q sm salt d user fs h rest password) by done.
  destruct (decide (password = _)) as [E|E]; [done|].
  assert (Herr : ∃ err, (if decide (take 3 password = lit "md5") then auth_error ERR_ROCTO_BAD_PASSWORD []
    else auth_error ERR_ROCTO_PASSWORD_TYPE [str "md5"]) = Ret (1, Some err))
    by (destruct (decide _); apply auth_error_returns).
  destruct Herr as [err ->]. by exists err.
Qed.

(** The connection from its first byte; [asks] when the client asks for SSL first. *)
Definition hello (asks : bool) (ps : list (list byte * list byte)) : list byte :=
  (if asks then ssl_request_wire else []) ++ startup_header (encode_startup ps) ++ encode_startup ps.
Definition greeting (asks : bool) (salt : list byte) : list (list byte) :=
  (if asks then [lit "N"] else []) ++ [md5_request salt].

Lemma zlen_encode_startup ps : 0 < zlen (encode_startup ps).
Proof. destruct ps as [|[n v] ps]; cbn [encode_startup]; [done|]. zlia. Qed.

(** What follows the eight bytes of the startup message. *)
Definition login_start (salt : list byte) (sends : list send_event) (d : db) (sent : list (list byte))
    (buffer : list byte) (net : network) : outcome login :=
  '((startup_message, err), net) ← read_startup_message mem net (take 8 buffer);
  match startup_message with
  | None => refuse sent err
  | Some startup_message => require_password config mem salt sends startup_message d sent buffer net
  end.
Lemma rocto_login_plain salt refusal sends net d buffer net1 r err :
  read_bytes net (malloc mem MAX_STR_CONST) 0 MAX_STR_CONST 8 = Ret (r, buffer, net1) →
  read_ssl_request buffer = Ret (None, err) →
  rocto_login config mem salt refusal sends net d = login_start salt sends d [] buffer net1.
Proof. intros E1 E2. unfold rocto_login. rewrite E1. cbn [mbind outcome_bind]. by rewrite E2. Qed.
Lemma rocto_login_refuses_ssl salt refusal sends net d buffer net1 r q err r' bytes r2 buffer2 net2 :
  read_bytes net (malloc mem MAX_STR_CONST) 0 MAX_STR_CONST 8 = Ret (r, buffer, net1) →
  read_ssl_request buffer = Ret (Some q, err) → ssl_on config = false →
  send_bytes refusal (lit "N") 1 = Ret (r', bytes) →
  read_bytes net1 buffer 0 MAX_STR_CONST 8 = Ret (r2, buffer2, net2) →
  rocto_login config mem salt refusal sends net d = login_start salt sends d [bytes] buffer2 net2.
Proof.
  intros E1 E2 E3 E4 E5. unfold rocto_login. rewrite E1. cbn [mbind outcome_bind]. rewrite E2.
  cbn [mbind outcome_bind]. rewrite E3, E4. cbn [mbind outcome_bind]. by rewrite E5.
Qed.

Lemma login_start_spec salt sends d ps more net1 buf1 sent :
  Forall startup_parm_ok ps → zlen (encode_startup ps) + 8 < 2 ^ 31 →
  stream net1 = encode_startup ps ++ more → zlen buf1 = MAX_STR_CONST - 8 →
  let buffer := startup_header (encode_startup ps) ++ buf1 in
  ∃ sm net', login_start salt sends d sent buffer net1 = require_password config mem salt sends sm d sent buffer net' ∧
    Forall2 (parm_at (sm_data sm)) (sm_parameters sm) ps ∧ zlen buffer = MAX_STR_CONST ∧ stream net' = more.
Proof.
  intros Hok Hz Hn1 Hb1 buffer. pose proof (zlen_encode_startup ps) as Hpos. unfold buffer.
  assert (Hb : zlen (startup_header (encode_startup ps) ++ buf1) = MAX_STR_CONST)
    by (rewrite zlen_app, Hb1, zlen_startup_header; lia).
  unfold login_start. rewrite take_startup_header.
  destruct (read_startup_message_spec mem net1 _ more Hpos Hz Hn1) as (net' & Hn' & Hr).
  unfold parse_startup_payload in Hr. rewrite parse_startup_encode in Hr by (done || lia).
  destruct Hr as (sm & -> & Hsm & _). cbn [mbind outcome_bind]. exists sm, net'. split_and!; done.
Qed.

(** Up to the password request, with SSL asked for or not. *)
Lemma rocto_login_hello salt refusal sends net d asks ps more :
  Forall startup_parm_ok ps → zlen (encode_startup ps) + 8 < 2 ^ 31 →
  stream net = hello asks ps ++ more → (asks → ssl_on config = false) →
  Forall positive_event refusal → 1 ≤ capacity refusal →
  ∃ sm buf net', rocto_login config mem salt refusal sends net d =
      require_password config mem salt sends sm d (if asks then [lit "N"] else []) buf net' ∧
    Forall2 (parm_at (sm_data sm)) (sm_parameters sm) ps ∧ zlen buf = MAX_STR_CONST ∧ stream net' = more.
Proof.
  intros Hok Hz Hs Hssl Hrp Hrc. pose proof (zlen_encode_startup ps) as Hpos.
  pose proof (zlen_buffer mem) as Hbuf. unfold hello in Hs. rewrite <- !app_assoc in Hs. destruct asks.
  - destruct (read_eight net _ _ _ Hs zlen_ssl_request_wire Hbuf) as (net1 & E1 & Hs1).
    destruct (read_ssl_request_yes (drop 8 (malloc mem MAX_STR_CONST))) as [q E2].
    assert (Hb1 : zlen (ssl_request_wire ++ drop 8 (malloc mem MAX_STR_CONST)) = MAX_STR_CONST)
      by (rewrite zlen_app, zlen_drop_eight, zlen_ssl_request_wire by done; lia).
    destruct (read_eight net1 _ _ _ Hs1 (zlen_startup_header _) Hb1) as (net2 & E5 & Hs2).
    rewrite (rocto_login_refuses_ssl salt refusal sends net d _ _ _ _ _ _ _ _ _ _ E1 E2 (Hssl I)
      (send_n refusal Hrp Hrc) E5).
    destruct (login_start_spec salt sends d ps more net2 _ [lit "N"] Hok Hz Hs2 (zlen_drop_eight _ Hb1))
      as (sm & net' & E & H4). eexists sm, _, net'. split; [exact E|exact H4].
  - cbn [app] in Hs. destruct (read_eight net _ _ _ Hs (zlen_startup_header _) Hbuf) as (net1 & E1 & Hs1).
    destruct (read_ssl_request_no _ (drop 8 (malloc mem MAX_STR_CONST)) Hpos Hz) as [err E2].
    rewrite (rocto_login_plain salt refusal sends net d _ _ _ _ E1 E2).
    destruct (login_start_spec salt sends d ps more net1 _ [] Hok Hz Hs1 (zlen_drop_eight _ Hbuf))
      as (sm & net' & E & H4). eexists sm, _, net'. split; [exact E|exact H4].
Qed.

(** From the password request on. *)
Lemma require_password_spec salt sends sm d sent buf net password more user fs h rest :
  stream net = frame PSQL_PasswordMessage (password ++ [nul]) [] ++ more → zlen buf = MAX_STR_CONST →
  no_nul password → 6 + zlen password ≤ MAX_STR_CONST →
  find_user (sm_data sm) (sm_parameters sm) = Ret (Some user) → no_nul user → zlen user < MAX_STR_CONST →
  ydb_get_s d [octo_global_name config; lit "users"; user] MAX_STR_CONST = (YDB_OK, user_row fs h rest) →
  Forall no_bar fs → zlen fs = 10 → no_bar h → no_nul h → zlen (user_row fs h rest) ≤ MAX_STR_CONST → 4 ≤ zlen salt →
  Forall positive_event sends → 13 ≤ capacity sends →
  if decide (password = lit "md5" ++ server_hash h salt) then
    ∃ net', require_password config mem salt sends sm d sent buf net =
        Ret (Accepted sm (sent ++ [md5_request salt; auth_ok]) net') ∧ stream net' = more
  else ∃ err, require_password config mem salt sends sm d sent buf net =
        Ret (Refused (sent ++ [md5_request salt; error_wire err])).
Proof.
  intros Hn Hb Hp Hpz Hu Hun Hul Hget Hfs H10 Hbar Hnul Hrow Hsalt Hsp Hsc. unfold require_password.
  destruct (send_md5_request salt sends Hsalt Hsp Hsc) as (m & -> & Hm). cbn [mbind outcome_bind].
  rewrite Hm. cbn [mbind outcome_bind]. change (negb (0 =? 0)) with false. cbn iota.
  assert (Hz : zlen (password ++ [nul]) = zlen password + 1) by zlia.
  assert (Hsm : small (password ++ [nul])) by (assert (HM : MAX_STR_CONST = 32768) by reflexivity; unfold small; lia).
  destruct (read_message_spec net buf _ _ more Hn Hsm ltac:(lia)) as (net' & Hr & Hn' & _).
  rewrite Hb in Hr. rewrite Hr. cbn [mbind outcome_bind].
  pose proof (check_password_spec salt sm d (sent ++ [md5_request salt]) password
    (drop (Z.to_nat (5 + zlen (password ++ [nul]))) buf) net' user fs h rest
    Hp Hsm Hu Hun Hul Hget Hfs H10 Hbar Hnul Hrow Hsalt) as Hc.
  destruct (decide _) as [E|E].
  - rewrite Hc, <- app_assoc. by exists net'.
  - destruct Hc as [err ->]. rewrite <- app_assoc. by exists err.
Qed.

Lemma login_spec salt refusal sends net d asks ps password more user fs h rest :
  stream net = hello asks ps ++ frame PSQL_PasswordMessage (password ++ [nul]) [] ++ more →
  Forall startup_parm_ok ps → zlen (encode_startup ps) + 8 < 2 ^ 31 → (asks → ssl_on config = false) →
  no_nul password → 6 + zlen password ≤ MAX_STR_CONST →
  user_of ps = Some user → zlen user < MAX_STR_CONST →
  ydb_get_s d [octo_global_name config; lit "users"; user] MAX_STR_CONST = (YDB_OK, user_row fs h rest) →
  Forall no_bar fs → zlen fs = 10 → no_bar h → no_nul h → zlen (user_row fs h rest) ≤ MAX_STR_CONST →
  4 ≤ zlen salt → Forall positive_event refusal → 1 ≤ capacity refusal →
  Forall positive_event sends → 13 ≤ capacity sends →
  if decide (password = lit "md5" ++ server_hash h salt) then
    ∃ sm net', rocto_login config mem salt refusal sends net d =
        Ret (Accepted sm (greeting asks salt ++ [auth_ok]) net') ∧
      Forall2 (parm_at (sm_data sm)) (sm_parameters sm) ps ∧ stream net' = more
  else ∃ err, rocto_login config mem salt refusal sends net d =
        Ret (Refused (greeting asks salt ++ [error_wire err])).
Proof.
  intros Hn Hok Hz Hssl Hp Hpz Hu Hul Hget Hfs H10 Hbar Hnul Hrow Hsalt Hrp Hrc Hsp Hsc.
  destruct (rocto_login_hello salt refusal sends net d asks ps _ Hok Hz Hn Hssl Hrp Hrc)
    as (sm & buf & net1 & -> & Hsm & Hb & Hn1).
  pose proof (find_user_spec _ _ _ Hsm) as Hfu. rewrite Hu in Hfu.
  pose proof (require_password_spec salt sends sm d (if asks then [lit "N"] else []) buf net1 password more
    user fs h rest Hn1 Hb Hp Hpz Hfu (user_of_no_nul _ _ Hok Hu) Hul Hget Hfs H10 Hbar Hnul Hrow Hsalt Hsp Hsc) as Hr.
  unfold greeting. destruct (decide _) as [E|E].
  - destruct Hr as (net' & Hr & Hn'). exists sm, net'. rewrite <- app_assoc. split; [exact Hr|]. split; [exact Hsm|exact Hn'].
  - destruct Hr as (err & Hr). exists err. rewrite <- app_assoc. exact Hr.
Qed.
End login.

(** ** The session's variables *)
(** What the documentation says of subscripts: a node has a list of distinct non-empty
    ones, which [ydb_subscript_next_s] walks from the empty string on; setting a node
    adds its last subscript under its parent and nothing elsewhere but on the way to it. *)
Class YottaDBNodesLaws `{YottaDBNodes} := {
  subscripts : db → list (list byte) → list (list byte);
  subscripts_NoDup d k : NoDup (subscripts d k);
  subscripts_nonempty d k : [] ∉ subscripts d k;
  next_first d k : ydb_subscript_next_s d k [] =
    match subscripts d k with [] => (YDB_ERR_NODEEND, []) | s :: _ => (YDB_OK, s) end;
  next_after d k l1 s l2 : subscripts d k = l1 ++ s :: l2 →
    ydb_subscript_next_s d k s =
    match l2 with [] => (YDB_ERR_NODEEND, []) | s' :: _ => (YDB_OK, s') end;
  subscripts_set d k x v d' y : ydb_set_s d (k ++ [x]) v = (YDB_OK, d') → x ≠ [] →
    y ∈ subscripts d' k ↔ y = x ∨ y ∈ subscripts d k;
  subscripts_set_other d k k' v d' : ydb_set_s d k v = (YDB_OK, d') → (1 < length k)%nat → ¬ k' `prefix_of` k →
    subscripts d' k' = subscripts d k';
}.

Definition parameter_frame (name value : list byte) : list byte :=
  frame PSQL_ParameterStatus (cstr name ++ [nul] ++ cstr value ++ [nul]) [].
(** Later writes win. *)
Definition write_all (ps : list (list byte * list byte)) (m : gmap (list byte) (list byte))
    : gmap (list byte) (list byte) := foldl (λ m p, <[p.1 := p.2]> m) m ps.

(** The header of a message, from what goes out. *)
Lemma wire_fields m t payload :
  wire m = Ret (frame t payload []) → msg_type m = t ∧ ntohl (msg_length m) = zlen payload + 4.
Proof.
  unfold wire, load_bytes. remember (object m) as o eqn:Ho. destruct (_ || _) eqn:E; [done|]. intros [= Hw].
  apply orb_false_iff in E as [E1 E2]. apply orb_false_iff in E1 as [_ E1].
  apply Z.ltb_ge in E1, E2. change (drop (Z.to_nat 0) o) with o in Hw.
  assert (Hl : zlen (frame t payload []) = ntohl (msg_length m) + 1)
    by (rewrite <- Hw; unfold zlen in *; rewrite length_take; lia).
  unfold frame in Hl. rewrite !zlen_app, zlen_header, zlen_nil in Hl. split; [|lia].
  destruct (Z.to_nat (ntohl (msg_length m) + 1)) eqn:En; [pose proof (zlen_nonneg payload); lia|].
  subst o. unfold object, frame, header in Hw. cbn [take app] in Hw. by injection Hw as ->.
Qed.

Section variables.
Context `{QueryHandlers} `{!YottaDBLaws} `{!YottaDBNodes} `{!YottaDBNodesLaws} (config : OctoConfig) (mem : nat → byte).
Context (id : list byte).
Abbreviation vnode := [session_global_name config; id; lit "variables"].

(** The variables of the session in the database are [m]. *)
Definition vars_are (d : db) (m : gmap (list byte) (list byte)) : Prop :=
  (∀ x, x ∈ subscripts d vnode ↔ is_Some (m !! x)) ∧
  ∀ x v, m !! x = Some v → ydb_get_s d (variable_node config id x) MAX_STR_CONST = (YDB_OK, v).
(** Nothing else is changed. *)
Definition elsewhere (d d' : db) : Prop :=
  (∀ k n, (∀ x, k ≠ variable_node config id x) → ydb_get_s d' k n = ydb_get_s d k n) ∧
  ∀ k, k ≠ [] → head k ≠ Some (session_global_name config) → subscripts d' k = subscripts d k.

Lemma elsewhere_refl d : elsewhere d d.
Proof. by split. Qed.
Lemma elsewhere_trans d1 d2 d3 : elsewhere d1 d2 → elsewhere d2 d3 → elsewhere d1 d3.
Proof. intros [Ha Hb] [Hc Hd]. split; intros; [rewrite Hc, Ha|rewrite Hd, Hb]; done. Qed.

Lemma set_variable d m x v d' :
  vars_are d m → ydb_set_s d (variable_node config id x) v = (YDB_OK, d') → x ≠ [] → zlen v ≤ MAX_STR_CONST →
  vars_are d' (<[x := v]> m) ∧ elsewhere d d'.
Proof.
  intros [Hs Hg] Hset Hx Hv. split; split.
  - intros y. rewrite (subscripts_set d vnode x v d' y Hset Hx), Hs.
    destruct (decide (y = x)) as [->|Hne].
    + rewrite lookup_insert_eq. split; [by eexists|by left].
    + rewrite lookup_insert_ne by done. split; [by intros [?|?]|by right].
  - intros y w. destruct (decide (y = x)) as [->|Hne].
    + rewrite lookup_insert_eq. intros [= <-]. by apply (get_set_same d _ v).
    + rewrite lookup_insert_ne by done. intros Hy. rewrite (get_set_other d _ _ v _ _ Hset); [by apply Hg|cbn; lia|].
      unfold variable_node. congruence.
  - intros k n Hk. apply (get_set_other d _ _ v _ _ Hset); [cbn; lia|]. intros E. by apply (Hk x).
  - intros k Hk Hh. apply (subscripts_set_other d _ k v d' Hset); [cbn; lia|]. intros [z Hz].
    destruct k as [|a k]; [done|]. apply Hh. cbn. unfold variable_node in Hz. by injection Hz as <- _.
Qed.

(** Where sets succeed. *)
Definition writable (p : list byte * list byte) : Prop :=
  p.1 ≠ [] ∧ zlen p.2 ≤ MAX_STR_CONST ∧ ∀ d, (ydb_set_s d (variable_node config id p.1) p.2).1 = YDB_OK.

Lemma set_parameters_spec data offs ps d m :
  Forall2 (parm_at data) offs ps → Forall writable ps → vars_are d m →
  ∃ d', set_parameters config data id offs d = Ret d' ∧ vars_are d' (write_all ps m) ∧ elsewhere d d'.
Proof.
  intros Hp. revert d m. induction Hp as [|[o1 o2] [n v] offs ps [Hn Hv] _ IH]; intros d m Hw Hm.
  { exists d. split; [done|]. split; [done|apply elsewhere_refl]. }
  apply Forall_cons_1 in Hw as [(Hne & Hz & Hset) Hw]. cbn [fst snd] in *. specialize (Hset d).
  cbn [set_parameters]. rewrite Hn, Hv. cbn [mbind outcome_bind]. unfold set, ydb_buffer. rewrite (proj2 (Z.leb_le _ _) Hz).
  destruct (ydb_set_s d (variable_node config id n) v) as [st d1] eqn:E. cbn [fst] in Hset. subst st.
  destruct (set_variable _ _ _ _ _ Hm E Hne Hz) as [Hm1 He1].
  change (ydb_error_check YDB_OK) with (Ret ()). cbn [mbind outcome_bind].
  destruct (IH d1 _ Hw Hm1) as (d' & -> & Hm' & He'). exists d'. split; [done|]. split; [done|].
  by eapply elsewhere_trans.
Qed.

(** The defaults: the subscripts still to come are those of [rest]. *)
Lemma populate_defaults_spec rest done_ cur fuel d m :
  (length rest < fuel)%nat → octo_global_name config ≠ session_global_name config →
  let k := [octo_global_name config; lit "variables"] in
  subscripts d k = done_ ++ rest.*1 →
  ydb_subscript_next_s d k cur =
    match rest.*1 with [] => (YDB_ERR_NODEEND, []) | s :: _ => (YDB_OK, s) end →
  Forall (λ p, ydb_get_s d (k ++ [p.1]) MAX_STR_CONST = (YDB_OK, p.2)) rest →
  Forall writable rest → vars_are d m →
  ∃ d', populate_defaults config fuel id cur d = Ret d' ∧ vars_are d' (write_all rest m) ∧ elsewhere d d'.
Proof.
  intros Hf Hog k. revert done_ cur fuel d m Hf.
  induction rest as [|[n v] rest IH]; intros done_ cur [|fuel] d m Hf Hs Hnext Hg Hw Hm; try (cbn in Hf; lia);
    cbn [populate_defaults]; fold k; rewrite Hnext; cbn [fmap list_fmap].
  { exists d. split; [done|]. split; [done|apply elsewhere_refl]. }
  rewrite decide_False by done. change (ydb_error_check YDB_OK) with (Ret ()). cbn [mbind outcome_bind fst].
  apply Forall_cons_1 in Hg as [Hgn Hg]; apply Forall_cons_1 in Hw as [(Hne & Hz & Hset) Hw]. cbn [fst snd] in *.
  change (k ++ [n]) with [octo_global_name config; lit "variables"; n] in Hgn. rewrite Hgn.
  change (ydb_error_check YDB_OK) with (Ret ()). cbn [mbind outcome_bind]. specialize (Hset d).
  destruct (ydb_set_s d (variable_node config id n) v) as [st d1] eqn:E. cbn [fst] in Hset. subst st.
  destruct (set_variable _ _ _ _ _ Hm E Hne Hz) as [Hm1 He1].
  assert (Hk : subscripts d1 k = subscripts d k) by (apply He1; [done|cbn; congruence]).
  destruct (IH (done_ ++ [n]) n fuel d1 (<[n := v]> m)) as (d' & -> & Hm' & He'); [cbn in Hf; lia|..|done|done|].
  - rewrite Hk, Hs. by rewrite <- app_assoc.
  - apply (next_after d1 k done_). by rewrite Hk, Hs.
  - eapply Forall_impl; [|exact Hg]. intros p Hp. cbn beta in *. rewrite (proj1 He1); [done|].
    intros x E'. unfold variable_node, k in E'. by injection E' as E' _.
  - exists d'. split; [done|]. split; [done|]. by eapply elsewhere_trans.
Qed.

(** The kernel takes a report of any size. *)
Definition roomy (s : list send_event) : Prop :=
  Forall positive_event s ∧ 2 * MAX_STR_CONST + 7 ≤ capacity s.

Lemma send_parameter_status s name value :
  roomy s → zlen name < MAX_STR_CONST → zlen value < MAX_STR_CONST →
  ∃ m, make_parameter_status mem (Some (name, value)) = Ret (Some m) ∧
    send_message s (object m) = Ret (0, parameter_frame name value).
Proof.
  intros [Hp Hc] Hn Hv. assert (HM : MAX_STR_CONST = 32768) by reflexivity. rewrite HM in *.
  pose proof (zlen_cstr_le name). pose proof (zlen_cstr_le value).
  set (payload := cstr name ++ [nul] ++ cstr value ++ [nul]).
  assert (Hz : zlen payload ≤ zlen name + zlen value + 2) by (unfold payload; zlia).
  destruct (make_parameter_status_spec mem name value) as (m & E & Hw); [unfold small; fold payload; lia|].
  exists m. split; [done|]. fold payload in Hw. destruct (wire_fields _ _ _ Hw) as [Ht Hlen].
  unfold parameter_frame. fold payload. rewrite <- Ht in *. apply send_message_spec; try done; lia.
Qed.

(** The reports, from the subscript after [cur] on. *)
Lemma report_parameters_spec d m rest : vars_are d m → ∀ done_ cur sends sent,
  subscripts d vnode = done_ ++ rest →
  ydb_subscript_next_s d vnode cur =
    match rest with [] => (YDB_ERR_NODEEND, []) | s :: _ => (YDB_OK, s) end →
  Forall (λ x, zlen x < MAX_STR_CONST) rest → (∀ x v, m !! x = Some v → zlen v < MAX_STR_CONST) →
  (length rest ≤ length sends)%nat → Forall roomy sends →
  report_parameters config mem sends id cur d sent =
    Ret (true, sent ++ ((λ x, parameter_frame x (m !!! x)) <$> rest)).
Proof.
  intros Hm. induction rest as [|x rest IH]; intros done_ cur sends sent Hs Hnext Hx Hv Hl Hr.
  { destruct sends; cbn [report_parameters]; rewrite Hnext; by rewrite app_nil_r. }
  destruct sends as [|s sends]; [cbn in Hl; lia|]. cbn [report_parameters]. rewrite Hnext.
  apply Forall_cons_1 in Hx as [Hx Hxs]; apply Forall_cons_1 in Hr as [Hr Hrs].
  rewrite decide_False by done. change (ydb_error_check YDB_OK) with (Ret ()). cbn [mbind outcome_bind].
  assert (Hxm : is_Some (m !! x)) by (apply Hm; rewrite Hs; apply elem_of_app; right; left).
  destruct Hxm as [v Hxv]. pose proof (Hv x v Hxv) as Hvz.
  unfold terminate. rewrite (proj2 (Z.ltb_lt _ _) Hx). cbn [mbind outcome_bind].
  rewrite (proj2 Hm x v Hxv). change (ydb_error_check YDB_OK) with (Ret ()). cbn [mbind outcome_bind].
  rewrite (proj2 (Z.ltb_lt _ _) Hvz). cbn [mbind outcome_bind].
  destruct (send_parameter_status s x v Hr Hx Hvz) as (msg & -> & Hsend). cbn [mbind outcome_bind].
  rewrite Hsend. cbn [mbind outcome_bind]. change (negb (0 =? 0)) with false. cbn iota.
  rewrite (IH (done_ ++ [x])); try done.
  - cbn [fmap list_fmap]. rewrite (lookup_total_correct m x v Hxv). by rewrite <- app_assoc.
  - rewrite Hs. by rewrite <- app_assoc.
  - by apply (next_after d vnode done_).
  - cbn [length] in Hl. lia.
Qed.
End variables.

Lemma write_all_elem ps m x v :
  write_all ps m !! x = Some v → (x, v) ∈ ps ∨ m !! x = Some v.
Proof.
  revert m. induction ps as [|[n w] ps IH]; intros m Hx; [by right|]. cbn [write_all foldl fst snd] in Hx.
  destruct (IH _ Hx) as [?|E]; [left; by right|]. destruct (decide (n = x)) as [->|Hne].
  - rewrite lookup_insert_eq in E. injection E as ->. left. left.
  - rewrite lookup_insert_ne in E by done. by right.
Qed.
Lemma write_all_app ps qs m : write_all (ps ++ qs) m = write_all qs (write_all ps m).
Proof. apply foldl_app. Qed.

Section client.
Context `{QueryHandlers} `{!YottaDBLaws} `{!YottaDBNodes} `{!YottaDBNodesLaws} `{MD5Hash}.
Context (config : OctoConfig) (mem : nat → byte).

(** The database a session starts from: numbered [id], with no variables of its own yet,
    and with the defaults under their own global. *)
Record session_start (d d0 : db) (id : list byte) (defaults ps : list (list byte * list byte)) : Prop := {
  start_incr : ydb_incr_s d [session_global_name config] = (YDB_OK, d0, id);
  start_id : zlen id < MAX_STR_CONST;
  start_globals : octo_global_name config ≠ session_global_name config;
  start_fresh : subscripts d0 [session_global_name config; id; lit "variables"] = [];
  start_names : subscripts d0 [octo_global_name config; lit "variables"] = defaults.*1;
  start_values : Forall (λ p, ydb_get_s d0 [octo_global_name config; lit "variables"; p.1] MAX_STR_CONST =
                              (YDB_OK, p.2)) defaults;
  start_writable : Forall (writable config id) (defaults ++ ps);
  start_sizes : Forall (λ p, zlen p.1 < MAX_STR_CONST ∧ zlen p.2 < MAX_STR_CONST) (defaults ++ ps);
}.
Definition settings (defaults ps : list (list byte * list byte)) : gmap (list byte) (list byte) :=
  write_all (defaults ++ ps) ∅.
Definition reports_of (id : list byte) (d : db) (m : gmap (list byte) (list byte)) : list (list byte) :=
  (λ x, parameter_frame x (m !!! x)) <$> subscripts d [session_global_name config; id; lit "variables"].

Lemma reports_spec id d defaults ps sends sent :
  vars_are config id d (settings defaults ps) →
  Forall (λ p : list byte * list byte, zlen p.1 < MAX_STR_CONST ∧ zlen p.2 < MAX_STR_CONST) (defaults ++ ps) →
  (length (defaults ++ ps) ≤ length sends)%nat → Forall roomy sends →
  report_parameters config mem sends id [] d sent =
    Ret (true, sent ++ reports_of id d (settings defaults ps)).
Proof.
  intros Hm Hz Hl Hr.
  assert (Hin : ∀ x v, settings defaults ps !! x = Some v → (x, v) ∈ defaults ++ ps)
    by (intros x v Hx; destruct (write_all_elem _ _ _ _ Hx) as [?|E]; [done|by rewrite lookup_empty in E]).
  assert (Hsub : ∀ x, x ∈ subscripts d [session_global_name config; id; lit "variables"] → ∃ v, (x, v) ∈ defaults ++ ps).
  { intros x Hx. apply Hm in Hx as [v Hx]. eauto. }
  rewrite list.Forall_forall in Hz. unfold reports_of.
  apply (report_parameters_spec config mem id d _ _ Hm []).
  - done.
  - apply next_first.
  - apply list.Forall_forall. intros x Hx. destruct (Hsub x Hx) as [v Hv]. exact (proj1 (Hz _ Hv)).
  - intros x v Hx. exact (proj2 (Hz _ (Hin _ _ Hx))).
  - etransitivity; [|exact Hl]. rewrite <- (length_fmap fst (defaults ++ ps)). apply submseteq_length.
    apply NoDup_submseteq; [apply subscripts_NoDup|]. intros x Hx. destruct (Hsub x Hx) as [v Hv].
    apply list_elem_of_fmap. by exists (x, v).
  - done.
Qed.

Lemma session_spec fuel reports events idle sm ps sent net d d0 id defaults ms :
  session_start d d0 id defaults ps → Forall2 (parm_at (sm_data sm)) (sm_parameters sm) ps →
  (length defaults < fuel)%nat → (length (defaults ++ ps) ≤ length reports)%nat → Forall roomy reports →
  waits events idle → Forall fits ms → stream net = frames ms →
  ∃ d1, vars_are config id d1 (settings defaults ps) ∧ elsewhere config id d0 d1 ∧
    ∀ d2 out, serve {| session_global := session_global_name config; session_id := id |} mem idle ms d1 true =
        Ret (d2, out) →
      rocto_session config mem fuel reports events sm sent net d =
        Ret (d2, (sent ++ reports_of id d1 (settings defaults ps)) ++ out).
Proof.
  intros [Hincr Hid Hg Hfresh Hnames Hvalues Hw Hz] Hsm Hf Hl Hr Hwait Hfit Hn.
  assert (Hm0 : vars_are config id d0 ∅).
  { split; [|by intros x v; rewrite lookup_empty]. intros x. rewrite Hfresh, lookup_empty, elem_of_nil. split; [done|by intros []]. }
  apply Forall_app in Hw as [Hwd Hwp].
  destruct (populate_defaults_spec config id defaults [] [] fuel d0 ∅ Hf Hg Hnames) as (dd & Ed & Hmd & Hed);
    [by rewrite next_first, Hnames|exact Hvalues|done|done|].
  destruct (set_parameters_spec config id _ _ _ dd _ Hsm Hwp Hmd) as (d1 & Es & Hm1 & He1).
  rewrite <- write_all_app in Hm1. fold (settings defaults ps) in Hm1.
  exists d1. split; [done|]. split; [by eapply elsewhere_trans|]. intros d2 out Hserve.
  unfold rocto_session. rewrite Hincr. change (ydb_error_check YDB_OK) with (Ret ()). cbn [mbind outcome_bind].
  unfold terminate. rewrite (proj2 (Z.ltb_lt _ _) Hid). cbn [mbind outcome_bind].
  rewrite Ed. cbn [mbind outcome_bind]. rewrite Es. cbn [mbind outcome_bind].
  rewrite (reports_spec id d1 defaults ps reports sent Hm1 Hz Hl Hr). cbn [mbind outcome_bind negb].
  destruct (main_loop_spec _ mem events idle Hwait
    {| ls_db := d1; ls_sent := sent ++ reports_of id d1 (settings defaults ps); ls_net := net;
       ls_buffer := malloc mem MAX_STR_CONST; ls_ready := true |} ms d2 out (zlen_buffer mem) Hfit Hn Hserve)
    as (st & b & -> & Hdb & Hsent). cbn [mbind outcome_bind]. by rewrite Hdb, Hsent.
Qed.
End client.

(** C23: The password decides.  A client that connects (asking for SSL first or not, its
    bytes cut anyhow), names itself in the startup parameters and answers the password
    request is accepted with the startup parameters it sent when its answer is the salted
    hash of the stored one, and exactly then; otherwise it gets an error in place of the
    AuthenticationOk and the connection ends. *)
Theorem login_decides `{QueryHandlers} `{!YottaDBNodes} `{MD5Hash} config mem salt refusal sends net d
    asks ps password more user fs h rest :
  stream net = hello asks ps ++ frame PSQL_PasswordMessage (password ++ [nul]) [] ++ more →
  Forall startup_parm_ok ps → zlen (encode_startup ps) + 8 < 2 ^ 31 → (asks → ssl_on config = false) →
  no_nul password → 6 + zlen password ≤ MAX_STR_CONST →
  user_of ps = Some user → zlen user < MAX_STR_CONST →
  ydb_get_s d [octo_global_name config; lit "users"; user] MAX_STR_CONST = (YDB_OK, user_row fs h rest) →
  Forall no_bar fs → zlen fs = 10 → no_bar h → no_nul h → zlen (user_row fs h rest) ≤ MAX_STR_CONST →
  4 ≤ zlen salt → Forall positive_event refusal → 1 ≤ capacity refusal →
  Forall positive_event sends → 13 ≤ capacity sends →
  if decide (password = lit "md5" ++ server_hash h salt) then
    ∃ sm net', rocto_login config mem salt refusal sends net d =
        Ret (Accepted sm (greeting asks salt ++ [auth_ok]) net') ∧
      SocketTheorems.parm_text (sm_data sm) <$> sm_parameters sm = ps ∧ stream net' = more
  else ∃ err, rocto_login config mem salt refusal sends net d =
        Ret (Refused (greeting asks salt ++ [error_wire err])).
Proof.
  intros. pose proof (login_spec config mem salt refusal sends net d asks ps password more user fs h rest) as Hl.
  repeat (specialize (Hl ltac:(eassumption))). destruct (decide _); [|exact Hl].
  destruct Hl as (sm & net' & E & Hp & Hn). exists sm, net'. split; [done|]. split; [by apply parm_at_text|done].
Qed.

(** C1: A connection from its first byte to its last.  A client with the right password is
    greeted, let in, and served a session whose variables in the database are the defaults
    overridden by its startup parameters, later ones winning, with everything else in the
    database as it was; it is told every variable with its value, and then its messages are
    served as [serve] says, and the process ends when the client is gone. *)
Theorem client_served `{QueryHandlers} `{!YottaDBLaws} `{!YottaDBNodes} `{!YottaDBNodesLaws} `{MD5Hash}
    config mem salt refusal sends fuel reports events idle net d d0 id asks defaults ps ms user fs h rest :
  stream net = hello asks ps ++ frame PSQL_PasswordMessage ((lit "md5" ++ server_hash h salt) ++ [nul]) [] ++ frames ms →
  Forall startup_parm_ok ps → zlen (encode_startup ps) + 8 < 2 ^ 31 → (asks → ssl_on config = false) →
  user_of ps = Some user → zlen user < MAX_STR_CONST →
  ydb_get_s d [octo_global_name config; lit "users"; user] MAX_STR_CONST = (YDB_OK, user_row fs h rest) →
  Forall no_bar fs → zlen fs = 10 → no_bar h → no_nul h → zlen (user_row fs h rest) ≤ MAX_STR_CONST →
  4 ≤ zlen salt → Forall positive_event refusal → 1 ≤ capacity refusal →
  Forall positive_event sends → 13 ≤ capacity sends →
  session_start config d d0 id defaults ps →
  (length defaults < fuel)%nat → (length (defaults ++ ps) ≤ length reports)%nat → Forall roomy reports →
  waits events idle → Forall fits ms →
  ∃ d1, vars_are config id d1 (settings defaults ps) ∧ elsewhere config id d0 d1 ∧
    ∀ d2 out, serve {| session_global := session_global_name config; session_id := id |} mem idle ms d1 true =
        Ret (d2, out) →
      rocto_client config mem salt refusal sends fuel reports events net d =
        Ret (d2, ((greeting asks salt ++ [auth_ok]) ++ reports_of config id d1 (settings defaults ps)) ++ out).
Proof.
  intros Hs Hok Hz Hssl Hu Hul Hget Hfs H10 Hbar Hnul Hrow Hsalt Hrp Hrc Hsp Hsc Hst Hf Hl Hr Hw Hfit.
  assert (Hsh : no_nul (server_hash h salt)) by apply hex_text_no_nul.
  assert (Hlen : zlen (lit "md5" ++ server_hash h salt) = 35)
    by (rewrite zlen_app; unfold zlen; by rewrite length_server_hash).
  pose proof (login_spec config mem salt refusal sends net d asks ps _ (frames ms) user fs h rest Hs Hok Hz Hssl) as Hlog.
  rewrite decide_True in Hlog by done.
  destruct Hlog as (sm & net' & E & Hsm & Hn); try done.
  { apply no_nul_app. split; [eval_decide|done]. }
  { rewrite Hlen. by vm_compute. }
  destruct (session_spec config mem fuel reports events idle sm ps (greeting asks salt ++ [auth_ok]) net' d d0 id
    defaults ms Hst Hsm Hf Hl Hr Hw Hfit Hn) as (d1 & Hm & He & Hrun).
  exists d1. split; [done|]. split; [done|]. intros d2 out Hsv. unfold rocto_client. rewrite E.
  cbn [mbind outcome_bind]. by apply Hrun.
Qed.

(** ** A database of nodes to try them on *)
#[local] Existing Instance map_db.
#[local] Existing Instance map_db_laws.
#[local] Existing Instance toy_md5.
#[local] Instance silent_handlers : QueryHandlers :=
  {| handle_query _ d := Ret (0, d, []); handle_execute _ d := Ret (0, d, []); handle_describe _ d := Ret (0, d, []) |}.

Definition child (k key : list (list byte)) : option (list byte) :=
  if decide (take (length k) key = k) then
    match key !! length k with Some (c :: x) => Some (c :: x) | _ => None end
  else None.
Definition children (d : gmap (list (list byte)) (list byte)) (k : list (list byte)) : gset (list byte) :=
  set_omap (child k) (dom d).
Fixpoint after (l : list (list byte)) (s : list byte) : option (list byte) :=
  match l with [] => None | x :: l' => if decide (x = s) then head l' else after l' s end.
Definition node_end (o : option (list byte)) : ydb_status * list byte :=
  match o with Some s => (YDB_OK, s) | None => (YDB_ERR_NODEEND, []) end.
(** The counter is kept in unary. *)
Definition map_incr (d : gmap (list (list byte)) (list byte)) (k : list (list byte))
    : ydb_status * gmap (list (list byte)) (list byte) * list byte :=
  let v := chr "1" :: default [] (d !! k) in (YDB_OK, <[k := v]> d, v).
#[local] Instance map_nodes : @YottaDBNodes map_db :=
  {| ydb_incr_s := map_incr;
     ydb_subscript_next_s d k s :=
       node_end (let l := elements (children d k) in if decide (s = []) then head l else after l s) |}.

Lemma after_app l1 s l2 : s ∉ l1 → after (l1 ++ s :: l2) s = head l2.
Proof.
  induction l1 as [|x l1 IH]; intros Hs; cbn [app after]; [by rewrite decide_True|].
  apply not_elem_of_cons in Hs as [Hx Hs]. rewrite decide_False by done. by apply IH.
Qed.
Lemma child_own k x : x ≠ [] → child k (k ++ [x]) = Some x.
Proof.
  intros Hx. unfold child. rewrite take_app_length, decide_True by done.
  rewrite list_lookup_middle by done. by destruct x.
Qed.
Lemma child_prefix k key : ¬ k `prefix_of` key → child k key = None.
Proof.
  intros Hk. unfold child. rewrite decide_False; [done|]. intros E. apply Hk. rewrite <- E.
  apply prefix_take.
Qed.
Lemma child_nonempty k key : child k key ≠ Some [].
Proof. unfold child. repeat case_match; congruence. Qed.

#[local] Instance map_nodes_laws : @YottaDBNodesLaws map_db map_nodes.
Proof.
  refine {| subscripts d k := elements (children d k) |}; cbn [ydb_subscript_next_s ydb_set_s map_nodes map_db].
  - intros d k. apply NoDup_elements.
  - intros d k. rewrite elem_of_elements. unfold children. rewrite elem_of_set_omap.
    intros (key & _ & E). by apply child_nonempty in E.
  - intros d k. by destruct (elements (children d k)).
  - intros d k l1 s l2 E. rewrite E.
    assert (Hin : s ∈ elements (children d k)) by (rewrite E; apply elem_of_app; right; left).
    assert (Hs : s ≠ []).
    { intros ->. rewrite elem_of_elements in Hin. unfold children in Hin.
      apply elem_of_set_omap in Hin as (key & _ & E'). by apply child_nonempty in E'. }
    rewrite decide_False by done. pose proof (NoDup_elements (children d k)) as Hnd. rewrite E in Hnd.
    apply list.NoDup_app in Hnd as (_ & Hnd & _). rewrite after_app; [by destruct l2|].
    intros Hl. by apply (Hnd s Hl); left.
  - intros d k x v d' y [= <-] Hx. rewrite !elem_of_elements. unfold children.
    rewrite dom_insert, !elem_of_set_omap. split.
    + intros (key & Hkey & E). apply elem_of_union in Hkey as [->%elem_of_singleton|Hkey]; [|by right; exists key].
      left. rewrite child_own in E by done. by injection E.
    + intros [->|(key & Hkey & E)].
      * exists (k ++ [x]). split; [apply elem_of_union; left; by apply elem_of_singleton|by apply child_own].
      * exists key. split; [apply elem_of_union; by right|done].
  - intros d k k' v d' [= <-] _ Hk. f_equal. unfold children. apply leibniz_equiv. intros y.
    rewrite dom_insert, !elem_of_set_omap. split; intros (key & Hkey & E); exists key; (split; [|done]).
    + apply elem_of_union in Hkey as [->%elem_of_singleton|Hkey]; [|done]. by rewrite child_prefix in E.
    + apply elem_of_union. by right.
Defined.

Definition sample_config : OctoConfig :=
  {| ssl_on := false; octo_global_name := lit "^o"; session_global_name := lit "^s" |}.
Definition login_parms : list (list byte * list byte) := [(lit "user", lit "bob"); (lit "tz", lit "UTC")].
Definition login_defaults : list (list byte * list byte) := [(lit "tz", lit "local")].
Definition login_row : list byte := user_row sample_columns sample_hash [].
Definition login_db : @db map_db :=
  (<[ [lit "^o"; lit "users"; lit "bob"] := login_row ]>
   {[ [lit "^o"; lit "variables"; lit "tz"] := lit "local" ]} : gmap (list (list byte)) (list byte)).
Definition login_db0 : @db map_db := (ydb_incr_s login_db [lit "^s"]).1.2.
Definition whole (bs : list byte) : network := match bs with b :: bs => [Interrupted; Data b bs] | [] => [] end.

Lemma whole_stream bs : stream (whole bs) = bs.
Proof. destruct bs; [done|]. cbn. by rewrite app_nil_r. Defined.
Lemma login_parms_ok : Forall startup_parm_ok login_parms.
Proof. repeat constructor; cbn [fst snd]; try discriminate; eval_decide. Defined.
Lemma login_columns_ok : Forall no_bar sample_columns.
Proof. unfold sample_columns, no_bar. repeat constructor; eval_decide. Defined.

Lemma login_decides_witness :
  ∃ err, rocto_login sample_config (λ _, xff) (lit "salt") [Accepts 1] [Accepts 6; SendInterrupted; Accepts 7]
      (whole (hello true login_parms ++ frame PSQL_PasswordMessage (lit "md5abc" ++ [nul]) [])) login_db =
    Ret (Refused (greeting true (lit "salt") ++ [error_wire err])).
Proof.
  pose proof (login_decides sample_config (λ _, xff) (lit "salt") [Accepts 1] [Accepts 6; SendInterrupted; Accepts 7]
    (whole (hello true login_parms ++ frame PSQL_PasswordMessage (lit "md5abc" ++ [nul]) [])) login_db
    true login_parms (lit "md5abc") [] (lit "bob") sample_columns sample_hash []) as Hw.
  rewrite decide_False in Hw by (apply (bool_decide_unpack _); vm_compute; exact I).
  apply Hw; try exact login_parms_ok; try exact login_columns_ok; try done; try (vm_compute; done);
    try (repeat constructor; done); try eval_decide.
Defined.

Lemma sample_session_start :
  session_start sample_config login_db login_db0 (lit "1") login_defaults login_parms.
Proof.
  assert (Hnone : (login_db : gmap _ _) !! [lit "^s"] = None) by (vm_compute; reflexivity).
  split.
  - unfold login_db0. cbn [ydb_incr_s map_nodes]. unfold map_incr.
    cbn [session_global_name sample_config]. rewrite Hnone. reflexivity.
  - vm_compute. reflexivity.
  - discriminate.
  - vm_compute. reflexivity.
  - vm_compute. reflexivity.
  - apply Forall_cons_2; [|constructor]. vm_compute. reflexivity.
  - repeat (apply Forall_cons_2; [split; [discriminate|]; split; [vm_compute; discriminate|reflexivity]|]). constructor.
  - repeat (apply Forall_cons_2; [split; vm_compute; reflexivity|]). constructor.
Defined.
Definition login_network : network :=
  whole (hello false login_parms ++
    frame PSQL_PasswordMessage ((lit "md5" ++ server_hash sample_hash (lit "salt")) ++ [nul]) [] ++
    frames [(PSQL_Sync, [])]).
Lemma client_served_witness :
  ∃ d1, vars_are sample_config (lit "1") d1 (settings login_defaults login_parms) ∧
    elsewhere sample_config (lit "1") login_db0 d1 ∧
    ∀ d2 out, serve {| session_global := lit "^s"; session_id := lit "1" |} (λ _, xff) [true; false]
        [(PSQL_Sync, [])] d1 true = Ret (d2, out) →
      rocto_client sample_config (λ _, xff) (lit "salt") [Accepts 1] [Accepts 13] 2
        (replicate 3 [Accepts 100000]) [Idle [Accepts 6]; Pending] login_network login_db =
      Ret (d2, ((greeting false (lit "salt") ++ [auth_ok]) ++
        reports_of sample_config (lit "1") d1 (settings login_defaults login_parms)) ++ out).
Proof.
  apply (client_served sample_config (λ _, xff) (lit "salt") [Accepts 1] [Accepts 13] 2
    (replicate 3 [Accepts 100000]) [Idle [Accepts 6]; Pending] [true; false] login_network login_db login_db0 (lit "1")
    false login_defaults login_parms [(PSQL_Sync, [])] (lit "bob") sample_columns sample_hash []);
    try exact login_parms_ok; try exact login_columns_ok; try exact sample_session_start;
    try (repeat constructor; done); eval_decide.
Defined.
