(* ===== verification/CreateTable.v ===== *)
(** * CREATE TABLE

    [emit_create_table.c] and [emit_column_specification.c] print the definition of a
    table as the text kept beside its stored form; [store_table_in_pg_class.c] enters the
    table and its columns into the catalogue tables. *)
From stdpp Require Import gmap strings.
From S2P Require Import Prelude CMem Errors LogicalPlan SqlStatement Quoting Session Connection.

Definition space : byte := chr " ".
Definition backquote : byte := x60.

(** [UNPACK_SQL_STATEMENT(value, stmt, value)] and the string of the value. *)
Definition unpack_value (m : values) (stmt : SqlStatement) : outcome SqlValue :=
  match stmt with
  | null_STATEMENT => Undef NullPointer
  | value_STATEMENT p _ => value_at m p
  | _ => Halt AssertFailed
  end.
Definition unpack_keyword (stmt : SqlStatement) : outcome (list SqlOptionalKeyword) :=
  match stmt with
  | null_STATEMENT => Undef NullPointer
  | keyword_STATEMENT ring => Ret ring
  | _ => Halt AssertFailed
  end.
Definition unpack_column (rings : gmap ptr (list SqlColumn)) (columns : ptr) : outcome (list SqlColumn) :=
  match rings !! columns with Some ring => Ret ring | None => Undef NullPointer end.

Section printing.
Context (m : values) (mem : nat → byte).

(** [buff_ptr += snprintf(buff_ptr, buffer_size - (buff_ptr - buffer), ...)]: the pointer
    moves by the whole length even when the text was cut, and a pointer past the end makes
    the next size negative, which is a huge [size_t]. *)
Definition print (buffer_size : Z) (acc text : list byte) : outcome (list byte) :=
  if buffer_size <? zlen acc then Undef OutOfBounds else Ret (acc ++ text).
(** [m_escape_string2(buffer2, MAX_STR_CONST, value->v.reference)] as the %s of what follows. *)
Definition escaped (stmt : SqlStatement) : outcome (list byte) :=
  value ← unpack_value m stmt;
  '(buffer2, _) ← m_escape_string2 (malloc mem MAX_STR_CONST) MAX_STR_CONST (sv_literal value);
  string_at buffer2 0.
Definition quoted (text : list byte) : list byte := [quote] ++ text ++ [quote].

(** The case of a keyword: [None] for the ones the switch does not know. *)
Definition keyword_text (k : OptionalKeyword) (v : SqlStatement) : outcome (option (list byte)) :=
  let with_value (word : string) := t ← escaped v; Ret (Some ([space] ++ lit word ++ [space] ++ quoted t)) in
  match k with
  | PRIMARY_KEY => Ret (Some ([space] ++ lit "PRIMARY KEY"))
  | NOT_NULL => Ret (Some ([space] ++ lit "NOT NULL"))
  | UNIQUE_CONSTRAINT => Ret (Some ([space] ++ lit "UNIQUE"))
  | OPTIONAL_EXTRACT => with_value "EXTRACT"%string
  | OPTIONAL_PIECE => with_value "PIECE"%string
  | OPTIONAL_SOURCE => with_value "GLOBAL"%string
  | OPTIONAL_DELIM => with_value "GLOBAL"%string
  | OPTIONAL_KEY_NUM => with_value "KEY NUM"%string
  | OPTIONAL_ADVANCE => with_value "ADVANCE"%string
  | OPTIONAL_START => with_value "START"%string
  | OPTIONAL_END => with_value "END"%string
  | NO_KEYWORD => Ret (Some [])
  | _ => Ret None
  end.
Fixpoint emit_keywords (buffer_size : Z) (ring : list SqlOptionalKeyword) (acc : list byte) : outcome (list byte) :=
  match ring with
  | [] => Ret acc
  | Keyword k v :: ring' =>
      t ← keyword_text k v;
      match t with
      | None => Halt FatalExit
      | Some [] => emit_keywords buffer_size ring' acc
      | Some text => acc ← print buffer_size acc text; emit_keywords buffer_size ring' acc
      end
  end.
(** The text and its length. *)
Definition emit_column_specification (buffer_size : Z) (cur_column : SqlColumn) : outcome (list byte * Z) :=
  match cur_column with Column _ columnName type _ keywords =>
    value ← unpack_value m columnName;
    acc ← print buffer_size [] ([backquote] ++ cstr (sv_literal value) ++ [backquote]);
    acc ← (match type with
      | INTEGER_TYPE => print buffer_size acc ([space] ++ lit "INTEGER")
      | CHARACTER_STRING_TYPE => print buffer_size acc ([space] ++ lit "VARCHAR(25)")
      | _ => Halt FatalExit
      end);
    ring ← unpack_keyword keywords;
    acc ← (match ring with [] => Undef NullPointer | _ => emit_keywords buffer_size ring acc end);
    _ ← c_assert (zlen acc <? buffer_size);
    Ret (acc, zlen acc)
  end.

Fixpoint emit_columns (ring : list SqlColumn) : outcome (list byte) :=
  match ring with
  | [] => Ret []
  | c :: ring' =>
      '(text, _) ← emit_column_specification MAX_STR_CONST c;
      rest ← emit_columns ring';
      Ret (text ++ (match ring' with [] => [] | _ => lit ", " end) ++ rest)
  end.
(** [GLOBAL] and [DELIM] of the table: the first keyword of the ring. *)
Definition emit_table_keyword (word : string) (stmt : SqlStatement) : outcome (list byte) :=
  match stmt with
  | null_STATEMENT => Ret []
  | _ =>
      ring ← unpack_keyword stmt;
      match ring with
      | [] => Undef NullPointer
      | Keyword _ v :: _ => t ← escaped v; Ret ([space] ++ lit word ++ [space] ++ quoted t)
      end
  end.
(** What is written to [output]. *)
Definition emit_create_table (rings : gmap ptr (list SqlColumn)) (stmt : SqlStatement) : outcome (list byte) :=
  match stmt with
  | null_STATEMENT => Ret []
  | table_STATEMENT _ tableName source columns delim =>
      _ ← c_assert (negb (is_null_stmt tableName));
      _ ← c_assert (negb (columns =? null));
      value ← unpack_value m tableName;
      ring ← unpack_column rings columns;
      cols ← (match ring with [] => Undef NullPointer | _ => emit_columns ring end);
      src ← emit_table_keyword "GLOBAL" source;
      dlm ← emit_table_keyword "DELIM" delim;
      Ret (lit "CREATE TABLE " ++ [backquote] ++ cstr (sv_literal value) ++ [backquote] ++ lit " (" ++ cols ++
           lit ")" ++ src ++ dlm ++ lit ";")
  | _ => Undef WrongMember
  end.
End printing.

(** ** [store_table_in_pg_class] *)
Definition toupper (c : byte) : byte := if (97 <=? b2z c) && (b2z c <=? 122) then z2b (b2z c - 32) else c.
(** The string of a value, converted in place. *)
Definition upcase (v : SqlValue) : SqlValue :=
  {| sv_type := sv_type v; sv_coerced_type := sv_coerced_type v; sv_data_type := sv_data_type v;
     sv_literal := toupper <$> sv_literal v |}.
Definition upcase_value (m : values) (stmt : SqlStatement) : outcome (list byte * values) :=
  match stmt with
  | null_STATEMENT => Undef NullPointer
  | value_STATEMENT p _ => v ← value_at m p; Ret (sv_literal (upcase v), <[p := upcase v]> m)
  | _ => Halt AssertFailed
  end.

Definition pg_class_tail : list byte :=
  lit "|2200|16388|0|16385|0|16386|0|0|0|0|16389|t|0|p|r|3|0|0|0|0|0|0|0|t|d|0|0|571|1||||".
Definition pg_attribute_tail : list byte :=
  lit "|-1|-1|2|0|-1|-1|0|x|i|0|0|0|" ++ [quote; quote] ++ lit "|0|t|0|100||||".
(** [snprintf(buffer, sizeof(buffer), ...)]: the text, cut, and its NUL over what was there. *)
Definition snprintf (buffer text : list byte) : outcome (list byte) :=
  store_bytes buffer 0 (take (length buffer - 1) text ++ [nul]).

Section catalogue.
Context `{YottaDBNodes} (octo_global : list byte) (mem : nat → byte).

Definition type_oid (t : SqlDataType) : outcome (list byte) :=
  match t with
  | INTEGER_TYPE => Ret (lit "23")
  | CHARACTER_STRING_TYPE => Ret (lit "1043")
  | _ => Halt FatalExit
  end.
(** [ydb_incr_s] of ^octo("oid"). *)
Definition next_oid (d : db) : outcome (list byte * db) :=
  let '(status, d, oid) := ydb_incr_s d [octo_global; lit "oid"] in
  _ ← ydb_error_check status; Ret (oid, d).
Definition pg_node (table : string) (oid : list byte) : list (list byte) :=
  [octo_global; lit "tables"; lit "pg_catalog"; lit table; oid].

(** The loop over the columns: the row is printed into [buffer], and [len_used] bytes of
    [buffer] are stored - the length of the row of the table, which nothing updates. *)
Fixpoint store_columns (ring : list SqlColumn) (oid buffer : list byte) (len_used : Z) (m : values) (d : db)
    : outcome (values * db) :=
  match ring with
  | [] => Ret (m, d)
  | Column _ columnName type _ _ :: ring' =>
      atttypid ← type_oid type;
      '(column_name, m) ← upcase_value m columnName;
      buffer ← snprintf buffer (cstr oid ++ lit "|" ++ cstr column_name ++ lit "|" ++ atttypid ++ pg_attribute_tail);
      '(id, d) ← next_oid d;
      value ← load_bytes buffer 0 len_used;
      let '(status, d) := ydb_set_s d (pg_node "pg_attribute" id) value in
      _ ← ydb_error_check status;
      store_columns ring' oid buffer len_used m d
  end.
Definition store_table_in_pg_class (rings : gmap ptr (list SqlColumn)) (tableName : SqlStatement) (columns : ptr)
    (m : values) (d : db) : outcome (values * db) :=
  '(oid, d) ← next_oid d;
  '(table_name, m) ← upcase_value m tableName;
  buffer ← snprintf (malloc mem MAX_STR_CONST) (cstr table_name ++ pg_class_tail ++ cstr oid);
  row ← string_at buffer 0;
  let len_used := zlen row in
  let '(status, d) := ydb_set_s d (pg_node "pg_class" oid) row in
  _ ← ydb_error_check status;
  ring ← unpack_column rings columns;
  match ring with [] => Undef NullPointer | _ => store_columns ring oid buffer len_used m d end.
End catalogue.
