(* ===== verification/NaturalJoin.v ===== *)
(** * The condition of a NATURAL JOIN

    [natural_join_condition.c], which the grammar calls when a NATURAL JOIN has no ON: the
    columns of the tables on the left are looked for in the tables on the right, and for each
    one found there is an equality of two names, which are qualified later.

    The text of a name is written to a piece of memory of its own; a write behind the piece
    is an error of the model, though it ends up in the same chunk. *)
From stdpp Require Import gmap strings.
From S2P Require Import Prelude CMem Errors LogicalPlan SqlStatement Session CreateTable Qualify.

Definition unpack_join (stmt : SqlStatement) : outcome (list SqlJoin) :=
  match stmt with
  | null_STATEMENT | join_STATEMENT [] => Undef NullPointer
  | join_STATEMENT ring => Ret ring
  | _ => Halt AssertFailed
  end.
(** A reference [table_name.column_name], its text in a piece of [len] bytes. *)
Definition qualified_reference (len : Z) (table_name column_name : list byte) : N SqlStatement :=
  string_literal ← lift_n (store_bytes (replicate (Z.to_nat len) nul) 0 (table_name ++ [period] ++ column_name ++ [nul]));
  p ← new_ptr;
  _ ← set_value p {| sv_type := COLUMN_REFERENCE; sv_coerced_type := UNKNOWN_SqlValueType; sv_data_type := UNKNOWN_SqlDataType;
                     sv_literal := cstr string_literal |};
  mret (value_STATEMENT p null_STATEMENT).

(** The loop over the tables on the right. *)
Fixpoint match_right (table_name column_name : list byte) (j_right : list SqlJoin) (ret : SqlStatement) : N SqlStatement :=
  match j_right with
  | [] => mret ret
  | Join value _ _ :: j_right' =>
      '(alias, column_list) ← lift_n (unpack_table_alias value);
      m ← values_n;
      r_matched_column ← lift_n (match_column_in_table m column_list column_name);
      if is_null_stmt r_matched_column then match_right table_name column_name j_right' ret
      else
        r_table_name ← lift_n (text_of m alias);
        let r_table_name_len := zlen table_name in
        l_qual_col_name ← qualified_reference (zlen table_name + zlen column_name + 2) table_name column_name;
        r_qual_col_name ← qualified_reference (r_table_name_len + zlen column_name + 2) r_table_name column_name;
        let cur_condition := binary_STATEMENT BOOLEAN_EQUALS l_qual_col_name r_qual_col_name in
        match_right table_name column_name j_right'
          (if is_null_stmt ret then cur_condition else binary_STATEMENT BOOLEAN_AND ret cur_condition)
  end.
(** The loop over the columns of a table on the left: [cl_cur] goes round, and it is the
    name of [cl_start] that is read. *)
Fixpoint match_columns_left (column_list cl_start : SqlStatement) (cl_cur : list SqlColumnListAlias) (table_name : list byte)
    (j_right : list SqlJoin) (ret : SqlStatement) : N SqlStatement :=
  match cl_cur with
  | [] => mret ret
  | _ :: cl_cur' =>
      m ← values_n;
      value ← lift_n (unpack_value m cl_start);
      _ ← lift_n (c_assert (bool_decide (sv_type value ≠ CALCULATED_VALUE)));
      let column_name := cstr (sv_literal value) in
      matched_column ← lift_n (match_column_in_table m column_list column_name);
      _ ← lift_n (c_assert (negb (is_null_stmt matched_column)));
      ret ← match_right table_name column_name j_right ret;
      match_columns_left column_list cl_start cl_cur' table_name j_right ret
  end.
Fixpoint match_left (j_left j_right : list SqlJoin) (ret : SqlStatement) : N SqlStatement :=
  match j_left with
  | [] => mret ret
  | Join value _ _ :: j_left' =>
      '(alias, column_list) ← lift_n (unpack_table_alias value);
      ring ← lift_n (unpack_column_list_alias column_list);
      cl_start ← lift_n (match ring with ColumnListAlias _ _ alias _ _ :: _ => Ret alias | [] => Undef NullPointer end);
      m ← values_n;
      table_name ← lift_n (text_of m alias);
      ret ← match_columns_left column_list cl_start ring table_name j_right ret;
      match_left j_left' j_right ret
  end.
Definition natural_join_condition (left right : SqlStatement) : N SqlStatement :=
  j_left ← lift_n (unpack_join left);
  j_right ← lift_n (unpack_join right);
  match_left j_left j_right null_STATEMENT.
