(* ===== verification/NaturalTheorems.v ===== *)
(** * What a NATURAL JOIN compares

    The condition built for a NATURAL JOIN, with its names resolved as qualification resolves
    them.  What the code reads is the first column of each table on the left and no other; if
    that is what the two sides share, the condition is the one a NATURAL JOIN asks for.  It is
    built if no table on the right that has the column has a longer name than the table on
    the left. *)
From stdpp Require Import gmap strings.
From S2P Require Import Prelude CMem Errors LogicalPlan SqlStatement Session CreateTable Qualify QualifyTheorems NaturalJoin.

(** ** More values *)
Section more.
Context (m m' : values) (Hm : m ⊆ m').
Lemma alias_name_more alias t : alias_name m alias = Some t → alias_name m' alias = Some t.
Proof.
  destruct alias; cbn; try done. destruct (m !! p) as [v|] eqn:E; [|done]. by rewrite (lookup_weaken _ _ _ _ E Hm).
Qed.
Lemma readable_name alias : readable m alias → alias_name m' alias = alias_name m alias.
Proof. intros [->|[t Ht]]; [done|]. by rewrite Ht, (alias_name_more _ _ Ht). Qed.
Lemma readable_more alias : readable m alias → readable m' alias.
Proof. intros [->|[t Ht]]; [by left|]. right. exists t. by apply alias_name_more. Qed.
Lemma readable_list_more l : readable_list m l → readable_list m' l.
Proof.
  intros [->|(ring & -> & Hne & HF)]; [by left|]. right. exists ring. split; [done|]. split; [done|].
  revert HF. apply Forall_impl. intros [? ? a ? ?] Ha. by apply readable_more.
Qed.
Lemma named_more P ring passed : Forall (λ '(ColumnListAlias _ _ alias _ _), readable m alias) ring → named m' P passed ring = named m P passed ring.
Proof.
  intros HF. revert passed. induction HF as [|[p l a k t] ring Ha _ IH]; intros passed; [done|]. cbn [named cla_name]. by rewrite (readable_name a Ha), IH.
Qed.
Lemma table_column_more n j : readable_table m j → table_column m' n j = table_column m n j.
Proof.
  destruct j as [value c ty]. cbn. destruct value as [| | | | | | | | | | | | | | | | | |p t a u l| | | | | | | | | |]; try done. intros [_ [->|(ring & -> & _ & HF)]]; [done|].
  by rewrite named_more.
Qed.
End more.

(** ** Tables *)
(** The name of the first column, if it is no expression. *)
Definition first_column (m : values) (j : SqlJoin) : option (list byte) :=
  match j with
  | Join (table_alias_STATEMENT _ _ _ _ (column_list_alias_STATEMENT (ColumnListAlias _ _ (value_STATEMENT p _) _ _ :: _))) _ _ =>
      v ← m !! p; if decide (sv_type v = CALCULATED_VALUE) then None else Some (cstr (sv_literal v))
  | _ => None
  end.
Definition table_name (m : values) (j : SqlJoin) : list byte := default [] (table_alias_name m j).
Definition right_ok (m : values) (j : SqlJoin) : Prop := readable_table m j ∧ is_Some (table_alias_name m j).
Definition left_ok (m : values) (j : SqlJoin) : Prop := right_ok m j ∧ is_Some (first_column m j).
Definition has_column (m : values) (n : list byte) (j : SqlJoin) : bool := match table_column m n j with Some _ => true | None => false end.
(** The text of the right name has the space the left one needs. *)
Definition fits_right (m : values) (tn n : list byte) (right : list SqlJoin) : bool :=
  forallb (λ r, implb (has_column m n r) (Nat.leb (length (table_name m r)) (length tn))) right.
Definition fits (m : values) (left right : list SqlJoin) : bool :=
  forallb (λ l, fits_right m (table_name m l) (default [] (first_column m l)) right) left.

(** What the two sides share are first columns of the tables on the left. *)
Definition shares_first (m : values) (left right : list SqlJoin) : Prop :=
  ∀ l r n, l ∈ left → r ∈ right → has_column m n l = true → has_column m n r = true → first_column m l = Some n.

(** ** Conditions *)
Definition dotted (tn n : list byte) : list byte := tn ++ [period] ++ n.
Fixpoint equalities (m : values) (c : SqlStatement) : option (list (list byte * list byte)) :=
  match c with
  | null_STATEMENT => Some []
  | binary_STATEMENT BOOLEAN_EQUALS a b => x ← alias_name m a; y ← alias_name m b; Some [(x, y)]
  | binary_STATEMENT BOOLEAN_AND a b => x ← equalities m a; y ← equalities m b; Some (x ++ y)
  | _ => None
  end.
Lemma equalities_more m m' c ps : m ⊆ m' → equalities m c = Some ps → equalities m' c = Some ps.
Proof.
  intros Hm. revert ps. induction c; intros ps; try done. destruct operation; try done; cbn [equalities].
  - destruct (equalities m c1) as [x|]; [|done]. destruct (equalities m c2) as [y|]; [|done]. by rewrite (IHc1 x eq_refl), (IHc2 y eq_refl).
  - destruct (alias_name m c1) as [x|] eqn:E1; [|done]. destruct (alias_name m c2) as [y|] eqn:E2; [|done].
    by rewrite (alias_name_more _ _ Hm _ _ E1), (alias_name_more _ _ Hm _ _ E2).
Qed.

(** ** Running *)
Definition fresh_above (s : qualifier) : Prop := ∀ p, qf_next s ≤ p → qf_values s !! p = None.
Record augments (s s' : qualifier) : Prop := {
  augments_values : qf_values s ⊆ qf_values s';
  augments_fresh : fresh_above s';
  augments_warnings : qf_warnings s' = qf_warnings s;
}.
Lemma augments_refl s : fresh_above s → augments s s.
Proof. done. Qed.
Lemma augments_trans s1 s2 s3 : augments s1 s2 → augments s2 s3 → augments s1 s3.
Proof. intros [V1 F1 W1] [V2 F2 W2]. split; [by transitivity (qf_values s2)|done|congruence]. Qed.
Definition reference (text : list byte) : SqlValue :=
  {| sv_type := COLUMN_REFERENCE; sv_coerced_type := UNKNOWN_SqlValueType; sv_data_type := UNKNOWN_SqlDataType; sv_literal := text |}.

Lemma reference_text len tn n : no_nul tn → no_nul n → zlen tn + zlen n + 2 ≤ len →
  ∃ text, store_bytes (replicate (Z.to_nat len) nul) 0 (tn ++ [period] ++ n ++ [nul]) = Ret text ∧ cstr text = dotted tn n.
Proof.
  intros Ht Hn Hl. exists ((tn ++ [period] ++ n ++ [nul]) ++ replicate (Z.to_nat (len - (zlen tn + zlen n + 2))) nul). split.
  - apply (store_bytes_app_eq _ _ [] (replicate (Z.to_nat (zlen tn + zlen n + 2)) nul)); [|done|].
    + cbn [app]. rewrite <- replicate_add. f_equal. zlia.
    + zlia.
  - replace ((tn ++ [period] ++ n ++ [nul]) ++ replicate (Z.to_nat (len - (zlen tn + zlen n + 2))) nul)
      with (dotted tn n ++ nul :: replicate (Z.to_nat (len - (zlen tn + zlen n + 2))) nul) by (unfold dotted; by rewrite <- !app_assoc).
    apply cstr_app_nul. unfold dotted. rewrite !no_nul_app. split; [done|]. split; [eval_decide|done].
Qed.
Lemma reference_written len tn n s : fresh_above s → no_nul tn → no_nul n → zlen tn + zlen n + 2 ≤ len →
  ∃ p s', qualified_reference len tn n s = Ret (value_STATEMENT p null_STATEMENT, s') ∧ augments s s' ∧ qf_values s' !! p = Some (reference (dotted tn n)).
Proof.
  intros Hf Ht Hn Hl. destruct (reference_text len tn n Ht Hn Hl) as (text & E & Hc). eexists (qf_next s), _. split; [|split; [split|]].
  - unfold qualified_reference. rewrite (bind_lift_n _ _ _ _ E). rewrite Hc. reflexivity.
  - cbn. apply insert_subseteq. apply Hf. lia.
  - intros p Hp. cbn in *. rewrite lookup_insert_ne by lia. apply Hf. lia.
  - done.
  - cbn. apply lookup_insert_eq.
Qed.
Lemma bind_undef_n {A B} (o : outcome A) (f : A → N B) s e : o = Undef e → (lift_n o ≫= f) s = Undef e.
Proof. by intros ->. Qed.
Lemma bind_error_n {A B} (x : N A) (f : A → N B) s e : x s = Undef e → (x ≫= f) s = Undef e.
Proof. unfold mbind, N_bind. by intros ->. Qed.
Lemma reference_overruns len tn n s : 0 ≤ len → len < zlen tn + zlen n + 2 → qualified_reference len tn n s = Undef OutOfBounds.
Proof.
  intros H0 Hl. apply bind_undef_n. unfold store_bytes.
  replace (zlen (replicate (Z.to_nat len) nul) <? 0 + zlen (tn ++ [period] ++ n ++ [nul])) with true; [done|]. symmetry. apply Z.ltb_lt. zlia.
Qed.
Lemma dotted_name m p tn n : no_nul tn → no_nul n → m !! p = Some (reference (dotted tn n)) →
  alias_name m (value_STATEMENT p null_STATEMENT) = Some (dotted tn n).
Proof.
  intros Ht Hn E. cbn. rewrite E. cbn. f_equal. apply cstr_id. unfold dotted. rewrite !no_nul_app. split; [done|]. split; [eval_decide|done].
Qed.

(** The names compared for one column. *)
Definition right_pairs (m : values) (tn n : list byte) (right : list SqlJoin) : list (list byte * list byte) :=
  right ≫= λ r, if has_column m n r then [(dotted tn n, dotted (table_name m r) n)] else [].
Lemma alias_no_nul m a t : alias_name m a = Some t → no_nul t.
Proof. destruct a; cbn; try done. destruct (m !! p) as [v|]; [|done]. intros [= <-]. apply cstr_no_nul. Qed.
Lemma right_table m r : right_ok m r → ∃ p t a u l c ty tn, r = Join (table_alias_STATEMENT p t a u l) c ty ∧ readable_list m l ∧
  alias_name m a = Some tn ∧ table_name m r = tn.
Proof.
  destruct r as [value c ty]. intros [Hr [tn Ht]]. destruct value as [| | | | | | | | | | | | | | | | | |p t a u l| | | | | | | | | |]; try done.
  destruct Hr as [_ Hl]. exists p, t, a, u, l, c, ty, tn. unfold table_name. by rewrite Ht.
Qed.
Section running.
Context (m : values).

(** One table on the right. *)
Lemma match_right_turn tn n r right ret s : right_ok m r → fresh_above s → m ⊆ qf_values s → no_nul tn → no_nul n →
  match_right tn n (r :: right) ret s =
    if has_column m n r then
      (l ← qualified_reference (zlen tn + zlen n + 2) tn n; q ← qualified_reference (zlen tn + zlen n + 2) (table_name m r) n;
       match_right tn n right (if is_null_stmt ret then binary_STATEMENT BOOLEAN_EQUALS l q
                               else binary_STATEMENT BOOLEAN_AND ret (binary_STATEMENT BOOLEAN_EQUALS l q))) s
    else match_right tn n right ret s.
Proof.
  intros Hr Hf Hm Ht Hn. destruct (right_table m r Hr) as (p & t & a & u & l & c & ty & rn & -> & Hl & Ha & ->).
  cbn [match_right]. rewrite (bind_lift_n _ _ _ (a, l)) by done. rewrite bind_values_n.
  destruct (match_column_in_table_spec (qf_values s) n p t a u l c ty (readable_list_more _ _ Hm _ Hl)) as (x & E & Hx).
  rewrite (bind_lift_n _ _ _ _ E). unfold has_column. rewrite table_column_more with (m := m) in Hx by (done || by destruct Hr).
  rewrite Hx. destruct (is_null_stmt x); [done|]. rewrite (bind_lift_n _ _ _ rn); [done|].
  by apply (text_of_name (qf_values s)), alias_name_more with (m := m).
Qed.
Lemma equalities_add m' ret ps a b x y : equalities m' ret = Some ps → alias_name m' a = Some x → alias_name m' b = Some y →
  equalities m' (if is_null_stmt ret then binary_STATEMENT BOOLEAN_EQUALS a b
                 else binary_STATEMENT BOOLEAN_AND ret (binary_STATEMENT BOOLEAN_EQUALS a b)) = Some (ps ++ [(x, y)]).
Proof.
  intros Er Ea Eb. destruct (is_null_stmt ret) eqn:En.
  - destruct ret; try done. injection Er as <-. cbn. by rewrite Ea, Eb.
  - cbn [equalities]. rewrite Er. cbn [mbind option_bind]. by rewrite Ea, Eb.
Qed.
Lemma match_right_spec tn n right : Forall (right_ok m) right → no_nul tn → no_nul n → ∀ ret s ps, fresh_above s → m ⊆ qf_values s →
  equalities (qf_values s) ret = Some ps →
  if fits_right m tn n right then
    ∃ ret' s', match_right tn n right ret s = Ret (ret', s') ∧ augments s s' ∧ equalities (qf_values s') ret' = Some (ps ++ right_pairs m tn n right)
  else match_right tn n right ret s = Undef OutOfBounds.
Proof.
  intros HF Ht Hn. induction HF as [|r right Hr _ IH]; intros ret s ps Hf Hm He.
  { exists ret, s. split; [done|]. split; [by apply augments_refl|]. by rewrite app_nil_r. }
  rewrite match_right_turn by done. unfold right_pairs. cbn [fits_right forallb mbind list_bind]. fold (right_pairs m tn n right).
  fold (fits_right m tn n right). destruct (has_column m n r); cbn [implb app]; [|by apply IH].
  destruct (reference_written (zlen tn + zlen n + 2) tn n s Hf Ht Hn ltac:(lia)) as (pl & s1 & E1 & G1 & V1). rewrite (bind_n _ _ _ _ _ E1).
  destruct (right_table m r Hr) as (_ & _ & a & _ & _ & _ & _ & rn & _ & _ & Ha & ->). pose proof (alias_no_nul _ _ _ Ha) as Hrn.
  destruct (Nat.leb_spec (length rn) (length tn)) as [Hle|Hlt]; cbn [andb].
  - destruct (reference_written (zlen tn + zlen n + 2) rn n s1 (augments_fresh _ _ G1) Hrn Hn ltac:(unfold zlen; lia)) as (pr & s2 & E2 & G2 & V2).
    rewrite (bind_n _ _ _ _ _ E2). pose proof (augments_trans _ _ _ G1 G2) as G12.
    specialize (IH _ s2 (ps ++ [(dotted tn n, dotted rn n)]) (augments_fresh _ _ G2) (transitivity Hm (augments_values _ _ G12))
      (equalities_add _ ret ps _ _ _ _ (equalities_more _ _ _ _ (augments_values _ _ G12) He)
        (alias_name_more _ _ (augments_values _ _ G2) _ _ (dotted_name _ _ _ _ Ht Hn V1)) (dotted_name _ _ _ _ Hrn Hn V2))).
    destruct (fits_right m tn n right); [|done]. destruct IH as (ret' & s3 & E3 & G3 & H3). exists ret', s3. split; [done|].
    split; [by eapply augments_trans|]. by rewrite <- app_assoc in H3.
  - apply bind_error_n, reference_overruns; unfold zlen; lia.
Qed.

(** One table on the left. *)
Definition columns_of (j : SqlJoin) : list SqlColumnListAlias :=
  match j with Join (table_alias_STATEMENT _ _ _ _ (column_list_alias_STATEMENT ring)) _ _ => ring | _ => [] end.
Definition left_pairs (l : SqlJoin) (right : list SqlJoin) : list (list byte * list byte) :=
  mjoin (replicate (length (columns_of l)) (right_pairs m (table_name m l) (default [] (first_column m l)) right)).
Definition pairs (left right : list SqlJoin) : list (list byte * list byte) := left ≫= λ l, left_pairs l right.
Lemma left_table l : left_ok m l → ∃ p t a u q w ring c ty x y k z tn v,
  l = Join (table_alias_STATEMENT p t a u (column_list_alias_STATEMENT (ColumnListAlias x y (value_STATEMENT q w) k z :: ring))) c ty ∧
  readable_list m (column_list_alias_STATEMENT (ColumnListAlias x y (value_STATEMENT q w) k z :: ring)) ∧ alias_name m a = Some tn ∧ table_name m l = tn ∧
  m !! q = Some v ∧ sv_type v ≠ CALCULATED_VALUE ∧ first_column m l = Some (cstr (sv_literal v)).
Proof.
  intros [Hr [n Hn]]. destruct (right_table m l Hr) as (p & t & a & u & cl & c & ty & tn & -> & Hl & Ha & Htn). cbn in Hn.
  destruct cl as [| | | | | | | | | | | | | | | |ring| | | | | | | | | | | |]; try done. destruct ring as [|[x y alias k z] ring]; [done|].
  destruct alias as [| | | | |q w| | | | | | | | | | | | | | | | | | | | | | |]; try done. destruct (m !! q) as [v|] eqn:Ev; [|done]. cbn in Hn.
  destruct (decide (sv_type v = CALCULATED_VALUE)) as [|Hc]; [done|]. exists p, t, a, u, q, w, ring, c, ty, x, y, k, z, tn, v.
  repeat split; try done. cbn. rewrite Ev. cbn. by rewrite decide_False.
Qed.
Lemma own_column l n : left_ok m l → first_column m l = Some n → is_Some (table_column m n l).
Proof.
  intros (p & t & a & u & q & w & ring & c & ty & x & y & k & z & tn & v & -> & _ & _ & _ & Ev & _ & E)%left_table. rewrite E. intros [= <-].
  cbn [table_column named cla_name alias_name]. rewrite Ev. cbn [fmap option_fmap option_map from_option]. unfold is_name. rewrite bool_decide_true by done.
  cbn [id app head fmap option_fmap option_map]. by eexists.
Qed.
Lemma match_columns_left_spec column_list q w v tn right : readable_list m column_list → m !! q = Some v → sv_type v ≠ CALCULATED_VALUE →
  (∃ p t a u c ty, is_Some (table_column m (cstr (sv_literal v)) (Join (table_alias_STATEMENT p t a u column_list) c ty))) →
  Forall (right_ok m) right → no_nul tn → ∀ cur ret s ps, fresh_above s → m ⊆ qf_values s → equalities (qf_values s) ret = Some ps → cur ≠ [] →
  if fits_right m tn (cstr (sv_literal v)) right then
    ∃ ret' s', match_columns_left column_list (value_STATEMENT q w) cur tn right ret s = Ret (ret', s') ∧ augments s s' ∧
      equalities (qf_values s') ret' = Some (ps ++ mjoin (replicate (length cur) (right_pairs m tn (cstr (sv_literal v)) right)))
  else match_columns_left column_list (value_STATEMENT q w) cur tn right ret s = Undef OutOfBounds.
Proof.
  intros Hl Ev Hc (p & t & a & u & c & ty & Hown) HF Ht. induction cur as [|x cur IH]; intros ret s ps Hf Hm He Hne; [done|]. clear Hne.
  cbn [match_columns_left]. rewrite bind_values_n. rewrite (bind_lift_n _ _ _ v) by (cbn; unfold value_at; by rewrite (lookup_weaken _ _ _ _ Ev Hm)).
  rewrite bool_decide_true by done. rewrite (bind_lift_n _ _ _ ()) by done. set (n := cstr (sv_literal v)) in *.
  destruct (match_column_in_table_spec (qf_values s) n p t a u column_list c ty (readable_list_more _ _ Hm _ Hl)) as (y & Ey & Hy).
  rewrite (bind_lift_n _ _ _ _ Ey).
  assert (Hyn : is_null_stmt y = false).
  { destruct (is_null_stmt y); [|done]. destruct Hown as [? Hown]. revert Hown Hy. cbn. destruct Hl as [->|(ring & -> & _ & HR)]; [done|].
    rewrite (named_more _ _ Hm) by done. by intros -> ?. }
  rewrite Hyn. rewrite (bind_lift_n _ _ _ ()) by done.
  pose proof (match_right_spec tn n right HF Ht (cstr_no_nul _) ret s ps Hf Hm He) as HR.
  destruct (fits_right m tn n right); [|by apply bind_error_n].
  destruct HR as (ret1 & s1 & E1 & G1 & H1). rewrite (bind_n _ _ _ _ _ E1). destruct cur as [|x' cur].
  - exists ret1, s1. split; [done|]. split; [done|]. rewrite H1. cbn. by rewrite app_nil_r.
  - destruct (IH ret1 s1 _ (augments_fresh _ _ G1) (transitivity Hm (augments_values _ _ G1)) H1 ltac:(done)) as (ret2 & s2 & E2 & G2 & H2).
    exists ret2, s2. split; [done|]. split; [by eapply augments_trans|]. rewrite H2. cbn [length replicate mjoin list_join]. by rewrite <- app_assoc.
Qed.
Lemma match_left_spec right : Forall (right_ok m) right → ∀ left, Forall (left_ok m) left → ∀ ret s ps, fresh_above s → m ⊆ qf_values s →
  equalities (qf_values s) ret = Some ps →
  if fits m left right then
    ∃ ret' s', match_left left right ret s = Ret (ret', s') ∧ augments s s' ∧ equalities (qf_values s') ret' = Some (ps ++ pairs left right)
  else match_left left right ret s = Undef OutOfBounds.
Proof.
  intros HR left HF. induction HF as [|l left Hl _ IH]; intros ret s ps Hf Hm He.
  { exists ret, s. split; [done|]. split; [by apply augments_refl|]. by rewrite app_nil_r. }
  pose proof (left_table l Hl) as (p & t & a & u & q & w & ring & c & ty & x & y & k & z & tn & v & -> & Hc & Ha & Htn & Ev & Ht & Hn).
  pose proof (own_column _ _ Hl Hn) as Hown. unfold pairs. cbn [fits forallb mbind list_bind]. fold (pairs left right). fold (fits m left right).
  unfold left_pairs. rewrite Htn, Hn. cbn [match_left from_option id columns_of].
  rewrite (bind_lift_n _ _ _ (a, column_list_alias_STATEMENT (ColumnListAlias x y (value_STATEMENT q w) k z :: ring))) by done.
  rewrite (bind_lift_n _ _ _ (ColumnListAlias x y (value_STATEMENT q w) k z :: ring)) by done. rewrite (bind_lift_n _ _ _ (value_STATEMENT q w)) by done.
  rewrite bind_values_n. rewrite (bind_lift_n _ _ _ tn) by (by apply (text_of_name (qf_values s)), alias_name_more with (m := m)).
  pose proof (match_columns_left_spec _ q w v tn right Hc Ev Ht ltac:(by eexists _, _, _, _, _, _) HR (alias_no_nul _ _ _ Ha)
    (ColumnListAlias x y (value_STATEMENT q w) k z :: ring) ret s ps Hf Hm He ltac:(done)) as H1.
  destruct (fits_right m tn (cstr (sv_literal v)) right); cbn [andb]; [|by apply bind_error_n].
  destruct H1 as (ret1 & s1 & E1 & G1 & H1). rewrite (bind_n _ _ _ _ _ E1).
  specialize (IH ret1 s1 _ (augments_fresh _ _ G1) (transitivity Hm (augments_values _ _ G1)) H1). destruct (fits m left right); [|done].
  destruct IH as (ret2 & s2 & E2 & G2 & H2). exists ret2, s2. split; [done|]. split; [by eapply augments_trans|]. by rewrite <- app_assoc in H2.
Qed.
End running.

(** ** What is compared *)
Lemma split_dotted tn n : period ∉ tn → split_period (dotted tn n) = Some (tn, n).
Proof.
  intros Hp. induction tn as [|c tn IH]; [cbn; by rewrite decide_True|]. change (dotted (c :: tn) n) with (c :: dotted tn n). cbn [split_period].
  apply not_elem_of_cons in Hp as [Hc Hp]. rewrite decide_False by done. by rewrite (IH Hp).
Qed.
(** Aliases tell the tables apart, and have no period. *)
Record scope_ok (m : values) (tables : list SqlJoin) : Prop := {
  scope_names : ∀ j j', j ∈ tables → j' ∈ tables → table_alias_name m j = table_alias_name m j' → j = j';
  scope_periods : ∀ j, j ∈ tables → period ∉ table_name m j;
}.
Lemma dotted_resolves m tables j n : Forall (right_ok m) tables → scope_ok m tables → j ∈ tables →
  resolve m (dotted (table_name m j) n) tables null_STATEMENT = table_column m n j.
Proof.
  intros HF [Hnames Hperiods] Hj. unfold resolve. rewrite split_dotted by by apply Hperiods.
  rewrite list.Forall_forall in HF. destruct (HF j Hj) as [_ [tn Htn]]. unfold table_name. rewrite Htn. cbn [from_option id].
  destruct (list_find_elem_of (λ j, table_alias_name m j = Some tn) tables j Hj Htn) as [[i j'] E].
  rewrite E. cbn [mbind option_bind]. apply list_find_Some in E as (Hi & Hn & _). apply list_elem_of_lookup_2 in Hi.
  by rewrite (Hnames j j' Hj Hi) by by rewrite Htn, Hn.
Qed.
Lemma elem_pairs m left right x y : Forall (left_ok m) left → (x, y) ∈ pairs m left right ↔
  ∃ l r n, l ∈ left ∧ r ∈ right ∧ first_column m l = Some n ∧ has_column m n r = true ∧ x = dotted (table_name m l) n ∧ y = dotted (table_name m r) n.
Proof.
  intros HF. rewrite list.Forall_forall in HF. unfold pairs. rewrite list_elem_of_bind. split.
  - intros (l & Hin & Hl). destruct (HF l Hl) as [_ [n Hn]]. unfold left_pairs in Hin. rewrite Hn in Hin. cbn [from_option id] in Hin.
    assert (Hp : (x, y) ∈ right_pairs m (table_name m l) n right).
    { clear -Hin. induction (length (columns_of l)) as [|k IH]; cbn in Hin; [by apply not_elem_of_nil in Hin|]. apply elem_of_app in Hin as [|]; auto. }
    unfold right_pairs in Hp. apply list_elem_of_bind in Hp as (r & Hin' & Hr). destruct (has_column m n r) eqn:E; [|by apply not_elem_of_nil in Hin'].
    apply list_elem_of_singleton in Hin' as [= -> ->]. by exists l, r, n.
  - intros (l & r & n & Hl & Hr & Hn & Hc & -> & ->). exists l. split; [|done]. unfold left_pairs. rewrite Hn. cbn [from_option id].
    destruct (left_table m l (HF l Hl)) as (? & ? & ? & ? & ? & ? & ? & ? & ? & ? & ? & ? & ? & ? & ? & -> & _). cbn [columns_of length replicate mjoin list_join].
    apply elem_of_app. left. unfold right_pairs. apply list_elem_of_bind. exists r. split; [|done]. rewrite Hc. by apply list_elem_of_singleton.
Qed.
(** Two names are equal in a row that gives a value to each column of each table. *)
Definition compares {A} (row : SqlStatement * SqlStatement → A) (m : values) (tables : list SqlJoin) (names : list byte * list byte) : Prop :=
  row <$> resolve m names.1 tables null_STATEMENT = row <$> resolve m names.2 tables null_STATEMENT.
Lemma right_ok_more m m' j : m ⊆ m' → right_ok m j → right_ok m' j ∧ table_alias_name m' j = table_alias_name m j.
Proof.
  intros Hm (p & t & a & u & l & c & ty & tn & -> & Hl & Ha & _)%right_table. cbn. rewrite Ha, (alias_name_more _ _ Hm _ _ Ha). split; [|done].
  split; [|by exists tn; apply (alias_name_more _ _ Hm)]. split; [right; exists tn; by apply (alias_name_more _ _ Hm)|by apply (readable_list_more _ _ Hm)].
Qed.
Lemma scope_ok_more m m' tables : m ⊆ m' → Forall (right_ok m) tables → scope_ok m tables → scope_ok m' tables.
Proof.
  intros Hm HF [Hn Hp]. rewrite list.Forall_forall in HF. unfold table_name in *. split.
  - intros j j' Hj Hj'. rewrite (proj2 (right_ok_more _ _ _ Hm (HF j Hj))), (proj2 (right_ok_more _ _ _ Hm (HF j' Hj'))). by apply Hn.
  - intros j Hj. unfold table_name. rewrite (proj2 (right_ok_more _ _ _ Hm (HF j Hj))). by apply Hp.
Qed.

(** The condition reads the first column of each table on the left and no other.  It is built if no table on the
    right that has that column has a longer alias: the text of the right name is written to a piece of memory
    measured with the left name.  With its names resolved, it holds in a row exactly if the first column of each
    table on the left has the value of the column of that name in each table on the right that has one. *)
Lemma natural_join_first_columns left right s (m := qf_values s) : left ≠ [] → right ≠ [] → Forall (left_ok m) left → Forall (right_ok m) right →
  fresh_above s → scope_ok m (left ++ right) →
  if fits m left right then
    ∃ cond s' names, natural_join_condition (join_STATEMENT left) (join_STATEMENT right) s = Ret (cond, s') ∧ m ⊆ qf_values s' ∧
      qf_warnings s' = qf_warnings s ∧ equalities (qf_values s') cond = Some names ∧
      ∀ A (row : SqlStatement * SqlStatement → A), Forall (compares row (qf_values s') (left ++ right)) names ↔
        ∀ l r n cl cr, l ∈ left → r ∈ right → first_column m l = Some n → table_column m n l = Some cl → table_column m n r = Some cr → row cl = row cr
  else natural_join_condition (join_STATEMENT left) (join_STATEMENT right) s = Undef OutOfBounds.
Proof.
  intros Hl Hr HL HR Hf Hs. unfold natural_join_condition. rewrite (bind_lift_n _ _ _ left) by (by destruct left).
  rewrite (bind_lift_n _ _ _ right) by (by destruct right).
  pose proof (match_left_spec m right HR left HL null_STATEMENT s [] Hf (reflexivity _) eq_refl) as H. destruct (fits m left right); [|done].
  destruct H as (cond & s' & E & [V F W] & He). exists cond, s', (pairs m left right). do 4 (split; [done|]). intros A row.
  assert (HT : Forall (right_ok m) (left ++ right)) by (apply Forall_app; split; [by eapply Forall_impl; [|exact HL]; intros ? []|done]).
  assert (Hres : ∀ j n, j ∈ left ++ right → resolve (qf_values s') (dotted (table_name m j) n) (left ++ right) null_STATEMENT = table_column m n j).
  { intros j n Hj. pose proof HT as HT'. rewrite list.Forall_forall in HT'. destruct (right_ok_more _ _ _ V (HT' j Hj)) as [_ Hn].
    replace (table_name m j) with (table_name (qf_values s') j) by (unfold table_name; by rewrite Hn).
    rewrite dotted_resolves; [|..|done]; [by rewrite (table_column_more _ _ V) by by apply HT'| |by eapply scope_ok_more].
    eapply Forall_impl; [|exact HT]. intros j' Hj'. by apply (right_ok_more _ _ _ V). }
  rewrite list.Forall_forall. split.
  - intros Hcmp l r n cl cr Hl' Hr' Hn Hcl Hcr. specialize (Hcmp (dotted (table_name m l) n, dotted (table_name m r) n)). unfold compares in Hcmp.
    cbn [fst snd] in Hcmp. rewrite !Hres in Hcmp by (apply elem_of_app; auto). rewrite Hcl, Hcr in Hcmp.
    assert (Some (row cl) = Some (row cr)) as [= ->]; [|done]. apply Hcmp. apply elem_pairs; [done|]. exists l, r, n. unfold has_column. by rewrite Hcr.
  - intros Hrow [x y] (l & r & n & Hl' & Hr' & Hn & Hc & -> & ->)%elem_pairs; [|done]. unfold compares. cbn [fst snd].
    rewrite !Hres by (apply elem_of_app; auto). unfold has_column in Hc. destruct (table_column m n r) as [cr|] eqn:Ecr; [|done].
    rewrite list.Forall_forall in HL. destruct (own_column m l n (HL l Hl') Hn) as [cl Ecl]. rewrite Ecl. cbn. f_equal. by eapply Hrow.
Qed.

(** C14: a NATURAL JOIN compares the columns the two sides share.  If what a table on the left shares with one on the
    right is its first column, and no table on the right that has the column has a longer alias, the condition is
    built, and with its names resolved it holds in a row exactly if all columns of the same name, one on the left
    and one on the right, have the same value. *)
Theorem natural_join_compares left right s (m := qf_values s) : left ≠ [] → right ≠ [] → Forall (left_ok m) left → Forall (right_ok m) right →
  fresh_above s → scope_ok m (left ++ right) → fits m left right = true → shares_first m left right →
  ∃ cond s' names, natural_join_condition (join_STATEMENT left) (join_STATEMENT right) s = Ret (cond, s') ∧ m ⊆ qf_values s' ∧
    qf_warnings s' = qf_warnings s ∧ equalities (qf_values s') cond = Some names ∧
    ∀ A (row : SqlStatement * SqlStatement → A), Forall (compares row (qf_values s') (left ++ right)) names ↔
      ∀ l r n cl cr, l ∈ left → r ∈ right → table_column m n l = Some cl → table_column m n r = Some cr → row cl = row cr.
Proof.
  intros Hl Hr HL HR Hf Hs Hfits Hshared. pose proof (natural_join_first_columns left right s Hl Hr HL HR Hf Hs) as H.
  fold m in H. rewrite Hfits in H. destruct H as (cond & s' & names & E & V & W & En & Hrow). exists cond, s', names. do 4 (split; [done|]).
  intros A row. rewrite Hrow. split; [|naive_solver]. intros Hall l r n cl cr Hl' Hr' Hcl Hcr. by eapply (Hall l r n cl cr); [done|done|apply (Hshared l r n); unfold has_column; rewrite ?Hcl, ?Hcr|done|done].
Qed.

(** ** An example: [ab (id, x) NATURAL JOIN b (y, id)] *)
Definition name_value (text : string) : SqlValue :=
  {| sv_type := COLUMN_REFERENCE; sv_coerced_type := UNKNOWN_SqlValueType; sv_data_type := UNKNOWN_SqlDataType; sv_literal := lit text |}.
Definition nj_state : qualifier :=
  {| qf_values := {[1 := name_value "ab"; 2 := name_value "b"; 3 := name_value "id"; 4 := name_value "x"; 5 := name_value "y"]}; qf_next := 100; qf_warnings := [] |}.
Abbreviation nj_name p := (value_STATEMENT p null_STATEMENT).
Definition nj_column (p name : ptr) : SqlColumnListAlias := ColumnListAlias p null_STATEMENT (nj_name name) null_STATEMENT STRING_LITERAL.
Definition nj_table (p name : ptr) (columns : list SqlColumnListAlias) : SqlJoin :=
  Join (table_alias_STATEMENT p null_STATEMENT (nj_name name) p (column_list_alias_STATEMENT columns)) null_STATEMENT NO_JOIN.
Definition nj_left : list SqlJoin := [nj_table 10 1 [nj_column 11 3; nj_column 12 4]].
Definition nj_right : list SqlJoin := [nj_table 20 2 [nj_column 21 5; nj_column 22 3]].
(** The two columns [id] have the same value. *)
Definition nj_row (column : SqlStatement * SqlStatement) : Z :=
  match column.1 with column_list_alias_STATEMENT (ColumnListAlias p _ _ _ _ :: _) => if decide (p ∈ [11; 22]) then 0 else p | _ => 0 end.

Lemma nj_left_names n : has_column (qf_values nj_state) n (nj_table 10 1 [nj_column 11 3; nj_column 12 4]) = true → n = lit "id" ∨ n = lit "x".
Proof.
  unfold has_column. cbn [table_column nj_table named].
  replace (cla_name (qf_values nj_state) (nj_column 11 3)) with (Some (lit "id")) by reflexivity.
  replace (cla_name (qf_values nj_state) (nj_column 12 4)) with (Some (lit "x")) by reflexivity.
  unfold is_name. cbn [fmap option_fmap option_map default from_option id].
  case_bool_decide; [by left|]. case_bool_decide; [by right|done].
Qed.

Lemma natural_join_compares_witness : ∃ cond s' names,
  natural_join_condition (join_STATEMENT nj_left) (join_STATEMENT nj_right) nj_state = Ret (cond, s') ∧
  equalities (qf_values s') cond = Some names ∧ Forall (compares nj_row (qf_values s') (nj_left ++ nj_right)) names.
Proof.
  assert (R : ∀ c, c ∈ [1; 2; 3; 4; 5] → readable (qf_values nj_state) (nj_name c)).
  { intros c Hc. right. apply list_elem_of_In in Hc. cbn in Hc. destruct Hc as [<-|[<-|[<-|[<-|[<-|[]]]]]]; vm_compute; by eexists. }
  assert (T : ∀ p a c1 c2, a ∈ [1; 2; 3; 4; 5] → c1.2 ∈ [1; 2; 3; 4; 5] → c2.2 ∈ [1; 2; 3; 4; 5] →
    right_ok (qf_values nj_state) (nj_table p a [nj_column c1.1 c1.2; nj_column c2.1 c2.2])).
  { intros p a c1 c2 Ha H1 H2. split; [split; [by apply R|]|]; [|destruct (R a Ha) as [|]; done].
    right. eexists. split; [done|]. split; [done|]. constructor; [by apply R|]. constructor; [by apply R|constructor]. }
  destruct (natural_join_compares nj_left nj_right nj_state) as (cond & s' & names & E & _ & _ & En & Hrow); [done|done|..].
  - constructor; [|constructor]. split; [apply (T 10 1 (11, 3) (12, 4)); eval_decide|vm_compute; by eexists].
  - constructor; [|constructor]. apply (T 20 2 (21, 5) (22, 3)); eval_decide.
  - intros p Hp. cbn in Hp |- *. rewrite !lookup_insert_ne by lia. rewrite lookup_singleton_ne by lia. done.
  - split.
    + intros j j' Hj Hj'. apply list_elem_of_In in Hj, Hj'. destruct Hj as [<-|[<-|[]]], Hj' as [<-|[<-|[]]]; vm_compute; done.
    + intros j Hj. apply list_elem_of_In in Hj. destruct Hj as [<-|[<-|[]]]; eval_decide.
  - reflexivity.
  - intros l r n Hl Hr. apply list_elem_of_singleton in Hl as ->. apply list_elem_of_singleton in Hr as ->.
    intros [-> | ->]%nj_left_names; [done|by vm_compute].
  - exists cond, s', names. split; [exact E|]. split; [exact En|]. apply Hrow.
    intros l r n cl cr Hl Hr. apply list_elem_of_singleton in Hl as ->. apply list_elem_of_singleton in Hr as ->.
    intros Hcl. assert (has_column (qf_values nj_state) n (nj_table 10 1 [nj_column 11 3; nj_column 12 4]) = true) as [-> | ->]%nj_left_names by (by unfold has_column; rewrite Hcl).
    + revert Hcl. vm_compute. intros [= <-] [= <-]. reflexivity.
    + vm_compute. done.
Defined.
(** With [x] on both sides as well, [x] is not compared: the condition is [id] equal [id], twice. *)
Lemma natural_join_skips_column (right := [nj_table 20 2 [nj_column 21 4; nj_column 22 3]]) :
  has_column (qf_values nj_state) (lit "x") (nj_table 10 1 [nj_column 11 3; nj_column 12 4]) = true ∧
  (∃ r, r ∈ right ∧ has_column (qf_values nj_state) (lit "x") r = true) ∧
  ∃ cond s', natural_join_condition (join_STATEMENT nj_left) (join_STATEMENT right) nj_state = Ret (cond, s') ∧
    equalities (qf_values s') cond = Some [(lit "ab.id", lit "b.id"); (lit "ab.id", lit "b.id")].
Proof.
  split; [reflexivity|]. split; [eexists; split; [by apply list_elem_of_singleton|reflexivity]|].
  vm_compute. eexists _, _. split; reflexivity.
Qed.
