(* ===== verification/TableDefaults.v ===== *)
(** * Defaults of a new table

    [create_table_defaults.c], which the grammar calls for a CREATE TABLE, and
    [generate_key_name.c]: a table without a GLOBAL is stored under its name with its key
    columns as subscripts, one without a DELIM has its columns separated by a bar.

    The keywords of the table are one ring; [source] and [delim] of the table point into it.
    A pointer into the ring is the number of its element here, so that it sees what is
    added to the ring later. *)
From stdpp Require Import gmap strings.
From S2P Require Import Prelude CMem Errors LogicalPlan SqlStatement Session CreateTable Quoting Optimize Qualify.

(** ** [generate_key_name] *)
Definition COLUMN_DELIMITER : list byte := lit "|".
Definition column_by (ring : list SqlColumn) (p : ptr) : option SqlColumn := head (filter (λ c, column_address c = p) ring).
(** The text of a key column: what EXTRACT says, or its node of [keys]. *)
Definition key_expression (m : values) (column : SqlColumn) : outcome (list byte) :=
  keyword ← get_keyword column OPTIONAL_EXTRACT;
  match keyword with
  | Some v =>
      value ← unpack_value m v;
      temp ← m_unescape_string (sv_literal value);
      Ret (take (Z.to_nat (MAX_STR_CONST - 1)) (cstr temp))
  | None =>
      let '(Column _ columnName _ _ _) := column in
      columnName ← text_of m columnName;
      let text := lit "keys(" ++ [double_quote] ++ columnName ++ [double_quote] ++ lit ")" in
      if MAX_STR_CONST <=? zlen text then Undef OutOfBounds else Ret text
  end.
(** What is in [buffer] afterwards; without a column of that number what was there before,
    [None] when nothing was. *)
Definition generate_key_name (m : values) (ring : list SqlColumn) (key_columns : gmap Z ptr) (target_key_num : Z)
    (buffer : option (list byte)) : outcome (option (list byte)) :=
  match key_columns !! target_key_num with
  | None => Ret buffer
  | Some p => column ← found (column_by ring p); text ← key_expression m column; Ret (Some text)
  end.

(** ** The text of the source *)
Fixpoint source_keys (m : values) (ring : list SqlColumn) (key_columns : gmap Z ptr) (n : nat) (i : Z)
    (buffer2 : option (list byte)) (buffer : list byte) : outcome (list byte) :=
  match n with
  | O => Ret buffer
  | S n' =>
      buffer2 ← generate_key_name m ring key_columns i buffer2;
      buffer ← (if i =? 0 then Ret buffer else print MAX_STR_CONST buffer (lit ","));
      key ← (match buffer2 with Some text => Ret text | None => Undef Uninitialised end);
      buffer ← print MAX_STR_CONST buffer key;
      source_keys m ring key_columns n' (i + 1) buffer2 buffer
  end.
Definition default_source (m : values) (ring : list SqlColumn) (key_columns : gmap Z ptr) (max_key : Z) (tableName : SqlStatement) : outcome (list byte) :=
  name ← text_of m tableName;
  buffer ← print MAX_STR_CONST [] (lit "^" ++ name ++ lit "(");
  buffer ← source_keys m ring key_columns (Z.to_nat (max_key + 1)) 0 None buffer;
  buffer ← print MAX_STR_CONST buffer (lit ")");
  if MAX_STR_CONST <=? zlen buffer then Undef OutOfBounds else Ret buffer.

(** ** The keywords *)
Inductive slot := Given (s : SqlStatement) | At (i : nat).
Fixpoint read_keywords (i : nat) (ks : list SqlOptionalKeyword) (SOURCE DELIM : bool) (source delim : slot) : outcome (bool * bool * slot * slot) :=
  match ks with
  | [] => Ret (SOURCE, DELIM, source, delim)
  | Keyword k _ :: ks' =>
      match k with
      | OPTIONAL_SOURCE => _ ← c_assert (negb SOURCE); read_keywords (S i) ks' true DELIM (At i) delim
      | OPTIONAL_DELIM => _ ← c_assert (negb DELIM); read_keywords (S i) ks' SOURCE true source (At i)
      | NO_KEYWORD => read_keywords (S i) ks' SOURCE DELIM source delim
      | _ => Halt FatalExit
      end
  end.
(** [if(table->source != NULL && table->source->v.keyword == cur_keyword) break; assert(table->source == NULL)] *)
Definition link (i : nat) (s : slot) : outcome slot :=
  match s with
  | At j => _ ← c_assert (bool_decide (j = i)); Ret s
  | Given s => _ ← c_assert (is_null_stmt s); Ret (At i)
  end.
Fixpoint link_keywords (i : nat) (ks : list SqlOptionalKeyword) (source delim : slot) : outcome (slot * slot) :=
  match ks with
  | [] => Ret (source, delim)
  | Keyword k _ :: ks' =>
      match k with
      | OPTIONAL_SOURCE => source ← link i source; link_keywords (S i) ks' source delim
      | OPTIONAL_DELIM => delim ← link i delim; link_keywords (S i) ks' source delim
      | NO_KEYWORD => link_keywords (S i) ks' source delim
      | _ => Halt FatalExit
      end
  end.
(** The ring from the element on. *)
Definition slot_statement (ring : list SqlOptionalKeyword) (s : slot) : SqlStatement :=
  match s with Given s => s | At i => keyword_STATEMENT (drop i ring ++ take i ring) end.

(** ** [create_table_defaults] *)
Definition new_keyword (k : OptionalKeyword) (type : SqlValueType) (text : list byte) : N SqlOptionalKeyword :=
  p ← new_ptr;
  _ ← set_value p {| sv_type := type; sv_coerced_type := UNKNOWN_SqlValueType; sv_data_type := UNKNOWN_SqlDataType; sv_literal := text |};
  mret (Keyword k (value_STATEMENT p null_STATEMENT)).
(** The status and the table, with the ring of its columns at its address in [rings]. *)
Definition create_table_defaults (rings : gmap ptr (list SqlColumn)) (table_statement keywords_statement : SqlStatement) : N (Z * SqlStatement) :=
  _ ← lift_n (c_assert (negb (is_null_stmt keywords_statement)));
  ks ← lift_n (unpack_keyword keywords_statement);
  match table_statement with
  | table_STATEMENT p tableName source columns delim =>
      m ← values_n;
      ring ← lift_n (found (rings !! columns));
      '(max_key, key_columns) ← lift_n (match ring with [] => Undef NullPointer | _ => scan_key_columns m ring (-1) ∅ end);
      if max_key <? 0 then
        name ← lift_n (text_of m tableName);
        _ ← warn ERR_PRIMARY_KEY_NOT_FOUND name;
        mret (1, table_statement)
      else
        '(SOURCE, DELIM, source, delim) ← lift_n (read_keywords 0 ks false false (Given source) (Given delim));
        let table ks source delim := table_STATEMENT p tableName (slot_statement ks source) columns (slot_statement ks delim) in
        if SOURCE && DELIM then mret (0, table ks source delim)
        else
          ks ← (if SOURCE : bool then mret ks else
                text ← lift_n (default_source m ring key_columns max_key tableName);
                k ← new_keyword OPTIONAL_SOURCE COLUMN_REFERENCE text;
                mret (ks ++ [k]));
          ks ← (if DELIM : bool then mret ks else
                k ← new_keyword OPTIONAL_DELIM STRING_LITERAL COLUMN_DELIMITER;
                mret (ks ++ [k]));
          '(source, delim) ← lift_n (link_keywords 0 ks source delim);
          mret (0, table ks source delim)
  | null_STATEMENT => lift_n (Undef NullPointer)
  | _ => lift_n (Halt AssertFailed)
  end.
