(* ===== verification/DefaultsTheorems.v ===== *)
(** * A table has its source and its delimiter

    [create_table_defaults] leaves a table with a source and a delimiter, those of the
    statement or the defaults, or warns that the table has no key. *)
From stdpp Require Import gmap strings.
From S2P Require Import Prelude CMem Errors LogicalPlan SqlStatement Session CreateTable Quoting Optimize Qualify QualifyTheorems NaturalJoin NaturalTheorems TableDefaults.

(** ** Where a keyword is *)
Definition kind (k : SqlOptionalKeyword) : OptionalKeyword := let '(Keyword w _) := k in w.
Definition place (w : OptionalKeyword) (ks : list SqlOptionalKeyword) : option nat := fst <$> list_find (λ k, kind k = w) ks.
Definition times (w : OptionalKeyword) (ks : list SqlOptionalKeyword) : nat := length (filter (λ k, kind k = w) ks).
Definition table_keywords (ks : list SqlOptionalKeyword) : Prop :=
  Forall (λ k, kind k = NO_KEYWORD ∨ kind k = OPTIONAL_SOURCE ∨ kind k = OPTIONAL_DELIM) ks.
Definition moved (i : nat) (w : OptionalKeyword) (ks : list SqlOptionalKeyword) (old : slot) : slot :=
  match place w ks with Some j => At (i + j) | None => old end.

Lemma place_cons w k ks : place w (k :: ks) = if decide (kind k = w) then Some O else S <$> place w ks.
Proof.
  unfold place. cbn [list_find]. destruct (decide (kind k = w)); [done|]. by destruct (list_find _ ks) as [[]|].
Qed.
Lemma times_cons w k ks : times w (k :: ks) = ((if decide (kind k = w) then 1 else 0) + times w ks)%nat.
Proof. unfold times. rewrite filter_cons. by destruct (decide (kind k = w)). Qed.
Lemma times_here w v ks : times w (Keyword w v :: ks) = S (times w ks).
Proof. rewrite times_cons. by rewrite decide_True. Qed.
Lemma times_there w k ks : kind k ≠ w → times w (k :: ks) = times w ks.
Proof. intros Hk. rewrite times_cons. by rewrite decide_False. Qed.
Lemma times_place w ks : times w ks = O ↔ place w ks = None.
Proof.
  induction ks as [|k ks IH]; [done|]. rewrite place_cons, times_cons. destruct (decide (kind k = w)); [done|]. rewrite Nat.add_0_l, IH.
  by destruct (place w ks).
Qed.
Lemma moved_here i w k ks old : kind k = w → moved i w (k :: ks) old = At i.
Proof. intros Hk. unfold moved. rewrite place_cons, decide_True by done. by rewrite Nat.add_0_r. Qed.
Lemma moved_there i w k ks old : kind k ≠ w → moved i w (k :: ks) old = moved (S i) w ks old.
Proof. intros Hk. unfold moved. rewrite place_cons, decide_False by done. destruct (place w ks); cbn; [|done]. f_equal. lia. Qed.
Lemma moved_none i w ks old : times w ks = O → moved i w ks old = old.
Proof. intros Ht. unfold moved. by rewrite (proj1 (times_place w ks) Ht). Qed.
Lemma place_app w ks ks' : place w (ks ++ ks') = match place w ks with Some j => Some j | None => (Nat.add (length ks)) <$> place w ks' end.
Proof.
  induction ks as [|k ks IH]; [cbn [app]; by destruct (place w ks')|]. cbn [app length]. rewrite !place_cons, IH. destruct (decide (kind k = w)); [done|].
  by destruct (place w ks), (place w ks').
Qed.
Lemma times_app w ks ks' : times w (ks ++ ks') = (times w ks + times w ks')%nat.
Proof. unfold times. by rewrite list.filter_app, length_app. Qed.
Lemma place_lookup w ks i : place w ks = Some i → ∃ v, ks !! i = Some (Keyword w v).
Proof.
  unfold place. destruct (list_find _ ks) as [[j k]|] eqn:E; [|done]. intros [= <-]. apply list_find_Some in E as (Hj & Hk & _).
  destruct k as [w' v]. cbn in Hk. subst w'. by exists v.
Qed.

(** ** The two loops *)
Definition once (w : OptionalKeyword) (seen : bool) (ks : list SqlOptionalKeyword) : Prop := ((if seen then 1 else 0) + times w ks ≤ 1)%nat.
Definition seen_in (w : OptionalKeyword) (ks : list SqlOptionalKeyword) : bool := bool_decide (times w ks ≠ O).
Lemma read_keywords_spec ks : table_keywords ks → ∀ i (given_s given_d : bool) source delim, once OPTIONAL_SOURCE given_s ks → once OPTIONAL_DELIM given_d ks →
  read_keywords i ks given_s given_d source delim =
    Ret (given_s || seen_in OPTIONAL_SOURCE ks, given_d || seen_in OPTIONAL_DELIM ks, moved i OPTIONAL_SOURCE ks source, moved i OPTIONAL_DELIM ks delim).
Proof.
  unfold once, seen_in. induction 1 as [|[k v] ks Hk _ IH]; intros i gs gd source delim HS HD; [by rewrite !orb_false_r|]. cbn [kind] in Hk.
  destruct Hk as [->|[->| ->]]; cbn [read_keywords]; rewrite ?times_here, ?times_there in * by done.
  - rewrite IH by done. by rewrite !moved_there.
  - destruct gs; [lia|]. cbn [negb c_assert mbind outcome_bind]. rewrite IH by (done || lia).
    rewrite moved_here, moved_there by done. rewrite moved_none by lia. by rewrite (bool_decide_true (S (times OPTIONAL_SOURCE ks) ≠ O)).
  - destruct gd; [lia|]. cbn [negb c_assert mbind outcome_bind]. rewrite IH by (done || lia).
    rewrite (moved_here i OPTIONAL_DELIM), moved_there by done. rewrite (moved_none (S i) OPTIONAL_DELIM) by lia.
    by rewrite (bool_decide_true (S (times OPTIONAL_DELIM ks) ≠ O)).
Qed.
Definition ready (i : nat) (w : OptionalKeyword) (ks : list SqlOptionalKeyword) (s : slot) : Prop :=
  match place w ks with Some j => s = Given null_STATEMENT ∨ s = At (i + j) | None => True end.
Lemma ready_there i w k ks s : kind k ≠ w → ready i w (k :: ks) s → ready (S i) w ks s.
Proof.
  intros Hk. unfold ready. rewrite place_cons, decide_False by done. destruct (place w ks) as [j|]; [|done]. cbn. by rewrite Nat.add_succ_r.
Qed.
Lemma ready_here i w k ks s : kind k = w → ready i w (k :: ks) s → link i s = Ret (At i).
Proof.
  intros Hk. unfold ready. rewrite place_cons, decide_True by done. rewrite Nat.add_0_r. intros [->| ->]; cbn; [done|]. by rewrite bool_decide_true.
Qed.
Lemma ready_none i w ks s : times w ks = O → ready i w ks s.
Proof. intros Ht. unfold ready. by rewrite (proj1 (times_place w ks) Ht). Qed.
Lemma link_keywords_spec ks : table_keywords ks → ∀ i source delim, (times OPTIONAL_SOURCE ks ≤ 1)%nat → (times OPTIONAL_DELIM ks ≤ 1)%nat →
  ready i OPTIONAL_SOURCE ks source → ready i OPTIONAL_DELIM ks delim →
  link_keywords i ks source delim = Ret (moved i OPTIONAL_SOURCE ks source, moved i OPTIONAL_DELIM ks delim).
Proof.
  induction 1 as [|[k v] ks Hk _ IH]; intros i source delim HS HD RS RD; [done|]. cbn [kind] in Hk.
  destruct Hk as [->|[->| ->]]; cbn [link_keywords]; rewrite ?times_here, ?times_there in * by done.
  - rewrite IH by (done || (eapply ready_there; [|eassumption]; done)). by rewrite !moved_there.
  - rewrite (ready_here i OPTIONAL_SOURCE (Keyword OPTIONAL_SOURCE v) ks source) by done. cbn [mbind outcome_bind].
    rewrite IH by (lia || (apply ready_none; lia) || (eapply ready_there; [|eassumption]; done)). rewrite moved_here, moved_there by done. by rewrite moved_none by lia.
  - rewrite (ready_here i OPTIONAL_DELIM (Keyword OPTIONAL_DELIM v) ks delim) by done. cbn [mbind outcome_bind].
    rewrite IH by (lia || (apply ready_none; lia) || (eapply ready_there; [|eassumption]; done)). rewrite (moved_here i OPTIONAL_DELIM), moved_there by done.
    by rewrite (moved_none (S i) OPTIONAL_DELIM) by lia.
Qed.

(** ** The default source *)
Fixpoint joined (first : bool) (keys : list (list byte)) : list byte :=
  match keys with [] => [] | key :: keys' => (if first then [] else lit ",") ++ key ++ joined false keys' end.
Definition source_text (name : list byte) (keys : list (list byte)) : list byte := lit "^" ++ name ++ lit "(" ++ joined true keys ++ lit ")".
Definition key_texts (m : values) (ring : list SqlColumn) (key_columns : gmap Z ptr) (i : Z) (keys : list (list byte)) : Prop :=
  ∀ j key, keys !! j = Some key → ∃ q c, key_columns !! (i + Z.of_nat j) = Some q ∧ column_by ring q = Some c ∧ key_expression m c = Ret key.
Lemma printed acc text : zlen acc ≤ MAX_STR_CONST → print MAX_STR_CONST acc text = Ret (acc ++ text).
Proof. intros H. unfold print. by rewrite (proj2 (Z.ltb_ge _ _) H). Qed.
Lemma source_keys_spec m ring key_columns keys : ∀ i buffer2 buffer, 0 ≤ i → key_texts m ring key_columns i keys →
  zlen (buffer ++ joined (i =? 0) keys) ≤ MAX_STR_CONST →
  source_keys m ring key_columns (length keys) i buffer2 buffer = Ret (buffer ++ joined (i =? 0) keys).
Proof.
  induction keys as [|key keys IH]; intros i buffer2 buffer Hi Hk Hl; [by cbn; rewrite app_nil_r|]. cbn [length source_keys].
  destruct (Hk O key eq_refl) as (q & c & Hq & Hc & He). rewrite Z.add_0_r in Hq. unfold generate_key_name. rewrite Hq, Hc. cbn [found mbind outcome_bind].
  rewrite He. cbn [mbind outcome_bind]. cbn [joined] in Hl.
  assert (E : (if i =? 0 then Ret buffer else print MAX_STR_CONST buffer (lit ",")) = Ret (buffer ++ if i =? 0 then [] else lit ",")).
  { destruct (i =? 0); [by rewrite app_nil_r|]. apply printed. revert Hl. zlia. }
  rewrite E. cbn [mbind outcome_bind]. rewrite printed by (revert Hl; zlia). cbn [mbind outcome_bind]. rewrite IH.
  - f_equal. replace (i + 1 =? 0) with false by (symmetry; apply Z.eqb_neq; lia). cbn [joined]. by rewrite <- !app_assoc.
  - lia.
  - intros j key' Hj. destruct (Hk (S j) key' Hj) as (q' & c' & Hq' & ?). exists q', c'. by replace (i + 1 + Z.of_nat j) with (i + Z.of_nat (S j)) by lia.
  - replace (i + 1 =? 0) with false by (symmetry; apply Z.eqb_neq; lia). rewrite <- !app_assoc. done.
Qed.
Lemma default_source_spec m ring key_columns max_key tableName name keys : text_of m tableName = Ret name → key_texts m ring key_columns 0 keys →
  length keys = Z.to_nat (max_key + 1) → zlen (source_text name keys) < MAX_STR_CONST →
  default_source m ring key_columns max_key tableName = Ret (source_text name keys).
Proof.
  intros Hn Hk Hlen Hl. unfold default_source. rewrite Hn. cbn [mbind outcome_bind]. rewrite printed by done. cbn [mbind outcome_bind]. rewrite (app_nil_l (lit "^" ++ _)). rewrite <- Hlen.
  unfold source_text in *. rewrite source_keys_spec; [|done|done|change (0 =? 0) with true; revert Hl; zlia]. change (0 =? 0) with true.
  cbn [mbind outcome_bind]. rewrite printed by (revert Hl; zlia). cbn [mbind outcome_bind]. rewrite <- !app_assoc. by rewrite (proj2 (Z.leb_gt _ _) Hl).
Qed.
(** Key numbers that do not begin with 0: the text of key 0 is printed from a buffer nothing was written to. *)
Lemma key_gap_uninitialised m ring key_columns max_key tableName name : text_of m tableName = Ret name → 0 ≤ max_key → key_columns !! 0 = None →
  default_source m ring key_columns max_key tableName = Undef Uninitialised.
Proof.
  intros Hn Hm Hg. unfold default_source. rewrite Hn. cbn [mbind outcome_bind]. rewrite printed by done. cbn [mbind outcome_bind].
  destruct (Z.to_nat (max_key + 1)) as [|n] eqn:E; [lia|]. cbn [source_keys]. unfold generate_key_name. by rewrite Hg.
Qed.

(** ** The keywords of the table in the end *)
Lemma keyword_added k type text s : fresh_above s → ∃ q s', new_keyword k type text s = Ret (Keyword k (value_STATEMENT q null_STATEMENT), s') ∧
  augments s s' ∧ sv_literal <$> qf_values s' !! q = Some text.
Proof.
  intros Hf. eexists (qf_next s), _. split; [reflexivity|]. split; [split|].
  - cbn. apply insert_subseteq. apply Hf. lia.
  - intros p Hp. cbn in *. rewrite lookup_insert_ne by lia. apply Hf. lia.
  - done.
  - cbn. by rewrite lookup_insert_eq.
Qed.
Definition missing (w : OptionalKeyword) (q : ptr) (ks : list SqlOptionalKeyword) : list SqlOptionalKeyword :=
  if seen_in w ks then [] else [Keyword w (value_STATEMENT q null_STATEMENT)].
Definition completed (qs qd : ptr) (ks : list SqlOptionalKeyword) : list SqlOptionalKeyword :=
  ks ++ missing OPTIONAL_SOURCE qs ks ++ missing OPTIONAL_DELIM qd ks.
Definition complete_ok (ks : list SqlOptionalKeyword) : Prop :=
  table_keywords ks ∧ (times OPTIONAL_SOURCE ks ≤ 1)%nat ∧ (times OPTIONAL_DELIM ks ≤ 1)%nat.
Lemma times_missing w w' q ks : times w (missing w' q ks) = if decide (w = w') then (if seen_in w ks then 0 else 1)%nat else 0%nat.
Proof.
  unfold missing. destruct (decide (w = w')) as [->|Hw].
  - destruct (seen_in w' ks); [done|]. by rewrite times_here.
  - destruct (seen_in w' ks); [done|]. rewrite times_there by (cbn; congruence). done.
Qed.
Lemma completed_once qs qd ks : complete_ok ks → table_keywords (completed qs qd ks) ∧
  times OPTIONAL_SOURCE (completed qs qd ks) = 1%nat ∧ times OPTIONAL_DELIM (completed qs qd ks) = 1%nat.
Proof.
  intros (HT & HS & HD). unfold completed. split.
  - apply Forall_app. split; [done|]. apply Forall_app. unfold missing. split; case_match; first [constructor; [cbn; auto|constructor]|constructor].
  - rewrite !times_app, !times_missing. repeat first [rewrite decide_True by done|rewrite decide_False by done]. unfold seen_in.
    split; case_bool_decide; lia.
Qed.
Lemma moved_ready w ks ks' : ready 0 w (ks ++ ks') (moved 0 w ks (Given null_STATEMENT)).
Proof. unfold ready, moved. rewrite place_app. destruct (place w ks); [by right|]. destruct (place w ks'); [by left|done]. Qed.
Lemma once_place w ks : times w ks = 1%nat → ∃ i, place w ks = Some i.
Proof. intros Ht. destruct (place w ks) as [i|] eqn:E; [by exists i|]. apply times_place in E. lia. Qed.
Lemma completed_linked qs qd ks : complete_ok ks → ∃ i j, place OPTIONAL_SOURCE (completed qs qd ks) = Some i ∧ place OPTIONAL_DELIM (completed qs qd ks) = Some j ∧
  link_keywords 0 (completed qs qd ks) (moved 0 OPTIONAL_SOURCE ks (Given null_STATEMENT)) (moved 0 OPTIONAL_DELIM ks (Given null_STATEMENT)) = Ret (At i, At j).
Proof.
  intros Hok. destruct (completed_once qs qd ks Hok) as (HT & HS & HD). destruct (once_place _ _ HS) as [i Hi]. destruct (once_place _ _ HD) as [j Hj].
  exists i, j. split; [done|]. split; [done|]. rewrite link_keywords_spec by (done || lia || apply moved_ready). unfold moved. by rewrite Hi, Hj.
Qed.
(** What a slot of the finished table points to. *)
Definition chosen (w : OptionalKeyword) (ks : list SqlOptionalKeyword) (text : list byte) (m : values) (v : SqlStatement) : Prop :=
  if seen_in w ks then Keyword w v ∈ ks else ∃ q, v = value_STATEMENT q null_STATEMENT ∧ sv_literal <$> m !! q = Some text.
Lemma place_chosen w ks added i v : place w (ks ++ added) = Some i → (ks ++ added) !! i = Some (Keyword w v) →
  if seen_in w ks then Keyword w v ∈ ks else Keyword w v ∈ added.
Proof.
  intros Hp Hv. rewrite place_app in Hp. unfold seen_in. destruct (place w ks) as [j|] eqn:E.
  - injection Hp as ->. rewrite bool_decide_true by (intros Ht; apply times_place in Ht; congruence).
    destruct (place_lookup _ _ _ E) as [v' Hv']. rewrite lookup_app_l in Hv by (by eapply lookup_lt_Some). by eapply list_elem_of_lookup_2.
  - pose proof (proj2 (times_place w ks) E) as Ht. rewrite bool_decide_false by (intros []; done).
    destruct (place w added) as [j|] eqn:Ej; [|done]. injection Hp as <-. rewrite lookup_app_r in Hv by lia. by eapply list_elem_of_lookup_2.
Qed.
Lemma slot_ring w ring i : place w ring = Some i → ∃ v rest, ring !! i = Some (Keyword w v) ∧
  slot_statement ring (At i) = keyword_STATEMENT (Keyword w v :: rest) ∧ Keyword w v :: rest ≡ₚ ring.
Proof.
  intros Hp. destruct (place_lookup _ _ _ Hp) as [v Hv]. exists v, (drop (S i) ring ++ take i ring). split; [done|]. cbn [slot_statement].
  rewrite (drop_S ring (Keyword w v) i Hv). split; [done|]. rewrite <- (take_drop i ring) at 3. rewrite (drop_S ring (Keyword w v) i Hv).
  by rewrite (Permutation_app_comm (take i ring)).
Qed.

(** ** The table *)
Definition keyed (m : values) (rings : gmap ptr (list SqlColumn)) (columns : ptr) (ring : list SqlColumn) (max_key : Z) (key_columns : gmap Z ptr) : Prop :=
  rings !! columns = Some ring ∧ ring ≠ [] ∧ scan_key_columns m ring (-1) ∅ = Ret (max_key, key_columns).
(** The two keywords that may be missing. *)
Lemma missing_added w type text ks ks0 s : fresh_above s → ∃ q s',
  (if seen_in w ks then mret ks0 else (k ← new_keyword w type text; mret (ks0 ++ [k])) : N (list SqlOptionalKeyword)) s = Ret (ks0 ++ missing w q ks, s') ∧
  augments s s' ∧ (seen_in w ks = false → sv_literal <$> qf_values s' !! q = Some text).
Proof.
  intros Hf. unfold missing. destruct (seen_in w ks).
  - exists 0, s. rewrite app_nil_r. split; [done|]. by split; [apply augments_refl|].
  - destruct (keyword_added w type text s Hf) as (q & s' & E & G & V). exists q, s'. split; [by rewrite (bind_n _ _ _ _ _ E)|]. done.
Qed.
Lemma missing_elem w v w' q ks : Keyword w v ∈ missing w' q ks → w = w' ∧ v = value_STATEMENT q null_STATEMENT.
Proof. unfold missing. destruct (seen_in w' ks); [by intros ?%not_elem_of_nil|]. by intros [= -> ->]%list_elem_of_singleton. Qed.
(** The finished table. *)
Lemma completed_table qs qd ks text m i j p tableName columns : complete_ok ks →
  place OPTIONAL_SOURCE (completed qs qd ks) = Some i → place OPTIONAL_DELIM (completed qs qd ks) = Some j →
  (seen_in OPTIONAL_SOURCE ks = false → sv_literal <$> m !! qs = Some text) → (seen_in OPTIONAL_DELIM ks = false → sv_literal <$> m !! qd = Some COLUMN_DELIMITER) →
  ∃ vs src vd dl, table_STATEMENT p tableName (slot_statement (completed qs qd ks) (At i)) columns (slot_statement (completed qs qd ks) (At j)) =
      table_STATEMENT p tableName (keyword_STATEMENT (Keyword OPTIONAL_SOURCE vs :: src)) columns (keyword_STATEMENT (Keyword OPTIONAL_DELIM vd :: dl)) ∧
    Keyword OPTIONAL_SOURCE vs :: src ≡ₚ Keyword OPTIONAL_DELIM vd :: dl ∧ ks ⊆+ Keyword OPTIONAL_SOURCE vs :: src ∧
    chosen OPTIONAL_SOURCE ks text m vs ∧ chosen OPTIONAL_DELIM ks COLUMN_DELIMITER m vd.
Proof.
  intros Hok Hi Hj Hs Hd. destruct (slot_ring _ _ _ Hi) as (vs & src & Vs & -> & Ps). destruct (slot_ring _ _ _ Hj) as (vd & dl & Vd & -> & Pd).
  exists vs, src, vd, dl. split; [done|]. split; [by rewrite Ps, Pd|]. split; [rewrite Ps; by apply submseteq_inserts_r|].
  unfold chosen. split.
  - pose proof (place_chosen _ _ _ _ _ Hi Vs) as H. destruct (seen_in OPTIONAL_SOURCE ks); [done|]. exists qs. split; [|by apply Hs].
    apply elem_of_app in H as [[_ H]%missing_elem|[? _]%missing_elem]; done.
  - pose proof (place_chosen _ _ _ _ _ Hj Vd) as H. destruct (seen_in OPTIONAL_DELIM ks); [done|]. exists qd. split; [|by apply Hd].
    apply elem_of_app in H as [[? _]%missing_elem|[_ H]%missing_elem]; done.
Qed.

(** C15: Defaults of a new table.  A table without a key is refused with a warning.  A table with a key that gives its
    source, or whose key columns are numbered without a gap and whose source made of them fits its buffer, has a source
    and a delimiter afterwards: those of the statement, or a source made of the table's name and the texts of its key
    columns in the order of their numbers, and the bar as delimiter; both are in the ring of keywords of the
    statement, with the keywords that were there. *)
Theorem table_has_defaults rings p tableName columns ks ring max_key key_columns s name keys :
  keyed (qf_values s) rings columns ring max_key key_columns → complete_ok ks → fresh_above s → text_of (qf_values s) tableName = Ret name →
  (seen_in OPTIONAL_SOURCE ks = false → 0 ≤ max_key → length keys = Z.to_nat (max_key + 1) ∧ key_texts (qf_values s) ring key_columns 0 keys ∧
     zlen (source_text name keys) < MAX_STR_CONST) →
  if max_key <? 0 then
    create_table_defaults rings (table_STATEMENT p tableName null_STATEMENT columns null_STATEMENT) (keyword_STATEMENT ks) s =
      Ret ((1, table_STATEMENT p tableName null_STATEMENT columns null_STATEMENT), warned s [(ERR_PRIMARY_KEY_NOT_FOUND, name)])
  else ∃ s' vs src vd dl,
    create_table_defaults rings (table_STATEMENT p tableName null_STATEMENT columns null_STATEMENT) (keyword_STATEMENT ks) s =
      Ret ((0, table_STATEMENT p tableName (keyword_STATEMENT (Keyword OPTIONAL_SOURCE vs :: src)) columns
                 (keyword_STATEMENT (Keyword OPTIONAL_DELIM vd :: dl))), s') ∧ augments s s' ∧
    Keyword OPTIONAL_SOURCE vs :: src ≡ₚ Keyword OPTIONAL_DELIM vd :: dl ∧ ks ⊆+ Keyword OPTIONAL_SOURCE vs :: src ∧
    chosen OPTIONAL_SOURCE ks (source_text name keys) (qf_values s') vs ∧ chosen OPTIONAL_DELIM ks COLUMN_DELIMITER (qf_values s') vd.
Proof.
  intros (Hring & Hne & Hscan) Hok Hf Hname Hkeys. pose proof Hok as (HT & HS & HD). unfold create_table_defaults.
  rewrite (bind_lift_n _ _ _ ()) by done. rewrite (bind_lift_n _ _ _ ks) by done. rewrite bind_values_n. rewrite (bind_lift_n _ _ _ ring) by (by rewrite Hring).
  rewrite (bind_lift_n _ _ _ (max_key, key_columns)) by (by destruct ring). destruct (Z.ltb_spec max_key 0) as [|Hmax].
  { rewrite (bind_lift_n _ _ _ name) by done. by rewrite bind_warn. }
  erewrite bind_lift_n by (apply read_keywords_spec; [done|unfold once; lia..]). cbn [orb].
  destruct (seen_in OPTIONAL_SOURCE ks && seen_in OPTIONAL_DELIM ks) eqn:Eboth.
  - apply andb_true_iff in Eboth as [E1 E2]. destruct (completed_linked 0 0 ks Hok) as (i & j & Hi & Hj & _).
    assert (Ec : completed 0 0 ks = ks) by (unfold completed, missing; rewrite E1, E2; by rewrite !app_nil_r). rewrite Ec in Hi, Hj.
    destruct (completed_table 0 0 ks (source_text name keys) (qf_values s) i j p tableName columns Hok) as (vs & src & vd & dl & Et & Hrest); rewrite ?Ec; try done; try congruence.
    rewrite Ec in Et. exists s, vs, src, vd, dl. rewrite <- Et. unfold moved. rewrite Hi, Hj. split; [done|]. split; [by apply augments_refl|done].
  - destruct (missing_added OPTIONAL_SOURCE COLUMN_REFERENCE (source_text name keys) ks ks s Hf) as (qs & s1 & E1 & G1 & V1).
    destruct (missing_added OPTIONAL_DELIM STRING_LITERAL COLUMN_DELIMITER ks (ks ++ missing OPTIONAL_SOURCE qs ks) s1 (augments_fresh _ _ G1)) as (qd & s2 & E2 & G2 & V2).
    rewrite <- app_assoc in E2. fold (completed qs qd ks) in E2. destruct (completed_linked qs qd ks Hok) as (i & j & Hi & Hj & El).
    destruct (completed_table qs qd ks (source_text name keys) (qf_values s2) i j p tableName columns Hok Hi Hj) as (vs & src & vd & dl & Et & Hrest); [|done|].
    { intros Hs. specialize (V1 Hs). destruct (qf_values s1 !! qs) as [v|] eqn:Ev; [|done]. by rewrite (lookup_weaken _ _ _ _ Ev (augments_values _ _ G2)). }
    exists s2, vs, src, vd, dl. split; [|split; [by eapply augments_trans|done]].
    erewrite bind_n; [erewrite bind_n; [rewrite (bind_lift_n _ _ _ _ El); by rewrite <- Et|exact E2]|].
    destruct (seen_in OPTIONAL_SOURCE ks) eqn:Es; [exact E1|]. destruct (Hkeys eq_refl Hmax) as (Hlen & Hk & Hl).
    by rewrite (bind_lift_n _ _ _ _ (default_source_spec _ _ _ _ _ _ _ Hname Hk Hlen Hl)).
Qed.

(** ** An example: [CREATE TABLE T (id INTEGER PRIMARY KEY, x INTEGER)] *)
Definition td_state : qualifier :=
  {| qf_values := {[1 := name_value "T"; 2 := name_value "id"; 3 := name_value "x"]}; qf_next := 100; qf_warnings := [] |}.
Definition td_column (p name : ptr) (k : OptionalKeyword) : SqlColumn :=
  Column p (nj_name name) INTEGER_TYPE null_STATEMENT (keyword_STATEMENT [Keyword k null_STATEMENT]).
Definition td_ring : list SqlColumn := [td_column 10 2 PRIMARY_KEY; td_column 11 3 NO_KEYWORD].
Definition td_keywords : list SqlOptionalKeyword := [Keyword NO_KEYWORD null_STATEMENT].

Lemma table_has_defaults_witness : ∃ s' q src vd dl,
  create_table_defaults {[20 := td_ring]} (table_STATEMENT 30 (nj_name 1) null_STATEMENT 20 null_STATEMENT) (keyword_STATEMENT td_keywords) td_state =
    Ret ((0, table_STATEMENT 30 (nj_name 1) (keyword_STATEMENT (Keyword OPTIONAL_SOURCE (nj_name q) :: src)) 20
               (keyword_STATEMENT (Keyword OPTIONAL_DELIM vd :: dl))), s') ∧
  sv_literal <$> qf_values s' !! q = Some (lit "^T(keys(" ++ [double_quote] ++ lit "id" ++ [double_quote] ++ lit "))").
Proof.
  destruct (table_has_defaults {[20 := td_ring]} 30 (nj_name 1) 20 td_keywords td_ring 0 {[0 := 10]} td_state (lit "T")
    [lit "keys(" ++ [double_quote] ++ lit "id" ++ [double_quote] ++ lit ")"]) as (s' & vs & src & vd & dl & E & _ & _ & _ & (q & -> & Hq) & _).
  - split; [done|]. split; [done|]. vm_compute. reflexivity.
  - split; [|by vm_compute; auto]. constructor; [by left|constructor].
  - intros p Hp. cbn in Hp |- *. rewrite !lookup_insert_ne by lia. by rewrite lookup_singleton_ne by lia.
  - reflexivity.
  - intros _ _. split; [done|]. split; [|done]. intros [|[|j]] key; [|done..]. intros [= <-]. exists 10, (td_column 10 2 PRIMARY_KEY). done.
  - exists s', q, src, vd, dl. split; [exact E|exact Hq].
Defined.
