(* ===== verification/RunQuery.v ===== *)
(** * Running a statement

    [run_query.c]: parse the next statement of the input, and run it: a SELECT is planned
    into an M routine unless a file of its name is there already, the routine is called,
    and the rows it left behind a cursor are handed to [callback]; CREATE TABLE stores the
    table; DROP TABLE removes it; SET and SHOW go to [callback].

    The plan compiler ([emit_select_statement]), the M runtime, the hash and the file
    system are parameters ([QueryRuntime]); the files are part of what [db] stands for.
    Waiting for a lock lets other processes run, so it may change the database.
    What is logged at WARNING or above is sent to the client ([Logging]); the calls below
    WARNING, which a server that records them would send too, are not modelled: what is
    proved of the messages is of a server that records WARNING or above, the level of
    octo.conf.default. *)
From stdpp Require Import gmap strings.
From S2P Require Import Prelude CMem Errors FrontendSpec Logging Backend LogicalPlan SqlStatement RoutineName Session Connection Compress CreateTable QueryInput.

Class QueryRuntime `{SqlParser} := {
  digest : list byte → ydb_uint16;                                        (* ydb_mmrhash_128 *)
  emit_select_statement : parsed → list byte → db → outcome (bool * list byte * list log_entry * db);
  ydb_ci : db → Z → list byte → list byte → ydb_status * db;              (* _ydboctoselect *)
  access : db → list byte → bool;
  ydb_lock_incr_s : db → list (list byte) → db;
  ydb_lock_decr_s : db → list (list byte) → db;
  ydb_delete_s : db → list (list byte) → ydb_status * db;                 (* YDB_DEL_TREE *)
  ydb_data_s : db → list (list byte) → ydb_status;
}.

(** The members of [config] used here. *)
Record QueryConfig := {
  dry_run : bool;
  tmp_dir : list byte;
  schema_global : list byte;
  cursor_global : list byte;
  octo_global : list byte;
  auto_clean_tables : bool;
  octo_gbldir : list byte;
  record_error_level : ERROR_LEVEL;
}.
(** Nothing below WARNING is recorded: the servers whose messages the model has. *)
Definition records_warnings (config : QueryConfig) : Prop := level_value WARNING ≤ level_value (record_error_level config).
Record QueryResponseParms := { data_sent : bool; max_data_to_send : Z }.
(** [memory_chunks]: NULL, a live root, or the address of a freed one. *)
Inductive chunk_root := NoChunk | LiveChunk | FreedChunk.

(** ** State *)
Section state.
Context `{YottaDB}.
Record query_state := {
  qs_db : db;
  qs_input : input;
  qs_errors : list byte;             (* written to [err_buffer] since it was opened *)
  qs_chunk : chunk_root;
  qs_prev_gbldir : list byte;        (* [config->prev_gbldir] *)
  qs_parms : QueryResponseParms;
  qs_sent : list (list byte);        (* messages given to [send_message] *)
}.
Definition Q (A : Type) : Type := query_state → outcome (A * query_state).
#[export] Instance Q_ret : MRet Q := λ A x s, Ret (x, s).
#[export] Instance Q_bind : MBind Q := λ A B f x s, '(a, s) ← x s; f a s.
Definition lift {A} (o : outcome A) : Q A := λ s, a ← o; Ret (a, s).
Definition gets {A} (f : query_state → A) : Q A := λ s, Ret (f s, s).
Definition set_state (s' : query_state → query_state) : Q () := λ s, Ret ((), s' s).

Definition with_db (d : db) (s : query_state) : query_state :=
  {| qs_db := d; qs_input := qs_input s; qs_errors := qs_errors s; qs_chunk := qs_chunk s;
     qs_prev_gbldir := qs_prev_gbldir s; qs_parms := qs_parms s; qs_sent := qs_sent s |}.
Definition with_chunk (c : chunk_root) (s : query_state) : query_state :=
  {| qs_db := qs_db s; qs_input := qs_input s; qs_errors := qs_errors s; qs_chunk := c;
     qs_prev_gbldir := qs_prev_gbldir s; qs_parms := qs_parms s; qs_sent := qs_sent s |}.
Definition with_errors (e : list byte) (s : query_state) : query_state :=
  {| qs_db := qs_db s; qs_input := qs_input s; qs_errors := e; qs_chunk := qs_chunk s;
     qs_prev_gbldir := qs_prev_gbldir s; qs_parms := qs_parms s; qs_sent := qs_sent s |}.
Definition with_parms (p : QueryResponseParms) (s : query_state) : query_state :=
  {| qs_db := qs_db s; qs_input := qs_input s; qs_errors := qs_errors s; qs_chunk := qs_chunk s;
     qs_prev_gbldir := qs_prev_gbldir s; qs_parms := p; qs_sent := qs_sent s |}.
Definition with_prev_gbldir (g : list byte) (s : query_state) : query_state :=
  {| qs_db := qs_db s; qs_input := qs_input s; qs_errors := qs_errors s; qs_chunk := qs_chunk s;
     qs_prev_gbldir := g; qs_parms := qs_parms s; qs_sent := qs_sent s |}.
Definition send (msgs : list (list byte)) (s : query_state) : query_state :=
  {| qs_db := qs_db s; qs_input := qs_input s; qs_errors := qs_errors s; qs_chunk := qs_chunk s;
     qs_prev_gbldir := qs_prev_gbldir s; qs_parms := qs_parms s; qs_sent := qs_sent s ++ msgs |}.
(** [send_message(session, (BaseMessage* )(&m->type));] *)
Definition send_q (m : outcome Message) : Q () := msg ← lift m; w ← lift (wire msg); set_state (send [w]).

(** [memory_chunks = alloc_chunk(MEMORY_CHUNK_SIZE)], [octo_cfree(memory_chunks)] *)
Definition alloc_chunk_q : Q () := set_state (with_chunk LiveChunk).
Definition octo_cfree_q : Q () := λ s,
  match qs_chunk s with
  | LiveChunk => Ret ((), with_chunk FreedChunk s)
  | FreedChunk => Undef BadFree
  | NoChunk => Halt AssertFailed
  end.

(** Database calls with [YDB_ERROR_CHECK]. *)
Definition set_q (node : list (list byte)) (v : list byte) : Q () := λ s,
  let '(status, d) := ydb_set_s (qs_db s) node v in
  _ ← ydb_error_check status; Ret ((), with_db d s).
(** [helpers/get.c]: [None] for an undefined node.  The buffer is not terminated. *)
Definition get_q (node : list (list byte)) : Q (option (list byte)) := λ s,
  let '(status, v) := ydb_get_s (qs_db s) node MAX_STR_CONST in
  if decide (status = YDB_ERR_GVUNDEF ∨ status = YDB_ERR_LVUNDEF) then Ret (None, s)
  else _ ← ydb_error_check status; Ret (Some v, s).
End state.
Arguments query_state {_}.

Section run_query.
Context `{QueryRuntime} `{!YottaDBNodes} (config : QueryConfig) (mem : nat → byte).
(** The bytes the frame of [run_query] has for [routine_name], which is declared with
    [MAX_ROUTINE_LEN]; and the depth to which a table is stored. *)
Context (routine_name_room : Z) (depth : nat).

(** The entries a callee logged go to the client. *)
Definition log_q (logged : list log_entry) : Q () :=
  msgs ← lift (octo_logs (record_error_level config) logged); set_state (send msgs).
Definition warn (feature : string) : Q () :=
  log_q [{| log_level := WARNING; log_error := ERR_FEATURE_NOT_IMPLEMENTED; log_args := [AStr (lit feature)] |}].

(** [parse_line], its writes to [err_buffer] and its log included. *)
Definition parse_q : Q (option parsed) := λ s,
  '(result, written, logged, d, i) ← parse_line (qs_input s) (qs_db s);
  '(_, s) ← log_q logged s;
  Ret (result, {| qs_db := d; qs_input := i; qs_errors := qs_errors s ++ written; qs_chunk := qs_chunk s;
                  qs_prev_gbldir := qs_prev_gbldir s; qs_parms := qs_parms s; qs_sent := qs_sent s |}).

(** [ydb_incr_s] of the schema global: the number of the cursor, as text. *)
Definition next_cursor : Q (list byte) := λ s,
  let '(status, d, id) := ydb_incr_s (qs_db s) [schema_global config] in
  _ ← ydb_error_check status; Ret (id, with_db d s).
(** [atol] of that text. *)
Definition atol (text : list byte) : Z := Z.min (2 ^ 63 - 1) (digits_value (span_digits (cstr text)).1).

Definition lit_gbldir : list byte := lit "$ZGBLDIR".
(** [SWITCH_FROM_OCTO_GLOBAL_DIRECTORY], [SWITCH_TO_OCTO_GLOBAL_DIRECTORY] *)
Definition switch_from_octo : Q () := prev ← gets qs_prev_gbldir; set_q [lit_gbldir] prev.
Definition switch_to_octo : Q () := λ s,
  let '(status, v) := ydb_get_s (qs_db s) [lit_gbldir] MAX_STR_CONST in
  _ ← ydb_error_check status;
  set_q [lit_gbldir] (octo_gbldir config) (with_prev_gbldir v s).

(** The name of the routine, and the name of its file before it is cut to the buffer. *)
Definition plan_name (room : Z) (p : parsed) : outcome (list byte * list byte) :=
  hashed ← hash_canonical_query (ps_values p) (ps_statement p);
  '(name, len) ← generate_routine_name (digest hashed) (malloc mem MAX_ROUTINE_LEN) (malloc mem room) MAX_STR_CONST OutputPlan;
  routine ← load_bytes name 0 len;
  rest ← string_at name 1;
  Ret (routine, cstr (tmp_dir config) ++ lit "/_" ++ rest ++ lit ".m").
Definition cut (text : list byte) : list byte := take (Z.to_nat (MAX_STR_CONST - 1)) text.
Definition file_lock (filename : list byte) : list (list byte) :=
  [lit "^%ydboctoocto"; lit "files"; filename].
Definition run_db (f : db → db) : Q () := set_state (λ s, with_db (f (qs_db s)) s).
Definition make_plan (p : parsed) (filename : list byte) : Q bool := λ s,
  '(made, written, logged, d) ← emit_select_statement p filename (qs_db s);
  '(_, s) ← log_q logged s;
  Ret (made, with_errors (qs_errors s ++ written) (with_db d s)).
(** The plan is made unless its file is there, before or after waiting for the lock;
    [false] when that fails. *)
Definition ensure_plan (p : parsed) (filename : list byte) : Q bool :=
  d ← gets qs_db;
  if access d filename then mret true
  else
    _ ← run_db (λ d, ydb_lock_incr_s d (file_lock filename));
    d ← gets qs_db;
    made ← (if access d filename then mret true else make_plan p filename);
    if made : bool then _ ← run_db (λ d, ydb_lock_decr_s d (file_lock filename)); mret true
    else mret false.
Definition call_plan (cursorId : Z) (filename routine : list byte) : Q () := λ s,
  let '(status, d) := ydb_ci (qs_db s) cursorId filename routine in
  _ ← ydb_error_check status; Ret ((), with_db d s).

(** *** CREATE TABLE *)
(** The chunks of the stored table: 0, 1, ... under the name and "b". *)
Fixpoint store_chunks (fuel : nat) (name buffer : list byte) (cur_length length i : Z) : Q () :=
  match fuel with
  | O => λ _, NoFuel
  | S fuel' =>
      if cur_length <? length then
        let n := if MAX_STR_CONST <? length - cur_length then MAX_STR_CONST else length - cur_length in
        part ← lift (load_bytes buffer cur_length n);
        _ ← set_q [schema_global config; name; lit "b"; dec i] part;
        store_chunks fuel' name buffer (cur_length + MAX_STR_CONST) length (i + 1)
      else mret ()
  end.
(** [YDB_COPY_STRING_TO_BUFFER] into a buffer of MAX_STR_CONST bytes, with its FATAL. *)
Definition copy_string (s : list byte) : outcome (list byte) :=
  if MAX_STR_CONST <? zlen (cstr s) then Halt FatalExit else Ret (cstr s).
Definition enter_catalogue (p : parsed) (tableName : SqlStatement) (columns : ptr) : Q () := λ s,
  '(_, d) ← store_table_in_pg_class (octo_global config) mem (ps_rings p) tableName columns (ps_values p) (qs_db s);
  Ret ((), with_db d s).
Definition create_table (p : parsed) : Q () :=
  match ps_statement p with
  | table_STATEMENT _ tableName _ columns _ =>
      text ← lift (emit_create_table (ps_values p) mem (ps_rings p) (ps_statement p));
      value ← lift (unpack_value (ps_values p) tableName);
      name ← lift (copy_string (sv_literal value));
      text ← lift (copy_string text);
      _ ← set_q [schema_global config; name; lit "t"] text;
      '(table_buffer, length) ← lift (compress_statement (ps_values p) (ps_rings p) depth mem (ps_statement p));
      _ ← store_chunks (S (Z.to_nat length)) name table_buffer 0 length 0;
      _ ← set_state (λ s, with_db (ydb_set_s (qs_db s) [schema_global config; name; lit "l"] (dec length)).2 s);
      enter_catalogue p tableName columns
  | _ => lift (Undef WrongMember)
  end.

(** *** DROP TABLE *)
Definition delete_q (node : list (list byte)) : Q () := λ s,
  let '(status, d) := ydb_delete_s (qs_db s) node in
  _ ← ydb_error_check status; Ret ((), with_db d s).
(** The copy of the name has no check: one that does not fit leaves the empty string in the
    buffer.  A loaded table is freed and forgotten. *)
Definition drop_table (p : parsed) : Q () :=
  match ps_statement p with
  | drop_STATEMENT table_name _ =>
      value ← lift (unpack_value (ps_values p) table_name);
      let name := if MAX_STR_CONST <? zlen (cstr (sv_literal value)) then [] else cstr (sv_literal value) in
      _ ← delete_q [schema_global config; name];
      table_stmt ← get_q [lit "%ydboctoloadedschemas"; cstr (sv_literal value)];
      match table_stmt with
      | None => mret ()
      | Some _ => delete_q [lit "%ydboctoloadedschemas"; name]
      end
  | _ => lift (Undef WrongMember)
  end.

(** *** The statement *)
Definition callback : Type := parsed → Z → option (list byte) → Q ().
Definition run_select (handle : callback) (p : parsed) (cursor : list byte) : Q bool :=
  '(routine, file) ← lift (plan_name routine_name_room p);
  let filename := cut file in
  ready ← ensure_plan p filename;
  if ready : bool then
    let cursorId := atol cursor in
    _ ← switch_from_octo;
    _ ← call_plan cursorId filename routine;
    _ ← switch_to_octo;
    _ ← handle p (s32 cursorId) (Some filename);
    mret true
  else
    _ ← octo_cfree_q;
    _ ← run_db (λ d, ydb_lock_decr_s d (file_lock filename));
    mret false.

(** The value returned, as a truth value. *)
Definition run_query (handle : callback) : Q bool :=
  _ ← alloc_chunk_q;
  result ← parse_q;
  match result with
  | None => _ ← octo_cfree_q; mret false
  | Some p =>
      if dry_run config || (match ps_statement p with no_data_STATEMENT => true | _ => false end) then
        _ ← octo_cfree_q; mret true
      else
        cursor ← next_cursor;
        let finish := _ ← octo_cfree_q; _ ← set_state (with_chunk NoChunk); mret true in
        match ps_statement p with
        | table_alias_STATEMENT _ _ _ _ _ | set_operation_STATEMENT _ _ _ =>
            _ ← run_select handle p cursor; mret true
        | table_STATEMENT _ _ _ _ _ => _ ← create_table p; finish
        | drop_STATEMENT _ _ => _ ← drop_table p; finish
        | insert_STATEMENT _ => _ ← warn "table inserts"; finish
        | begin_STATEMENT | commit_STATEMENT => _ ← warn "transactions"; finish
        | set_STATEMENT _ _ | show_STATEMENT _ => _ ← handle p (s32 (atol cursor)) None; finish
        | _ => lift (Halt FatalExit)
        end
  end.
End run_query.
