(* ===== verification/Handlers.v ===== *)
(** * Answering queries

    [rocto/handle_query.c], [handle_execute.c] and [handle_describe.c] run the statements of
    a Query message, of a bound portal, or describe them; [handle_query_response.c] is what
    [run_query] calls back with a result, and [get_plan_row_description.c] reads the columns
    of a plan.  Together they are the handlers the session loop was written against. *)
From stdpp Require Import gmap strings.
From S2P Require Import Prelude CMem Errors Frontend FrontendSpec Logging Backend LogicalPlan SqlStatement RoutineName Deserialize Session MainLoop Connection Compress CreateTable QueryInput RunQuery.

Section handlers.
Context `{QueryRuntime} `{!YottaDBNodes} (config : QueryConfig) (session : RoctoSession) (mem : nat → byte).
Context (routine_name_room : Z) (depth fuel : nat) (prev_gbldir : list byte).

(** ** [get_plan_row_description] *)
Definition plan_column (plan_filename column : list byte) (field : string) : list (list byte) :=
  [octo_global config; lit "plan_metadata"; plan_filename; lit "output_columns"; column; lit field].
Definition columns_node (plan_filename : list byte) : list (list byte) :=
  [octo_global config; lit "plan_metadata"; plan_filename; lit "output_columns"].
(** [ydb_get_s] into [value_buffer] of MAX_STR_CONST bytes, and the NUL stored behind it. *)
Definition get_value (d : db) (node : list (list byte)) : outcome (list byte) :=
  let '(status, v) := ydb_get_s d node MAX_STR_CONST in
  _ ← ydb_error_check status;
  if zlen v <? MAX_STR_CONST then Ret v else Undef OutOfBounds.
(** [atoi] of a C string: the digits it starts with, after an optional sign. *)
Definition atoi_str (s : list byte) : Z :=
  match cstr s with
  | c :: s' => if decide (c = chr "-") then s32 (- Z.min (2 ^ 63) (digits_value (span_digits s').1))
               else atoi (span_digits (c :: s')).1
  | [] => 0
  end.
Definition column_parm (d : db) (plan_filename column : list byte) : outcome RowDescriptionParm :=
  let '(status, name) := ydb_get_s d (plan_column plan_filename column "name") MAX_STR_CONST in
  _ ← ydb_error_check status;
  table_id ← get_value d (plan_column plan_filename column "table_id");
  column_id ← get_value d (plan_column plan_filename column "column_id");
  data_type ← get_value d (plan_column plan_filename column "data_type");
  data_type_size ← get_value d (plan_column plan_filename column "data_type_size");
  type_modifier ← get_value d (plan_column plan_filename column "type_modifier");
  format_code ← get_value d (plan_column plan_filename column "format_code");
  Ret {| rd_name := cstr name; rd_table_id := atoi_str table_id; rd_column_id := s16 (atoi_str column_id);
         rd_data_type := atoi_str data_type; rd_data_type_size := s16 (atoi_str data_type_size);
         rd_type_modifier := atoi_str type_modifier; rd_format_code := s16 (atoi_str format_code) |}.

(** The two loops over the subscripts below a node: counting them, and reading each. *)
Fixpoint count_subscripts (n : nat) (d : db) (node : list (list byte)) (cur : list byte) : outcome Z :=
  match n with
  | O => NoFuel
  | S n' =>
      let '(status, next) := ydb_subscript_next_s d node cur in
      if decide (status = YDB_ERR_NODEEND) then Ret 0
      else _ ← ydb_error_check status; k ← count_subscripts n' d node next; Ret (k + 1)
  end.
Fixpoint read_columns_from (n : nat) (d : db) (plan_filename cur : list byte) : outcome (list RowDescriptionParm) :=
  match n with
  | O => NoFuel
  | S n' =>
      let '(status, next) := ydb_subscript_next_s d (columns_node plan_filename) cur in
      if decide (status = YDB_ERR_NODEEND) then Ret []
      else
        _ ← ydb_error_check status;
        p ← column_parm d plan_filename next;
        ps ← read_columns_from n' d plan_filename next;
        Ret (p :: ps)
  end.
Definition get_plan_row_description (d : db) (plan_filename : list byte) : outcome Message :=
  num_columns ← count_subscripts fuel d (columns_node plan_filename) [];
  parms ← read_columns_from fuel d plan_filename [];
  make_row_description parms num_columns.

(** ** [handle_query_response] *)
(** Cutting a row at its bars: the columns, each with its length. *)
Definition bar : byte := chr "|".
Fixpoint split_row (row : list byte) : list (list byte) :=
  match row with
  | [] => [[]]
  | c :: row' =>
      match split_row row' with
      | [] => [[c]]
      | col :: cols => if decide (c = bar) then [] :: col :: cols else (c :: col) :: cols
      end
  end.
Definition data_row_parms (row : list byte) : list DataRowParm :=
  (λ col, {| drp_length := zlen col; drp_value := col |}) <$> split_row row.
Definition row_node (cursor_id : Z) (key : list byte) : list (list byte) :=
  [cursor_global config; dec cursor_id; lit "keys"; key; []; []].

(** The loop over the rows, at the row [cur]; [left] is what [max_data_to_send] allows
    still.  The count, and the rows sent. *)
Fixpoint send_rows (n : nat) (cursor_id : Z) (key cur : list byte) (left row_count : Z) : Q Z :=
  match n with
  | O => λ _, NoFuel
  | S n' =>
      if 0 <? left then
        d ← gets qs_db;
        row ← lift (get_value d (row_node cursor_id key ++ [cur]));
        let parms := data_row_parms (cstr row) in
        _ ← send_q (make_data_row mem parms (zlen parms));
        let '(status, next) := ydb_subscript_next_s d (row_node cursor_id key) cur in
        if decide (status = YDB_ERR_NODEEND) then mret (row_count + 1)
        else
          _ ← lift (ydb_error_check status);
          send_rows n' cursor_id key next (left - 1) (row_count + 1)
      else mret row_count
  end.

(** [snprintf(buffer, MAX_STR_CONST, ...); make_command_complete(buffer)] *)
Definition complete (tag : list byte) : outcome Message := make_command_complete (Some tag).
Definition set_parms (f : QueryResponseParms → QueryResponseParms) : Q () :=
  set_state (λ s, with_parms (f (qs_parms s)) s).
Definition mark_sent : Q () := set_parms (λ p, {| data_sent := true; max_data_to_send := max_data_to_send p |}).
Definition INT32_MAX : Z := 2 ^ 31 - 1.

(** SET: the session variable, and CommandComplete; [data_sent] stays as it is. *)
Definition respond_set (p : parsed) (variable value : SqlStatement) : Q () :=
  val1 ← lift (unpack_value (ps_values p) value);
  val2 ← lift (unpack_value (ps_values p) variable);
  _ ← set_q (session_node session "variables" (cstr (sv_literal val2))) (ydb_buffer (cstr (sv_literal val1)));
  send_q (complete (lit "SET")).

(** SHOW: the session variable, or else ^octo(session, "variables") - two subscripts are
    asked for, the name of the variable is not one of them.  The value is what is in the
    buffer up to the first NUL, which nothing put there. *)
Definition buffer_string (v : list byte) : outcome (list byte) :=
  string_at (v ++ drop (length v) (malloc mem MAX_STR_CONST)) 0.
Definition respond_show (p : parsed) (variable : SqlStatement) : Q () :=
  val1 ← lift (unpack_value (ps_values p) variable);
  let name := cstr (sv_literal val1) in
  own ← get_q (session_node session "variables" name);
  found ← (match own with
    | Some v => mret (Some v)
    | None => get_q [octo_global config; session_id session; lit "variables"]
    end);
  value ← lift (match found with Some v => buffer_string v | None => Ret [] end);
  _ ← send_q (make_row_description [{| rd_name := name; rd_table_id := 0; rd_column_id := 0; rd_data_type := 0;
                                      rd_data_type_size := 0; rd_type_modifier := 0; rd_format_code := 0 |}] 1);
  _ ← send_q (make_data_row mem [{| drp_length := zlen value; drp_value := value |}] 1);
  _ ← mark_sent;
  send_q (complete (lit "SHOW")).

(** A result: its columns, its rows, and what is cleaned up after the last one.  An empty
    result returns before all of that. *)
Definition clean_cursor (cursor_id : Z) : Q () :=
  if auto_clean_tables config then
    set_state (λ s, with_db (ydb_delete_s (qs_db s) [cursor_global config; dec cursor_id]).2 s)
  else mret ().
Definition free_chunks : Q () := λ s,
  match qs_chunk s with
  | NoChunk => Ret ((), s)
  | _ => '(_, s) ← octo_cfree_q s; Ret ((), with_chunk NoChunk s)
  end.
Definition respond_rows (cursor_id : Z) (plan_name : list byte) : Q () :=
  _ ← mark_sent;
  d ← gets qs_db;
  _ ← send_q (get_plan_row_description d plan_name);
  output_key ← get_q [lit "^%ydboctoocto"; lit "plan_metadata"; plan_name; lit "output_key"];
  match output_key with
  | None => lift (Halt FatalExit)
  | Some key =>
      d ← gets qs_db;
      let '(status, first) := ydb_subscript_next_s d (row_node cursor_id key) [] in
      if decide (status = YDB_ERR_NODEEND) then mret ()
      else
        _ ← lift (ydb_error_check status);
        _ ← set_parms (λ p, if max_data_to_send p <=? 0
              then {| data_sent := data_sent p; max_data_to_send := INT32_MAX |} else p);
        parms ← gets qs_parms;
        row_count ← send_rows fuel cursor_id key first (max_data_to_send parms) 0;
        _ ← clean_cursor cursor_id;
        _ ← send_q (complete (lit "SELECT " ++ dec row_count));
        free_chunks
  end.
Definition handle_query_response : callback := λ p cursor_id plan_name,
  match ps_statement p with
  | set_STATEMENT variable value => respond_set p variable value
  | show_STATEMENT variable => respond_show p variable
  | _ => match plan_name with Some f => respond_rows cursor_id f | None => lift (Undef NullPointer) end
  end.

(** ** The handlers *)
Definition run : Q bool := run_query config mem routine_name_room depth handle_query_response.
(** The error of the statement before: [fclose(err_buffer)] makes [err_buff] what was
    written, and a new stream is opened. *)
Definition send_syntax_error : Q () :=
  text ← gets qs_errors;
  err ← lift (make_error_response PSQL_Error_ERROR PSQL_Code_Syntax_Error text []);
  _ ← set_state (send [error_wire err]);
  set_state (with_errors []).
Definition at_end : Q bool := gets (in_eof ∘ qs_input).

(** [do { ... } while(!eof_hit);] *)
Fixpoint until_eof (n : nat) (body : Q ()) : Q () :=
  match n with
  | O => λ _, NoFuel
  | S n' => _ ← body; eof ← at_end; if eof : bool then mret () else until_eof n' body
  end.

(** [memcpy(input_buffer_combined, text, n); input_buffer_combined[n] = '\0'; ...] over a
    buffer of [MAX_STR_CONST] bytes with anything in it. *)
Definition fill_input (text : list byte) : outcome input :=
  b ← store_bytes (malloc mem MAX_STR_CONST) 0 text;
  b ← store8 b (zlen text) nul;
  Ret {| in_buffer := b; in_index := 0; in_eof := false |}.
Definition initial_state (d : db) (i : input) (max : Z) : query_state :=
  {| qs_db := d; qs_input := i; qs_errors := []; qs_chunk := NoChunk; qs_prev_gbldir := prev_gbldir;
     qs_parms := {| data_sent := false; max_data_to_send := max |}; qs_sent := [] |}.
Definition answer (r : outcome (() * query_state)) : outcome handler_result :=
  '(_, s) ← r; Ret (0, qs_db s, qs_sent s).
Definition too_long (text : string) (d : db) : outcome handler_result :=
  sent ← send_error PSQL_Code_Protocol_Violation text; Ret (0, d, sent).

Definition query_turn : Q () :=
  ok ← run;
  if ok : bool then mret () else send_syntax_error.
Definition handle_query (query : Query) (d : db) : outcome handler_result :=
  text ← string_at (q_data query) (q_query query);
  if zlen text =? 0 then w ← wire make_empty_query_response; Ret (0, d, [w])
  else if MAX_STR_CONST <? zlen text then too_long "query length exceeeded maximum size" d
  else
    i ← fill_input text;
    answer (until_eof fuel query_turn (initial_state d i 0)).

Definition set_data_sent (b : bool) : Q () :=
  set_parms (λ p, {| data_sent := b; max_data_to_send := max_data_to_send p |}).
Definition execute_turn : Q () :=
  _ ← set_data_sent false;
  ok ← run;
  eof ← at_end;
  _ ← (if negb ok && negb eof then send_syntax_error else mret ());
  parms ← gets qs_parms;
  if data_sent parms then mret () else send_q (Ret make_empty_query_response).
(** [rows_to_return] is unsigned, [max_data_to_send] an [int]. *)
Definition handle_execute (execute : Execute) (d : db) : outcome handler_result :=
  source ← string_at (x_block execute) (x_source execute);
  let '(status, sql_expression) := ydb_get_s d (session_node session "bound" source) (MAX_STR_CONST - 1) in
  _ ← ydb_error_check status;
  let text := cstr sql_expression in
  if MAX_STR_CONST <? zlen text + 2 then too_long "execute query length exceeeded maximum size" d
  else
    i ← fill_input text;
    answer (until_eof fuel execute_turn (initial_state d i (s32 (x_rows_to_return execute)))).

(** Describing: the plan is made as for running, in a buffer that is large enough. *)
Definition describe_plan (p : parsed) : Q () :=
  '(_, file) ← lift (plan_name config mem MAX_STR_CONST p);
  _ ← lift (if MAX_STR_CONST <? zlen file then Halt FatalExit else Ret ());
  let filename := cut file in
  ready ← ensure_plan config p filename;
  if ready : bool then d ← gets qs_db; send_q (get_plan_row_description d filename)
  else lift (Undef Uninitialised).                  (* [err_buff], before the stream is flushed *)
Definition describe_turn : Q () :=
  _ ← alloc_chunk_q;
  statement ← parse_q config;
  match statement with
  | None => _ ← send_syntax_error; octo_cfree_q
  | Some p =>
      _ ← next_cursor config;
      _ ← (match ps_statement p with
        | table_alias_STATEMENT _ _ _ _ _ | set_operation_STATEMENT _ _ _ => describe_plan p
        | no_data_STATEMENT => send_q (Ret make_no_data)
        | _ => send_q (make_row_description [] 0)
        end);
      octo_cfree_q
  end.
Definition handle_describe (describe : Describe) (d : db) : outcome handler_result :=
  name ← string_at (d_block describe) (d_name describe);
  let kind := if decide (d_item describe = chr "S") then "prepared"%string else "bound"%string in
  let node := session_node session kind name in
  _ ← ydb_error_check (ydb_data_s d node);
  let '(status, sql_expression) := ydb_get_s d node MAX_STR_CONST in
  _ ← ydb_error_check status;
  i ← fill_input sql_expression;
  answer (until_eof fuel describe_turn (initial_state d i 0)).

(** They are the handlers of the session loop. *)
Definition octo_handlers : QueryHandlers :=
  {| MainLoop.handle_query := handle_query; MainLoop.handle_execute := handle_execute;
     MainLoop.handle_describe := handle_describe |}.
End handlers.
