(* ===== verification/FindTable.v ===== *)
(** * Finding a table

    [find_table.c] loads a table that [run_query.c] stored in parts, and keeps a pointer to
    it in a local variable; [assign_table_to_columns.c] gives each column of a loaded table
    the number of its piece.

    The parts are put together and unpacked on bytes, as in [Compress].  What is in the block
    then is read into a [content], and that stands for the structs in the memory of the
    process ([ft_loaded], by address); the way from a column back to its table is left out. *)
From stdpp Require Import gmap strings.
From S2P Require Import Prelude CMem Errors LogicalPlan SqlStatement Session Connection Handlers Compress CompressTheorems.

(** ** The structs at an address *)
Definition all_value_types : list SqlValueType :=
  [UNKNOWN_SqlValueType; NUMBER_LITERAL; STRING_LITERAL; DATE_TIME; COLUMN_REFERENCE; CALCULATED_VALUE; TEMPORARY_TABLE_TYPE;
   FUNCTION_NAME; BOOLEAN_VALUE; PARAMETER_VALUE; NUL_VALUE; COERCE_TYPE; INVALID_SqlValueType].
Definition all_data_types : list SqlDataType :=
  [UNKNOWN_SqlDataType; CHARACTER_STRING_TYPE; INTEGER_TYPE; DATE_TIME_TYPE; INTERVAL_TYPE].
Definition all_keywords : list OptionalKeyword :=
  [NO_KEYWORD; OPTIONAL_SOURCE; OPTIONAL_CURSE; OPTIONAL_END; OPTIONAL_START; OPTIONAL_DELIM; OPTIONAL_EXTRACT; OPTIONAL_CASCADE;
   OPTIONAL_RESTRICT; OPTIONAL_PIECE; OPTIONAL_KEY_NUM; OPTIONAL_ADVANCE; OPTIONAL_LIMIT; OPTIONAL_DISTINCT; OPTIONAL_POPULATE_INDEX;
   OPTIONAL_PART_OF_EXPANSION; UNKNOWN_SqlConstraintType; NOT_NULL; UNIQUE_CONSTRAINT; PRIMARY_KEY; REFERENCES; CHECK_CONSTRAINT; MAX_LENGTH].
Definition enum_of {A} (value : A → Z) (all : list A) (z : Z) : outcome A :=
  match filter (λ x, value x = z) all with x :: _ => Ret x | [] => Undef WrongMember end.

Section read.
Context (base : Z) (b : list byte).
Fixpoint read_ring {A} (fuel : nat) (cell : Z → outcome A) (next start cur : Z) : outcome (list A) :=
  match fuel with
  | O => NoFuel
  | S fuel' =>
      x ← cell cur;
      n ← load_ptr base b (cur + next);
      if n =? start then Ret [x] else l ← read_ring fuel' cell next start n; Ret (x :: l)
  end.
Fixpoint read_statement (fuel : nat) (a : Z) : outcome content :=
  match fuel with
  | O => NoFuel
  | S fuel' =>
      let member a := p ← load_ptr base b a; read_statement fuel' p in
      if a =? null then Ret CNull else
      type ← load_enum base b a;
      v ← load_ptr base b (a + 24);
      if type =? 0 then
        n ← member v; s ← member (v + 8); c ← member (v + 16); d ← member (v + 24);
        Ret (CTable n s c d)
      else if type =? 4 then
        t ← (z ← load_enum base b v; enum_of value_type_value all_value_types z);
        k ← (z ← load_enum base b (v + 4); enum_of value_type_value all_value_types z);
        d ← (z ← load_enum base b (v + 8); enum_of data_type_value all_data_types z);
        if decide (t = CALCULATED_VALUE) then c ← member (v + 16); Ret (CCalculated k d c)
        else p ← load_ptr base b (v + 16); text ← string_at b (p - base); Ret (CText t k d text)
      else if type =? 9 then
        ring ← read_ring fuel' (λ p,
          n ← member p;
          t ← (z ← load_enum base b (p + 8); enum_of data_type_value all_data_types z);
          k ← member (p + 24);
          Ret (n, t, k)) 32 v v;
        Ret (CColumns ring)
      else if type =? 14 then
        ring ← read_ring fuel' (λ p,
          w ← (z ← load_enum base b p; enum_of keyword_value all_keywords z);
          c ← member (p + 8);
          Ret (w, c)) 16 v v;
        Ret (CKeywords ring)
      else Undef WrongMember
  end.
End read.

(** ** [assign_table_to_columns] *)
(** The column [i]: without a PIECE it gets one behind its keywords. *)
Definition assign_piece (i : Z) (column : content * SqlDataType * content) : outcome (content * SqlDataType * content) :=
  let '(columnName, type, keywords) := column in
  match keywords with
  | CNull => Undef NullPointer
  | CKeywords ring =>
      if decide (OPTIONAL_PIECE ∈ ring.*1) then Ret column
      else Ret (columnName, type, CKeywords (ring ++ [(OPTIONAL_PIECE, CText STRING_LITERAL UNKNOWN_SqlValueType UNKNOWN_SqlDataType (dec i))]))
  | _ => Halt AssertFailed
  end.
Fixpoint assign_pieces (i : Z) (ring : list (content * SqlDataType * content)) : outcome (list (content * SqlDataType * content)) :=
  match ring with
  | [] => Ret []
  | column :: ring' =>
      column ← assign_piece (i + 1) column;
      rest ← assign_pieces (i + 1) ring';
      Ret (column :: rest)
  end.
Definition assign_table_to_columns (table_statement : content) : outcome content :=
  match table_statement with
  | CNull => Undef NullPointer
  | CTable tableName source columns delim =>
      match columns with
      | CNull => Undef NullPointer
      | CColumns ring => ring ← assign_pieces 0 ring; Ret (CTable tableName source (CColumns ring) delim)
      | _ => Halt AssertFailed
      end
  | _ => Halt AssertFailed
  end.

(** ** [find_table] *)
Record found_tables `{YottaDB} := { ft_db : db; ft_loaded : gmap ptr content }.

Section find.
Context `{YottaDBNodes} (schema_global : list byte).

Definition parts_node (table_name : list byte) : list (list byte) := [schema_global; table_name; lit "b"].
Definition loaded_node (table_name : list byte) : list (list byte) := [lit "%ydboctoloadedschemas"; table_name].
(** [helpers/get.c] *)
Definition get (node : list (list byte)) (d : db) : outcome (option (list byte)) :=
  let '(status, v) := ydb_get_s d node MAX_STR_CONST in
  if decide (status = YDB_ERR_GVUNDEF ∨ status = YDB_ERR_LVUNDEF) then Ret None
  else _ ← ydb_error_check status; Ret (Some v).
Definition set_node (node : list (list byte)) (v : list byte) (d : db) : outcome db :=
  let '(status, d) := ydb_set_s d node v in _ ← ydb_error_check status; Ret d.

(** The parts are copied into [buff], each at a multiple of MAX_STR_CONST. *)
Fixpoint read_parts (fuel : nat) (d : db) (node : list (list byte)) (cur : list byte) (num_parts : Z) (buff : list byte)
    : outcome (list byte * Z) :=
  match fuel with
  | O => NoFuel
  | S fuel' =>
      let '(status, next) := ydb_subscript_next_s d node cur in
      if decide (status = YDB_ERR_NODEEND) then Ret (buff, num_parts)
      else
        _ ← ydb_error_check status;
        let '(status, value) := ydb_get_s d (node ++ [next]) MAX_STR_CONST in
        _ ← ydb_error_check status;
        buff ← store_bytes buff (MAX_STR_CONST * num_parts) value;
        read_parts fuel' d node next (num_parts + 1) buff
  end.
(** The name behind the first period. *)
Fixpoint strip_schema (table_name : list byte) : option (list byte) :=
  match table_name with
  | [] => None
  | c :: rest => if decide (c = chr ".") then Some rest else strip_schema rest
  end.

(** [MAX_STR_CONST * num_parts], an [int]. *)
Definition block_size (num_parts : Z) : outcome Z :=
  if INT_MAX <? MAX_STR_CONST * num_parts then Undef OutOfBounds else Ret (MAX_STR_CONST * num_parts).
(** The table in [num_parts] parts, loaded to the address [buff]; [chunk] is the address of
    the chunk it is in. *)
Definition load_table (fuel : nat) (chunk buff : ptr) (table_name : list byte) (num_parts : Z) (s : found_tables) : outcome (option ptr * found_tables) :=
  size ← block_size num_parts;
  '(block, num_parts) ← read_parts fuel (ft_db s) (parts_node table_name) [] 0 (replicate (Z.to_nat size) nul);
  size ← block_size num_parts;
  block ← decompress_statement buff size (S (length block)) block;
  stmt ← read_statement buff block (S (length block)) buff;
  stmt ← assign_table_to_columns stmt;
  d ← set_node (loaded_node table_name) (le64 buff) (ft_db s);
  d ← set_node (loaded_node table_name ++ [lit "chunk"]) (le64 chunk) d;
  Ret (Some buff, {| ft_db := d; ft_loaded := <[buff := stmt]> (ft_loaded s) |}).
(** The address of the statement the table is in; [None] is NULL.  [names]: a name can be
    stripped as often as it has characters. *)
Fixpoint find_table_from (names fuel : nat) (chunk buff : ptr) (table_name : list byte) (s : found_tables) : outcome (option ptr * found_tables) :=
  match names with
  | O => NoFuel
  | S names' =>
      table_stmt ← get (loaded_node table_name) (ft_db s);
      match table_stmt with
      | Some value =>
          stmt ← load64 value 0;
          table ← (match ft_loaded s !! stmt with Some table => Ret table | None => Undef NullPointer end);
          _ ← c_assert (match table with CTable _ _ _ _ => true | _ => false end);
          Ret (Some stmt, s)
      | None =>
          num_parts ← count_subscripts fuel (ft_db s) (parts_node table_name) [];
          if num_parts =? 0 then
            match strip_schema table_name with
            | Some rest => find_table_from names' fuel chunk buff rest s
            | None => Ret (None, s)
            end
          else load_table fuel chunk buff table_name num_parts s
      end
  end.
Definition find_table (fuel : nat) (chunk buff : ptr) (table_name : list byte) : found_tables → outcome (option ptr * found_tables) :=
  find_table_from (S (length (cstr table_name))) fuel chunk buff (cstr table_name).
End find.
