(* ===== verification/HandlerTheorems.v ===== *)
(** * What a query is answered with

    The messages each handler sends, on every path it returns on; exactly which rows and
    columns a SELECT is answered with; that the loop over the statements of a message ends;
    and a Query message from the network to ReadyForQuery. *)
From stdpp Require Import gmap strings.
From S2P Require Import Prelude CMem Errors Frontend FrontendSpec Logging FrontendTheorems Backend BackendTheorems LogicalPlan SqlStatement RoutineName SocketIO SocketTheorems Deserialize Session SessionTheorems MainLoop MainLoopTheorems Connection ConnectionTheorems Compress CreateTable QueryInput RunQuery Handlers.

(** ** The messages of a computation *)
Section sends.
Context `{YottaDB}.
Abbreviation flag s := (data_sent (qs_parms s)).
(** When [m] returns it has sent messages, and set [data_sent] or not, so that [P] holds. *)
Definition sends {A} (m : Q A) (P : A → bool → list (list byte) → Prop) : Prop :=
  ∀ s a s', m s = Ret (a, s') →
  ∃ f msgs, qs_sent s' = qs_sent s ++ msgs ∧ flag s' = flag s || f ∧ P a f msgs.
Definition quiet {A} (m : Q A) : Prop :=
  ∀ s a s', m s = Ret (a, s') → qs_sent s' = qs_sent s ∧ flag s' = flag s.

Lemma sends_bind {A B} (m : Q A) (k : A → Q B) P R :
  sends m P → (∀ a, sends (k a) (R a)) →
  sends (m ≫= k) (λ b f msgs, ∃ a f1 f2 l1 l2, f = f1 || f2 ∧ msgs = l1 ++ l2 ∧ P a f1 l1 ∧ R a b f2 l2).
Proof.
  intros Hm Hk s b s' E. unfold mbind, Q_bind in E. apply bind_ret_inv in E as ([a s1] & E1 & E2).
  destruct (Hm _ _ _ E1) as (f1 & l1 & S1 & F1 & P1). destruct (Hk _ _ _ _ E2) as (f2 & l2 & S2 & F2 & P2).
  exists (f1 || f2), (l1 ++ l2). rewrite S2, S1, F2, F1, app_assoc, orb_assoc. split_and!; [done..|].
  by exists a, f1, f2, l1, l2.
Qed.
Lemma sends_after {A B} (m : Q A) (k : A → Q B) P : quiet m → (∀ a, sends (k a) P) → sends (m ≫= k) P.
Proof.
  intros Hm Hk s b s' E. unfold mbind, Q_bind in E. apply bind_ret_inv in E as ([a s1] & E1 & E2).
  destruct (Hm _ _ _ E1) as [<- <-]. by eapply Hk.
Qed.
Lemma sends_then {A B} (m : Q A) (k : A → Q B) P : sends m P → (∀ a, quiet (k a)) →
  sends (m ≫= k) (λ _ f msgs, ∃ a, P a f msgs).
Proof.
  intros Hm Hk s b s' E. unfold mbind, Q_bind in E. apply bind_ret_inv in E as ([a s1] & E1 & E2).
  destruct (Hm _ _ _ E1) as (f & l & S & F & HP). destruct (Hk _ _ _ _ E2) as [-> ->]. by exists f, l; eauto.
Qed.
Lemma sends_quiet {A} (m : Q A) (P : A → bool → list (list byte) → Prop) : quiet m → (∀ a, P a false []) → sends m P.
Proof. intros Hm HP s a s' E. exists false, []. rewrite app_nil_r, orb_false_r. destruct (Hm _ _ _ E). auto. Qed.
Lemma sends_weaken {A} (m : Q A) (P R : A → bool → list (list byte) → Prop) :
  sends m P → (∀ a f l, P a f l → R a f l) → sends m R.
Proof. intros Hm HP s a s' E. destruct (Hm _ _ _ E) as (f & l & ? & ? & ?). exists f, l. auto. Qed.

Lemma quiet_ret {A} (a : A) : quiet (mret a : Q A).
Proof. by intros s x s' [= _ <-]. Qed.
Lemma quiet_bind {A B} (m : Q A) (k : A → Q B) : quiet m → (∀ a, quiet (k a)) → quiet (m ≫= k).
Proof.
  intros Hm Hk s b s' E. unfold mbind, Q_bind in E. apply bind_ret_inv in E as ([a s1] & E1 & E2).
  destruct (Hm _ _ _ E1) as [<- <-]. by eapply Hk.
Qed.
Lemma quiet_lift {A} (o : outcome A) : quiet (lift o).
Proof. intros s a s' E. unfold lift in E. by apply bind_ret_inv in E as (x & _ & [= _ <-]). Qed.
Lemma quiet_gets {A} (f : query_state → A) : quiet (gets f).
Proof. by intros s a s' [= _ <-]. Qed.
Lemma quiet_state (f : query_state → query_state) : (∀ s, qs_sent (f s) = qs_sent s ∧ flag (f s) = flag s) → quiet (set_state f).
Proof. intros Hf s a s' [= _ <-]. apply Hf. Qed.
Lemma quiet_alloc : quiet alloc_chunk_q. Proof. by apply quiet_state. Qed.
Lemma quiet_cfree : quiet octo_cfree_q.
Proof. intros s a s' E. unfold octo_cfree_q in E. destruct (qs_chunk s); [done| |done]. by injection E as _ <-. Qed.
Lemma quiet_set node v : quiet (set_q node v).
Proof.
  intros s a s' E. unfold set_q in E. destruct (ydb_set_s _ _ _) as [status d].
  apply bind_ret_inv in E as (? & _ & [= _ <-]). done.
Qed.
Lemma quiet_get node : quiet (get_q node).
Proof.
  intros s a s' E. unfold get_q in E. destruct (ydb_get_s _ _ _) as [status v]. case_decide; [by injection E as _ <-|].
  apply bind_ret_inv in E as (? & _ & [= _ <-]). done.
Qed.
(** One message, of the type it was built with. *)
Definition typed (t : byte) (w : list byte) : Prop := head w = Some t.
Lemma sends_message (m : outcome Message) (P : list byte → Prop) :
  (∀ msg w, m = Ret msg → wire msg = Ret w → P w) → sends (send_q m) (λ _ f msgs, f = false ∧ ∃ w, msgs = [w] ∧ P w).
Proof.
  intros HP s a s' E. unfold send_q, lift, mbind, Q_bind in E.
  destruct m as [msg| | |]; cbn in E; try done. destruct (wire msg) as [w| | |] eqn:Ew; cbn in E; try done.
  injection E as _ <-. exists false, [w]. cbn. rewrite orb_false_r. split_and!; [done..|].
  exists w. split; [done|]. by eapply HP.
Qed.
End sends.
(** Computations that only look and store. *)
Ltac quiet_step :=
  first [ apply quiet_ret | apply quiet_lift | apply quiet_gets | apply quiet_set | apply quiet_get
        | apply quiet_cfree | apply quiet_alloc | (apply quiet_state; intros; split; reflexivity)
        | (apply quiet_bind; [|intros]) ].

Lemma wire_typed msg w : wire msg = Ret w → typed (msg_type msg) w.
Proof.
  unfold wire, load_bytes. destruct (_ || _) eqn:E; [done|]. intros [= <-].
  apply orb_false_iff in E as [E _]. apply orb_false_iff in E as [_ E]. apply Z.ltb_ge in E.
  assert (Hl : 0 < ntohl (msg_length msg) + 1) by (pose proof (u32_range (swap32 (u32 (msg_length msg)))); unfold ntohl in *;
    pose proof (swap32_range (u32 (msg_length msg)) (u32_range _)); lia).
  unfold object. destruct (Z.to_nat (ntohl (msg_length msg) + 1)) eqn:En; [lia|]. done.
Qed.

(** ** The shapes of a reply *)
Definition complete_frame (tag : list byte) : list byte := frame PSQL_CommandComplete (tag ++ [nul]) [].
(** What one statement is answered with when no error is reported, and whether that sets
    [data_sent]. *)
Inductive reply : bool → list (list byte) → Prop :=
  | reply_nothing : reply false []
  | reply_set : reply false [complete_frame (lit "SET")]
  | reply_show rd row : typed PSQL_RowDescription rd → typed PSQL_DataRow row →
      reply true [rd; row; complete_frame (lit "SHOW")]
  | reply_no_rows rd : typed PSQL_RowDescription rd → reply true [rd]
  | reply_rows rd rows : typed PSQL_RowDescription rd → rows ≠ [] → Forall (typed PSQL_DataRow) rows →
      reply true (rd :: rows ++ [complete_frame (lit "SELECT " ++ dec (zlen rows))]).

Lemma digits_no_nul f base n acc : 2 ≤ base ≤ 16 → no_nul acc → no_nul (digits f base n acc).
Proof.
  intros Hb. revert n acc. induction f as [|f IH]; intros n acc Ha; cbn [digits]; [done|].
  assert (Hd : no_nul (digit (n mod base) :: acc)).
  { apply not_elem_of_cons. split; [|done]. intros E. apply (f_equal b2z) in E. unfold digit in E. rewrite b2z_z2b in E.
    pose proof (Z.mod_pos_bound n base). change (b2z nul) with 0 in E. destruct (n mod base <? 10) eqn:En; rewrite Z.mod_small in E; lia. }
  case_match; auto.
Qed.
Lemma dec_no_nul z : no_nul (dec z).
Proof.
  unfold dec. destruct (z <? 0).
  - apply not_elem_of_cons. split; [done|]. apply digits_no_nul; [lia|]. apply not_elem_of_nil.
  - apply digits_no_nul; [lia|]. apply not_elem_of_nil.
Qed.
Lemma length_digits f base n acc : (length (digits f base n acc) ≤ f + length acc)%nat.
Proof.
  revert n acc. induction f as [|f IH]; intros n acc; cbn [digits]; [done|].
  case_match; cbn [length]; [lia|]. etransitivity; [apply IH|]. cbn [length]. lia.
Qed.
Lemma zlen_dec z : zlen (dec z) ≤ 21.
Proof.
  unfold dec. case_match; unfold zlen; cbn [length]; pose proof (length_digits 20 10 (- z) []);
    pose proof (length_digits 20 10 z []); cbn [length] in *; lia.
Qed.
Lemma complete_wire tag msg w : no_nul tag → zlen tag ≤ 100 → complete tag = Ret msg → wire msg = Ret w → w = complete_frame tag.
Proof.
  intros Hn Hl Hc Hw. destruct (make_command_complete_spec (Some tag)) as (m & Em & Ew).
  { cbn [default from_option id]. rewrite cstr_id by done. unfold small. zlia. }
  unfold complete in Hc. rewrite Em in Hc. injection Hc as <-. rewrite Ew in Hw. injection Hw as <-.
  cbn [default from_option id]. by rewrite cstr_id.
Qed.
Lemma select_tag n : no_nul (lit "SELECT " ++ dec n) ∧ zlen (lit "SELECT " ++ dec n) ≤ 100.
Proof.
  split.
  - intros Hin. apply elem_of_app in Hin as [Hin|Hin]; [|by apply (dec_no_nul n)]. revert Hin.
    apply (bool_decide_unpack (nul ∉ lit "SELECT ")). vm_compute. exact I.
  - pose proof (zlen_dec n). rewrite zlen_app. change (zlen (lit "SELECT ")) with 7. lia.
Qed.

Section responses.
Context `{QueryRuntime} `{!YottaDBNodes} (config : QueryConfig) (session : RoctoSession) (mem : nat → byte).
Context (routine_name_room : Z) (depth fuel : nat) (prev_gbldir : list byte).

Lemma make_row_description_type ps n msg : make_row_description ps n = Ret msg → msg_type msg = PSQL_RowDescription.
Proof.
  unfold make_row_description. intros E. apply bind_ret_inv in E as (l & _ & E). apply bind_ret_inv in E as (st & _ & E).
  by injection E as <-.
Qed.
Lemma make_data_row_type ps n msg : make_data_row mem ps n = Ret msg → msg_type msg = PSQL_DataRow.
Proof.
  unfold make_data_row. intros E. apply bind_ret_inv in E as (l & _ & E). apply bind_ret_inv in E as (st & _ & E).
  by injection E as <-.
Qed.
Lemma plan_description_type d f msg : get_plan_row_description config fuel d f = Ret msg → msg_type msg = PSQL_RowDescription.
Proof.
  unfold get_plan_row_description. intros E. apply bind_ret_inv in E as (n & _ & E). apply bind_ret_inv in E as (ps & _ & E).
  by eapply make_row_description_type.
Qed.
Lemma sends_typed (m : outcome Message) t : (∀ msg, m = Ret msg → msg_type msg = t) →
  sends (send_q m) (λ _ f msgs, f = false ∧ ∃ w, msgs = [w] ∧ typed t w).
Proof. intros Ht. apply sends_message. intros msg w Em Ew. rewrite <- (Ht msg Em). by apply wire_typed. Qed.
Lemma sends_complete tag : no_nul tag → zlen tag ≤ 100 →
  sends (send_q (complete tag)) (λ _ f msgs, f = false ∧ msgs = [complete_frame tag]).
Proof.
  intros Hn Hl. eapply sends_weaken; [apply (sends_message _ (λ w, w = complete_frame tag))|].
  - intros msg w Em Ew. by eapply complete_wire.
  - by intros a f l (-> & w & -> & ->).
Qed.
Lemma sends_mark : sends mark_sent (λ _ f msgs, f = true ∧ msgs = []).
Proof. intros s a s' [= _ <-]. exists true, []. cbn. by rewrite app_nil_r, orb_true_r. Qed.

(** The rows that are sent are as many as the count says and as the limit allows. *)
Lemma sends_rows n cursor key : ∀ cur left count, 0 ≤ left →
  sends (send_rows config mem n cursor key cur left count)
    (λ k f msgs, f = false ∧ k = count + zlen msgs ∧ Forall (typed PSQL_DataRow) msgs ∧ zlen msgs ≤ left ∧
      (0 < left → msgs ≠ [])).
Proof.
  induction n as [|n IH]; intros cur left count Hl; cbn [send_rows]; [by intros s a s'|].
  destruct (Z.ltb_spec 0 left).
  2: { intros s a s' [= <- <-]. exists false, []. rewrite app_nil_r, orb_false_r. split_and!; [done..|zlia|constructor|zlia|lia]. }
  apply sends_after; [apply quiet_gets|]. intros d. apply sends_after; [apply quiet_lift|]. intros row.
  eapply sends_weaken; [eapply (sends_bind _ _ _ (λ _ k f msgs, f = false ∧
    k = count + 1 + zlen msgs ∧ Forall (typed PSQL_DataRow) msgs ∧ zlen msgs ≤ left - 1));
    [apply (sends_typed _ PSQL_DataRow); apply make_data_row_type|]|].
  - intros []. destruct (ydb_subscript_next_s _ _ _) as [status next]. case_decide.
    + intros s a s' [= <- <-]. exists false, []. rewrite app_nil_r, orb_false_r. split_and!; [done..|zlia|constructor|zlia].
    + apply sends_after; [apply quiet_lift|]. intros _. eapply sends_weaken; [apply IH; lia|].
      by intros k f l (-> & -> & ? & ? & _).
  - intros k f l (a & f1 & f2 & l1 & l2 & -> & -> & (-> & w & -> & Hw) & -> & -> & HF & Hz).
    split_and!; [done|zlia|by constructor|zlia|done].
Qed.

Lemma quiet_clean c : quiet (clean_cursor config c).
Proof. unfold clean_cursor. case_match; repeat quiet_step. Qed.
Lemma quiet_free : quiet free_chunks.
Proof.
  intros s a s' E. unfold free_chunks in E. destruct (qs_chunk s) eqn:Ec; [by injection E as _ <-|..];
    apply bind_ret_inv in E as ([u s1] & E1 & [= _ <-]); cbn; by eapply quiet_cfree in E1.
Qed.

Lemma sends_set p variable value : sends (respond_set session p variable value) (λ _, reply).
Proof.
  unfold respond_set. do 2 (apply sends_after; [apply quiet_lift|intros ?]). apply sends_after; [apply quiet_set|intros ?].
  eapply sends_weaken; [apply sends_complete|].
  - apply (bool_decide_unpack (no_nul (lit "SET"))). vm_compute. exact I.
  - vm_compute. discriminate.
  - intros ? f l (-> & ->). constructor.
Qed.
Lemma sends_show p variable : sends (respond_show config session mem p variable) (λ _, reply).
Proof.
  unfold respond_show. apply sends_after; [apply quiet_lift|intros v]. apply sends_after; [apply quiet_get|intros own].
  apply sends_after; [destruct own; repeat quiet_step|intros found]. apply sends_after; [apply quiet_lift|intros value].
  eapply sends_weaken; [eapply (sends_bind _ _ _ (λ _ _ f msgs, f = true ∧ ∃ row, typed PSQL_DataRow row ∧
    msgs = [row; complete_frame (lit "SHOW")])); [apply (sends_typed _ PSQL_RowDescription), make_row_description_type|intros []]|].
  - eapply sends_weaken; [eapply (sends_bind _ _ _ (λ _ _ f msgs, f = true ∧ msgs = [complete_frame (lit "SHOW")]));
      [apply (sends_typed _ PSQL_DataRow), make_data_row_type|intros []]|].
    + eapply sends_weaken; [eapply (sends_bind _ _ _ (λ _ _ f msgs, f = false ∧ msgs = [complete_frame (lit "SHOW")]));
        [apply sends_mark|intros []]|].
      * apply sends_complete; [|vm_compute; discriminate]. apply (bool_decide_unpack (no_nul (lit "SHOW"))). vm_compute. exact I.
      * by intros ? f l (? & f1 & f2 & l1 & l2 & -> & -> & (-> & ->) & -> & ->).
    + intros ? f l (? & f1 & f2 & l1 & l2 & -> & -> & (-> & row & -> & Hrow) & -> & ->). split; [done|]. by exists row.
  - intros ? f l (? & f1 & f2 & l1 & l2 & -> & -> & (-> & rd & -> & Hrd) & -> & row & Hrow & ->). by constructor.
Qed.
(** The part of [respond_rows] after the first row was found. *)
Lemma sends_all_rows cursor key first :
  sends (_ ← set_parms (λ p, if max_data_to_send p <=? 0
           then {| data_sent := data_sent p; max_data_to_send := INT32_MAX |} else p);
         parms ← gets qs_parms;
         row_count ← send_rows config mem fuel cursor key first (max_data_to_send parms) 0;
         _ ← clean_cursor config cursor;
         _ ← send_q (complete (lit "SELECT " ++ dec row_count));
         free_chunks)
    (λ _ f msgs, f = false ∧ ∃ rows, rows ≠ [] ∧ Forall (typed PSQL_DataRow) rows ∧
      msgs = rows ++ [complete_frame (lit "SELECT " ++ dec (zlen rows))]).
Proof.
  intros s a s' E. unfold mbind, Q_bind in E. apply bind_ret_inv in E as ([u s1] & E1 & E).
  assert (Hmax : 0 < max_data_to_send (qs_parms s1) ∧ qs_sent s1 = qs_sent s ∧ data_sent (qs_parms s1) = data_sent (qs_parms s)).
  { unfold set_parms, set_state in E1. injection E1 as _ <-. cbn.
    destruct (Z.leb_spec (max_data_to_send (qs_parms s)) 0); cbn; [unfold INT32_MAX|]; split_and!; try done; lia. }
  destruct Hmax as (Hmax & <- & <-). clear E1.
  apply bind_ret_inv in E as ([parms s2] & [= <- <-] & E). apply bind_ret_inv in E as ([k s3] & E3 & E).
  destruct (sends_rows _ _ _ _ _ _ (Z.lt_le_incl _ _ Hmax) _ _ _ E3) as (f3 & rows & S3 & F3 & -> & -> & HF & _ & Hne).
  apply bind_ret_inv in E as ([u' s4] & E4 & E). apply quiet_clean in E4 as [S4 F4].
  apply bind_ret_inv in E as ([u'' s5] & E5 & E). apply quiet_free in E as [S6 F6].
  destruct (select_tag (0 + zlen rows)) as [Hn Hz].
  destruct (sends_complete _ Hn Hz _ _ _ E5) as (f5 & l & S5 & F5 & -> & ->).
  exists false, (rows ++ [complete_frame (lit "SELECT " ++ dec (0 + zlen rows))]).
  rewrite S6, S5, S4, S3, F6, F5, F4, F3, app_assoc. split_and!; [done|by rewrite !orb_false_r|done|].
  exists rows. rewrite Z.add_0_l. auto.
Qed.
Lemma sends_rows_reply cursor f : sends (respond_rows config mem fuel cursor f) (λ _, reply).
Proof.
  unfold respond_rows.
  eapply sends_weaken; [eapply (sends_bind _ _ _ (λ _ _ f msgs, f = false ∧ ∃ rd rest, typed PSQL_RowDescription rd ∧
    msgs = rd :: rest ∧ (rest = [] ∨ ∃ rows, rows ≠ [] ∧
    Forall (typed PSQL_DataRow) rows ∧ rest = rows ++ [complete_frame (lit "SELECT " ++ dec (zlen rows))])));
    [apply sends_mark|intros []]|].
  - apply sends_after; [apply quiet_gets|intros d].
    eapply sends_weaken; [eapply (sends_bind _ _ _ (λ _ _ f msgs, f = false ∧ (msgs = [] ∨ ∃ rows, rows ≠ [] ∧
      Forall (typed PSQL_DataRow) rows ∧ msgs = rows ++ [complete_frame (lit "SELECT " ++ dec (zlen rows))])));
      [apply (sends_typed _ PSQL_RowDescription), plan_description_type|intros []]|].
    + apply sends_after; [apply quiet_get|intros [key|]]; [|by intros ???].
      apply sends_after; [apply quiet_gets|intros d']. destruct (ydb_subscript_next_s _ _ _) as [status first]. case_decide.
      { apply sends_quiet; [apply quiet_ret|]. auto. }
      apply sends_after; [apply quiet_lift|intros _]. eapply sends_weaken; [apply sends_all_rows|].
      intros ? f' l [-> Hrows]. auto.
    + intros ? f' l (? & f1 & f2 & l1 & l2 & -> & -> & (-> & rd & -> & Hrd) & -> & Hrest). split; [done|].
      by exists rd, l2.
  - intros ? f' l (? & f1 & f2 & l1 & l2 & -> & -> & (-> & ->) & -> & rd & rest & Hrd & -> & [->|(rows & Hne & HF & ->)]);
      by constructor.
Qed.
Lemma response_reply p cursor f : sends (handle_query_response config session mem fuel p cursor f) (λ _, reply).
Proof.
  unfold handle_query_response. destruct (ps_statement p);
    try (destruct f; [apply sends_rows_reply|by intros ???]).
  - apply sends_set.
  - apply sends_show.
Qed.

(** ** A statement *)
(** What is logged on the way, before the reply. *)
Definition logging (f : bool) (msgs : list (list byte)) : Prop := f = false ∧ Forall log_message msgs.
Lemma sends_log ls : sends (log_q config ls) (λ _, logging).
Proof.
  intros s a s' E. unfold log_q, mbind, Q_bind, lift in E. apply bind_ret_inv in E as ([ms s1] & E1 & E).
  apply bind_ret_inv in E1 as (x & Ex & [= -> <-]). injection E as _ <-. exists false, ms. cbn. rewrite orb_false_r.
  split_and!; [done..|]. split; [done|]. by eapply octo_logs_messages.
Qed.
Lemma sends_logged {A} (m : Q A) : quiet m → sends m (λ _, logging).
Proof. intros Hm. apply sends_quiet; [done|]. intros _. by split. Qed.
Lemma sends_parse : sends (parse_q config) (λ _, logging).
Proof.
  intros s a s' E. unfold parse_q in E. apply bind_ret_inv in E as ([[[[r w] lg] d] i] & _ & E).
  apply bind_ret_inv in E as ([? s1] & E1 & [= _ <-]). by apply (sends_log lg) in E1.
Qed.
Lemma quiet_cursor : quiet (next_cursor config).
Proof.
  intros s a s' E. unfold next_cursor in E. destruct (ydb_incr_s _ _) as [[status d] id].
  apply bind_ret_inv in E as (? & _ & [= _ <-]). done.
Qed.
Lemma quiet_switch_from : quiet switch_from_octo. Proof. unfold switch_from_octo. repeat quiet_step. Qed.
Lemma quiet_switch_to : quiet (switch_to_octo config).
Proof.
  intros s a s' E. unfold switch_to_octo in E. destruct (ydb_get_s _ _ _) as [status v].
  apply bind_ret_inv in E as (? & _ & E). by apply quiet_set in E.
Qed.
Lemma sends_make_plan p f : sends (make_plan config p f) (λ _, logging).
Proof.
  intros s a s' E. unfold make_plan in E. apply bind_ret_inv in E as ([[[made w] lg] d] & _ & E).
  apply bind_ret_inv in E as ([? s1] & E1 & [= _ <-]). by apply (sends_log lg) in E1.
Qed.
Lemma quiet_run_db f : quiet (run_db f). Proof. by apply quiet_state. Qed.
Lemma sends_ensure p f : sends (ensure_plan config p f) (λ _, logging).
Proof.
  unfold ensure_plan. apply sends_after; [quiet_step|intros d]. case_match; [apply sends_logged; quiet_step|].
  apply sends_after; [apply quiet_run_db|intros _]. apply sends_after; [quiet_step|intros d'].
  eapply sends_weaken; [apply (sends_then _ _ (λ _, logging))|by intros ? g l [_ ?]].
  - case_match; [apply sends_logged; quiet_step|apply sends_make_plan].
  - intros []; [apply quiet_bind; [apply quiet_run_db|intros _]|]; quiet_step.
Qed.
Lemma quiet_call c f r : quiet (call_plan c f r).
Proof.
  intros s a s' E. unfold call_plan in E. destruct (ydb_ci _ _ _ _) as [status d].
  apply bind_ret_inv in E as (? & _ & [= _ <-]). done.
Qed.
Lemma quiet_chunks n : ∀ name b c l i, quiet (store_chunks config n name b c l i).
Proof.
  induction n as [|n IH]; intros name b c l i; cbn [store_chunks]; [by intros ???|].
  case_match; [|quiet_step]. apply quiet_bind; [quiet_step|intros part]. apply quiet_bind; [quiet_step|intros _]. apply IH.
Qed.
Lemma quiet_create p : quiet (create_table config mem depth p).
Proof.
  unfold create_table. destruct (ps_statement p); try apply quiet_lift.
  do 4 (apply quiet_bind; [quiet_step|intros ?]). apply quiet_bind; [quiet_step|intros _].
  apply quiet_bind; [quiet_step|intros [b l]]. apply quiet_bind; [apply quiet_chunks|intros _].
  apply quiet_bind; [by apply quiet_state|intros _]. intros s0 u0 s' E. unfold enter_catalogue in E.
  apply bind_ret_inv in E as ([? d] & _ & [= _ <-]). done.
Qed.
Lemma quiet_delete node : quiet (delete_q node).
Proof.
  intros s a s' E. unfold delete_q in E. destruct (ydb_delete_s _ _) as [status d].
  apply bind_ret_inv in E as (? & _ & [= _ <-]). done.
Qed.
Lemma quiet_drop p : quiet (drop_table config p).
Proof.
  unfold drop_table. destruct (ps_statement p); try apply quiet_lift.
  apply quiet_bind; [quiet_step|intros v]. cbv zeta. apply quiet_bind; [apply quiet_delete|intros _].
  apply quiet_bind; [quiet_step|intros t]. destruct t; [apply quiet_delete|quiet_step].
Qed.

(** Entries of the log, and then what [P] says. *)
Definition after_log (P : bool → list (list byte) → Prop) (f : bool) (msgs : list (list byte)) : Prop :=
  ∃ logs rest, msgs = logs ++ rest ∧ Forall log_message logs ∧ P f rest.
Lemma after_no_log (P : bool → list (list byte) → Prop) f msgs : P f msgs → after_log P f msgs.
Proof. intros HP. exists [], msgs. auto. Qed.
Lemma sends_after_log {A B} (m : Q A) (k : A → Q B) (P : B → bool → list (list byte) → Prop) :
  sends m (λ _, logging) → (∀ a, sends (k a) (λ b, after_log (P b))) → sends (m ≫= k) (λ b, after_log (P b)).
Proof.
  intros Hm Hk. eapply sends_weaken; [eapply (sends_bind _ _ _ (λ _ b, after_log (P b))); [exact Hm|exact Hk]|].
  intros b f l (a & f1 & f2 & l1 & l2 & -> & -> & (-> & HF) & logs & rest & -> & HF' & HP).
  exists (l1 ++ logs), rest. rewrite app_assoc. split_and!; [done|by apply Forall_app|done].
Qed.
Lemma sends_select handle p cursor : (∀ p c f, sends (handle p c f) (λ _, reply)) →
  sends (run_select config mem routine_name_room handle p cursor) (λ _, after_log reply).
Proof.
  intros Hh. unfold run_select. apply sends_after; [apply quiet_lift|intros [routine file]]. cbv zeta.
  apply (sends_after_log _ _ (λ _, reply)); [apply sends_ensure|]. intros ready.
  eapply (sends_weaken _ (λ _, reply)); [|by intros; apply after_no_log]. destruct ready.
  - apply sends_after; [apply quiet_switch_from|intros _]. apply sends_after; [apply quiet_call|intros _].
    apply sends_after; [apply quiet_switch_to|intros _].
    eapply sends_weaken; [eapply sends_then; [apply Hh|intros _; quiet_step]|]. by intros ? f l [_ ?].
  - apply sends_quiet; [|constructor]. apply quiet_bind; [quiet_step|intros _].
    apply quiet_bind; [apply quiet_run_db|intros _]. quiet_step.
Qed.
(** A failed statement has sent nothing but its log. *)
Definition run_reply (ok : bool) : bool → list (list byte) → Prop :=
  after_log (λ f msgs, reply f msgs ∧ (ok = false → f = false ∧ msgs = [])).
Lemma sends_query handle : (∀ p c f, sends (handle p c f) (λ _, reply)) →
  sends (run_query config mem routine_name_room depth handle) run_reply.
Proof.
  intros Hh. unfold run_query. apply sends_after; [apply quiet_alloc|intros _].
  assert (Hnone : ∀ m : Q bool, quiet m → sends m run_reply).
  { intros m Hm. apply sends_quiet; [done|]. intros a. apply after_no_log. split; [constructor|done]. }
  apply sends_after_log; [apply sends_parse|intros [p|]]; [|apply Hnone; repeat quiet_step].
  case_match; [apply Hnone; repeat quiet_step|]. apply sends_after; [apply quiet_cursor|intros cursor].
  set (finish := _ ≫= λ _, set_state _ ≫= _).
  assert (Hfin : sends finish (λ b f msgs, b = true ∧ f = false ∧ msgs = [])).
  { intros s b s' E. unfold finish, mbind, Q_bind in E. apply bind_ret_inv in E as ([? s1] & E1 & E).
    apply bind_ret_inv in E as ([? s2] & [= _ <-] & E). injection E as <- <-. apply quiet_cfree in E1 as [E1 E2].
    exists false, []. cbn. by rewrite app_nil_r, orb_false_r. }
  assert (Hans : ∀ (A : Type) (m : Q A) (k : Q bool), sends m (λ _, after_log reply) →
    sends k (λ b f msgs, b = true ∧ f = false ∧ msgs = []) → sends (m ≫= λ _, k) run_reply).
  { intros A m k Hm Hk. eapply sends_weaken; [eapply (sends_bind _ _ _ (λ _, _)); [exact Hm|intros _; exact Hk]|].
    intros b f l (? & f1 & f2 & l1 & l2 & -> & -> & (logs & rest & -> & HF & Hr) & -> & -> & ->).
    exists logs, rest. rewrite app_nil_r, orb_false_r. by split_and!. }
  assert (Hreply : ∀ m : Q (), sends m (λ _, reply) → sends (m ≫= λ _, finish) run_reply).
  { intros m Hm. apply Hans; [|exact Hfin]. eapply sends_weaken; [exact Hm|]. intros. by apply after_no_log. }
  assert (Hwarn : ∀ t, sends (warn config t ≫= λ _, finish) run_reply).
  { intros t. apply sends_after_log; [apply sends_log|]. intros _. eapply sends_weaken; [exact Hfin|].
    intros ? f l (-> & -> & ->). apply after_no_log. split; [constructor|done]. }
  assert (Hsel : sends (run_select config mem routine_name_room handle p cursor ≫= λ _, mret true) run_reply).
  { apply Hans; [by apply sends_select|]. intros s b s' [= <- <-]. exists false, []. by rewrite app_nil_r, orb_false_r. }
  destruct (ps_statement p); try (by intros ???); try exact Hsel; try apply Hwarn; try (apply Hreply; apply Hh);
    apply Hreply; (apply sends_quiet; [first [apply quiet_create|apply quiet_drop]|constructor]).
Qed.
End responses.

(** ** The messages of a handler *)
(** As [sends], for computations that also clear [data_sent]. *)
Definition says {A} `{YottaDB} (m : Q A) (P : list (list byte) → Prop) : Prop :=
  ∀ s a s', m s = Ret (a, s') → ∃ msgs, qs_sent s' = qs_sent s ++ msgs ∧ P msgs.
Lemma sends_says `{YottaDB} {A} (m : Q A) P (R : list (list byte) → Prop) :
  sends m P → (∀ a f msgs, P a f msgs → R msgs) → says m R.
Proof. intros Hm HR s a s' E. destruct (Hm _ _ _ E) as (f & l & ? & _ & HP). eauto. Qed.
Lemma says_until_eof `{YottaDB} n body P : says body P →
  says (until_eof n body) (λ msgs, ∃ groups, groups ≠ [] ∧ msgs = concat groups ∧ Forall P groups).
Proof.
  intros Hb. induction n as [|n IH]; intros s a s' E; cbn [until_eof] in E; [done|]. unfold mbind, Q_bind in E.
  apply bind_ret_inv in E as ([u s1] & E1 & E). destruct (Hb _ _ _ E1) as (l & S1 & HP).
  apply bind_ret_inv in E as ([eof s2] & [= _ <-] & E). destruct eof.
  - injection E as _ <-. exists l. split; [done|]. exists [l]. cbn. rewrite app_nil_r. auto.
  - destruct (IH _ _ _ E) as (l2 & S2 & groups & _ & -> & HF). exists (l ++ concat groups).
    rewrite S2, S1, app_assoc. split; [done|]. exists (l :: groups). auto.
Qed.
Lemma answer_says `{YottaDB} (m : Q ()) P s r : says m P → qs_sent s = [] → answer (m s) = Ret r →
  r.1.1 = 0 ∧ P r.2.
Proof.
  intros Hm Hs E. unfold answer in E. apply bind_ret_inv in E as ([[] s'] & E1 & [= <-]).
  destruct (Hm _ _ _ E1) as (l & El & HP). cbn. by rewrite El, Hs.
Qed.
Definition error_message (w : list byte) : Prop := typed PSQL_ErrorResponse w.
Definition empty_query_frame : list byte := frame PSQL_EmptyQueryResponse [] [].
Definition no_data_frame : list byte := frame PSQL_NoData [] [].
Lemma empty_wire : wire make_empty_query_response = Ret empty_query_frame.
Proof. reflexivity. Qed.
Lemma no_data_wire : wire make_no_data = Ret no_data_frame.
Proof. reflexivity. Qed.

(** What was logged while a statement was parsed and planned, and then its answer. *)
Definition logged (P : list (list byte) → Prop) (msgs : list (list byte)) : Prop :=
  ∃ logs rest, msgs = logs ++ rest ∧ Forall log_message logs ∧ P rest.
Lemma logged_none (P : list (list byte) → Prop) msgs : P msgs → logged P msgs.
Proof. intros HP. exists [], msgs. auto. Qed.
(** What one statement of a Query message is answered with: its reply, or one error. *)
Definition query_answer : list (list byte) → Prop := logged (λ msgs, (∃ f, reply f msgs) ∨ ∃ w, msgs = [w] ∧ error_message w).
(** In an Execute there may be an error or none after a failed statement, and
    EmptyQueryResponse closes every answer that set no [data_sent]. *)
Definition execute_answer : list (list byte) → Prop := logged (λ msgs,
  reply true msgs ∨ (∃ l, reply false l ∧ msgs = l ++ [empty_query_frame]) ∨
  ∃ w, error_message w ∧ msgs = [w; empty_query_frame]).
Definition describe_answer : list (list byte) → Prop := logged (λ msgs,
  msgs = [no_data_frame] ∨ ∃ w, msgs = [w] ∧ (typed PSQL_RowDescription w ∨ error_message w)).

Section handler_messages.
Context `{QueryRuntime} `{!YottaDBNodes} (config : QueryConfig) (session : RoctoSession) (mem : nat → byte).
Context (routine_name_room : Z) (depth fuel : nat) (prev_gbldir : list byte).

Lemma error_wire_type code text e : make_error_response PSQL_Error_ERROR code text [] = Ret e → error_message (error_wire e).
Proof.
  unfold make_error_response. intros E. repeat (apply bind_ret_inv in E as (? & _ & E); case_match).
  apply bind_ret_inv in E as (? & _ & E). by injection E as <-.
Qed.
Lemma sends_error : sends send_syntax_error (λ _ f msgs, f = false ∧ ∃ w, msgs = [w] ∧ error_message w).
Proof.
  unfold send_syntax_error. apply sends_after; [apply quiet_gets|intros text]. intros s a s' E. unfold mbind, Q_bind in E.
  apply bind_ret_inv in E as ([err s1] & E1 & E). unfold lift in E1. apply bind_ret_inv in E1 as (e & Ee & [= <- <-]).
  apply bind_ret_inv in E as ([? s2] & [= _ <-] & [= _ <-]). exists false, [error_wire e]. cbn. rewrite orb_false_r.
  split_and!; [done..|]. exists (error_wire e). split; [done|]. by eapply error_wire_type.
Qed.
Lemma sends_run : sends (run config session mem routine_name_room depth fuel) run_reply.
Proof. apply sends_query. intros p c f. apply response_reply. Qed.

Lemma query_turn_says : says (query_turn config session mem routine_name_room depth fuel) query_answer.
Proof.
  intros s [] s' E. unfold query_turn, mbind, Q_bind in E. apply bind_ret_inv in E as ([ok s1] & E1 & E).
  destruct (sends_run _ _ _ E1) as (f & l & S1 & _ & logs & rest & -> & HF & Hr & Hf). destruct ok.
  - injection E as <-. exists (logs ++ rest). split; [done|]. exists logs, rest. eauto.
  - destruct (Hf eq_refl) as [-> ->]. destruct (sends_error _ _ _ E) as (f2 & l2 & S2 & _ & _ & Hw).
    exists (logs ++ l2). rewrite S2, S1, app_nil_r, app_assoc. split; [done|]. exists logs, l2. eauto.
Qed.
Lemma execute_turn_says : says (execute_turn config session mem routine_name_room depth fuel) execute_answer.
Proof.
  intros s [] s' E. unfold execute_turn, mbind, Q_bind in E. apply bind_ret_inv in E as ([u0 s0] & [= _ <-] & E).
  apply bind_ret_inv in E as ([ok s1] & E1 & E). destruct (sends_run _ _ _ E1) as (f & l & S1 & F1 & logs & rest & -> & HF & Hr & Hf).
  cbn in S1, F1. apply bind_ret_inv in E as ([eof s2] & [= <- <-] & E). apply bind_ret_inv in E as ([u3 s3] & E3 & E).
  apply bind_ret_inv in E as ([parms s4] & [= <- <-] & E).
  assert (H3 : ∃ l3, qs_sent s3 = qs_sent s ++ logs ++ rest ++ l3 ∧ data_sent (qs_parms s3) = f ∧
    (l3 = [] ∨ ok = false ∧ ∃ w, l3 = [w] ∧ error_message w)).
  { destruct (negb ok && _) eqn:Eok.
    - apply andb_true_iff in Eok as [Eok _]. apply negb_true_iff in Eok.
      destruct (sends_error _ _ _ E3) as (f3 & l3 & S3 & F3 & -> & Hw). exists l3.
      rewrite S3, S1, F3, F1, <- !app_assoc, orb_false_r. split_and!; auto.
    - injection E3 as _ <-. exists []. rewrite app_nil_r. auto. }
  destruct H3 as (l3 & S3 & F3 & H3). rewrite F3 in E.
  destruct f.
  - injection E as <-. exists (logs ++ rest ++ l3). split; [done|]. destruct H3 as [->|(-> & _)]; [|by destruct (Hf eq_refl)].
    rewrite app_nil_r. exists logs, rest. eauto.
  - exists (logs ++ rest ++ l3 ++ [empty_query_frame]). split.
    + change (Ret ((), send [empty_query_frame] s3) = Ret ((), s')) in E. injection E as <-. cbn. by rewrite S3, <- !app_assoc.
    + exists logs, (rest ++ l3 ++ [empty_query_frame]). split_and!; [done..|]. right.
      destruct H3 as [->|(-> & w & -> & Hw)]; [left; eauto|]. destruct (Hf eq_refl) as [_ ->]. right. eauto.
Qed.
Lemma sends_after_logged {A B} (m : Q A) (k : A → Q B) (P : list (list byte) → Prop) :
  sends m (λ _, logging) → (∀ a, sends (k a) (λ _ _, logged P)) → sends (m ≫= k) (λ _ _, logged P).
Proof. intros Hm Hk. exact (sends_after_log m k (λ _ _, P) Hm Hk). Qed.
Lemma describe_plan_sends p : sends (describe_plan config mem fuel p) (λ _ _, describe_answer).
Proof.
  unfold describe_plan. apply sends_after; [apply quiet_lift|intros [x file]]. apply sends_after; [apply quiet_lift|intros _].
  apply sends_after_logged; [apply sends_ensure|intros []]; [|by intros ???].
  apply sends_after; [apply quiet_gets|intros d].
  eapply sends_weaken; [apply (sends_typed _ PSQL_RowDescription), plan_description_type|].
  intros ? f l (_ & w & -> & Hw). apply logged_none. right. eauto.
Qed.
Lemma describe_turn_says : says (describe_turn config mem fuel) describe_answer.
Proof.
  apply (sends_says _ (λ _ _, describe_answer)); [|auto].
  unfold describe_turn. apply sends_after; [apply quiet_alloc|intros _]. apply sends_after_logged; [apply sends_parse|intros [p|]].
  - apply sends_after; [apply quiet_cursor|intros cursor].
    eapply sends_weaken; [apply (sends_then _ _ (λ _ _, describe_answer)); [|intros; apply quiet_cfree]|by intros ? f l [_ ?]].
    assert (Hrd : sends (send_q (make_row_description [] 0)) (λ _ _, describe_answer)).
    { eapply sends_weaken; [apply (sends_typed _ PSQL_RowDescription), make_row_description_type|].
      intros ? f l (_ & w & -> & Hw). apply logged_none. right. eauto. }
    destruct (ps_statement p); try exact Hrd; try apply describe_plan_sends.
    eapply sends_weaken; [apply (sends_message _ (λ w, w = no_data_frame))|].
    + intros msg w [= <-]. rewrite no_data_wire. by intros [= <-].
    + intros ? f l (_ & w & -> & ->). apply logged_none. by left.
  - eapply sends_weaken; [eapply sends_then; [apply sends_error|intros; apply quiet_cfree]|].
    intros ? f l (_ & _ & w & -> & Hw). apply logged_none. right. eauto.
Qed.
End handler_messages.

(** A handler's answer to a message: 0, and one answer after the other, at least one. *)
Definition answers (P : list (list byte) → Prop) (r : Z * list (list byte)) : Prop :=
  r.1 = 0 ∧ ∃ groups, groups ≠ [] ∧ r.2 = concat groups ∧ Forall P groups.
Lemma answers_one (P : list (list byte) → Prop) r l : r.1 = 0 → r.2 = l → P l → answers P r.
Proof. intros Hr Hl HP. split; [done|]. exists [l]. cbn. rewrite app_nil_r. auto. Qed.
Lemma answers_weaken (P R : list (list byte) → Prop) r : answers P r → (∀ l, P l → R l) → answers R r.
Proof.
  intros (? & groups & ? & ? & HF) HPR. split; [done|]. exists groups. split_and!; [done..|].
  eapply Forall_impl; [|exact HF]. done.
Qed.
Lemma answers_loop `{YottaDB} P n m s r : says m P → qs_sent s = [] → answer (until_eof n m s) = Ret r →
  answers P (r.1.1, r.2).
Proof. intros Hm Hs E. eapply answer_says in E; [|by apply says_until_eof|done]. done. Qed.
Lemma answers_too_long `{YottaDB} (P : list (list byte) → Prop) text d r :
  too_long text d = Ret r → (∀ w, error_message w → P [w]) → answers P (r.1.1, r.2).
Proof.
  unfold too_long, send_error. intros E HP. apply bind_ret_inv in E as (l & E & [= <-]).
  apply bind_ret_inv in E as (e & E & [= <-]). eapply answers_one; [done..|]. apply HP. by eapply error_wire_type.
Qed.

(** C36: on a server that records nothing below WARNING, whatever the database, the parser and
    the plans do, every message a handler that returns has sent belongs to the answer of one
    statement, in the order the statements are in.  First come the entries logged while the
    statement was parsed and planned, as Notice- and ErrorResponses (the error of [parse_line]
    is one); then, to a Query, the reply of the statement or one ErrorResponse; to an
    Execute, a reply that set [data_sent], or else a reply or an ErrorResponse and
    EmptyQueryResponse behind it; to a Describe, one NoData, RowDescription or ErrorResponse.
    The reply of a SELECT with rows is one RowDescription, the rows, and CommandComplete with
    their number; a failed statement has sent nothing but its log before its error; the
    handlers return 0.  A text that is too long is refused with one ErrorResponse, and an empty
    Query answered with EmptyQueryResponse. *)
Theorem handlers_answer `{QueryRuntime} `{!YottaDBNodes} config session mem room depth fuel gbldir d :
  records_warnings config →
  (∀ q r, handle_query config session mem room depth fuel gbldir q d = Ret r →
     answers (λ l, l = [empty_query_frame] ∨ query_answer l) (r.1.1, r.2)) ∧
  (∀ x r, handle_execute config session mem room depth fuel gbldir x d = Ret r →
     answers (λ l, execute_answer l ∨ ∃ w, l = [w] ∧ error_message w) (r.1.1, r.2)) ∧
  (∀ x r, handle_describe config session mem fuel gbldir x d = Ret r → answers describe_answer (r.1.1, r.2)).
Proof.
  intros _. split_and!.
  - intros q r E. unfold handle_query in E. apply bind_ret_inv in E as (text & _ & E).
    destruct (zlen text =? 0); [rewrite empty_wire in E; injection E as <-; eapply answers_one; [done..|]; auto|].
    destruct (MAX_STR_CONST <? zlen text).
    { eapply answers_too_long; [exact E|]. intros w Hw. right. apply logged_none. right. eauto. }
    apply bind_ret_inv in E as (i & _ & E). eapply answers_weaken; [eapply answers_loop; [apply query_turn_says| |exact E]|]; auto.
  - intros x r E. unfold handle_execute in E. apply bind_ret_inv in E as (text & _ & E).
    destruct (ydb_get_s _ _ _) as [status v]. apply bind_ret_inv in E as (? & _ & E). cbv zeta in E.
    destruct (MAX_STR_CONST <? _).
    { eapply answers_too_long; [exact E|]. intros w Hw. right. eauto. }
    apply bind_ret_inv in E as (i & _ & E). eapply answers_weaken; [eapply answers_loop; [apply execute_turn_says| |exact E]|]; auto.
  - intros x r E. unfold handle_describe in E. apply bind_ret_inv in E as (text & _ & E). cbv zeta in E.
    apply bind_ret_inv in E as (? & _ & E).
    destruct (ydb_get_s _ _ _) as [status v]. apply bind_ret_inv in E as (? & _ & E).
    apply bind_ret_inv in E as (i & _ & E). eapply answers_loop; [apply describe_turn_says| |exact E]. done.
Qed.
