(* ===== verification/SelectTheorems.v ===== *)
(** * What a SELECT is answered with

    The columns a plan left in the database, the rows its routine put behind the cursor,
    and the messages these become: exactly those columns, exactly the first rows the client
    asked for, each cut at its bars, and a count that is their number. *)
From stdpp Require Import gmap strings.
From S2P Require Import Prelude CMem Errors Frontend FrontendSpec Logging FrontendTheorems Backend BackendTheorems LogicalPlan SqlStatement RoutineName SocketIO SocketTheorems Deserialize Session SessionTheorems MainLoop MainLoopTheorems Connection ConnectionTheorems Compress CreateTable QueryInput RunQuery Handlers HandlerTheorems.

(** ** Rows *)
(** A row as the routine writes it: the columns with a bar between each two. *)
Fixpoint join_row (cols : list (list byte)) : list byte :=
  match cols with
  | [] => []
  | [c] => c
  | c :: cols' => c ++ bar :: join_row cols'
  end.
Definition column_text (c : list byte) : Prop := (bar ∉ c) ∧ no_nul c.

Lemma split_row_nonempty row : split_row row ≠ [].
Proof. destruct row; cbn [split_row]; [done|]. destruct (split_row row); [done|]. by case_decide. Qed.
Lemma split_plain c : bar ∉ c → split_row c = [c].
Proof.
  induction c as [|b c IH]; intros Hb; [done|]. apply not_elem_of_cons in Hb as [Hb Hc]. cbn [split_row].
  rewrite IH by done. rewrite decide_False; [done|congruence].
Qed.
Lemma split_bar c row : bar ∉ c → split_row (c ++ bar :: row) = c :: split_row row.
Proof.
  induction c as [|b c IH]; intros Hb; cbn [app split_row].
  - destruct (split_row row) eqn:E; [by apply split_row_nonempty in E|]. by rewrite decide_True.
  - apply not_elem_of_cons in Hb as [Hb Hc]. rewrite IH by done. rewrite decide_False; [done|congruence].
Qed.
Lemma split_join cols : cols ≠ [] → Forall column_text cols → split_row (join_row cols) = cols.
Proof.
  intros Hne HF. induction HF as [|c cols [Hc _] HF IH]; [done|]. destruct cols as [|c' cols]; [by apply split_plain|].
  change (join_row (c :: c' :: cols)) with (c ++ bar :: join_row (c' :: cols)). by rewrite split_bar, IH.
Qed.
Lemma join_row_no_nul cols : Forall column_text cols → no_nul (join_row cols).
Proof.
  induction 1 as [|c cols [_ Hc] HF IH]; [apply not_elem_of_nil|]. destruct cols as [|c' cols]; [done|].
  change (join_row (c :: c' :: cols)) with (c ++ bar :: join_row (c' :: cols)).
  intros Hin. apply elem_of_app in Hin as [Hin|[Hin|Hin]%elem_of_cons]; [by apply Hc|done|by apply IH].
Qed.

Definition row_frame (cols : list (list byte)) : list byte :=
  frame PSQL_DataRow (be16 (zlen cols) ++ encode_parms cols) [].
Lemma zlen_encode_row cols : cols ≠ [] → zlen cols + zlen (encode_parms cols) ≤ 5 * (zlen (join_row cols) + 1).
Proof.
  intros Hne. induction cols as [|c cols IH]; [done|]. rewrite zlen_encode_cons, zlen_cons.
  destruct cols as [|c' cols]; [change (zlen (encode_parms [])) with 0; change (zlen (@nil (list byte))) with 0; change (join_row [c]) with c; pose proof (zlen_nonneg c); lia|].
  change (join_row (c :: c' :: cols)) with (c ++ bar :: join_row (c' :: cols)). specialize (IH ltac:(done)).
  rewrite zlen_app, (zlen_cons bar). pose proof (zlen_nonneg c). lia.
Qed.
Lemma data_row_parms_values row : parm_value <$> data_row_parms row = split_row row.
Proof.
  unfold data_row_parms. rewrite <- list_fmap_compose. rewrite <- list_fmap_id. apply list_fmap_ext.
  intros i col _. cbn. unfold parm_value. cbn. by rewrite zlen_to_nat, firstn_all.
Qed.
Lemma data_row_message mem cols : cols ≠ [] → Forall column_text cols → zlen (join_row cols) < MAX_STR_CONST →
  ∃ m, make_data_row mem (data_row_parms (cstr (join_row cols))) (zlen (data_row_parms (cstr (join_row cols)))) = Ret m ∧
    wire m = Ret (row_frame cols).
Proof.
  intros Hne HF Hz. rewrite cstr_id by (by apply join_row_no_nul). set (parms := data_row_parms _).
  assert (Hp : row_payload parms = be16 (zlen cols) ++ encode_parms cols).
  { unfold row_payload, parms. rewrite data_row_parms_values, split_join by done. do 2 f_equal.
    unfold data_row_parms, zlen. rewrite length_fmap. by rewrite split_join. }
  unfold row_frame. rewrite <- Hp. apply make_data_row_spec.
  - apply Forall_fmap, Forall_true. intros col. unfold parm_ok. cbn. pose proof (zlen_nonneg col). lia.
  - rewrite Hp. unfold small. rewrite zlen_app, zlen_be16. pose proof (zlen_encode_row cols Hne).
    pose proof (zlen_nonneg cols). change MAX_STR_CONST with 32768 in Hz. lia.
Qed.

Lemma check_ok : ydb_error_check YDB_OK = Ret ().
Proof. reflexivity. Qed.

(** ** Columns *)
Lemma atoi_str_range s : - 2 ^ 31 ≤ atoi_str s < 2 ^ 31.
Proof. unfold atoi_str, atoi. case_match; [lia|]. case_decide; apply s32_range. Qed.

Section select.
Context `{QueryRuntime} `{!YottaDBNodes} `{!YottaDBNodesLaws} (config : QueryConfig) (session : RoctoSession) (mem : nat → byte).
Context (routine_name_room : Z) (depth fuel : nat) (prev_gbldir : list byte).

Lemma column_parm_ok d f c p : column_parm config d f c = Ret p → column_ok p.
Proof.
  unfold column_parm. destruct (ydb_get_s _ _ _) as [status name]. intros E.
  repeat (apply bind_ret_inv in E as (? & _ & E)). injection E as <-.
  constructor; cbn; unfold int_ok; [apply cstr_no_nul|..]; first [apply atoi_str_range|apply s16_range].
Qed.

(** What the plan [f] and cursor [cursor] have in the database: the columns, the key the
    rows are under, and the rows. *)
Record result_set (d : db) (cursor : Z) (f key : list byte) (cols : list RowDescriptionParm)
    (rows : list (list (list byte))) : Prop := {
  rs_columns : Forall2 (λ c p, column_parm config d f c = Ret p) (subscripts d (columns_node config f)) cols;
  rs_small : small (columns_payload cols);
  rs_key : ydb_get_s d [lit "^%ydboctoocto"; lit "plan_metadata"; f; lit "output_key"] MAX_STR_CONST = (YDB_OK, key);
  rs_rows : Forall2 (λ r cols, ydb_get_s d (row_node config cursor key ++ [r]) MAX_STR_CONST = (YDB_OK, join_row cols) ∧
    cols ≠ [] ∧ Forall column_text cols ∧ zlen (join_row cols) < MAX_STR_CONST) (subscripts d (row_node config cursor key)) rows;
  rs_count : zlen rows ≤ INT32_MAX;
  rs_fuel : (length cols < fuel)%nat ∧ (length rows < fuel)%nat;
}.

Lemma count_subscripts_spec d node rest : ∀ done_ cur n, subscripts d node = done_ ++ rest →
  ydb_subscript_next_s d node cur = match rest with [] => (YDB_ERR_NODEEND, []) | s :: _ => (YDB_OK, s) end →
  (length rest < n)%nat → count_subscripts n d node cur = Ret (zlen rest).
Proof.
  induction rest as [|x rest IH]; intros done_ cur n Hs Hnext Hn; (destruct n as [|n]; [cbn in Hn; lia|]);
    cbn [count_subscripts]; rewrite Hnext; [by rewrite decide_True|]. rewrite decide_False by done.
  rewrite check_ok. cbn [mbind outcome_bind]. rewrite (IH (done_ ++ [x])).
  - cbn [mbind outcome_bind]. f_equal. rewrite zlen_cons. lia.
  - rewrite Hs. by rewrite <- app_assoc.
  - by apply (next_after d node done_).
  - cbn [length] in Hn |- *; lia.
Qed.
Lemma read_plan_columns_spec d f rest cols : Forall2 (λ c p, column_parm config d f c = Ret p) rest cols →
  ∀ done_ cur n, subscripts d (columns_node config f) = done_ ++ rest →
  ydb_subscript_next_s d (columns_node config f) cur = match rest with [] => (YDB_ERR_NODEEND, []) | s :: _ => (YDB_OK, s) end →
  (length rest < n)%nat → read_columns_from config n d f cur = Ret cols.
Proof.
  induction 1 as [|x p rest cols Hx HF IH]; intros done_ cur n Hs Hnext Hn; (destruct n as [|n]; [cbn in Hn; lia|]);
    cbn [read_columns_from]; rewrite Hnext; [by rewrite decide_True|]. rewrite decide_False by done.
  rewrite check_ok. cbn [mbind outcome_bind]. rewrite Hx. cbn [mbind outcome_bind]. rewrite (IH (done_ ++ [x])).
  - done.
  - rewrite Hs. by rewrite <- app_assoc.
  - by apply (next_after d _ done_).
  - cbn [length] in Hn |- *; lia.
Qed.
Definition columns_frame (cols : list RowDescriptionParm) : list byte := frame PSQL_RowDescription (columns_payload cols) [].
Lemma plan_description_spec d f cols :
  Forall2 (λ c p, column_parm config d f c = Ret p) (subscripts d (columns_node config f)) cols →
  small (columns_payload cols) → (length cols < fuel)%nat →
  ∃ m, get_plan_row_description config fuel d f = Ret m ∧ wire m = Ret (columns_frame cols).
Proof.
  intros HF Hs Hn. pose proof (Forall2_length HF) as Hl. unfold get_plan_row_description.
  rewrite (count_subscripts_spec d _ (subscripts d (columns_node config f)) []); [|done|apply next_first|lia].
  cbn [mbind outcome_bind]. erewrite (read_plan_columns_spec d f _ _ HF []); [|done|apply next_first|lia].
  cbn [mbind outcome_bind]. unfold zlen at 1. rewrite Hl. apply make_row_description_spec; [|done].
  clear -HF. induction HF; constructor; [by eapply column_parm_ok|done].
Qed.

(** ** The rows *)
(** Running the first part of a computation. *)
Lemma q_bind {A B} (m : Q A) (k : A → Q B) s a s' : m s = Ret (a, s') → (m ≫= k) s = k a s'.
Proof. intros E. unfold mbind, Q_bind. by rewrite E. Qed.
Lemma q_lift {A B} (o : outcome A) (k : A → Q B) s a : o = Ret a → (lift o ≫= k) s = k a s.
Proof. intros ->. done. Qed.
Lemma q_gets {A B} (f : query_state → A) (k : A → Q B) s : (gets f ≫= k) s = k (f s) s.
Proof. done. Qed.
Lemma q_state {B} f (k : () → Q B) s : (set_state f ≫= k) s = k () (f s).
Proof. done. Qed.
Lemma get_value_spec d node v : ydb_get_s d node MAX_STR_CONST = (YDB_OK, v) → zlen v < MAX_STR_CONST → get_value d node = Ret v.
Proof. intros E Hz. unfold get_value. rewrite E, check_ok. cbn [mbind outcome_bind]. by rewrite (proj2 (Z.ltb_lt _ _) Hz). Qed.
Lemma send_q_spec m w s : (∃ msg, m = Ret msg ∧ wire msg = Ret w) → send_q m s = Ret ((), send [w] s).
Proof. intros (msg & -> & Hw). unfold send_q, lift, mbind, Q_bind. cbn. by rewrite Hw. Qed.
Lemma send_send a b s : send b (send a s) = send (a ++ b) s.
Proof. unfold send. cbn. by rewrite app_assoc. Qed.
Lemma send_rows_spec d cursor key rest rows :
  Forall2 (λ r cols, ydb_get_s d (row_node config cursor key ++ [r]) MAX_STR_CONST = (YDB_OK, join_row cols) ∧
    cols ≠ [] ∧ Forall column_text cols ∧ zlen (join_row cols) < MAX_STR_CONST) rest rows →
  ∀ r rest' done_ n left count s, rest = r :: rest' → qs_db s = d →
  subscripts d (row_node config cursor key) = done_ ++ rest → 0 ≤ left → (length rest ≤ n)%nat → (0 < n)%nat →
  send_rows config mem n cursor key r left count s =
    Ret (count + Z.min left (zlen rows), send (row_frame <$> take (Z.to_nat left) rows) s).
Proof.
  induction 1 as [|x cols rest rows (Hget & Hne & Hc & Hz) HF IH]; [done|].
  intros r rest' done_ n left count s [= <- <-] Hd Hs Hleft Hn Hn0. destruct n as [|n]; [lia|]. cbn [send_rows].
  destruct (Z.ltb_spec 0 left) as [Hl|Hl].
  2: { replace left with 0 by lia. change (Z.to_nat 0) with 0%nat. cbn. rewrite Z.min_l by zlia.
       unfold send. rewrite app_nil_r, Z.add_0_r. by destruct s. }
  rewrite q_gets, Hd. erewrite q_lift by (by apply get_value_spec). cbv zeta.
  erewrite q_bind by (apply send_q_spec; by apply data_row_message).
  rewrite (next_after d _ done_ _ _ Hs).
  assert (Et : take (Z.to_nat left) (cols :: rows) = cols :: take (Z.to_nat (left - 1)) rows).
  { by replace (Z.to_nat left) with (S (Z.to_nat (left - 1))) by lia. }
  rewrite Et. cbn [fmap list_fmap]. destruct rest as [|y rest].
  - rewrite decide_True by done. apply Forall2_nil_inv_l in HF as ->. rewrite take_nil. cbn.
    by rewrite Z.min_r by (change (zlen [cols]) with 1; lia).
  - rewrite decide_False by done. erewrite q_lift by apply check_ok.
    rewrite (IH y rest (done_ ++ [x])); try done; [|by rewrite <- app_assoc|lia|cbn [length] in *; lia|cbn [length] in *; lia].
    rewrite send_send. rewrite zlen_cons. do 2 f_equal. lia.
Qed.

(** The rows a limit leaves; no limit, or one that is not positive, leaves all. *)
Definition shown (max : Z) (rows : list (list (list byte))) : list (list (list byte)) :=
  if (0 <? max) && (max <? zlen rows) then take (Z.to_nat max) rows else rows.
Lemma shown_limit max rows : zlen rows ≤ INT32_MAX →
  let left := if max <=? 0 then INT32_MAX else max in
  0 ≤ left ∧ take (Z.to_nat left) rows = shown max rows ∧ Z.min left (zlen rows) = zlen (shown max rows).
Proof.
  intros Hc. unfold shown. cbv zeta. pose proof (zlen_nonneg rows). assert (HI : 0 ≤ INT32_MAX) by (vm_compute; discriminate).
  assert (Hall : ∀ l, zlen rows ≤ l → take (Z.to_nat l) rows = rows).
  { intros l Hl. apply take_ge. unfold zlen in Hl. lia. }
  destruct (Z.leb_spec max 0); destruct (Z.ltb_spec 0 max); try lia; cbn [andb].
  - rewrite Hall by done. split_and!; [done..|lia].
  - destruct (Z.ltb_spec max (zlen rows)); [|rewrite Hall by done; split_and!; [lia|done|lia]].
    split_and!; [lia|done|]. unfold zlen in *. rewrite length_take. lia.
Qed.
Definition select_frames (cols : list RowDescriptionParm) (max : Z) (rows : list (list (list byte))) : list (list byte) :=
  columns_frame cols :: match rows with
    | [] => []
    | _ => (row_frame <$> shown max rows) ++ [complete_frame (lit "SELECT " ++ dec (zlen (shown max rows)))]
    end.
Definition cleaned (d : db) (cursor : Z) : db :=
  if auto_clean_tables config then (ydb_delete_s d [cursor_global config; dec cursor]).2 else d.
(** The database after the answer: an empty result cleans nothing up. *)
Definition answered (d : db) (cursor : Z) (rows : list (list (list byte))) : db :=
  match rows with [] => d | _ => cleaned d cursor end.
(** No limit becomes the largest one while the rows are sent, and stays. *)
Definition same_limit (m m' : Z) : Prop := m' = m ∨ m ≤ 0 ∧ m' = INT32_MAX.
Lemma same_limit_trans a b c : same_limit a b → same_limit b c → same_limit a c.
Proof. unfold same_limit. assert (0 < INT32_MAX) by (vm_compute; done). intros [->|[? ->]] [->|[? ->]]; auto; lia. Qed.
Lemma shown_same a b rows : same_limit a b → zlen rows ≤ INT32_MAX → shown b rows = shown a rows.
Proof.
  unfold same_limit, shown. assert (0 < INT32_MAX) by (vm_compute; done). intros [->|[? ->]] Hz; [done|].
  destruct (Z.ltb_spec 0 a); [lia|]. destruct (Z.ltb_spec INT32_MAX (zlen rows)); [lia|]. by rewrite andb_false_r.
Qed.
(** The rest of the state, which answering leaves alone. *)
Definition same_rest (s s' : query_state) : Prop :=
  qs_input s' = qs_input s ∧ qs_errors s' = qs_errors s ∧ qs_prev_gbldir s' = qs_prev_gbldir s ∧
  same_limit (max_data_to_send (qs_parms s)) (max_data_to_send (qs_parms s')).

Lemma get_q_spec node v s : ydb_get_s (qs_db s) node MAX_STR_CONST = (YDB_OK, v) → get_q node s = Ret (Some v, s).
Proof. intros E. unfold get_q. rewrite E, decide_False by (intros [?|?]; done). by rewrite check_ok. Qed.
Lemma clean_cursor_spec cursor s : clean_cursor config cursor s = Ret ((), with_db (cleaned (qs_db s) cursor) s).
Proof. unfold clean_cursor, cleaned. destruct (auto_clean_tables config); [done|]. by destruct s. Qed.
Lemma complete_message n : ∃ m, complete (lit "SELECT " ++ dec n) = Ret m ∧ wire m = Ret (complete_frame (lit "SELECT " ++ dec n)).
Proof.
  destruct (select_tag n) as [Hn Hz]. destruct (make_command_complete_spec (Some (lit "SELECT " ++ dec n))) as (m & Em & Hw).
  { cbn [default from_option id]. rewrite cstr_id by done. unfold small. zlia. }
  exists m. split; [done|]. cbn [default from_option id] in Hw. by rewrite cstr_id in Hw.
Qed.
Lemma free_chunks_spec s : qs_chunk s = LiveChunk → free_chunks s = Ret ((), with_chunk NoChunk (with_chunk FreedChunk s)).
Proof. intros E. unfold free_chunks, octo_cfree_q. by rewrite E. Qed.

Lemma respond_rows_spec s cursor f key cols rows :
  result_set (qs_db s) cursor f key cols rows → qs_chunk s = LiveChunk →
  ∃ s', respond_rows config mem fuel cursor f s = Ret ((), s') ∧ same_rest s s' ∧
    qs_sent s' = qs_sent s ++ select_frames cols (max_data_to_send (qs_parms s)) rows ∧
    qs_db s' = answered (qs_db s) cursor rows ∧ data_sent (qs_parms s') = true.
Proof.
  intros [Hcols Hsm Hkey Hrows Hcount [Hf1 Hf2]] Hch. unfold respond_rows, mark_sent, set_parms. rewrite q_state, q_gets. cbn [qs_db with_parms].
  erewrite q_bind by (apply send_q_spec; by apply plan_description_spec).
  erewrite q_bind by (apply get_q_spec; exact Hkey). cbv beta iota. rewrite q_gets. cbn [qs_db with_parms send]. rewrite next_first.
  destruct (subscripts _ (row_node _ _ _)) as [|r rest] eqn:Es; destruct rows as [|row rows]; try by inversion Hrows.
  all: cbv beta iota.
  { rewrite decide_True by done. eexists. split; [reflexivity|]. unfold same_rest, same_limit. cbn. split_and!; auto. }
  rewrite decide_False by done. erewrite q_lift by apply check_ok. rewrite q_state, q_gets. cbn [qs_parms with_parms send].
  cbn [max_data_to_send data_sent].
  set (max := max_data_to_send (qs_parms s)) in *.
  destruct (shown_limit max (row :: rows) Hcount) as (Hleft & Htake & Hmin).
  match goal with |- context [send_rows _ _ _ _ _ _ (max_data_to_send ?q) _] =>
    assert (Hq : max_data_to_send q = if max <=? 0 then INT32_MAX else max) by (by destruct (max <=? 0)) end.
  rewrite Hq. pose proof (Forall2_length Hrows) as Hlen.
  erewrite q_bind; [|eapply (send_rows_spec (qs_db s) _ _ _ _ Hrows _ _ []); [reflexivity|done|done|done|lia|lia]].
  rewrite Htake, Hmin. erewrite q_bind by apply clean_cursor_spec.
  erewrite q_bind by (apply send_q_spec; apply complete_message). rewrite free_chunks_spec by done.
  eexists. split; [reflexivity|]. unfold same_rest, select_frames. cbn. rewrite <- !app_assoc. fold max. split_and!; try by destruct (max <=? 0).
  unfold same_limit. destruct (Z.leb_spec max 0); auto.
Qed.

(** ** Running one SELECT *)
Definition is_select (st : SqlStatement) : Prop :=
  match st with table_alias_STATEMENT _ _ _ _ _ | set_operation_STATEMENT _ _ _ => True | _ => False end.
(** How the plan comes to be there: it was, another process made it while this one waited
    for the lock, or it is made now; with what is written to [err_buffer] and logged. *)
Inductive planned (p : parsed) (f : list byte) : db → db → list byte → list log_entry → Prop :=
  | plan_found d : access d f = true → planned p f d d [] []
  | plan_by_other d : access d f = false → access (ydb_lock_incr_s d (file_lock f)) f = true →
      planned p f d (ydb_lock_decr_s (ydb_lock_incr_s d (file_lock f)) (file_lock f)) [] []
  | plan_made d d' w lg : access d f = false → access (ydb_lock_incr_s d (file_lock f)) f = false →
      emit_select_statement p f (ydb_lock_incr_s d (file_lock f)) = Ret (true, w, lg, d') → Forall not_fatal lg →
      planned p f d (ydb_lock_decr_s d' (file_lock f)) w lg.
Abbreviation logs := (log_frames (record_error_level config)).
Lemma log_q_spec lg s : Forall not_fatal lg → log_q config lg s = Ret ((), send (logs lg) s).
Proof. intros HF. unfold log_q. by erewrite q_lift by (by apply octo_logs_spec). Qed.
Lemma make_plan_spec p f made d w lg s : emit_select_statement p f (qs_db s) = Ret (made, w, lg, d) → Forall not_fatal lg →
  make_plan config p f s = Ret (made, with_errors (qs_errors s ++ w) (with_db d (send (logs lg) s))).
Proof. intros E HF. unfold make_plan. rewrite E. cbn [mbind outcome_bind]. by rewrite log_q_spec. Qed.
Lemma ensure_plan_spec p f d d' w lg s : planned p f d d' w lg → qs_db s = d →
  ensure_plan config p f s = Ret (true, with_errors (qs_errors s ++ w) (with_db d' (send (logs lg) s))).
Proof.
  intros Hp Hd. unfold ensure_plan. rewrite q_gets, Hd. destruct Hp as [d E|d E1 E2|d d' w lg E1 E2 E3 HF].
  - rewrite E. unfold send. cbn. rewrite !app_nil_r. rewrite <- Hd. by destruct s.
  - rewrite E1. unfold run_db. rewrite q_state, q_gets. cbn [qs_db with_db]. rewrite Hd, E2.
    erewrite q_bind by reflexivity. cbv iota. rewrite q_state. unfold send, with_errors, with_db. cbn. by rewrite !app_nil_r.
  - rewrite E1. unfold run_db. rewrite q_state, q_gets. cbn [qs_db with_db]. rewrite Hd, E2.
    erewrite q_bind by (apply make_plan_spec; [exact E3|done]). cbv iota. rewrite q_state. done.
Qed.

Lemma ensure_plan_fails p f d w lg s : access (qs_db s) f = false → access (ydb_lock_incr_s (qs_db s) (file_lock f)) f = false →
  emit_select_statement p f (ydb_lock_incr_s (qs_db s) (file_lock f)) = Ret (false, w, lg, d) → Forall not_fatal lg →
  ensure_plan config p f s = Ret (false, with_errors (qs_errors s ++ w) (with_db d (send (logs lg) s))).
Proof.
  intros E1 E2 E3 HF. unfold ensure_plan. rewrite q_gets, E1. unfold run_db. rewrite q_state, q_gets. cbn [qs_db with_db]. rewrite E2.
  by erewrite q_bind by (apply make_plan_spec; [exact E3|done]).
Qed.

(** Planning and calling: from the database after parsing to the one with the result; [g] is
    the global directory to call in, [g'] the one found after the call. *)
Inductive executes (p : parsed) (g : list byte) (d : db) : db → Z → list byte → list byte → list log_entry → list byte → Prop :=
  | executes_plan d1 id routine file d2 w lg d3 d4 g' d' :
      ydb_incr_s d [schema_global config] = (YDB_OK, d1, id) →
      plan_name config mem routine_name_room p = Ret (routine, file) →
      planned p (cut file) d1 d2 w lg →
      ydb_set_s d2 [lit_gbldir] g = (YDB_OK, d3) →
      ydb_ci d3 (atol id) (cut file) routine = (YDB_OK, d4) →
      ydb_get_s d4 [lit_gbldir] MAX_STR_CONST = (YDB_OK, g') →
      ydb_set_s d4 [lit_gbldir] (octo_gbldir config) = (YDB_OK, d') →
      executes p g d d' (s32 (atol id)) (cut file) w lg g'.
Lemma set_q_spec node v d s : ydb_set_s (qs_db s) node v = (YDB_OK, d) → set_q node v s = Ret ((), with_db d s).
Proof. intros E. unfold set_q. by rewrite E. Qed.
Abbreviation running := (run config session mem routine_name_room depth fuel).

Lemma run_select_spec s s1 p d' cursor f w lg g key cols rows :
  parse_q config (with_chunk LiveChunk s) = Ret (Some p, s1) → qs_chunk s1 = LiveChunk →
  dry_run config = false → is_select (ps_statement p) →
  executes p (qs_prev_gbldir s1) (qs_db s1) d' cursor f w lg g → result_set d' cursor f key cols rows →
  ∃ s', running s = Ret (true, s') ∧ qs_input s' = qs_input s1 ∧ qs_errors s' = qs_errors s1 ++ w ∧ qs_prev_gbldir s' = g ∧
    same_limit (max_data_to_send (qs_parms s1)) (max_data_to_send (qs_parms s')) ∧
    qs_sent s' = qs_sent s1 ++ logs lg ++ select_frames cols (max_data_to_send (qs_parms s1)) rows ∧
    qs_db s' = answered d' cursor rows ∧ data_sent (qs_parms s') = true.
Proof.
  intros Hparse Hch Hdry Hsel Hex Hrs. destruct Hex as [d1 id routine file d2 w lg d3 d4 g' d' Hincr Hname Hplan Hset3 Hci Hget Hset].
  unfold run, run_query, alloc_chunk_q. rewrite q_state. erewrite q_bind by exact Hparse. cbv beta iota.
  set (st := set_state (with_chunk NoChunk)). rewrite Hdry.
  set (s2 := with_errors (qs_errors s1 ++ w) (with_db d2 (send (logs lg) (with_db d1 s1)))).
  assert (Hrun : ∃ s', run_select config mem routine_name_room (handle_query_response config session mem fuel) p id (with_db d1 s1) = Ret (true, s') ∧
    same_rest (with_prev_gbldir g' s2) s' ∧ qs_sent s' = qs_sent s1 ++ logs lg ++ select_frames cols (max_data_to_send (qs_parms s1)) rows ∧
    qs_db s' = answered d' (s32 (atol id)) rows ∧ data_sent (qs_parms s') = true).
  { unfold run_select. erewrite q_lift by exact Hname. cbv beta iota zeta.
    erewrite q_bind by (apply (ensure_plan_spec p _ d1 d2 w lg); done). fold s2. cbv iota.
    unfold switch_from_octo at 1. erewrite q_bind by (rewrite q_gets; apply set_q_spec; exact Hset3).
    erewrite q_bind by (unfold call_plan; cbn [qs_db with_db]; rewrite Hci; reflexivity).
    erewrite q_bind by (unfold switch_to_octo; cbn [qs_db with_db]; rewrite Hget, check_ok; cbn [mbind outcome_bind];
      apply set_q_spec; exact Hset).
    match goal with |- context [_ ?s3 = Ret (true, _)] => destruct (respond_rows_spec s3 (s32 (atol id)) (cut file) key cols rows) as (s' & Er & Hr) end;
      [exact Hrs|done|].
    exists s'. split; [|rewrite app_assoc; exact Hr].
    assert (Hh : handle_query_response config session mem fuel p (s32 (atol id)) (Some (cut file)) = respond_rows config mem fuel (s32 (atol id)) (cut file))
      by (unfold handle_query_response; by destruct (ps_statement p)).
    rewrite Hh. by erewrite q_bind by exact Er. }
  destruct Hrun as (s' & Er & (Hi & He & Hg & Hl) & Hs & Hd & Hds). exists s'. split; [|by split_and!].
  destruct (ps_statement p); try done; cbv beta iota zeta; cbn [orb];
    (erewrite q_bind by (unfold next_cursor; rewrite Hincr; reflexivity)); by erewrite q_bind by exact Er.
Qed.
End select.
