(* ===== verification/AnswerTheorems.v ===== *)
(** * From the text of a message to its answer

    How the statements of a text run one after the other ([statements]), that the
    handlers answer with exactly their messages, and a Query message from the bytes on the
    network to ReadyForQuery. *)
From stdpp Require Import gmap strings.
From S2P Require Import Prelude CMem Errors Frontend FrontendSpec Logging FrontendTheorems Backend BackendTheorems LogicalPlan SqlStatement RoutineName SocketIO SocketTheorems Deserialize Session SessionTheorems MainLoop MainLoopTheorems Connection ConnectionTheorems Compress CreateTable QueryInput RunQuery Handlers HandlerTheorems SelectTheorems.

(** ** The input *)
Lemma string_at_drop k : ∀ b p text, 0 ≤ p → string_at b p = Ret text → (k ≤ length text)%nat →
  string_at b (p + Z.of_nat k) = Ret (drop k text).
Proof.
  induction k as [|k IH]; intros b p text Hp E Hk; [by rewrite Z.add_0_r|].
  destruct text as [|c text]; [cbn in Hk; lia|]. destruct (string_at_step _ _ _ _ E) as (_ & _ & E').
  replace (p + Z.of_nat (S k)) with (p + 1 + Z.of_nat k) by lia. apply IH; [lia|done|cbn in Hk; lia].
Qed.
Lemma fill_input_spec mem text : no_nul text → zlen text < MAX_STR_CONST →
  ∃ i, fill_input mem text = Ret i ∧ pending i text ∧ in_eof i = false ∧ string_at (in_buffer i) 0 = Ret text.
Proof.
  intros Hn Hz. unfold fill_input. set (b := malloc mem MAX_STR_CONST). set (k := length text).
  assert (Hb : zlen b = MAX_STR_CONST) by apply zlen_buffer.
  destruct (drop k b) as [|x post] eqn:Ed.
  { apply (f_equal zlen) in Ed. rewrite zlen_drop in Ed. unfold zlen in *. cbn in Ed. lia. }
  rewrite (store_bytes_app_eq b 0 [] (take k b) (x :: post)).
  - cbn [mbind outcome_bind app]. rewrite (store8_app_eq _ _ text x nul post) by done. cbn [mbind outcome_bind].
    eexists. split; [reflexivity|]. assert (E : string_at (text ++ nul :: post) 0 = Ret text) by (by apply (string_at_app _ [] text post)).
    split; [split; [cbn [in_index]; lia|exact E]|]. split; [reflexivity|exact E].
  - cbn [app]. by rewrite <- Ed, take_drop.
  - done.
  - unfold zlen in *. rewrite length_take. lia.
Qed.

(** What is left of the text after a parse that took [n] characters: the last one is given
    back when the parse succeeded. *)
Definition left_over (status : Z) (n : nat) (text : list byte) : list byte :=
  if status =? 0 then drop (n - 1) text else drop n text.
Definition parse_result (status : Z) (p : parsed) : option parsed :=
  if negb (status =? 0) then None else if is_null_stmt (ps_statement p) then None else Some p.
(** The entries of the log: those of the parser, and the error of a text it refused. *)
Definition parse_logged (whole : list byte) (status : Z) (lg : list log_entry) : list log_entry :=
  if status =? 0 then lg else lg ++ [parsing_failed whole].
Definition parse_state `{YottaDB} (s : query_state) (d : db) (w : list byte) (logs : list (list byte)) (i : input) : query_state :=
  {| qs_db := d; qs_input := i; qs_errors := qs_errors s ++ w; qs_chunk := qs_chunk s;
     qs_prev_gbldir := qs_prev_gbldir s; qs_parms := qs_parms s; qs_sent := qs_sent s ++ logs |}.
Lemma not_fatal_parse whole status lg : Forall not_fatal lg → Forall not_fatal (parse_logged whole status lg).
Proof. intros HF. unfold parse_logged. case_match; [done|]. apply Forall_app. split; [done|]. by repeat constructor. Qed.
Lemma parse_spec `{QueryRuntime} config s text whole n e status p w lg d :
  pending (qs_input s) text → in_eof (qs_input s) = false → string_at (in_buffer (qs_input s)) 0 = Ret whole →
  takes (yyparse (qs_db s)) text false = (n, e, (status, p, w, lg, d)) → Forall not_fatal lg →
  ∃ i, parse_q config s = Ret (parse_result status p,
         parse_state s d w (log_frames (record_error_level config) (parse_logged whole status lg)) i) ∧
    in_buffer i = in_buffer (qs_input s) ∧ in_eof i = e ∧ (n ≤ length text)%nat ∧
    ((status = 0 → (1 ≤ n)%nat) → pending i (left_over status n text)).
Proof.
  intros Hp He Hwhole Ht HF. pose proof (yyparse_on_takes (yyparse (qs_db s)) _ _ Hp) as Hy. rewrite He, Ht in Hy.
  destruct Hy as (i & Ei & Hb & Hx & Heof & Hpi & Hl). unfold parse_q, parse_line. rewrite Ei.
  cbn [mbind outcome_bind]. pose proof (not_fatal_parse whole status lg HF) as HF'. unfold left_over, parse_result, parse_logged in *.
  destruct (Z.eqb_spec status 0) as [->|Hs]; cbn [negb].
  2: { exists i. rewrite Hb, Hwhole. cbn [mbind outcome_bind]. rewrite log_q_spec by done. by split_and!. }
  cbn [mbind outcome_bind]. rewrite log_q_spec by done. cbn [mbind outcome_bind].
  destruct Hp as [Hp0 Hp]. eexists. split; [reflexivity|]. split_and!; [done..|]. intros Hn. specialize (Hn eq_refl).
  rewrite (proj2 (Z.ltb_lt 0 (in_index i))) by lia. split; cbn; [lia|].
  replace (in_index i - 1) with (in_index (qs_input s) + Z.of_nat (n - 1)) by lia. rewrite Hb. apply string_at_drop; [done..|lia].
Qed.

(** ** The statements of a text *)
Definition syntax_error_frame (text : list byte) : list byte :=
  frame PSQL_ErrorResponse (error_payload (error_fields PSQL_Error_ERROR PSQL_Code_Syntax_Error text [])) [].
Definition error_fits (text : list byte) : Prop :=
  zlen (error_payload (error_fields PSQL_Error_ERROR PSQL_Code_Syntax_Error text [])) + 4 < 2 ^ 32.

Section statements.
Context `{QueryRuntime} `{!YottaDBNodes} `{!YottaDBNodesLaws} (config : QueryConfig) (session : RoctoSession) (mem : nat → byte).
Context (routine_name_room : Z) (depth fuel : nat) (prev_gbldir : list byte).
(** Whether the text is that of an Execute, and the rows it allows (0 in a Query). *)
Context (executing : bool) (max : Z).
(** The whole text of the message. *)
Context (whole : list byte).
Abbreviation logs := (log_frames (record_error_level config)).

(** What follows the messages of a statement: the error of one that failed, left out by an
    Execute at the end of the text; and the EmptyQueryResponse of an Execute without rows. *)
Definition closing (ok eof rows_sent : bool) (errors : list byte) : list (list byte) :=
  (if ok || executing && eof then [] else [syntax_error_frame errors]) ++
  (if executing && negb rows_sent then [empty_query_frame] else []).

(** The statements that are accepted and not carried out, and the feature they are told is missing. *)
Definition missing_feature (st : SqlStatement) : option string :=
  match st with
  | insert_STATEMENT _ => Some "table inserts"%string
  | begin_STATEMENT | commit_STATEMENT => Some "transactions"%string
  | _ => None
  end.
Definition not_implemented (feature : string) : log_entry :=
  {| log_level := WARNING; log_error := ERR_FEATURE_NOT_IMPLEMENTED; log_args := [AStr (lit feature)] |}.

(** [statements e d g errs text n msgs d']: with the end of the input seen or not, the
    database [d], the directory [g] to call plans in, and [errs] in the error buffer, the
    [n] statements of [text] are answered with [msgs] and leave [d'].  Before the answer to a
    statement come the entries logged while it was parsed and planned.  A SELECT is answered
    with its result, or, when no plan can be made for it, with nothing; INSERT, BEGIN and
    COMMIT with a notice. *)
Inductive statements : bool → db → list byte → list byte → list byte → nat → list (list byte) → db → Prop :=
  | st_end d g errs text : statements true d g errs text 0 [] d
  | st_select d g errs text n e p w lg d1 d2 cursor f w' lg' g' key cols rows k msgs d' :
      takes (yyparse d) text false = (n, e, (0, p, w, lg, d1)) → Forall not_fatal lg → (1 ≤ n)%nat → is_select (ps_statement p) →
      executes config mem routine_name_room p g d1 d2 cursor f w' lg' g' →
      result_set config fuel d2 cursor f key cols rows →
      statements e (answered config d2 cursor rows) g' (errs ++ w ++ w') (left_over 0 n text) k msgs d' →
      statements false d g errs text (S k) (logs (lg ++ lg') ++ select_frames cols max rows ++ msgs) d'
  | st_set d g errs text n e p w lg d1 d2 id variable value var val d3 k msgs d' :
      takes (yyparse d) text false = (n, e, (0, p, w, lg, d1)) → Forall not_fatal lg → (1 ≤ n)%nat → ps_statement p = set_STATEMENT variable value →
      ydb_incr_s d1 [schema_global config] = (YDB_OK, d2, id) →
      unpack_value (ps_values p) variable = Ret var → unpack_value (ps_values p) value = Ret val →
      ydb_set_s d2 (session_node session "variables" (cstr (sv_literal var))) (ydb_buffer (cstr (sv_literal val))) = (YDB_OK, d3) →
      statements e d3 g (errs ++ w) (left_over 0 n text) k msgs d' →
      statements false d g errs text (S k) (logs lg ++ (complete_frame (lit "SET") :: closing true e false []) ++ msgs) d'
  | st_unplanned d g errs text n e p w lg d1 d2 id routine file w' lg' d3 k msgs d' :
      takes (yyparse d) text false = (n, e, (0, p, w, lg, d1)) → Forall not_fatal lg → (1 ≤ n)%nat → is_select (ps_statement p) →
      ydb_incr_s d1 [schema_global config] = (YDB_OK, d2, id) →
      plan_name config mem routine_name_room p = Ret (routine, file) → access d2 (cut file) = false →
      access (ydb_lock_incr_s d2 (file_lock (cut file))) (cut file) = false →
      emit_select_statement p (cut file) (ydb_lock_incr_s d2 (file_lock (cut file))) = Ret (false, w', lg', d3) → Forall not_fatal lg' →
      statements e (ydb_lock_decr_s d3 (file_lock (cut file))) g (errs ++ w ++ w') (left_over 0 n text) k msgs d' →
      statements false d g errs text (S k) (logs (lg ++ lg') ++ closing true e false [] ++ msgs) d'
  | st_nothing d g errs text n e p w lg d1 d2 id feature k msgs d' :
      takes (yyparse d) text false = (n, e, (0, p, w, lg, d1)) → Forall not_fatal lg → (1 ≤ n)%nat → missing_feature (ps_statement p) = Some feature →
      ydb_incr_s d1 [schema_global config] = (YDB_OK, d2, id) →
      statements e d2 g (errs ++ w) (left_over 0 n text) k msgs d' →
      statements false d g errs text (S k) (logs (lg ++ [not_implemented feature]) ++ closing true e false [] ++ msgs) d'
  | st_blank d g errs text n e p w lg d1 k msgs d' :
      takes (yyparse d) text false = (n, e, (0, p, w, lg, d1)) → Forall not_fatal lg → (1 ≤ n)%nat → ps_statement p = no_data_STATEMENT →
      statements e d1 g (errs ++ w) (left_over 0 n text) k msgs d' →
      statements false d g errs text (S k) (logs lg ++ closing true e false [] ++ msgs) d'
  | st_error d g errs text n e status p w lg d1 k msgs d' :
      takes (yyparse d) text false = (n, e, (status, p, w, lg, d1)) → Forall not_fatal lg → status ≠ 0 → error_fits (errs ++ w) →
      statements e d1 g (if executing && e then errs ++ w else []) (left_over status n text) k msgs d' →
      statements false d g errs text (S k) (logs (lg ++ [parsing_failed whole]) ++ closing false e false (errs ++ w) ++ msgs) d'.

(** The state the relation stands for. *)
Definition at_text (s : query_state) (e : bool) (d : db) (g errs text : list byte) : Prop :=
  qs_db s = d ∧ qs_prev_gbldir s = g ∧ qs_errors s = errs ∧ pending (qs_input s) text ∧ in_eof (qs_input s) = e ∧
  string_at (in_buffer (qs_input s)) 0 = Ret whole ∧ same_limit max (max_data_to_send (qs_parms s)).
Abbreviation running := (run config session mem routine_name_room depth fuel).
Definition ran (s : query_state) (ok e : bool) (d : db) (g errs text : list byte) (rows_sent : bool) (msgs : list (list byte)) : Prop :=
  ∃ s', running s = Ret (ok, s') ∧ at_text s' e d g errs text ∧ qs_sent s' = qs_sent s ++ msgs ∧
    data_sent (qs_parms s') = data_sent (qs_parms s) || rows_sent.
Definition turn : Q () :=
  if executing then execute_turn config session mem routine_name_room depth fuel
  else query_turn config session mem routine_name_room depth fuel.

Lemma send_syntax_error_spec s : error_fits (qs_errors s) →
  send_syntax_error s = Ret ((), with_errors [] (send [syntax_error_frame (qs_errors s)] s)).
Proof.
  intros Hf. destruct (make_error_response_spec _ _ _ _ Hf) as (err & E & Ht & Hd & Hl).
  unfold send_syntax_error. rewrite q_gets. erewrite q_lift by exact E. rewrite q_state.
  unfold error_wire. rewrite Hl, le32_htonl, Ht, Hd. unfold syntax_error_frame, frame, header. by rewrite app_nil_r.
Qed.

Lemma turn_spec s ok e d g errs text d0 g0 errs0 text0 rows_sent msgs :
  (∀ s, at_text s false d0 g0 errs0 text0 → ran s ok e d g errs text rows_sent msgs) →
  (ok = false → error_fits errs) → at_text s false d0 g0 errs0 text0 →
  ∃ s', turn s = Ret ((), s') ∧ at_text s' e d g (if ok || executing && e then errs else []) text ∧
    qs_sent s' = qs_sent s ++ msgs ++ closing ok e rows_sent errs.
Proof.
  intros Hran Herr Hs. unfold turn, closing. destruct executing; cbn [andb].
  - unfold execute_turn, set_data_sent, set_parms. rewrite q_state.
    match goal with |- context [_ ?s0 = Ret _] => destruct (Hran s0 Hs) as (s1 & E1 & Hat & S1 & F1) end.
    cbn in S1, F1. erewrite q_bind by exact E1. unfold at_end. rewrite q_gets.
    pose proof Hat as (Hd & Hg & He & Hp & Heof & Hwh & Hl). cbn [compose]. rewrite Heof.
    destruct (ok || e) eqn:Eo.
    + replace (negb ok && negb e) with false by (by destruct ok, e). erewrite q_bind by reflexivity. rewrite q_gets, F1.
      destruct rows_sent; eexists; (split; [reflexivity|]); (split; [done|]); cbn; rewrite S1, ?app_nil_r, ?app_assoc; done.
    + replace (negb ok && negb e) with true by (by destruct ok, e). erewrite q_bind by (apply send_syntax_error_spec; rewrite He; apply Herr; by destruct ok).
      rewrite q_gets. cbn [qs_parms with_errors send]. rewrite F1, He.
      destruct rows_sent; eexists; (split; [reflexivity|]); (split; [done|]); cbn; rewrite S1, ?app_nil_r, <- ?app_assoc; done.
  - destruct (Hran s Hs) as (s1 & E1 & Hat & S1 & F1). unfold query_turn. erewrite q_bind by exact E1.
    pose proof Hat as (Hd & Hg & He & Hp & Heof & Hwh & Hl). rewrite orb_false_r. destruct ok.
    + eexists. split; [reflexivity|]. split; [done|]. by rewrite S1, !app_nil_r.
    + rewrite send_syntax_error_spec by (rewrite He; by apply Herr). eexists. split; [reflexivity|]. split; [done|].
      cbn. by rewrite S1, He, <- app_assoc.
Qed.

(** *** Each kind of statement *)
Lemma limit_refl s e d g errs text : at_text s e d g errs text → same_limit max (max_data_to_send (qs_parms s)).
Proof. by intros (_ & _ & _ & _ & _ & _ & ?). Qed.
Lemma parse_at s d g errs text n e status p w lg d1 :
  at_text s false d g errs text → takes (yyparse d) text false = (n, e, (status, p, w, lg, d1)) → Forall not_fatal lg →
  (status = 0 → (1 ≤ n)%nat) →
  ∃ i, parse_q config (with_chunk LiveChunk s) =
      Ret (parse_result status p, parse_state (with_chunk LiveChunk s) d1 w (logs (parse_logged whole status lg)) i) ∧
    pending i (left_over status n text) ∧ in_eof i = e ∧ string_at (in_buffer i) 0 = Ret whole.
Proof.
  intros (Hd & _ & _ & Hp & He & Hwh & _) Ht HF Hn. rewrite <- Hd in Ht.
  destruct (parse_spec config (with_chunk LiveChunk s) _ whole _ _ _ _ _ _ _ Hp He Hwh Ht HF) as (i & Ei & Hb & Hi & _ & Hpend).
  exists i. rewrite Hb. auto.
Qed.

Lemma error_ran s d g errs text n e status p w lg d1 :
  at_text s false d g errs text → takes (yyparse d) text false = (n, e, (status, p, w, lg, d1)) → Forall not_fatal lg → status ≠ 0 →
  ran s false e d1 g (errs ++ w) (left_over status n text) false (logs (lg ++ [parsing_failed whole])).
Proof.
  intros Hs Ht HF Hst. destruct (parse_at _ _ _ _ _ _ _ _ _ _ _ _ Hs Ht HF) as (i & E & Hp & He & Hwh); [done|].
  destruct Hs as (Hd & Hg & Her & _ & _ & _ & Hl). unfold parse_result, parse_logged in E. apply Z.eqb_neq in Hst. rewrite Hst in E.
  eexists. split; [unfold run, run_query, alloc_chunk_q; rewrite q_state; erewrite q_bind by exact E; reflexivity|].
  unfold at_text. cbn. rewrite orb_false_r, Her. by split_and!.
Qed.
Lemma blank_ran s d g errs text n e p w lg d1 :
  at_text s false d g errs text → takes (yyparse d) text false = (n, e, (0, p, w, lg, d1)) → Forall not_fatal lg → (1 ≤ n)%nat →
  ps_statement p = no_data_STATEMENT → ran s true e d1 g (errs ++ w) (left_over 0 n text) false (logs lg).
Proof.
  intros Hs Ht HF Hn Hst. destruct (parse_at _ _ _ _ _ _ _ _ _ _ _ _ Hs Ht HF) as (i & E & Hp & He & Hwh); [done|].
  destruct Hs as (Hd & Hg & Her & _ & _ & _ & Hl). unfold parse_result, parse_logged in E. rewrite Hst in E. cbn [negb Z.eqb is_null_stmt] in E.
  eexists. split; [unfold run, run_query, alloc_chunk_q; rewrite q_state; erewrite q_bind by exact E; cbv beta iota; rewrite Hst, orb_true_r; reflexivity|].
  unfold at_text. cbn. rewrite orb_false_r, Her. by split_and!.
Qed.
Context (not_dry : dry_run config = false).
Lemma select_ran s d g errs text n e p w lg d1 d2 cursor f w' lg' g' key cols rows :
  at_text s false d g errs text → takes (yyparse d) text false = (n, e, (0, p, w, lg, d1)) → Forall not_fatal lg → (1 ≤ n)%nat →
  is_select (ps_statement p) → executes config mem routine_name_room p g d1 d2 cursor f w' lg' g' →
  result_set config fuel d2 cursor f key cols rows →
  ran s true e (answered config d2 cursor rows) g' (errs ++ w ++ w') (left_over 0 n text) true (logs (lg ++ lg') ++ select_frames cols max rows).
Proof.
  intros Hs Ht HF Hn Hst Hex Hrs. destruct (parse_at _ _ _ _ _ _ _ _ _ _ _ _ Hs Ht HF) as (i & E & Hp & He & Hwh); [done|].
  destruct Hs as (Hd & Hg & Her & _ & _ & _ & Hl). unfold parse_result, parse_logged in E.
  replace (is_null_stmt (ps_statement p)) with false in E by (by destruct (ps_statement p)). cbn [negb Z.eqb] in E.
  destruct (run_select_spec config session mem routine_name_room depth fuel s _ p d2 cursor f w' lg' g' key cols rows E)
    as (s' & Er & Hi & Her' & Hg' & Hl' & Hsent & Hdb & Hds); [done..|by rewrite <- Hg in Hex|done|].
  exists s'. split; [done|]. unfold at_text. cbn in *. rewrite Hi, Her', Her, Hg', Hdb, Hds, <- app_assoc, orb_true_r.
  split_and!; try done; [by eapply same_limit_trans|]. rewrite Hsent, log_frames_app, <- !app_assoc. do 2 f_equal. f_equal. unfold select_frames.
  by rewrite (shown_same max _ rows Hl) by (by eapply rs_count).
Qed.
Lemma unplanned_ran s d g errs text n e p w lg d1 d2 id routine file w' lg' d3 :
  at_text s false d g errs text → takes (yyparse d) text false = (n, e, (0, p, w, lg, d1)) → Forall not_fatal lg → (1 ≤ n)%nat →
  is_select (ps_statement p) → ydb_incr_s d1 [schema_global config] = (YDB_OK, d2, id) →
  plan_name config mem routine_name_room p = Ret (routine, file) → access d2 (cut file) = false →
  access (ydb_lock_incr_s d2 (file_lock (cut file))) (cut file) = false →
  emit_select_statement p (cut file) (ydb_lock_incr_s d2 (file_lock (cut file))) = Ret (false, w', lg', d3) → Forall not_fatal lg' →
  ran s true e (ydb_lock_decr_s d3 (file_lock (cut file))) g (errs ++ w ++ w') (left_over 0 n text) false (logs (lg ++ lg')).
Proof.
  intros Hs Ht HF Hn Hst Hincr Hname Ha1 Ha2 Hemit HF'. destruct (parse_at _ _ _ _ _ _ _ _ _ _ _ _ Hs Ht HF) as (i & E & Hp & He & Hwh); [done|].
  destruct Hs as (Hd & Hg & Her & _ & _ & _ & Hl). unfold parse_result, parse_logged in E.
  replace (is_null_stmt (ps_statement p)) with false in E by (by destruct (ps_statement p)). cbn [negb Z.eqb] in E.
  set (s1 := with_db d2 (parse_state (with_chunk LiveChunk s) d1 w (logs lg) i)).
  assert (Hrun : run_select config mem routine_name_room (handle_query_response config session mem fuel) p id s1 =
    Ret (false, with_db (ydb_lock_decr_s d3 (file_lock (cut file))) (with_chunk FreedChunk (with_errors (qs_errors s1 ++ w') (with_db d3 (send (logs lg') s1)))))).
  { unfold run_select. erewrite q_lift by exact Hname. cbv beta iota zeta.
    by erewrite q_bind by (by apply (ensure_plan_fails config p (cut file) d3 w' lg' s1)). }
  match type of Hrun with _ = Ret (_, ?s2) => exists s2 end.
  split; [unfold run, run_query, alloc_chunk_q; rewrite q_state; erewrite q_bind by exact E; cbv beta iota; rewrite not_dry;
    destruct (ps_statement p); try done; cbn [orb]; (erewrite q_bind by (unfold next_cursor; cbn [qs_db parse_state]; rewrite Hincr; reflexivity));
    cbv beta iota zeta; fold s1; erewrite q_bind by exact Hrun; reflexivity|].
  unfold at_text. cbn. rewrite orb_false_r, Her, log_frames_app, <- !app_assoc. by split_and!.
Qed.
Lemma nothing_ran s d g errs text n e p w lg d1 d2 id feature :
  at_text s false d g errs text → takes (yyparse d) text false = (n, e, (0, p, w, lg, d1)) → Forall not_fatal lg → (1 ≤ n)%nat →
  missing_feature (ps_statement p) = Some feature → ydb_incr_s d1 [schema_global config] = (YDB_OK, d2, id) →
  ran s true e d2 g (errs ++ w) (left_over 0 n text) false (logs (lg ++ [not_implemented feature])).
Proof.
  intros Hs Ht HF Hn Hst Hincr. destruct (parse_at _ _ _ _ _ _ _ _ _ _ _ _ Hs Ht HF) as (i & E & Hp & He & Hwh); [done|].
  destruct Hs as (Hd & Hg & Her & _ & _ & _ & Hl). unfold parse_result, parse_logged in E.
  replace (is_null_stmt (ps_statement p)) with false in E by (by destruct (ps_statement p)). cbn [negb Z.eqb] in E.
  exists (with_chunk NoChunk (with_chunk FreedChunk (send (logs [not_implemented feature]) (with_db d2 (parse_state (with_chunk LiveChunk s) d1 w (logs lg) i))))).
  split; [unfold run, run_query, alloc_chunk_q; rewrite q_state; erewrite q_bind by exact E; cbv beta iota; rewrite not_dry;
    destruct (ps_statement p); try done; injection Hst as <-; cbn [orb]; (erewrite q_bind by (unfold next_cursor; cbn [qs_db parse_state]; rewrite Hincr; reflexivity));
    (erewrite q_bind by (apply log_q_spec; repeat constructor; discriminate)); reflexivity|].
  unfold at_text. cbn. rewrite orb_false_r, Her, log_frames_app, <- app_assoc. by split_and!.
Qed.
Lemma set_complete : ∃ m, complete (lit "SET") = Ret m ∧ wire m = Ret (complete_frame (lit "SET")).
Proof. eexists. split; reflexivity. Qed.
Lemma respond_set_spec p c s variable value var val d :
  ps_statement p = set_STATEMENT variable value →
  unpack_value (ps_values p) variable = Ret var → unpack_value (ps_values p) value = Ret val →
  ydb_set_s (qs_db s) (session_node session "variables" (cstr (sv_literal var))) (ydb_buffer (cstr (sv_literal val))) = (YDB_OK, d) →
  handle_query_response config session mem fuel p c None s = Ret ((), send [complete_frame (lit "SET")] (with_db d s)).
Proof.
  intros Hst Hvar Hval Hset. unfold handle_query_response. rewrite Hst. unfold respond_set.
  erewrite q_lift by exact Hval. erewrite q_lift by exact Hvar. erewrite q_bind by (apply set_q_spec; exact Hset).
  apply send_q_spec, set_complete.
Qed.
Lemma set_ran s d g errs text n e p w lg d1 d2 id variable value var val d3 :
  at_text s false d g errs text → takes (yyparse d) text false = (n, e, (0, p, w, lg, d1)) → Forall not_fatal lg → (1 ≤ n)%nat →
  ps_statement p = set_STATEMENT variable value → ydb_incr_s d1 [schema_global config] = (YDB_OK, d2, id) →
  unpack_value (ps_values p) variable = Ret var → unpack_value (ps_values p) value = Ret val →
  ydb_set_s d2 (session_node session "variables" (cstr (sv_literal var))) (ydb_buffer (cstr (sv_literal val))) = (YDB_OK, d3) →
  ran s true e d3 g (errs ++ w) (left_over 0 n text) false (logs lg ++ [complete_frame (lit "SET")]).
Proof.
  intros Hs Ht HF Hn Hst Hincr Hvar Hval Hset. destruct (parse_at _ _ _ _ _ _ _ _ _ _ _ _ Hs Ht HF) as (i & E & Hp & He & Hwh); [done|].
  destruct Hs as (Hd & Hg & Her & _ & _ & _ & Hl). unfold parse_result, parse_logged in E. rewrite Hst in E. cbn [negb Z.eqb is_null_stmt] in E.
  eexists. split.
  - unfold run, run_query, alloc_chunk_q. rewrite q_state. erewrite q_bind by exact E. cbv iota. rewrite Hst, not_dry. cbn [orb].
    erewrite q_bind by (unfold next_cursor; cbn [qs_db parse_state]; rewrite Hincr; reflexivity). cbv zeta iota.
    erewrite q_bind; [|by eapply respond_set_spec]. reflexivity.
  - unfold at_text. cbn. rewrite orb_false_r, Her, <- app_assoc. by split_and!.
Qed.

Lemma statements_run e d g errs text k msgs d' : statements e d g errs text k msgs d' →
  ∀ n s, at_text s e d g errs text → (k ≤ n)%nat →
  if e then msgs = [] ∧ d' = d
  else ∃ s', until_eof n turn s = Ret ((), s') ∧ qs_db s' = d' ∧ qs_sent s' = qs_sent s ++ msgs.
Proof.
  assert (Hnext : ∀ n s s1 e d msgs1 msgs d', turn s = Ret ((), s1) → in_eof (qs_input s1) = e → qs_db s1 = d →
    qs_sent s1 = qs_sent s ++ msgs1 →
    (if e then msgs = [] ∧ d' = d else ∃ s', until_eof n turn s1 = Ret ((), s') ∧ qs_db s' = d' ∧ qs_sent s' = qs_sent s1 ++ msgs) →
    ∀ all, all = msgs1 ++ msgs → ∃ s', until_eof (S n) turn s = Ret ((), s') ∧ qs_db s' = d' ∧ qs_sent s' = qs_sent s ++ all).
  { intros n s s1 e' d0 msgs1 msgs' d0' Et He Hd Hsent Hrest all ->. cbn [until_eof]. erewrite q_bind by exact Et.
    unfold at_end. rewrite q_gets. cbn [compose]. rewrite He. destruct e'.
    - destruct Hrest as [-> ->]. exists s1. rewrite app_nil_r. by split_and!.
    - destruct Hrest as (s' & E' & Hd' & Hs'). exists s'. by rewrite E', Hd', Hs', Hsent, app_assoc. }
  induction 1; intros n0 s Hs Hk; [done|..]; (destruct n0 as [|n0]; [lia|]).
  - eapply (turn_spec _ _ _ _ _ _ _ _ _ _ _ true _) in Hs as (s1 & Et & Hat & Hsent); [|intros; by eapply select_ran|done].
    eapply Hnext; [exact Et|apply Hat|apply Hat| |apply (IHstatements n0 s1 Hat); lia|by rewrite <- app_assoc].
    rewrite Hsent. unfold closing. cbn [orb negb]. by rewrite andb_false_r, !app_nil_r.
  - eapply (turn_spec _ _ _ _ _ _ _ _ _ _ _ false _) in Hs as (s1 & Et & Hat & Hsent); [|intros; by eapply set_ran|done].
    eapply Hnext; [exact Et|apply Hat|apply Hat|exact Hsent|apply (IHstatements n0 s1 Hat); lia|by rewrite <- ?app_assoc].
  - eapply (turn_spec _ _ _ _ _ _ _ _ _ _ _ false _) in Hs as (s1 & Et & Hat & Hsent); [|intros; by eapply unplanned_ran|done].
    eapply Hnext; [exact Et|apply Hat|apply Hat|exact Hsent|apply (IHstatements n0 s1 Hat); lia|by rewrite <- ?app_assoc].
  - eapply (turn_spec _ _ _ _ _ _ _ _ _ _ _ false _) in Hs as (s1 & Et & Hat & Hsent); [|intros; by eapply nothing_ran|done].
    eapply Hnext; [exact Et|apply Hat|apply Hat|exact Hsent|apply (IHstatements n0 s1 Hat); lia|by rewrite <- ?app_assoc].
  - eapply (turn_spec _ _ _ _ _ _ _ _ _ _ _ false _) in Hs as (s1 & Et & Hat & Hsent); [|intros; by eapply blank_ran|done].
    eapply Hnext; [exact Et|apply Hat|apply Hat|exact Hsent|apply (IHstatements n0 s1 Hat); lia|by rewrite <- ?app_assoc].
  - eapply (turn_spec _ _ _ _ _ _ _ _ _ _ _ false _) in Hs as (s1 & Et & Hat & Hsent); [|intros; by eapply error_ran|done].
    eapply Hnext; [exact Et|apply Hat|apply Hat|exact Hsent|apply (IHstatements n0 s1 Hat); lia|by rewrite <- ?app_assoc].
Qed.
End statements.

(** ** The handlers *)
Section handlers.
Context `{QueryRuntime} `{!YottaDBNodes} `{!YottaDBNodesLaws} (config : QueryConfig) (session : RoctoSession) (mem : nat → byte).
Context (room : Z) (depth fuel : nat) (gbldir : list byte) (not_dry : dry_run config = false).

Lemma text_run executing max d text k msgs d' : no_nul text → zlen text < MAX_STR_CONST → (k ≤ fuel)%nat →
  statements config session mem room fuel executing max text false d gbldir [] text k msgs d' →
  (i ← fill_input mem text; answer (until_eof fuel (turn config session mem room depth fuel executing) (initial_state gbldir d i max)))
    = Ret (0, d', msgs).
Proof.
  intros Hn Hz Hk Hst. destruct (fill_input_spec mem text Hn Hz) as (i & -> & Hp & He & Hwh). cbn [mbind outcome_bind].
  destruct (statements_run config session mem room depth fuel executing max text not_dry _ _ _ _ _ _ _ _ Hst fuel (initial_state gbldir d i max))
    as (s' & E & Hd & Hs); [|done|].
  - unfold at_text, same_limit. cbn. split_and!; auto.
  - unfold answer. rewrite E. cbn [mbind outcome_bind]. by rewrite Hd, Hs.
Qed.
Lemma query_answered q d text k msgs d' : string_at (q_data q) (q_query q) = Ret text → text ≠ [] →
  zlen text < MAX_STR_CONST → (k ≤ fuel)%nat →
  statements config session mem room fuel false 0 text false d gbldir [] text k msgs d' →
  handle_query config session mem room depth fuel gbldir q d = Ret (0, d', msgs).
Proof.
  intros Hq Hne Hz Hk Hst. unfold handle_query. rewrite Hq. cbn [mbind outcome_bind].
  destruct (Z.eqb_spec (zlen text) 0) as [E|_]; [by destruct text|]. destruct (Z.ltb_spec MAX_STR_CONST (zlen text)); [lia|].
  apply (text_run false 0 d text k); try done. by eapply string_at_no_nul.
Qed.
Lemma execute_answered x d source text k msgs d' : string_at (x_block x) (x_source x) = Ret source →
  ydb_get_s d (session_node session "bound" source) (MAX_STR_CONST - 1) = (YDB_OK, text) → no_nul text →
  zlen text + 2 ≤ MAX_STR_CONST → (k ≤ fuel)%nat →
  statements config session mem room fuel true (s32 (x_rows_to_return x)) text false d gbldir [] text k msgs d' →
  handle_execute config session mem room depth fuel gbldir x d = Ret (0, d', msgs).
Proof.
  intros Hx Hget Hn Hz Hk Hst. unfold handle_execute. rewrite Hx. cbn [mbind outcome_bind]. rewrite Hget, check_ok.
  cbn [mbind outcome_bind]. rewrite (cstr_id text Hn). destruct (Z.ltb_spec MAX_STR_CONST (zlen text + 2)); [lia|].
  apply (text_run true (s32 (x_rows_to_return x)) d text k); try done. lia.
Qed.
End handlers.

(** ** Over the network *)
Lemma react_query `{QueryHandlers} session mem p q d d' sent :
  read_query (frame PSQL_Query p []) = Ret (Some q, None) →
  MainLoop.handle_query q d = Ret (0, d', sent) → react session mem PSQL_Query p d = Ret (Some true, d', sent).
Proof.
  intros Er Eh. unfold react, dispatch. rewrite load8_frame. cbn [mbind outcome_bind].
  rewrite decide_False, decide_True by done. unfold read_and_handle. rewrite Er. cbn [mbind outcome_bind ls_db].
  by rewrite Eh.
Qed.
Lemma react_execute `{QueryHandlers} session mem p x d d' sent :
  read_execute (frame PSQL_Execute p []) = Ret (Some x, None) →
  MainLoop.handle_execute x d = Ret (0, d', sent) → react session mem PSQL_Execute p d = Ret (Some false, d', sent).
Proof.
  intros Er Eh. unfold react, dispatch. rewrite load8_frame. cbn [mbind outcome_bind].
  rewrite !decide_False, decide_True by done. unfold read_and_handle. rewrite Er. cbn [mbind outcome_bind ls_db].
  by rewrite Eh.
Qed.
Lemma react_sync `{QueryHandlers} session mem p d : react session mem PSQL_Sync p d = Ret (Some true, d, []).
Proof. unfold react, dispatch. rewrite load8_frame. cbn [mbind outcome_bind]. by rewrite !decide_False, decide_True by done. Qed.
Lemma serve_end `{QueryHandlers} session mem i d : serve session mem [i] [] d true = Ret (d, announce i).
Proof. unfold announce. by destruct i. Qed.


(** C5: the extended protocol, end to end, on a server that records nothing below WARNING.  A
    client that prepares a statement, binds it, executes the portal and syncs leaves what its
    statements leave over the expanded text, and got ParseComplete, BindComplete, the entries
    logged and the rows the Execute allowed (its unsigned limit read as a signed one: from
    2^31 on, and at 0, there is none), and after the Sync (not after the Execute)
    ReadyForQuery: what runs is the text bound, with the parameters in it, and not the
    one prepared.  As for a Query, a SELECT needs more than the 31 bytes declared for the
    routine's name. *)
Theorem session_extended_query `{QueryRuntime} `{!YottaDBLaws} `{!YottaDBNodes} `{!YottaDBNodesLaws} config session mem room depth fuel gbldir
    events i1 i2 i3 i4 i5 s pm bm rows d1 d2 t k msgs d' :
  records_warnings config → dry_run config = false → waits events [i1; i2; i3; i4; i5] → steady s → ls_ready s = true →
  wf_parse pm → fits (PSQL_Parse, encode_parse pm) → wf_bind bm → fits (PSQL_Bind, encode_bind bm) →
  0 ≤ rows < 2 ^ 32 → fits (PSQL_Execute, encode_execute (bm_dest bm, rows)) → fits (PSQL_Sync, []) →
  stream (ls_net s) = frames [(PSQL_Parse, encode_parse pm); (PSQL_Bind, encode_bind bm);
                              (PSQL_Execute, encode_execute (bm_dest bm, rows)); (PSQL_Sync, [])] →
  bm_source bm = pm_dest pm → expands bm (pm_query pm) t → no_nul t → zlen t + 2 ≤ MAX_STR_CONST →
  ydb_set_s (ls_db s) (session_node session "prepared" (pm_dest pm)) (pm_query pm) = (YDB_OK, d1) →
  ydb_set_s d1 (session_node session "bound" (bm_dest bm)) t = (YDB_OK, d2) →
  statements config session mem room fuel true (s32 rows) t false d2 gbldir [] t k msgs d' → (k ≤ fuel)%nat →
  @finishes _ (@rocto_main_loop _ (octo_handlers config session mem room depth fuel gbldir) session mem events s) d'
    (ls_sent s ++ announce i1 ++ [frame (chr "1") [] []] ++ announce i2 ++ [frame (chr "2") [] []] ++ announce i3 ++
     msgs ++ announce i5).
Proof.
  intros _ Hdry Hw Hst Hrd Hp Hpf Hb Hbf Hrows Hxf Hsf Hn Hname Hexp Hnt Ht Hset1 Hset2 Hrun Hk.
  assert (Hq : zlen (pm_query pm) < MAX_STR_CONST).
  { destruct Hpf as [_ Hl]. cbn [snd] in Hl. unfold encode_parse in Hl. rewrite !zlen_app, !zlen_cons, !zlen_app in Hl.
    pose proof (zlen_nonneg (pm_dest pm)). rewrite zlen_cons, zlen_app in Hl. zlen_pos. lia. }
  destruct (parse_bind_steps session mem pm bm (ls_db s) d1 d2 t [] [] (MAX_STR_CONST - 1) Hp (proj1 Hpf) Hb (proj1 Hbf) Hname Hq Hexp
    ltac:(lia) ltac:(lia) Hset1 Hset2) as (p & b & Rp & Hhp & Rb & Hhb & Hget).
  pose proof (read_execute_spec (encode_execute (bm_dest bm, rows)) [] (proj1 Hxf)) as Hx.
  rewrite parse_execute_encode in Hx by (done || apply Hb). destruct Hx as (x & Rx & Hsrc & Hxr). cbn [fst snd] in Hsrc, Hxr.
  set (handlers := octo_handlers config session mem room depth fuel gbldir).
  assert (Hx : MainLoop.handle_execute x d2 = Ret (0, d', msgs)).
  { eapply (execute_answered config session mem room depth fuel gbldir Hdry); try done. by rewrite Hxr. }
  eapply (@main_loop_spec _ handlers session mem events _ Hw s); [done| |exact Hn|].
  - repeat constructor; by first [apply Hpf|apply Hbf|apply Hxf|apply Hsf].
  - rewrite Hrd.
    pose proof (serve_react session mem i4 [i5] _ _ [] d' false true d' [] d' _ (react_sync session mem [] d') (serve_end session mem i5 d')) as E4.
    pose proof (serve_react session mem i3 _ _ _ _ d2 true false d' _ d' _ (react_execute session mem _ x _ d' _ Rx Hx) E4) as E3.
    pose proof (serve_react session mem i2 _ _ _ _ d1 true true d2 _ d' _ (react_bind session mem _ b _ d2 _ Rb Hhb) E3) as E2.
    rewrite (serve_react session mem i1 _ _ _ _ _ true true d1 _ d' _ (react_parse session mem _ p _ d1 _ Rp Hhp) E2).
    unfold announce. by destruct i1, i2, i3, i4.
Qed.

(** ** A server to try them on *)
#[local] Existing Instance map_db.
#[local] Existing Instance map_db_laws.
#[local] Existing Instance map_nodes.
#[local] Existing Instance map_nodes_laws.
Abbreviation map_store := (gmap (list (list byte)) (list byte)).
(** Every statement is a query; it ends at a semicolon or at the end of the text. *)
Definition toy_statement (st : SqlStatement) : parsed := {| ps_statement := st; ps_values := ∅; ps_rings := ∅ |}.
Definition toy_select : parsed := toy_statement (set_operation_STATEMENT SET_UNION null_STATEMENT null_STATEMENT).
Fixpoint toy_parser (n : nat) (blank : bool) (d : map_store) : parser map_store :=
  match n with
  | O => Finished 1 toy_select (lit "too long") [] d
  | S n' =>
      Input (λ c, match c with
        | None => EndOfFile (Finished 0 (if blank then toy_statement no_data_STATEMENT else toy_select) [] [] d)
        | Some c => if decide (c = chr ";") then if blank then toy_parser n' true d else Finished 0 toy_select [] [] d
                    else toy_parser n' false d
        end)
  end.
#[local] Instance toy_sql : @SqlParser map_db := {| yyparse := toy_parser 40 true |}.

Definition toy_octo : list byte := lit "^%ydboctoocto".
Definition toy_column (f : list byte) : list (list (list byte) * list byte) :=
  let node field := [toy_octo; lit "plan_metadata"; f; lit "output_columns"; lit "1"; lit field] in
  [(node "name"%string, lit "id"); (node "table_id"%string, lit "0"); (node "column_id"%string, lit "0");
   (node "data_type"%string, lit "25"); (node "data_type_size"%string, lit "-1"); (node "type_modifier"%string, lit "0");
   (node "format_code"%string, lit "0")].
(** A plan has one column; calling it leaves two rows. *)
Definition toy_plan (f : list byte) (d : map_store) : map_store :=
  <[[toy_octo; lit "plan_metadata"; f; lit "output_key"] := lit "1"]> (<[[lit "file"; f] := []]> (list_to_map (toy_column f) ∪ d)).
Definition toy_rows (cursor : Z) (d : map_store) : map_store :=
  let node row := [lit "^c"; dec cursor; lit "keys"; lit "1"; []; []; lit row] in
  <[node "1"%string := lit "7"]> (<[node "2"%string := lit "8"]> (<[[lit_gbldir] := lit "g"]> d)).
#[local] Instance toy_runtime : @QueryRuntime map_db toy_sql :=
  {| digest _ := {| one := 7; two := 9 |};
     emit_select_statement _ f d := Ret (true, [], [], toy_plan f d);
     ydb_ci d cursor _ _ := (YDB_OK, toy_rows cursor d);
     access (d : map_store) f := bool_decide (is_Some (d !! [lit "file"; f]));
     ydb_lock_incr_s d _ := d; ydb_lock_decr_s d _ := d; ydb_delete_s d _ := (YDB_OK, d);
     ydb_data_s _ _ := YDB_OK |}.
Definition toy_config : QueryConfig :=
  {| dry_run := false; tmp_dir := lit "/tmp"; schema_global := lit "^schema"; cursor_global := lit "^c"; octo_global := toy_octo;
     auto_clean_tables := false; octo_gbldir := lit "octo"; record_error_level := WARNING |}.
Definition toy_columns : list RowDescriptionParm :=
  [{| rd_name := lit "id"; rd_table_id := 0; rd_column_id := 0; rd_data_type := 25; rd_data_type_size := -1;
      rd_type_modifier := 0; rd_format_code := 0 |}].
Definition toy_mem : nat → byte := λ _, xff.
Definition toy_name : list byte * list byte :=
  match plan_name toy_config toy_mem 32 toy_select with Ret x => x | _ => ([], []) end.
Definition toy_file : list byte := cut toy_name.2.
(** The database after a SELECT over [d] with cursor 1. *)
Definition toy_after (d : map_store) : map_store :=
  <[[lit_gbldir] := lit "octo"]> (toy_rows 1 (<[[lit_gbldir] := lit "g"]> (toy_plan toy_file (<[[lit "^schema"] := lit "1"]> d)))).
Definition toy_table : list (list (list byte)) := [[lit "8"]; [lit "7"]].
(** The database the SELECT needs nothing from. *)
Definition fresh_db (d : map_store) : Prop :=
  d !! [lit "^schema"] = None ∧ access (<[[lit "^schema"] := lit "1"]> d : @db map_db) toy_file = false.
Lemma toy_executes d : fresh_db d → executes toy_config toy_mem 32 toy_select (lit "g") d (toy_after d) 1 toy_file [] [] (lit "g").
Proof.
  intros [Hd Ha]. set (d1 := <[[lit "^schema"] := lit "1"]> d : map_store).
  change 1 with (s32 (atol (lit "1"))). change toy_file with (cut toy_name.2).
  apply (@executes_plan map_db toy_sql toy_runtime map_nodes toy_config toy_mem 32 toy_select (lit "g") d d1 (lit "1") toy_name.1 toy_name.2 (toy_plan toy_file d1) [] []
    (<[[lit_gbldir] := lit "g"]> (toy_plan toy_file d1) : map_store) (toy_rows 1 (<[[lit_gbldir] := lit "g"]> (toy_plan toy_file d1)))).
  - cbn [ydb_incr_s map_nodes]. unfold map_incr. cbn [schema_global toy_config]. by rewrite Hd.
  - vm_compute. reflexivity.
  - apply (@plan_made map_db toy_sql toy_runtime toy_select (cut toy_name.2) d1 (toy_plan toy_file d1) [] []); [exact Ha|exact Ha|reflexivity|constructor].
  - reflexivity.
  - reflexivity.
  - cbn [ydb_get_s map_db]. unfold map_get, toy_rows. rewrite !lookup_insert_ne by done. by rewrite lookup_insert_eq.
  - reflexivity.
Defined.
Definition toy_state (d : map_store) (ms : list (byte * list byte)) : @loop_state map_db :=
  {| ls_db := d; ls_sent := []; ls_net := whole (frames ms); ls_buffer := malloc (λ _, xff) MAX_STR_CONST; ls_ready := true |}.
Lemma toy_steady d ms : steady (toy_state d ms).
Proof. unfold steady, toy_state. cbn [ls_buffer]. apply zlen_malloc. unfold MAX_STR_CONST. lia. Defined.
Ltac toy_ids :=
  match goal with |- Forall2 ?P ?ids ?l =>
    let v := eval vm_compute in ids in
    let E := fresh in assert (E : ids = v) by (vm_compute; reflexivity); rewrite E; clear E end.
Ltac toy_result :=
  split; [toy_ids; apply Forall2_cons; [vm_compute; reflexivity|apply Forall2_nil]
         |vm_compute; reflexivity|vm_compute; reflexivity| |vm_compute; discriminate|split; vm_compute; lia];
  toy_ids; unfold toy_table; repeat apply Forall2_cons; [..|apply Forall2_nil]; cbv beta;
  (split; [vm_compute; reflexivity|]); (split; [discriminate|]); (split; [|vm_compute; reflexivity]);
  (apply Forall_cons_2; [|constructor]); split; eval_decide.
Lemma toy_rows_first : result_set toy_config 5 (toy_after ∅) 1 toy_file (lit "1") toy_columns toy_table.
Proof. toy_result. Defined.
Lemma toy_rows_bound : result_set toy_config 5 (toy_after sample_db) 1 toy_file (lit "1") toy_columns toy_table.
Proof. toy_result. Defined.

Lemma toy_statements : statements toy_config sample_session toy_mem 32 5 false 0 (lit "q;") false (∅ : map_store) (lit "g") [] (lit "q;") 2
  (select_frames toy_columns 0 toy_table ++ []) (toy_after ∅).
Proof.
  change (select_frames toy_columns 0 toy_table ++ []) with (log_frames WARNING ([] ++ []) ++ select_frames toy_columns 0 toy_table ++ []).
  eapply (@st_select map_db toy_sql toy_runtime map_nodes map_nodes_laws toy_config sample_session toy_mem 32 5 false 0 (lit "q;") (∅ : map_store) (lit "g") [] (lit "q;") 2 false toy_select [] []).
  - reflexivity.
  - constructor.
  - lia.
  - exact I.
  - apply toy_executes. split; vm_compute; reflexivity.
  - exact toy_rows_first.
  - apply (@st_blank map_db toy_sql toy_runtime map_nodes map_nodes_laws toy_config sample_session toy_mem 32 5 false 0 (lit "q;") (toy_after ∅) (lit "g") [] (lit ";") 1 true (toy_statement no_data_STATEMENT) [] [] (toy_after ∅) 0 []);
      [reflexivity|constructor|lia|reflexivity|apply st_end].
Defined.
Definition toy_message : Query := {| q_query := 0; q_type := PSQL_Query; q_length := 7; q_data := lit "q;" ++ [nul] |}.
Lemma handlers_answer_witness :
  let r := (0, toy_after ∅ : @db map_db, select_frames toy_columns 0 toy_table ++ []) in
  handle_query toy_config sample_session toy_mem 32 5 5 (lit "g") toy_message empty_db = Ret r ∧
  answers (λ l, l = [empty_query_frame] ∨ query_answer l) (r.1.1, r.2).
Proof.
  cbv zeta.
  assert (E : handle_query toy_config sample_session toy_mem 32 5 5 (lit "g") toy_message empty_db =
    Ret (0, toy_after ∅ : @db map_db, select_frames toy_columns 0 toy_table ++ [])).
  { apply (query_answered toy_config sample_session toy_mem 32 5 5 (lit "g") eq_refl toy_message empty_db (lit "q;") 2);
      [reflexivity|discriminate|vm_compute; reflexivity|lia|exact toy_statements]. }
  split; [exact E|].
  exact (proj1 (handlers_answer toy_config sample_session toy_mem 32 5 5 (lit "g") empty_db ltac:(vm_compute; discriminate)) toy_message _ E).
Defined.


Definition toy_messages : list (byte * list byte) :=
  [(PSQL_Parse, encode_parse sample_parse_msg); (PSQL_Bind, encode_bind sample_bind_msg);
   (PSQL_Execute, encode_execute (lit "p", 1)); (PSQL_Sync, [])].
Definition toy_waits : list select_event := [Idle [Accepts 6]; Pending; Pending; Pending; Idle [Accepts 6]].
Lemma toy_takes d : takes (toy_parser 40 true d) sample_expansion false = (10%nat, true, (0, toy_select, [], [], d)).
Proof. reflexivity. Defined.
Lemma session_extended_query_witness :
  @finishes _ (@rocto_main_loop _ (octo_handlers toy_config sample_session toy_mem 32 5 5 (lit "g")) sample_session toy_mem
      toy_waits (toy_state ∅ toy_messages))
    (toy_after sample_db) ([] ++ [ready_frame] ++ [frame (chr "1") [] []] ++ [] ++ [frame (chr "2") [] []] ++ [] ++
      (select_frames toy_columns 1 toy_table ++ []) ++ [ready_frame]).
Proof.
  apply (@session_extended_query map_db toy_sql toy_runtime map_db_laws map_nodes map_nodes_laws toy_config sample_session toy_mem 32 5 5 (lit "g")
    toy_waits true false false false true (toy_state ∅ toy_messages) sample_parse_msg sample_bind_msg 1 sample_prepared sample_db sample_expansion 1).
  - vm_compute. discriminate.
  - reflexivity.
  - repeat constructor; done.
  - apply toy_steady.
  - reflexivity.
  - exact sample_wf_parse.
  - split; vm_compute; done.
  - exact sample_wf_bind.
  - split; vm_compute; done.
  - lia.
  - split; vm_compute; done.
  - split; vm_compute; done.
  - vm_compute. reflexivity.
  - reflexivity.
  - exact sample_expands.
  - eval_decide.
  - vm_compute. discriminate.
  - reflexivity.
  - reflexivity.
  - change (select_frames toy_columns 1 toy_table ++ []) with (log_frames WARNING ([] ++ []) ++ select_frames toy_columns 1 toy_table ++ []).
    eapply (@st_select map_db toy_sql toy_runtime map_nodes map_nodes_laws toy_config sample_session toy_mem 32 5 true 1 sample_expansion sample_db (lit "g") []
      sample_expansion 10 true toy_select [] [] sample_db).
    + apply toy_takes.
    + constructor.
    + lia.
    + exact I.
    + apply toy_executes. split; vm_compute; reflexivity.
    + exact toy_rows_bound.
    + apply st_end.
  - lia.
Defined.
