(* ===== verification/QueryTermination.v ===== *)
(** * The loop over the statements of a text ends

    [handle_query], [handle_execute] and [handle_describe] go around until the lexer has seen
    the end of the text.  Nothing but the parser moves in the text; when the parser takes
    two characters or more for each statement it accepts (the last is given back) and one
    or more for each it refuses, the turns are at most as many as the characters and one. *)
From stdpp Require Import gmap strings.
From S2P Require Import Prelude CMem Errors Frontend FrontendSpec Logging Backend LogicalPlan SqlStatement RoutineName Deserialize Session SessionTheorems MainLoop Connection ConnectionTheorems Compress CreateTable QueryInput RunQuery Handlers HandlerTheorems SelectTheorems AnswerTheorems.

(** ** What leaves the input alone *)
Create HintDb keeps.
Section keeps.
Context `{YottaDB}.
Definition keeps {A} (m : Q A) : Prop := ∀ s a s', m s = Ret (a, s') → qs_input s' = qs_input s.
Lemma keeps_ret {A} (a : A) : keeps (mret a : Q A).
Proof. by intros s x s' [= _ <-]. Qed.
Lemma keeps_bind {A B} (m : Q A) (k : A → Q B) : keeps m → (∀ a, keeps (k a)) → keeps (m ≫= k).
Proof.
  intros Hm Hk s b s' E. unfold mbind, Q_bind in E. apply bind_ret_inv in E as ([a s1] & E1 & E2).
  rewrite <- (Hm _ _ _ E1). by eapply Hk.
Qed.
Lemma keeps_lift {A} (o : outcome A) : keeps (lift o).
Proof. intros s a s' E. unfold lift in E. by apply bind_ret_inv in E as (x & _ & [= _ <-]). Qed.
Lemma keeps_gets {A} (f : query_state → A) : keeps (gets f).
Proof. by intros s a s' [= _ <-]. Qed.
Lemma keeps_state (f : query_state → query_state) : (∀ s, qs_input (f s) = qs_input s) → keeps (set_state f).
Proof. intros Hf s a s' [= _ <-]. apply Hf. Qed.
Lemma keeps_stuck {A} (o : outcome (A * query_state)) : (∀ x, o ≠ Ret x) → keeps (λ _, o).
Proof. intros Ho s a s' E. by apply Ho in E. Qed.
End keeps.
(** One step: a database call with its check, or a combinator. *)
Ltac keeps_call := intros ? ? ? ?E; repeat case_match; try done;
  repeat (apply bind_ret_inv in E as (? & _ & E); repeat case_match); by injection E as _ <-.
Ltac keeps_step :=
  match goal with
  | |- keeps (mbind _ _) => apply keeps_bind; [|intros]
  | |- keeps (mret _) => apply keeps_ret
  | |- keeps (lift _) => apply keeps_lift
  | |- keeps (gets _) => apply keeps_gets
  | |- keeps (set_state _) => apply keeps_state; reflexivity
  | |- keeps (λ _, NoFuel) => apply keeps_stuck; done
  | |- keeps (match ?x with _ => _ end) => destruct x
  | |- keeps (let _ := _ in _) => cbv zeta
  end.

Section handlers.
Context `{QueryRuntime} `{!YottaDBNodes} (config : QueryConfig) (session : RoctoSession) (mem : nat → byte).
Context (room : Z) (depth fuel : nat).
Lemma keeps_send m : keeps (send_q m). Proof. unfold send_q. repeat keeps_step. Qed.
Lemma keeps_cfree : keeps octo_cfree_q. Proof. unfold octo_cfree_q. keeps_call. Qed.
Lemma keeps_set node v : keeps (set_q node v). Proof. unfold set_q. keeps_call. Qed.
Lemma keeps_get node : keeps (get_q node). Proof. unfold get_q. keeps_call. Qed.
Lemma keeps_delete node : keeps (delete_q node). Proof. unfold delete_q. keeps_call. Qed.
Lemma keeps_cursor : keeps (next_cursor config). Proof. unfold next_cursor. keeps_call. Qed.
Lemma keeps_call_plan c f r : keeps (call_plan c f r). Proof. unfold call_plan. keeps_call. Qed.
Lemma keeps_log ls : keeps (log_q config ls). Proof. unfold log_q. repeat keeps_step. Qed.
Lemma keeps_make_plan p f : keeps (make_plan config p f).
Proof.
  intros s a s' E. unfold make_plan in E. apply bind_ret_inv in E as ([[[made w] lg] d] & _ & E).
  apply bind_ret_inv in E as ([u s1] & E1 & [= _ <-]). by apply keeps_log in E1.
Qed.
Lemma keeps_catalogue p t c : keeps (enter_catalogue config mem p t c). Proof. unfold enter_catalogue. keeps_call. Qed.
Lemma keeps_switch_to : keeps (switch_to_octo config).
Proof.
  intros s a s' E. unfold switch_to_octo in E. case_match. apply bind_ret_inv in E as (? & _ & E). by apply keeps_set in E.
Qed.
Hint Resolve keeps_log keeps_send keeps_cfree keeps_set keeps_get keeps_delete keeps_cursor keeps_call_plan keeps_make_plan
  keeps_catalogue keeps_switch_to : keeps.
Ltac keeps_all := repeat first [keeps_step | solve [auto 2 with keeps]].

Lemma keeps_ensure p f : keeps (ensure_plan config p f). Proof. unfold ensure_plan, run_db. keeps_all. Qed.
Lemma keeps_chunks n : ∀ name b c l i, keeps (store_chunks config n name b c l i).
Proof. induction n; intros; cbn [store_chunks]; keeps_all. Qed.
Lemma keeps_rows n cursor key : ∀ cur left count, keeps (send_rows config mem n cursor key cur left count).
Proof. induction n; intros; cbn [send_rows]; keeps_all. Qed.
Lemma keeps_free : keeps free_chunks.
Proof.
  intros s a s' E. unfold free_chunks in E. case_match; [by injection E as _ <-|..];
    apply bind_ret_inv in E as ([u s1] & E1 & [= _ <-]); cbn; by eapply keeps_cfree.
Qed.
Hint Resolve keeps_ensure keeps_chunks keeps_rows keeps_free : keeps.
Lemma keeps_response p c f : keeps (handle_query_response config session mem fuel p c f).
Proof.
  unfold handle_query_response, respond_set, respond_show, respond_rows, clean_cursor, mark_sent, set_parms. keeps_all.
Qed.
Lemma keeps_create p : keeps (create_table config mem depth p). Proof. unfold create_table. keeps_all. Qed.
Lemma keeps_drop p : keeps (drop_table config p). Proof. unfold drop_table. keeps_all. Qed.
Lemma keeps_select p c : keeps (run_select config mem room (handle_query_response config session mem fuel) p c).
Proof. unfold run_select, switch_from_octo, run_db. pose proof keeps_response. keeps_all. Qed.
Lemma keeps_error : keeps send_syntax_error.
Proof. unfold send_syntax_error. keeps_all. Qed.
Hint Resolve keeps_response keeps_create keeps_drop keeps_select keeps_error : keeps.

(** Only the parser moves. *)
Definition parses (s s' : query_state) : Prop :=
  ∃ s0 r s1, qs_input s0 = qs_input s ∧ parse_q config s0 = Ret (r, s1) ∧ qs_input s' = qs_input s1.
Lemma parse_then {B} (k : option parsed → Q B) s s0 b s' : (∀ r, keeps (k r)) → qs_input s0 = qs_input s →
  (parse_q config ≫= k) s0 = Ret (b, s') → parses s s'.
Proof.
  intros Hk Hs E. unfold mbind, Q_bind in E. apply bind_ret_inv in E as ([r s1] & E1 & E). exists s0, r, s1.
  split_and!; [done..|]. by eapply Hk.
Qed.
Lemma run_parses s b s' : run config session mem room depth fuel s = Ret (b, s') → parses s s'.
Proof.
  unfold run, run_query, alloc_chunk_q, warn. rewrite q_state. apply parse_then; [|done]. intros r. keeps_all.
Qed.
Lemma query_turn_parses s u s' : query_turn config session mem room depth fuel s = Ret (u, s') → parses s s'.
Proof.
  intros E. unfold query_turn, mbind, Q_bind in E. apply bind_ret_inv in E as ([ok s1] & E1 & E).
  destruct (run_parses _ _ _ E1) as (s0 & r & s2 & Hs0 & Ep & Hi). exists s0, r, s2. split_and!; [done..|]. rewrite <- Hi.
  destruct ok; [by injection E as _ <-|by eapply keeps_error].
Qed.
Lemma execute_turn_parses s u s' : execute_turn config session mem room depth fuel s = Ret (u, s') → parses s s'.
Proof.
  intros E. unfold execute_turn, set_data_sent, set_parms in E. rewrite q_state in E. unfold mbind at 1, Q_bind at 1 in E.
  apply bind_ret_inv in E as ([ok s1] & E1 & E).
  destruct (run_parses _ _ _ E1) as (s0 & r & s2 & Hs0 & Ep & Hi). exists s0, r, s2. split_and!; [done..|]. rewrite <- Hi.
  revert E. apply (λ K : keeps _, K s1 u s'). unfold at_end. keeps_all.
Qed.
Lemma describe_turn_parses s u s' : describe_turn config mem fuel s = Ret (u, s') → parses s s'.
Proof.
  unfold describe_turn, alloc_chunk_q. rewrite q_state. apply parse_then; [|done]. intros r. unfold describe_plan. keeps_all.
Qed.
End handlers.

(** ** Progress *)
(** The generated parser reaches the end of the text, or takes a statement of two characters
    or more (its semicolon is one), or refuses one character or more. *)
Definition progresses `{SqlParser} : Prop := ∀ d text n e status p w lg d',
  takes (yyparse d) text false = (n, e, (status, p, w, lg, d')) →
  e = true ∨ status = 0 ∧ (2 ≤ n)%nat ∨ status ≠ 0 ∧ (1 ≤ n)%nat.
Lemma parse_q_input `{QueryRuntime} config s text n e status p w lg d r s' :
  pending (qs_input s) text → in_eof (qs_input s) = false → takes (yyparse (qs_db s)) text false = (n, e, (status, p, w, lg, d)) →
  parse_q config s = Ret (r, s') →
  in_eof (qs_input s') = e ∧ (n ≤ length text)%nat ∧ ((status = 0 → (1 ≤ n)%nat) → pending (qs_input s') (left_over status n text)).
Proof.
  intros Hp He Ht E. pose proof (yyparse_on_takes (yyparse (qs_db s)) _ _ Hp) as Hy. rewrite He, Ht in Hy.
  destruct Hy as (i & Ei & Hb & Hx & Heof & Hpi & Hl). unfold parse_q, parse_line in E. rewrite Ei in E.
  cbn [mbind outcome_bind] in E. unfold left_over. destruct (Z.eqb_spec status 0) as [->|Hs]; cbn [negb] in E.
  - cbn [mbind outcome_bind] in E. apply bind_ret_inv in E as ([u s1] & _ & [= _ <-]). cbn. split_and!; [done..|]. intros Hn.
    specialize (Hn eq_refl). destruct Hp as [Hp0 Hp]. rewrite (proj2 (Z.ltb_lt 0 (in_index i))) by lia. split; cbn; [lia|].
    replace (in_index i - 1) with (in_index (qs_input s) + Z.of_nat (n - 1)) by lia. rewrite Hb. apply string_at_drop; [done..|lia].
  - apply bind_ret_inv in E as ([[[[r' w'] lg'] d'] i'] & E1 & E). apply bind_ret_inv in E1 as (line & _ & [= <- <- <- <- <-]).
    apply bind_ret_inv in E as ([u s1] & _ & [= _ <-]). cbn. by split_and!.
Qed.
Lemma parses_shorter `{QueryRuntime} config s s' text : progresses → parses config s s' → pending (qs_input s) text → in_eof (qs_input s) = false →
  in_eof (qs_input s') = true ∨
  in_eof (qs_input s') = false ∧ ∃ text', pending (qs_input s') text' ∧ (length text' < length text)%nat.
Proof.
  intros Hprog (s0 & r & s1 & Hs0 & Ep & ->) Hp He. rewrite <- Hs0 in Hp, He.
  destruct (takes (yyparse (qs_db s0)) text false) as [[n e] [[[[status p] w] lg] d]] eqn:Et.
  destruct (parse_q_input config _ _ _ _ _ _ _ _ _ _ _ Hp He Et Ep) as (Heof & Hn & Hpend).
  destruct (Hprog _ _ _ _ _ _ _ _ _ Et) as [->|Hcase]; [by left|]. destruct e; [by left|]. right. split; [done|].
  exists (left_over status n text). split; [apply Hpend; lia|]. unfold left_over.
  destruct Hcase as [[-> ?]|[Hs ?]]; [cbn [Z.eqb]|apply Z.eqb_neq in Hs; rewrite Hs]; rewrite length_drop; lia.
Qed.

(** ** The loop, without a bound on its turns *)
(** [loops body s k r]: from [s], [do body while(!eof_hit)] makes [k] turns and its outcome is
    [r]: the state after the turn that met the end, or the outcome of a turn that did not
    return. *)
Inductive loops `{YottaDB} (body : Q ()) : query_state → nat → outcome (() * query_state) → Prop :=
  | loops_last s s' : body s = Ret ((), s') → in_eof (qs_input s') = true → loops body s 1 (Ret ((), s'))
  | loops_next s s1 k r : body s = Ret ((), s1) → in_eof (qs_input s1) = false → loops body s1 k r → loops body s (S k) r
  | loops_stuck s : (∀ x, body s ≠ Ret x) → loops body s 1 (body s).
Lemma loops_until_eof `{YottaDB} body s k r : loops body s k r → ∀ n, (k ≤ n)%nat → until_eof n body s = r.
Proof.
  induction 1 as [s s' E He|s s1 k r E He Hl IH|s E]; intros [|n] Hn; try lia; cbn [until_eof].
  - erewrite q_bind by exact E. unfold at_end. rewrite q_gets. cbn [compose]. by rewrite He.
  - erewrite q_bind by exact E. unfold at_end. rewrite q_gets. cbn [compose]. rewrite He. apply IH. lia.
  - unfold mbind at 1, Q_bind at 1. destruct (body s) as [[u s']| | |]; try done. by destruct (E (u, s')).
Qed.
Definition ends_within `{YottaDB} (turns : nat) (s : query_state) (body : Q ()) : Prop :=
  ∃ k r, (k ≤ turns)%nat ∧ loops body s k r ∧ ∀ n, (k ≤ n)%nat → until_eof n body s = r.
Lemma until_eof_ends `{QueryRuntime} config (body : Q ()) : progresses → (∀ s u s', body s = Ret (u, s') → parses config s s') →
  ∀ l s text, length text = l → pending (qs_input s) text → in_eof (qs_input s) = false → ends_within (S l) s body.
Proof.
  intros Hprog Hb. assert (Hex : ∀ l s text, (length text ≤ l)%nat → pending (qs_input s) text → in_eof (qs_input s) = false →
    ∃ k r, (k ≤ S l)%nat ∧ loops body s k r).
  { induction l as [|l IH]; intros s text Hl Hp He; (destruct (body s) as [[[] s1]| | |] eqn:Eb; [|exists 1%nat, (body s); split; [lia|apply loops_stuck; by rewrite Eb]..]);
      (destruct (parses_shorter config _ _ _ Hprog (Hb _ _ _ Eb) Hp He) as [Heof|(Heof & text' & Hp' & Hl')];
        [exists 1%nat, (Ret ((), s1)); split; [lia|by apply loops_last]|]).
    - destruct text; cbn in Hl, Hl'; lia.
    - destruct (IH s1 text') as (k & r & Hk & Hlo); [lia|done..|]. exists (S k), r. split; [lia|by eapply loops_next]. }
  intros l s text Hl Hp He. destruct (Hex l s text) as (k & r & Hk & Hlo); [lia|done..|]. exists k, r. split_and!; [done..|].
  by apply loops_until_eof.
Qed.

(** C37: the loop of each handler over the statements of a text ends.  When the parser moves
    (two characters or more for a statement it accepts, of which [parse_line] gives one back,
    one or more for one it refuses, or the end of the text), a text of [l] characters takes
    [l + 1] turns or fewer: the loop [do ... while(!eof_hit)] comes to its end, or to a turn
    that does not return, in that many, and with as many turns allowed or more the loop of
    the model has just that outcome. *)
Theorem handler_loops_end `{QueryRuntime} `{!YottaDBNodes} config session mem room depth fuel s text :
  progresses → pending (qs_input s) text → in_eof (qs_input s) = false →
  Forall (ends_within (S (length text)) s)
    [query_turn config session mem room depth fuel; execute_turn config session mem room depth fuel;
     describe_turn config mem fuel].
Proof.
  intros Hprog Hp He.
  repeat (apply Forall_cons; [eapply (until_eof_ends config); [done| |reflexivity|exact Hp|exact He]|]); [..|constructor].
  - apply query_turn_parses.
  - apply execute_turn_parses.
  - apply describe_turn_parses.
Qed.

(** ** The parser of the examples progresses *)
#[local] Existing Instance map_db.
#[local] Existing Instance map_nodes.
#[local] Existing Instance toy_sql.
#[local] Existing Instance toy_runtime.
Lemma toy_takes_some f : ∀ blank text d n e status p w lg d',
  takes (toy_parser f blank d) text false = (n, e, (status, p, w, lg, d')) →
  e = true ∨ status = 0 ∧ (1 ≤ n)%nat ∧ (blank = true → (2 ≤ n)%nat) ∨ status ≠ 0 ∧ n = f.
Proof.
  induction f as [|f IH]; intros blank text d n e status p w lg d' E; cbn [toy_parser takes] in E.
  - injection E as <- <- <- <- <- <- <-. right. right. done.
  - destruct text as [|c text]; [cbn in E; injection E as <- <- <- <- <- <- <-; by left|].
    assert (Hrec : ∀ b, takes (toy_parser f b d) text false = (pred n, e, (status, p, w, lg, d')) → n = S (pred n) →
      e = true ∨ status = 0 ∧ (1 ≤ n)%nat ∧ (blank = true → (2 ≤ n)%nat) ∨ status ≠ 0 ∧ n = S f).
    { intros b Eb Hn. destruct (IH _ _ _ _ _ _ _ _ _ _ Eb) as [?|[(? & ? & ?)|(? & ?)]]; [by left|right; left|right; right];
        split_and!; try done; lia. }
    case_decide; [destruct blank|].
    2: { injection E as <- <- <- <- <- <- <-. right. left. split_and!; [done|lia|done]. }
    all: destruct (takes (toy_parser f _ d) text false) as [[k e'] [[[[st p'] w'] lg'] d'']] eqn:Ek; injection E as <- <- <- <- <- <- <-;
      by eapply Hrec.
Qed.
Lemma toy_progresses : progresses.
Proof.
  intros d text n e status p w lg d' E. destruct (toy_takes_some _ _ _ _ _ _ _ _ _ _ _ E) as [?|[(? & ? & Hn)|(? & ->)]]; [by left|..]; right.
  - left. auto.
  - right. split; [done|lia].
Qed.
Definition toy_input : input := {| in_buffer := lit "q;r;" ++ [nul]; in_index := 0; in_eof := false |}.
Definition toy_query_state : query_state := initial_state (lit "g") (∅ : map_store) toy_input 0.
Lemma handler_loops_end_witness :
  Forall (ends_within 5 toy_query_state)
    [query_turn toy_config sample_session toy_mem 32 5 5; execute_turn toy_config sample_session toy_mem 32 5 5;
     describe_turn toy_config toy_mem 5].
Proof.
  apply (handler_loops_end toy_config sample_session toy_mem 32 5 5 toy_query_state (lit "q;r;")).
  - exact toy_progresses.
  - split; [done|reflexivity].
  - reflexivity.
Defined.
