(* ===== verification/HandlerErrors.v ===== *)
(** * What the query path gets wrong

    The name of a SELECT's routine does not fit the array [run_query] declares for it, and a
    client that names a portal the server does not know ends the server. *)
From stdpp Require Import gmap strings.
From S2P Require Import Prelude CMem Errors Frontend FrontendSpec Logging Backend LogicalPlan SqlStatement RoutineName SocketIO SocketTheorems Deserialize Session SessionTheorems MainLoop MainLoopTheorems Connection ConnectionTheorems Compress CreateTable QueryInput RunQuery Handlers HandlerTheorems SelectTheorems AnswerTheorems.

Lemma generate_routine_name_overruns h hash_str name routine_len t :
  t ≠ OtherFile → zlen hash_str = MAX_ROUTINE_LEN → zlen name = MAX_ROUTINE_LEN → MAX_ROUTINE_LEN ≤ routine_len →
  generate_routine_name h hash_str name routine_len t = Undef OutOfBounds.
Proof.
  intros Ht Hh Hn Hrl. unfold generate_routine_name. apply Z.leb_le in Hrl. rewrite Hrl. cbn [c_assert mbind outcome_bind].
  change (zlen xref_prefix) with 9. unfold MAX_ROUTINE_LEN in Hh, Hn. change (MAX_ROUTINE_LEN - 9) with 22.
  rewrite routine_hash_spec by done. cbn [mbind outcome_bind]. set (d := digits62 11 (one h) (two h)).
  assert (Hd : zlen d = 22) by (unfold zlen, d; by rewrite length_digits62).
  rewrite (load_bytes_app_eq (d ++ _) 0 22 [] d (drop 22 hash_str)) by done. cbn [mbind outcome_bind].
  assert (Hp : ∀ p, zlen p = 9 →
    (name0 ← store_bytes name 0 p; name1 ← store_bytes name0 9 d; name2 ← store8 name1 (9 + 22) nul;
     Ret (name2, MAX_ROUTINE_LEN)) = Undef OutOfBounds).
  { intros p Hp. rewrite (store_bytes_app_eq name 0 [] (take 9 name) (drop 9 name) p);
      [|by rewrite app_nil_l, take_drop|done|unfold zlen in *; rewrite length_take; lia].
    cbn [mbind outcome_bind app]. rewrite (store_bytes_app_eq _ 9 p (drop 9 name) [] d);
      [|by rewrite app_nil_r|done|unfold zlen in *; rewrite length_drop; lia].
    cbn [mbind outcome_bind]. unfold store8. rewrite !zlen_app, Hp, Hd. done. }
  destruct t; [| |done]; by rewrite Hp.
Qed.

Section plan_name.
Context `{QueryRuntime} (config : QueryConfig) (mem : nat → byte).
Definition plan_routine (h : list byte) : list byte := routine_name_text OutputPlan (digest h).
(** The name of the plan's file: the directory, the routine with [_] for its [%], [.m]. *)
Definition plan_file (h : list byte) : list byte :=
  cstr (tmp_dir config) ++ lit "/_" ++ drop 1 (plan_routine h) ++ lit ".m".
Lemma plan_name_spec room p h : hash_canonical_query (ps_values p) (ps_statement p) = Ret h → MAX_ROUTINE_LEN < room →
  plan_name config mem room p = Ret (plan_routine h, plan_file h).
Proof.
  intros Hh Hr. unfold plan_name. rewrite Hh. cbn [mbind outcome_bind].
  assert (Hz : zlen (malloc mem room) = room) by (apply zlen_malloc; unfold MAX_ROUTINE_LEN in Hr; lia).
  rewrite generate_routine_name_len; [|done|apply zlen_malloc; vm_compute; discriminate|by rewrite Hz|vm_compute; discriminate]. cbn [mbind outcome_bind].
  unfold plan_file. fold (plan_routine h). set (n := plan_routine h). assert (Hn : zlen n = 31) by apply zlen_routine_name.
  rewrite (load_bytes_app_eq _ 0 31 [] n (nul :: drop 32 (malloc mem room))) by done. cbn [mbind outcome_bind].
  destruct n as [|c n'] eqn:En; [done|].
  rewrite (string_at_app _ [c] n' (drop 32 (malloc mem room)) 1); [done..|].
  pose proof (routine_name_no_nul OutputPlan (digest h)) as Hno. fold (plan_routine h) in Hno. fold n in Hno. rewrite En in Hno.
  by apply not_elem_of_cons in Hno as [_ ?].
Qed.
End plan_name.

(** C38: the array [routine_name] of [run_query] is one byte short.  [generate_routine_name] is
    told that it has MAX_STR_CONST bytes and puts a NUL behind the 31 characters of the name:
    with the 31 bytes that are declared, every SELECT that can be hashed writes outside the array;
    with any more than that the name and the file are the ones the hash determines. *)
Theorem select_overruns_routine_name `{QueryRuntime} config mem p h :
  hash_canonical_query (ps_values p) (ps_statement p) = Ret h →
  (∀ handle cursor s, run_select config mem MAX_ROUTINE_LEN handle p cursor s = Undef OutOfBounds) ∧
  ∀ room, MAX_ROUTINE_LEN < room → plan_name config mem room p = Ret (plan_routine h, plan_file config h).
Proof.
  intros Hh. split; [|intros room; by apply plan_name_spec].
  assert (E : plan_name config mem MAX_ROUTINE_LEN p = Undef OutOfBounds).
  { unfold plan_name. rewrite Hh. cbn [mbind outcome_bind]. by rewrite generate_routine_name_overruns by (done || (apply zlen_malloc; vm_compute; discriminate) || (vm_compute; discriminate)). }
  intros handle cursor s. unfold run_select, lift, mbind, Q_bind. by rewrite E.
Qed.

(** an Execute or a Describe of a portal that was never bound (and a Describe of a
    statement that was never prepared) is not answered with an error: the process that
    serves the client exits. *)
Theorem unknown_portal_is_fatal `{QueryRuntime} `{!YottaDBNodes} config session mem room depth fuel gbldir d name :
  (∀ n, (ydb_get_s d (session_node session "bound" name) n).1 = YDB_ERR_GVUNDEF) →
  (∀ x, string_at (x_block x) (x_source x) = Ret name →
     handle_execute config session mem room depth fuel gbldir x d = Halt FatalExit) ∧
  (∀ x, string_at (d_block x) (d_name x) = Ret name → d_item x = chr "P" →
     ydb_data_s d (session_node session "bound" name) = YDB_OK →
     handle_describe config session mem fuel gbldir x d = Halt FatalExit).
Proof.
  intros Hget. split.
  - intros x Hx. unfold handle_execute. rewrite Hx. cbn [mbind outcome_bind].
    specialize (Hget (MAX_STR_CONST - 1)). destruct (ydb_get_s _ _ _) as [status v]. cbn in Hget. by rewrite Hget.
  - intros x Hx Hi Hdata. unfold handle_describe. rewrite Hx. cbn [mbind outcome_bind]. rewrite decide_False by (rewrite Hi; discriminate).
    cbv zeta. rewrite Hdata, check_ok. cbn [mbind outcome_bind].
    specialize (Hget MAX_STR_CONST). destruct (ydb_get_s _ _ _) as [status v]. cbn in Hget. by rewrite Hget.
Qed.

#[local] Existing Instance map_db.
#[local] Existing Instance map_nodes.
#[local] Existing Instance toy_sql.
#[local] Existing Instance toy_runtime.
Definition toy_hash : list byte := match hash_canonical_query ∅ (ps_statement toy_select) with Ret h => h | _ => [] end.
Lemma select_overruns_routine_name_witness :
  (∀ handle cursor s, run_select toy_config toy_mem MAX_ROUTINE_LEN handle toy_select cursor s = Undef OutOfBounds) ∧
  ∀ room, MAX_ROUTINE_LEN < room → plan_name toy_config toy_mem room toy_select = Ret (plan_routine toy_hash, plan_file toy_config toy_hash).
Proof. apply (select_overruns_routine_name toy_config toy_mem toy_select toy_hash). vm_compute. reflexivity. Defined.
Definition unbound_execute : Execute :=
  {| x_source := 0; x_rows_to_return := 0; x_block := lit "p" ++ [nul] |}.
Lemma unknown_portal_is_fatal_witness :
  handle_execute toy_config sample_session toy_mem 32 5 5 (lit "g") unbound_execute empty_db = Halt FatalExit.
Proof.
  apply (unknown_portal_is_fatal toy_config sample_session toy_mem 32 5 5 (lit "g") empty_db (lit "p")).
  - intros n. reflexivity.
  - reflexivity.
Defined.
