(* ===== verification/EmitColumns.v ===== *)
(** * The columns noted for a plan are the columns described

    [emit_select_statement] writes the names of the columns of a result below the plan's node
    in the database; [get_plan_row_description] reads them when the plan is described or run.
    Together: the RowDescription a client gets has the names of the select list, in order. *)
From stdpp Require Import gmap strings.
From S2P Require Import Prelude CMem Errors Frontend FrontendSpec Backend BackendTheorems LogicalPlan SqlStatement Optimize GenerateWhere GeneratePlan PhysicalPlan RoutineName Deserialize Session SessionTheorems MainLoop Connection ConnectionTheorems Compress CreateTable QueryInput RunQuery Handlers HandlerTheorems SelectTheorems MainLoopTheorems AnswerTheorems FixTheorems OptimizeTheorems OptimizeRows PlanTheorems EmitPlan.

(** ** Numbers as text *)
Definition add_digit (a : Z) (c : byte) : Z := 10 * a + (b2z c - 48).
Lemma digits_fold fuel n acc : 0 ≤ n < 10 ^ Z.of_nat fuel → (0 < fuel)%nat →
  fold_left add_digit (digits fuel 10 n acc) 0 = fold_left add_digit acc n.
Proof.
  revert n acc. induction fuel as [|fuel IH]; intros n acc Hn Hf; [lia|]. cbn [digits].
  assert (Hd : ∀ m, 0 ≤ m → add_digit m (digit (n mod 10)) = 10 * m + n mod 10).
  { intros m _. unfold add_digit, digit. pose proof (Z.mod_pos_bound n 10 ltac:(lia)). destruct (Z.ltb_spec (n mod 10) 10); [|lia].
    rewrite b2z_z2b_small by lia. lia. }
  pose proof (Z.div_mod n 10 ltac:(lia)). pose proof (Z.mod_pos_bound n 10 ltac:(lia)).
  destruct (Z.eqb_spec (n / 10) 0) as [E|E].
  - cbn [fold_left]. rewrite Hd by lia. f_equal. lia.
  - assert (0 < n / 10 < 10 ^ Z.of_nat fuel).
    { split; [pose proof (Z.div_pos n 10); lia|]. apply Z.div_lt_upper_bound; [lia|]. rewrite Nat2Z.inj_succ, Z.pow_succ_r in Hn by lia. lia. }
    rewrite IH; [|lia|destruct fuel; [cbn in *; lia|lia]]. cbn [fold_left]. rewrite Hd by lia. f_equal. lia.
Qed.
Lemma digits_value_dec n : 0 ≤ n < 10 ^ 20 → digits_value (dec n) = n.
Proof.
  intros Hn. unfold dec. destruct (Z.ltb_spec n 0); [lia|]. change (digits_value (digits 20 10 n [])) with (fold_left add_digit (digits 20 10 n []) 0).
  rewrite digits_fold; [done|change (Z.of_nat 20) with 20; lia|lia].
Qed.
Lemma dec_inj i j : 0 ≤ i < 10 ^ 20 → 0 ≤ j < 10 ^ 20 → dec i = dec j → i = j.
Proof. intros Hi Hj E. by rewrite <- (digits_value_dec i), <- (digits_value_dec j), E. Qed.

(** What the documentation says of subscripts further up: a node below [k] makes its
    subscript one of [k]'s. *)
Class SubtreeLaws `{YottaDBNodesLaws} : Prop := {
  subscripts_below d k x l v d' y : ydb_set_s d (k ++ x :: l) v = (YDB_OK, d') → x ≠ [] →
    y ∈ subscripts d' k ↔ y = x ∨ y ∈ subscripts d k;
}.

(** ** What is written *)
Section columns.
Context `{QueryRuntime} `{!YottaDBLaws} `{!YottaDBNodes} `{!YottaDBNodesLaws} `{!SubtreeLaws} (config : QueryConfig) (s : planner) (f : list byte).
Abbreviation octo := (octo_global config).

(** The names of the columns of a projection. *)
Definition column_name (column : LogicalPlan) : outcome (list byte) :=
  t ← lp_type column;
  _ ← c_assert (bool_decide (t = LP_COLUMN_LIST));
  output_name s column.
Fixpoint column_names (columns : LogicalPlan) : outcome (list (list byte)) :=
  name ← column_name columns;
  match columns with
  | Op _ _ NULL => Ret [name]
  | Op _ _ rest => names ← column_names rest; Ret (name :: names)
  | _ => Undef WrongMember
  end.
Lemma set_db_inv node v d d' : set_db node v d = Ret d' → ydb_set_s d node v = (YDB_OK, d').
Proof. unfold set_db. destruct (ydb_set_s d node v) as [st d1]. unfold ydb_error_check. destruct (decide _) as [->|]; [|done]. by intros [= ->]. Qed.
(** The node of a field, and what one of them leaves at the others. *)
Definition field_node (column field : list byte) : list (list byte) := metadata octo f [lit "output_columns"; column; field].
Lemma set_fields_other column fields node n : ∀ d d', set_fields octo f column fields d = Ret d' →
  (∀ field, field ∈ fields.*1 → node ≠ field_node column field) → ydb_get_s d' node n = ydb_get_s d node n.
Proof.
  induction fields as [|[field v] fields IH]; intros d d' E Hn; [by injection E as <-|]. cbn [set_fields] in E.
  apply bind_ret_inv in E as (d1 & E1%set_db_inv & E). rewrite (IH d1 d' E) by (intros x Hx; apply Hn; by right).
  eapply get_set_other; [exact E1|cbn; lia|]. intros <-. apply (Hn field); [by left|done].
Qed.
Lemma set_fields_get column fields : NoDup fields.*1 → ∀ d d', set_fields octo f column fields d = Ret d' →
  Forall (λ fv, zlen fv.2 ≤ MAX_STR_CONST → ydb_get_s d' (field_node column fv.1) MAX_STR_CONST = (YDB_OK, fv.2)) fields.
Proof.
  induction fields as [|[field v] fields IH]; intros Hd d d' E; [constructor|]. cbn [set_fields] in E. cbn [fmap list_fmap fst] in Hd.
  apply list.NoDup_cons in Hd as [Hn Hd]. apply bind_ret_inv in E as (d1 & E1%set_db_inv & E). constructor; [|by eapply IH].
  cbn. intros Hv. rewrite (set_fields_other _ _ (field_node column field) _ _ _ E).
  - by eapply get_set_same.
  - intros x Hx Heq. unfold field_node, metadata in Heq. injection Heq as ->. done.
Qed.
Lemma set_fields_subscripts column fields y : column ≠ [] → fields ≠ [] → ∀ d d', set_fields octo f column fields d = Ret d' →
  y ∈ subscripts d' (columns_node config f) ↔ y = column ∨ y ∈ subscripts d (columns_node config f).
Proof.
  intros Hc. induction fields as [|[field v] fields IH]; intros Hne d d' E; [done|]. cbn [set_fields] in E.
  apply bind_ret_inv in E as (d1 & E1%set_db_inv & E).
  pose proof (subscripts_below d (columns_node config f) column [field] v d1 y E1 Hc) as Hx.
  destruct fields as [|fv fields]; [by injection E as <-|]. rewrite (IH ltac:(done) d1 d' E), Hx. tauto.
Qed.
Lemma digits_nonempty fuel m acc : (0 < fuel)%nat ∨ acc ≠ [] → digits fuel 10 m acc ≠ [].
Proof.
  revert m acc. induction fuel as [|fuel IH]; intros m acc Ha; cbn [digits]; [by destruct Ha; [lia|]|].
  destruct (_ =? 0); [done|]. apply IH. by right.
Qed.
Lemma dec_nonempty n : dec n ≠ [].
Proof. unfold dec. destruct (n <? 0); [done|]. apply digits_nonempty. left. lia. Qed.

(** The column [i] has these fields. *)
Definition has_column (d : db) (i : Z) (name : list byte) : Prop :=
  Forall (λ fv, zlen fv.2 ≤ MAX_STR_CONST → ydb_get_s d (field_node (dec i) fv.1) MAX_STR_CONST = (YDB_OK, fv.2)) (column_fields name).
Lemma set_columns_spec columns : ∀ k d d', 0 ≤ k → k + Z.of_nat (Dnf.lp_size columns) < 10 ^ 20 → set_columns s octo f k columns d = Ret d' →
  ∃ names, column_names columns = Ret names ∧
    (∀ i name, names !! i = Some name → has_column d' (k + Z.of_nat i + 1) name) ∧
    (∀ y, y ∈ subscripts d' (columns_node config f) ↔ (∃ i, (i < length names)%nat ∧ y = dec (k + Z.of_nat i + 1)) ∨ y ∈ subscripts d (columns_node config f)) ∧
    ∀ i node n, 0 ≤ i ≤ k → (∃ field, node = field_node (dec i) field) → ydb_get_s d' node n = ydb_get_s d node n.
Proof.
  induction columns as [|t a _ b IH|t v]; intros k d d' Hk Hs E; [done| |by cbn in E; repeat (apply bind_ret_inv in E as (? & _ & E))].
  cbn [set_columns] in E. apply bind_ret_inv in E as (t' & Ht & E). apply bind_ret_inv in E as (u & Hu & E).
  apply bind_ret_inv in E as (name & Hname & E). assert (Hcn : column_name (Op t a b) = Ret name) by (unfold column_name; rewrite Ht; cbn [mbind outcome_bind]; by rewrite Hu). apply bind_ret_inv in E as (d1 & E1 & E).
  assert (Hcol : has_column d1 (k + 1) name).
  { eapply set_fields_get; [|exact E1]. eval_decide. }
  assert (Hsub : ∀ y, y ∈ subscripts d1 (columns_node config f) ↔ y = dec (k + 1) ∨ y ∈ subscripts d (columns_node config f)).
  { intros y. eapply set_fields_subscripts; [apply dec_nonempty| |exact E1]. done. }
  assert (Hother : ∀ i node n, 0 ≤ i ≤ k → (∃ field, node = field_node (dec i) field) → ydb_get_s d1 node n = ydb_get_s d node n).
  { intros i node n Hi [field ->]. eapply set_fields_other; [exact E1|]. intros x _ Heq. unfold field_node, metadata in Heq.
    injection Heq as Heq _. apply dec_inj in Heq; cbn in Hs; lia. }
  assert (Hlast : b = NULL ∧ d' = d1 ∨ b ≠ NULL ∧ set_columns s octo f (k + 1) b d1 = Ret d').
  { destruct b; [left; by injection E as <-|right; by split..]. }
  destruct Hlast as [[-> ->]|[Hb E']].
  - exists [name]. split; [cbn [column_names]; by rewrite Hcn|]. split; [|split; [|done]].
    + intros [|i] name' Hi; [|done]. injection Hi as <-. by replace (k + Z.of_nat 0 + 1) with (k + 1) by lia.
    + intros y. rewrite Hsub. split; (intros [Hx|Hx]; [left|by right]).
      * exists O. split; [cbn; lia|]. rewrite Hx. f_equal. lia.
      * destruct Hx as (i & Hi & ->). f_equal. cbn in Hi. lia.
  - destruct (IH (k + 1) d1 d' ltac:(lia) ltac:(cbn in Hs; lia) E') as (names & N1 & N2 & N3 & N4).
    exists (name :: names). split; [cbn [column_names]; rewrite Hcn; cbn [mbind outcome_bind]; destruct b; [done|by rewrite N1..]|]. split; [|split].
    + intros [|i] name' Hi; cbn in Hi.
      * injection Hi as <-. replace (k + Z.of_nat 0 + 1) with (k + 1) by lia. eapply list.Forall_impl; [exact Hcol|]. intros fv Hfv Hz.
        rewrite (N4 (k + 1)); [by apply Hfv|lia|by eexists].
      * replace (k + Z.of_nat (S i) + 1) with (k + 1 + Z.of_nat i + 1) by lia. by apply N2.
    + intros y. rewrite N3, Hsub. split.
      * intros [(i & Hi & ->)|[->|Hy]]; [left; exists (S i); split; [cbn; lia|f_equal; lia]|left; exists O; split; [cbn; lia|f_equal; lia]|by right].
      * intros [([|i] & Hi & ->)|Hy]; [right; left; f_equal; lia|left; exists i; split; [cbn in Hi; lia|f_equal; lia]|by right; right].
    + intros i node n Hi Hnode. rewrite (N4 i) by (lia || done). by eapply Hother.
Qed.

(** ** What is read *)
Definition described (name : list byte) : RowDescriptionParm :=
  {| rd_name := name; rd_table_id := 0; rd_column_id := 0; rd_data_type := 25; rd_data_type_size := -1;
     rd_type_modifier := -1; rd_format_code := 0 |}.
Lemma output_name_no_nul columns name : output_name s columns = Ret name → no_nul name.
Proof.
  assert (Hn : ∀ stmt, name_text s stmt = Ret name → no_nul name).
  { intros stmt E. destruct stmt; try done. cbn in E. apply bind_ret_inv in E as (v' & _ & [= <-]). apply cstr_no_nul. }
  unfold output_name. intros E. apply bind_ret_inv in E as (w & _ & E). apply bind_ret_inv in E as (x & _ & E). destruct (negb _).
  - apply bind_ret_inv in E as (al & _ & E). apply bind_ret_inv in E as (p & _ & E). apply bind_ret_inv in E as ([nm ty] & _ & E). by eapply Hn.
  - apply bind_ret_inv in E as (al & _ & E). apply bind_ret_inv in E as (p & _ & E). apply bind_ret_inv in E as ([col ow] & _ & E).
    destruct col as [| | | | | | | | | |ring| | | | | | | | | | | | | | | | | |]; try done. destruct ring as [|[]]; [done|]. by eapply Hn.
Qed.
Lemma column_name_no_nul columns name : column_name columns = Ret name → no_nul name.
Proof. unfold column_name. intros E. apply bind_ret_inv in E as (t & _ & E). apply bind_ret_inv in E as (u & _ & E). by apply output_name_no_nul in E. Qed.
Lemma column_names_no_nul columns names : column_names columns = Ret names → Forall no_nul names.
Proof.
  revert names. induction columns as [|t a _ b IH|t v]; intros names E; [done| |by cbn [column_names] in E; apply bind_ret_inv in E as (? & _ & E)].
  cbn [column_names] in E. apply bind_ret_inv in E as (name & Hname%column_name_no_nul & E).
  assert (names = [name] ∨ ∃ rest, column_names b = Ret rest ∧ names = name :: rest) as [->|(rest & Hr & ->)].
  { destruct b; [left; by injection E|right; apply bind_ret_inv in E as (rest & Hr & [= <-]); by exists rest..]. }
  - by repeat constructor.
  - constructor; [done|by apply IH].
Qed.
Lemma column_parm_described d i name : has_column d i name → zlen name ≤ MAX_STR_CONST → no_nul name →
  column_parm config d f (dec i) = Ret (described name).
Proof.
  unfold has_column, column_fields. intros Hx Hz Hn. rewrite !list.Forall_cons in Hx. destruct Hx as (Hname & F1 & F2 & F3 & F4 & F5 & F6 & _).
  cbn [fst snd] in *. unfold field_node, metadata in *. cbn [app] in *. unfold column_parm, plan_column, get_value.
  rewrite Hname by done. rewrite check_ok. cbn [mbind outcome_bind].
  rewrite F1, F2, F3, F4, F5, F6 by (by vm_compute). rewrite check_ok. cbn [mbind outcome_bind].
  repeat match goal with |- context [zlen (lit ?x) <? MAX_STR_CONST] => change (zlen (lit x) <? MAX_STR_CONST) with true end.
  cbn [mbind outcome_bind]. rewrite cstr_id by done. f_equal.
Qed.
(** The subscripts 1 to n of a node are walked in the order of the numbers. *)
Definition collates (d : db) (node : list (list byte)) : Prop :=
  ∀ n : nat, (∀ y, y ∈ subscripts d node ↔ ∃ i, (i < n)%nat ∧ y = dec (Z.of_nat i + 1)) →
  subscripts d node = (λ i : nat, dec (Z.of_nat i + 1)) <$> seq 0 n.

(** C8: What a client is told of the columns.  After [emit_select_statement] has noted the
    columns of a plan that had none before, the RowDescription made from the notes has the
    names of the columns of the plan, in their order, and the type of text for each. *)
Theorem columns_described fuel columns d d' :
  set_columns s octo f 0 columns d = Ret d' → Z.of_nat (Dnf.lp_size columns) < 10 ^ 20 →
  subscripts d (columns_node config f) = [] → collates d' (columns_node config f) →
  ∃ names, column_names columns = Ret names ∧
    (Forall (λ name, zlen name ≤ MAX_STR_CONST) names → small (columns_payload (described <$> names)) → (length names < fuel)%nat →
     ∃ m, get_plan_row_description config fuel d' f = Ret m ∧ wire m = Ret (columns_frame (described <$> names))).
Proof.
  intros E Hs Hnone Hcol. destruct (set_columns_spec columns 0 d d' ltac:(lia) ltac:(lia) E) as (names & N1 & N2 & N3 & _).
  exists names. split; [done|]. intros Hz Hsm Hf.
  apply (plan_description_spec config fuel d' f); [|done|by rewrite length_fmap]. rewrite (Hcol (length names)).
  - apply Forall2_same_length_lookup_2; [by rewrite !length_fmap, length_seq|]. intros i c p Hc Hp.
    apply list_lookup_fmap_Some in Hc as (j & -> & Hj). apply list_lookup_fmap_Some in Hp as (name & -> & Hname).
    apply lookup_seq in Hj as [Hj _]. subst j. cbn [Nat.add]. change (Z.of_nat i + 1) with (0 + Z.of_nat i + 1).
    apply column_parm_described; [by apply N2| |].
    + by eapply Forall_lookup_1 in Hz.
    + by eapply Forall_lookup_1 in Hname; [|exact (column_names_no_nul _ _ N1)].
  - intros y. rewrite N3, Hnone. split; [intros [(i & Hi & ->)|Hy]; [by exists i|by apply not_elem_of_nil in Hy]|intros (i & Hi & ->); left; by exists i].
Qed.
End columns.

(** ** A sample *)
#[local] Existing Instance map_db.
#[local] Existing Instance map_db_laws.
#[local] Existing Instance map_nodes.
#[local] Existing Instance map_nodes_laws.
#[local] Existing Instance toy_sql.
#[local] Existing Instance toy_runtime.
Lemma child_below k x l : x ≠ [] → child k (k ++ x :: l) = Some x.
Proof.
  intros Hx. unfold child. rewrite take_app_length, decide_True by done. rewrite list_lookup_middle by done. by destruct x.
Qed.
#[local] Instance map_subtree_laws : @SubtreeLaws map_db map_nodes map_nodes_laws.
Proof.
  split. cbn [ydb_set_s map_db subscripts map_nodes_laws]. intros d k x l v d' y [= <-] Hx. rewrite !elem_of_elements. unfold children.
  rewrite dom_insert, !elem_of_set_omap. split.
  - intros (key & Hkey & E). apply elem_of_union in Hkey as [->%elem_of_singleton|Hkey]; [|by right; exists key].
    left. rewrite child_below in E by done. by injection E.
  - intros [->|(key & Hkey & E)].
    + exists (k ++ x :: l). split; [apply elem_of_union; left; by apply elem_of_singleton|by apply child_below].
    + exists key. split; [apply elem_of_union; by right|done].
Defined.
Lemma collates_one d node : subscripts d node = [dec 1] → collates d node.
Proof.
  intros E n Hn. destruct n as [|[|n]]; [|done|]; exfalso.
  - destruct (proj1 (Hn (dec 1))) as (i & Hi & _); [rewrite E; by left|lia].
  - assert (Hin : dec 2 ∈ subscripts d node) by (apply Hn; exists 1%nat; split; [lia|done]).
    rewrite E in Hin. by apply list_elem_of_singleton in Hin.
Qed.
Definition orders_file : list byte := lit "/tmp/_x.m".
(** What a computation returns; it need not be written out. *)
Definition returned {A} (a : A) (o : outcome A) : A := match o with Ret a => a | _ => a end.
Definition has_returned {A} (o : outcome A) : bool := match o with Ret _ => true | _ => false end.
Lemma has_returned_value {A} (a : A) (o : outcome A) : has_returned o = true → o = Ret (returned a o).
Proof. by destruct o. Qed.
Definition orders_noted : @db map_db := returned empty_db (set_columns orders_state toy_octo orders_file 0 (q_columns orders_planned) (empty_db : @db map_db)).
Lemma columns_described_witness : ∃ m,
  get_plan_row_description toy_config 2 orders_noted orders_file = Ret m ∧ wire m = Ret (columns_frame [described (lit "ID")]).
Proof.
  destruct (columns_described toy_config orders_state orders_file 2 (q_columns orders_planned) empty_db orders_noted) as (names & Hn & Hd).
  - apply has_returned_value. vm_compute. reflexivity.
  - done.
  - vm_compute. reflexivity.
  - apply collates_one. vm_compute. reflexivity.
  - vm_compute in Hn. injection Hn as <-. apply Hd; [eval_decide|by vm_compute|cbn; lia].
Defined.
