(* ===== verification/MTheorems.v ===== *)
(** * What the M text of an expression says

    The text printed for an expression of a plan, read the way M reads it - from left to
    right, without precedence - is the M expression [means] gives for the plan: every
    parenthesis, quote and argument is where it has to be.  What that M expression is worth is
    in [MMeaning]. *)
From stdpp Require Import gmap strings.
From S2P Require Import Prelude CMem Errors LogicalPlan SqlStatement Optimize PhysicalPlan Session EmitPlan EmitColumns MExpression.

(** ** Parts of a text *)
Definition delimiters : list byte := lit ",):+-/*_!&=<>']".
(** What may follow an atom, and what may follow an expression. *)
Definition delimits (rest : list byte) : Prop := match rest with [] => True | c :: _ => c ∈ delimiters end.
Definition ends (rest : list byte) : Prop := match rest with [] => True | c :: _ => c ∈ lit ",):" end.
Definition atom (text : list byte) (e : mexpr) : Prop :=
  text ≠ [] ∧ head text ≠ Some (chr ")") ∧
  ∀ n rest, delimits rest → (4 * length text ≤ n)%nat → parse_atom n (text ++ rest) = Some (e, rest).
Definition arg (text : list byte) (ev : mexpr * option mexpr) : Prop :=
  text ≠ [] ∧ head text ≠ Some (chr ")") ∧
  ∀ n rest, rest ≠ [] → head rest ≠ Some (chr ":") → ends rest → (4 * length text + 2 ≤ n)%nat →
    parse_argument (parse_expression n) (text ++ rest) = Some (ev, rest).

Lemma atom_eq text text' e : atom text e → text = text' → atom text' e.
Proof. by intros H <-. Qed.
Lemma delimiter_of c : c ∈ lit ",):" → c ∈ delimiters.
Proof. intros H. unfold delimiters. apply list_elem_of_In in H. apply list_elem_of_In. vm_compute in H |- *. tauto. Qed.
Lemma ends_delimits rest : ends rest → delimits rest.
Proof. destruct rest; [done|]. apply delimiter_of. Qed.
Lemma ends_operator rest : ends rest → parse_operator rest = None.
Proof.
  destruct rest as [|c rest]; [done|]. cbn [ends]. intros H. apply list_elem_of_In in H. cbn in H.
  destruct H as [<-|[<-|[<-|[]]]]; done.
Qed.
Lemma atom_expression text e n rest : atom text e → ends rest → (4 * length text + 2 ≤ n)%nat → parse_expression n (text ++ rest) = Some (e, rest).
Proof.
  intros (_ & _ & Ha) He Hn. destruct n as [|[|n]]; [lia..|]. cbn [parse_expression].
  rewrite Ha; [|by apply ends_delimits|lia]. cbn [mbind option_bind parse_operations]. by rewrite ends_operator.
Qed.
(** Two atoms with an operator between them. *)
Definition binary_operators : list (list byte) :=
  [lit "+"; lit "-"; lit "/"; lit "*"; lit "_"; lit "!"; lit "&"; lit "="; lit "<"; lit ">"; lit "'="; lit "'>"; lit "'<"; lit "]]"].
Lemma operator_parsed op rest : op ∈ binary_operators → parse_operator (op ++ rest) = Some (op, rest) ∧ delimits (op ++ rest) ∧ (1 ≤ length op)%nat.
Proof.
  intros H. apply list_elem_of_In in H. cbn [binary_operators In] in H.
  repeat (destruct H as [<-|H]; [split; [reflexivity|split; [cbn; eval_decide|cbn; lia]]|]). done.
Qed.
Lemma operation_expression op x ex y ey n rest : op ∈ binary_operators → atom x ex → atom y ey → ends rest →
  (4 * length (x ++ op ++ y) + 2 ≤ n)%nat → parse_expression n (x ++ op ++ y ++ rest) = Some (MBinary op ex ey, rest).
Proof.
  intros Hop (_ & _ & Hx) (_ & _ & Hy) He Hn. destruct (operator_parsed op (y ++ rest) Hop) as (Ho & Hd & Hl).
  rewrite !length_app in Hn. destruct n as [|[|[|n]]]; [lia..|]. cbn [parse_expression].
  rewrite Hx; [|done|lia]. cbn [mbind option_bind parse_operations]. rewrite Ho, Hy; [|by apply ends_delimits|lia].
  cbn [mbind option_bind]. by rewrite ends_operator.
Qed.
Lemma paren_ends rest : ends (chr ")" :: rest).
Proof. cbn. eval_decide. Qed.
Lemma atom_paren n text e rest : (∀ rest, ends rest → parse_expression n (text ++ rest) = Some (e, rest)) →
  parse_atom (S n) (lit "(" ++ text ++ lit ")" ++ rest) = Some (e, rest).
Proof.
  intros H. change (lit "(" ++ text ++ lit ")" ++ rest) with (chr "(" :: (text ++ chr ")" :: rest)). cbn [parse_atom].
  rewrite decide_False by eval_decide. rewrite decide_True by done. rewrite H by apply paren_ends. cbn [mbind option_bind]. by rewrite decide_True.
Qed.
Lemma atom_binary op x ex y ey : op ∈ binary_operators → atom x ex → atom y ey → atom (binary op x y) (MBinary op ex ey).
Proof.
  intros Hop Hx Hy. split; [done|]. split; [done|]. intros n rest Hd Hn. unfold binary in *. rewrite !length_app in Hn. cbn in Hn.
  destruct n as [|n]; [lia|]. replace ((lit "(" ++ x ++ op ++ y ++ lit ")") ++ rest) with (lit "(" ++ (x ++ op ++ y) ++ lit ")" ++ rest)
    by (by rewrite <- !app_assoc).
  apply atom_paren. intros r He. rewrite <- !app_assoc. apply operation_expression; [done..|]. rewrite !length_app. lia.
Qed.
Lemma atom_group x e : atom x e → atom (lit "(" ++ x ++ lit ")") e.
Proof.
  intros Hx. split; [done|]. split; [done|]. intros n rest Hd Hn. rewrite !length_app in Hn. cbn in Hn.
  destruct n as [|n]; [lia|]. rewrite <- !app_assoc. apply atom_paren. intros r He. apply atom_expression; [done..|]. lia.
Qed.
Lemma atom_unary c x e : c ∈ lit "+-'" → atom x e → atom (c :: x) (MUnary c e).
Proof.
  intros Hc (Hne & Hh & Hx). split; [done|]. split.
  - intros [= ->]. revert Hc. eval_decide.
  - intros n rest Hd Hn. cbn in Hn. destruct n as [|n]; [lia|]. cbn [app parse_atom]. rewrite decide_True by done. rewrite Hx; [done|done|lia].
Qed.
Lemma atom_argument x e : atom x e → arg x (e, None).
Proof.
  intros Hx. pose proof Hx as (Hne & Hh & _). split; [done|]. split; [done|]. intros n rest Hr Hc He Hn.
  unfold parse_argument. rewrite (atom_expression x e) by (done || lia). cbn [mbind option_bind].
  destruct rest as [|c rest]; [done|]. by rewrite decide_False by (intros ->; by apply Hc).
Qed.

(** ** Strings *)
Definition doubled (s : list byte) : list byte := s ≫= λ c, if decide (c = double_quote) then [c; c] else [c].
Lemma parse_doubled s rest : head rest ≠ Some double_quote → parse_string (doubled s ++ double_quote :: rest) = Some (s, rest).
Proof.
  intros Hr. induction s as [|c s IH].
  - cbn [doubled mbind list_bind app parse_string]. rewrite decide_True by done. destruct rest as [|c rest]; [done|].
    by rewrite decide_False by (intros ->; by apply Hr).
  - unfold doubled. cbn [mbind list_bind]. fold (doubled s). destruct (decide (c = double_quote)) as [->|Hc]; cbn [app parse_string].
    + rewrite decide_True by done. by rewrite decide_True, IH by done.
    + by rewrite decide_False, IH by done.
Qed.
Lemma delimits_no_quote rest : delimits rest → head rest ≠ Some double_quote.
Proof. destruct rest as [|c rest]; [done|]. intros H [= ->]. revert H. cbn [delimits]. eval_decide. Qed.
Lemma atom_string s : atom (quoted (doubled s)) (MString s).
Proof.
  split; [done|]. split; [done|]. intros n rest Hd Hn. unfold quoted in *. rewrite !length_app in Hn. cbn in Hn. destruct n as [|n]; [lia|].
  replace (([double_quote] ++ doubled s ++ [double_quote]) ++ rest) with (double_quote :: (doubled s ++ double_quote :: rest))
    by (cbn; by rewrite <- app_assoc).
  cbn [parse_atom]. rewrite decide_False by eval_decide. rewrite decide_False by done. rewrite decide_True by done.
  by rewrite parse_doubled by by apply delimits_no_quote.
Qed.
Lemma doubled_id s : double_quote ∉ s → doubled s = s.
Proof.
  induction s as [|c s IH]; [done|]. intros H. apply not_elem_of_cons in H as [Hc Hs]. unfold doubled. cbn [mbind list_bind].
  rewrite decide_False by (intros ->; by apply Hc). cbn [app]. f_equal. by apply IH.
Qed.

(** ** Names *)
Definition name_text (name : list byte) : Prop := name ≠ [] ∧ Forall (λ c, name_char c = true) name.
Definition after_name (rest : list byte) : Prop := match rest with [] => True | c :: _ => name_char c = false ∧ c ≠ chr "|" end.
Lemma delimits_after_name rest : delimits rest → after_name rest.
Proof.
  destruct rest as [|c rest]; [done|]. cbn [delimits after_name]. unfold delimiters. intros H. apply list_elem_of_In in H. cbn in H.
  repeat (destruct H as [<-|H]; [split; [reflexivity|done]|]). done.
Qed.
Lemma span_name_text name rest : Forall (λ c, name_char c = true) name → after_name rest → span_name (name ++ rest) = (name, rest).
Proof.
  intros HF Hr. induction HF as [|c name Hc _ IH]; cbn [app].
  - destruct rest as [|c rest]; [done|]. cbn [span_name]. destruct Hr as [-> _]. done.
  - cbn [span_name]. by rewrite Hc, IH.
Qed.
Lemma parse_name_text name rest : name_text name → after_name rest → parse_name (name ++ rest) = Some (name, rest).
Proof.
  intros [Hne HF] Hr. pose proof (span_name_text name rest HF Hr) as Hs. destruct name as [|c1 name]; [done|]. cbn [app] in *. unfold parse_name.
  assert (Hbar : head (name ++ rest) ≠ Some (chr "|")).
  { inversion HF as [|? ? _ HF']; subst. destruct name as [|c2 name]; cbn [app head].
    - destruct rest as [|c rest]; [done|]. intros [= ->]. by apply (proj2 Hr).
    - intros [= ->]. inversion HF'; subst. done. }
  destruct (name ++ rest) as [|c2 [|c3 t]]; [by rewrite Hs..|]. rewrite decide_False; [by rewrite Hs|]. intros (_ & -> & _). by apply Hbar.
Qed.
Lemma name_char_start c : name_char c = true → (c ∉ lit "+-'") ∧ c ≠ chr "(" ∧ c ≠ double_quote ∧ c ≠ chr ")".
Proof. intros H. repeat split; [intros Hin; apply list_elem_of_In in Hin; cbn in Hin; repeat (destruct Hin as [<-|Hin]; [done|]); done|intros ->; done..]. Qed.
Lemma atom_name name : name_text name → atom name (MName name).
Proof.
  intros Hn. pose proof Hn as [Hne HF]. destruct name as [|c name]; [done|]. inversion HF as [|? ? Hc _]; subst.
  destruct (name_char_start c Hc) as (H1 & H2 & H3 & H4). split; [done|]. split; [intros [= ->]; done|]. intros n rest Hd Hl.
  destruct n as [|n]; [cbn in Hl; lia|]. pose proof (delimits_after_name _ Hd) as Ha. pose proof (parse_name_text _ rest Hn Ha) as Hp.
  cbn [app parse_atom] in *. rewrite !decide_False by done. rewrite Hp. cbn [mbind option_bind]. destruct rest as [|r rest]; [done|].
  rewrite decide_False; [done|]. intros ->. revert Hd. cbn [delimits]. eval_decide.
Qed.

(** ** Calls *)
Fixpoint join (texts : list (list byte)) : list byte :=
  match texts with
  | [] => []
  | [t] => t
  | t :: texts' => t ++ lit "," ++ join texts'
  end.
Lemma comma_ends rest : ends (chr "," :: rest).
Proof. cbn. eval_decide. Qed.
Lemma parse_arguments_join texts evs : Forall2 arg texts evs → ∀ n rest, (4 * length (join texts) + 5 ≤ n)%nat →
  parse_arguments n (join texts ++ chr ")" :: rest) = Some (evs, rest).
Proof.
  intros HF. induction HF as [|t ev texts evs (Hne & Hh & Ht) HF IH]; intros n rest Hn; (destruct n as [|n]; [lia|]).
  - cbn [join app parse_arguments]. by rewrite decide_True.
  - assert (Hstart : ∃ c t', t = c :: t' ∧ c ≠ chr ")") by (destruct t as [|c t']; [done|]; exists c, t'; split; [done|]; intros ->; by apply Hh).
    destruct Hstart as (c & t' & -> & Hc). destruct HF as [|t2 ev2 texts evs H2 HF].
    + cbn [join]. specialize (Ht n (chr ")" :: rest) ltac:(done) ltac:(done) (paren_ends rest)). cbn [join] in Hn.
      cbn [app parse_arguments] in *. rewrite decide_False by done. rewrite Ht by lia. cbn [mbind option_bind].
      rewrite decide_False by done. by rewrite decide_True.
    + change (join ((c :: t') :: t2 :: texts)) with ((c :: t') ++ lit "," ++ join (t2 :: texts)) in *. rewrite !length_app in Hn. rewrite <- !app_assoc.
      specialize (Ht n (lit "," ++ join (t2 :: texts) ++ chr ")" :: rest) ltac:(done) ltac:(done) (comma_ends _)).
      cbn [app parse_arguments] in *. rewrite decide_False by done. rewrite Ht by (cbn in *; lia). cbn [mbind option_bind].
      change (lit "," ++ join (t2 :: texts) ++ chr ")" :: rest) with (chr "," :: (join (t2 :: texts) ++ chr ")" :: rest)). cbv iota.
      rewrite decide_True by done. rewrite IH by (cbn in *; lia). done.
Qed.
(** A text that is read as the name of a call. *)
Definition call_name (text name : list byte) : Prop :=
  (∃ c t, text = c :: t ∧ (c ∉ lit "+-'") ∧ c ≠ chr "(" ∧ c ≠ double_quote ∧ c ≠ chr ")") ∧
  ∀ rest, parse_name (text ++ chr "(" :: rest) = Some (name, chr "(" :: rest).
Lemma name_call name : name_text name → call_name name name.
Proof.
  intros Hn. split.
  - pose proof Hn as [Hne HF]. destruct name as [|c name]; [done|]. inversion HF; subst. exists c, name. split; [done|]. by apply name_char_start.
  - intros rest. apply parse_name_text; [done|]. by split.
Qed.
Lemma atom_call text name texts evs : call_name text name → Forall2 arg texts evs → atom (text ++ lit "(" ++ join texts ++ lit ")") (MCall name evs).
Proof.
  intros [(c & t & -> & H1 & H2 & H3 & H4) Hp] HF. split; [done|]. split; [intros [= ->]; done|]. intros n rest Hd Hn.
  rewrite !length_app in Hn. cbn in Hn. destruct n as [|n]; [lia|].
  replace (((c :: t) ++ lit "(" ++ join texts ++ lit ")") ++ rest) with ((c :: t) ++ chr "(" :: (join texts ++ chr ")" :: rest))
    by (rewrite <- !app_assoc; reflexivity).
  specialize (Hp (join texts ++ chr ")" :: rest)). cbn [app parse_atom] in *. rewrite !decide_False by done. rewrite Hp. cbn [mbind option_bind].
  rewrite decide_True by done. rewrite (parse_arguments_join texts evs HF) by lia. done.
Qed.
Lemma join_snoc texts t : texts ≠ [] → join (texts ++ [t]) = join texts ++ lit "," ++ t.
Proof.
  induction texts as [|x texts IH]; [done|]. intros _. destruct texts as [|y texts]; [done|].
  change (join ((x :: y :: texts) ++ [t])) with (x ++ lit "," ++ join ((y :: texts) ++ [t])). rewrite IH by done.
  change (join (x :: y :: texts)) with (x ++ lit "," ++ join (y :: texts)). by rewrite <- !app_assoc.
Qed.
(** A part of $SELECT. *)
Lemma branch_argument c ec v ev r er : atom c ec → atom v ev → atom r er →
  arg (lit "(" ++ c ++ lit ")=(" ++ v ++ lit "):(" ++ r ++ lit ")") (MBinary (lit "=") ec ev, Some er).
Proof.
  intros Hc Hv Hr. split; [done|]. split; [done|]. intros n rest Hne Hcolon He Hn. rewrite !length_app in Hn. cbn in Hn. unfold parse_argument.
  replace ((lit "(" ++ c ++ lit ")=(" ++ v ++ lit "):(" ++ r ++ lit ")") ++ rest)
    with ((lit "(" ++ c ++ lit ")") ++ lit "=" ++ (lit "(" ++ v ++ lit ")") ++ (chr ":" :: ((lit "(" ++ r ++ lit ")") ++ rest)))
    by (rewrite <- !app_assoc; reflexivity).
  rewrite (operation_expression (lit "=") _ ec _ ev).
  - cbn [mbind option_bind]. rewrite decide_True by done. rewrite (atom_expression _ er); [done|by apply atom_group|done|rewrite !length_app; cbn; lia].
  - eval_decide.
  - by apply atom_group.
  - by apply atom_group.
  - cbn. eval_decide.
  - rewrite !length_app. cbn. lia.
Qed.
Lemma default_argument v e : atom v e → arg (lit "1:" ++ v) (MName (lit "1"), Some e).
Proof.
  intros Hv. split; [done|]. split; [done|]. intros n rest Hne Hcolon He Hn. rewrite !length_app in Hn. cbn in Hn. unfold parse_argument.
  replace ((lit "1:" ++ v) ++ rest) with (lit "1" ++ (chr ":" :: (v ++ rest))) by done.
  rewrite (atom_expression (lit "1") (MName (lit "1"))).
  - cbn [mbind option_bind]. rewrite decide_True by done. rewrite (atom_expression _ e); [done|done|done|lia].
  - apply atom_name. split; [done|]. by repeat constructor.
  - cbn. eval_decide.
  - cbn. lia.
Qed.

(** ** Keys *)
Section printed.
Context (cat : catalog) (s : planner) (global_directory raw_cursor : list byte) (column_reference : ptr → outcome (list byte)).
(** What a column is in M, and that its text says so. *)
Context (column_tree : ptr → mexpr) (Hcolumn : ∀ p text, column_reference p = Ret text → atom text (column_tree p)).
Context (Hdirectory : double_quote ∉ cstr global_directory) (Hcursor : Forall (λ c, name_char c = true) (cstr raw_cursor)).
Abbreviation print := (print_expression cat s global_directory raw_cursor column_reference).
Abbreviation key_text := (tmpl_key cat s global_directory raw_cursor).

(** The node of the cursor a key is kept in. *)
Definition key_name : list byte := lit "^|" ++ cstr global_directory ++ lit "|" ++ cstr raw_cursor.
Definition plain_arg (e : mexpr) : mexpr * option mexpr := (e, None).
Definition key_subscripts (id : Z) (tableName columnName : list byte) : list mexpr :=
  [MName (lit "cursorId"); MString (lit "keys"); MName (dec id); MString tableName; MString columnName].
Record key_ok (k : ptr) (subs : list mexpr) : Prop := {
  key_means : ∃ key t c, pl_keys s !! k = Some key ∧ 0 ≤ k_unique_id key ∧ (double_quote ∉ t) ∧ (double_quote ∉ c) ∧
    (if decide (k_table key = null) then t = [] else table_text cat s (k_table key) = Ret t) ∧
    (if decide (k_column key = null) then c = [] else column_text cat s (k_column key) = Ret c) ∧
    subs = key_subscripts (k_unique_id key) t c;
}.
Definition node_text : list byte :=
  lit "^|" ++ [double_quote] ++ cstr global_directory ++ [double_quote] ++ lit "|" ++ cstr raw_cursor.
Lemma node_name : call_name node_text key_name.
Proof.
  split; [eexists (chr "^"), _; split; [reflexivity|]; split; [eval_decide|done]|]. intros rest. unfold node_text. rewrite <- !app_assoc.
  change (lit "^|" ++ [double_quote] ++ cstr global_directory ++ [double_quote] ++ lit "|" ++ cstr raw_cursor ++ chr "(" :: rest)
    with (chr "^" :: chr "|" :: double_quote :: (cstr global_directory ++ double_quote :: (chr "|" :: (cstr raw_cursor ++ chr "(" :: rest)))).
  unfold parse_name. rewrite decide_True by done. rewrite <- (doubled_id (cstr global_directory)) at 1 by done.
  rewrite parse_doubled by done. cbn [mbind option_bind]. rewrite decide_True by done. by rewrite span_name_text.
Qed.
Lemma digits_named fuel m acc : Forall (λ c, name_char c = true) acc → Forall (λ c, name_char c = true) (digits fuel 10 m acc).
Proof.
  revert m acc. induction fuel as [|fuel IH]; intros m acc HF; cbn [digits]; [done|].
  assert (Hd : name_char (digit (m mod 10)) = true).
  { pose proof (Z.mod_pos_bound m 10 ltac:(lia)). assert (Hm : m mod 10 ∈ [0; 1; 2; 3; 4; 5; 6; 7; 8; 9]).
    { rewrite !elem_of_cons. lia. }
    repeat (apply elem_of_cons in Hm as [->|Hm]; [done|]). by apply not_elem_of_nil in Hm. }
  destruct (_ =? 0); [by constructor|]. apply IH. by constructor.
Qed.
Lemma dec_name n : 0 ≤ n → name_text (dec n).
Proof.
  intros Hn. split; [apply dec_nonempty|]. unfold dec. destruct (Z.ltb_spec n 0); [lia|]. apply digits_named. constructor.
Qed.
Lemma word_name (w : list byte) : w ≠ [] → forallb name_char w = true → atom w (MName w).
Proof. intros Hne Hw. apply atom_name. split; [done|]. apply list.Forall_forall. intros c Hc. by apply forallb_forall with (x := c) in Hw; [|apply list_elem_of_In]. Qed.
Lemma word_call (w : list byte) texts evs : w ≠ [] → forallb name_char w = true → Forall2 arg texts evs →
  atom (w ++ lit "(" ++ join texts ++ lit ")") (MCall w evs).
Proof.
  intros Hne Hw. apply atom_call, name_call. split; [done|]. apply list.Forall_forall. intros c Hc.
  by apply forallb_forall with (x := c) in Hw; [|apply list_elem_of_In].
Qed.
Lemma plain_string t : double_quote ∉ t → atom (quoted t) (MString t).
Proof. intros Ht. rewrite <- (doubled_id t) at 1 by done. apply atom_string. Qed.
Lemma key_printed k subs : key_ok k subs → ∃ texts, key_text k = Ret (node_text ++ lit "(" ++ join texts ++ lit ")") ∧
  Forall2 arg texts (plain_arg <$> subs) ∧ texts ≠ [].
Proof.
  intros [(key & t & c & Hk & Hid & Ht & Hc & Tt & Tc & ->)]. exists [lit "cursorId"; quoted (lit "keys"); dec (k_unique_id key); quoted t; quoted c].
  split; [|split; [|done]].
  - unfold tmpl_key. rewrite Hk. cbn [found mbind outcome_bind].
    assert (E1 : (if decide (k_table key = null) then Ret [] else table_text cat s (k_table key)) = Ret t) by (clear -Tt; destruct (decide (k_table key = null)) in Tt |- *; [by rewrite Tt|done]).
    assert (E2 : (if decide (k_column key = null) then Ret [] else column_text cat s (k_column key)) = Ret c) by (clear -Tc; destruct (decide (k_column key = null)) in Tc |- *; [by rewrite Tc|done]).
    rewrite E1. cbn [mbind outcome_bind]. rewrite E2. cbn [mbind outcome_bind]. f_equal. unfold node_text, quoted. cbn [join]. rewrite <- !app_assoc. reflexivity.
  - cbn [key_subscripts fmap list_fmap plain_arg]. constructor; [by apply atom_argument, word_name|].
    constructor; [apply atom_argument, plain_string; eval_decide|]. constructor; [by apply atom_argument, atom_name, dec_name|].
    do 2 (constructor; [by apply atom_argument, plain_string|]). constructor.
Qed.
(** With a subscript more. *)
Lemma open_key_printed k subs : key_ok k subs → ∃ text, open_key cat s global_directory raw_cursor (Leaf LP_KEY (VKey k)) = Ret text ∧
  ∀ t e, atom t e → atom (text ++ lit "," ++ t ++ lit ")") (MCall key_name (plain_arg <$> (subs ++ [e]))).
Proof.
  intros (texts & E & HF & Hne)%key_printed. exists (node_text ++ lit "(" ++ join texts). split.
  - unfold open_key. cbn [lp_key mbind outcome_bind]. rewrite E. cbn [mbind outcome_bind]. rewrite !app_assoc. change (lit ")") with [chr ")"]. by rewrite removelast_last.
  - intros t e Ht. replace ((node_text ++ lit "(" ++ join texts) ++ lit "," ++ t ++ lit ")") with (node_text ++ lit "(" ++ join (texts ++ [t]) ++ lit ")")
      by (rewrite join_snoc by done; by rewrite <- !app_assoc).
    apply atom_call; [apply node_name|]. rewrite fmap_app. apply Forall2_app; [done|]. constructor; [by apply atom_argument|constructor].
Qed.

(** ** What a plan says *)
Definition literal_type (t : SqlValueType) : bool :=
  match t with NUMBER_LITERAL | STRING_LITERAL | DATE_TIME | UNKNOWN_SqlValueType | BOOLEAN_VALUE => true | _ => false end.
Definition unary_operator (t : LPActionType) : option byte :=
  match t with LP_FORCE_NUM => Some (chr "+") | LP_NEGATIVE => Some (chr "-") | LP_BOOLEAN_NOT => Some (chr "'") | _ => None end.
(** [a < b] of strings is [b ]] a]: b follows a. *)
Definition compared (t : LPActionType) (strings : bool) (x y : mexpr) : mexpr :=
  if strings then (if decide (t = LP_BOOLEAN_LESS_THAN) then MBinary (lit "]]") y x else MBinary (lit "]]") x y)
  else MBinary (if decide (t = LP_BOOLEAN_LESS_THAN) then lit "<" else lit ">") x y.

(** The M expression the printer intends for a plan, by kind of node. *)
Inductive means : LogicalPlan → mexpr → Prop :=
  | means_literal p v text : value_at (pl_values s) p = Ret v → literal_type (sv_type v) = true → cstr (sv_literal v) = doubled text →
      means (Leaf LP_VALUE (VValue p)) (MString text)
  | means_null p v : value_at (pl_values s) p = Ret v → sv_type v = NUL_VALUE → means (Leaf LP_VALUE (VValue p)) (MString [])
  | means_parameter p v n : value_at (pl_values s) p = Ret v → sv_type v = PARAMETER_VALUE → string_at (sv_literal v ++ [nul]) 1 = Ret n →
      Forall (λ c, name_char c = true) n → means (Leaf LP_VALUE (VValue p)) (MName (lit "parm" ++ n))
  | means_column p text : column_reference p = Ret text → means (Leaf LP_COLUMN_ALIAS (VColumnAlias p)) (column_tree p)
  | means_key k subs : key_ok k subs → means (Leaf LP_KEY (VKey k)) (MCall key_name (plain_arg <$> subs))
  | means_where a b x : means a x → means (Op LP_WHERE a b) x
  | means_operator t op a b x y : operator t = Some op → means a x → means b y → means (Op t a b) (MBinary op x y)
  | means_comparison t a b strings x y : t = LP_BOOLEAN_LESS_THAN ∨ t = LP_BOOLEAN_GREATER_THAN → string_comparison s (Op t a b) = Ret strings →
      means a x → means b y → means (Op t a b) (compared t strings x y)
  | means_regex t a b x y : t = LP_BOOLEAN_REGEX_SENSITIVE ∨ t = LP_BOOLEAN_REGEX_INSENSITIVE → means a x → means b y →
      means (Op t a b) (MCall (lit "$$regmatch^%ydbposix")
        (plain_arg <$> ([x; y] ++ if decide (t = LP_BOOLEAN_REGEX_INSENSITIVE) then [MName (lit "3")] else [])))
  | means_in t a k subs x : t = LP_BOOLEAN_IN ∨ t = LP_BOOLEAN_NOT_IN → key_ok k subs → means a x →
      means (Op t a (Leaf LP_KEY (VKey k))) (MBinary (if decide (t = LP_BOOLEAN_IN) then lit "'=" else lit "=")
        (MCall (lit "$D") [plain_arg (MCall key_name (plain_arg <$> (subs ++ [x])))]) (MName (lit "0")))
  | means_unary t c a b x : unary_operator t = Some c → means a x → means (Op t a b) (MUnary c x)
  | means_call p v b xs : value_at (pl_values s) p = Ret v → sv_type v = FUNCTION_NAME → name_text (cstr (sv_literal v)) → means_list b xs →
      means (Op LP_FUNCTION_CALL (Leaf LP_VALUE (VValue p)) b) (MCall (cstr (sv_literal v)) (plain_arg <$> xs))
  | means_derived k n subs : key_ok k subs → 0 ≤ n → means (Op LP_DERIVED_COLUMN (Leaf LP_KEY (VKey k)) (Leaf LP_PIECE_NUMBER (VPieceNumber n)))
      (MCall (lit "$P") (plain_arg <$> [MCall key_name (plain_arg <$> (subs ++ [MCall key_name (plain_arg <$> subs)])); MString (lit "|"); MName (dec n)]))
  | means_subquery a b k subs : lp_get_output_key (Op LP_INSERT a b) = Ret (Leaf LP_KEY (VKey k)) → key_ok k subs →
      means (Op LP_INSERT a b) (MCall (lit "$O") [plain_arg (MCall key_name (plain_arg <$> (subs ++ [MString []])))])
  | means_case v els bs x xs : means v x → lp_type bs = Ret LP_CASE_BRANCH → means_branches x bs xs →
      means (Op LP_CASE (Op LP_CASE_STATEMENT v els) bs) (MCall (lit "$S") (xs ++ [(MName (lit "1"), Some x)]))
  | means_case_true els bs xs : lp_type bs = Ret LP_CASE_BRANCH → means_branches (MName (lit "1")) bs xs →
      means (Op LP_CASE (Op LP_CASE_STATEMENT NULL els) bs) (MCall (lit "$S") (xs ++ [(MName (lit "1"), Some (MString []))]))
with means_list : LogicalPlan → list mexpr → Prop :=
  | means_nil : means_list NULL []
  | means_cons t a rest x xs : means a x → means_list rest xs → means_list (Op t a rest) (x :: xs)
with means_branches : mexpr → LogicalPlan → list (mexpr * option mexpr) → Prop :=
  | branches_nil value : means_branches value NULL []
  | branches_cons value t c r rest x y xs : means c x → means r y → means_branches value rest xs →
      means_branches value (Op t (Op LP_CASE_BRANCH_STATEMENT c r) rest) ((MBinary (lit "=") x value, Some y) :: xs).
Scheme means_induction := Induction for means Sort Prop
  with means_list_induction := Induction for means_list Sort Prop
  with means_branches_induction := Induction for means_branches Sort Prop.
Combined Scheme means_mutual from means_induction, means_list_induction, means_branches_induction.

Definition says (plan : LogicalPlan) (e : mexpr) : Prop := ∃ text, print plan = Ret text ∧ atom text e.
Definition says_list (plan : LogicalPlan) (xs : list mexpr) : Prop :=
  ∃ texts, print_arguments cat s global_directory raw_cursor column_reference plan = Ret (join texts) ∧ Forall2 arg texts (plain_arg <$> xs).
Definition says_branches (value : mexpr) (plan : LogicalPlan) (xs : list (mexpr * option mexpr)) : Prop := ∀ v, atom v value →
  ∃ texts, print_branches cat s global_directory raw_cursor column_reference v plan = Ret (concat ((λ t, t ++ lit ",") <$> texts)) ∧ Forall2 arg texts xs.
Lemma operator_known t op : operator t = Some op → op ∈ binary_operators.
Proof. destruct t; try done; intros [= <-]; eval_decide. Qed.
Lemma join_concat texts t : concat ((λ t, t ++ lit ",") <$> texts) ++ t = join (texts ++ [t]).
Proof.
  induction texts as [|x texts IH]; [done|]. cbn [fmap list_fmap concat]. rewrite <- !app_assoc, IH. destruct texts as [|y texts]; done.
Qed.
Lemma select_text branches v e xs : Forall2 arg branches xs → atom v e →
  atom (lit "$S(" ++ concat ((λ t, t ++ lit ",") <$> branches) ++ lit "1:" ++ v ++ lit ")") (MCall (lit "$S") (xs ++ [(MName (lit "1"), Some e)])).
Proof.
  intros HF Hv. replace (lit "$S(" ++ concat ((λ t, t ++ lit ",") <$> branches) ++ lit "1:" ++ v ++ lit ")")
    with (lit "$S" ++ lit "(" ++ join (branches ++ [lit "1:" ++ v]) ++ lit ")") by (rewrite <- join_concat, <- !app_assoc; reflexivity).
  apply atom_call; [apply name_call; split; [done|by repeat constructor]|]. apply Forall2_app; [done|]. constructor; [by apply default_argument|constructor].
Qed.

(** The cases that are not a binary operator of two operands. *)
Lemma says_in t a k subs x : t = LP_BOOLEAN_IN ∨ t = LP_BOOLEAN_NOT_IN → key_ok k subs → says a x →
  says (Op t a (Leaf LP_KEY (VKey k))) (MBinary (if decide (t = LP_BOOLEAN_IN) then lit "'=" else lit "=")
    (MCall (lit "$D") [plain_arg (MCall key_name (plain_arg <$> (subs ++ [x])))]) (MName (lit "0"))).
Proof.
  intros Ht (ktext & Ek & Hk)%open_key_printed (text & E & Ha). specialize (Hk text x Ha).
  pose proof (word_call (lit "$D") [_] [_] ltac:(done) ltac:(done) (List.Forall2_cons _ _ (atom_argument _ _ Hk) (List.Forall2_nil _))) as Hd. cbn [join] in Hd.
  destruct Ht as [-> | ->]; (eexists; split; [cbn [print_expression operator]; unfold get_lp; cbn [operand lp_type mbind outcome_bind];
    rewrite bool_decide_true by done; cbn [c_assert mbind outcome_bind]; rewrite Ek; cbn [mbind outcome_bind]; rewrite E; reflexivity|]).
  - eapply atom_eq; [exact (atom_binary (lit "'=") _ _ (lit "0") _ ltac:(eval_decide) Hd (word_name (lit "0") ltac:(done) ltac:(done)))|].
    unfold binary. rewrite <- !app_assoc. reflexivity.
  - eapply atom_eq; [exact (atom_binary (lit "=") _ _ (lit "0") _ ltac:(eval_decide) Hd (word_name (lit "0") ltac:(done) ltac:(done)))|].
    unfold binary. rewrite <- !app_assoc. reflexivity.
Qed.
Lemma says_regex t a b x y : t = LP_BOOLEAN_REGEX_SENSITIVE ∨ t = LP_BOOLEAN_REGEX_INSENSITIVE → says a x → says b y →
  says (Op t a b) (MCall (lit "$$regmatch^%ydbposix")
    (plain_arg <$> ([x; y] ++ if decide (t = LP_BOOLEAN_REGEX_INSENSITIVE) then [MName (lit "3")] else []))).
Proof.
  intros Ht (tx & Ex & Hx) (ty & Ey & Hy).
  destruct Ht as [-> | ->]; (eexists; split; [cbn [print_expression operator]; rewrite Ex; cbn [mbind outcome_bind]; rewrite Ey; reflexivity|]).
  - eapply atom_eq; [apply (word_call (lit "$$regmatch^%ydbposix") [tx; ty]); [done..|]|].
    + constructor; [by apply atom_argument|]. constructor; [by apply atom_argument|constructor].
    + cbn [join]. rewrite <- !app_assoc. reflexivity.
  - eapply atom_eq; [apply (word_call (lit "$$regmatch^%ydbposix") [tx; ty; lit "3"]); [done..|]|].
    + constructor; [by apply atom_argument|]. constructor; [by apply atom_argument|]. constructor; [by apply atom_argument, word_name|constructor].
    + cbn [join]. rewrite <- !app_assoc. reflexivity.
Qed.
Lemma says_derived k n subs : key_ok k subs → 0 ≤ n → says (Op LP_DERIVED_COLUMN (Leaf LP_KEY (VKey k)) (Leaf LP_PIECE_NUMBER (VPieceNumber n)))
  (MCall (lit "$P") (plain_arg <$> [MCall key_name (plain_arg <$> (subs ++ [MCall key_name (plain_arg <$> subs)])); MString (lit "|"); MName (dec n)])).
Proof.
  intros Hk Hn. pose proof (key_printed k subs Hk) as (texts & Ek & HF & _). pose proof (open_key_printed k subs Hk) as (outer & Eo & Ho).
  pose proof (atom_call _ _ _ _ node_name HF) as Hi. specialize (Ho _ _ Hi). eexists. split.
  - cbn [print_expression operator]. unfold get_lp. cbn [operand lp_type mbind outcome_bind]. rewrite !bool_decide_true by done.
    cbn [c_assert mbind outcome_bind]. rewrite Eo. cbn [lp_key mbind outcome_bind]. rewrite Ek. reflexivity.
  - eapply atom_eq; [eapply atom_group, (word_call (lit "$P") (_ :: [quoted (lit "|"); dec n])); [done..|]|].
    + constructor; [exact (atom_argument _ _ Ho)|]. constructor; [apply atom_argument, plain_string; eval_decide|].
      constructor; [by apply atom_argument, atom_name, dec_name|constructor].
    + cbn [join]. rewrite <- !app_assoc. reflexivity.
Qed.
Lemma says_subquery a b k subs : lp_get_output_key (Op LP_INSERT a b) = Ret (Leaf LP_KEY (VKey k)) → key_ok k subs →
  says (Op LP_INSERT a b) (MCall (lit "$O") [plain_arg (MCall key_name (plain_arg <$> (subs ++ [MString []])))]).
Proof.
  intros E (ktext & Ek & Hk)%open_key_printed. specialize (Hk _ _ (plain_string [] ltac:(eval_decide))). eexists. split.
  - cbn [print_expression operator]. rewrite E. cbn [mbind outcome_bind]. rewrite Ek. reflexivity.
  - eapply atom_eq; [eapply (word_call (lit "$O") (_ :: [])); [done..|constructor; [exact (atom_argument _ _ Hk)|constructor]]|].
    cbn [join]. rewrite <- !app_assoc. reflexivity.
Qed.
Lemma print_call a b : print (Op LP_FUNCTION_CALL a b) =
  (name ← print a; args ← print_arguments cat s global_directory raw_cursor column_reference b; Ret (name ++ lit "(" ++ args ++ lit ")")).
Proof. reflexivity. Qed.
Lemma print_case v els bs : lp_type bs = Ret LP_CASE_BRANCH → print (Op LP_CASE (Op LP_CASE_STATEMENT v els) bs) =
  (value ← (match v with NULL => Ret None | _ => text ← print v; Ret (Some text) end);
   branches ← print_branches cat s global_directory raw_cursor column_reference (default (lit "1") value) bs;
   Ret (lit "$S(" ++ branches ++ lit "1:" ++ default (quoted []) value ++ lit ")")).
Proof.
  intros Hbs. change (print (Op LP_CASE (Op LP_CASE_STATEMENT v els) bs)) with
   (_ ← get_lp (Op LP_CASE (Op LP_CASE_STATEMENT v els) bs) false LP_CASE_STATEMENT;
    _ ← get_lp (Op LP_CASE (Op LP_CASE_STATEMENT v els) bs) true LP_CASE_BRANCH;
    value ← (match v with NULL => Ret (None : option (list byte)) | _ => text ← print v; Ret (Some text) end);
    branches ← print_branches cat s global_directory raw_cursor column_reference (default (lit "1") value) bs;
    Ret (lit "$S(" ++ branches ++ lit "1:" ++ default (quoted []) value ++ lit ")")).
  unfold get_lp. cbn [operand lp_type mbind outcome_bind]. rewrite bool_decide_true by done. cbn [c_assert mbind outcome_bind].
  rewrite Hbs. cbn [mbind outcome_bind]. rewrite bool_decide_true by done. reflexivity.
Qed.
Lemma print_branch value t c r rest : print_branches cat s global_directory raw_cursor column_reference value (Op t (Op LP_CASE_BRANCH_STATEMENT c r) rest) =
  (x ← print c; y ← print r; xs ← print_branches cat s global_directory raw_cursor column_reference value rest;
   Ret (lit "(" ++ x ++ lit ")=(" ++ value ++ lit "):(" ++ y ++ lit ")," ++ xs)).
Proof. reflexivity. Qed.
Lemma print_more t a t' b rest : print_arguments cat s global_directory raw_cursor column_reference (Op t a (Op t' b rest)) =
  (x ← print a; xs ← print_arguments cat s global_directory raw_cursor column_reference (Op t' b rest); Ret (x ++ lit "," ++ xs)).
Proof. reflexivity. Qed.
Lemma says_call p v b xs : value_at (pl_values s) p = Ret v → sv_type v = FUNCTION_NAME → name_text (cstr (sv_literal v)) → says_list b xs →
  says (Op LP_FUNCTION_CALL (Leaf LP_VALUE (VValue p)) b) (MCall (cstr (sv_literal v)) (plain_arg <$> xs)).
Proof.
  intros Ev Et Hn (texts & Eb & HF). eexists. split; [|exact (atom_call _ _ _ _ (name_call _ Hn) HF)].
  rewrite print_call. cbn [print_expression]. unfold print_value. rewrite Ev. cbn [mbind outcome_bind]. rewrite Et. cbn [mbind outcome_bind]. by rewrite Eb.
Qed.
Lemma says_comparison t a b strings x y : t = LP_BOOLEAN_LESS_THAN ∨ t = LP_BOOLEAN_GREATER_THAN → string_comparison s (Op t a b) = Ret strings →
  says a x → says b y → says (Op t a b) (compared t strings x y).
Proof.
  intros Ht Es (tx & Ex & Hx) (ty & Ey & Hy). eexists. split.
  - destruct Ht as [-> | ->]; cbn [print_expression operator]; rewrite Es; cbn [mbind outcome_bind]; rewrite Ex; cbn [mbind outcome_bind]; rewrite Ey; reflexivity.
  - unfold compared. destruct strings, (decide (t = LP_BOOLEAN_LESS_THAN)); (apply atom_binary; [eval_decide|done..]).
Qed.
Lemma says_case v els bs x xs : v ≠ NULL → says v x → lp_type bs = Ret LP_CASE_BRANCH → says_branches x bs xs →
  says (Op LP_CASE (Op LP_CASE_STATEMENT v els) bs) (MCall (lit "$S") (xs ++ [(MName (lit "1"), Some x)])).
Proof.
  intros Hv (text & E & Ha) Hbs Hb. destruct (Hb text Ha) as (texts & Eb & HF). eexists. split; [|exact (select_text _ _ _ _ HF Ha)].
  rewrite print_case by done. destruct v; [done|..]; rewrite E; cbn [mbind outcome_bind from_option id]; rewrite Eb; reflexivity.
Qed.
Lemma says_case_true els bs xs : lp_type bs = Ret LP_CASE_BRANCH → says_branches (MName (lit "1")) bs xs →
  says (Op LP_CASE (Op LP_CASE_STATEMENT NULL els) bs) (MCall (lit "$S") (xs ++ [(MName (lit "1"), Some (MString []))])).
Proof.
  intros Hbs Hb. destruct (Hb (lit "1") (word_name (lit "1") ltac:(done) ltac:(done))) as (texts & Eb & HF).
  eexists. split; [|exact (select_text _ _ _ _ HF (plain_string [] ltac:(eval_decide)))].
  rewrite print_case by done. cbn [mbind outcome_bind from_option id]. by rewrite Eb.
Qed.
Lemma says_cons t a rest x xs : says a x → means_list rest xs → says_list rest xs → says_list (Op t a rest) (x :: xs).
Proof.
  intros (tx & Ex & Hx) Hm (texts & E & HF). exists (tx :: texts). split; [|constructor; [by apply atom_argument|done]].
  destruct Hm as [|t' b rest y ys Hy Hm].
  - inversion HF; subst. exact Ex.
  - assert (Hne : texts ≠ []) by (intros ->; inversion HF). destruct texts as [|t2 texts]; [done|].
    change (join (tx :: t2 :: texts)) with (tx ++ lit "," ++ join (t2 :: texts)).
    by rewrite print_more, Ex; cbn [mbind outcome_bind]; rewrite E.
Qed.
Lemma says_branch value t c r rest x y xs : says c x → says r y → says_branches value rest xs →
  says_branches value (Op t (Op LP_CASE_BRANCH_STATEMENT c r) rest) ((MBinary (lit "=") x value, Some y) :: xs).
Proof.
  intros (tc & Ec & Hc) (tr & Er & Hr) Hb v Hv. destruct (Hb v Hv) as (texts & Eb & HF). eexists (_ :: texts).
  split; [|constructor; [exact (branch_argument _ _ _ _ _ _ Hc Hv Hr)|done]].
  rewrite print_branch, Ec. cbn [mbind outcome_bind]. rewrite Er. cbn [mbind outcome_bind]. rewrite Eb. cbn [mbind outcome_bind fmap list_fmap concat].
  f_equal. rewrite <- !app_assoc. reflexivity.
Qed.
Lemma means_says : (∀ plan e, means plan e → says plan e) ∧ (∀ plan xs, means_list plan xs → says_list plan xs) ∧
  (∀ value plan xs, means_branches value plan xs → says_branches value plan xs).
Proof.
  apply means_mutual.
  - intros p v text Ev Ht Et. exists (quoted (doubled text)). split; [|apply atom_string]. cbn [print_expression]. unfold print_value. rewrite Ev.
    cbn [mbind outcome_bind]. destruct (sv_type v); try done; by rewrite Et.
  - intros p v Ev Ht. exists (quoted []). split; [|by apply plain_string; eval_decide]. cbn [print_expression]. unfold print_value. rewrite Ev. cbn [mbind outcome_bind]. by rewrite Ht.
  - intros p v n Ev Ht En HF. exists (lit "parm" ++ n). split; [|apply atom_name; split; [done|]; by repeat constructor].
    cbn [print_expression]. unfold print_value. rewrite Ev. cbn [mbind outcome_bind]. rewrite Ht. rewrite En. done.
  - intros p text E. exists text. split; [done|by apply Hcolumn].
  - intros k subs (texts & E & HF & _)%key_printed. eexists. split; [exact E|]. exact (atom_call _ _ _ _ node_name HF).
  - intros a b x _ (text & E & Ha). by exists text.
  - intros t op a b x y Eo _ (tx & Ex & Hx) _ (ty & Ey & Hy). exists (binary op tx ty). split; [|apply atom_binary; [by eapply operator_known|done..]].
    cbn [print_expression]. rewrite Eo, Ex. cbn [mbind outcome_bind]. rewrite Ey. done.
  - intros. by eapply says_comparison.
  - intros. by eapply says_regex.
  - intros. by eapply says_in.
  - intros t c a b x Eu _ (text & E & Ha). exists (c :: text).
    destruct t; try done; injection Eu as <-; (split; [cbn [print_expression operator]; rewrite E; reflexivity|apply atom_unary; [eval_decide|done]]).
  - intros. by eapply says_call.
  - intros. by eapply says_derived.
  - intros. by eapply says_subquery.
  - intros v els bs x xs Hm Hs Hbs _ Hb. apply says_case; [by intros ->; inversion Hm|done..].
  - intros. by eapply says_case_true.
  - exists []. split; [done|constructor].
  - intros. by eapply says_cons.
  - intros value v _. exists []. split; [done|constructor].
  - intros. by eapply says_branch.
Qed.

(** the M text of an expression says what the plan says.  M works an expression off from left to right and
    knows no precedence, so the parentheses decide; read that way, the text printed for the tree of a plan is that
    tree: operators, comparisons of numbers and of strings, regular expressions, IN, function calls, CASE, subqueries
    and the values they take from keys and columns. *)
Theorem expression_printed plan e : means plan e → ∃ text, print plan = Ret text ∧ m_parse text = Some e.
Proof.
  intros (text & E & Ha)%(proj1 means_says). exists text. split; [done|]. unfold m_parse.
  rewrite <- (app_nil_r text) at 2. rewrite (atom_expression text e); [done|done|done|lia].
Qed.
End printed.

(** The ELSE of a CASE is not part of what is printed. *)
Lemma case_else_ignored cat s gd cursor col v els els' bs : lp_type bs = Ret LP_CASE_BRANCH →
  print_expression cat s gd cursor col (Op LP_CASE (Op LP_CASE_STATEMENT v els) bs) =
  print_expression cat s gd cursor col (Op LP_CASE (Op LP_CASE_STATEMENT v els') bs).
Proof. intros H. by rewrite !print_case. Qed.

(** ** An example: [(a - (1 - 2)) = 1 AND 2 IN (SELECT ...)] *)
Definition number_value (text : string) : SqlValue :=
  {| sv_type := NUMBER_LITERAL; sv_coerced_type := NUMBER_LITERAL; sv_data_type := INTEGER_TYPE; sv_literal := lit text |}.
Definition list_key : SqlKey :=
  {| k_table := null; k_column := null; k_key_num := 0; k_unique_id := 3; k_value := NULL; k_insert := null; k_type := LP_KEY_ADVANCE;
     k_owner := NULL; k_is_cross_reference_key := false; k_cross_reference_output_key := null; k_cross_reference_column_alias := null;
     k_cross_reference_filename := null |}.
Definition m_planner : planner :=
  {| pl_counter := 4; pl_next := 100; pl_keys := {[10 := list_key]}; pl_values := {[1 := number_value "1"; 2 := number_value "2"]};
     pl_keywords := ∅; pl_column_aliases := ∅; pl_table_aliases := ∅; pl_items := ∅ |}.
Definition m_catalog : catalog := {| cat_tables := ∅; cat_columns := ∅; cat_rings := ∅ |}.
Definition m_column (p : ptr) : outcome (list byte) := if decide (p = 20) then Ret (lit "a") else Undef NullPointer.
Abbreviation value p := (Leaf LP_VALUE (VValue p)).
Definition m_plan : LogicalPlan :=
  Op LP_BOOLEAN_AND
    (Op LP_BOOLEAN_EQUALS (Op LP_SUBTRACTION (Leaf LP_COLUMN_ALIAS (VColumnAlias 20)) (Op LP_SUBTRACTION (value 1) (value 2))) (value 1))
    (Op LP_BOOLEAN_IN (value 2) (Leaf LP_KEY (VKey 10))).
Abbreviation minus := (MBinary (lit "-")).
Definition m_tree : mexpr :=
  MBinary (lit "&") (MBinary (lit "=") (minus (MName (lit "a")) (minus (MString (lit "1")) (MString (lit "2")))) (MString (lit "1")))
    (MBinary (lit "'=") (MCall (lit "$D") [plain_arg (MCall (lit "^|o.gld|%ydboctocursor")
       (plain_arg <$> (key_subscripts 3 [] [] ++ [MString (lit "2")])))]) (MName (lit "0"))).

Lemma expression_printed_witness : ∃ text, print_expression m_catalog m_planner (lit "o.gld") (lit "%ydboctocursor") m_column m_plan = Ret text ∧
  m_parse text = Some m_tree.
Proof.
  apply (expression_printed _ _ _ _ _ (λ _, MName (lit "a"))).
  - intros p text. unfold m_column. destruct (decide (p = 20)); [intros [= <-]|done]. by apply word_name.
  - eval_decide.
  - by repeat constructor.
  - assert (V : ∀ p w, value_at (pl_values m_planner) p = Ret (number_value w) → doubled (lit w) = lit w → cstr (lit w) = lit w →
      means m_catalog m_planner (lit "o.gld") (lit "%ydboctocursor") m_column (λ _, MName (lit "a")) (value p) (MString (lit w))).
    { intros p w Hp Hd Hc. eapply means_literal; [exact Hp|done|]. cbn. by rewrite Hc. }
    apply (means_operator _ _ _ _ _ _ _ (lit "&")); [done| |].
    + apply (means_operator _ _ _ _ _ _ _ (lit "=")); [done| |by apply V].
      apply (means_operator _ _ _ _ _ _ _ (lit "-")); [done|exact (means_column _ _ _ _ m_column (λ _, MName (lit "a")) 20 (lit "a") eq_refl)|].
      by apply (means_operator _ _ _ _ _ _ _ (lit "-")); [done|apply V|apply V].
    + apply (means_in _ _ (lit "o.gld") (lit "%ydboctocursor") m_column (λ _, MName (lit "a")) LP_BOOLEAN_IN (value 2) 10 (key_subscripts 3 [] []) (MString (lit "2"))); [by left| |by apply V].
      constructor. exists list_key, [], []. repeat split; try done; eval_decide.
Defined.
