(* ===== verification/MMeaning.v ===== *)
(** * What the M text of an expression computes

    Two meanings, given apart from each other: that of an M expression, worked off by the rules
    of M ([m_eval]), and that of an expression of a plan, worked off by those of SQL
    ([evaluates]: one rule for each kind of node).  The text printed for a plan, read and
    worked off by M, has the value of the plan.

    The values are those of M, with their arithmetic and their two orders as parameters; a
    condition is 0 or 1, NULL is the empty string, and two values are equal when they are the
    same. *)
From stdpp Require Import gmap strings.
From S2P Require Import Prelude CMem Errors LogicalPlan SqlStatement Optimize PhysicalPlan Session EmitPlan EmitColumns MExpression MTheorems.

(** ** Values *)
Record arithmetic {V : Type} := {
  a_text : list byte → V;                          (* a string *)
  a_plus : V → V → V;
  a_minus : V → V → V;
  a_times : V → V → V;
  a_over : V → V → V;
  a_concat : V → V → V;
  a_number : V → V;
  a_negate : V → V;
  a_bool : bool → V;
  a_truth : V → bool;
  a_compare : V → V → comparison;                  (* as numbers *)
  a_collate : V → V → comparison;                  (* as strings *)
}.
Arguments arithmetic : clear implicits.
Record arithmetic_laws {V} (A : arithmetic V) : Prop := {
  a_truth_bool : ∀ b, a_truth A (a_bool A b) = b;
  a_collate_sym : ∀ x y, a_collate A y x = CompOpp (a_collate A x y);
}.
(** What M finds: variables and numbers by name; nodes and functions by name, with their
    subscripts or arguments; and what $DATA and $ORDER say of a node. *)
Record m_store {V : Type} := {
  m_variable : list byte → V;
  m_node : list byte → list V → V;
  m_data : list byte → list V → V;
  m_order : list byte → list V → V;
}.
Arguments m_store : clear implicits.

(** ** M *)
Section m.
Context {V : Type} `{EqDecision V} (A : arithmetic V) (S : m_store V).
Definition m_unary (op : byte) (x : V) : option V :=
  if decide (op = chr "+") then Some (a_number A x)
  else if decide (op = chr "-") then Some (a_negate A x)
  else if decide (op = chr "'") then Some (a_bool A (negb (a_truth A x)))
  else None.
Definition m_binary (op : list byte) (x y : V) : option V :=
  if decide (op = lit "+") then Some (a_plus A x y)
  else if decide (op = lit "-") then Some (a_minus A x y)
  else if decide (op = lit "*") then Some (a_times A x y)
  else if decide (op = lit "/") then Some (a_over A x y)
  else if decide (op = lit "_") then Some (a_concat A x y)
  else if decide (op = lit "!") then Some (a_bool A (a_truth A x || a_truth A y))
  else if decide (op = lit "&") then Some (a_bool A (a_truth A x && a_truth A y))
  else if decide (op = lit "=") then Some (a_bool A (bool_decide (x = y)))
  else if decide (op = lit "'=") then Some (a_bool A (negb (bool_decide (x = y))))
  else if decide (op = lit "<") then Some (a_bool A (bool_decide (a_compare A x y = Lt)))
  else if decide (op = lit "'<") then Some (a_bool A (negb (bool_decide (a_compare A x y = Lt))))
  else if decide (op = lit ">") then Some (a_bool A (bool_decide (a_compare A x y = Gt)))
  else if decide (op = lit "'>") then Some (a_bool A (negb (bool_decide (a_compare A x y = Gt))))
  else if decide (op = lit "]]") then Some (a_bool A (bool_decide (a_collate A x y = Gt)))
  else None.
(** $SELECT takes the first part whose condition holds; $DATA and $ORDER look at a node and not
    at its value. *)
Fixpoint m_eval (e : mexpr) : option V :=
  let evals := fix evals (l : list (mexpr * option mexpr)) : option (list V) :=
    match l with
    | [] => Some []
    | (x, None) :: l' => v ← m_eval x; vs ← evals l'; Some (v :: vs)
    | (_, Some _) :: _ => None
    end in
  match e with
  | MString text => Some (a_text A text)
  | MName name => Some (m_variable S name)
  | MUnary op a => x ← m_eval a; m_unary op x
  | MBinary op a b => x ← m_eval a; y ← m_eval b; m_binary op x y
  | MCall name args =>
      if decide (name = lit "$S") then
        (fix select (l : list (mexpr * option mexpr)) : option V :=
           match l with
           | (c, Some r) :: l' => x ← m_eval c; if a_truth A x then m_eval r else select l'
           | _ => None
           end) args
      else if decide (name = lit "$D" ∨ name = lit "$O") then
        match args with
        | [(MCall node subs, None)] =>
            vs ← (fix evals (l : list (mexpr * option mexpr)) : option (list V) :=
                    match l with
                    | [] => Some []
                    | (x, None) :: l' => v ← m_eval x; vs ← evals l'; Some (v :: vs)
                    | (_, Some _) :: _ => None
                    end) subs;
            Some (if decide (name = lit "$D") then m_data S node vs else m_order S node vs)
        | _ => None
        end
      else vs ← evals args; Some (m_node S name vs)
  end.
Fixpoint m_evals (l : list (mexpr * option mexpr)) : option (list V) :=
  match l with
  | [] => Some []
  | (x, None) :: l' => v ← m_eval x; vs ← m_evals l'; Some (v :: vs)
  | (_, Some _) :: _ => None
  end.
Fixpoint m_select (l : list (mexpr * option mexpr)) : option V :=
  match l with
  | (c, Some r) :: l' => x ← m_eval c; if a_truth A x then m_eval r else m_select l'
  | _ => None
  end.
Definition special (name : list byte) : Prop := name = lit "$S" ∨ name = lit "$D" ∨ name = lit "$O".
Lemma m_eval_call name args : ¬ special name → m_eval (MCall name args) = vs ← m_evals args; Some (m_node S name vs).
Proof. intros Hn. cbn. rewrite !decide_False; [done|..]; unfold special in Hn; tauto. Qed.
Lemma m_eval_select args : m_eval (MCall (lit "$S") args) = m_select args.
Proof. reflexivity. Qed.
Lemma m_eval_data node subs : m_eval (MCall (lit "$D") [(MCall node subs, None)]) = vs ← m_evals subs; Some (m_data S node vs).
Proof. reflexivity. Qed.
Lemma m_eval_order node subs : m_eval (MCall (lit "$O") [(MCall node subs, None)]) = vs ← m_evals subs; Some (m_order S node vs).
Proof. reflexivity. Qed.
Lemma m_evals_app l l' : m_evals (l ++ l') = vs ← m_evals l; vs' ← m_evals l'; Some (vs ++ vs').
Proof.
  induction l as [|[x [r|]] l IH]; [cbn; by destruct (m_evals l')|done|]. cbn. destruct (m_eval x); [|done]. cbn. rewrite IH.
  destruct (m_evals l); [|done]. cbn. by destruct (m_evals l').
Qed.
Lemma m_evals_cons x l v vs : m_eval x = Some v → m_evals (plain_arg <$> l) = Some vs → m_evals (plain_arg <$> x :: l) = Some (v :: vs).
Proof. intros E1 E2. cbn. by rewrite E1; cbn; rewrite E2. Qed.
End m.

(** ** SQL *)
(** What a plan looks at: its columns, its keys, the rows and the first row of the output of
    another plan, a column of its row at hand, the parameters, functions and patterns. *)
Record sql_env {V : Type} := {
  e_column : ptr → V;
  e_key : ptr → V;
  e_rows : ptr → V → bool;
  e_first : ptr → V;
  e_piece : ptr → Z → V;
  e_parameter : list byte → V;
  e_function : list byte → list V → V;
  e_matches : bool → V → V → bool;                 (* whether case counts *)
}.
Arguments sql_env : clear implicits.
Section sql.
Context {V : Type} `{EqDecision V} (A : arithmetic V) (E : sql_env V).
Definition sql_binary (t : LPActionType) (x y : V) : option V :=
  match t with
  | LP_ADDITION => Some (a_plus A x y)
  | LP_SUBTRACTION => Some (a_minus A x y)
  | LP_MULTIPLICATION => Some (a_times A x y)
  | LP_DIVISION => Some (a_over A x y)
  | LP_CONCAT => Some (a_concat A x y)
  | LP_BOOLEAN_OR => Some (a_bool A (a_truth A x || a_truth A y))
  | LP_BOOLEAN_AND => Some (a_bool A (a_truth A x && a_truth A y))
  | LP_BOOLEAN_IS | LP_BOOLEAN_EQUALS => Some (a_bool A (bool_decide (x = y)))
  | LP_BOOLEAN_NOT_EQUALS => Some (a_bool A (bool_decide (x ≠ y)))
  | _ => None
  end.
Definition sql_unary (t : LPActionType) (x : V) : option V :=
  match t with
  | LP_FORCE_NUM => Some (a_number A x)
  | LP_NEGATIVE => Some (a_negate A x)
  | LP_BOOLEAN_NOT => Some (a_bool A (negb (a_truth A x)))
  | _ => None
  end.
(** A comparison, by the order of its operands. *)
Definition sql_compare (t : LPActionType) (c : comparison) : option bool :=
  match t with
  | LP_BOOLEAN_LESS_THAN => Some (bool_decide (c = Lt))
  | LP_BOOLEAN_GREATER_THAN => Some (bool_decide (c = Gt))
  | LP_BOOLEAN_LESS_THAN_OR_EQUALS => Some (bool_decide (c = Lt ∨ c = Eq))
  | LP_BOOLEAN_GREATER_THAN_OR_EQUALS => Some (bool_decide (c = Gt ∨ c = Eq))
  | _ => None
  end.

Context (cat : catalog) (s : planner) (global_directory raw_cursor : list byte) (column_reference : ptr → outcome (list byte)).
(** The value of an expression.  Not here: a CASE with a value to compare or with an ELSE, [<=] and
    [>=] on strings, a literal with a double quote in it, and what cannot be printed. *)
Inductive evaluates : LogicalPlan → V → Prop :=
  | ev_literal p v : value_at (pl_values s) p = Ret v → literal_type (sv_type v) = true → double_quote ∉ cstr (sv_literal v) →
      evaluates (Leaf LP_VALUE (VValue p)) (a_text A (cstr (sv_literal v)))
  | ev_null p v : value_at (pl_values s) p = Ret v → sv_type v = NUL_VALUE → evaluates (Leaf LP_VALUE (VValue p)) (a_text A [])
  | ev_parameter p v n : value_at (pl_values s) p = Ret v → sv_type v = PARAMETER_VALUE → string_at (sv_literal v ++ [nul]) 1 = Ret n →
      Forall (λ c, name_char c = true) n → evaluates (Leaf LP_VALUE (VValue p)) (e_parameter E n)
  | ev_column p text : column_reference p = Ret text → evaluates (Leaf LP_COLUMN_ALIAS (VColumnAlias p)) (e_column E p)
  | ev_key k subs : key_ok cat s k subs → evaluates (Leaf LP_KEY (VKey k)) (e_key E k)
  | ev_where a b x : evaluates a x → evaluates (Op LP_WHERE a b) x
  | ev_binary t a b x y v : evaluates a x → evaluates b y → sql_binary t x y = Some v → evaluates (Op t a b) v
  | ev_unary t a b x v : evaluates a x → sql_unary t x = Some v → evaluates (Op t a b) v
  | ev_numbers t a b x y r : string_comparison s (Op t a b) = Ret false → evaluates a x → evaluates b y →
      sql_compare t (a_compare A x y) = Some r → evaluates (Op t a b) (a_bool A r)
  | ev_strings t a b x y r : t = LP_BOOLEAN_LESS_THAN ∨ t = LP_BOOLEAN_GREATER_THAN → string_comparison s (Op t a b) = Ret true →
      evaluates a x → evaluates b y → sql_compare t (a_collate A x y) = Some r → evaluates (Op t a b) (a_bool A r)
  | ev_matches a b x y : evaluates a x → evaluates b y → evaluates (Op LP_BOOLEAN_REGEX_SENSITIVE a b) (a_bool A (e_matches E true x y))
  | ev_imatches a b x y : evaluates a x → evaluates b y → evaluates (Op LP_BOOLEAN_REGEX_INSENSITIVE a b) (a_bool A (e_matches E false x y))
  | ev_in a k subs x : key_ok cat s k subs → evaluates a x → evaluates (Op LP_BOOLEAN_IN a (Leaf LP_KEY (VKey k))) (a_bool A (e_rows E k x))
  | ev_not_in a k subs x : key_ok cat s k subs → evaluates a x →
      evaluates (Op LP_BOOLEAN_NOT_IN a (Leaf LP_KEY (VKey k))) (a_bool A (negb (e_rows E k x)))
  | ev_call p v b xs : value_at (pl_values s) p = Ret v → sv_type v = FUNCTION_NAME → name_text (cstr (sv_literal v)) →
      ¬ special (cstr (sv_literal v)) → evaluates_list b xs →
      evaluates (Op LP_FUNCTION_CALL (Leaf LP_VALUE (VValue p)) b) (e_function E (cstr (sv_literal v)) xs)
  | ev_derived k n subs : key_ok cat s k subs → 0 ≤ n →
      evaluates (Op LP_DERIVED_COLUMN (Leaf LP_KEY (VKey k)) (Leaf LP_PIECE_NUMBER (VPieceNumber n))) (e_piece E k n)
  | ev_subquery a b k subs : lp_get_output_key (Op LP_INSERT a b) = Ret (Leaf LP_KEY (VKey k)) → key_ok cat s k subs →
      evaluates (Op LP_INSERT a b) (e_first E k)
  | ev_case bs v : lp_type bs = Ret LP_CASE_BRANCH → evaluates_branches bs v →
      evaluates (Op LP_CASE (Op LP_CASE_STATEMENT NULL NULL) bs) v
with evaluates_list : LogicalPlan → list V → Prop :=
  | ev_nil : evaluates_list NULL []
  | ev_cons t a rest x xs : evaluates a x → evaluates_list rest xs → evaluates_list (Op t a rest) (x :: xs)
(** The first branch whose condition holds; NULL if there is none. *)
with evaluates_branches : LogicalPlan → V → Prop :=
  | ev_none : evaluates_branches NULL (a_text A [])
  | ev_taken t c r rest v w : evaluates c (a_bool A true) → evaluates r v → evaluates_branches rest w →
      evaluates_branches (Op t (Op LP_CASE_BRANCH_STATEMENT c r) rest) v
  | ev_passed t c r rest v w : evaluates c (a_bool A false) → evaluates r v → evaluates_branches rest w →
      evaluates_branches (Op t (Op LP_CASE_BRANCH_STATEMENT c r) rest) w.
Scheme evaluates_induction := Induction for evaluates Sort Prop
  with evaluates_list_induction := Induction for evaluates_list Sort Prop
  with evaluates_branches_induction := Induction for evaluates_branches Sort Prop.
Combined Scheme evaluates_mutual from evaluates_induction, evaluates_list_induction, evaluates_branches_induction.
End sql.

(** ** The two agree *)
Section agreement.
Context {V : Type} `{EqDecision V} (A : arithmetic V) (S : m_store V) (E : sql_env V) (laws : arithmetic_laws A).
Context (cat : catalog) (s : planner) (global_directory raw_cursor : list byte) (column_reference : ptr → outcome (list byte)).
Context (column_tree : ptr → mexpr) (Hcolumn : ∀ p text, column_reference p = Ret text → atom text (column_tree p)).
Context (Hdirectory : double_quote ∉ cstr global_directory) (Hcursor : Forall (λ c, name_char c = true) (cstr raw_cursor)).
Abbreviation node := (key_name global_directory raw_cursor).

(** M finds what the plan looks at where the plans put it: the value of a key in its node of
    the cursor, the rows of an output below the node of its key, a column of a derived table
    as a piece of the row at hand, a parameter in its variable. *)
Record represents : Prop := {
  rp_column : ∀ p text, column_reference p = Ret text → m_eval A S (column_tree p) = Some (e_column E p);
  rp_key : ∀ k subs vs, key_ok cat s k subs → m_evals A S (plain_arg <$> subs) = Some vs → m_node S node vs = e_key E k;
  rp_rows : ∀ k subs vs x, key_ok cat s k subs → m_evals A S (plain_arg <$> subs) = Some vs →
    bool_decide (m_data S node (vs ++ [x]) = m_variable S (lit "0")) = negb (e_rows E k x);
  rp_first : ∀ k subs vs, key_ok cat s k subs → m_evals A S (plain_arg <$> subs) = Some vs →
    m_order S node (vs ++ [a_text A []]) = e_first E k;
  rp_piece : ∀ k subs vs n, key_ok cat s k subs → m_evals A S (plain_arg <$> subs) = Some vs →
    m_node S (lit "$P") [m_node S node (vs ++ [m_node S node vs]); a_text A (lit "|"); m_variable S (dec n)] = e_piece E k n;
  rp_parameter : ∀ n, m_variable S (lit "parm" ++ n) = e_parameter E n;
  rp_function : ∀ name vs, name_text name → ¬ special name → m_node S name vs = e_function E name vs;
  rp_matches : ∀ x y, m_node S (lit "$$regmatch^%ydbposix") [x; y] = a_bool A (e_matches E true x y) ∧
    m_node S (lit "$$regmatch^%ydbposix") [x; y; m_variable S (lit "3")] = a_bool A (e_matches E false x y);
  rp_one : m_variable S (lit "1") = a_bool A true;
}.
Context (Hrep : represents).
Abbreviation reads := (means cat s global_directory raw_cursor column_reference column_tree).
Abbreviation eval := (m_eval A S).
Abbreviation evals l := (m_evals A S (plain_arg <$> l)).
Abbreviation value_of := (evaluates A E cat s column_reference).

Lemma key_evals k subs : key_ok cat s k subs → ∃ vs, evals subs = Some vs.
Proof. intros [(key & t & c & _ & _ & _ & _ & _ & _ & ->)]. by eexists. Qed.
Lemma evals_snoc subs vs x v : evals subs = Some vs → eval x = Some v → evals (subs ++ [x]) = Some (vs ++ [v]).
Proof. intros E1 E2. rewrite fmap_app, m_evals_app, E1. cbn. by rewrite E2. Qed.
Lemma eval_node name subs vs : ¬ special name → evals subs = Some vs → eval (MCall name (plain_arg <$> subs)) = Some (m_node S name vs).
Proof. intros Hn E1. by rewrite m_eval_call, E1. Qed.
Lemma node_plain : ¬ special node.
Proof. by intros [?|[?|?]]. Qed.
Lemma m_binary_eval op a b x y : eval a = Some x → eval b = Some y → eval (MBinary op a b) = m_binary A op x y.
Proof. intros E1 E2. cbn. by rewrite E1; cbn; rewrite E2. Qed.
Lemma eval_name n : eval (MName n) = Some (m_variable S n).
Proof. done. Qed.
Lemma m_equals x y : m_binary A (lit "=") x y = Some (a_bool A (bool_decide (x = y))).
Proof. done. Qed.
Lemma sql_binary_m t x y v : sql_binary A t x y = Some v → ∃ op, operator t = Some op ∧ m_binary A op x y = Some v.
Proof.
  destruct t; try done; intros [= <-]; eexists; (split; [reflexivity|]); try reflexivity.
  unfold m_binary. rewrite !decide_False by done. rewrite decide_True by done. by rewrite bool_decide_not.
Qed.
Lemma sql_unary_m t x v : sql_unary A t x = Some v → ∃ op, unary_operator t = Some op ∧ m_unary A op x = Some v.
Proof. destruct t; try done; intros [= <-]; eexists; by split. Qed.
(** A comparison of numbers, and one of strings. *)
Lemma numbers_m t a b e1 e2 x y r : string_comparison s (Op t a b) = Ret false → reads a e1 → eval e1 = Some x → reads b e2 → eval e2 = Some y →
  sql_compare t (a_compare A x y) = Some r → ∃ e, reads (Op t a b) e ∧ eval e = Some (a_bool A r).
Proof.
  intros Hs R1 E1 R2 E2 Hc.
  destruct t; try done; injection Hc as <-.
  - eexists. split; [by eapply means_comparison; [left| | |]|]. cbn [compared]. rewrite decide_True by done. by rewrite (m_binary_eval _ _ _ _ _ E1 E2).
  - eexists. split; [by eapply means_comparison; [right| | |]|]. cbn [compared]. rewrite decide_False by done. by rewrite (m_binary_eval _ _ _ _ _ E1 E2).
  - eexists. split; [by eapply means_operator|]. rewrite (m_binary_eval _ _ _ _ _ E1 E2). unfold m_binary. rewrite !decide_False by done. rewrite decide_True by done.
    do 2 f_equal. by destruct (a_compare A x y).
  - eexists. split; [by eapply means_operator|]. rewrite (m_binary_eval _ _ _ _ _ E1 E2). unfold m_binary. rewrite !decide_False by done. rewrite decide_True by done.
    do 2 f_equal. by destruct (a_compare A x y).
Qed.
Lemma strings_m t a b e1 e2 x y r : t = LP_BOOLEAN_LESS_THAN ∨ t = LP_BOOLEAN_GREATER_THAN → string_comparison s (Op t a b) = Ret true →
  reads a e1 → eval e1 = Some x → reads b e2 → eval e2 = Some y →
  sql_compare t (a_collate A x y) = Some r → ∃ e, reads (Op t a b) e ∧ eval e = Some (a_bool A r).
Proof.
  intros Ht Hs R1 E1 R2 E2 Hc. eexists. split; [by eapply means_comparison|]. unfold compared.
  destruct Ht as [-> | ->]; injection Hc as <-.
  - rewrite decide_True by done. rewrite (m_binary_eval _ _ _ _ _ E2 E1). unfold m_binary. rewrite !decide_False by done. rewrite decide_True by done.
    do 2 f_equal. rewrite (a_collate_sym A laws x y). by destruct (a_collate A x y).
  - rewrite decide_False by done. rewrite (m_binary_eval _ _ _ _ _ E1 E2). reflexivity.
Qed.
Lemma in_m k subs x e : key_ok cat s k subs → eval e = Some x →
  eval (MBinary (lit "'=") (MCall (lit "$D") [plain_arg (MCall node (plain_arg <$> (subs ++ [e])))]) (MName (lit "0"))) = Some (a_bool A (e_rows E k x)) ∧
  eval (MBinary (lit "=") (MCall (lit "$D") [plain_arg (MCall node (plain_arg <$> (subs ++ [e])))]) (MName (lit "0"))) = Some (a_bool A (negb (e_rows E k x))).
Proof.
  intros Hk Ee. destruct (key_evals k subs Hk) as (vs & Evs). pose proof (rp_rows Hrep k subs vs x Hk Evs) as Hr.
  assert (Ed : eval (MCall (lit "$D") [plain_arg (MCall node (plain_arg <$> (subs ++ [e])))]) = Some (m_data S node (vs ++ [x]))).
  { unfold plain_arg at 1. rewrite m_eval_data. by rewrite (evals_snoc _ _ _ _ Evs Ee). }
  split; rewrite (m_binary_eval _ _ _ _ _ Ed (eval_name _)); unfold m_binary; rewrite !decide_False by done; rewrite decide_True by done; rewrite Hr; [|done].
  by rewrite negb_involutive.
Qed.

Lemma evaluates_reads : (∀ plan v, value_of plan v → ∃ e, reads plan e ∧ eval e = Some v) ∧
  (∀ plan vs, evaluates_list A E cat s column_reference plan vs →
     ∃ es, means_list cat s global_directory raw_cursor column_reference column_tree plan es ∧ evals es = Some vs) ∧
  (∀ plan v, evaluates_branches A E cat s column_reference plan v →
     ∃ xs, means_branches cat s global_directory raw_cursor column_reference column_tree (MName (lit "1")) plan xs ∧
       m_select A S (xs ++ [(MName (lit "1"), Some (MString []))]) = Some v).
Proof.
  apply evaluates_mutual.
  - intros p v Ev Ht Hq. eexists. split; [eapply (means_literal _ _ _ _ _ _ p v (cstr (sv_literal v))); [done|done|by rewrite doubled_id]|done].
  - intros p v Ev Ht. eexists. split; [by eapply means_null|done].
  - intros p v n Ev Ht Hn HF. eexists. split; [by eapply means_parameter|]. by rewrite eval_name, (rp_parameter Hrep).
  - intros p text Hp. eexists. split; [by eapply means_column|]. by eapply (rp_column Hrep).
  - intros k subs Hk. destruct (key_evals k subs Hk) as (vs & Evs). eexists. split; [by eapply means_key|].
    rewrite (eval_node _ _ _ node_plain Evs). by rewrite (rp_key Hrep k subs).
  - intros a b x _ (e & R & Ee). exists e. split; [by constructor|done].
  - intros t a b x y v _ (e1 & R1 & E1) _ (e2 & R2 & E2) Hv. destruct (sql_binary_m t x y v Hv) as (op & Ho & Em).
    exists (MBinary op e1 e2). split; [by eapply means_operator|]. by rewrite (m_binary_eval _ _ _ _ _ E1 E2).
  - intros t a b x v _ (e & R & Ee) Hv. destruct (sql_unary_m t x v Hv) as (op & Ho & Em).
    exists (MUnary op e). split; [by eapply means_unary|]. cbn. by rewrite Ee.
  - intros t a b x y r Hs _ (e1 & R1 & E1) _ (e2 & R2 & E2) Hc. by eapply numbers_m.
  - intros t a b x y r Ht Hs _ (e1 & R1 & E1) _ (e2 & R2 & E2) Hc. by eapply strings_m.
  - intros a b x y _ (e1 & R1 & E1) _ (e2 & R2 & E2). eexists. split; [by eapply means_regex; [left| |]|].
    rewrite (eval_node _ _ [x; y]); [by rewrite (proj1 (rp_matches Hrep x y))|by intros [?|[?|?]]|]. rewrite decide_False by done. cbn. by rewrite E1; cbn; rewrite E2.
  - intros a b x y _ (e1 & R1 & E1) _ (e2 & R2 & E2). eexists. split; [by eapply means_regex; [right| |]|].
    rewrite (eval_node _ _ [x; y; m_variable S (lit "3")]); [by rewrite (proj2 (rp_matches Hrep x y))|by intros [?|[?|?]]|]. rewrite decide_True by done. cbn. by rewrite E1; cbn; rewrite E2.
  - intros a k subs x Hk _ (e & R & Ee). eexists. split; [by eapply means_in; [left| |]|]. rewrite decide_True by done. by apply in_m.
  - intros a k subs x Hk _ (e & R & Ee). eexists. split; [by eapply means_in; [right| |]|]. rewrite decide_False by done. by apply in_m.
  - intros p v b xs Ev Ht Hn Hsp _ (es & R & Ees). eexists. split; [by eapply means_call|]. rewrite (eval_node _ _ _ Hsp Ees). by rewrite (rp_function Hrep).
  - intros k n subs Hk Hn. destruct (key_evals k subs Hk) as (vs & Evs). eexists. split; [by eapply means_derived|].
    assert (Ek : eval (MCall node (plain_arg <$> subs)) = Some (m_node S node vs)) by (by apply eval_node; [apply node_plain|]).
    assert (Er : eval (MCall node (plain_arg <$> (subs ++ [MCall node (plain_arg <$> subs)]))) = Some (m_node S node (vs ++ [m_node S node vs]))).
    { apply eval_node; [apply node_plain|]. by apply evals_snoc. }
    erewrite eval_node; [by rewrite (rp_piece Hrep k subs vs n Hk Evs)|by intros [?|[?|?]]|]. by apply m_evals_cons.
  - intros a b k subs Hout Hk. destruct (key_evals k subs Hk) as (vs & Evs). eexists. split; [by eapply means_subquery|].
    unfold plain_arg at 1. rewrite m_eval_order. rewrite (evals_snoc subs vs (MString []) (a_text A [])) by done. cbn [mbind option_bind]. by rewrite (rp_first Hrep k subs).
  - intros bs v Hbs _ (xs & R & Ex). eexists. split; [by eapply means_case_true|]. by rewrite m_eval_select.
  - exists []. split; [constructor|done].
  - intros t a rest x xs _ (e & R & Ee) _ (es & Rs & Es). exists (e :: es). split; [by constructor|]. by apply m_evals_cons.
  - exists []. split; [constructor|]. cbn [app m_select]. rewrite eval_name. cbn [mbind option_bind]. by rewrite (rp_one Hrep), (a_truth_bool A laws).
  - intros t c r rest v w _ (ec & Rc & Ec) _ (er & Rr & Er) _ (xs & Rx & Ex). eexists. split; [by constructor|].
    cbn [app m_select]. rewrite (m_binary_eval _ _ _ _ _ Ec (eval_name _)), m_equals. cbn [mbind option_bind]. rewrite (rp_one Hrep), bool_decide_eq_true_2 by done.
    by rewrite (a_truth_bool A laws).
  - intros t c r rest v w _ (ec & Rc & Ec) _ (er & Rr & Er) _ (xs & Rx & Ex). eexists. split; [by constructor|].
    cbn [app m_select]. rewrite (m_binary_eval _ _ _ _ _ Ec (eval_name _)), m_equals. cbn [mbind option_bind]. rewrite (rp_one Hrep), bool_decide_eq_false_2.
    + by rewrite (a_truth_bool A laws).
    + intros Hb. by apply (f_equal (a_truth A)) in Hb; rewrite !(a_truth_bool A laws) in Hb.
Qed.

End agreement.

(** ** An example: [(a - (1 - 2)) = 1 AND 2 IN (SELECT ...)], where [a] is 0 and 2 is a row *)
Definition z_arithmetic : arithmetic Z :=
  {| a_text t := digits_value (span_digits t).1; a_plus := Z.add; a_minus := Z.sub; a_times := Z.mul; a_over := Z.div; a_concat x y := x;
     a_number x := x; a_negate := Z.opp; a_bool b := if b then 1 else 0; a_truth x := negb (x =? 0); a_compare := Z.compare; a_collate := Z.compare |}.
Definition z_store : m_store Z :=
  {| m_variable n := if decide (n = lit "1") then 1 else 0; m_node _ _ := 0; m_order _ _ := 0;
     m_data _ vs := if decide (list.last vs = Some 2) then 1 else 0 |}.
Definition z_env : sql_env Z :=
  {| e_column _ := 0; e_key _ := 0; e_rows _ x := bool_decide (x = 2); e_first _ := 0; e_piece _ _ := 0;
     e_parameter n := m_variable z_store (lit "parm" ++ n); e_function _ _ := 0; e_matches _ _ _ := false |}.
Lemma z_laws : arithmetic_laws z_arithmetic.
Proof. split; [by intros []|]. intros x y. apply Z.compare_antisym. Qed.
Lemma z_represents : represents z_arithmetic z_store z_env m_catalog m_planner (lit "o.gld") (lit "%ydboctocursor") m_column (λ _, MName (lit "a")).
Proof.
  split; try done.
  intros k subs vs x _ _. unfold z_store, z_env. cbn [m_data m_variable e_rows]. rewrite last_snoc.
  destruct (decide (x = 2)) as [->|Hx]; [done|]. rewrite !decide_False by (done || congruence). by rewrite (bool_decide_eq_false_2 (x = 2)) by done.
Qed.
