(* ===== verification/EmitStatement.v ===== *)
(** * Compiling a statement

    [emit_select_statement] as a whole, on a SELECT or a set operation of SELECTs over tables:
    it returns, the file of the plan has the code of every SELECT, and the columns noted in
    the database are those of the last. *)
From stdpp Require Import gmap strings.
From S2P Require Import Prelude CMem Errors Frontend FrontendSpec Backend BackendTheorems LogicalPlan LogicalPlanTheorems Dnf SqlStatement Optimize OptimizeStore FixTheorems OptimizeTheorems GenerateWhere GeneratePlan PhysicalPlan PhysicalTheorems PhysicalEnds PhysicalSelect PhysicalSets RoutineName Deserialize Session SessionTheorems MainLoop Connection ConnectionTheorems Compress CreateTable QueryInput RunQuery Handlers HandlerTheorems SelectTheorems EmitPlan EmitTheorems EmitColumns AnswerTheorems MainLoopTheorems OptimizeRows PlanTheorems.

(** The SELECTs of a statement, and the last of them. *)
Definition leaves (t : set_tree) : list query := (actions PP_NOT_SET t).*2.
Lemma tree_depth_size t : (tree_depth t ≤ lp_size (tree_plan t))%nat.
Proof. induction t; cbn; lia. Qed.
(** The output of a SELECT is not a cross reference. *)
Definition plain_output (s : planner) (q : query) : Prop :=
  ∃ k key, q_output q = Op LP_OUTPUT (Leaf LP_KEY (VKey k)) NULL ∧ pl_keys s !! k = Some key ∧ k_is_cross_reference_key key = false.

Section statement.
Context `{QueryRuntime} `{!YottaDBLaws} `{!YottaDBNodes} `{!YottaDBNodesLaws} `{!SubtreeLaws} (config : QueryConfig).
Context (cat : catalog) (mem : nat → byte) (optimize_fuel : nat) (outer_join : SqlStatement → P LogicalPlan) (fuel : nat).
Context (fopen : list byte → bool) (tmpl_physical_plan : emitted → ptr → list byte) (room : Z).
Abbreviation emit := (EmitPlan.emit_select_statement cat mem optimize_fuel outer_join fuel (tmp_dir config) (octo_global config)
  digest fopen tmpl_physical_plan room).

Context (writes : ∀ d k v, ∃ d', ydb_set_s d k v = (YDB_OK, d')).
Lemma set_fields_writes f column fields : ∀ d, ∃ d', set_fields (octo_global config) f column fields d = Ret d'.
Proof.
  induction fields as [|[field v] fields IH]; intros d; [by exists d|]. cbn [set_fields]. unfold set_db.
  destruct (writes d (metadata (octo_global config) f [lit "output_columns"; column; field]) v) as (d1 & ->). rewrite check_ok. cbn. apply IH.
Qed.
Lemma set_columns_writes s f columns names : column_names s columns = Ret names →
  ∀ k d, ∃ d', set_columns s (octo_global config) f k columns d = Ret d'.
Proof.
  revert names. induction columns as [|t a _ b IH|t v]; intros names E k d; [done| |by cbn [column_names] in E; apply bind_ret_inv in E as (? & _ & E)].
  cbn [column_names] in E. apply bind_ret_inv in E as (name & En & E). unfold column_name in En. apply bind_ret_inv in En as (t' & Ht & En).
  apply bind_ret_inv in En as (u & Hu & En). cbn [set_columns]. rewrite Ht. cbn [mbind outcome_bind]. rewrite Hu. cbn [mbind outcome_bind].
  rewrite En. cbn [mbind outcome_bind]. destruct (set_fields_writes f (dec (k + 1)) (column_fields name) d) as (d1 & ->). cbn [mbind outcome_bind].
  destruct b; [by exists d1|apply bind_ret_inv in E as (rest & Er & _); by eapply IH..].
Qed.

(** The list of plans as it is after the names are set. *)
Lemma links_renamed plans plans' before c : (∀ q pq, plans !! q = Some pq → ∃ pq', plans' !! q = Some pq' ∧ renamed pq pq') →
  links plans before c → links plans' before c.
Proof.
  intros Hr. revert before. induction c as [|p c IH]; intros before; [done|]. intros (q & Hq & Hp & Hn & Hl).
  destruct (Hr p q Hq) as (q' & Hq' & (nm & fl & ->)). exists (set_names nm fl q). split; [done|]. destruct q; cbn in *. auto.
Qed.
Lemma links_length plans before c : links plans before c → NoDup c → (length c ≤ size plans)%nat.
Proof.
  intros Hl Hd. rewrite <- size_dom, <- (size_list_to_set (C := gset ptr) c) by done. apply subseteq_size.
  intros q Hq%elem_of_list_to_set. apply elem_of_dom. by eapply links_lookup.
Qed.
Lemma does_last ph chain l t : Forall2 (does ph) chain (actions PP_NOT_SET t) → list.last chain = Some l →
  ∃ q pq, list.last (leaves t) = Some q ∧ ph_plans ph !! l = Some pq ∧ projection pq = q_columns q ∧
    q_output q = Op LP_OUTPUT (Leaf LP_KEY (VKey (outputKey pq))) NULL.
Proof.
  intros HF Hl. unfold leaves. rewrite fmap_last. destruct (list.last (actions PP_NOT_SET t)) as [[op q]|] eqn:Ea.
  - pose proof (Forall2_length HF) as Hlen. rewrite last_lookup in Hl. pose proof Ea as Ea'. rewrite last_lookup, <- Hlen in Ea'.
    destruct (Forall2_lookup_lr _ _ _ _ _ _ HF Hl Ea') as [(pq & Hpq & _ & _ & _ & Hp & Ho)]. by exists q, pq.
  - apply last_None in Ea. rewrite Ea in HF. by inversion HF; subst.
Qed.
Lemma outputs_plain ph chain t s2 : Forall2 (does ph) chain (actions PP_NOT_SET t) → Forall (plain_output s2) (leaves t) →
  (∀ q, is_Some (ph_plans ph !! q) → q ∈ chain) →
  ∀ q pq, ph_plans ph !! q = Some pq → outputKey pq = null ∨ k_is_cross_reference_key <$> pl_keys s2 !! outputKey pq = Some false.
Proof.
  intros HF Hout Hall q pq Hq. assert (Hin : q ∈ chain) by (apply Hall; by eexists). apply list_elem_of_lookup_1 in Hin as (i & Hi).
  destruct (Forall2_lookup_l _ _ _ _ _ HF Hi) as ([op qq] & Ha & [(pq' & Hpq' & _ & _ & _ & _ & Ho)]).
  rewrite Hq in Hpq'. injection Hpq' as <-. rewrite list.Forall_forall in Hout.
  destruct (Hout qq) as (k & key & Hk & Hkey & Hx); [apply (list_elem_of_fmap_2 snd _ (op, qq)); by eapply list_elem_of_lookup_2|].
  cbn in Ho. rewrite Ho in Hk. injection Hk as ->. right. by rewrite Hkey, <- Hx.
Qed.

(** C6: Compiling a statement.  For a SELECT or a set operation of SELECTs over tables, once
    its logical plans are made, [emit_select_statement] returns: there is a physical plan
    for each SELECT, in the order they are written, the file under the given name has the
    code of each of them once, and the RowDescription of the plan has the names of the
    columns of the last SELECT. *)
Theorem statement_compiled s stmt f files d t s2 columns names :
  plan_statement cat optimize_fuel outer_join fuel stmt s = Ret (Some (tree_plan t, s2)) →
  tree_ok s2 t → Forall (plain_output s2) (leaves t) → 0 < pl_next s2 →
  q_columns <$> list.last (leaves t) = Some columns → column_names s2 columns = Ret names → Z.of_nat (lp_size columns) < 10 ^ 20 →
  nul ∉ f → f ≠ [] → fopen (tmp_name f) = true → subscripts d (columns_node config f) = [] →
  ∃ last d' ph chain texts,
    emit stmt f s files d = Ret (Some last, <[f := lines texts]> (delete (tmp_name f) files), d') ∧
    linked ph chain ∧ Forall2 (does ph) chain (actions PP_NOT_SET t) ∧
    texts_of tmpl_physical_plan (filter (λ q, deferred_in (ph_plans ph) q = false) chain ++ filter (λ q, deferred_in (ph_plans ph) q = true) chain) texts ∧
    (collates d' (columns_node config f) → Forall (λ name, zlen name ≤ MAX_STR_CONST) names → small (columns_payload (described <$> names)) →
     ∃ m, get_plan_row_description config (S (length names)) d' f = Ret m ∧ wire m = Ret (columns_frame (described <$> names))).
Proof.
  intros Hplan Hok Hout Hnext Hcols Hnames Hsize Hnul Hne Hopen Hnone. pose proof (cstr_id f Hnul) as Hf.
  destruct (physical_tree s2 t Hok (lp_size (tree_plan t)) options0 (phys0 (pl_next s2)) [] (tree_depth_size t) (bounded0 _ Hnext) (linked0 _))
    as (p & ph & new & E1 & Hg & HF & _).
  pose proof (grown_linked _ _ _ _ _ Hg [] (linked0 _)) as Hl. rewrite app_nil_r in Hl.
  assert (Hall : ∀ q, is_Some (ph_plans ph !! q) → q ∈ p :: new).
  { intros q Hq. destruct (grown_all _ _ _ _ _ Hg q Hq) as [[? Hx]|?]; [|done]. cbn in Hx. by rewrite lookup_empty in Hx. }
  destruct (emit_plan_file cat s2 mem (tmp_dir config) digest fopen tmpl_physical_plan room ph (p :: new) p files f Hl (grown_bounded _ _ _ _ _ Hg)
    ltac:(by left) (outputs_plain ph _ t s2 HF Hout Hall) ltac:(by rewrite Hf) ltac:(by rewrite Hf)) as (em & texts & E2 & F2 & T2 & _ & K2 & R2).
  pose proof (links_renamed _ _ _ _ R2 (linked_links _ _ Hl)) as Hlinks.
  pose proof (links_length _ _ _ Hlinks (linked_nodup _ _ Hl)) as Hlen. cbn in Hlen.
  assert (Hnull : null ∉ new).
  { intros Hin. destruct (grown_new _ _ _ _ _ Hg null); [by right|]. cbn in *. unfold null in *. lia. }
  assert (E3 : last_plan (S (size (em_plans em))) (em_plans em) p = Ret (default p (list.last new)))
    by (apply (last_plan_links _ null []); [done|done|lia]).
  destruct (does_last ph (p :: new) (default p (list.last new)) t HF) as (q & pq & Hq & Hpq & Hproj & Ho); [rewrite last_cons; by destruct (list.last new)|].
  destruct (R2 _ _ Hpq) as (pq' & Hpq' & (nm & fl & ->)). rewrite Hq in Hcols. injection Hcols as <-.
  rewrite list.Forall_forall in Hout. destruct (Hout q) as (k & key & Hk & Hkey & _); [by apply last_Some_elem_of|].
  rewrite Ho in Hk. injection Hk as <-.
  destruct (writes d (metadata (octo_global config) f [lit "output_key"]) (dec (k_unique_id key))) as (d1 & W1).
  destruct (set_columns_writes s2 f (q_columns q) names Hnames 0 d1) as (d2 & W2).
  exists (default p (list.last new)), d2, ph, (p :: new), texts. split.
  { unfold EmitPlan.emit_select_statement. rewrite Hplan. cbn [mbind outcome_bind]. rewrite E1. cbn [mbind outcome_bind]. rewrite E2. cbn [mbind outcome_bind].
    rewrite E3. cbn [mbind outcome_bind]. rewrite Hpq'. cbn [found mbind outcome_bind].
    assert (outputKey (set_names nm fl pq) = outputKey pq ∧ projection (set_names nm fl pq) = projection pq) as [-> ->] by by destruct pq.
    rewrite K2, Hkey. cbn [found mbind outcome_bind]. rewrite Hf. unfold set_db at 1. rewrite W1, check_ok. cbn [mbind outcome_bind].
    rewrite Hproj, W2. cbn [mbind outcome_bind]. by rewrite F2, Hf. }
  split; [done|]. split; [done|]. split; [done|]. intros Hcol Hz Hsm.
  assert (Hnone1 : subscripts d1 (columns_node config f) = []).
  { rewrite <- Hnone. eapply subscripts_set_other; [exact W1|cbn; lia|]. intros [l Hpre]. unfold metadata, columns_node in Hpre. by vm_compute in Hpre. }
  destruct (columns_described config s2 f (S (length names)) (q_columns q) d1 d2 W2 Hsize Hnone1 Hcol) as (names' & Hn' & Hd).
  rewrite Hnames in Hn'. injection Hn' as <-. apply Hd; [done|done|lia].
Qed.
End statement.

(** ** A sample *)
#[local] Existing Instance map_db.
#[local] Existing Instance map_db_laws.
#[local] Existing Instance map_nodes.
#[local] Existing Instance map_nodes_laws.
#[local] Existing Instance map_subtree_laws.
#[local] Existing Instance toy_sql.
#[local] Existing Instance toy_runtime.
Definition orders_plans : option (LogicalPlan * planner) := returned None (plan_statement sample_catalog 20 no_outer 3 orders_stmt sample_store).
Definition orders_ready : planner := default sample_store (snd <$> orders_plans).
Definition orders_optimised : query :=
  Query (q_columns orders_planned) (tables_plan [30; 31]) [103; 104; 105; 106] (q_where orders_planned) NULL 102 (q_output orders_planned).
Lemma returned_plan (o : outcome (option (LogicalPlan * planner))) plan s0 : has_returned o = true → fst <$> returned None o = Some plan →
  o = Ret (Some (plan, default s0 (snd <$> returned None o))).
Proof. destruct o as [[[plan' s2]|]| | |]; try done. by intros _ [= ->]. Qed.
Lemma orders_plans_made : plan_statement sample_catalog 20 no_outer 3 orders_stmt sample_store = Ret (Some (tree_plan (SetSelect orders_optimised), orders_ready)).
Proof. apply returned_plan; vm_compute; reflexivity. Qed.
Definition orders_key (p : ptr) : SqlKey := default sample_key (pl_keys orders_ready !! p).
Lemma orders_own p c id alias : pl_column_aliases orders_ready !! p = Some (c, orders_as alias id) → (id = 1 ∨ id = 2) → own_column orders_ready [103; 104; 105; 106] p.
Proof.
  intros Hp Hid. exists c, alias, orders, (OptimizeRows.named 1), id, null_STATEMENT. split; [exact Hp|]. destruct Hid as [-> | ->].
  - exists 103, (orders_key 103). split; [by left|]. split; vm_compute; reflexivity.
  - exists 105, (orders_key 105). split; [by right; right; left|]. split; vm_compute; reflexivity.
Qed.
Lemma orders_leaf : leaf_ok orders_ready orders_optimised.
Proof.
  eexists 100, (orders_key 100), _, _, _.
  split; try (vm_compute; reflexivity).
  - split; [done|]. right. split; [by exists LP_TABLE|]. right. split; [by exists LP_TABLE|done].
  - split; [done|]. split; [cbn; unfold MAX_KEY_COUNT; lia|]. repeat (apply list.Forall_cons; split; [eexists; vm_compute; reflexivity|]). constructor.
  - cbn. repeat split; try done; (eapply orders_own; [vm_compute; reflexivity|by auto]).
  - cbn. eapply orders_own; [vm_compute; reflexivity|by auto].
Qed.

Definition orders_emitted : outcome (option ptr * gmap (list byte) (list byte) * @db map_db) :=
  EmitPlan.emit_select_statement sample_catalog sample_mem 20 no_outer 3 (lit "/tmp") toy_octo digest (λ _, true) sample_tmpl 32
    orders_stmt orders_file sample_store ∅ empty_db.
Lemma statement_compiled_witness : ∃ last d' ph chain texts m,
  orders_emitted = Ret (Some last, {[orders_file := lines texts]}, d') ∧
  linked ph chain ∧ lines texts = lines [lit "octoPlan1"] ∧
  get_plan_row_description toy_config 2 d' orders_file = Ret m ∧ wire m = Ret (columns_frame [described (lit "ID")]).
Proof.
  destruct (statement_compiled toy_config sample_catalog sample_mem 20 no_outer 3 (λ _, true) sample_tmpl 32 ltac:(intros; by eexists)
    sample_store orders_stmt orders_file ∅ empty_db (SetSelect orders_optimised) orders_ready (q_columns orders_planned) [lit "ID"])
    as (last & d' & ph & chain & texts & E & Hl & HF & Ht & Hd).
  - exact orders_plans_made.
  - exact orders_leaf.
  - constructor; [|constructor]. exists 100, (orders_key 100). split; [done|]. split; vm_compute; reflexivity.
  - vm_compute. reflexivity.
  - done.
  - vm_compute. reflexivity.
  - done.
  - eval_decide.
  - done.
  - done.
  - vm_compute. reflexivity.
  - change (orders_emitted = Ret (Some last, {[orders_file := lines texts]}, d')) in E.
    assert (Hf : match orders_emitted with Ret (_, files, _) => files !! orders_file | _ => None end = Some (lines [lit "octoPlan1"])) by (vm_compute; reflexivity).
    assert (Hs : match orders_emitted with Ret (_, _, d) => subscripts d (columns_node toy_config orders_file) | _ => [] end = [dec 1]) by (vm_compute; reflexivity).
    rewrite E in Hf, Hs. rewrite lookup_singleton_eq in Hf. injection Hf as Hf.
    destruct (Hd (collates_one _ _ Hs)) as (m & Hm & Hw); [eval_decide|by vm_compute|]. exists last, d', ph, chain, texts, m. exact (conj E (conj Hl (conj Hf (conj Hm Hw)))).
Defined.
