(* ===== verification/FindTheorems.v ===== *)
(** * A table that was created is found

    CREATE TABLE stores a table in parts; [find_table] loads it.  Together: the table found
    is the table created, each column with the number of its piece, and it is loaded once. *)
From stdpp Require Import gmap strings.
From S2P Require Import Prelude CMem Errors LogicalPlan SqlStatement Session SessionTheorems Connection ConnectionTheorems Backend Frontend MainLoop Compress CompressTheorems DecompressTheorems CreateTable QueryInput RunQuery Handlers HandlerTheorems SelectTheorems EmitPlan EmitColumns EmitTheorems AnswerTheorems MainLoopTheorems FindTable.

(** ** Reading a block *)
Lemma value_type_of t : enum_of value_type_value all_value_types (value_type_value t) = Ret t.
Proof. by destruct t. Qed.
Lemma data_type_of t : enum_of data_type_value all_data_types (data_type_value t) = Ret t.
Proof. by destruct t. Qed.
Lemma keyword_of t : enum_of keyword_value all_keywords (keyword_value t) = Ret t.
Proof. by destruct t. Qed.

Section read.
Context (base : Z) (b : list byte).
Lemma read_ring_cells {A} (cell : Z → A → Prop) (f : Z → outcome A) next prev e r l : ∀ p q fuel,
  Forall (λ x, ∀ p, cell p x → f p = Ret x) l → l ≠ [] → (length l ≤ fuel)%nat →
  ring_cells base b next prev cell p q l e r → read_ring base b fuel f next e p = Ret l.
Proof.
  induction l as [|x l IH]; intros p q fuel HF Hne Hf Hr; [done|]. apply list.Forall_cons in HF as [Hx HF].
  destruct fuel as [|fuel]; [cbn in Hf; lia|]. cbn [ring_cells] in Hr. destruct Hr as (_ & Hc & n & Hn & He & Hr).
  cbn [read_ring]. rewrite (Hx p Hc). cbn [mbind outcome_bind]. rewrite Hn. cbn [mbind outcome_bind].
  destruct l as [|y l]; [destruct (Z.eqb_spec n e) as [|Hne']; [done|by destruct Hne'; apply He]|].
  destruct (Z.eqb_spec n e) as [Heq|_]; [by apply He in Heq|]. rewrite (IH n p fuel) by (done || cbn in *; lia). done.
Qed.

Lemma represents_read c : ∀ fuel a, (Z.to_nat (size c) < fuel)%nat → represents base b a c → read_statement base b fuel a = Ret c.
Proof.
  induction c as [c IH] using content_induction. intros [|fuel] a Hf Hr; [lia|].
  assert (HU : Forall (λ c', ∀ q, (∃ p, load_ptr base b q = Ret p ∧ represents base b p c') →
    (p ← load_ptr base b q; read_statement base b fuel p) = Ret c') (content_children c)).
  { pose proof (children_smaller c) as Hsm. apply list.Forall_forall. intros c' Hin q (p & -> & Hp).
    rewrite list.Forall_forall in IH, Hsm. specialize (Hsm c' Hin). cbn in Hsm |- *. size_pos. apply (IH c' Hin); [lia|done]. }
  clear IH. destruct c as [|n s k d|t k d text|k d c|ring|ring]; cbn [represents content_children] in Hr, HU; cbn [read_statement].
  - by subst a.
  - destruct Hr as (v & (Ha & Ht & Hv & _) & Mn & Ms & Mk & Md). repeat (apply list.Forall_cons in HU as [? HU]).
    destruct (Z.eqb_spec a null); [done|]. rewrite Ht. cbn [mbind outcome_bind]. rewrite Hv. cbn [mbind outcome_bind Z.eqb].
    repeat match goal with HU : (∀ q, _ → (_ ≫= _) = Ret ?c), Hm : (∃ p, load_ptr _ _ _ = Ret p ∧ represents _ _ p ?c) |- _ =>
      apply HU in Hm; clear HU end.
    by repeat (match goal with Hm : (load_ptr _ _ _ ≫= _) = Ret _ |- _ => rewrite Hm; clear Hm; cbn [mbind outcome_bind] end).
  - destruct Hr as (v & (Ha & Ht & Hv & _) & Hnc & Lt & Lk & Ld & p & Lp & Hs).
    destruct (Z.eqb_spec a null); [done|]. rewrite Ht. cbn [mbind outcome_bind]. rewrite Hv. cbn [mbind outcome_bind Z.eqb].
    rewrite Lt, Lk, Ld, Lp. cbn [mbind outcome_bind]. rewrite !value_type_of, data_type_of. cbn [mbind outcome_bind].
    rewrite decide_False by done. by rewrite Hs.
  - destruct Hr as (v & (Ha & Ht & Hv & _) & Lt & Lk & Ld & Mc). apply list.Forall_cons in HU as [HU _].
    destruct (Z.eqb_spec a null); [done|]. rewrite Ht. cbn [mbind outcome_bind]. rewrite Hv. cbn [mbind outcome_bind Z.eqb].
    rewrite Lt, Lk, Ld. cbn [mbind outcome_bind]. rewrite !value_type_of, data_type_of. cbn [mbind outcome_bind].
    rewrite decide_True by done. by rewrite (HU _ Mc).
  - destruct Hr as (Hne & v & last & (Ha & Ht & Hv & _) & Hr).
    destruct (Z.eqb_spec a null); [done|]. rewrite Ht. cbn [mbind outcome_bind]. rewrite Hv. cbn [mbind outcome_bind Z.eqb].
    pose proof (ring_length_size 48 (λ '(n, _, k), 48 + size n + size k) ring ltac:(lia) ltac:(intros [[n' ?] k']; slia)) as Hlen. cbn [size] in Hf.
    erewrite (read_ring_cells _ _ 32 40 v last ring v last fuel); [done| |done|lia|exact Hr].
    apply Forall_bind_inv in HU. eapply Forall_impl; [|exact HU]. intros [[n' t] k'] Hx p (Mn & Lt & Mk).
    do 2 (apply list.Forall_cons in Hx as [? Hx]). rewrite (H _ Mn). cbn [mbind outcome_bind]. rewrite Lt. cbn [mbind outcome_bind].
    rewrite data_type_of. cbn [mbind outcome_bind]. by rewrite (H0 _ Mk).
  - destruct Hr as (Hne & v & last & (Ha & Ht & Hv & _) & Hr).
    destruct (Z.eqb_spec a null); [done|]. rewrite Ht. cbn [mbind outcome_bind]. rewrite Hv. cbn [mbind outcome_bind Z.eqb].
    pose proof (ring_length_size 32 (λ '(_, v), 32 + size v) ring ltac:(lia) ltac:(intros [? v']; slia)) as Hlen. cbn [size] in Hf.
    erewrite (read_ring_cells _ _ 16 24 v last ring v last fuel); [done| |done|lia|exact Hr].
    apply Forall_bind_inv in HU. eapply Forall_impl; [|exact HU]. intros [w c'] Hx p (Lw & Mc).
    apply list.Forall_cons in Hx as [Hc' _]. rewrite Lw. cbn [mbind outcome_bind]. rewrite keyword_of. cbn [mbind outcome_bind].
    by rewrite (Hc' _ Mc).
Qed.
End read.

(** ** What stays in the database *)
(** What the documentation says of [ydb_incr_s]: it sets one node. *)
Class IncrLaws `{YottaDBNodesLaws} : Prop := {
  incr_other d k d' v k' n : ydb_incr_s d k = (YDB_OK, d', v) → k ≠ k' → ydb_get_s d' k' n = ydb_get_s d k' n;
  incr_subscripts d k d' v k' : ydb_incr_s d k = (YDB_OK, d', v) → ¬ k' `prefix_of` k → subscripts d' k' = subscripts d k';
}.

Section database.
Context `{QueryRuntime} `{!YottaDBLaws} `{!YottaDBNodes} `{!YottaDBNodesLaws} `{!IncrLaws}.

(** The node [k] and those below it. *)
Definition same_below (k : list (list byte)) (d d' : db) : Prop :=
  subscripts d' k = subscripts d k ∧ ∀ l n, ydb_get_s d' (k ++ l) n = ydb_get_s d (k ++ l) n.
Lemma same_below_refl k d : same_below k d d.
Proof. done. Qed.
Lemma same_below_trans k d1 d2 d3 : same_below k d1 d2 → same_below k d2 d3 → same_below k d1 d3.
Proof. intros [Sa Ga] [Sb Gb]. split; [by rewrite Sb|]. intros l n. by rewrite Gb. Qed.
Lemma set_same_below k k' v d d' : ydb_set_s d k' v = (YDB_OK, d') → (1 < length k')%nat → ¬ k `prefix_of` k' → same_below k d d'.
Proof.
  intros E Hlen Hp. split; [by eapply subscripts_set_other|]. intros l n. eapply get_set_other; [exact E|done|].
  intros ->. apply Hp. by exists l.
Qed.
Lemma incr_same_below k k' v d d' : ydb_incr_s d k' = (YDB_OK, d', v) → ¬ k `prefix_of` k' → same_below k d d'.
Proof.
  intros E Hp. split; [by eapply incr_subscripts|]. intros l n. eapply incr_other; [exact E|]. intros ->. apply Hp. by exists l.
Qed.
Lemma head_apart (x : list byte) l k : k ≠ [] → head k ≠ Some x → ¬ k `prefix_of` (x :: l).
Proof. intros Hk Hh [r E]. destruct k; [done|]. injection E as -> _. by apply Hh. Qed.

(** The catalogue is below another global. *)
Lemma check_inv st u : ydb_error_check st = Ret u → st = YDB_OK.
Proof. unfold ydb_error_check. by destruct (decide _). Qed.
Lemma next_oid_below octo k d oid d' : k ≠ [] → head k ≠ Some octo → next_oid octo d = Ret (oid, d') → same_below k d d'.
Proof.
  intros Hk Hh. unfold next_oid. destruct (ydb_incr_s d _) as [[st d1] v] eqn:E. intros E1. apply bind_ret_inv in E1 as (u & ->%check_inv & [= _ <-]).
  eapply incr_same_below; [exact E|by apply head_apart].
Qed.
Lemma store_columns_below octo k ring oid : k ≠ [] → head k ≠ Some octo → ∀ buffer n m d m' d',
  store_columns octo ring oid buffer n m d = Ret (m', d') → same_below k d d'.
Proof.
  intros Hk Hh. induction ring as [|[p cn ty tb kw] ring IH]; intros buffer n m d m' d' E; [by injection E as <- <-|].
  cbn [store_columns] in E. apply bind_ret_inv in E as (t & _ & E). apply bind_ret_inv in E as ([cn' m1] & _ & E).
  apply bind_ret_inv in E as (buf & _ & E). apply bind_ret_inv in E as ([id d1] & E1 & E). apply bind_ret_inv in E as (v & _ & E).
  destruct (ydb_set_s d1 _ v) as [st d2] eqn:E2. apply bind_ret_inv in E as (u & ->%check_inv & E).
  eapply same_below_trans; [by eapply next_oid_below|]. eapply same_below_trans; [|by eapply IH].
  eapply set_same_below; [exact E2|rewrite ?length_app; cbn; lia|by apply head_apart].
Qed.
Lemma catalogue_below octo mem rings tn cols m k d m' d' : k ≠ [] → head k ≠ Some octo →
  store_table_in_pg_class octo mem rings tn cols m d = Ret (m', d') → same_below k d d'.
Proof.
  intros Hk Hh E. unfold store_table_in_pg_class in E. apply bind_ret_inv in E as ([oid d1] & E1 & E). apply bind_ret_inv in E as ([tn' m1] & _ & E).
  apply bind_ret_inv in E as (buf & _ & E). apply bind_ret_inv in E as (row & _ & E). destruct (ydb_set_s d1 _ row) as [st d2] eqn:E2.
  apply bind_ret_inv in E as (u & ->%check_inv & E). apply bind_ret_inv in E as (ring & _ & E).
  eapply same_below_trans; [by eapply next_oid_below|]. eapply same_below_trans; [eapply set_same_below; [exact E2|rewrite ?length_app; cbn; lia|by apply head_apart]|].
  destruct ring; [done|]. by eapply store_columns_below.
Qed.

(** ** The parts *)
Definition part (b : list byte) (i : Z) : list byte := take (Z.to_nat MAX_STR_CONST) (drop (Z.to_nat (MAX_STR_CONST * i)) b).
Lemma set_q_inv node v s u s' : set_q node v s = Ret (u, s') → ydb_set_s (qs_db s) node v = (YDB_OK, qs_db s').
Proof.
  unfold set_q. destruct (ydb_set_s _ _ _) as [st d] eqn:E. intros E1. apply bind_ret_inv in E1 as (u1 & ->%check_inv & [= _ <-]). done.
Qed.
Lemma q_bind_inv {A B} (m : Q A) (k : A → Q B) s b s' : (m ≫= k) s = Ret (b, s') → ∃ a s1, m s = Ret (a, s1) ∧ k a s1 = Ret (b, s').
Proof. intros E. apply bind_ret_inv in E as ([a s1] & E1 & E2). by exists a, s1. Qed.
Lemma q_lift_inv {A} (o : outcome A) s a s' : RunQuery.lift o s = Ret (a, s') → o = Ret a ∧ s' = s.
Proof. intros E. apply bind_ret_inv in E as (x & -> & [= -> ->]). done. Qed.
Lemma load_part b i n : 0 ≤ i → MAX_STR_CONST * i < zlen b →
  n = (if MAX_STR_CONST <? zlen b - MAX_STR_CONST * i then MAX_STR_CONST else zlen b - MAX_STR_CONST * i) →
  load_bytes b (MAX_STR_CONST * i) n = Ret (part b i).
Proof.
  intros Hi Hb ->. assert (0 < MAX_STR_CONST) by done. unfold load_bytes, part. destruct (Z.ltb_spec MAX_STR_CONST (zlen b - MAX_STR_CONST * i)).
  - destruct (_ || _) eqn:Eb; [lia|]. done.
  - destruct (_ || _) eqn:Eb; [lia|]. f_equal. rewrite !take_ge; [done|rewrite length_drop; unfold zlen in *; lia..].
Qed.
Section chunks.
Context (config : QueryConfig) (name : list byte).
Abbreviation parts := (parts_node (schema_global config) name).
(** Storing the parts from [i] on. *)
Lemma store_chunks_spec b : zlen b < 10 ^ 20 → ∀ fuel i s u s', 0 ≤ i → store_chunks config fuel name b (MAX_STR_CONST * i) (zlen b) i s = Ret (u, s') →
  (∀ j, i ≤ j → MAX_STR_CONST * j < zlen b → ydb_get_s (qs_db s') (parts ++ [dec j]) MAX_STR_CONST = (YDB_OK, part b j)) ∧
  (∀ y, y ∈ subscripts (qs_db s') parts ↔ (∃ j, i ≤ j ∧ MAX_STR_CONST * j < zlen b ∧ y = dec j) ∨ y ∈ subscripts (qs_db s) parts) ∧
  (∀ k, (∀ j, i ≤ j → MAX_STR_CONST * j < zlen b → ¬ k `prefix_of` (parts ++ [dec j])) → same_below k (qs_db s) (qs_db s')).
Proof.
  intros Hb. assert (Hmax : MAX_STR_CONST = 32768) by done. induction fuel as [|fuel IH]; intros i s u s' Hi E; [done|]. cbn [store_chunks] in E.
  destruct (Z.ltb_spec (MAX_STR_CONST * i) (zlen b)) as [Hlt|Hge].
  2: { injection E as _ <-. split_and!; [lia| |done]. intros y. split; [by right|]. intros [(j & ? & ? & _)|Hy]; [lia|done]. }
  apply q_bind_inv in E as (p & s0 & [Ep ->]%q_lift_inv & E). rewrite (load_part b i) in Ep by done. injection Ep as <-.
  apply q_bind_inv in E as (u1 & s1 & E1%set_q_inv & E). change ([schema_global config; name; lit "b"; dec i]) with (parts ++ [dec i]) in E1.
  replace (MAX_STR_CONST * i + MAX_STR_CONST) with (MAX_STR_CONST * (i + 1)) in E by lia.
  destruct (IH (i + 1) s1 u s' ltac:(lia) E) as (G & Sub & F).
  split_and!.
  - intros j Hj Hjb. destruct (decide (j = i)) as [->|Hn]; [|apply G; [lia|done]].
    assert (Hf : same_below (parts ++ [dec i]) (qs_db s1) (qs_db s')).
    { apply F. intros j' Hj' Hjb' [l El]. rewrite <- app_assoc in El. apply app_inv_head in El. injection El as El _.
      apply dec_inj in El; lia. }
    destruct Hf as [_ Hf]. specialize (Hf [] MAX_STR_CONST). rewrite app_nil_r in Hf. rewrite Hf. eapply get_set_same; [exact E1|].
    unfold part, zlen. rewrite length_take. lia.
  - intros y. rewrite Sub, (subscripts_set _ _ _ _ _ y E1 (dec_nonempty i)). split.
    + intros [(j & ? & ? & ->)|[->|Hy]]; [left; exists j; split_and!; [lia|done|done]|left; exists i; split_and!; [lia|done|done]|by right].
    + intros [(j & ? & ? & ->)|Hy]; [|by right; right]. destruct (decide (j = i)) as [->|]; [by right; left|left; exists j; split_and!; [lia|done|done]].
  - intros k Hk. eapply same_below_trans; [eapply set_same_below; [exact E1|rewrite ?length_app; cbn; lia|apply Hk; lia]|]. apply F. intros j Hj Hjb. apply Hk; [lia|done].
Qed.
End chunks.

(** Reading them: [filled k] is the buffer with the first [k] parts. *)
Definition filled (b : list byte) (n k : nat) : list byte :=
  let l := take (Z.to_nat (MAX_STR_CONST * Z.of_nat k)) b in l ++ replicate (Z.to_nat (MAX_STR_CONST * Z.of_nat n) - length l) nul.
Lemma take_drop_more {A} (l : list A) i j : take i l ++ take j (drop i l) = take (i + j) l.
Proof. by rewrite take_take_drop. Qed.
Lemma filled_next b n k : (k < n)%nat → MAX_STR_CONST * Z.of_nat k < zlen b ≤ MAX_STR_CONST * Z.of_nat n →
  store_bytes (filled b n k) (MAX_STR_CONST * Z.of_nat k) (part b (Z.of_nat k)) = Ret (filled b n (S k)).
Proof.
  intros Hk Hb. assert (Hmax : MAX_STR_CONST = 32768) by done. unfold filled. cbv zeta. set (i := Z.to_nat (MAX_STR_CONST * Z.of_nat k)).
  set (N := Z.to_nat (MAX_STR_CONST * Z.of_nat n)). assert (Hi : length (take i b) = i) by (rewrite length_take; unfold zlen in *; lia).
  assert (Hp : take i b ++ part b (Z.of_nat k) = take (Z.to_nat (MAX_STR_CONST * Z.of_nat (S k))) b).
  { unfold part. fold i. rewrite take_drop_more. f_equal. lia. }
  assert (Hlp : (length (part b (Z.of_nat k)) ≤ N - i)%nat) by (unfold part; fold i; rewrite length_take, length_drop; unfold zlen in *; lia).
  rewrite (store_bytes_app_eq _ _ (take i b) (replicate (length (part b (Z.of_nat k))) nul)
    (replicate (N - length (take (Z.to_nat (MAX_STR_CONST * Z.of_nat (S k))) b)) nul)).
  - by rewrite app_assoc, Hp.
  - rewrite <- replicate_add. f_equal. f_equal. rewrite <- Hp, length_app. lia.
  - unfold zlen. lia.
  - unfold zlen. by rewrite length_replicate.
Qed.
Lemma read_parts_spec d node b n : subscripts d node = (λ i : nat, dec (Z.of_nat i)) <$> seq 0 n →
  (∀ j, (j < n)%nat → MAX_STR_CONST * Z.of_nat j < zlen b ∧ ydb_get_s d (node ++ [dec (Z.of_nat j)]) MAX_STR_CONST = (YDB_OK, part b (Z.of_nat j))) →
  zlen b ≤ MAX_STR_CONST * Z.of_nat n → ∀ r k fuel cur, (k + r = n)%nat → (r < fuel)%nat →
  ydb_subscript_next_s d node cur = match seq k r with [] => (YDB_ERR_NODEEND, []) | i :: _ => (YDB_OK, dec (Z.of_nat i)) end →
  read_parts fuel d node cur (Z.of_nat k) (filled b n k) = Ret (filled b n n, Z.of_nat n).
Proof.
  intros Hs Hg Hb. induction r as [|r IH]; intros k fuel cur Hk Hf Hn; (destruct fuel as [|fuel]; [lia|]); cbn [read_parts seq] in *; rewrite Hn.
  - rewrite decide_True by done. assert (k = n) as -> by lia. done.
  - rewrite decide_False, check_ok by done. cbn [mbind outcome_bind]. destruct (Hg k ltac:(lia)) as [Hkb ->]. rewrite check_ok. cbn [mbind outcome_bind].
    rewrite filled_next by lia. cbn [mbind outcome_bind]. replace (Z.of_nat k + 1) with (Z.of_nat (S k)) by lia. apply IH; [lia|lia|].
    rewrite (next_after d node ((λ i : nat, dec (Z.of_nat i)) <$> seq 0 k) (dec (Z.of_nat k)) ((λ i : nat, dec (Z.of_nat i)) <$> seq (S k) r)); [by destruct r|].
    rewrite Hs. replace n with (k + S r)%nat by lia. by rewrite seq_app, fmap_app.
Qed.
(** The subscripts 0 to n - 1 of a node are walked in the order of the numbers. *)
Definition numbered (d : db) (node : list (list byte)) : Prop :=
  ∀ n : nat, (∀ y, y ∈ subscripts d node ↔ ∃ i, (i < n)%nat ∧ y = dec (Z.of_nat i)) →
  subscripts d node = (λ i : nat, dec (Z.of_nat i)) <$> seq 0 n.

Section tables.
Context (config : QueryConfig) (mem : nat → byte) (depth : nat).
Context (writes : ∀ d k v, ∃ d', ydb_set_s d k v = (YDB_OK, d')).
Context (Hglobals : schema_global config ≠ octo_global config) (Hlocal : schema_global config ≠ lit "%ydboctoloadedschemas" ∧ octo_global config ≠ lit "%ydboctoloadedschemas").
Abbreviation schema := (schema_global config).

(** The table is in the database in these bytes. *)
Record stored_as (d : db) (name b : list byte) : Prop := {
  st_parts : ∀ j, 0 ≤ j → MAX_STR_CONST * j < zlen b → ydb_get_s d (parts_node schema name ++ [dec j]) MAX_STR_CONST = (YDB_OK, part b j);
  st_subscripts : ∀ y, y ∈ subscripts d (parts_node schema name) ↔ ∃ j, 0 ≤ j ∧ MAX_STR_CONST * j < zlen b ∧ y = dec j;
}.
Lemma stored_same d d' name b : same_below (parts_node schema name) d d' → stored_as d name b → stored_as d' name b.
Proof. intros [Hs Hg] [Sp Ss]. split; [intros j ??; rewrite Hg; by apply Sp|intros y; by rewrite Hs]. Qed.
Lemma set_state_inv (f : query_state → query_state) s u s' : set_state f s = Ret (u, s') → s' = f s.
Proof. by intros [= _ <-]. Qed.
Lemma table_stored p s u s' q tableName source columns delim value b :
  create_table config mem depth p s = Ret (u, s') → ps_statement p = table_STATEMENT q tableName source columns delim →
  unpack_value (ps_values p) tableName = Ret value →
  compress_statement (ps_values p) (ps_rings p) depth mem (ps_statement p) = Ret (b, zlen b) → zlen b < 10 ^ 20 →
  subscripts (qs_db s) (parts_node schema (cstr (sv_literal value))) = [] →
  stored_as (qs_db s') (cstr (sv_literal value)) b ∧ same_below (loaded_node (cstr (sv_literal value))) (qs_db s) (qs_db s').
Proof.
  intros E Hp Hv Hc Hb Hnone. unfold create_table in E. rewrite Hc in E. rewrite Hp in E. set (name := cstr (sv_literal value)) in *.
  apply q_bind_inv in E as (text & s1 & [_ ->]%q_lift_inv & E). apply q_bind_inv in E as (v & s1 & [Ev ->]%q_lift_inv & E).
  rewrite Hv in Ev. injection Ev as <-. apply q_bind_inv in E as (nm & s1 & [En ->]%q_lift_inv & E).
  assert (nm = name) as -> by (unfold copy_string in En; destruct (_ <? _); [done|by injection En]).
  apply q_bind_inv in E as (tx & s1 & [_ ->]%q_lift_inv & E). apply q_bind_inv in E as (u1 & s1 & E1%set_q_inv & E).
  apply q_bind_inv in E as ([b' len] & s2 & [Eb ->]%q_lift_inv & E). injection Eb as <- <-.
  apply q_bind_inv in E as (u2 & s2 & E2 & E). apply q_bind_inv in E as (u3 & s3 & E3%set_state_inv & E). subst s3.
  unfold enter_catalogue in E. apply bind_ret_inv in E as ([m' d'] & E4 & [= _ <-]). cbn [qs_db with_db] in *.
  destruct (writes (qs_db s2) [schema; name; lit "l"] (dec (zlen b))) as (d3 & W). rewrite W in E4. cbn [snd] in E4.
  change 0 with (MAX_STR_CONST * 0) in E2 at 1. destruct (store_chunks_spec config name b Hb _ 0 _ _ _ ltac:(lia) E2) as (G & Sub & F).
  assert (B1 : same_below (parts_node schema name) (qs_db s) (qs_db s1)).
  { eapply set_same_below; [exact E1|rewrite ?length_app; cbn; lia|]. intros [l El]. by vm_compute in El. }
  assert (B3 : same_below (parts_node schema name) (qs_db s2) d').
  { eapply same_below_trans; [eapply set_same_below; [exact W|cbn; lia|]|eapply catalogue_below; [done| |exact E4]].
    - intros [l El]. by vm_compute in El.
    - cbn. intros [= El]. by apply Hglobals. }
  split.
  - eapply stored_same; [exact B3|]. split; [exact G|]. intros y. rewrite Sub. destruct B1 as [-> _]. rewrite Hnone. split; [intros [?|?%not_elem_of_nil]; done|by left].
  - eapply same_below_trans; [eapply set_same_below; [exact E1|rewrite ?length_app; cbn; lia|]|eapply same_below_trans; [apply F|eapply same_below_trans; [eapply set_same_below; [exact W|cbn; lia|]|eapply catalogue_below; [done| |exact E4]]]].
    + apply head_apart; [done|]. intros [= El]. by apply (proj1 Hlocal).
    + intros j _ _. apply head_apart; [done|]. intros [= El]. by apply (proj1 Hlocal).
    + apply head_apart; [done|]. intros [= El]. by apply (proj1 Hlocal).
    + intros [= El]. by apply (proj2 Hlocal).
Qed.

(** The number of parts. *)
Definition parts_of (b : list byte) : nat := Z.to_nat ((zlen b + MAX_STR_CONST - 1) / MAX_STR_CONST).
Lemma parts_of_spec b : (∀ j : nat, (j < parts_of b)%nat ↔ MAX_STR_CONST * Z.of_nat j < zlen b) ∧
  zlen b ≤ MAX_STR_CONST * Z.of_nat (parts_of b) < zlen b + MAX_STR_CONST.
Proof.
  assert (Hmax : MAX_STR_CONST = 32768) by done. unfold parts_of. pose proof (zlen_nonneg b). rewrite Hmax.
  pose proof (Z.div_mod (zlen b + 32768 - 1) 32768 ltac:(lia)). pose proof (Z.mod_pos_bound (zlen b + 32768 - 1) 32768 ltac:(lia)).
  split; [intros j; split; intros; lia|]. lia.
Qed.
Lemma stored_numbered d name b : stored_as d name b → numbered d (parts_node schema name) →
  subscripts d (parts_node schema name) = (λ i : nat, dec (Z.of_nat i)) <$> seq 0 (parts_of b).
Proof.
  intros Hst Hnum. apply Hnum. intros y. rewrite (st_subscripts _ _ _ Hst). destruct (parts_of_spec b) as [Hj _]. split.
  - intros (j & Hj0 & Hjb & ->). exists (Z.to_nat j). rewrite Z2Nat.id by done. split; [|done]. apply Hj. by rewrite Z2Nat.id.
  - intros (j & Hjn & ->). exists (Z.of_nat j). split_and!; [lia|by apply Hj|done].
Qed.
Lemma set_node_writes node v d : ∃ d', set_node node v d = Ret d' ∧ ydb_set_s d node v = (YDB_OK, d').
Proof. destruct (writes d node v) as (d' & E). exists d'. unfold set_node. by rewrite E, check_ok. Qed.
Lemma load_le64 z : 0 ≤ z < 2 ^ 64 → load64 (le64 z) 0 = Ret z.
Proof. intros Hz. rewrite (load64_bytes_at _ _ z); [by rewrite u64_small|]. exists [], []. by rewrite app_nil_r. Qed.

Lemma find_loaded names fuel chunk buff name s (p : ptr) t : ydb_get_s (ft_db s) (loaded_node name) MAX_STR_CONST = (YDB_OK, le64 p) →
  0 ≤ p < 2 ^ 64 → ft_loaded s !! p = Some t → (match t with CTable _ _ _ _ => true | _ => false end) = true →
  find_table_from schema (S names) fuel chunk buff name s = Ret (Some p, s).
Proof.
  intros Hg Hp Hl Ht. cbn [find_table_from]. unfold get. rewrite Hg, decide_False, check_ok by (by intros [?|?]). cbn [mbind outcome_bind].
  rewrite load_le64 by done. cbn [mbind outcome_bind]. rewrite Hl. cbn [mbind outcome_bind]. by rewrite Ht.
Qed.

Lemma load_stored p q tableName source columns delim d name b c c' fuel chunk (buff : ptr) l :
  ps_statement p = table_STATEMENT q tableName source columns delim →
  compress_statement (ps_values p) (ps_rings p) depth mem (ps_statement p) = Ret (b, zlen b) →
  content_of (ps_values p) (ps_rings p) depth (ps_statement p) = Some c → is_null c = false → size c + MAX_STR_CONST ≤ INT_MAX →
  assign_table_to_columns c = Ret c' → stored_as d name b → numbered d (parts_node schema name) →
  0 < buff → buff + size c + MAX_STR_CONST < 2 ^ 64 → (parts_of b < fuel)%nat →
  ∃ st, load_table schema fuel chunk buff name (Z.of_nat (parts_of b)) {| ft_db := d; ft_loaded := l |} = Ret (Some buff, st) ∧
    ft_loaded st = <[buff := c']> l ∧ ydb_get_s (ft_db st) (loaded_node name) MAX_STR_CONST = (YDB_OK, le64 buff).
Proof.
  intros Hp Hcomp Hc Hn Hs Ha Hst Hnum Hb0 Hb1 Hf. assert (Hmax : MAX_STR_CONST = 32768) by done.
  destruct (parts_of_spec b) as [Hj Hlen]. set (n := parts_of b) in *. set (N := Z.to_nat (MAX_STR_CONST * Z.of_nat n)).
  destruct (compress_placed (ps_values p) (ps_rings p) depth mem (ps_statement p) c Hc Hn ltac:(lia)) as (b0 & E0 & Hz & _).
  rewrite Hcomp in E0. injection E0 as <- _. assert (HN : Z.of_nat N = MAX_STR_CONST * Z.of_nat n) by (unfold N; lia).
  destruct (stored_loads (ps_values p) (ps_rings p) depth mem (ps_statement p) c buff (replicate (N - length b) nul) (MAX_STR_CONST * Z.of_nat n) (S N) Hc Hn)
    as (b1 & b2 & E1 & _ & E2 & Hl2 & R); [lia|done|unfold zlen in *; rewrite length_replicate; lia..|unfold zlen in *; lia|].
  rewrite Hcomp in E1. injection E1 as <- _. pose proof (stored_numbered d name b Hst Hnum) as Hsub.
  assert (Hlb : length (b ++ replicate (N - length b) nul) = N) by (rewrite length_app, length_replicate; unfold zlen in *; lia).
  assert (Hrp : read_parts fuel d (parts_node schema name) [] 0 (replicate N nul) = Ret (b ++ replicate (N - length b) nul, Z.of_nat n)).
  { assert (Hfull : filled b n n = b ++ replicate (N - length b) nul).
    { unfold filled. cbv zeta. rewrite take_ge; [done|]. unfold zlen in *. lia. }
    assert (Hempty : filled b n 0 = replicate N nul) by (unfold filled; cbv zeta; rewrite Z.mul_0_r; cbn [Z.to_nat take app length]; by rewrite Nat.sub_0_r).
    rewrite <- Hfull, <- Hempty. apply (read_parts_spec d _ b n Hsub) with (r := n) (k := O).
    - intros j Hjn. apply Hj in Hjn. split; [done|]. apply (st_parts _ _ _ Hst); [lia|done].
    - lia.
    - lia.
    - lia.
    - rewrite next_first, Hsub. fold n. by destruct n. }
  assert (Hbs : block_size (Z.of_nat n) = Ret (MAX_STR_CONST * Z.of_nat n)) by (unfold block_size; destruct (Z.ltb_spec INT_MAX (MAX_STR_CONST * Z.of_nat n)); [lia|done]).
  destruct (set_node_writes (loaded_node name) (le64 buff) d) as (d1 & W1 & S1).
  destruct (set_node_writes (loaded_node name ++ [lit "chunk"]) (le64 chunk) d1) as (d2 & W2 & S2).
  exists {| ft_db := d2; ft_loaded := <[buff := c']> l |}. split_and!; [|done|].
  - unfold load_table. rewrite Hbs. cbn [mbind outcome_bind ft_db]. fold N. rewrite Hrp. cbn [mbind outcome_bind]. rewrite Hbs. cbn [mbind outcome_bind].
    rewrite Hlb, E2. cbn [mbind outcome_bind]. rewrite Hl2, Hlb, (represents_read buff b2 c) by (done || unfold zlen in *; lia).
    cbn [mbind outcome_bind]. rewrite Ha. cbn [mbind outcome_bind]. rewrite W1. cbn [mbind outcome_bind]. by rewrite W2.
  - cbn [ft_db]. rewrite (get_set_other _ _ _ _ _ _ S2) by (first [rewrite length_app; cbn; lia|idtac]; intros El; apply (f_equal length) in El; by rewrite length_app in El).
    eapply get_set_same; [exact S1|]. rewrite zlen_le64. lia.
Qed.

(** C12: A table that was created is found.  After CREATE TABLE of a name that has no table,
    [find_table] returns the table: its name, source and delimiter, its columns with their
    names, types and keywords as they were in the statement, in their order, and for each
    column without a PIECE the number of its place.  It is loaded once: from then on the
    same pointer is returned and nothing is read. *)
Theorem created_table_found p s s' u q tableName source columns delim value c c' fuel chunk (buff : ptr) e l st :
  create_table config mem depth p s = Ret (u, s') → ps_statement p = table_STATEMENT q tableName source columns delim →
  unpack_value (ps_values p) tableName = Ret value →
  content_of (ps_values p) (ps_rings p) depth (ps_statement p) = Some c → is_null c = false → size c + MAX_STR_CONST ≤ INT_MAX →
  assign_table_to_columns c = Ret c' →
  subscripts (qs_db s) (parts_node schema (cstr (sv_literal value))) = [] →
  ydb_get_s (qs_db s) (loaded_node (cstr (sv_literal value))) MAX_STR_CONST = (e, l) → e = YDB_ERR_GVUNDEF ∨ e = YDB_ERR_LVUNDEF →
  numbered (qs_db s') (parts_node schema (cstr (sv_literal value))) →
  0 < buff → buff + size c + MAX_STR_CONST < 2 ^ 64 → (Z.to_nat (size c) < fuel)%nat → ft_db st = qs_db s' →
  ∃ st', find_table schema fuel chunk buff (sv_literal value) st = Ret (Some buff, st') ∧ ft_loaded st' = <[buff := c']> (ft_loaded st) ∧
    ∀ fuel' chunk' buff', find_table schema fuel' chunk' buff' (sv_literal value) st' = Ret (Some buff, st').
Proof.
  intros E Hp Hv Hc Hn Hs Ha Hnone Hload Hundef Hnum Hb0 Hb1 Hf Hdb. assert (Hmax : MAX_STR_CONST = 32768) by done. set (name := cstr (sv_literal value)) in *.
  destruct (compress_placed (ps_values p) (ps_rings p) depth mem (ps_statement p) c Hc Hn ltac:(lia)) as (b & E0 & Hz & _). rewrite <- Hz in E0.
  assert (Hb : zlen b < 10 ^ 20) by (unfold INT_MAX in *; lia).
  destruct (table_stored p s u s' q tableName source columns delim value b E Hp Hv E0 Hb Hnone) as [Hst [_ Hkept]]. fold name in Hst, Hkept.
  destruct (parts_of_spec b) as [Hj Hlen]. pose proof (size_pos_nonnull c Hn).
  destruct (load_stored p q tableName source columns delim (qs_db s') name b c c' fuel chunk buff (ft_loaded st) Hp E0 Hc Hn Hs Ha Hst Hnum Hb0 Hb1 ltac:(lia))
    as (st' & E1 & L1 & G1).
  exists st'. split_and!; [|done|].
  - unfold find_table. fold name. cbn [find_table_from]. unfold get. specialize (Hkept [] MAX_STR_CONST). rewrite app_nil_r in Hkept.
    rewrite Hdb, Hkept, Hload, decide_True by done. cbn [mbind outcome_bind].
    rewrite (count_subscripts_spec (qs_db s') _ (subscripts (qs_db s') (parts_node schema name)) []); [|done|apply next_first|].
    2: { rewrite (stored_numbered _ _ _ Hst Hnum), length_fmap, length_seq. lia. }
    cbn [mbind outcome_bind]. rewrite (stored_numbered _ _ _ Hst Hnum). unfold zlen at 1. rewrite length_fmap, length_seq.
    destruct (Z.eqb_spec (Z.of_nat (parts_of b)) 0); [lia|]. rewrite <- E1. destruct st as [d0 l0]. cbn in Hdb |- *. subst d0. unfold zlen. by rewrite length_fmap, length_seq.
  - intros fuel' chunk' buff'. unfold find_table. fold name. eapply find_loaded; [exact G1|lia|rewrite L1; apply lookup_insert_eq|].
    destruct c; try done. cbn in Ha. destruct c3; try done. apply bind_ret_inv in Ha as (? & _ & [= <-]). done.
Qed.
End tables.
End database.

(** ** A sample *)
#[local] Existing Instance map_db.
#[local] Existing Instance map_db_laws.
#[local] Existing Instance map_nodes.
#[local] Existing Instance map_nodes_laws.
#[local] Existing Instance toy_sql.
#[local] Existing Instance toy_runtime.
#[local] Instance map_incr_laws : @IncrLaws map_db map_nodes map_nodes_laws.
Proof.
  split; cbn [ydb_incr_s ydb_get_s subscripts map_nodes map_db map_nodes_laws]; unfold map_incr; intros d k d' v k'.
  - intros n [= <- _] Hk. unfold map_get. by rewrite lookup_insert_ne.
  - intros [= <- _] Hk. f_equal. unfold children. apply leibniz_equiv. intros y. rewrite dom_insert, !elem_of_set_omap.
    split; intros (key & Hkey & E); exists key; (split; [|done]).
    + apply elem_of_union in Hkey as [->%elem_of_singleton|Hkey]; [|done]. by rewrite child_prefix in E.
    + apply elem_of_union. by right.
Qed.
Lemma numbered_one d node : subscripts d node = [dec 0] → numbered d node.
Proof.
  intros E n Hn. destruct n as [|[|n]]; [|done|]; exfalso.
  - destruct (proj1 (Hn (dec 0))) as (i & Hi & _); [rewrite E; by left|lia].
  - assert (Hin : dec 1 ∈ subscripts d node) by (apply Hn; exists 1%nat; split; [lia|done]).
    rewrite E in Hin. by apply list_elem_of_singleton in Hin.
Qed.
Definition names_parsed : parsed := {| ps_statement := names_table; ps_values := names_values; ps_rings := names_rings |}.
Definition names_before : query_state :=
  {| qs_db := empty_db; qs_input := {| in_buffer := []; in_index := 0; in_eof := false |}; qs_errors := []; qs_chunk := NoChunk; qs_prev_gbldir := [];
     qs_parms := {| data_sent := false; max_data_to_send := 0 |}; qs_sent := [] |}.
Definition names_created : outcome (() * query_state) := create_table toy_config sample_mem 6 names_parsed names_before.
Definition names_after : query_state := (returned ((), names_before) names_created).2.
Definition names_loaded : content :=
  let text s := CText STRING_LITERAL UNKNOWN_SqlValueType UNKNOWN_SqlDataType (lit s) in
  CTable (text "names"%string) (CKeywords [(OPTIONAL_SOURCE, text "^names(keys(0))"%string)])
    (CColumns [(text "id"%string, INTEGER_TYPE, CKeywords [(PRIMARY_KEY, text EmptyString); (NO_KEYWORD, CNull); (OPTIONAL_PIECE, text "1"%string)]);
               (text "name"%string, CHARACTER_STRING_TYPE, CKeywords [(OPTIONAL_PIECE, text "1"%string)])]) CNull.
Lemma created_table_found_witness : ∃ st',
  find_table (lit "^schema") 2000 64 4096 (lit "names") {| ft_db := qs_db names_after; ft_loaded := ∅ |} = Ret (Some 4096, st') ∧
  ft_loaded st' = {[4096 := names_loaded]} ∧
  ∀ fuel' chunk' buff', find_table (lit "^schema") fuel' chunk' buff' (lit "names") st' = Ret (Some 4096, st').
Proof.
  apply (created_table_found toy_config sample_mem 6 ltac:(intros; by eexists) ltac:(done) ltac:(done) names_parsed names_before names_after ()
    9 (value_STATEMENT 1 null_STATEMENT) (keyword_STATEMENT [Keyword OPTIONAL_SOURCE (value_STATEMENT 2 null_STATEMENT)]) 10 null_STATEMENT
    (DecompressTheorems.name_value "names") names_content names_loaded 2000 64 4096 YDB_ERR_GVUNDEF [] {| ft_db := qs_db names_after; ft_loaded := ∅ |}).
  - assert (E : names_created = Ret (returned ((), names_before) names_created)) by (apply has_returned_value; vm_compute; reflexivity).
    unfold names_after. change (names_created = Ret ((), (returned ((), names_before) names_created).2)). rewrite E at 1.
    by destruct (returned ((), names_before) names_created) as [[] ?].
  - reflexivity.
  - vm_compute. reflexivity.
  - vm_compute. reflexivity.
  - reflexivity.
  - vm_compute. discriminate.
  - vm_compute. reflexivity.
  - vm_compute. reflexivity.
  - vm_compute. reflexivity.
  - by left.
  - apply numbered_one. vm_compute. reflexivity.
  - lia.
  - vm_compute. reflexivity.
  - vm_compute. lia.
  - reflexivity.
Defined.
